(* ===== verification/_CoqProject ===== *)
-Q . S2P
Prelude.v
Text.v
ParseInt.v
Json.v
Action.v
Event.v
StateMachine.v
Identity.v
State.v
Policy.v
Actuator.v
Store.v
ActionStore.v
Effects.v
Transaction.v
TransactionSafety.v
Registry.v
RegistrySafety.v
Runtime.v
RuntimeSafety.v
Jsonl.v
Screen.v
PlannerSchema.v
Redact.v
Planner.v
Process.v
Ipc.v
Scheduler.v
IpcService.v
Lifecycle.v
Daemon.v
Jobs.v
Services.v
Observe.v
StoreFs.v
ResetTime.v
Lock.v
Hooks.v
Claude.v
Manifest.v
Codex.v
Utf8.v
Mux.v
Linux.v
Tmux.v
Serde.v
Herdr.v
HerdrNative.v
HerdrSafety.v
Host.v
CodexState.v
Attach.v
Registration.v
Config.v
AuditLog.v
ComposerText.v
Target.v
Observers.v
PlannerProcess.v
Paths.v
Macos.v
DaemonClient.v
Doctor.v
Startup.v
Notify.v
Cli.v
TrustedParent.v
HookFiles.v
ObservationLoop.v
