(* ===== verification/Prelude.v ===== *)
(** * WatchMe: a verified model of the recovery daemon

    WatchMe is a daemon that watches terminal agents (Claude Code, Codex) in
    multiplexer panes and, when an agent is stuck on a limit or an outage, brings it
    back: it observes, confirms the evidence, picks an action, checks it against a
    compiled policy, performs it at most once and verifies the outcome, or hands
    the watcher to a human.  This library models that path and proves the
    properties it rests on.  Paths below are relative to src/src/.

    ** How the program fits together

    Observers produce [Event]s about a target.  The registry keeps one
    [WatcherState] per target, with its recovery machine, in memory and in one JSON
    file, and confirms an event on the machine when it is stable.  The recovery
    runtime takes a confirmed watcher, lets the recipes propose an [Action], begins
    the attempt on the machine, takes a dispatch snapshot and runs a transaction:
    revalidate, authorise, claim in the durable ledger, revalidate, persist the
    commit boundary, execute, persist, verify.  Input to a pane goes through the
    multiplexer actuator under the registry lock, and only while the snapshot still
    matches.

    ** Files

    - Prelude: results with the [?] operator, machine integers, generic lemmas,
      the [watch] hint databases.
    - Text: UTF-8 decoding and the character classes of [char].
    - Json: [serde_json::Value] and [f64].
    - Action (model/action.rs): actions, constructors, [validate].
    - Event (model/event.rs): event categories, ranks, validation, decoding.
    - Identity (model/identity.rs): process and pane identities, versioned wire form.
    - State (model/state.rs): [WatcherState], setters, decoding.
    - StateMachine (recovery/state_machine.rs): every command of [RecoveryMachine],
      [apply] and [restore_for_restart]; the step relation of runs.
    - Policy (policy.rs): [authorize] and the declarative policy it decides.
    - Actuator (recovery/actuator.rs, mux/mod.rs): the two executors.
    - Store (store.rs): the outcomes of a write and of a load.
    - ActionStore (recovery/action_store.rs): the ledger, each operation taking the
      outcome of its disk write.
    - Effects: programs as trees of trait calls, [traces] (all conversations with
      any environment), [interp] (a run against a handler), [wp] (the logic of
      protocols), [translate] and [refines] (one program serving the operations of
      another).
    - Transaction, TransactionSafety (recovery/transaction.rs): [run],
      [recover_after_restart], [recover_stale].
    - Registry, RegistrySafety (daemon/registry.rs, recovery/coordinator.rs): every
      registry operation with its write outcome, the coordinator's commands.
    - Runtime, RuntimeSafety (daemon/recovery_runtime.rs, recovery/engine.rs, parts
      of daemon/mod.rs): evidence reading, the daemon executor, the whole recovery
      flow, with the registry lock explicit.
    - Jsonl (observe/jsonl.rs): the incremental reader with its generation guard.
    - Screen (observe/screen.rs): the terminal sanitizer, trusted screens, the
      debouncer.
    - PlannerSchema (planner/schema.rs): the strict JSON parser, its grammar, plan
      bounds and plan validation.
    - Redact (redact.rs): text, URL and JSON redaction.
    - Planner (planner/mod.rs, planner/router.rs): routing, snapshots, the broker's
      budgets as functions and as a step relation of interleaved requests.
    - Process (process/mod.rs, process/scoring.rs): ancestry, scoring, selection and
      the lifecycle monitor of one process, over an abstract inspector.
    - Ipc (ipc/): length-prefixed frames, requests and responses, peer validation.
    - Scheduler (daemon/scheduler.rs): the event loop that keeps the daemon alive.
    - IpcService (daemon/ipc_service.rs): requests on the registry and scheduler.
    - Lifecycle (daemon/lifecycle.rs): a monitoring tick over all watchers.
    - Daemon (daemon/mod.rs): the loop that composes the four files above.
    - Jobs (daemon/recovery_jobs.rs): due passes, commits of observations, and the
      recovery supervisor as a step relation of threads.
    - Services (daemon/runtime_services.rs, notify.rs): the runtime services of the
      actuator and notification delivery.
    - Observe (observe/mod.rs): fingerprints, the evidence merger, the cadence.
    - StoreFs (store.rs): the file-system steps behind Store, with crashes.
    - ResetTime (recovery/reset_time.rs): the parser of reset messages.
    - Lock (daemon/lock.rs): the daemon lock as a step relation of processes.
    - Hooks (hooks/claude.rs): the StopFailure hook, its payload, settings and markers.
    - Claude (agents/claude.rs): classification, wait menus, events and recipes.
    - Manifest (agents/manifest.rs): provider manifests, their validation, loading,
      capabilities, listing and recipes.
    - Codex (agents/codex.rs): goal snapshots, structured sources, rollouts, events,
      the goal recipes and the composition of all recipe providers.
    - ParseInt: the integer parsers of the standard library.
    - Utf8: bytes as text, lossy decoding, lines and records of a file.
    - Mux (mux/mod.rs): the multiplexer interface as programs, its binding to the
      actuator, and the properties that logs of conversations inherit.
    - Linux, Macos (process/linux.rs, process/macos.rs): the two process inspectors,
      over the files of /proc and the output of ps.
    - Tmux (mux/tmux.rs): every operation of the tmux driver over the tmux command.
    - Serde: the decoding of tagged JSON records shared by the protocols.
    - Herdr, HerdrNative, HerdrSafety (mux/herdr/): the socket with its verification,
      exchanges and their commit state, the bridge and the native protocol, the driver,
      and what its writes are backed by.
    - Host: environment, paths and file metadata as calls, for the three files below.
    - CodexState (agents/codex_state.rs): rollout tails, capacity verdicts, goal rows.
    - Attach (codex_attachment.rs, claude_attachment.rs): the sessions a watcher gets.
    - Registration (registration_context.rs): the watcher made of the current process.
    - Config (config.rs): layers, decoding, validation, redacted display.
    - AuditLog (audit.rs): the log, retention, following, decision chains, snapshots.
    - ComposerText (daemon/codex_composer.rs): the composer state of a Codex screen.
    - Target (target functions of daemon/mod.rs and daemon/recovery_runtime.rs): the
      drivers linked with the composer guard, and execution on a watched target.
    - Observers (daemon/observer_runtime.rs): what one observation reads and returns.
    - PlannerProcess (planner/process.rs): the planner's process, readers and clean-up.
    - Paths (paths.rs): the managed directories and the walk that creates them, with the
      flags and modes of its calls.
    - DaemonClient (daemon_client.rs): requests, the start of a daemon, diagnostics.
    - Doctor (doctor.rs): the checks, the verdict and the provider rows.
    - Startup (daemon/mod.rs, ipc/mod.rs): the life of the daemon from the lock to its
      release, with the connection tasks it spawns, and the scans over abandoned actions.
    - Notify (notify.rs, daemon/runtime_services.rs): the notification service with its
      three back ends, behind the chain of Services.
    - Cli (cli.rs, main.rs, hook_cli.rs): every command, its printing and exit status.
    - TrustedParent (store.rs): the opening of the directory of a state file.
    - ObservationLoop (daemon/recovery_jobs.rs): the loop around the passes of Jobs.
    - HookFiles (hooks/claude.rs, agents/codex.rs): the file checks, writes and reads
      around Hooks and Codex, the marker file with its bytes among them.

    ** What the theorems show

    - End to end: input is dispatched at most once per recovery, under the lock,
      behind an accepted attempt, an authorisation, a granted claim and a durable
      commit record; a begun attempt is settled.
    - Transactions: execution happens once and behind the commit boundary; a
      possible side effect is never recorded as a failure; success is durable and
      verified; the run terminates; restart and lease recovery close records.
    - Ledger: an idempotency key is granted once and a target has one active
      transaction, across crashes and failed writes.
    - State machine: the invariant of reachable machines, attempt, cooldown and
      revalidation discipline, no repetition after success.
    - Registry: failure atomicity, no ABA behind dispatch snapshots, uniqueness of
      watched processes, the restart discipline, refinement of the state machine.
    - Policy and actuators: [authorize] decides the declarative policy; the
      actuators are total on valid actions and make only the calls they name.
    - Reader: polling delivers each record of a growing file exactly once, as long as no
      line exceeds the record limit.
    - Screens: sanitized text is safe, bounded and independent of chunking; the
      actionable bottom and the debouncer meet declarative specifications.
    - Planner: the parser decides a grammar without duplicate keys; returned actions
      are validated and authorised; routing, budgets and their limits; redaction does
      not depend on sensitive fields.
    - Daemon: resolution and lifecycle monitoring never mistake a process; only the
      owner's valid requests change the registry; the daemon stops exactly when
      nothing is live; live watchers are observed at least every 65 seconds; recovery
      sees only committed observations; shutdown leaves no worker; one daemon holds
      the lock; frames round-trip; a state file is replaced atomically.
    - Claude: the recipes are conservative, select exactly the wait row of a menu and
      resume at the deadline they waited for; a StopFailure reaches the daemon through
      a marker file that one hook at a time writes and that stays within its size limit;
      reset times lie in the future.
    - Codex and manifests: the composed recipes are conservative; a validated manifest
      stays within the policy; recipes of manifests never produce an action; an event
      made from a rollout cannot be read back from the state file.
    - Drivers: every write of an action goes to a verified socket or to the recorded
      pane, and, on a watched target, behind a fresh look at its composer; parsers of
      tmux and of /proc invert what they read, where it is text within the limits.
    - Observation: every returned event is backed by what was read for it; capacity
      verdicts are exact; sessions are attached only to processes that hold them; the
      loop observes a live watcher within 65 seconds and the length of one pass.
    - Daemon life: the socket and the state belong to the holder of the lock, connections
      are served only under it, a shutdown waits for every recovery job, and a restart
      leaves no action in flight; the theorem names the two paths on which a socket file
      stays and connections are cut off.
    - Configuration and audit: layers merge key by key and round-trip; retention keeps
      the newest whole events within its limits.
    - Command line: each command makes only the calls it is for, and a dry run changes
      nothing; [--json] is answered with an envelope, with the exceptions the theorem
      names; the log is followed without repetition while what is appended at a time fits
      the buffer; the settings of Claude are replaced as a whole; managed directories and
      trusted parents are walked to with [O_NOFOLLOW]; the diagnostic of a failed daemon
      shows no line that names a credential within its first 512 bytes.
    Some theorems state behaviour that departs from the intent of the code (the last
    attempt of a budget is always denied, a restart keeps a clock reading of the
    previous process, a discarded line takes the next record with it, interleaved
    planner calls overrun their budget, a snapshot can abort the daemon, a replaced
    scheduler keeps the daemon alive, a wake during an observation is lost, a
    re-execution may be bound to a watched process, an ordinary word hides a reset time,
    a torn lock file is never taken over, the
    composer check of a tmux pane reads its oldest bytes, a watcher registered in tmux never
    validates, concurrent hooks lose their markers, a followed log has a gap, a capacity
    message counts although other replies follow it, a doctor that finds problems answers
    [--json] with two lines, a credential named after the cut of the diagnostic is shown).

    ** Modelling choices and bounds

    Rust integers are [Z] with the width written where it matters ([u64_max],
    [checked_add], [saturating_add]); the crate is built with overflow checks and
    [panic = abort].  Maps keyed by strings are [gmap string].  A fallible method
    returns [result]; a [&mut self] method returns the state it leaves, on the error
    path too.  A disk write is an argument that says whether it succeeded and, if
    not, whether the rename had taken effect.  Code against traits is a [Prog]
    whose answers are arbitrary, so the safety theorems hold for every environment.

    The fuel of a program is that of the verification loop of
    [Transaction.run]: the loop sleeps 100 ms per round up to a deadline of
    [timeout] seconds, so [10 * timeout + 1] rounds suffice ([run_terminates]); the
    safety theorems hold for every fuel.  The strict parser takes two units of fuel per
    input byte and one more, which its theorem shows to be enough.

    The step relations of Jobs and Lock interleave single accesses and system calls of
    any number of threads or processes; StoreFs lets a crash keep any directory version
    since the last sync and any content of an unsynced file.

    Library code (the RFC 3339 parser, chrono's calendar, SHA-256, [Debug] rendering, serde_json's
    decoders, [DefaultHasher], the regex crate) is given as class parameters.

    The readers of Claude, Codex, tmux, Herdr, the paths, the client, the daemon loop, the
    notification service and the command line are programs too, over the calls each file
    lists.  Loops that end only when their environment says so (accepting connections,
    following a log, waiting for a daemon) take fuel and answer [None], [Running] or
    [OutOfFuel] when it is spent; nineteen attempts are shown to be enough for the wait of
    the client, and the safety theorems hold for every fuel.

    ** Not modelled

    The kernel, the tmux, Herdr, ps and planner programs, SQLite and the tokio runtime are
    the environment: their answers are arbitrary and their tasks are the steps of the
    relations above.  Text is parsed and printed by clap, serde_json, toml and the regex
    crate, which are parameters.  Left out are module lists and re-exports, test doubles
    and tests, accessors and builders that only tests use, and the asynchronous
    registration helper of client.rs, which nothing in the program calls. *)
From stdpp Require Export base gmap strings list sorting.
From Stdlib Require Export ZArith Lia.
From Stdlib Require Import Ascii.

Local Open Scope Z_scope.

(** ** Results

    Rust's [Result<T, E>]; [Err] carries the message or error value of the
    source. *)
Inductive result (E A : Type) : Type :=
| Ok (a : A)
| Err (e : E).
Arguments Ok {E A} a.
Arguments Err {E A} e.

Declare Scope watch_scope.
Delimit Scope watch_scope with watch.

Definition rbind {E A B} (r : result E A) (f : A → result E B) : result E B :=
  match r with Ok a => f a | Err e => Err e end.

Definition map_err {E F A} (f : E → F) (r : result E A) : result F A :=
  match r with Ok a => Ok a | Err e => Err (f e) end.

Definition ok_or {E A} (o : option A) (e : E) : result E A :=
  match o with Some a => Ok a | None => Err e end.

Definition is_ok {E A} (r : result E A) : bool :=
  match r with Ok _ => true | Err _ => false end.

(** The [?] operator. *)
Notation "'let?' x ':=' c 'in' k" := (rbind c (λ x, k))
  (at level 10, x name, c at level 100, k at level 200) : watch_scope.
Open Scope watch_scope.

(** Early return of an error when a guard holds. *)
Definition fail_if {E} (b : bool) (e : E) : result E unit :=
  if b then Err e else Ok tt.

Lemma rbind_Ok {E A B} (r : result E A) (f : A → result E B) b :
  rbind r f = Ok b ↔ ∃ a, r = Ok a ∧ f a = Ok b.
Proof. destruct r; simpl; naive_solver. Qed.

Lemma map_err_Ok {E F A} (f : E → F) (r : result E A) a :
  map_err f r = Ok a ↔ r = Ok a.
Proof. destruct r; simpl; naive_solver. Qed.

Lemma ok_or_Ok {E A} (o : option A) (e : E) a : ok_or o e = Ok a ↔ o = Some a.
Proof. destruct o; simpl; naive_solver. Qed.

Lemma fail_if_Ok {E} b (e : E) u : fail_if b e = Ok u ↔ b = false.
Proof. destruct b, u; simpl; naive_solver. Qed.

(** ** Machine integers

    A [w]-bit unsigned integer is a [Z]; every operation names the width it
    wraps, saturates or overflows at.  The release profile of the crate sets
    [overflow-checks = true] and [panic = "abort"], so unchecked arithmetic
    that leaves the width aborts the process. *)
Definition u8_max : Z := 255.
Definition u16_max : Z := 65535.
Definition u32_max : Z := 4294967295.
Definition u64_max : Z := 18446744073709551615.
Definition i64_max : Z := 9223372036854775807.

Definition in_width (m z : Z) : bool := (0 <=? z) && (z <=? m).

Definition saturating_add (m a b : Z) : Z := Z.min m (a + b).
Definition saturating_sub (a b : Z) : Z := Z.max 0 (a - b).
Definition saturating_mul (m a b : Z) : Z := Z.min m (a * b).
Definition checked_add (m a b : Z) : option Z :=
  if a + b <=? m then Some (a + b) else None.
Definition wrapping_add (m a b : Z) : Z := (a + b) mod (m + 1).
Definition wrapping_mul (m a b : Z) : Z := (a * b) mod (m + 1).

Lemma in_width_spec m z : in_width m z = true ↔ 0 ≤ z ≤ m.
Proof. unfold in_width. rewrite andb_true_iff, !Z.leb_le. done. Qed.

Lemma checked_add_Some m a b c :
  checked_add m a b = Some c ↔ c = a + b ∧ a + b ≤ m.
Proof.
  unfold checked_add. destruct (Z.leb_spec (a + b) m); naive_solver lia.
Qed.

(** ** [std::time::Duration], in nanoseconds *)
Definition NANOS_PER_SEC : Z := 1000000000.
Definition duration_max : Z := u64_max * NANOS_PER_SEC + 999999999.
Definition from_secs (s : Z) : Z := s * NANOS_PER_SEC.
Definition as_secs (d : Z) : Z := d / NANOS_PER_SEC.

Lemma as_secs_from_secs s : as_secs (from_secs s) = s.
Proof. unfold as_secs, from_secs. by rewrite Z.div_mul. Qed.

Lemma as_secs_mono d e : d ≤ e → as_secs d ≤ as_secs e.
Proof. intros. apply Z.div_le_mono; [done|lia]. Qed.

(** ** Strings

    A Rust [String] is its UTF-8 bytes; [str::len] counts bytes. *)
Definition len (s : string) : Z := Z.of_nat (String.length s).
Definition bytes (s : string) : list ascii := String.list_ascii_of_string s.
Definition byte_val (a : ascii) : Z := Z.of_N (N_of_ascii a).
Definition is_empty (s : string) : bool := String.eqb s "".

Definition is_ascii_digit (a : ascii) : bool :=
  let v := byte_val a in (48 <=? v) && (v <=? 57).
Definition is_ascii_uppercase (a : ascii) : bool :=
  let v := byte_val a in (65 <=? v) && (v <=? 90).
Definition is_ascii_lowercase (a : ascii) : bool :=
  let v := byte_val a in (97 <=? v) && (v <=? 122).
Definition is_ascii_alphanumeric (a : ascii) : bool :=
  is_ascii_digit a || is_ascii_uppercase a || is_ascii_lowercase a.
Definition is_ascii_hexdigit (a : ascii) : bool :=
  let v := byte_val a in
  is_ascii_digit a || ((65 <=? v) && (v <=? 70)) || ((97 <=? v) && (v <=? 102)).
(** [u8::is_ascii_whitespace]: tab, LF, FF, CR, space (VT is not included). *)
Definition is_ascii_whitespace (a : ascii) : bool :=
  let v := byte_val a in
  (v =? 9) || (v =? 10) || (v =? 12) || (v =? 13) || (v =? 32).

Definition ascii_lower (a : ascii) : ascii :=
  if is_ascii_uppercase a then ascii_of_N (N_of_ascii a + 32) else a.
Definition ascii_upper (a : ascii) : ascii :=
  if is_ascii_lowercase a then ascii_of_N (N_of_ascii a - 32) else a.

Fixpoint string_map (f : ascii → ascii) (s : string) : string :=
  match s with
  | EmptyString => EmptyString
  | String a s' => String (f a) (string_map f s')
  end.
Definition to_ascii_lowercase (s : string) : string := string_map ascii_lower s.
Definition to_ascii_uppercase (s : string) : string := string_map ascii_upper s.

Definition starts_with (p s : string) : bool := String.prefix p s.

Fixpoint ends_with (p s : string) : bool :=
  String.eqb p s ||
  match s with EmptyString => false | String _ s' => ends_with p s' end.

(** [str::contains] of a literal needle. *)
Fixpoint contains (p s : string) : bool :=
  String.prefix p s ||
  match s with EmptyString => false | String _ s' => contains p s' end.

Lemma prefix_split p s : String.prefix p s = true ↔ ∃ rest, s = p +:+ rest.
Proof.
  revert s. induction p as [|c p IH]; intros [|d s]; cbn; [split; [by exists ""|done]|split; [by exists (String d s)|done]| |].
  - split; [done|by intros [? ?]].
  - destruct (Ascii.ascii_dec c d) as [->|Hn].
    + rewrite IH. split; intros [rest Hr]; exists rest; [by rewrite Hr|by injection Hr].
    + split; [done|]. intros [rest Hr]. injection Hr as ? ?. by subst.
Qed.

Lemma contains_split p s : contains p s = true ↔ ∃ before after, s = before +:+ p +:+ after.
Proof.
  induction s as [|c s IH]; cbn [contains]; rewrite orb_true_iff; unfold starts_with; rewrite prefix_split.
  - split; [intros [[rest Hr]|Hn]; [by exists "", rest|done]|].
    intros (before & after & Hs). left. destruct before; [by exists after|done].
  - rewrite IH. split.
    + intros [[rest Hr]|(before & after & ->)]; [by exists "", rest|by exists (String c before), after].
    + intros ([|d before] & after & Hs); [left; by exists after|right]. injection Hs as <- ->. by eexists _, _.
Qed.

(** [matches!(s, "a" | "b" | ...)]. *)
Definition one_of (l : list string) (s : string) : bool := existsb (String.eqb s) l.

(** [str.bytes().enumerate().all(f)]. *)
Fixpoint all_enumerate {A} (f : nat → A → bool) (i : nat) (l : list A) : bool :=
  match l with [] => true | x :: l' => f i x && all_enumerate f (S i) l' end.

(** [s.rsplit(c).next()]: what follows the last occurrence of [c]. *)
Fixpoint after_last_aux (c : ascii) (acc : string) (s : string) : string :=
  match s with
  | EmptyString => acc
  | String a s' =>
      if Ascii.eqb a c then after_last_aux c s' s' else after_last_aux c acc s'
  end.
Definition after_last (c : ascii) (s : string) : string := after_last_aux c s s.

(** [Option<&str>] comparison. *)
Definition opt_str_eqb (a b : option string) : bool := bool_decide (a = b).

Lemma one_of_spec l s : one_of l s = true ↔ s ∈ l.
Proof.
  unfold one_of. rewrite existsb_exists. setoid_rewrite String.eqb_eq.
  rewrite list_elem_of_In. naive_solver.
Qed.

Lemma opt_str_eqb_iff o o' : opt_str_eqb o o' = true ↔ o = o'.
Proof. unfold opt_str_eqb. apply bool_decide_eq_true. Qed.

Lemma len_nonneg s : 0 ≤ len s.
Proof. unfold len. lia. Qed.

Lemma len_zero s : len s = 0 ↔ s = "".
Proof. unfold len. destruct s; simpl; split; intros; [done|done|lia|done]. Qed.

Lemma is_empty_spec s : is_empty s = true ↔ s = "".
Proof. apply String.eqb_eq. Qed.

Lemma is_empty_false s : is_empty s = false ↔ s ≠ "".
Proof. apply String.eqb_neq. Qed.

(** ** [BTreeMap<String, V>]

    Maps are stdpp's [gmap string V]; a traversal visits the keys in Rust's
    [Ord] order on [String], which is the byte-lexicographic order. *)
Definition key_le {V} (p q : string * V) : Prop := String.le p.1 q.1.

#[global] Instance key_le_dec {V} : RelDecision (@key_le V).
Proof. intros p q. unfold key_le. apply _. Defined.

#[global] Instance key_le_trans {V} : Transitive (@key_le V).
Proof. intros p q r. unfold key_le. intros H1 H2. by etrans. Qed.

#[global] Instance key_le_total {V} : Total (@key_le V).
Proof. intros p q. unfold key_le. apply (total String.le). Qed.

Definition btree_entries {V} (m : gmap string V) : list (string * V) :=
  merge_sort key_le (map_to_list m).
Definition btree_values {V} (m : gmap string V) : list V := snd <$> btree_entries m.
Definition btree_keys {V} (m : gmap string V) : list string := fst <$> btree_entries m.

(** [iter.collect::<BTreeMap<_, _>>()]: later pairs win. *)
Definition btree_collect {V} (l : list (string * V)) : gmap string V :=
  foldl (λ m p, <[p.1 := p.2]> m) ∅ l.

Lemma elem_of_btree_entries {V} (m : gmap string V) k v :
  (k, v) ∈ btree_entries m ↔ m !! k = Some v.
Proof.
  unfold btree_entries. rewrite merge_sort_Permutation. apply elem_of_map_to_list.
Qed.

Lemma elem_of_btree_values {V} (m : gmap string V) v :
  v ∈ btree_values m ↔ ∃ k, m !! k = Some v.
Proof.
  unfold btree_values. rewrite list_elem_of_fmap. split.
  - intros ([k w] & -> & Hin). exists k. by apply elem_of_btree_entries.
  - intros [k Hk]. exists (k, v). split; [done|]. by apply elem_of_btree_entries.
Qed.

Lemma btree_entries_sorted {V} (m : gmap string V) :
  StronglySorted key_le (btree_entries m).
Proof. apply StronglySorted_merge_sort; apply _. Qed.

Lemma btree_entries_NoDup {V} (m : gmap string V) : NoDup (btree_entries m).*1.
Proof.
  unfold btree_entries. rewrite merge_sort_Permutation. apply NoDup_fst_map_to_list.
Qed.

Lemma btree_collect_app {V} (l1 l2 : list (string * V)) k :
  btree_collect (l1 ++ l2) !! k =
    match btree_collect l2 !! k with
    | Some v => Some v | None => btree_collect l1 !! k end.
Proof.
  unfold btree_collect. rewrite foldl_app.
  generalize (foldl (λ (m : gmap string V) p, <[p.1:=p.2]> m) ∅ l1). intros m.
  induction l2 as [|[k2 v2] l2 IH] using rev_ind; simpl.
  - by rewrite lookup_empty.
  - rewrite !foldl_app. simpl. rewrite !lookup_insert. case_decide; [done|]. apply IH.
Qed.

Lemma btree_collect_Some {V} (l : list (string * V)) k v :
  btree_collect l !! k = Some v → (k, v) ∈ l.
Proof.
  unfold btree_collect. induction l as [|[k2 v2] l IH] using rev_ind; simpl.
  - by rewrite lookup_empty.
  - rewrite foldl_app. simpl. rewrite lookup_insert. case_decide.
    + intros. simplify_eq. set_solver.
    + intros ?%IH. set_solver.
Qed.

Lemma btree_collect_NoDup {V} (l : list (string * V)) k v :
  NoDup l.*1 → (k, v) ∈ l → btree_collect l !! k = Some v.
Proof.
  unfold btree_collect. induction l as [|[k2 v2] l IH] using rev_ind; simpl.
  - intros _ ?%elem_of_nil. done.
  - rewrite fmap_app. intros (Hnd & Hdis & _)%NoDup_app Hin.
    rewrite foldl_app. simpl. rewrite lookup_insert.
    apply elem_of_app in Hin as [Hin|Hin].
    + case_decide; [|by auto]. subst. exfalso.
      apply (Hdis k); [|set_solver]. by apply (list_elem_of_fmap_2 fst l (k, v)).
    + apply list_elem_of_singleton in Hin. simplify_eq. by rewrite decide_True.
Qed.

(** Collecting the entries of a map gives the map back. *)
Lemma btree_collect_entries {V} (m : gmap string V) :
  btree_collect (btree_entries m) = m.
Proof.
  apply map_eq. intros k. destruct (m !! k) as [v|] eqn:E.
  - apply btree_collect_NoDup; [apply btree_entries_NoDup|].
    by apply elem_of_btree_entries.
  - apply eq_None_not_Some. intros [v Hv]. apply btree_collect_Some in Hv.
    apply elem_of_btree_entries in Hv. congruence.
Qed.

(** ** Lists *)

(** [Iterator::find]. *)
Fixpoint find_first {A} (f : A → bool) (l : list A) : option A :=
  match l with [] => None | x :: l' => if f x then Some x else find_first f l' end.

Lemma find_first_Some {A} (f : A → bool) l x :
  find_first f l = Some x → x ∈ l ∧ f x = true.
Proof.
  induction l as [|y l IH]; simpl; [done|].
  destruct (f y) eqn:E; intros; simplify_eq; set_solver.
Qed.

Lemma find_first_None {A} (f : A → bool) l :
  find_first f l = None ↔ ∀ x, x ∈ l → f x = false.
Proof.
  induction l as [|y l IH]; simpl.
  - split; [|done]. by intros _ x ?%elem_of_nil.
  - destruct (f y) eqn:E.
    + split; [done|]. intros H. rewrite (H y) in E; [done|by left].
    + rewrite IH. split; intros H x Hx; [|by apply H; right].
      apply elem_of_cons in Hx as [->|?]; auto.
Qed.

Lemma forallb_elem {A} (f : A → bool) l :
  forallb f l = true ↔ ∀ x, x ∈ l → f x = true.
Proof. rewrite forallb_forall. by setoid_rewrite list_elem_of_In. Qed.

Lemma existsb_elem {A} (f : A → bool) l :
  existsb f l = true ↔ ∃ x, x ∈ l ∧ f x = true.
Proof. rewrite existsb_exists. by setoid_rewrite list_elem_of_In. Qed.

Lemma existsb_false_elem {A} (f : A → bool) l :
  existsb f l = false ↔ ∀ x, x ∈ l → f x = false.
Proof.
  rewrite <- not_true_iff_false, existsb_elem. split.
  - intros H x Hx. apply not_true_iff_false. naive_solver.
  - intros H (x & Hx & Hf). rewrite H in Hf; done.
Qed.

(** ** Automation *)
Create HintDb watch.
Create Rewrite HintDb watch.

#[export] Hint Rewrite
  @rbind_Ok @map_err_Ok @ok_or_Ok @fail_if_Ok
  andb_true_iff orb_false_iff negb_true_iff negb_false_iff
  Z.leb_le Z.ltb_lt Z.leb_gt Z.ltb_ge Z.eqb_eq Z.eqb_neq
  String.eqb_eq String.eqb_neq bool_decide_eq_true bool_decide_eq_false
  in_width_spec one_of_spec is_empty_spec @forallb_elem : watch.

(** Split the boolean and [Ok] facts of the context into propositions. *)
Ltac inv_watch :=
  repeat match goal with
  | H : _ = _ |- _ => progress (autorewrite with watch in H)
  | H : _ ∧ _ |- _ => destruct H
  | H : ∃ x, _ |- _ => let y := fresh x in destruct H as [y H]
  end; simplify_eq/=.

(** Case analysis on the innermost boolean test of the goal or of [H]. *)
Ltac case_bool :=
  match goal with
  | |- context [if ?b then _ else _] =>
      lazymatch b with context [if _ then _ else _] => fail | _ => destruct b eqn:? end
  end.
Ltac case_bool_in H :=
  match type of H with
  | context [if ?b then _ else _] =>
      lazymatch b with context [if _ then _ else _] => fail | _ => destruct b eqn:? end
  end.

(** Linear arithmetic with division and remainder by constants. *)
Ltac dm_lia := intros; Z.to_euclidean_division_equations; lia.
