(* ===== verification/Text.v ===== *)
(** * UTF-8 text

    Rust's [char]s of a [&str]: the UTF-8 decoding of its bytes, the encoding
    that inverts it, and the character classes the sources use
    ([char::is_control], [char::is_whitespace]). *)
From S2P Require Import Prelude.
From Stdlib Require Import Ascii.

Local Open Scope Z_scope.

Definition cont_bits (b : Z) : Z := Z.land b 63.

(** [str::chars] as code points.  A [&str] is valid UTF-8 by type; a byte
    sequence that is not decodes to the replacement character. *)
Fixpoint decode_utf8 (l : list Z) : list Z :=
  match l with
  | [] => []
  | b0 :: l1 =>
      if b0 <? 128 then b0 :: decode_utf8 l1
      else if b0 <? 192 then 65533 :: decode_utf8 l1
      else
        match l1 with
        | [] => [65533]
        | b1 :: l2 =>
            if b0 <? 224 then
              (Z.land b0 31 * 64 + cont_bits b1) :: decode_utf8 l2
            else
              match l2 with
              | [] => [65533]
              | b2 :: l3 =>
                  if b0 <? 240 then
                    (Z.land b0 15 * 4096 + cont_bits b1 * 64 + cont_bits b2)
                      :: decode_utf8 l3
                  else
                    match l3 with
                    | [] => [65533]
                    | b3 :: l4 =>
                        (Z.land b0 7 * 262144 + cont_bits b1 * 4096
                         + cont_bits b2 * 64 + cont_bits b3) :: decode_utf8 l4
                    end
              end
        end
  end.

Definition byte_list (s : string) : list Z := byte_val <$> bytes s.
Definition chars (s : string) : list Z := decode_utf8 (byte_list s).

(** The encoding of one code point ([char::encode_utf8]). *)
Definition encode_char (c : Z) : list Z :=
  if c <? 128 then [c]
  else if c <? 2048 then [192 + c / 64; 128 + c mod 64]
  else if c <? 65536 then [224 + c / 4096; 128 + c / 64 mod 64; 128 + c mod 64]
  else [240 + c / 262144; 128 + c / 4096 mod 64; 128 + c / 64 mod 64; 128 + c mod 64].

Definition encode_utf8 (cs : list Z) : list Z := mbind encode_char cs.

(** [char::is_control]: the Unicode category Cc. *)
Definition is_control (c : Z) : bool :=
  ((0 <=? c) && (c <=? 31)) || ((127 <=? c) && (c <=? 159)).

Definition in_range (lo hi b : Z) : bool := (lo <=? b) && (b <=? hi).

Lemma in_range_spec lo hi b : in_range lo hi b = true ↔ lo ≤ b ≤ hi.
Proof. unfold in_range. rewrite andb_true_iff, !Z.leb_le. done. Qed.

Lemma in_range_false lo hi b : in_range lo hi b = false ↔ ¬ lo ≤ b ≤ hi.
Proof. rewrite <- in_range_spec. destruct (in_range lo hi b); naive_solver. Qed.

(** [char::is_whitespace] (the White_Space property). *)
Definition is_whitespace (c : Z) : bool :=
  in_range 9 13 c || in_range 8192 8202 c
  || existsb (Z.eqb c) [32; 133; 160; 5760; 8232; 8233; 8239; 8287; 12288].

Fixpoint trim_start (l : list Z) : list Z :=
  match l with
  | c :: l' => if is_whitespace c then trim_start l' else l
  | [] => []
  end.

Definition trim (l : list Z) : list Z := reverse (trim_start (reverse (trim_start l))).

(** The string of a byte sequence, and [str::trim]. *)
Definition string_of_bytes (l : list Z) : string :=
  String.string_of_list_ascii ((λ z, ascii_of_N (Z.to_N z)) <$> l).
Definition trim_string (s : string) : string := string_of_bytes (encode_utf8 (trim (chars s))).

Lemma land_mask a n : 0 ≤ n → Z.land a (Z.ones n) = a mod 2 ^ n.
Proof. apply Z.land_ones. Qed.

Lemma cont_bits_mod b : cont_bits b = b mod 64.
Proof. exact (land_mask b 6 ltac:(lia)). Qed.

(** Decoding inverts encoding, for every Unicode scalar value. *)
Lemma decode_encode_char c l :
  0 ≤ c ≤ 1114111 → decode_utf8 (encode_char c ++ l) = c :: decode_utf8 l.
Proof.
  intros Hc. unfold encode_char.
  destruct (Z.ltb_spec c 128); [|destruct (Z.ltb_spec c 2048);
    [|destruct (Z.ltb_spec c 65536)]]; cbn [app decode_utf8].
  - by replace (c <? 128) with true by lia.
  - replace (192 + c / 64 <? 128) with false by (symmetry; apply Z.ltb_ge; dm_lia).
    replace (192 + c / 64 <? 192) with false by (symmetry; apply Z.ltb_ge; dm_lia).
    replace (192 + c / 64 <? 224) with true by (symmetry; apply Z.ltb_lt; dm_lia).
    rewrite cont_bits_mod, (land_mask _ 5) by lia. f_equal.
    change (2 ^ 5) with 32. dm_lia.
  - replace (224 + c / 4096 <? 128) with false by (symmetry; apply Z.ltb_ge; dm_lia).
    replace (224 + c / 4096 <? 192) with false by (symmetry; apply Z.ltb_ge; dm_lia).
    replace (224 + c / 4096 <? 224) with false by (symmetry; apply Z.ltb_ge; dm_lia).
    replace (224 + c / 4096 <? 240) with true by (symmetry; apply Z.ltb_lt; dm_lia).
    rewrite !cont_bits_mod, (land_mask _ 4) by lia. f_equal.
    change (2 ^ 4) with 16. dm_lia.
  - replace (240 + c / 262144 <? 128) with false by (symmetry; apply Z.ltb_ge; dm_lia).
    replace (240 + c / 262144 <? 192) with false by (symmetry; apply Z.ltb_ge; dm_lia).
    replace (240 + c / 262144 <? 224) with false by (symmetry; apply Z.ltb_ge; dm_lia).
    replace (240 + c / 262144 <? 240) with false by (symmetry; apply Z.ltb_ge; dm_lia).
    rewrite !cont_bits_mod, (land_mask _ 3) by lia. f_equal.
    change (2 ^ 3) with 8. dm_lia.
Qed.

Lemma decode_encode_utf8 cs :
  Forall (λ c, 0 ≤ c ≤ 1114111) cs → decode_utf8 (encode_utf8 cs) = cs.
Proof.
  unfold encode_utf8. induction 1 as [|c cs Hc _ IH]; [done|].
  cbn. rewrite decode_encode_char by done. by f_equal.
Qed.
