(* ===== verification/ParseInt.v ===== *)
(** * Decimal integers

    [str::parse] of the integer types: an optional sign, at least one digit, nothing
    else, and a value within the width; and that it inverts the decimal rendering. *)
From stdpp Require Import pretty.
From S2P Require Import Prelude.
From Stdlib Require Import Ascii.

Local Open Scope Z_scope.

Definition digit_val (c : ascii) : option Z :=
  if is_ascii_digit c then Some (byte_val c - 48) else None.

Fixpoint decimal (acc : Z) (s : string) : option Z :=
  match s with
  | EmptyString => Some acc
  | String c s => d ← digit_val c; decimal (acc * 10 + d) s
  end.

(** At least one digit. *)
Definition parse_digits (s : string) : option Z :=
  match s with EmptyString => None | _ => decimal 0 s end.

Definition within (lo hi z : Z) : option Z := if (lo <=? z) && (z <=? hi) then Some z else None.

Lemma within_Some lo hi z v : within lo hi z = Some v → v = z ∧ lo ≤ z ≤ hi.
Proof.
  unfold within. destruct (Z.leb_spec lo z), (Z.leb_spec z hi); cbn; try done. by intros [= <-].
Qed.

(** [s.parse::<uN>()] with [m] the greatest value. *)
Definition parse_unsigned (m : Z) (s : string) : option Z :=
  z ← match s with String "+" s => parse_digits s | _ => parse_digits s end;
  within 0 m z.

(** [s.parse::<iN>()] with [m] the greatest value. *)
Definition parse_signed (m : Z) (s : string) : option Z :=
  z ← match s with
      | String "+" s => parse_digits s
      | String "-" s => Z.opp <$> parse_digits s
      | _ => parse_digits s
      end;
  within (- m - 1) m z.

(** ** Laws *)
Lemma digit_val_bounds c d : digit_val c = Some d → 0 ≤ d ≤ 9.
Proof.
  unfold digit_val, is_ascii_digit. destruct (_ && _) eqn:E; [|done]. intros [= <-].
  apply andb_true_iff in E as [?%Z.leb_le ?%Z.leb_le]. lia.
Qed.

Lemma decimal_nonneg acc s z : 0 ≤ acc → decimal acc s = Some z → 0 ≤ z.
Proof.
  revert acc. induction s as [|c s IH]; intros acc Ha; cbn; [by intros [= <-]|].
  intros (d & Hd%digit_val_bounds & H)%bind_Some. apply (IH (acc * 10 + d)); [lia|done].
Qed.

Lemma parse_unsigned_bounds m s z : parse_unsigned m s = Some z → 0 ≤ z ≤ m.
Proof.
  unfold parse_unsigned, within. intros (z' & _ & H)%bind_Some.
  destruct (_ && _) eqn:E; [|done]. injection H as ->.
  apply andb_true_iff in E as [?%Z.leb_le ?%Z.leb_le]. done.
Qed.

Lemma parse_signed_bounds m s z : parse_signed m s = Some z → - m - 1 ≤ z ≤ m.
Proof.
  unfold parse_signed, within. intros (z' & _ & H)%bind_Some.
  destruct (_ && _) eqn:E; [|done]. injection H as ->.
  apply andb_true_iff in E as [?%Z.leb_le ?%Z.leb_le]. done.
Qed.

(** ** Decimal rendering *)
Lemma digit_val_pretty (x : N) : (x < 10)%N → digit_val (pretty_N_char x) = Some (Z.of_N x).
Proof.
  intros Hx. assert (x ∈ [0; 1; 2; 3; 4; 5; 6; 7; 8; 9]%N) as Hin.
  { assert (x = 0 ∨ x = 1 ∨ x = 2 ∨ x = 3 ∨ x = 4 ∨ x = 5 ∨ x = 6 ∨ x = 7 ∨ x = 8 ∨ x = 9)%N by lia.
    set_solver. }
  repeat (apply elem_of_cons in Hin as [->|Hin]; [reflexivity|]). by apply elem_of_nil in Hin.
Qed.

Lemma decimal_pretty_go (x : N) s : decimal 0 (pretty_N_go x s) = decimal (Z.of_N x) s.
Proof.
  revert s. induction (N.lt_wf_0 x) as [x _ IH]; intros s.
  destruct (decide (0 < x)%N) as [Hx|Hx].
  - rewrite pretty_N_go_step by done. rewrite IH by (apply N.div_lt; lia). cbn [decimal].
    rewrite digit_val_pretty by (apply N.mod_lt; lia). cbn [mbind option_bind]. f_equal.
    pose proof (N.div_mod' x 10). lia.
  - assert (x = 0%N) as -> by lia. by rewrite pretty_N_go_0.
Qed.

Lemma pretty_N_nonempty (x : N) : pretty x ≠ "".
Proof.
  unfold pretty, pretty_N. case_decide as Hx; [done|]. intros He.
  assert (∀ y s, s ≠ "" → pretty_N_go y s ≠ "") as Hgo.
  { intros y. induction (N.lt_wf_0 y) as [y _ IH]; intros s Hs.
    destruct (decide (0 < y)%N) as [Hy|Hy].
    - rewrite pretty_N_go_step by done. apply IH; [apply N.div_lt; lia|done].
    - assert (y = 0%N) as -> by lia. by rewrite pretty_N_go_0. }
  rewrite pretty_N_go_step in He by lia. by apply Hgo in He.
Qed.

Lemma decimal_pretty z : 0 ≤ z → decimal 0 (pretty z) = Some z ∧ pretty z ≠ "".
Proof.
  intros Hz. assert (pretty z = pretty (Z.to_N z)) as ->.
  { unfold pretty at 1. destruct z as [|p|p]; [done|done|lia]. }
  split; [|apply pretty_N_nonempty]. unfold pretty, pretty_N. case_decide as Hx.
  - assert (z = 0) as -> by lia. done.
  - rewrite decimal_pretty_go. cbn. f_equal. lia.
Qed.

Lemma decimal_head_plus acc s : decimal acc (String "+" s) = None.
Proof. reflexivity. Qed.

(** [format!("{z}").parse()] gives [z] back. *)
Lemma parse_unsigned_pretty m z : 0 ≤ z ≤ m → parse_unsigned m (pretty z) = Some z.
Proof.
  intros [H0 Hm]. destruct (decimal_pretty z H0) as [Hd Hne]. unfold parse_unsigned.
  assert (match pretty z with String "+" s => parse_digits s | _ => parse_digits (pretty z) end
          = Some z) as ->.
  { destruct (pretty z) as [|c s] eqn:E; [done|]. unfold parse_digits.
    destruct c as [[] [] [] [] [] [] [] []]; try done. }
  cbn [mbind option_bind]. unfold within. by rewrite (proj2 (Z.leb_le 0 z)), (proj2 (Z.leb_le z m)).
Qed.
