(* ===== verification/Json.v ===== *)
(** * JSON values

    [serde_json::Value] as the sources inspect it: an object is the sorted
    association list of a [BTreeMap<String, Value>] (the crate does not enable
    [preserve_order]).  [f64] values are the Standard Library's [spec_float]
    (IEEE-754 binary64 data without payload bits). *)
From S2P Require Import Prelude.
From Stdlib Require Import Floats.SpecFloat.

Local Open Scope Z_scope.

(** ** [f64] *)
Definition f64 : Type := spec_float.
Definition f64_zero : f64 := S754_zero false.
Definition f64_one : f64 := S754_finite false 4503599627370496 (-52).

#[global] Instance f64_eq_dec : EqDecision f64.
Proof. solve_decision. Defined.

(** [a == b], [a < b], [a <= b] on [f64]. *)
Definition f64_eqb (a b : f64) : bool := SFeqb a b.
Definition f64_ltb (a b : f64) : bool := SFltb a b.
Definition f64_leb (a b : f64) : bool := SFleb a b.

(** [(0.0..=1.0).contains(&x)]. *)
Definition in_unit_interval (x : f64) : bool :=
  f64_leb f64_zero x && f64_leb x f64_one.

Definition is_finite (x : f64) : bool :=
  match x with S754_zero _ | S754_finite _ _ _ => true | _ => false end.

(** [f64::total_cmp]: like the numeric order, with [-0.0 < +0.0] and (positive)
    NaN above everything. *)
Definition total_cmp (a b : f64) : comparison :=
  match a, b with
  | S754_nan, S754_nan => Eq
  | S754_nan, _ => Gt
  | _, S754_nan => Lt
  | S754_zero true, S754_zero false => Lt
  | S754_zero false, S754_zero true => Gt
  | _, _ => match SFcompare a b with Some c => c | None => Eq end
  end.

Lemma in_unit_interval_not_nan x : in_unit_interval x = true → x ≠ S754_nan.
Proof. by intros H ->. Qed.

(** ** Values *)
Inductive Number : Type :=
| PosInt (z : Z)
| NegInt (z : Z)
| Float (f : f64).

Unset Elimination Schemes.
Inductive Value : Type :=
| VNull
| VBool (b : bool)
| VNumber (n : Number)
| VString (s : string)
| VArray (items : list Value)
| VObject (fields : list (string * Value)).
Set Elimination Schemes.

(** [Value::as_str]. *)
Definition as_str (v : Value) : option string :=
  match v with VString s => Some s | _ => None end.

(** Induction on values that reaches the elements of arrays and objects. *)
Section ValueInd.
Context (P : Value → Prop).
Context (Hnull : P VNull) (Hbool : ∀ b, P (VBool b)) (Hnum : ∀ n, P (VNumber n)).
Context (Hstr : ∀ s, P (VString s)).
Context (Harr : ∀ l, Forall P l → P (VArray l)).
Context (Hobj : ∀ l, Forall (λ kv, P kv.2) l → P (VObject l)).

Fixpoint Value_ind' (v : Value) : P v :=
  match v with
  | VNull => Hnull
  | VBool b => Hbool b
  | VNumber n => Hnum n
  | VString s => Hstr s
  | VArray l =>
      Harr l ((fix go l : Forall P l := match l with
               | [] => Forall_nil_2 P
               | x :: l' => Forall_cons_2 P x l' (Value_ind' x) (go l') end) l)
  | VObject l =>
      Hobj l ((fix go l : Forall (λ kv, P kv.2) l := match l with
               | [] => Forall_nil_2 (λ kv, P kv.2)
               | x :: l' =>
                   Forall_cons_2 (λ kv, P kv.2) x l' (Value_ind' x.2) (go l') end) l)
  end.
End ValueInd.

(** [PartialEq] on values, as derived by serde_json. *)
Definition number_eqb (a b : Number) : bool :=
  match a, b with
  | PosInt x, PosInt y | NegInt x, NegInt y => x =? y
  | Float x, Float y => f64_eqb x y
  | _, _ => false
  end.

Fixpoint value_eqb (a b : Value) {struct a} : bool :=
  match a, b with
  | VNull, VNull => true
  | VBool x, VBool y => Bool.eqb x y
  | VNumber x, VNumber y => number_eqb x y
  | VString x, VString y => String.eqb x y
  | VArray l, VArray l' =>
      (fix go (l l' : list Value) : bool :=
         match l, l' with
         | [], [] => true
         | x :: l, y :: l' => value_eqb x y && go l l'
         | _, _ => false
         end) l l'
  | VObject l, VObject l' =>
      (fix go (l l' : list (string * Value)) : bool :=
         match l, l' with
         | [], [] => true
         | (k, x) :: l, (k', y) :: l' => String.eqb k k' && value_eqb x y && go l l'
         | _, _ => false
         end) l l'
  | _, _ => false
  end.

(** A scalar that is neither an array nor an object. *)
Definition is_scalar (v : Value) : bool :=
  match v with VArray _ | VObject _ => false | _ => true end.

(** ** Metadata maps: [BTreeMap<String, Value>] *)
Definition meta_str (m : gmap string Value) (k : string) : option string :=
  m !! k ≫= as_str.

(** [m.get(k) == Some(&Value::Bool(true))]. *)
Definition meta_true (m : gmap string Value) (k : string) : bool :=
  match m !! k with Some v => value_eqb v (VBool true) | None => false end.

Lemma meta_true_spec m k : meta_true m k = true ↔ m !! k = Some (VBool true).
Proof.
  unfold meta_true. destruct (m !! k) as [[| [] | | | |]|]; simpl; naive_solver.
Qed.
