(* ===== verification/Action.v ===== *)
(** * Recovery actions (src/src/model/action.rs)

    The action vocabulary of the recovery engine, its constructors and
    [Action::validate], the schema check every action passes before policy,
    transaction or planner code looks at it. *)
From S2P Require Import Prelude Json.
From Stdlib Require Import Ascii.

Local Open Scope Z_scope.

Record Condition : Type := mkCondition {
  cond_kind : string;
  cond_value : option Value;
}.

Record StatusCheck : Type := mkStatusCheck {
  check_kind : string;
  check_value : option string;
}.

Inductive ActionKind : Type :=
| WaitUntil (at_ : string)
| WaitDuration (duration_seconds : Z)
| Capture (source : string) (max_lines : Z)
| CheckStatus (check : StatusCheck)
| SendText (text : string)
| SubmitText (text : string)
| SendKeys (keys : list string)
| Notify (severity : string) (message : string)
| Escalate (level : string)
| StopWatching
| Noop.

Record Action : Type := mkAction {
  kind : ActionKind;
  action_id : string;
  reason : string;
  preconditions : list Condition;
  expected_outcomes : list Condition;
  timeout_seconds : Z;
}.

(** ** Constructors *)
Definition action_new (id : string) (k : ActionKind) (why fingerprint : string)
    (timeout : Z) : Action :=
  {| action_id := id;
     kind := k;
     reason := why;
     preconditions :=
       [mkCondition "EVIDENCE_FINGERPRINT_MATCHES" (Some (VString fingerprint))];
     expected_outcomes := [mkCondition "NO_STATE_CHANGE_EXPECTED" None];
     timeout_seconds := timeout |}.

Definition push_preconditions (a : Action) (cs : list Condition) : Action :=
  {| kind := kind a; action_id := action_id a; reason := reason a;
     preconditions := preconditions a ++ cs;
     expected_outcomes := expected_outcomes a;
     timeout_seconds := timeout_seconds a |}.

Definition set_outcomes (a : Action) (cs : list Condition) : Action :=
  {| kind := kind a; action_id := action_id a; reason := reason a;
     preconditions := preconditions a;
     expected_outcomes := cs;
     timeout_seconds := timeout_seconds a |}.

Definition send_text (id text why fingerprint : string) : Action :=
  push_preconditions (action_new id (SendText text) why fingerprint 30)
    [mkCondition "TARGET_IDENTITY_MATCHES" None].

Definition submit_text (id text why fingerprint : string) : Action :=
  push_preconditions (action_new id (SubmitText text) why fingerprint 30)
    [mkCondition "TARGET_IDENTITY_MATCHES" None; mkCondition "COMPOSER_EMPTY" None].

(** ** Validation *)
Definition id_byte (index : nat) (byte : ascii) : bool :=
  is_ascii_alphanumeric byte
  || (negb (Nat.eqb index 0) && existsb (Ascii.eqb byte) (bytes "._:-")).

Definition valid_id (value : string) : bool :=
  negb (is_empty value) && (len value <=? 96)
  && all_enumerate id_byte 0 (bytes value).

Definition scalar_value (c : Condition) : bool :=
  match cond_value c with
  | None => true
  | Some (VNull | VBool _ | VNumber _) => true
  | Some (VString text) => len text <=? 256
  | Some _ => false
  end.

Definition precondition_kinds : list string :=
  ["TARGET_IDENTITY_MATCHES"; "PROCESS_ALIVE"; "SESSION_ID_MATCHES";
   "EVIDENCE_FINGERPRINT_MATCHES"; "COMPOSER_EMPTY"; "MENU_STABLE"; "AGENT_STATE_IS";
   "GOAL_STATE_IS"; "EVENT_CATEGORY_IS"; "NO_HUMAN_INTERVENTION";
   "CLAUDE_RESUME_SESSION"; "CURRENT_TIME_AT_OR_AFTER"].

Definition valid_precondition (c : Condition) : bool :=
  scalar_value c && one_of precondition_kinds (cond_kind c).

Definition outcome_kinds : list string :=
  ["AGENT_WORKING"; "AGENT_IDLE"; "BLOCK_CLEARED"; "GOAL_ACTIVE_OR_PURSUING";
   "MENU_DISMISSED"; "WAIT_STATE_RECORDED"; "AGENT_STATE_IS"; "PROCESS_TERMINATED";
   "CLAUDE_PROGRESS"; "HUMAN_NOTIFIED"; "NO_STATE_CHANGE_EXPECTED"].

Definition valid_outcome (c : Condition) : bool :=
  scalar_value c && one_of outcome_kinds (cond_kind c).

Definition valid_key (key : string) : bool :=
  one_of ["ENTER"; "ESCAPE"; "UP"; "DOWN"; "LEFT"; "RIGHT"; "TAB"; "BACKTAB";
          "CTRL_C"; "CTRL_D"; "CTRL_L"; "HOME"; "END"; "PAGE_UP"; "PAGE_DOWN"] key.

Definition valid_check (c : StatusCheck) : bool :=
  one_of ["PROCESS_ALIVE"; "TARGET_IDENTITY"; "AGENT_STATE"; "GOAL_STATE";
          "EVENT_CLEARED"; "COMPOSER_EMPTY"; "SCREEN_CONTAINS_LITERAL";
          "SCREEN_NOT_CONTAINS_LITERAL"] (check_kind c)
  && match check_value c with None => true | Some v => len v <=? 256 end.

(** chrono's RFC 3339 parser, the instant in nanoseconds since the epoch. *)
Class Rfc3339 : Type := parse_from_rfc3339 : string → option Z.

Section Validate.
Context {rfc : Rfc3339}.

Definition valid_datetime (value : string) : bool :=
  match parse_from_rfc3339 value with Some _ => true | None => false end.

Definition common_fields_invalid (a : Action) : bool :=
  negb (valid_id (action_id a)) || (96 <? len (action_id a))
  || is_empty (reason a) || (500 <? len (reason a))
  || (timeout_seconds a =? 0) || (86400 <? timeout_seconds a).

Definition nonempty {A} (l : list A) : bool := match l with [] => false | _ => true end.

Definition variant_fields_valid (a : Action) : bool :=
  match kind a with
  | WaitUntil t => valid_datetime t
  | WaitDuration d => (1 <=? d) && (d <=? 86400)
  | Capture source max_lines =>
      one_of ["screen_detection"; "screen_recent"; "structured_state"; "log_tail"] source
      && ((1 <=? max_lines) && (max_lines <=? 300))
  | CheckStatus check => valid_check check
  | SendText text | SubmitText text =>
      nonempty (preconditions a) && negb (is_empty text) && (len text <=? 512)
  | SendKeys keys =>
      nonempty (preconditions a) && nonempty keys
      && (Z.of_nat (length keys) <=? 16) && forallb valid_key keys
  | Notify severity message =>
      one_of ["info"; "warning"; "error"; "critical"] severity
      && negb (is_empty message) && (len message <=? 500)
  | Escalate level =>
      one_of ["alternate_planner"; "independent_second_opinion"; "human_required"] level
  | StopWatching | Noop => true
  end.

Definition validate (a : Action) : result string unit :=
  if common_fields_invalid a then Err "invalid common action fields"
  else if (12 <? Z.of_nat (length (preconditions a)))
          || negb (nonempty (expected_outcomes a))
          || (6 <? Z.of_nat (length (expected_outcomes a)))
  then Err "invalid action conditions"
  else if negb (forallb valid_precondition (preconditions a))
          || negb (forallb valid_outcome (expected_outcomes a))
  then Err "invalid condition kind or value"
  else if variant_fields_valid a then Ok tt
  else Err "invalid action variant fields".

(** ** What a validated action satisfies *)
Record valid_action (a : Action) : Prop := {
  va_id : valid_id (action_id a) = true;
  va_reason : 1 ≤ len (reason a) ≤ 500;
  va_timeout : timeout_seconds a ≠ 0 ∧ timeout_seconds a ≤ 86400;
  va_pre_len : (length (preconditions a) ≤ 12)%nat;
  va_out_len : (1 ≤ length (expected_outcomes a) ≤ 6)%nat;
  va_pre : ∀ c, c ∈ preconditions a → valid_precondition c = true;
  va_out : ∀ c, c ∈ expected_outcomes a → valid_outcome c = true;
  va_kind : variant_fields_valid a = true;
}.

Lemma validate_Ok a : validate a = Ok tt → valid_action a.
Proof.
  unfold validate. destruct (common_fields_invalid a) eqn:Hc; [done|].
  destruct (_ || _ || _) eqn:Hl; [done|].
  destruct (_ || _) eqn:Hf in |- *; [done|].
  destruct (variant_fields_valid a) eqn:Hv; [|done]. intros _.
  unfold common_fields_invalid in Hc. inv_watch.
  assert (expected_outcomes a ≠ []) by (by intros E; rewrite E in *).
  assert (len (reason a) ≠ 0) by (intros E; apply len_zero in E; by rewrite E in *).
  pose proof (len_nonneg (reason a)).
  destruct (expected_outcomes a) eqn:E; [done|].
  split; rewrite ?E; try done; simpl in *; try lia.
Qed.

Lemma valid_action_Ok a : valid_action a → validate a = Ok tt.
Proof.
  intros [Hid Hr Ht Hp Ho Hpre Hout Hk]. unfold validate.
  assert (common_fields_invalid a = false) as ->.
  { assert (reason a ≠ "") by (rewrite <- len_zero; lia).
    unfold common_fields_invalid. rewrite Hid. unfold valid_id in Hid. inv_watch.
    rewrite !orb_false_iff, !Z.eqb_neq, !Z.ltb_ge.
    repeat split; try lia. by apply String.eqb_neq. }
  assert ((12 <? Z.of_nat (length (preconditions a))) = false) as -> by lia.
  assert ((6 <? Z.of_nat (length (expected_outcomes a))) = false) as -> by lia.
  assert (nonempty (expected_outcomes a) = true) as ->
    by (destruct (expected_outcomes a); simpl in *; [lia|done]).
  rewrite (proj2 (forallb_elem _ _) Hpre), (proj2 (forallb_elem _ _) Hout), Hk. done.
Qed.

(** ** The schema, declaratively

    What the schema of recovery actions asks for, written without the functions of
    the validator. *)
Definition id_schema (s : string) : Prop :=
  ∃ c rest, s = String c rest ∧ is_ascii_alphanumeric c = true
    ∧ (∀ b, b ∈ bytes rest → is_ascii_alphanumeric b = true ∨ b ∈ bytes "._:-")
    ∧ len s ≤ 96.

Definition scalar_schema (v : option Value) : Prop :=
  match v with
  | Some (VString text) => len text ≤ 256
  | Some (VArray _) | Some (VObject _) => False
  | _ => True
  end.

Definition precondition_schema (c : Condition) : Prop :=
  scalar_schema (cond_value c)
  ∧ cond_kind c ∈ ["TARGET_IDENTITY_MATCHES"; "PROCESS_ALIVE"; "SESSION_ID_MATCHES";
      "EVIDENCE_FINGERPRINT_MATCHES"; "COMPOSER_EMPTY"; "MENU_STABLE"; "AGENT_STATE_IS";
      "GOAL_STATE_IS"; "EVENT_CATEGORY_IS"; "NO_HUMAN_INTERVENTION"; "CLAUDE_RESUME_SESSION";
      "CURRENT_TIME_AT_OR_AFTER"].

Definition outcome_schema (c : Condition) : Prop :=
  scalar_schema (cond_value c)
  ∧ cond_kind c ∈ ["AGENT_WORKING"; "AGENT_IDLE"; "BLOCK_CLEARED"; "GOAL_ACTIVE_OR_PURSUING";
      "MENU_DISMISSED"; "WAIT_STATE_RECORDED"; "AGENT_STATE_IS"; "PROCESS_TERMINATED";
      "CLAUDE_PROGRESS"; "HUMAN_NOTIFIED"; "NO_STATE_CHANGE_EXPECTED"].

Definition kind_schema (a : Action) : Prop :=
  match kind a with
  | WaitUntil t => is_Some (parse_from_rfc3339 t)
  | WaitDuration d => 1 ≤ d ≤ 86400
  | Capture source n =>
      source ∈ ["screen_detection"; "screen_recent"; "structured_state"; "log_tail"]
      ∧ 1 ≤ n ≤ 300
  | CheckStatus c =>
      check_kind c ∈ ["PROCESS_ALIVE"; "TARGET_IDENTITY"; "AGENT_STATE"; "GOAL_STATE";
        "EVENT_CLEARED"; "COMPOSER_EMPTY"; "SCREEN_CONTAINS_LITERAL";
        "SCREEN_NOT_CONTAINS_LITERAL"]
      ∧ ∀ v, check_value c = Some v → len v ≤ 256
  | SendText t | SubmitText t => preconditions a ≠ [] ∧ t ≠ "" ∧ len t ≤ 512
  | SendKeys ks =>
      preconditions a ≠ [] ∧ (1 ≤ length ks ≤ 16)%nat
      ∧ ∀ k, k ∈ ks → k ∈ ["ENTER"; "ESCAPE"; "UP"; "DOWN"; "LEFT"; "RIGHT"; "TAB"; "BACKTAB";
          "CTRL_C"; "CTRL_D"; "CTRL_L"; "HOME"; "END"; "PAGE_UP"; "PAGE_DOWN"]
  | Notify severity m =>
      severity ∈ ["info"; "warning"; "error"; "critical"] ∧ m ≠ "" ∧ len m ≤ 500
  | Escalate l => l ∈ ["alternate_planner"; "independent_second_opinion"; "human_required"]
  | StopWatching | Noop => True
  end.

Record schema_valid (a : Action) : Prop := {
  sv_id : id_schema (action_id a);
  sv_reason : 1 ≤ len (reason a) ≤ 500;
  sv_timeout : timeout_seconds a ≠ 0 ∧ timeout_seconds a ≤ 86400;
  sv_pre_len : (length (preconditions a) ≤ 12)%nat;
  sv_out_len : (1 ≤ length (expected_outcomes a) ≤ 6)%nat;
  sv_pre : ∀ c, c ∈ preconditions a → precondition_schema c;
  sv_out : ∀ c, c ∈ expected_outcomes a → outcome_schema c;
  sv_kind : kind_schema a;
}.

Lemma id_bytes_tail i l :
  all_enumerate id_byte (S i) l = true ↔
  ∀ b, b ∈ l → is_ascii_alphanumeric b = true ∨ b ∈ bytes "._:-".
Proof.
  revert i. induction l as [|x l IH]; intros i; simpl; [split; [|done]; by intros _ b ?%elem_of_nil|].
  rewrite andb_true_iff, IH. unfold id_byte. cbn [Nat.eqb negb andb].
  rewrite orb_true_iff, existsb_elem.
  assert ((∃ y, y ∈ bytes "._:-" ∧ (x =? y)%char = true) ↔ x ∈ bytes "._:-") as ->.
  { split; [intros (y & ? & ->%Ascii.eqb_eq); done|]. intros. exists x. by rewrite Ascii.eqb_refl. }
  split; [intros [? ?] b [->|?]%elem_of_cons; auto|].
  intros Hb. split; [apply Hb; by left|]. intros b ?. apply Hb. by right.
Qed.

Lemma valid_id_iff s : valid_id s = true ↔ id_schema s.
Proof.
  unfold valid_id, id_schema. destruct s as [|c rest]; [split; [done|by intros (? & ? & ? & _)]|].
  assert (bytes (String c rest) = c :: bytes rest) as -> by done. cbn [all_enumerate is_empty negb].
  rewrite !andb_true_iff, Z.leb_le, id_bytes_tail.
  assert (id_byte 0 c = is_ascii_alphanumeric c) as -> by (unfold id_byte; simpl; by rewrite orb_false_r).
  split; [intros ((_ & ?) & ? & ?); by exists c, rest|].
  intros (c' & rest' & [= <- <-] & ? & ? & ?). done.
Qed.

Lemma scalar_value_iff c : scalar_value c = true ↔ scalar_schema (cond_value c).
Proof.
  unfold scalar_value, scalar_schema. destruct (cond_value c) as [[]|]; try done. apply Z.leb_le.
Qed.

Lemma valid_precondition_iff c : valid_precondition c = true ↔ precondition_schema c.
Proof. unfold valid_precondition. by rewrite andb_true_iff, scalar_value_iff, one_of_spec. Qed.

Lemma valid_outcome_iff c : valid_outcome c = true ↔ outcome_schema c.
Proof. unfold valid_outcome. by rewrite andb_true_iff, scalar_value_iff, one_of_spec. Qed.

Lemma nonempty_iff {A} (l : list A) : nonempty l = true ↔ l ≠ [].
Proof. by destruct l. Qed.

Lemma variant_fields_iff a : variant_fields_valid a = true ↔ kind_schema a.
Proof.
  unfold variant_fields_valid, kind_schema. destruct (kind a).
  - unfold valid_datetime. destruct (parse_from_rfc3339 at_);
      [split; eauto|split; [done|by intros [? ?]]].
  - rewrite andb_true_iff, !Z.leb_le. lia.
  - rewrite !andb_true_iff, !Z.leb_le, one_of_spec. tauto.
  - unfold valid_check. rewrite andb_true_iff, one_of_spec.
    destruct (check_value check); rewrite ?Z.leb_le; naive_solver.
  - rewrite !andb_true_iff, nonempty_iff, Z.leb_le, negb_true_iff, is_empty_false. tauto.
  - rewrite !andb_true_iff, nonempty_iff, Z.leb_le, negb_true_iff, is_empty_false. tauto.
  - rewrite !andb_true_iff, !nonempty_iff, Z.leb_le, forallb_elem.
    unfold valid_key. setoid_rewrite one_of_spec.
    assert (keys ≠ [] ↔ (1 ≤ length keys)%nat) as -> by (destruct keys; simpl; split; try done; lia).
    assert (Z.of_nat (length keys) ≤ 16 ↔ (length keys ≤ 16)%nat) as -> by lia. tauto.
  - rewrite !andb_true_iff, one_of_spec, Z.leb_le, negb_true_iff, is_empty_false. tauto.
  - apply one_of_spec.
  - done.
  - done.
Qed.

Lemma schema_valid_iff a : valid_action a ↔ schema_valid a.
Proof.
  split; intros []; split; try done; intros;
    (apply valid_id_iff || apply variant_fields_iff || apply valid_precondition_iff
     || apply valid_outcome_iff); auto.
Qed.
End Validate.
