(* ===== verification/Event.v ===== *)
(** * Observation events (src/src/model/event.rs)

    Normalised evidence: where it came from ([SourceKind], ranked), what it says
    ([EventCategory]), how sure the observer is, and the bounds every
    constructed or deserialised event satisfies. *)
From S2P Require Import Prelude Json Action.
From Stdlib Require Import Floats.SpecFloat.

Local Open Scope Z_scope.

Definition EVENT_SCHEMA_VERSION : string := "1.0".

Module Source.
Inductive SourceKind : Type :=
| TypedApi | Hook | StructuredLog | ProcessMetadata
| HerdrAgentState | ScreenDetection | Planner | Internal.

#[global] Instance SourceKind_eq_dec : EqDecision SourceKind.
Proof. solve_decision. Defined.
End Source.
Abbreviation SourceKind := Source.SourceKind.

Definition rank (k : SourceKind) : Z :=
  match k with
  | Source.TypedApi => 8
  | Source.Hook => 7
  | Source.StructuredLog => 6
  | Source.ProcessMetadata => 5
  | Source.HerdrAgentState => 4
  | Source.ScreenDetection => 3
  | Source.Planner => 2
  | Source.Internal => 1
  end.

Record EventSource : Type := mkEventSource {
  source_kind : SourceKind;
  source_id : string;
  rule_or_field : string;
  source_version : option string;
}.

#[global] Instance EventSource_eq_dec : EqDecision EventSource.
Proof. solve_decision. Defined.

Definition event_source_new (k : SourceKind) (id rule : string) : EventSource :=
  mkEventSource k id rule None.

Module Category.
Inductive EventCategory : Type :=
| Working | Idle | WaitingForModel | WaitingForTool | WaitingForUser
| PermissionPrompt | QuestionPrompt | UsageLimit | SessionLimit | WeeklyLimit
| ModelCreditExhausted | TransientOverload | CapacityBlock | AuthenticationFailure
| BillingFailure | InvalidRequest | ModelUnavailable | SafetyBlock | PausedGoal
| BlockedGoal | ContextLimit | TerminalFailure | Crashed | Terminated
| UnknownBlocked | Recovered | HumanIntervention.

#[global] Instance EventCategory_eq_dec : EqDecision EventCategory.
Proof. solve_decision. Defined.
End Category.
Abbreviation EventCategory := Category.EventCategory.

Definition category_eqb (a b : EventCategory) : bool := bool_decide (a = b).

Definition is_actionable (c : EventCategory) : bool :=
  match c with
  | Category.Working | Category.Idle | Category.Recovered
  | Category.HumanIntervention | Category.Terminated => false
  | _ => true
  end.

(** [format!("{:?}", category)]. *)
Definition category_debug (c : EventCategory) : string :=
  match c with
  | Category.Working => "Working"
  | Category.Idle => "Idle"
  | Category.WaitingForModel => "WaitingForModel"
  | Category.WaitingForTool => "WaitingForTool"
  | Category.WaitingForUser => "WaitingForUser"
  | Category.PermissionPrompt => "PermissionPrompt"
  | Category.QuestionPrompt => "QuestionPrompt"
  | Category.UsageLimit => "UsageLimit"
  | Category.SessionLimit => "SessionLimit"
  | Category.WeeklyLimit => "WeeklyLimit"
  | Category.ModelCreditExhausted => "ModelCreditExhausted"
  | Category.TransientOverload => "TransientOverload"
  | Category.CapacityBlock => "CapacityBlock"
  | Category.AuthenticationFailure => "AuthenticationFailure"
  | Category.BillingFailure => "BillingFailure"
  | Category.InvalidRequest => "InvalidRequest"
  | Category.ModelUnavailable => "ModelUnavailable"
  | Category.SafetyBlock => "SafetyBlock"
  | Category.PausedGoal => "PausedGoal"
  | Category.BlockedGoal => "BlockedGoal"
  | Category.ContextLimit => "ContextLimit"
  | Category.TerminalFailure => "TerminalFailure"
  | Category.Crashed => "Crashed"
  | Category.Terminated => "Terminated"
  | Category.UnknownBlocked => "UnknownBlocked"
  | Category.Recovered => "Recovered"
  | Category.HumanIntervention => "HumanIntervention"
  end.

Module Hint.
Inductive PolicyHint : Type :=
| ObserveOnly | DeterministicActionAllowed | WaitAllowed | PlannerAllowed
| HumanRequired | StopWatching.

#[global] Instance PolicyHint_eq_dec : EqDecision PolicyHint.
Proof. solve_decision. Defined.
End Hint.
Abbreviation PolicyHint := Hint.PolicyHint.

Record EventReset : Type := mkEventReset {
  source_text : string;
  parsed_at : string;
  reset_timezone : option string;
  reset_confidence : f64;
  margin_seconds : option Z;
}.

Record Event : Type := mkEvent {
  schema_version : string;
  event_id : string;
  observed_at : string;
  monotonic_sequence : option Z;
  watcher_id : string;
  target_identity_hash : string;
  agent_id : option string;
  session_id : option string;
  provider_family : option string;
  source : EventSource;
  category : EventCategory;
  confidence : f64;
  terminal : bool;
  evidence_fingerprint : string;
  summary : string;
  redacted_evidence : option string;
  reset : option EventReset;
  policy_hint : PolicyHint;
  supersedes_event_id : option string;
  metadata : gmap string Value;
}.

(** ** Validation *)
Definition validate_id (value : string) : result string unit :=
  if is_empty value || (96 <? len value) || negb (all_enumerate id_byte 0 (bytes value))
  then Err "invalid id" else Ok tt.

Definition hex_bounded (value : string) : bool :=
  (16 <=? len value) && (len value <=? 128) && forallb is_ascii_hexdigit (bytes value).

Definition validate_hash (value : string) : result string unit :=
  if negb (hex_bounded value) then Err "invalid hash" else Ok tt.

Definition longer_than (n : Z) (o : option string) : bool :=
  match o with Some v => n <? len v | None => false end.

Section EventValidate.
Context {rfc : Rfc3339}.

Definition exceeds_bounds (e : Event) : bool :=
  negb (valid_datetime (observed_at e))
  || (256 <? len (source_id (source e)))
  || (256 <? len (rule_or_field (source e)))
  || longer_than 128 (source_version (source e))
  || longer_than 64 (agent_id e)
  || longer_than 256 (session_id e)
  || longer_than 64 (provider_family e)
  || longer_than 4000 (redacted_evidence e)
  || longer_than 96 (supersedes_event_id e)
  || existsb (λ v, negb (is_scalar v)) (btree_values (metadata e)).

Definition invalid_reset (r : EventReset) : bool :=
  is_empty (source_text r) || (500 <? len (source_text r))
  || negb (valid_datetime (parsed_at r))
  || negb (in_unit_interval (reset_confidence r))
  || match margin_seconds r with Some m => 3600 <? m | None => false end
  || longer_than 128 (reset_timezone r).

Definition event_validate (e : Event) : result string unit :=
  let? _ := fail_if (negb (String.eqb (schema_version e) EVENT_SCHEMA_VERSION))
              "unsupported event schema version" in
  let? _ := fail_if (negb (in_unit_interval (confidence e)) || negb (is_finite (confidence e)))
              "confidence outside 0..=1" in
  let? _ := validate_id (event_id e) in
  let? _ := validate_id (watcher_id e) in
  let? _ := validate_hash (target_identity_hash e) in
  let? _ := validate_hash (evidence_fingerprint e) in
  let? _ := fail_if (is_empty (summary e) || (1000 <? len (summary e))
                     || is_empty (source_id (source e)) || is_empty (rule_or_field (source e)))
              "invalid bounded event text" in
  let? _ := fail_if (exceeds_bounds e) "event violates schema bounds" in
  let? _ := fail_if (match reset e with Some r => invalid_reset r | None => false end)
              "invalid reset" in
  fail_if (32 <? Z.of_nat (size (metadata e))) "too many metadata fields".

Definition event_new (id at_ watcher target_hash : string) (src : EventSource)
    (cat : EventCategory) (conf : f64) (term : bool) (fingerprint summ : string)
    (hint : PolicyHint) : result string Event :=
  let event :=
    {| schema_version := EVENT_SCHEMA_VERSION;
       event_id := id;
       observed_at := at_;
       monotonic_sequence := None;
       watcher_id := watcher;
       target_identity_hash := target_hash;
       agent_id := None;
       session_id := None;
       provider_family := None;
       source := src;
       category := cat;
       confidence := conf;
       terminal := term;
       evidence_fingerprint := fingerprint;
       summary := summ;
       redacted_evidence := None;
       reset := None;
       policy_hint := hint;
       supersedes_event_id := None;
       metadata := ∅ |} in
  let? _ := event_validate event in
  Ok event.

(** [Deserialize for Event]: the wire record is rebuilt field by field and
    re-validated, so no unvalidated event enters from disk or the network. *)
Definition event_from_wire (wire : Event) : result string Event :=
  let? _ := event_validate wire in Ok wire.
End EventValidate.

(** ** Equality

    [PartialEq for Event] compares [confidence] as [f64]. *)
Definition reset_eqb (a b : EventReset) : bool :=
  String.eqb (source_text a) (source_text b) && String.eqb (parsed_at a) (parsed_at b)
  && bool_decide (reset_timezone a = reset_timezone b)
  && f64_eqb (reset_confidence a) (reset_confidence b)
  && bool_decide (margin_seconds a = margin_seconds b).

Definition option_eqb {A} (f : A → A → bool) (a b : option A) : bool :=
  match a, b with
  | Some x, Some y => f x y | None, None => true | _, _ => false end.

Definition meta_eqb (a b : gmap string Value) : bool :=
  value_eqb (VObject (btree_entries a)) (VObject (btree_entries b)).

Definition event_eqb (a b : Event) : bool :=
  String.eqb (schema_version a) (schema_version b)
  && String.eqb (event_id a) (event_id b)
  && String.eqb (observed_at a) (observed_at b)
  && bool_decide (monotonic_sequence a = monotonic_sequence b)
  && String.eqb (watcher_id a) (watcher_id b)
  && String.eqb (target_identity_hash a) (target_identity_hash b)
  && bool_decide (agent_id a = agent_id b)
  && bool_decide (session_id a = session_id b)
  && bool_decide (provider_family a = provider_family b)
  && bool_decide (source a = source b)
  && bool_decide (category a = category b)
  && f64_eqb (confidence a) (confidence b)
  && Bool.eqb (terminal a) (terminal b)
  && String.eqb (evidence_fingerprint a) (evidence_fingerprint b)
  && String.eqb (summary a) (summary b)
  && bool_decide (redacted_evidence a = redacted_evidence b)
  && option_eqb reset_eqb (reset a) (reset b)
  && bool_decide (policy_hint a = policy_hint b)
  && bool_decide (supersedes_event_id a = supersedes_event_id b)
  && meta_eqb (metadata a) (metadata b).

Lemma rank_bounds k : 1 ≤ rank k ≤ 8.
Proof. destruct k; simpl; lia. Qed.

Lemma rank_inj k k' : rank k = rank k' → k = k'.
Proof. by destruct k, k'. Qed.

Lemma event_eqb_fingerprint a b :
  event_eqb a b = true → evidence_fingerprint a = evidence_fingerprint b.
Proof. unfold event_eqb. intros. by inv_watch. Qed.
