(* ===== verification/StateMachine.v ===== *)
(** * The recovery state machine (src/src/recovery/state_machine.rs)

    One [RecoveryMachine] per watcher: its state, its budget and the counters
    that spend it, the fingerprint that owns the current recovery and the set
    of fingerprints already completed.  Every method takes the machine and
    returns the machine it leaves behind together with its [Result]; the
    machine an [Err] leaves behind is the one the Rust [&mut self] method
    leaves behind, including [action_failed]'s early write to
    [cumulative_wait]. *)
From S2P Require Import Prelude.

Local Open Scope Z_scope.

Module Recovery.
Inductive RecoveryState : Type :=
| NeedsRevalidation | Observing | Confirmed | Acting | Waiting | Verifying
| Recovered | HumanRequired | Stopped.

#[global] Instance RecoveryState_eq_dec : EqDecision RecoveryState.
Proof. solve_decision. Defined.
End Recovery.
Abbreviation RecoveryState := Recovery.RecoveryState.

(** Durations are nanoseconds ([Prelude]). *)
Record Budget : Type := mkBudget {
  max_attempts : Z;
  max_cumulative_wait : Z;
  budget_planner_calls : Z;
  cooldown : Z;
}.

#[global] Instance Budget_eq_dec : EqDecision Budget.
Proof. solve_decision. Defined.

Record ClockSnapshot : Type := mkClock {
  monotonic_seconds : Z;
  wall_seconds : Z;
}.

Inductive RecoveryCommand : Type :=
| Revalidated
| Confirm (fingerprint : string)
| BeginAction (fingerprint : string) (clock : ClockSnapshot)
| ActionFailed (fingerprint : string) (wait : Z) (clock : ClockSnapshot)
| ActionSucceeded (fingerprint : string)
| RearmAfterWait
| ReservePlanner.

#[global] Instance ClockSnapshot_eq_dec : EqDecision ClockSnapshot.
Proof. solve_decision. Defined.
#[global] Instance RecoveryCommand_eq_dec : EqDecision RecoveryCommand.
Proof. solve_decision. Defined.

Record AuditTransition : Type := mkAudit {
  from : RecoveryState;
  to : RecoveryState;
  audit_reason : string;
}.

#[global] Instance AuditTransition_eq_dec : EqDecision AuditTransition.
Proof. solve_decision. Defined.

Record RecoveryMachine : Type := mkMachine {
  machine_version : Z;
  state : RecoveryState;
  budget : Budget;
  attempts : Z;
  cumulative_wait : Z;
  last_attempt_mono : option Z;
  completed : gset string;
  current : option string;
  planner_calls : Z;
  audit : list AuditTransition;
}.

#[global] Instance RecoveryMachine_eq_dec : EqDecision RecoveryMachine.
Proof. solve_decision. Defined.

(** ** Field updates *)
Definition set_state (m : RecoveryMachine) (s : RecoveryState) : RecoveryMachine :=
  mkMachine (machine_version m) s (budget m) (attempts m) (cumulative_wait m)
    (last_attempt_mono m) (completed m) (current m) (planner_calls m) (audit m).
Definition push_audit (m : RecoveryMachine) (t : AuditTransition) : RecoveryMachine :=
  mkMachine (machine_version m) (state m) (budget m) (attempts m) (cumulative_wait m)
    (last_attempt_mono m) (completed m) (current m) (planner_calls m) (audit m ++ [t]).
Definition set_current (m : RecoveryMachine) (c : option string) : RecoveryMachine :=
  mkMachine (machine_version m) (state m) (budget m) (attempts m) (cumulative_wait m)
    (last_attempt_mono m) (completed m) c (planner_calls m) (audit m).
Definition set_attempt (m : RecoveryMachine) (n : Z) (t : option Z) : RecoveryMachine :=
  mkMachine (machine_version m) (state m) (budget m) n (cumulative_wait m) t
    (completed m) (current m) (planner_calls m) (audit m).
Definition set_wait (m : RecoveryMachine) (w : Z) : RecoveryMachine :=
  mkMachine (machine_version m) (state m) (budget m) (attempts m) w
    (last_attempt_mono m) (completed m) (current m) (planner_calls m) (audit m).
Definition complete (m : RecoveryMachine) (f : string) : RecoveryMachine :=
  mkMachine (machine_version m) (state m) (budget m) (attempts m) (cumulative_wait m)
    (last_attempt_mono m) ({[f]} ∪ completed m) (current m) (planner_calls m) (audit m).
Definition set_planner_calls (m : RecoveryMachine) (n : Z) : RecoveryMachine :=
  mkMachine (machine_version m) (state m) (budget m) (attempts m) (cumulative_wait m)
    (last_attempt_mono m) (completed m) (current m) n (audit m).

(** ** Operations *)
Definition machine_new (b : Budget) : RecoveryMachine :=
  mkMachine 1 Recovery.NeedsRevalidation b 0 0 None ∅ None 0 [].

Definition restore_for_restart (m : RecoveryMachine) : result string RecoveryMachine :=
  if negb (machine_version m =? 1) then Err "unsupported recovery schema"
  else
    Ok (push_audit (set_state m Recovery.NeedsRevalidation)
          (mkAudit (state m) Recovery.NeedsRevalidation "restart requires live revalidation")).

Definition valid_transition (a b : RecoveryState) : bool :=
  match a, b with
  | Recovery.NeedsRevalidation, Recovery.Observing
  | Recovery.Observing, Recovery.Confirmed
  | Recovery.Confirmed, Recovery.Acting
  | Recovery.Acting, Recovery.Waiting
  | Recovery.Recovered, Recovery.Observing
  | Recovery.Acting, Recovery.Verifying
  | Recovery.Waiting, Recovery.Confirmed
  | Recovery.Verifying, Recovery.Recovered => true
  | _, _ => false
  end.

(** [&mut self] methods. *)
Definition Step : Type := RecoveryMachine * result string unit.

Definition transition (m : RecoveryMachine) (next : RecoveryState) : Step :=
  if valid_transition (state m) next then
    (push_audit (set_state m next) (mkAudit (state m) next "validated transition"), Ok tt)
  else (m, Err "invalid recovery transition").

(** [self.transition(next)?] followed by the rest of the method. *)
Definition and_then (s : Step) (k : RecoveryMachine → Step) : Step :=
  match s with (m, Ok _) => k m | (m, Err e) => (m, Err e) end.

Definition revalidated (m : RecoveryMachine) : Step := transition m Recovery.Observing.

Definition confirm (m : RecoveryMachine) (fingerprint : string) : Step :=
  and_then (transition m Recovery.Confirmed) (λ m,
    (set_current m (Some fingerprint), Ok tt)).

Definition cooling_down (m : RecoveryMachine) (now : ClockSnapshot) : bool :=
  match last_attempt_mono m with
  | Some last => saturating_sub (monotonic_seconds now) last <? as_secs (cooldown (budget m))
  | None => false
  end.

Definition begin_action (m : RecoveryMachine) (fingerprint : string) (now : ClockSnapshot) : Step :=
  if bool_decide (state m = Recovery.NeedsRevalidation) then (m, Err "revalidation required")
  else if bool_decide (fingerprint ∈ completed m) then (m, Err "duplicate action")
  else if negb (opt_str_eqb (current m) (Some fingerprint)) then (m, Err "stale evidence")
  else if max_attempts (budget m) <=? attempts m then (m, Err "attempt budget exhausted")
  else if cooling_down m now then (m, Err "cooldown active")
  else
    and_then (transition m Recovery.Acting) (λ m,
      (set_attempt m (attempts m + 1) (Some (monotonic_seconds now)), Ok tt)).

Definition action_failed (m : RecoveryMachine) (fingerprint : string) (wait : Z)
    (_now : ClockSnapshot) : Step :=
  if negb (opt_str_eqb (current m) (Some fingerprint))
     || (max_cumulative_wait (budget m)
         <? saturating_add duration_max (cumulative_wait m) wait)
  then (m, Err "wait budget exhausted")
  else
    let m := set_wait m (cumulative_wait m + wait) in
    and_then (transition m Recovery.Waiting) (λ m,
    and_then (transition m Recovery.Confirmed) (λ m, (m, Ok tt))).

Definition action_succeeded (m : RecoveryMachine) (fingerprint : string) : Step :=
  if negb (opt_str_eqb (current m) (Some fingerprint)) then (m, Err "stale evidence")
  else
    and_then (transition m Recovery.Verifying) (λ m,
    and_then (transition m Recovery.Recovered) (λ m,
      (complete m fingerprint, Ok tt))).

Definition rearm_after_wait (m : RecoveryMachine) : Step :=
  if negb (bool_decide (state m = Recovery.Recovered))
  then (m, Err "wait rearm requires a completed action")
  else transition (set_current m None) Recovery.Observing.

Definition reserve_planner_call (m : RecoveryMachine) : Step :=
  if budget_planner_calls (budget m) <=? planner_calls m
  then (m, Err "planner budget exhausted")
  else (set_planner_calls m (planner_calls m + 1), Ok tt).

Definition apply (m : RecoveryMachine) (c : RecoveryCommand) : Step :=
  match c with
  | Revalidated => revalidated m
  | Confirm f => confirm m f
  | BeginAction f clock => begin_action m f clock
  | ActionFailed f wait clock => action_failed m f wait clock
  | ActionSucceeded f => action_succeeded m f
  | RearmAfterWait => rearm_after_wait m
  | ReservePlanner => reserve_planner_call m
  end.

(** ** Basic facts *)
Lemma and_then_Ok s k m' :
  and_then s k = (m', Ok tt) ↔ ∃ m, s = (m, Ok tt) ∧ k m = (m', Ok tt).
Proof. destruct s as [m [[]|e]]; simpl; naive_solver. Qed.

Lemma transition_Ok m s m' :
  transition m s = (m', Ok tt) ↔
    valid_transition (state m) s = true
    ∧ m' = push_audit (set_state m s) (mkAudit (state m) s "validated transition").
Proof. unfold transition. destruct (valid_transition _ _); naive_solver. Qed.

Lemma transition_Err m s m' e : transition m s = (m', Err e) → m' = m.
Proof. unfold transition. destruct (valid_transition _ _); naive_solver. Qed.

Lemma confirm_Ok m f m' :
  confirm m f = (m', Ok tt) ↔
    (state m = Recovery.Observing ∨ state m = Recovery.Waiting)
    ∧ m' = set_current (push_audit (set_state m Recovery.Confirmed)
                (mkAudit (state m) Recovery.Confirmed "validated transition")) (Some f).
Proof.
  unfold confirm. rewrite and_then_Ok. setoid_rewrite transition_Ok.
  split.
  - intros (m1 & [Hv ->] & ?). simplify_eq. split; [|done].
    destruct (state m); naive_solver.
  - intros [Hs ->]. eexists. split; [split; [by destruct Hs as [->| ->]|done]|done].
Qed.

Lemma revalidated_Ok m m' :
  revalidated m = (m', Ok tt) ↔
    (state m = Recovery.NeedsRevalidation ∨ state m = Recovery.Recovered)
    ∧ m' = push_audit (set_state m Recovery.Observing)
             (mkAudit (state m) Recovery.Observing "validated transition").
Proof.
  unfold revalidated. rewrite transition_Ok.
  destruct (state m); simpl; naive_solver.
Qed.

(** Cooldown elapsed at [now]. *)
Definition cooled (m : RecoveryMachine) (now : ClockSnapshot) : Prop :=
  ∀ last, last_attempt_mono m = Some last →
    as_secs (cooldown (budget m)) ≤ saturating_sub (monotonic_seconds now) last.

Lemma cooling_down_false m now : cooling_down m now = false ↔ cooled m now.
Proof.
  unfold cooling_down, cooled. destruct (last_attempt_mono m).
  - rewrite Z.ltb_ge. naive_solver.
  - naive_solver.
Qed.

Lemma begin_action_Ok m f now m' :
  begin_action m f now = (m', Ok tt) ↔
    state m = Recovery.Confirmed ∧ (f ∉ completed m) ∧ current m = Some f
    ∧ attempts m < max_attempts (budget m) ∧ cooled m now
    ∧ m' = set_attempt (push_audit (set_state m Recovery.Acting)
              (mkAudit (state m) Recovery.Acting "validated transition"))
              (attempts m + 1) (Some (monotonic_seconds now)).
Proof.
  unfold begin_action, opt_str_eqb. rewrite <- cooling_down_false.
  assert (∀ e (P : Prop), (P → False) → ((m, Err e) : Step) = (m', Ok tt) ↔ P) as refute.
  { intros e P HP. split; [done|]. intros H. by destruct (HP H). }
  case_bool_decide; [apply refute; intros (?&?&?&?&?&?); congruence|].
  case_bool_decide; [apply refute; by intros (?&?&?&?&?&?)|].
  case_bool_decide; simpl; [|apply refute; by intros (?&?&?&?&?&?)].
  destruct (Z.leb_spec (max_attempts (budget m)) (attempts m));
    [apply refute; intros (?&?&?&?&?&?); lia|].
  destruct (cooling_down m now); [apply refute; by intros (?&?&?&?&?&?)|].
  rewrite and_then_Ok. setoid_rewrite transition_Ok. split.
  - intros (m1 & [Hv ->] & ?). simplify_eq. repeat split; try done.
    by destruct (state m).
  - intros (Hs & _ & _ & _ & _ & ->). eexists.
    split; [split; [by rewrite Hs|done]|done].
Qed.

Lemma action_failed_Ok m f w now m' :
  action_failed m f w now = (m', Ok tt) ↔
    state m = Recovery.Acting ∧ current m = Some f
    ∧ saturating_add duration_max (cumulative_wait m) w ≤ max_cumulative_wait (budget m)
    ∧ m' = push_audit (set_state
             (push_audit (set_state (set_wait m (cumulative_wait m + w)) Recovery.Waiting)
               (mkAudit (state m) Recovery.Waiting "validated transition"))
             Recovery.Confirmed)
             (mkAudit Recovery.Waiting Recovery.Confirmed "validated transition").
Proof.
  unfold action_failed, opt_str_eqb.
  destruct (decide (current m = Some f)) as [Hc|Hc];
    [rewrite bool_decide_eq_true_2 by done|rewrite bool_decide_eq_false_2 by done];
    simpl; [|naive_solver].
  destruct (Z.ltb_spec (max_cumulative_wait (budget m))
              (saturating_add duration_max (cumulative_wait m) w)); [naive_solver lia|].
  unfold transition at 1. simpl. destruct (state m); simpl; naive_solver.
Qed.

Lemma action_succeeded_Ok m f m' :
  action_succeeded m f = (m', Ok tt) ↔
    state m = Recovery.Acting ∧ current m = Some f
    ∧ m' = complete (push_audit (set_state
             (push_audit (set_state m Recovery.Verifying)
               (mkAudit (state m) Recovery.Verifying "validated transition"))
             Recovery.Recovered)
             (mkAudit Recovery.Verifying Recovery.Recovered "validated transition")) f.
Proof.
  unfold action_succeeded, opt_str_eqb.
  destruct (decide (current m = Some f)) as [Hc|Hc];
    [rewrite bool_decide_eq_true_2 by done|rewrite bool_decide_eq_false_2 by done];
    simpl; [|naive_solver].
  unfold transition at 1. simpl. destruct (state m); simpl; naive_solver.
Qed.

Lemma rearm_after_wait_Ok m m' :
  rearm_after_wait m = (m', Ok tt) ↔
    state m = Recovery.Recovered
    ∧ m' = push_audit (set_state (set_current m None) Recovery.Observing)
             (mkAudit (state m) Recovery.Observing "validated transition").
Proof.
  unfold rearm_after_wait. case_bool_decide as Hs; simpl.
  - rewrite transition_Ok. simpl. rewrite Hs. naive_solver.
  - naive_solver.
Qed.

Lemma reserve_planner_call_Ok m m' :
  reserve_planner_call m = (m', Ok tt) ↔
    planner_calls m < budget_planner_calls (budget m)
    ∧ m' = set_planner_calls m (planner_calls m + 1).
Proof.
  unfold reserve_planner_call.
  destruct (Z.leb_spec (budget_planner_calls (budget m)) (planner_calls m)); naive_solver lia.
Qed.

(** ** Errors

    A rejected command leaves the machine as it was, except that a rejected
    [ActionFailed] may have charged its wait. *)
Definition wait_charged (m : RecoveryMachine) (c : RecoveryCommand) (m' : RecoveryMachine) : Prop :=
  ∃ f w now, c = ActionFailed f w now ∧ state m ≠ Recovery.Acting ∧ current m = Some f
    ∧ saturating_add duration_max (cumulative_wait m) w ≤ max_cumulative_wait (budget m)
    ∧ m' = set_wait m (cumulative_wait m + w).

Lemma and_then_Err_transition m s k m' e :
  and_then (transition m s) k = (m', Err e) →
  (valid_transition (state m) s = false ∧ m' = m)
  ∨ ∃ m1, transition m s = (m1, Ok tt) ∧ k m1 = (m', Err e).
Proof.
  unfold transition. destruct (valid_transition (state m) s); simpl; [|naive_solver].
  intros H. right. eexists. split; [done|done].
Qed.

Lemma action_failed_Err m f w now m' e :
  action_failed m f w now = (m', Err e) → m' = m ∨ wait_charged m (ActionFailed f w now) m'.
Proof.
  unfold action_failed, wait_charged, opt_str_eqb.
  destruct (decide (current m = Some f)) as [Hc|Hc];
    [rewrite bool_decide_eq_true_2 by done|rewrite bool_decide_eq_false_2 by done];
    simpl; [|naive_solver].
  destruct (Z.ltb_spec (max_cumulative_wait (budget m))
              (saturating_add duration_max (cumulative_wait m) w)); [naive_solver|].
  intros [[Hv ->]|(m1 & Hm1 & Hk)]%and_then_Err_transition.
  - right. exists f, w, now. repeat split; try done. simpl in Hv. by destruct (state m).
  - apply transition_Ok in Hm1 as [_ ->]. unfold transition in Hk. by simpl in Hk.
Qed.

Lemma apply_Err m c m' e : apply m c = (m', Err e) → m' = m ∨ wait_charged m c m'.
Proof.
  destruct c as [|f|f now|f w now|f| |]; cbn [apply]; intros H.
  - left. by eapply transition_Err.
  - left. unfold confirm in H.
    by apply and_then_Err_transition in H as [[_ ->]|(? & ? & ?)].
  - left. unfold begin_action in H. repeat case_bool_in H; simplify_eq/=; try done.
    by apply and_then_Err_transition in H as [[_ ->]|(? & ? & ?)].
  - by eapply action_failed_Err.
  - left. unfold action_succeeded in H. case_bool_in H; simplify_eq/=; [done|].
    apply and_then_Err_transition in H as [[_ ->]|(m1 & Hm1 & Hk)]; [done|].
    apply transition_Ok in Hm1 as [_ ->]. unfold transition in Hk. by simpl in Hk.
  - left. unfold rearm_after_wait in H. case_bool_decide as Hs; simpl in H; [|by simplify_eq].
    unfold transition in H. simpl in H. rewrite Hs in H. by simpl in H.
  - left. unfold reserve_planner_call in H. case_bool_in H; by simplify_eq.
Qed.

(** ** Runs

    A run interleaves commands, accepted or rejected, with daemon restarts. *)
Inductive label : Type :=
| LCmd (c : RecoveryCommand) (accepted : bool)
| LRestart.

#[global] Instance label_eq_dec : EqDecision label.
Proof. solve_decision. Defined.

(** The arguments of a command are of their Rust types. *)
Definition cmd_typed (c : RecoveryCommand) : Prop :=
  match c with ActionFailed _ w _ => 0 ≤ w ≤ duration_max | _ => True end.

(** A budget whose wait cannot overflow [Duration]. *)
Definition budget_typed (b : Budget) : Prop :=
  0 ≤ max_attempts b ≤ u32_max ∧ 0 ≤ max_cumulative_wait b < duration_max
  ∧ 0 ≤ budget_planner_calls b ≤ u32_max ∧ 0 ≤ cooldown b ≤ duration_max.

Inductive mstep : RecoveryMachine → label → RecoveryMachine → Prop :=
| step_cmd m c m' r :
    cmd_typed c → apply m c = (m', r) → mstep m (LCmd c (is_ok r)) m'
| step_restart m m' :
    restore_for_restart m = Ok m' → mstep m LRestart m'.

Inductive mrun (m0 : RecoveryMachine) : list label → RecoveryMachine → Prop :=
| run_nil : mrun m0 [] m0
| run_snoc ls m l m' : mrun m0 ls m → mstep m l m' → mrun m0 (ls ++ [l]) m'.

(** Consecutive audit entries connect, and each is a legal edge or a restart. *)
Definition audit_edge (t : AuditTransition) : Prop :=
  valid_transition (from t) (to t) = true
  ∨ (to t = Recovery.NeedsRevalidation ∧ audit_reason t = "restart requires live revalidation").

Fixpoint chained (s : RecoveryState) (l : list AuditTransition) (e : RecoveryState) : Prop :=
  match l with
  | [] => s = e
  | t :: l' => from t = s ∧ audit_edge t ∧ chained (to t) l' e
  end.

Lemma chained_snoc s l e t :
  chained s l e → from t = e → audit_edge t → chained s (l ++ [t]) (to t).
Proof.
  revert s. induction l as [|u l IH]; intros s; simpl.
  - intros -> ? ?. done.
  - intros (? & ? & ?) ? ?. eauto.
Qed.

(** States a machine rests in between commands. *)
Definition resting (s : RecoveryState) : Prop :=
  s ∈ [Recovery.NeedsRevalidation; Recovery.Observing; Recovery.Confirmed;
       Recovery.Acting; Recovery.Recovered].

Record machine_inv (m : RecoveryMachine) : Prop := {
  inv_version : machine_version m = 1;
  inv_budget : budget_typed (budget m);
  inv_attempts : 0 ≤ attempts m ≤ max_attempts (budget m);
  inv_wait : 0 ≤ cumulative_wait m ≤ max_cumulative_wait (budget m);
  inv_planner : 0 ≤ planner_calls m ≤ budget_planner_calls (budget m);
  inv_resting : resting (state m);
  inv_confirmed : state m = Recovery.Confirmed → is_Some (current m);
  inv_acting : state m = Recovery.Acting →
    1 ≤ attempts m ∧ is_Some (last_attempt_mono m)
    ∧ ∃ f, current m = Some f ∧ (f ∉ completed m);
  inv_recovered : state m = Recovery.Recovered →
    ∃ f, current m = Some f ∧ f ∈ completed m;
  inv_audit : chained Recovery.NeedsRevalidation (audit m) (state m);
}.

Lemma new_inv b : budget_typed b → machine_inv (machine_new b).
Proof.
  intros Hb. pose proof Hb as (? & ? & ? & ?). split; simpl; try done; try lia.
  unfold resting. set_solver.
Qed.

(** Re-establish the invariant after a single audited transition. *)
Lemma inv_push m s why m1 :
  machine_inv m → resting s →
  audit_edge (mkAudit (state m) s why) →
  m1 = push_audit (set_state m s) (mkAudit (state m) s why) →
  (s = Recovery.Confirmed → is_Some (current m)) →
  (s = Recovery.Acting → False) → (s = Recovery.Recovered → False) →
  machine_inv m1.
Proof.
  intros [] ? ? -> Hc Ha Hr. split; simpl; try done; try (intros Hs; exfalso; by eauto).
  by eapply (chained_snoc _ _ _ (mkAudit (state m) s why)).
Qed.

Lemma resting_intro s :
  s = Recovery.NeedsRevalidation ∨ s = Recovery.Observing ∨ s = Recovery.Confirmed
  ∨ s = Recovery.Acting ∨ s = Recovery.Recovered → resting s.
Proof. unfold resting. set_solver. Qed.

Lemma confirm_inv m f m' : machine_inv m → confirm m f = (m', Ok tt) → machine_inv m'.
Proof.
  intros [] [Hs ->]%confirm_Ok. split; simpl; try done.
  - apply resting_intro; auto.
  - eapply (chained_snoc _ _ _ (mkAudit (state m) Recovery.Confirmed _)); [done..|].
    left. by destruct Hs as [->| ->].
Qed.

Lemma begin_action_inv m f now m' :
  machine_inv m → begin_action m f now = (m', Ok tt) → machine_inv m'.
Proof.
  intros [] (Hs & Hf & Hcur & Hlt & _ & ->)%begin_action_Ok. split; simpl; try done; try lia.
  - apply resting_intro; auto.
  - intros _. split; [lia|]. eauto.
  - eapply (chained_snoc _ _ _ (mkAudit (state m) Recovery.Acting _)); [done..|].
    left. by rewrite Hs.
Qed.

Lemma wait_within m w :
  machine_inv m → 0 ≤ w →
  saturating_add duration_max (cumulative_wait m) w ≤ max_cumulative_wait (budget m) →
  0 ≤ cumulative_wait m + w ≤ max_cumulative_wait (budget m).
Proof.
  intros [] ? Hsat. destruct inv_budget0 as (_ & ? & _). unfold saturating_add in Hsat. lia.
Qed.

Lemma action_failed_inv m f w now m' :
  machine_inv m → 0 ≤ w → action_failed m f w now = (m', Ok tt) → machine_inv m'.
Proof.
  intros Hinv Hw (Hs & Hcur & Hsat & ->)%action_failed_Ok.
  pose proof (wait_within _ _ Hinv Hw Hsat). destruct Hinv. split; simpl; try done.
  - apply resting_intro; auto.
  - eapply (chained_snoc _ _ _ (mkAudit Recovery.Waiting Recovery.Confirmed _));
      [|done|by left].
    eapply (chained_snoc _ _ _ (mkAudit (state m) Recovery.Waiting _)); [done..|].
    left. by rewrite Hs.
Qed.

Lemma action_succeeded_inv m f m' :
  machine_inv m → action_succeeded m f = (m', Ok tt) → machine_inv m'.
Proof.
  intros [] (Hs & Hcur & ->)%action_succeeded_Ok. split; simpl; try done.
  - apply resting_intro; auto 10.
  - intros _. exists f. split; [done|]. set_solver.
  - eapply (chained_snoc _ _ _ (mkAudit Recovery.Verifying Recovery.Recovered _));
      [|done|by left].
    eapply (chained_snoc _ _ _ (mkAudit (state m) Recovery.Verifying _)); [done..|].
    left. by rewrite Hs.
Qed.

Lemma rearm_inv m m' : machine_inv m → rearm_after_wait m = (m', Ok tt) → machine_inv m'.
Proof.
  intros [] (Hs & ->)%rearm_after_wait_Ok. split; simpl; try done.
  - apply resting_intro; auto.
  - eapply (chained_snoc _ _ _ (mkAudit (state m) Recovery.Observing _)); [done..|].
    left. by rewrite Hs.
Qed.

Lemma planner_inv m m' : machine_inv m → reserve_planner_call m = (m', Ok tt) → machine_inv m'.
Proof. intros [] (Hs & ->)%reserve_planner_call_Ok. split; simpl; try done; lia. Qed.

Lemma restore_inv m m' : machine_inv m → restore_for_restart m = Ok m' → machine_inv m'.
Proof.
  unfold restore_for_restart. intros Hinv H. case_bool_in H; simplify_eq.
  eapply inv_push; eauto; [|by right|done..]. apply resting_intro; auto.
Qed.

Lemma wait_charged_inv m c m' :
  machine_inv m → cmd_typed c → wait_charged m c m' → machine_inv m'.
Proof.
  intros Hinv Hc (f & w & now & -> & _ & _ & Hsat & ->).
  pose proof (wait_within _ _ Hinv (proj1 Hc) Hsat). by destruct Hinv.
Qed.

Lemma apply_inv m c m' r :
  machine_inv m → cmd_typed c → apply m c = (m', r) → machine_inv m'.
Proof.
  intros Hinv Hc H. destruct r as [[]|e].
  - destruct c; cbn [apply] in H; eauto using confirm_inv, begin_action_inv,
      action_succeeded_inv, rearm_inv, planner_inv.
    + apply revalidated_Ok in H as [Hs ->].
      eapply inv_push; eauto; try done; [apply resting_intro; auto|].
      left. by destruct Hs as [->| ->].
    + eapply action_failed_inv; eauto. apply Hc.
  - apply apply_Err in H as [->|Hw]; eauto using wait_charged_inv.
Qed.

Lemma step_inv m l m' : machine_inv m → mstep m l m' → machine_inv m'.
Proof. intros Hinv. destruct 1; eauto using apply_inv, restore_inv. Qed.

Lemma run_inv m0 ls m : machine_inv m0 → mrun m0 ls m → machine_inv m.
Proof. intros Hinv. induction 1; eauto using step_inv. Qed.

(** ** History variables

    What a run's labels alone say about the counters of the machine. *)
Definition is_begin (l : label) : bool :=
  match l with LCmd (BeginAction _ _) true => true | _ => false end.

Definition begins (ls : list label) : Z := Z.of_nat (length (filter (λ l, is_begin l = true) ls)).

Definition begin_time (l : label) : option Z :=
  match l with LCmd (BeginAction _ now) true => Some (monotonic_seconds now) | _ => None end.

(** The time of the last accepted [BeginAction]. *)
Definition last_begin (ls : list label) : option Z :=
  foldl (λ acc l, match begin_time l with Some t => Some t | None => acc end) None ls.

Lemma begins_snoc ls l : begins (ls ++ [l]) = begins ls + (if is_begin l then 1 else 0).
Proof.
  unfold begins. rewrite filter_app, length_app. simpl.
  rewrite filter_cons, filter_nil. destruct (is_begin l); simpl; lia.
Qed.

Lemma last_begin_snoc ls l :
  last_begin (ls ++ [l]) =
    match begin_time l with Some t => Some t | None => last_begin ls end.
Proof. unfold last_begin. by rewrite foldl_app. Qed.

(** Open an accepted step into the equations of its operation. *)
Ltac open_step :=
  repeat match goal with
  | H : apply _ (?c _) = (_, Ok _) |- _ => cbn [apply] in H
  | H : apply _ (?c _ _) = (_, Ok _) |- _ => cbn [apply] in H
  | H : apply _ (?c _ _ _) = (_, Ok _) |- _ => cbn [apply] in H
  | H : apply _ _ = (_, Ok _) |- _ => progress cbn [apply] in H
  | H : revalidated _ = (_, Ok tt) |- _ => apply revalidated_Ok in H as [? ->]
  | H : confirm _ _ = (_, Ok tt) |- _ => apply confirm_Ok in H as [? ->]
  | H : begin_action _ _ _ = (_, Ok tt) |- _ =>
      apply begin_action_Ok in H as (? & ? & ? & ? & ? & ->)
  | H : action_failed _ _ _ _ = (_, Ok tt) |- _ =>
      apply action_failed_Ok in H as (? & ? & ? & ->)
  | H : action_succeeded _ _ = (_, Ok tt) |- _ => apply action_succeeded_Ok in H as (? & ? & ->)
  | H : rearm_after_wait _ = (_, Ok tt) |- _ => apply rearm_after_wait_Ok in H as [? ->]
  | H : reserve_planner_call _ = (_, Ok tt) |- _ => apply reserve_planner_call_Ok in H as [? ->]
  end.

(** Case analysis of a step: every accepted command, a rejected one, a restart. *)
Ltac cases_step H :=
  let c := fresh "c" in let Hr := fresh "Happ" in
  inversion H as [? c ? [[]|?] ? Hr|? ? Hr]; subst; simpl in *;
  [ destruct c; open_step
  | apply apply_Err in Hr as [->|(?&?&?&->&?&?&?&->)]
  | unfold restore_for_restart in Hr; case_bool_in Hr; simplify_eq ].

Lemma step_history m l m' :
  mstep m l m' →
  attempts m' = attempts m + (if is_begin l then 1 else 0)
  ∧ last_attempt_mono m' =
      match begin_time l with Some t => Some t | None => last_attempt_mono m end
  ∧ budget m' = budget m ∧ completed m ⊆ completed m'.
Proof.
  intros H. cases_step H; simpl; repeat split; try lia; try done; try set_solver.
  all: destruct c; simpl; lia || done.
Qed.

Lemma run_history b ls m :
  mrun (machine_new b) ls m →
  attempts m = begins ls ∧ last_attempt_mono m = last_begin ls ∧ budget m = b.
Proof.
  induction 1 as [|ls m l m' _ (IH1 & IH2 & IH3) Hs]; [done|].
  apply step_history in Hs as (-> & -> & -> & _).
  rewrite begins_snoc, last_begin_snoc. rewrite <- IH1, <- IH2. done.
Qed.

Lemma run_completed_mono m0 ls m : mrun m0 ls m → completed m0 ⊆ completed m.
Proof.
  induction 1 as [|ls m l m' _ IH Hs]; [done|].
  apply step_history in Hs as (_ & _ & _ & ?). by etrans.
Qed.

Lemma run_app_inv m0 ls1 ls2 m :
  mrun m0 (ls1 ++ ls2) m → ∃ m1, mrun m0 ls1 m1 ∧ mrun m1 ls2 m.
Proof.
  revert m. induction ls2 as [|l ls2 IH] using rev_ind; intros m.
  - rewrite app_nil_r. intros. exists m. by split; [|constructor].
  - rewrite app_assoc. intros H. inversion H as [Heq|ls m1 l' m' Hrun Hstep Heq]; subst.
    { by destruct (ls1 ++ ls2). }
    apply app_inj_tail in Heq as [-> ->].
    destruct (IH _ Hrun) as (m2 & ? & ?). exists m2. by split; [|econstructor].
Qed.

Lemma run_cons_inv m0 l ls m :
  mrun m0 (l :: ls) m → ∃ m1, mstep m0 l m1 ∧ mrun m1 ls m.
Proof.
  intros H. apply (run_app_inv _ [l] ls) in H as (m1 & H1 & H2).
  exists m1. split; [|done].
  inversion H1 as [|ls' m' l' m'' Hrun Hstep Heq]; subst.
  destruct ls' as [|x ls']; simplify_eq/=; [|by destruct ls'].
  inversion Hrun as [|ls' ? ? ? ? ? Heq]; subst; [done|by destruct ls'].
Qed.

Lemma step_success_completed m f m' :
  mstep m (LCmd (ActionSucceeded f) true) m' → f ∈ completed m'.
Proof.
  intros H. inversion H as [? ? ? [[]|?] ? Hr|]; subst; simpl in *; try done.
  open_step. simpl. set_solver.
Qed.

Lemma step_begin m f now m' :
  mstep m (LCmd (BeginAction f now) true) m' →
  state m = Recovery.Confirmed ∧ (f ∉ completed m) ∧ current m = Some f
  ∧ attempts m < max_attempts (budget m) ∧ cooled m now.
Proof.
  intros H. inversion H as [? ? ? [[]|?] ? Hr|]; subst; simpl in *; try done.
  by open_step.
Qed.

(** No live confirmation of [f] since the last restart. *)
Definition unconfirmed (f : string) (m : RecoveryMachine) : Prop :=
  state m = Recovery.NeedsRevalidation ∨ state m = Recovery.Observing ∨ current m ≠ Some f.

Lemma step_unconfirmed f m l m' :
  l ≠ LCmd (Confirm f) true → unconfirmed f m → mstep m l m' → unconfirmed f m'.
Proof.
  unfold unconfirmed. intros Hl Hu H. cases_step H; simpl in *; auto; try naive_solver.
  all: right; right; destruct Hu as [?|[?|?]]; congruence.
Qed.

Lemma run_unconfirmed f m ls m' :
  LCmd (Confirm f) true ∉ ls → unconfirmed f m → mrun m ls m' → unconfirmed f m'.
Proof.
  intros Hls Hu H. induction H as [|ls m1 l m' _ IH Hs]; [done|].
  eapply step_unconfirmed; [| |done]; [set_solver|]. apply IH. set_solver.
Qed.

(** A run given by its commands, executed; [accepts] checks that each command
    is accepted. *)
Definition accept (m : RecoveryMachine) (c : RecoveryCommand) : RecoveryMachine := (apply m c).1.

Fixpoint accepts (m : RecoveryMachine) (cs : list RecoveryCommand) : bool :=
  match cs with
  | [] => true
  | c :: cs' => is_ok (apply m c).2 && accepts (accept m c) cs'
  end.

Lemma run_accept m0 ls m cs :
  mrun m0 ls m → Forall cmd_typed cs → accepts m cs = true →
  mrun m0 (ls ++ ((λ c, LCmd c true) <$> cs)) (foldl accept m cs).
Proof.
  revert ls m. induction cs as [|c cs IH]; intros ls m Hr Ht Ha.
  - by rewrite app_nil_r.
  - apply Forall_cons in Ht as [Hc Ht]. simpl in Ha. apply andb_true_iff in Ha as [Hok Ha].
    cbn [fmap list_fmap]. rewrite cons_middle, app_assoc. apply IH; [|done..].
    unfold accept. destruct (apply m c) as [m' [[]|e]] eqn:E; simpl in *; [|done].
    eapply run_snoc; [done|]. by apply (step_cmd _ c _ (Ok tt)).
Qed.

(** ** Properties *)

(** C10: along every run of commands (accepted or rejected) and restarts from a
    fresh machine, the machine invariant holds: the counters stay within the
    budget, the machine rests only in the five stable states, [Confirmed],
    [Acting] and [Recovered] are owned by a fingerprint that is respectively
    present, not yet completed and completed, and the audit log is one connected
    chain of legal edges from [NeedsRevalidation] to the current state. *)
Theorem reachable_machine_inv b ls m :
  budget_typed b → mrun (machine_new b) ls m → machine_inv m ∧ budget m = b.
Proof.
  intros Hb Hr. split; [|by eapply run_history].
  eapply run_inv; [|done]. by apply new_inv.
Qed.

Definition sample_budget : Budget := mkBudget 3 (from_secs 300) 1 (from_secs 60).

Lemma sample_budget_typed : budget_typed sample_budget.
Proof. vm_compute. repeat split; discriminate. Qed.

Lemma reachable_machine_inv_witness :
  machine_inv (foldl accept (machine_new sample_budget)
                 [Revalidated; Confirm "f"; BeginAction "f" (mkClock 10 0)]).
Proof.
  refine (proj1 (reachable_machine_inv sample_budget _ _ sample_budget_typed
    (run_accept _ [] _ _ (run_nil _) _ _))); [by repeat constructor|vm_compute; reflexivity].
Defined.

(** C11: no run, whatever it interleaves and however often the daemon restarts,
    accepts more [BeginAction] commands than the attempt budget, and the attempt
    counter is exactly the number of accepted ones (so [attempts += 1] never
    overflows [u32]). *)
Theorem attempts_bounded b ls m :
  budget_typed b → mrun (machine_new b) ls m →
  begins ls = attempts m ∧ begins ls ≤ max_attempts b ≤ u32_max.
Proof.
  intros Hb Hr. destruct (run_history _ _ _ Hr) as (<- & _ & Heq).
  pose proof (inv_attempts _ (run_inv _ _ _ (new_inv _ Hb) Hr)).
  rewrite Heq in *. destruct Hb as ((? & ?) & _). lia.
Qed.

Lemma attempts_bounded_witness :
  begins ((λ c, LCmd c true) <$> [Revalidated; Confirm "f"; BeginAction "f" (mkClock 10 0)]) = 1.
Proof.
  refine (proj1 (attempts_bounded sample_budget _ _ sample_budget_typed
    (run_accept _ [] _ [Revalidated; Confirm "f"; BeginAction "f" (mkClock 10 0)]
       (run_nil _) _ _))); [by repeat constructor|vm_compute; reflexivity].
Defined.

(** A fingerprint whose action has succeeded is never begun again, in any
    continuation of the run and across restarts. *)
Theorem no_action_after_success m0 ls1 f ls2 now ls3 m :
  ¬ mrun m0 (ls1 ++ [LCmd (ActionSucceeded f) true] ++ ls2
             ++ [LCmd (BeginAction f now) true] ++ ls3) m.
Proof.
  intros (m1 & _ & (m2 & Hs & H2)%run_cons_inv)%run_app_inv.
  apply step_success_completed in Hs.
  apply run_app_inv in H2 as (m3 & Hsub%run_completed_mono & (m4 & Hb & _)%run_cons_inv).
  apply step_begin in Hb as (_ & Hf & _). by apply Hf, Hsub.
Qed.

(** Two successive accepted [BeginAction] commands are at least the cooldown
    apart on the monotonic clock. *)
Theorem begins_respect_cooldown b ls f now m t :
  mrun (machine_new b) (ls ++ [LCmd (BeginAction f now) true]) m →
  last_begin ls = Some t →
  as_secs (cooldown b) ≤ saturating_sub (monotonic_seconds now) t.
Proof.
  intros (m1 & Hr & (m2 & Hs & _)%run_cons_inv)%run_app_inv Hlast.
  apply step_begin in Hs as (_ & _ & _ & _ & Hc).
  destruct (run_history _ _ _ Hr) as (_ & Hl & <-). apply Hc. congruence.
Qed.

Definition two_begins : list RecoveryCommand :=
  [Revalidated; Confirm "f"; BeginAction "f" (mkClock 10 0); ActionFailed "f" 5 (mkClock 11 0);
   BeginAction "f" (mkClock 75 0)].

Lemma begins_respect_cooldown_witness :
  as_secs (cooldown sample_budget) ≤ saturating_sub 75 10.
Proof.
  refine (begins_respect_cooldown sample_budget
    [LCmd Revalidated true; LCmd (Confirm "f") true;
     LCmd (BeginAction "f" (mkClock 10 0)) true; LCmd (ActionFailed "f" 5 (mkClock 11 0)) true]
    "f" (mkClock 75 0) (foldl accept (machine_new sample_budget) two_begins) 10 _ eq_refl).
  refine (run_accept (machine_new sample_budget) [] _ two_begins (run_nil _) _ _);
    [|vm_compute; reflexivity].
  repeat constructor; vm_compute; discriminate.
Defined.

(** After a daemon restart no action is begun on a fingerprint that has not
    been confirmed again from live evidence since the restart. *)
Theorem restart_requires_confirmation m0 ls1 ls2 f now m :
  mrun m0 (ls1 ++ [LRestart] ++ ls2 ++ [LCmd (BeginAction f now) true]) m →
  LCmd (Confirm f) true ∈ ls2.
Proof.
  intros (m1 & _ & (m2 & Hs & H2)%run_cons_inv)%run_app_inv.
  apply run_app_inv in H2 as (m3 & H3 & (m4 & Hb & _)%run_cons_inv).
  apply step_begin in Hb as (Hst & _ & Hcur & _).
  destruct (decide (LCmd (Confirm f) true ∈ ls2)) as [|Hn]; [done|].
  exfalso. eapply run_unconfirmed in H3; [|done|].
  - destruct H3 as [?|[?|?]]; congruence.
  - left. inversion Hs as [|? ? Hr]; subst. unfold restore_for_restart in Hr.
    case_bool_in Hr; by simplify_eq.
Qed.

Definition after_restart : RecoveryMachine :=
  match restore_for_restart (machine_new sample_budget) with
  | Ok m => m | Err _ => machine_new sample_budget end.

Lemma restart_requires_confirmation_witness :
  LCmd (Confirm "f") true ∈ [LCmd Revalidated true; LCmd (Confirm "f") true].
Proof.
  apply (restart_requires_confirmation (machine_new sample_budget) []
    [LCmd Revalidated true; LCmd (Confirm "f") true] "f" (mkClock 9 0)
    (foldl accept after_restart [Revalidated; Confirm "f"; BeginAction "f" (mkClock 9 0)])).
  refine (run_accept (machine_new sample_budget) [LRestart] after_restart
    [Revalidated; Confirm "f"; BeginAction "f" (mkClock 9 0)] _ _ _);
    [|by repeat constructor|vm_compute; reflexivity].
  apply (run_snoc _ [] (machine_new sample_budget)); [constructor|]. by apply step_restart.
Defined.

(** A rejected command leaves the machine exactly as it was, with one
    exception: [action_failed] called outside [Acting] with the owning
    fingerprint returns an error after having charged the wait. *)
Theorem rejected_command_effect m c m' e :
  apply m c = (m', Err e) →
  m' = m ∨ (∃ f w now, c = ActionFailed f w now ∧ state m ≠ Recovery.Acting
            ∧ current m = Some f ∧ m' = set_wait m (cumulative_wait m + w)).
Proof. intros [?|(f & w & now & ? & ? & ? & _ & ?)]%apply_Err; [by left|right; eauto 8]. Qed.

Lemma rejected_command_effect_witness :
  let m := foldl accept (machine_new sample_budget) [Revalidated; Confirm "f"] in
  let m' := set_wait m 7 in
  apply m (ActionFailed "f" 7 (mkClock 0 0)) = (m', Err "invalid recovery transition")
  ∧ m' ≠ m
  ∧ (m' = m ∨ (∃ f w now, ActionFailed "f" 7 (mkClock 0 0) = ActionFailed f w now
       ∧ state m ≠ Recovery.Acting
       ∧ current m = Some f ∧ m' = set_wait m (cumulative_wait m + w))).
Proof.
  intros m m'. assert (apply m (ActionFailed "f" 7 (mkClock 0 0))
    = (m', Err "invalid recovery transition")) as H by (vm_compute; reflexivity).
  split; [exact H|]. split; [vm_compute; discriminate|].
  exact (rejected_command_effect _ _ _ _ H).
Defined.

(** A restart keeps the last attempt's monotonic reading although the clock
    that produced it starts again from zero in the new process: whatever happens
    between, as long as no new attempt was accepted, [BeginAction] is rejected until
    the new process's own reading reaches the old reading plus the cooldown. *)
Theorem restart_keeps_stale_cooldown m m1 ls m2 last f now :
  restore_for_restart m = Ok m1 → mrun m1 ls m2 → begins ls = 0 →
  last_attempt_mono m = Some last →
  0 ≤ monotonic_seconds now < last + as_secs (cooldown (budget m)) →
  0 < as_secs (cooldown (budget m)) →
  is_ok (begin_action m2 f now).2 = false.
Proof.
  intros Hr Hrun Hb Hlast Hnow Hcd.
  assert (last_attempt_mono m1 = Some last ∧ budget m1 = budget m) as [H1 H2].
  { unfold restore_for_restart in Hr. case_bool_in Hr; by simplify_eq. }
  assert (last_attempt_mono m2 = Some last ∧ budget m2 = budget m) as [H3 H4].
  { clear Hr Hnow. induction Hrun as [|ls m3 l m4 Hrun IH Hs]; [done|].
    rewrite begins_snoc in Hb. apply step_history in Hs as (_ & -> & -> & _).
    assert (0 ≤ begins ls) by (unfold begins; lia).
    assert (is_begin l = false) as Hl by (destruct (is_begin l); [lia|done]).
    destruct IH as [-> ->]; [rewrite Hl in Hb; lia|].
    split; [|done]. by destruct l as [[] []|]. }
  destruct (begin_action m2 f now) as [m3 [[]|e]] eqn:E; [|done].
  apply begin_action_Ok in E as (_ & _ & _ & _ & Hc & _).
  specialize (Hc _ H3). rewrite H4 in Hc. unfold saturating_sub in Hc. lia.
Qed.

(** The daemon had been up 5000 s when it last acted; restarted, it refuses to act
    at an uptime of 4000 s. *)
Definition acted_late : RecoveryMachine :=
  foldl accept (machine_new sample_budget)
    [Revalidated; Confirm "f"; BeginAction "f" (mkClock 5000 0); ActionFailed "f" 5 (mkClock 5001 0)].
Definition acted_late_restarted : RecoveryMachine :=
  match restore_for_restart acted_late with Ok m => m | Err _ => acted_late end.

Lemma restart_keeps_stale_cooldown_witness :
  is_ok (begin_action (foldl accept acted_late_restarted [Revalidated; Confirm "f"]) "f"
           (mkClock 4000 0)).2 = false.
Proof.
  refine (restart_keeps_stale_cooldown acted_late acted_late_restarted
    ([] ++ ((λ c, LCmd c true) <$> [Revalidated; Confirm "f"])) _ 5000 "f" (mkClock 4000 0)
    _ (run_accept _ [] _ _ (run_nil _) _ _) _ _ _ _);
    [vm_compute; reflexivity|by repeat constructor|vm_compute; reflexivity..| |vm_compute; reflexivity].
  vm_compute. split; [discriminate|reflexivity].
Defined.
