(* ===== verification/Identity.v ===== *)
(** * Target identities (src/src/model/identity.rs)

    Which process, and which multiplexer pane, a watcher is bound to, with the
    versioned wire form that decides when a persisted identity must be
    revalidated. *)
From S2P Require Import Prelude.

Local Open Scope Z_scope.

Definition PROCESS_IDENTITY_SCHEMA_VERSION : Z := 1.
Definition TARGET_IDENTITY_SCHEMA_VERSION : Z := 2.

Inductive HerdrWireProtocol : Type := Auto | BridgeV1 | Native16.

#[global] Instance HerdrWireProtocol_eq_dec : EqDecision HerdrWireProtocol.
Proof. solve_decision. Defined.

Inductive MultiplexerContext : Type :=
| CtxTmux (socket_path server_instance session_id window_id pane_id tty : string)
| CtxHerdr (socket_path server_instance workspace_id tab_id pane_id tty : string)
    (wire_protocol : HerdrWireProtocol).

#[global] Instance MultiplexerContext_eq_dec : EqDecision MultiplexerContext.
Proof. solve_decision. Defined.

(** [TrustedScreenBoundary] of src/src/observe/screen.rs, alias [TmuxChrome]. *)
Record TmuxChrome : Type := mkChrome {
  adapter : string;
  chrome_version : Z;
  first_live_line : nat;
}.

#[global] Instance TmuxChrome_eq_dec : EqDecision TmuxChrome.
Proof. solve_decision. Defined.

Record ProcessIdentity : Type := mkProcessIdentity {
  pi_schema_version : Z;
  pid : Z;
  start_time : Z;
  executable : option string;
  argv_digest : option string;
  uid : option Z;
  process_group_id : option Z;
  session_leader_id : option Z;
  tty : option string;
  parent_digest : option string;
}.

#[global] Instance ProcessIdentity_eq_dec : EqDecision ProcessIdentity.
Proof. solve_decision. Defined.

Definition process_identity_new (p start : Z) : ProcessIdentity :=
  mkProcessIdentity PROCESS_IDENTITY_SCHEMA_VERSION p start
    None None None None None None None.

(** [Deserialize for ProcessIdentity] on the decoded wire record. *)
Definition process_identity_from_wire (w : ProcessIdentity) : result string ProcessIdentity :=
  if negb (pi_schema_version w =? PROCESS_IDENTITY_SCHEMA_VERSION)
  then Err "unsupported process identity schema version"
  else Ok w.

Inductive TargetIdentity : Type :=
| TProcess (process : ProcessIdentity)
| TMultiplexer (provider server pane : string) (process : ProcessIdentity)
    (session : option string) (context : option MultiplexerContext)
    (chrome : option TmuxChrome) (needs_revalidation : bool).

#[global] Instance TargetIdentity_eq_dec : EqDecision TargetIdentity.
Proof. solve_decision. Defined.

Definition target_multiplexer (provider server pane : string) (process : ProcessIdentity)
    (session : option string) : TargetIdentity :=
  TMultiplexer provider server pane process session None None true.

Definition target_tmux (socket_path server_instance session_id window_id pane_id tty : string)
    (process : ProcessIdentity) (chrome : option TmuxChrome) : TargetIdentity :=
  TMultiplexer "tmux" socket_path pane_id process (Some session_id)
    (Some (CtxTmux socket_path server_instance session_id window_id pane_id tty))
    chrome false.

Definition target_herdr (socket_path server_instance workspace_id tab_id pane_id tty : string)
    (process : ProcessIdentity) (wire_protocol : HerdrWireProtocol) : TargetIdentity :=
  TMultiplexer "herdr" socket_path pane_id process (Some workspace_id)
    (Some (CtxHerdr socket_path server_instance workspace_id tab_id pane_id tty wire_protocol))
    None false.

Definition needs_revalidation (t : TargetIdentity) : bool :=
  match t with TMultiplexer _ _ _ _ _ _ _ true => true | _ => false end.

Definition observation_context (t : TargetIdentity) : option MultiplexerContext :=
  match t with TMultiplexer _ _ _ _ _ context _ _ => context | _ => None end.

Definition tmux_chrome (t : TargetIdentity) : option TmuxChrome :=
  match t with
  | TMultiplexer provider _ _ _ _ _ chrome _ =>
      if String.eqb provider "tmux" then chrome else None
  | _ => None
  end.

(** ** Wire form *)
Inductive TargetWire : Type :=
| WProcess (version : Z) (process : ProcessIdentity)
| WMultiplexer (version : Z) (provider server pane : string) (process : ProcessIdentity)
    (session : option string) (context : option MultiplexerContext)
    (chrome : option TmuxChrome) (needs_revalidation : bool).

Definition target_to_wire (t : TargetIdentity) : TargetWire :=
  match t with
  | TProcess process => WProcess TARGET_IDENTITY_SCHEMA_VERSION process
  | TMultiplexer provider server pane process session context chrome reval =>
      WMultiplexer TARGET_IDENTITY_SCHEMA_VERSION provider server pane process session
        context chrome reval
  end.

Definition wire_version (w : TargetWire) : Z :=
  match w with WProcess v _ => v | WMultiplexer v _ _ _ _ _ _ _ _ => v end.

Definition target_from_wire (w : TargetWire) : result string TargetIdentity :=
  let version := wire_version w in
  if negb (version =? 1) && negb (version =? TARGET_IDENTITY_SCHEMA_VERSION)
  then Err "unsupported target identity schema version"
  else Ok
    match w with
    | WProcess _ process => TProcess process
    | WMultiplexer _ provider server pane process session context chrome reval =>
        TMultiplexer provider server pane process session context chrome
          ((version =? 1) || reval)
    end.

(** ** Properties *)

(** The wire form of a target identity round-trips; a version-1 multiplexer
    record decodes to the same identity except that it must be revalidated, and
    every other version is refused. *)
Theorem target_wire_roundtrip t w :
  target_from_wire (target_to_wire t) = Ok t
  ∧ (wire_version w = 1 →
       ∃ t', target_from_wire w = Ok t'
             ∧ needs_revalidation t' = match w with WProcess _ _ => false | _ => true end)
  ∧ (is_ok (target_from_wire w) = true ↔ wire_version w = 1 ∨ wire_version w = 2).
Proof.
  split; [by destruct t|]. split.
  - intros Hv. unfold target_from_wire. rewrite Hv. simpl.
    eexists. split; [done|]. by destruct w.
  - unfold target_from_wire, TARGET_IDENTITY_SCHEMA_VERSION.
    destruct (Z.eqb_spec (wire_version w) 1), (Z.eqb_spec (wire_version w) 2);
      simpl; naive_solver lia.
Qed.

Lemma target_wire_roundtrip_witness :
  let w := WMultiplexer 1 "tmux" "s" "%1" (process_identity_new 7 8) None None None false in
  wire_version w = 1 ∧ ∃ t', target_from_wire w = Ok t' ∧ needs_revalidation t' = true.
Proof.
  intros w. split; [reflexivity|].
  exact (proj1 (proj2 (target_wire_roundtrip (TProcess (process_identity_new 7 8)) w)) eq_refl).
Defined.
