(* ===== verification/State.v ===== *)
(** * Watcher state (src/src/model/state.rs)

    The durable record the daemon keeps per watcher: its target, lifecycle,
    revision, recovery machine, observation schedule, last event and the trusted
    session attachments. *)
From S2P Require Import Prelude Json Event Identity StateMachine.

Local Open Scope Z_scope.

Definition WATCHER_STATE_SCHEMA_VERSION : Z := 1.

Record ObservationSchedule : Type := mkSchedule {
  next_due_wall_ms : Z;
  last_check_wall_ms : option Z;
  event_wake_pending : bool;
  interval_sequence : Z;
  last_wake_fingerprint : option string;
  last_wake_completed_wall_ms : option Z;
  herdr_after_sequence : Z;
  screen_fingerprint : option string;
  screen_stable_count : Z;
}.

#[global] Instance ObservationSchedule_eq_dec : EqDecision ObservationSchedule.
Proof. solve_decision. Defined.

Definition schedule_default : ObservationSchedule :=
  mkSchedule 0 None false 0 None None 0 None 0.

Record TranscriptBinding : Type := mkTranscriptBinding {
  tb_canonical_path : string;
  tb_device : Z;
  tb_inode : Z;
}.

Record ClaudeSessionReference : Type := mkClaudeRef {
  claude_session_id : string;
  transcript_path : string;
  marker_path : string;
  claude_process_start_time : Z;
  claude_process_cwd : string;
  claude_target_session : option string;
  transcript_binding : option TranscriptBinding;
}.

Record CodexBoundFile : Type := mkBoundFile {
  canonical_path : string;
  device : Z;
  inode : Z;
  owner_uid : Z;
}.

Record CodexStructuredStateReference : Type := mkStructuredRef {
  rollout : CodexBoundFile;
  thread_db : CodexBoundFile;
  goals_db : CodexBoundFile;
}.

Record CodexRolloutBinding : Type := mkRolloutBinding {
  rb_device : Z;
  rb_inode : Z;
  rb_size : Z;
  rb_mtime_secs : Z;
}.

Record CodexSessionReference : Type := mkCodexRef {
  thread_id : string;
  rollout_path : string;
  codex_process_start_time : Z;
  codex_process_cwd : string;
  codex_target_session : option string;
  rollout_binding : option CodexRolloutBinding;
  app_server_state_path : option string;
  structured_state : option CodexStructuredStateReference;
}.

#[global] Instance TranscriptBinding_eq_dec : EqDecision TranscriptBinding.
Proof. solve_decision. Defined.
#[global] Instance ClaudeSessionReference_eq_dec : EqDecision ClaudeSessionReference.
Proof. solve_decision. Defined.
#[global] Instance CodexBoundFile_eq_dec : EqDecision CodexBoundFile.
Proof. solve_decision. Defined.
#[global] Instance CodexStructuredStateReference_eq_dec : EqDecision CodexStructuredStateReference.
Proof. solve_decision. Defined.
#[global] Instance CodexRolloutBinding_eq_dec : EqDecision CodexRolloutBinding.
Proof. solve_decision. Defined.
#[global] Instance CodexSessionReference_eq_dec : EqDecision CodexSessionReference.
Proof. solve_decision. Defined.

Module Lifecycle.
Inductive WatcherLifecycle : Type :=
| Registered
| Observing
| Paused
| Recovering (evidence_fingerprint : string)
| Waiting (until_unix_ms : Z) (reason : string)
| HumanRequired (reason : string)
| TargetTerminated
| Stopped (reason : string).

#[global] Instance WatcherLifecycle_eq_dec : EqDecision WatcherLifecycle.
Proof. solve_decision. Defined.
End Lifecycle.
Abbreviation WatcherLifecycle := Lifecycle.WatcherLifecycle.

Record WatcherState : Type := mkWatcher {
  ws_schema_version : Z;
  ws_id : string;
  target : TargetIdentity;
  lifecycle : WatcherLifecycle;
  revision : Z;
  updated_at_unix_ms : Z;
  recovery : option RecoveryMachine;
  observation_schedule : ObservationSchedule;
  last_observation : option Event;
  claude_session : option ClaudeSessionReference;
  codex_session : option CodexSessionReference;
}.

Definition watcher_new (id : string) (t : TargetIdentity) (l : WatcherLifecycle)
    (rev updated : Z) : WatcherState :=
  mkWatcher WATCHER_STATE_SCHEMA_VERSION id t l rev updated None schedule_default
    None None None.

(** ** Field updates *)
Definition set_target (w : WatcherState) (t : TargetIdentity) : WatcherState :=
  mkWatcher (ws_schema_version w) (ws_id w) t (lifecycle w) (revision w)
    (updated_at_unix_ms w) (recovery w) (observation_schedule w) (last_observation w)
    (claude_session w) (codex_session w).
Definition set_lifecycle (w : WatcherState) (l : WatcherLifecycle) : WatcherState :=
  mkWatcher (ws_schema_version w) (ws_id w) (target w) l (revision w)
    (updated_at_unix_ms w) (recovery w) (observation_schedule w) (last_observation w)
    (claude_session w) (codex_session w).
Definition set_revision (w : WatcherState) (r : Z) : WatcherState :=
  mkWatcher (ws_schema_version w) (ws_id w) (target w) (lifecycle w) r
    (updated_at_unix_ms w) (recovery w) (observation_schedule w) (last_observation w)
    (claude_session w) (codex_session w).
Definition set_updated (w : WatcherState) (t : Z) : WatcherState :=
  mkWatcher (ws_schema_version w) (ws_id w) (target w) (lifecycle w) (revision w)
    t (recovery w) (observation_schedule w) (last_observation w)
    (claude_session w) (codex_session w).
Definition set_recovery (w : WatcherState) (m : option RecoveryMachine) : WatcherState :=
  mkWatcher (ws_schema_version w) (ws_id w) (target w) (lifecycle w) (revision w)
    (updated_at_unix_ms w) m (observation_schedule w) (last_observation w)
    (claude_session w) (codex_session w).
Definition set_schedule (w : WatcherState) (s : ObservationSchedule) : WatcherState :=
  mkWatcher (ws_schema_version w) (ws_id w) (target w) (lifecycle w) (revision w)
    (updated_at_unix_ms w) (recovery w) s (last_observation w)
    (claude_session w) (codex_session w).
Definition set_observation (w : WatcherState) (e : option Event) : WatcherState :=
  mkWatcher (ws_schema_version w) (ws_id w) (target w) (lifecycle w) (revision w)
    (updated_at_unix_ms w) (recovery w) (observation_schedule w) e
    (claude_session w) (codex_session w).
Definition set_claude (w : WatcherState) (c : option ClaudeSessionReference) : WatcherState :=
  mkWatcher (ws_schema_version w) (ws_id w) (target w) (lifecycle w) (revision w)
    (updated_at_unix_ms w) (recovery w) (observation_schedule w) (last_observation w)
    c (codex_session w).
Definition set_codex (w : WatcherState) (c : option CodexSessionReference) : WatcherState :=
  mkWatcher (ws_schema_version w) (ws_id w) (target w) (lifecycle w) (revision w)
    (updated_at_unix_ms w) (recovery w) (observation_schedule w) (last_observation w)
    (claude_session w) c.

(** Schedule fields the registry writes one at a time. *)
Definition set_wake_pending (s : ObservationSchedule) (b : bool) : ObservationSchedule :=
  mkSchedule (next_due_wall_ms s) (last_check_wall_ms s) b (interval_sequence s)
    (last_wake_fingerprint s) (last_wake_completed_wall_ms s) (herdr_after_sequence s)
    (screen_fingerprint s) (screen_stable_count s).
Definition set_wake_fingerprint (s : ObservationSchedule) (f : option string) : ObservationSchedule :=
  mkSchedule (next_due_wall_ms s) (last_check_wall_ms s) (event_wake_pending s)
    (interval_sequence s) f (last_wake_completed_wall_ms s) (herdr_after_sequence s)
    (screen_fingerprint s) (screen_stable_count s).
Definition set_wake_completed (s : ObservationSchedule) (t : option Z) : ObservationSchedule :=
  mkSchedule (next_due_wall_ms s) (last_check_wall_ms s) (event_wake_pending s)
    (interval_sequence s) (last_wake_fingerprint s) t (herdr_after_sequence s)
    (screen_fingerprint s) (screen_stable_count s).

(** ** Trusted session attachments *)

(** [Path::is_absolute] on Unix. *)
Definition is_absolute (p : string) : bool := starts_with "/" p.

Definition bad_session (o : option string) : bool :=
  match o with Some s => is_empty s || (256 <? len s) | None => false end.

Definition set_claude_session (w : WatcherState) (r : ClaudeSessionReference)
    : result string WatcherState :=
  if is_empty (claude_session_id r) || (256 <? len (claude_session_id r))
     || negb (is_absolute (transcript_path r)) || negb (is_absolute (marker_path r))
     || negb (is_absolute (claude_process_cwd r)) || bad_session (claude_target_session r)
  then Err "invalid trusted Claude session reference"
  else Ok (set_claude w (Some r)).

Definition set_codex_session (w : WatcherState) (r : CodexSessionReference)
    : result string WatcherState :=
  if is_empty (thread_id r) || (256 <? len (thread_id r))
     || negb (is_absolute (rollout_path r)) || negb (is_absolute (codex_process_cwd r))
     || bad_session (codex_target_session r)
     || match app_server_state_path r with Some p => negb (is_absolute p) | None => false end
  then Err "invalid trusted Codex session reference"
  else Ok (set_codex w (Some r)).

(** [Deserialize for WatcherState] on the decoded wire record. *)
Definition watcher_from_wire (w : WatcherState) : result string WatcherState :=
  if negb (ws_schema_version w =? WATCHER_STATE_SCHEMA_VERSION)
  then Err "unsupported watcher state schema version"
  else
    let s := watcher_new (ws_id w) (target w) (lifecycle w) (revision w) (updated_at_unix_ms w) in
    let s := set_recovery s (recovery w) in
    let s := set_schedule s (observation_schedule w) in
    let s := set_observation s (last_observation w) in
    let s := set_claude s (claude_session w) in
    Ok (set_codex s (codex_session w)).

(** [PartialEq for WatcherState]: [Event] compares its [f64] numerically, all
    other fields structurally. *)
Definition watcher_eqb (a b : WatcherState) : bool :=
  (ws_schema_version a =? ws_schema_version b)
  && String.eqb (ws_id a) (ws_id b)
  && bool_decide (target a = target b)
  && bool_decide (lifecycle a = lifecycle b)
  && (revision a =? revision b)
  && (updated_at_unix_ms a =? updated_at_unix_ms b)
  && bool_decide (recovery a = recovery b)
  && bool_decide (observation_schedule a = observation_schedule b)
  && option_eqb event_eqb (last_observation a) (last_observation b)
  && bool_decide (claude_session a = claude_session b)
  && bool_decide (codex_session a = codex_session b).

Lemma watcher_from_wire_Ok w w' :
  watcher_from_wire w = Ok w' ↔ ws_schema_version w = 1 ∧ w' = w.
Proof.
  unfold watcher_from_wire, WATCHER_STATE_SCHEMA_VERSION.
  destruct (Z.eqb_spec (ws_schema_version w) 1); simpl; [|naive_solver].
  destruct w; simpl in *; subst. naive_solver.
Qed.

Lemma watcher_eqb_revision a b : watcher_eqb a b = true → revision a = revision b.
Proof. unfold watcher_eqb. intros. by inv_watch. Qed.
