(* ===== verification/Policy.v ===== *)
(** * Compiled policy (src/src/policy.rs)

    The last gate before a transaction is claimed: [authorize] re-validates the
    action, demands live evidence and budget, evaluates the declared
    preconditions against the live context and admits input only from a closed
    allowlist. *)
From S2P Require Import Prelude Text Json Action.

Local Open Scope Z_scope.

Record PolicyContext : Type := mkPolicyContext {
  target_revalidated : bool;
  evidence_current : bool;
  human_intervened : bool;
  source_rank : Z;
  contradictory_source_rank : option Z;
  process_alive : bool;
  pane_matches : bool;
  composer_empty : bool;
  failed_provider_family : option string;
  planner_provider_family : option string;
  attempts_remaining : Z;
  cumulative_wait_remaining_seconds : Z;
  planner_calls_remaining : Z;
  planner_concurrency_available : bool;
  cooldown_ready : bool;
  ctx_session_id : option string;
  ctx_evidence_fingerprint : option string;
  menu_stable : bool;
  agent_state : option string;
  goal_state : option string;
  event_category : option string;
  wall_time_rfc3339 : option string;
  claude_resume_session : option string;
}.

(** [PolicyContext::safe()]. *)
Definition safe : PolicyContext :=
  {| target_revalidated := true;
     evidence_current := true;
     human_intervened := false;
     source_rank := u8_max;
     contradictory_source_rank := None;
     process_alive := true;
     pane_matches := true;
     composer_empty := true;
     failed_provider_family := None;
     planner_provider_family := None;
     attempts_remaining := 1;
     cumulative_wait_remaining_seconds := 86400;
     planner_calls_remaining := 1;
     planner_concurrency_available := true;
     cooldown_ready := true;
     ctx_session_id := None;
     ctx_evidence_fingerprint := None;
     menu_stable := true;
     agent_state := None;
     goal_state := None;
     event_category := None;
     wall_time_rfc3339 := None;
     claude_resume_session := None |}.

(** ** Input allowlists *)
Definition denied_words : list string :=
  ["login"; "sign in"; "billing"; "fund"; "credit"; "upgrade"; "approve"; "permission";
   "yolo"; "sudo"; "rm -rf"; "password"; "token"; "secret"].

Definition allowed_texts : list string :=
  ["/goal resume"; "continue"; "retry"; "Continue exactly where you left off."].

Definition safe_text (text : string) : bool :=
  let lower := to_ascii_lowercase text in
  negb (existsb is_control (chars text))
  && negb (existsb (λ word, contains word lower) denied_words)
  && one_of allowed_texts text.

Definition is_safe_send_text (text : string) : bool := safe_text text.

Definition allowed_keys : list string :=
  ["ENTER"; "ESCAPE"; "UP"; "DOWN"; "LEFT"; "RIGHT"; "TAB"; "BACKTAB"; "HOME"; "END";
   "PAGE_UP"; "PAGE_DOWN"].

Section Policy.
Context {rfc : Rfc3339}.

(** [(at - now).num_seconds()] truncates toward zero. *)
Definition wait_until_seconds (t : string) (now : option string) : option Z :=
  at_ ← parse_from_rfc3339 t;
  now_text ← now;
  now_ ← parse_from_rfc3339 now_text;
  let s := Z.quot (at_ - now_) NANOS_PER_SEC in
  if 0 <=? s then Some s else None.

Definition time_reached (required current : option string) : bool :=
  match required, current with
  | Some r, Some c =>
      match parse_from_rfc3339 r, parse_from_rfc3339 c with
      | Some r', Some c' => r' <=? c'
      | _, _ => false
      end
  | _, _ => false
  end.

Definition precondition_holds (c : Condition) (x : PolicyContext) : bool :=
  let text := cond_value c ≫= as_str in
  let k := cond_kind c in
  if String.eqb k "TARGET_IDENTITY_MATCHES" then target_revalidated x && pane_matches x
  else if String.eqb k "PROCESS_ALIVE" then process_alive x
  else if String.eqb k "SESSION_ID_MATCHES" then opt_str_eqb text (ctx_session_id x)
  else if String.eqb k "EVIDENCE_FINGERPRINT_MATCHES"
  then opt_str_eqb text (ctx_evidence_fingerprint x)
  else if String.eqb k "COMPOSER_EMPTY" then composer_empty x
  else if String.eqb k "MENU_STABLE" then menu_stable x
  else if String.eqb k "AGENT_STATE_IS" then opt_str_eqb text (agent_state x)
  else if String.eqb k "GOAL_STATE_IS" then opt_str_eqb text (goal_state x)
  else if String.eqb k "EVENT_CATEGORY_IS" then opt_str_eqb text (event_category x)
  else if String.eqb k "NO_HUMAN_INTERVENTION" then negb (human_intervened x)
  else if String.eqb k "CLAUDE_RESUME_SESSION" then opt_str_eqb text (claude_resume_session x)
  else if String.eqb k "CURRENT_TIME_AT_OR_AFTER" then time_reached text (wall_time_rfc3339 x)
  else false.

(** [matches!(action.kind, Escalate { level } if level != "human_required")]. *)
Definition planner_escalation (k : ActionKind) : bool :=
  match k with Escalate level => negb (String.eqb level "human_required") | _ => false end.

Definition is_none {A} (o : option A) : bool := match o with None => true | Some _ => false end.

Definition kind_allowed (a : Action) (x : PolicyContext) : bool :=
  match kind a with
  | WaitUntil _ => true
  | WaitDuration d => d <=? 86400
  | Capture _ max_lines => max_lines <=? 300
  | CheckStatus _ | Notify _ _ | StopWatching | Noop => true
  | Escalate level =>
      one_of ["human_required"; "alternate_planner"; "independent_second_opinion"] level
  | SendKeys keys => composer_empty x && forallb (one_of allowed_keys) keys
  | SendText text => composer_empty x && safe_text text
  | SubmitText text => composer_empty x && safe_text text
  end.

Definition wait_duration_exceeds (k : ActionKind) (x : PolicyContext) : bool :=
  match k with
  | WaitDuration d => cumulative_wait_remaining_seconds x <? d
  | _ => false
  end.

Definition wait_until_check (k : ActionKind) (x : PolicyContext) : result string unit :=
  match k with
  | WaitUntil t =>
      match wait_until_seconds t (wall_time_rfc3339 x) with
      | None => Err "valid wall time required"
      | Some s =>
          fail_if (cumulative_wait_remaining_seconds x <? s) "cumulative wait budget denied"
      end
  | _ => Ok tt
  end.

Definition second_opinion_denied (k : ActionKind) (x : PolicyContext) : bool :=
  match k with
  | Escalate level =>
      String.eqb level "independent_second_opinion"
      && ((planner_calls_remaining x <? 2) || negb (planner_concurrency_available x)
          || negb (composer_empty x))
  | _ => false
  end.

Definition contradicted (x : PolicyContext) : bool :=
  match contradictory_source_rank x with Some r => source_rank x <? r | None => false end.

Definition authorize (a : Action) (x : PolicyContext) : result string unit :=
  let? _ := validate a in
  let? _ := fail_if (negb (target_revalidated x) || negb (evidence_current x)
                     || human_intervened x || negb (process_alive x) || negb (pane_matches x))
              "revalidation required" in
  let? _ := fail_if (planner_escalation (kind a)
                     && (is_none (failed_provider_family x) || is_none (planner_provider_family x)
                         || opt_str_eqb (failed_provider_family x) (planner_provider_family x)))
              "same-provider planner denied" in
  let? _ := fail_if ((attempts_remaining x =? 0) || negb (cooldown_ready x))
              "attempt or cooldown budget denied" in
  let? _ := fail_if (wait_duration_exceeds (kind a) x) "cumulative wait budget denied" in
  let? _ := wait_until_check (kind a) x in
  let? _ := fail_if (planner_escalation (kind a) && (planner_calls_remaining x =? 0))
              "planner budget denied" in
  let? _ := fail_if (second_opinion_denied (kind a) x)
              "independent second opinion budget denied" in
  let? _ := fail_if (negb (forallb (λ c, precondition_holds c x) (preconditions a)))
              "declared precondition failed" in
  let? _ := fail_if (contradicted x) "higher-ranked contradiction" in
  if kind_allowed a x then Ok tt else Err "action denied by compiled policy".

(** ** What authorisation means

    The policy written declaratively, without the functions of the code: which
    condition kinds exist and what each asks of the live context, and what an
    authorised action satisfies. *)

(** The text of a condition: its value when it is a string. *)
Definition condition_text (v : option Value) : option string :=
  match v with Some (VString s) => Some s | _ => None end.

Inductive condition_met (x : PolicyContext) : Condition → Prop :=
| met_target v : target_revalidated x = true → pane_matches x = true →
    condition_met x (mkCondition "TARGET_IDENTITY_MATCHES" v)
| met_alive v : process_alive x = true → condition_met x (mkCondition "PROCESS_ALIVE" v)
| met_session v : condition_text v = ctx_session_id x →
    condition_met x (mkCondition "SESSION_ID_MATCHES" v)
| met_fingerprint v : condition_text v = ctx_evidence_fingerprint x →
    condition_met x (mkCondition "EVIDENCE_FINGERPRINT_MATCHES" v)
| met_composer v : composer_empty x = true → condition_met x (mkCondition "COMPOSER_EMPTY" v)
| met_menu v : menu_stable x = true → condition_met x (mkCondition "MENU_STABLE" v)
| met_agent v : condition_text v = agent_state x →
    condition_met x (mkCondition "AGENT_STATE_IS" v)
| met_goal v : condition_text v = goal_state x → condition_met x (mkCondition "GOAL_STATE_IS" v)
| met_category v : condition_text v = event_category x →
    condition_met x (mkCondition "EVENT_CATEGORY_IS" v)
| met_untouched v : human_intervened x = false →
    condition_met x (mkCondition "NO_HUMAN_INTERVENTION" v)
| met_resume v : condition_text v = claude_resume_session x →
    condition_met x (mkCondition "CLAUDE_RESUME_SESSION" v)
| met_time required current r c :
    wall_time_rfc3339 x = Some current → parse_from_rfc3339 required = Some r →
    parse_from_rfc3339 current = Some c → r ≤ c →
    condition_met x (mkCondition "CURRENT_TIME_AT_OR_AFTER" (Some (VString required))).

Record authorized (a : Action) (x : PolicyContext) : Prop := {
  auth_valid : schema_valid a;
  auth_live : target_revalidated x = true ∧ evidence_current x = true
    ∧ human_intervened x = false ∧ process_alive x = true ∧ pane_matches x = true;
  auth_budget : attempts_remaining x ≠ 0 ∧ cooldown_ready x = true;
  auth_wait : ∀ d, kind a = WaitDuration d → d ≤ cumulative_wait_remaining_seconds x;
  auth_until : ∀ t, kind a = WaitUntil t → ∃ now at_ now_,
    wall_time_rfc3339 x = Some now ∧ parse_from_rfc3339 t = Some at_
    ∧ parse_from_rfc3339 now = Some now_ ∧ 0 ≤ cumulative_wait_remaining_seconds x
    ∧ -1000000000 < at_ - now_ < (cumulative_wait_remaining_seconds x + 1) * 1000000000;
  auth_planner : ∀ l, kind a = Escalate l → l ≠ "human_required" →
    (∃ f p, failed_provider_family x = Some f ∧ planner_provider_family x = Some p ∧ f ≠ p)
    ∧ planner_calls_remaining x ≠ 0
    ∧ (l = "independent_second_opinion" →
         2 ≤ planner_calls_remaining x ∧ planner_concurrency_available x = true
         ∧ composer_empty x = true);
  auth_pre : ∀ c, c ∈ preconditions a → condition_met x c;
  auth_rank : ∀ r, contradictory_source_rank x = Some r → r ≤ source_rank x;
  auth_text : ∀ t, kind a = SendText t ∨ kind a = SubmitText t →
    composer_empty x = true
    ∧ t ∈ ["/goal resume"; "continue"; "retry"; "Continue exactly where you left off."];
  auth_keys : ∀ ks, kind a = SendKeys ks →
    composer_empty x = true
    ∧ ∀ k, k ∈ ks → k ∈ ["ENTER"; "ESCAPE"; "UP"; "DOWN"; "LEFT"; "RIGHT"; "TAB"; "BACKTAB";
        "HOME"; "END"; "PAGE_UP"; "PAGE_DOWN"];
}.

Lemma condition_text_str v : v ≫= as_str = condition_text v.
Proof. by destruct v as [[]|]. Qed.

Lemma time_reached_iff required current :
  time_reached required current = true ↔
  ∃ r c r' c', required = Some r ∧ current = Some c ∧ parse_from_rfc3339 r = Some r'
    ∧ parse_from_rfc3339 c = Some c' ∧ r' ≤ c'.
Proof.
  unfold time_reached. destruct required as [r|], current as [c|]; try naive_solver.
  destruct (parse_from_rfc3339 r) as [r'|] eqn:Er, (parse_from_rfc3339 c) as [c'|] eqn:Ec;
    try (split; [done|naive_solver congruence]).
  rewrite Z.leb_le. naive_solver.
Qed.

Lemma precondition_holds_iff c x : precondition_holds c x = true ↔ condition_met x c.
Proof.
  destruct c as [k v]. unfold precondition_holds. cbn [cond_kind cond_value].
  rewrite condition_text_str.
  destruct (String.eqb_spec k "TARGET_IDENTITY_MATCHES") as [->|?].
  { rewrite andb_true_iff. split; [intros []; by constructor|by inversion 1]. }
  destruct (String.eqb_spec k "PROCESS_ALIVE") as [->|?]; [split; [by constructor|by inversion 1]|].
  destruct (String.eqb_spec k "SESSION_ID_MATCHES") as [->|?];
    [rewrite opt_str_eqb_iff; split; [by constructor|by inversion 1]|].
  destruct (String.eqb_spec k "EVIDENCE_FINGERPRINT_MATCHES") as [->|?];
    [rewrite opt_str_eqb_iff; split; [by constructor|by inversion 1]|].
  destruct (String.eqb_spec k "COMPOSER_EMPTY") as [->|?]; [split; [by constructor|by inversion 1]|].
  destruct (String.eqb_spec k "MENU_STABLE") as [->|?]; [split; [by constructor|by inversion 1]|].
  destruct (String.eqb_spec k "AGENT_STATE_IS") as [->|?];
    [rewrite opt_str_eqb_iff; split; [by constructor|by inversion 1]|].
  destruct (String.eqb_spec k "GOAL_STATE_IS") as [->|?];
    [rewrite opt_str_eqb_iff; split; [by constructor|by inversion 1]|].
  destruct (String.eqb_spec k "EVENT_CATEGORY_IS") as [->|?];
    [rewrite opt_str_eqb_iff; split; [by constructor|by inversion 1]|].
  destruct (String.eqb_spec k "NO_HUMAN_INTERVENTION") as [->|?];
    [rewrite negb_true_iff; split; [by constructor|by inversion 1]|].
  destruct (String.eqb_spec k "CLAUDE_RESUME_SESSION") as [->|?];
    [rewrite opt_str_eqb_iff; split; [by constructor|by inversion 1]|].
  destruct (String.eqb_spec k "CURRENT_TIME_AT_OR_AFTER") as [->|?]; [|split; [done|by inversion 1]].
  rewrite time_reached_iff. split.
  - intros (r & c & r' & c' & Ht & ? & ? & ? & ?).
    destruct v as [[]|]; simplify_eq/=. by econstructor.
  - inversion 1; subst. simpl. eauto 10.
Qed.

Lemma wait_until_seconds_iff t now s :
  wait_until_seconds t now = Some s ↔
  ∃ n at_ now_, now = Some n ∧ parse_from_rfc3339 t = Some at_ ∧ parse_from_rfc3339 n = Some now_
    ∧ -1000000000 < at_ - now_ ∧ s = Z.quot (at_ - now_) 1000000000.
Proof.
  unfold wait_until_seconds. rewrite bind_Some. setoid_rewrite bind_Some. setoid_rewrite bind_Some.
  change NANOS_PER_SEC with 1000000000. cbn zeta. split.
  - intros (at_ & Ha & n & -> & now_ & Hn & Hs). exists n, at_, now_. case_bool_in Hs; simplify_eq.
    split_and!; try done. apply Z.leb_le in Heqb. destruct (Z.le_gt_cases (at_ - now_) (-1000000000)); [|lia].
    assert (Z.quot (at_ - now_) 1000000000 < 0); [|lia].
    assert (1 ≤ Z.quot (- (at_ - now_)) 1000000000) by (apply Z.quot_le_lower_bound; lia).
    rewrite Z.quot_opp_l in *; lia.
  - intros (n & at_ & now_ & -> & Ha & Hn & Hlt & ->). exists at_. split; [done|].
    exists n. split; [done|]. exists now_. split; [done|].
    assert (0 ≤ Z.quot (at_ - now_) 1000000000) as Hq.
    { destruct (Z.le_gt_cases 0 (at_ - now_)); [by apply Z.quot_pos|].
      rewrite <- (Z.opp_involutive (at_ - now_)), Z.quot_opp_l by lia.
      rewrite Z.quot_small; lia. }
    by rewrite (proj2 (Z.leb_le _ _) Hq).
Qed.

(** Waiting [s] whole seconds fits the budget exactly when the instants do. *)
Lemma wait_seconds_fit d budget :
  -1000000000 < d →
  Z.quot d 1000000000 ≤ budget ↔ 0 ≤ budget ∧ d < (budget + 1) * 1000000000.
Proof.
  intros Hd. destruct (Z.le_gt_cases 0 d).
  - rewrite Z.quot_div_nonneg by lia. pose proof (Z.div_pos d 1000000000).
    split; [intros; split; [lia|]|intros [? Hlt]].
    + pose proof (Z.mul_div_le d 1000000000). pose proof (Z.mod_pos_bound d 1000000000).
      pose proof (Z.div_mod d 1000000000). nia.
    + assert (d / 1000000000 < budget + 1); [|lia]. apply Z.div_lt_upper_bound; lia.
  - rewrite <- (Z.opp_involutive d), Z.quot_opp_l, Z.quot_small by lia. lia.
Qed.

Lemma safe_text_iff t : safe_text t = true ↔ t ∈ allowed_texts.
Proof.
  unfold safe_text. rewrite !andb_true_iff, one_of_spec. split; [tauto|].
  intros Hin. split; [|done]. unfold allowed_texts in Hin.
  repeat (apply elem_of_cons in Hin as [->|Hin]; [by vm_compute|]). by apply elem_of_nil in Hin.
Qed.

Lemma wait_until_check_Ok k x :
  wait_until_check k x = Ok tt ↔
    ∀ t, k = WaitUntil t → ∃ now at_ now_,
      wall_time_rfc3339 x = Some now ∧ parse_from_rfc3339 t = Some at_
      ∧ parse_from_rfc3339 now = Some now_ ∧ 0 ≤ cumulative_wait_remaining_seconds x
      ∧ -1000000000 < at_ - now_ < (cumulative_wait_remaining_seconds x + 1) * 1000000000.
Proof.
  destruct k; simpl; try naive_solver.
  destruct (wait_until_seconds at_ _) as [s|] eqn:E.
  - apply wait_until_seconds_iff in E as (n & a' & n' & Hn & Ha & Hn' & Hd & ->).
    rewrite fail_if_Ok, Z.ltb_ge, wait_seconds_fit by done. split.
    + intros [? ?] t [= <-]. exists n, a', n'. by split_and!.
    + intros Hx. destruct (Hx _ eq_refl) as (n2 & a2 & m2 & ? & ? & ? & ? & ? & ?). by simplify_eq.
  - split; [done|]. intros Hx. destruct (Hx _ eq_refl) as (n & a' & n' & Hn & Ha & Hn' & _ & Hd & _).
    assert (wait_until_seconds at_ (wall_time_rfc3339 x) = Some (Z.quot (a' - n') 1000000000));
      [|congruence]. apply wait_until_seconds_iff. by exists n, a', n'.
Qed.

Lemma planner_escalation_spec k :
  planner_escalation k = true ↔ ∃ l, k = Escalate l ∧ l ≠ "human_required".
Proof. destruct k; simpl; rewrite ?negb_true_iff, ?String.eqb_neq; naive_solver. Qed.

Lemma planner_guard_false k x :
  planner_escalation k
    && (is_none (failed_provider_family x) || is_none (planner_provider_family x)
        || opt_str_eqb (failed_provider_family x) (planner_provider_family x)) = false ↔
  ∀ l, k = Escalate l → l ≠ "human_required" →
    ∃ f p, failed_provider_family x = Some f ∧ planner_provider_family x = Some p ∧ f ≠ p.
Proof.
  unfold opt_str_eqb. destruct (planner_escalation k) eqn:Hp; simpl.
  - apply planner_escalation_spec in Hp as (l & -> & Hl).
    destruct (failed_provider_family x) as [f|], (planner_provider_family x) as [p|]; simpl;
      try (split; [done|]; intros Hx; by destruct (Hx _ eq_refl Hl) as (? & ? & ? & ? & _)).
    rewrite bool_decide_eq_false. split; [naive_solver|].
    intros Hx. destruct (Hx _ eq_refl Hl) as (? & ? & ? & ? & ?). congruence.
  - split; [|done]. intros _ l -> Hl. exfalso. apply not_true_iff_false in Hp.
    apply Hp, planner_escalation_spec. eauto.
Qed.

Lemma planner_calls_false k x :
  planner_escalation k && (planner_calls_remaining x =? 0) = false ↔
  ∀ l, k = Escalate l → l ≠ "human_required" → planner_calls_remaining x ≠ 0.
Proof.
  rewrite andb_false_iff, <- !not_true_iff_false, planner_escalation_spec, Z.eqb_eq.
  split; [naive_solver|]. intros Hx.
  destruct (Z.eq_dec (planner_calls_remaining x) 0); [left|by right].
  intros (l & ? & ?). by eapply Hx.
Qed.

Lemma second_opinion_false k x :
  second_opinion_denied k x = false ↔
  (k = Escalate "independent_second_opinion" →
     2 ≤ planner_calls_remaining x ∧ planner_concurrency_available x = true
     ∧ composer_empty x = true).
Proof.
  destruct k; simpl; try (split; congruence).
  destruct (String.eqb_spec level "independent_second_opinion") as [->|]; simpl.
  - rewrite !orb_false_iff, !negb_false_iff, Z.ltb_ge. naive_solver.
  - split; congruence.
Qed.

(** A valid action's kind passes the last table exactly when input is allowed. *)
Lemma kind_allowed_iff a x :
  valid_action a →
  kind_allowed a x = true ↔
    (∀ t, kind a = SendText t ∨ kind a = SubmitText t →
       composer_empty x = true ∧ t ∈ allowed_texts)
    ∧ (∀ ks, kind a = SendKeys ks →
       composer_empty x = true ∧ ∀ k, k ∈ ks → k ∈ allowed_keys).
Proof.
  intros Hv. pose proof (va_kind _ Hv) as Hk. unfold variant_fields_valid in Hk.
  unfold kind_allowed.
  assert (∀ b, (∀ t, kind a ≠ SendText t) → (∀ t, kind a ≠ SubmitText t) →
    (∀ ks, kind a ≠ SendKeys ks) → b = true →
    b = true ↔ (∀ t, kind a = SendText t ∨ kind a = SubmitText t →
       composer_empty x = true ∧ t ∈ allowed_texts)
    ∧ (∀ ks, kind a = SendKeys ks →
       composer_empty x = true ∧ ∀ k, k ∈ ks → k ∈ allowed_keys)) as no_input.
  { intros b H1 H2 H3 ->. split; [|done]. intros _.
    split; [intros t [E|E]|intros ks E];
      [by destruct (H1 _ E)|by destruct (H2 _ E)|by destruct (H3 _ E)]. }
  destruct (kind a) eqn:Ek; inv_watch; try (by apply no_input).
  - apply no_input; try done. by apply Z.leb_le.
  - apply no_input; try done. by apply Z.leb_le.
  - rewrite andb_true_iff, safe_text_iff. naive_solver.
  - rewrite andb_true_iff, safe_text_iff. naive_solver.
  - rewrite andb_true_iff, forallb_elem. setoid_rewrite one_of_spec. naive_solver.
  - apply no_input; try done.
    apply (proj2 (one_of_spec ["human_required"; "alternate_planner";
      "independent_second_opinion"] level)). set_solver.
Qed.

Lemma live_guard_false x :
  negb (target_revalidated x) || negb (evidence_current x) || human_intervened x
    || negb (process_alive x) || negb (pane_matches x) = false ↔
  target_revalidated x = true ∧ evidence_current x = true ∧ human_intervened x = false
    ∧ process_alive x = true ∧ pane_matches x = true.
Proof. rewrite !orb_false_iff, !negb_false_iff. tauto. Qed.

Lemma contradicted_false x :
  contradicted x = false ↔ ∀ r, contradictory_source_rank x = Some r → r ≤ source_rank x.
Proof.
  unfold contradicted. destruct (contradictory_source_rank x); [rewrite Z.ltb_ge|]; naive_solver.
Qed.

Lemma wait_exceeds_false k x :
  wait_duration_exceeds k x = false ↔
  ∀ d, k = WaitDuration d → d ≤ cumulative_wait_remaining_seconds x.
Proof. destruct k; simpl; rewrite ?Z.ltb_ge; naive_solver. Qed.

Lemma authorized_Ok a x : authorized a x → authorize a x = Ok tt.
Proof.
  intros []. apply schema_valid_iff in auth_valid0.
  unfold authorize. rewrite valid_action_Ok by done. cbn [rbind].
  rewrite (proj2 (live_guard_false x)) by done. cbn [fail_if rbind].
  rewrite (proj2 (planner_guard_false (kind a) x))
    by (intros l E1 E2; by destruct (auth_planner0 l E1 E2)). cbn [fail_if rbind].
  destruct auth_budget0 as [Hatt%Z.eqb_neq ->]. rewrite Hatt. cbn [orb negb fail_if rbind].
  rewrite (proj2 (wait_exceeds_false _ _)) by done. cbn [fail_if rbind].
  rewrite (proj2 (wait_until_check_Ok _ _)) by done. cbn [rbind].
  rewrite (proj2 (planner_calls_false _ _))
    by (intros l E1 E2; by destruct (auth_planner0 l E1 E2) as (_ & ? & _)).
  cbn [fail_if rbind].
  rewrite (proj2 (second_opinion_false _ _))
    by (intros E; by apply (auth_planner0 _ E)). cbn [fail_if rbind].
  rewrite (proj2 (forallb_elem _ _)) by (intros c Hc; by apply precondition_holds_iff, auth_pre0).
  cbn [negb fail_if rbind].
  rewrite (proj2 (contradicted_false _)) by done. cbn [fail_if rbind].
  by rewrite (proj2 (kind_allowed_iff _ x auth_valid0)).
Qed.

Lemma authorize_sound a x : authorize a x = Ok tt → authorized a x.
Proof.
  unfold authorize. intros Ha.
  apply rbind_Ok in Ha as ([] & Hv%validate_Ok & Ha).
  repeat (apply rbind_Ok in Ha as ([] & ?%fail_if_Ok & Ha)).
  apply rbind_Ok in Ha as ([] & Hu & Ha). pose proof (proj1 (wait_until_check_Ok _ _) Hu) as Hu'.
  repeat (apply rbind_Ok in Ha as ([] & ?%fail_if_Ok & Ha)).
  destruct (kind_allowed a x) eqn:Hk; [|done].
  apply (kind_allowed_iff _ _ Hv) in Hk as [Htext Hkeys].
  repeat match goal with
  | E : _ = false |- _ => first
      [ apply live_guard_false in E
      | pose proof (proj1 (planner_guard_false _ _) E); clear E
      | pose proof (proj1 (planner_calls_false _ _) E); clear E
      | pose proof (proj1 (second_opinion_false _ _) E); clear E
      | pose proof (proj1 (contradicted_false _) E); clear E
      | pose proof (proj1 (wait_exceeds_false _ _) E); clear E
      | pose proof (proj1 (forallb_elem _ _) (proj1 (negb_false_iff _) E)); clear E ]
  end.
  inv_watch. split; try done; [by apply schema_valid_iff| |
    by intros c Hc; apply precondition_holds_iff; auto].
  intros l E1 E2. split; [by eauto|]. split; [by eauto|]. intros ->. by eauto.
Qed.
End Policy.

(** ** Properties *)

(** C13: [CompiledPolicy::authorize] accepts an action exactly when it meets the
    declarative policy, which is written without the code's own helpers: the action
    meets the schema, the target is revalidated, alive and untouched by a human, the
    attempt, cooldown, wait and planner budgets allow it, every declared precondition
    is one of the twelve kinds and is met by the live context, no higher-ranked source
    contradicts, a planner of a different provider family is named for planner
    escalations, and input is limited to four literals or twelve navigation keys with
    an empty composer. *)
Theorem authorize_iff {rfc : Rfc3339} a x : authorize a x = Ok tt ↔ authorized a x.
Proof. split; [apply authorize_sound|apply authorized_Ok]. Qed.

(** The send-text allowlist is exactly four literals; the control-character
    and deny-word screens never reject one of them and never admit anything
    else. *)
Theorem safe_send_text_closed t :
  is_safe_send_text t = true ↔
    t = "/goal resume" ∨ t = "continue" ∨ t = "retry"
    ∨ t = "Continue exactly where you left off.".
Proof.
  unfold is_safe_send_text. rewrite safe_text_iff. unfold allowed_texts.
  rewrite !elem_of_cons, elem_of_nil. tauto.
Qed.
