(* ===== verification/Actuator.v ===== *)
(** * Action execution (src/src/recovery/actuator.rs)

    The two executors of an authorised action: [RuntimeActuator] for
    scheduling, capture, status, notification and escalation, and
    [MuxActuator] for input into a multiplexer pane. *)
From S2P Require Import Prelude Text Json Action Event.
From stdpp Require Import pretty.

Local Open Scope Z_scope.

Definition MAX_CAPTURE_LINES : Z := 300.
Definition MAX_CAPTURE_BYTES : Z := 64 * 1024.

Inductive ExecutionOutput : Type :=
| Committed
| Scheduled (d : Z)
| Captured (text : string)
| Status (v : Value)
| Notified
| Escalated.

Inductive ExecutionError : Type :=
| Unsafe (m : string)
| Integration (m : string)
| PossibleSideEffect (m : string).

(** [Display for ExecutionError]. *)
Definition execution_error_display (e : ExecutionError) : string :=
  match e with
  | Unsafe m => "unsafe action: " +:+ m
  | Integration m => "multiplexer operation failed: " +:+ m
  | PossibleSideEffect m => "operation may have committed a side effect: " +:+ m
  end.

(** [mux::SymbolicKey]. *)
Inductive SymbolicKey : Type := KEnter | KEscape | KUp | KDown | KLeft | KRight | KTab | KBackspace.

Definition symbolic_key (key : string) : option SymbolicKey :=
  if String.eqb key "ENTER" then Some KEnter
  else if String.eqb key "ESCAPE" then Some KEscape
  else if String.eqb key "UP" then Some KUp
  else if String.eqb key "DOWN" then Some KDown
  else if String.eqb key "LEFT" then Some KLeft
  else if String.eqb key "RIGHT" then Some KRight
  else if String.eqb key "TAB" then Some KTab
  else None.

Definition forbidden_literal_character (c : Z) : bool :=
  ((0 <=? c) && (c <=? 31)) || ((127 <=? c) && (c <=? 159)).

Definition is_some {A} (o : option A) : bool := match o with Some _ => true | None => false end.

(** ** Multiplexer input

    A [Multiplexer] bound to an identity and a composer guard; its operations
    act on the pane state [P] of the world outside. *)
Record Mux (P : Type) : Type := mkMux {
  validate_identity : P → P * result string unit;
  send_literal : string → P → P * result string unit;
  submit_literal : string → P → P * result string unit;
  send_key : SymbolicKey → P → P * result string unit;
  capture_tail : Z → Z → P → P * result string string;
}.
Arguments validate_identity {P}. Arguments send_literal {P}. Arguments submit_literal {P}.
Arguments send_key {P}. Arguments capture_tail {P}.

Section Actuator.
Context {rfc : Rfc3339}.

Definition validate_action (a : Action) : result ExecutionError unit :=
  let? _ := map_err Unsafe (validate a) in
  match kind a with
  | SendText text | SubmitText text =>
      if existsb forbidden_literal_character (chars text)
      then Err (Unsafe "literal text contains C0/C1 control") else Ok tt
  | SendKeys keys =>
      if negb (forallb (λ k, is_some (symbolic_key k)) keys)
      then Err (Unsafe "symbolic key is not allowlisted") else Ok tt
  | Capture _ max_lines =>
      if MAX_CAPTURE_LINES <? max_lines then Err (Unsafe "capture exceeds bound") else Ok tt
  | _ => Ok tt
  end.

(** ** Runtime services

    The daemon services an action may call; each call is recorded so that the
    effects of one execution can be stated. *)
Inductive ServiceCall : Type :=
| SvcSchedule (deadline : string)
| SvcCapture (source : string) (lines : Z)
| SvcCheck (kind : string) (value : option string)
| SvcNotify (severity message : string)
| SvcEscalate (level : string)
| SvcStopWatching.

Record RuntimeServices : Type := mkServices {
  schedule : string → result string unit;
  capture : string → Z → result string string;
  check : string → option string → result string bool;
  notify : string → string → result string unit;
  escalate : string → result string unit;
  stop_watching : result string unit;
}.

Definition runtime {T} (r : result string T) : result ExecutionError T := map_err Integration r.

Definition runtime_execute (s : RuntimeServices) (a : Action)
    : list ServiceCall * result ExecutionError ExecutionOutput :=
  match validate_action a with
  | Err e => ([], Err e)
  | Ok _ =>
      match kind a with
      | WaitUntil t =>
          ([SvcSchedule t],
           let? _ := runtime (schedule s t) in Ok (Scheduled 0))
      | WaitDuration d =>
          let deadline := "monotonic+" +:+ pretty d +:+ "s" in
          ([SvcSchedule deadline],
           let? _ := runtime (schedule s deadline) in Ok (Scheduled (from_secs d)))
      | Capture source max_lines =>
          ([SvcCapture source max_lines],
           let? t := runtime (capture s source max_lines) in Ok (Captured t))
      | CheckStatus c =>
          ([SvcCheck (check_kind c) (check_value c)],
           let? m := runtime (check s (check_kind c) (check_value c)) in
           Ok (Status (VObject [("kind", VString (check_kind c)); ("matches", VBool m)])))
      | Notify severity message =>
          ([SvcNotify severity message],
           let? _ := runtime (notify s severity message) in Ok Notified)
      | Escalate level =>
          ([SvcEscalate level],
           let? _ := runtime (escalate s level) in Ok Escalated)
      | StopWatching =>
          ([SvcStopWatching], let? _ := runtime (stop_watching s) in Ok Committed)
      | Noop => ([], Ok Committed)
      | SendText _ | SubmitText _ | SendKeys _ =>
          ([], Err (Unsafe "input action requires multiplexer actuator"))
      end
  end.

Definition mux_capture_source_matches (requested : string) (src : EventSource) : bool :=
  one_of ["screen_detection"; "screen_recent"] requested
  && bool_decide (source_kind src = Source.ScreenDetection)
  && String.eqb (source_id src) "tmux".

(** [None] is the panic of [expect("validated")]. *)
Fixpoint send_keys {P} (mux : Mux P) (keys : list string) (p : P)
    : option (P * result ExecutionError ExecutionOutput) :=
  match keys with
  | [] => Some (p, Ok Committed)
  | key :: rest =>
      k ← symbolic_key key;
      match send_key mux k p with
      | (p', Ok _) => send_keys mux rest p'
      | (p', Err e) => Some (p', Err (PossibleSideEffect e))
      end
  end.

Definition mux_execute {P} (mux : Mux P) (src : EventSource) (a : Action) (p : P)
    : option (P * result ExecutionError ExecutionOutput) :=
  match validate_action a with
  | Err e => Some (p, Err e)
  | Ok _ =>
      match validate_identity mux p with
      | (p, Err e) => Some (p, Err (Integration e))
      | (p, Ok _) =>
          match kind a with
          | SendText text =>
              let '(p, r) := send_literal mux text p in
              Some (p, let? _ := map_err PossibleSideEffect r in Ok Committed)
          | SubmitText text =>
              let '(p, r) := submit_literal mux text p in
              Some (p, let? _ := map_err PossibleSideEffect r in Ok Committed)
          | SendKeys keys => send_keys mux keys p
          | Capture source max_lines =>
              if negb (mux_capture_source_matches source src)
              then Some (p, Err (Unsafe "capture source is not the bound mux screen observation"))
              else
                let '(p, r) := capture_tail mux max_lines MAX_CAPTURE_BYTES p in
                Some (p, let? t := map_err Integration r in Ok (Captured t))
          | WaitDuration d => Some (p, Ok (Scheduled (from_secs d)))
          | WaitUntil _ => Some (p, Ok (Scheduled 0))
          | CheckStatus c =>
              Some (p, Ok (Status (VObject
                [("kind", VString (check_kind c));
                 ("value", match check_value c with Some v => VString v | None => VNull end)])))
          | Notify _ _ => Some (p, Ok Notified)
          | Escalate _ => Some (p, Ok Escalated)
          | StopWatching | Noop => Some (p, Ok Committed)
          end
      end
  end.

(** ** Facts *)
Lemma validate_action_valid a : validate_action a = Ok tt → valid_action a.
Proof. unfold validate_action. intros ([] & Hv%map_err_Ok & _)%rbind_Ok. by apply validate_Ok. Qed.

Lemma validate_action_keys a ks :
  validate_action a = Ok tt → kind a = SendKeys ks →
  ∀ k, k ∈ ks → is_Some (symbolic_key k).
Proof.
  unfold validate_action. intros ([] & _ & Ha)%rbind_Ok Ek. rewrite Ek in Ha.
  case_bool_in Ha; [done|]. intros k Hk. inv_watch.
  specialize (Heqb k Hk). by destruct (symbolic_key k).
Qed.

Lemma validate_action_text a t :
  validate_action a = Ok tt → kind a = SendText t ∨ kind a = SubmitText t →
  ∀ c, c ∈ chars t → is_control c = false.
Proof.
  unfold validate_action. intros ([] & _ & Ha)%rbind_Ok Ek c Hc.
  assert (existsb forbidden_literal_character (chars t) = false) as Hf.
  { destruct Ek as [Ek|Ek]; rewrite Ek in Ha; by case_bool_in Ha. }
  by apply (existsb_false_elem _ _) with (x := c) in Hf.
Qed.

Lemma send_keys_total {P} (mux : Mux P) keys p :
  (∀ k, k ∈ keys → is_Some (symbolic_key k)) →
  is_Some (send_keys mux keys p).
Proof.
  revert p. induction keys as [|key keys IH]; intros p Hk; simpl; [by eexists|].
  destruct (Hk key) as [k ->]; [by left|]. simpl.
  destruct (send_key mux k p) as [p' [?|?]]; [|by eexists].
  apply IH. intros k' Hk'. apply Hk. by right.
Qed.

(** ** Instrumented multiplexer: records the keys handed to the pane. *)
Definition logged {P} (mux : Mux P) : Mux (P * list SymbolicKey) :=
  {| validate_identity := λ s, let '(p, r) := validate_identity mux s.1 in ((p, s.2), r);
     send_literal := λ t s, let '(p, r) := send_literal mux t s.1 in ((p, s.2), r);
     submit_literal := λ t s, let '(p, r) := submit_literal mux t s.1 in ((p, s.2), r);
     send_key := λ k s, let '(p, r) := send_key mux k s.1 in ((p, s.2 ++ [k]), r);
     capture_tail := λ n b s, let '(p, r) := capture_tail mux n b s.1 in ((p, s.2), r) |}.

Lemma send_keys_logged {P} (mux : Mux P) keys s s' r :
  send_keys (logged mux) keys s = Some (s', r) →
  ∃ n, s'.2 = s.2 ++ take n (omap symbolic_key keys)
       ∧ ((r = Ok Committed ∧ omap symbolic_key keys = take n (omap symbolic_key keys))
          ∨ (∃ m, r = Err (PossibleSideEffect m)) ∧ (1 ≤ n)%nat).
Proof.
  revert s. induction keys as [|key keys IH]; intros s; simpl.
  - intros [= <- <-]. exists 0%nat. rewrite app_nil_r. auto.
  - destruct (symbolic_key key) as [k|] eqn:Hk; simpl; [|done].
    destruct (send_key mux k s.1) as [p [?|e]]; simpl.
    + intros (n & Hlog & Hr)%IH. exists (S n). simpl in *. rewrite <- app_assoc in Hlog.
      split; [done|]. destruct Hr as [[-> Heq]|[? ?]]; [left|right]; [|split; [done|lia]].
      split; [done|]. by f_equal.
    + intros [= <- <-]. exists 1%nat. simpl. rewrite take_0. split; [done|]. right. eauto.
Qed.

Lemma symbolic_keys_length ks :
  (∀ k, k ∈ ks → is_Some (symbolic_key k)) → length (omap symbolic_key ks) = length ks.
Proof.
  induction ks as [|k ks IH]; intros Hk; [done|].
  cbn [omap list_omap]. destruct (Hk k) as [k' ->]; [by left|].
  cbn [length]. f_equal. apply IH. intros. apply Hk. by right.
Qed.
End Actuator.

(** ** Properties *)

(** The multiplexer actuator never panics: every key that reaches
    [symbolic_key(key).expect("validated")] has been validated, so execution
    always returns a result. *)
Theorem mux_execute_total {rfc : Rfc3339} {P} (mux : Mux P) src a p :
  is_Some (mux_execute mux src a p).
Proof.
  unfold mux_execute. destruct (validate_action a) as [[]|e] eqn:Hv; [|by eexists].
  destruct (validate_identity mux p) as [p1 [?|?]]; [|by eexists].
  destruct (kind a) eqn:Ek; simpl; try (by eexists).
  - case_bool; [by eexists|]. destruct (capture_tail mux _ _ p1). by eexists.
  - destruct (send_literal mux _ p1). by eexists.
  - destruct (submit_literal mux _ p1). by eexists.
  - apply send_keys_total. by eapply validate_action_keys.
Qed.

(** A [SendKeys] action hands the pane a prefix of its keys, in order; it
    reports success only when the whole list was sent, and once a key has been
    handed over a failure is reported as a possible side effect (so it is never
    mistaken for a clean failure). *)
Theorem mux_send_keys_prefix {rfc : Rfc3339} {P} (mux : Mux P) src a ks p p' log r :
  kind a = SendKeys ks →
  mux_execute (logged mux) src a (p, []) = Some ((p', log), r) →
  log = [] ∧ (∃ e, r = Err e)
  ∨ ∃ n, log = take n (omap symbolic_key ks) ∧ length (omap symbolic_key ks) = length ks
      ∧ ((r = Ok Committed ∧ length log = length ks)
         ∨ (∃ m, r = Err (PossibleSideEffect m)) ∧ (1 ≤ n)%nat).
Proof.
  intros Ek. unfold mux_execute. destruct (validate_action a) as [[]|e] eqn:Hv;
    [|intros [= <- <- <-]; left; eauto].
  simpl. destruct (validate_identity mux p) as [p1 [?|?]];
    [|intros [= <- <- <-]; left; eauto].
  rewrite Ek. intros (n & Hlog & Hr)%send_keys_logged. right. exists n. simpl in *.
  pose proof (symbolic_keys_length _ (validate_action_keys _ _ Hv Ek)) as Hlen.
  split; [done|]. split; [done|]. destruct Hr as [[-> Htake]|?]; [left|by right].
  split; [done|]. rewrite Hlog, <- Htake. exact Hlen.
Qed.

Definition keys_action : Action :=
  set_outcomes (push_preconditions (action_new "menu" (SendKeys ["DOWN"; "ENTER"]) "why" "f" 30) [])
    [mkCondition "MENU_DISMISSED" None].

Definition ok_mux : Mux unit :=
  {| validate_identity := λ p, (p, Ok tt); send_literal := λ _ p, (p, Ok tt);
     submit_literal := λ _ p, (p, Ok tt); send_key := λ _ p, (p, Ok tt);
     capture_tail := λ _ _ p, (p, Ok "") |}.

Lemma mux_send_keys_prefix_witness :
  let rfc : Rfc3339 := λ _, None in
  let src := event_source_new Source.ScreenDetection "tmux" "generic_tail" in
  mux_execute (logged ok_mux) src keys_action (tt, []) = Some ((tt, [KDown; KEnter]), Ok Committed)
  ∧ ([KDown; KEnter] = [] ∧ (∃ e, @Ok ExecutionError _ Committed = Err e)
     ∨ ∃ n, [KDown; KEnter] = take n [KDown; KEnter] ∧ 2%nat = 2%nat
       ∧ ((@Ok ExecutionError _ Committed = Ok Committed ∧ 2%nat = 2%nat)
          ∨ (∃ m, @Ok ExecutionError _ Committed = Err (PossibleSideEffect m)) ∧ (1 ≤ n)%nat)).
Proof.
  intros rfc src.
  assert (mux_execute (logged ok_mux) src keys_action (tt, [])
    = Some ((tt, [KDown; KEnter]), Ok Committed)) as Hr by (vm_compute; reflexivity).
  split; [exact Hr|].
  exact (mux_send_keys_prefix ok_mux src keys_action _ tt tt _ _ eq_refl Hr).
Defined.

(** The runtime actuator makes at most one service call; an invalid action or
    an input action makes none and fails, and a call whose service fails is
    reported as an integration error. *)
Theorem runtime_execute_effects {rfc : Rfc3339} s a :
  let '(calls, r) := runtime_execute s a in
  (length calls ≤ 1)%nat
  ∧ (is_ok (validate_action a) = false → calls = [] ∧ is_ok r = false)
  ∧ (∀ t ks, kind a = SendText t ∨ kind a = SubmitText t ∨ kind a = SendKeys ks →
       calls = [] ∧ is_ok r = false)
  ∧ (∀ c, calls = [c] → is_ok r = false → ∃ m, r = Err (Integration m)).
Proof.
  unfold runtime_execute. destruct (validate_action a) as [[]|e]; simpl;
    [|repeat split; by (lia || intros)].
  assert (∀ T (x : result string T) (f : T → ExecutionOutput),
    is_ok (let? y := runtime x in Ok (f y)) = false →
    ∃ m, (let? y := runtime x in Ok (f y)) = Err (Integration m)) as Herr.
  { intros T [y|e] f; simpl; [done|]. eauto. }
  destruct (kind a); (split; [simpl; lia|]); (split; [done|]);
    (split; [intros t ks [E|[E|E]]; by simplify_eq|]); intros c Ec; simplify_eq;
    first [by apply (Herr _ _ (λ _, _)) | apply Herr].
Qed.

Definition ok_services : RuntimeServices :=
  mkServices (λ _, Ok tt) (λ _ _, Ok "") (λ _ _, Ok true) (λ _ _, Ok tt) (λ _, Ok tt) (Ok tt).

Lemma runtime_execute_effects_witness :
  let rfc : Rfc3339 := λ _, None in
  (runtime_execute ok_services keys_action).1 = [].
Proof.
  intros rfc. pose proof (runtime_execute_effects ok_services keys_action) as Hr.
  destruct (runtime_execute ok_services keys_action) as [calls r].
  exact (proj1 (proj1 (proj2 (proj2 Hr)) "" ["DOWN"; "ENTER"] (or_intror (or_intror eq_refl)))).
Defined.
