(* ===== verification/Store.v ===== *)
(** * What callers of [JsonStore] observe (src/src/store.rs)

    [JsonStore::write] serialises a value, writes it to a temporary file and
    renames that over the state file; [JsonStore::load] returns the decoded value
    or quarantines it.  Callers see the outcomes below. *)
From S2P Require Import Prelude.

(** What [JsonStore::write] did: success, or an error reported before or after
    the rename replaced the file. *)
Inductive WriteOutcome : Type :=
| WriteOk
| WriteErr (renamed : bool) (message : string).

(** What [JsonStore::load] returned. *)
Inductive LoadOutcome (T : Type) : Type :=
| Missing
| Present (value : T)
| Corrupt (quarantine : string).
Arguments Missing {T}.
Arguments Present {T} value.
Arguments Corrupt {T} quarantine.
