(* ===== verification/ActionStore.v ===== *)
(** * The durable action ledger (src/src/recovery/action_store.rs and the record
      types of src/src/recovery/transaction.rs)

    [JsonActionStore] keeps one [Ledger] in memory and on disk.  The mutex makes
    every operation atomic, so an operation is a function of the ledger; the
    outcome of [JsonStore::write] is an argument: it succeeded, or it failed
    before or after the atomic rename took effect.  A panicking thread aborts the
    process ([panic = "abort"]), so the mutex is never observed poisoned. *)
From S2P Require Import Prelude Store.

Local Open Scope Z_scope.

Record OwnerIdentity : Type := mkOwner {
  owner_pid : Z;
  process_start_time : Z;
  nonce : string;
}.

Module Phase.
Inductive ActionPhase : Type :=
| Prepared | Begun | Sent | Verifying | Succeeded | Failed | Uncertain | HumanRequired.

#[global] Instance ActionPhase_eq_dec : EqDecision ActionPhase.
Proof. solve_decision. Defined.
End Phase.
Abbreviation ActionPhase := Phase.ActionPhase.

#[global] Instance OwnerIdentity_eq_dec : EqDecision OwnerIdentity.
Proof. solve_decision. Defined.

Definition is_terminal (p : ActionPhase) : bool :=
  match p with Phase.Succeeded | Phase.Failed | Phase.HumanRequired => true | _ => false end.

Record ActionRecord : Type := mkRecord {
  rec_action_id : string;
  idempotency_key : string;
  rec_target : string;
  rec_identity : string;
  fingerprint : string;
  owner : OwnerIdentity;
  prepared_at_ms : Z;
  lease_deadline_ms : Z;
  phase : ActionPhase;
  rec_reason : string;
  snapshot : string;
  output : option string;
}.

#[global] Instance ActionRecord_eq_dec : EqDecision ActionRecord.
Proof. solve_decision. Defined.

Definition prepared (action_id key tgt : string) (own : OwnerIdentity)
    (now lease_deadline : Z) (identity fp snap : string) : ActionRecord :=
  {| rec_action_id := action_id;
     idempotency_key := key;
     rec_target := tgt;
     rec_identity := identity;
     fingerprint := fp;
     owner := own;
     prepared_at_ms := now;
     lease_deadline_ms := lease_deadline;
     phase := Phase.Prepared;
     rec_reason := "policy, evidence, identity and preconditions confirmed";
     snapshot := snap;
     output := None |}.

(** [ActionRecord::next]. *)
Definition next (r : ActionRecord) (p : ActionPhase) (why : string) : ActionRecord :=
  {| rec_action_id := rec_action_id r; idempotency_key := idempotency_key r;
     rec_target := rec_target r; rec_identity := rec_identity r;
     fingerprint := fingerprint r; owner := owner r; prepared_at_ms := prepared_at_ms r;
     lease_deadline_ms := lease_deadline_ms r; phase := p; rec_reason := why;
     snapshot := snapshot r; output := output r |}.

Definition set_output (r : ActionRecord) (o : option string) : ActionRecord :=
  {| rec_action_id := rec_action_id r; idempotency_key := idempotency_key r;
     rec_target := rec_target r; rec_identity := rec_identity r;
     fingerprint := fingerprint r; owner := owner r; prepared_at_ms := prepared_at_ms r;
     lease_deadline_ms := lease_deadline_ms r; phase := phase r; rec_reason := rec_reason r;
     snapshot := snapshot r; output := o |}.

(** ** Ledger *)
Record Ledger : Type := mkLedger {
  version : Z;
  audits : gmap string (list ActionRecord);
  active : gmap string ActionRecord;
  idempotency : gset string;
}.

Definition ledger_default : Ledger := mkLedger 0 ∅ ∅ ∅.

Record DurableLedger : Type := mkDurable {
  disk : Ledger;
  mem : Ledger;
}.

Definition write_ledger (w : WriteOutcome) (st : DurableLedger) (next : Ledger)
    : DurableLedger * result string unit :=
  match w with
  | WriteOk => (mkDurable next next, Ok tt)
  | WriteErr renamed e => (mkDurable (if renamed then next else disk st) (mem st), Err e)
  end.

Definition audit_of (l : Ledger) (t : string) : list ActionRecord :=
  default [] (audits l !! t).

(** [next.audit.entry(target).or_default().extend(records)]. *)
Definition extend_audit (l : Ledger) (t : string) (rs : list ActionRecord) : Ledger :=
  mkLedger (version l) (<[t := audit_of l t ++ rs]> (audits l)) (active l) (idempotency l).
Definition set_active (l : Ledger) (m : gmap string ActionRecord) : Ledger :=
  mkLedger (version l) (audits l) m (idempotency l).
Definition add_key (l : Ledger) (k : string) : Ledger :=
  mkLedger (version l) (audits l) (active l) ({[k]} ∪ idempotency l).

Definition ledger_load (o : result string (LoadOutcome Ledger)) : result string DurableLedger :=
  let? o := o in
  match o with
  | Missing =>
      let l := mkLedger 1 ∅ ∅ ∅ in Ok (mkDurable l l)
  | Present l =>
      if version l =? 1 then Ok (mkDurable l l) else Err "unsupported action ledger version"
  | Corrupt q => Err ("corrupt action ledger quarantined at " +:+ q)
  end.

Definition active_records (st : DurableLedger) : list ActionRecord :=
  btree_values (active (mem st)).

Definition claim_prepared (w : WriteOutcome) (t : string) (r : ActionRecord)
    (st : DurableLedger) : DurableLedger * result string bool :=
  let l := mem st in
  if bool_decide (is_Some (active l !! t)) || bool_decide (idempotency_key r ∈ idempotency l)
  then (st, Ok false)
  else
    let nxt := add_key l (idempotency_key r) in
    let nxt := set_active nxt (<[t := r]> (active nxt)) in
    let nxt := extend_audit nxt t [r] in
    let '(st, wr) := write_ledger w st nxt in
    (st, let? _ := wr in Ok true).

Definition cas_matches (cur r : ActionRecord) : bool :=
  String.eqb (idempotency_key cur) (idempotency_key r)
  && String.eqb (rec_action_id cur) (rec_action_id r).

Definition append (w : WriteOutcome) (t : string) (r : ActionRecord) (st : DurableLedger)
    : DurableLedger * result string unit :=
  let l := mem st in
  match active l !! t with
  | None => (st, Err "target has no active transaction")
  | Some cur =>
      if negb (cas_matches cur r) then (st, Err "action transaction CAS mismatch")
      else
        let nxt := extend_audit l t [r] in
        let nxt := set_active nxt
          (if is_terminal (phase r) then delete t (active nxt) else <[t := r]> (active nxt)) in
        write_ledger w st nxt
  end.

Definition escalate_uncertain (w : WriteOutcome) (t : string) (r : ActionRecord)
    (why : string) (st : DurableLedger) : DurableLedger * result string ActionRecord :=
  let l := mem st in
  match active l !! t with
  | None => (st, Err "target has no active transaction")
  | Some cur =>
      if negb (cas_matches cur r) then (st, Err "action transaction CAS mismatch")
      else
        let uncertain := next r Phase.Uncertain why in
        let human := next uncertain Phase.HumanRequired
          ("possible side effect requires human review: " +:+ why) in
        let nxt := extend_audit l t [uncertain; human] in
        let nxt := set_active nxt (delete t (active nxt)) in
        let '(st, wr) := write_ledger w st nxt in
        (st, let? _ := wr in Ok human)
  end.

Definition store_active (st : DurableLedger) (t : string) : option ActionRecord :=
  active (mem st) !! t.
Definition store_audit (st : DurableLedger) (t : string) : list ActionRecord :=
  audit_of (mem st) t.

(** ** Invariant *)
Record ledger_inv (l : Ledger) : Prop := {
  li_version : version l = 1;
  li_active : ∀ t r, active l !! t = Some r →
    is_terminal (phase r) = false ∧ last (audit_of l t) = Some r;
  li_keys : ∀ t r, r ∈ audit_of l t → idempotency_key r ∈ idempotency l;
}.

Lemma audit_extend_eq l t rs : audit_of (extend_audit l t rs) t = audit_of l t ++ rs.
Proof. unfold audit_of, extend_audit. simpl. by rewrite lookup_insert_eq. Qed.

Lemma audit_extend_ne l t t' rs :
  t ≠ t' → audit_of (extend_audit l t rs) t' = audit_of l t'.
Proof. intros. unfold audit_of, extend_audit. simpl. by rewrite lookup_insert_ne. Qed.

Lemma audit_set_active l m t : audit_of (set_active l m) t = audit_of l t.
Proof. done. Qed.

Lemma audit_add_key l k t : audit_of (add_key l k) t = audit_of l t.
Proof. done. Qed.

#[export] Hint Rewrite audit_extend_eq audit_set_active audit_add_key : watch.

Lemma empty_ledger_inv : ledger_inv (mkLedger 1 ∅ ∅ ∅).
Proof.
  split; [done|intros t r; simpl; by rewrite lookup_empty|].
  intros t r. unfold audit_of. simpl. rewrite lookup_empty. by intros ?%elem_of_nil.
Qed.

(** The ledger an accepted operation writes. *)
Lemma claim_next_inv l t r :
  ledger_inv l → is_terminal (phase r) = false →
  ledger_inv (extend_audit
    (set_active (add_key l (idempotency_key r))
       (<[t := r]> (active (add_key l (idempotency_key r))))) t [r]).
Proof.
  intros [Hv Ha Hk] Hp. split; [done| |].
  - intros t' r' Hr'. simpl in Hr'. destruct (decide (t = t')) as [<-|Hne].
    + rewrite lookup_insert_eq in Hr'. simplify_eq.
      by rewrite audit_extend_eq, last_snoc.
    + rewrite lookup_insert_ne in Hr' by done. rewrite audit_extend_ne by done. by apply Ha.
  - intros t' r' Hr'. destruct (decide (t = t')) as [<-|Hne].
    + rewrite audit_extend_eq in Hr'. apply elem_of_app in Hr' as [Hr'|Hr'].
      * apply Hk in Hr'. simpl. set_solver.
      * apply list_elem_of_singleton in Hr' as ->. simpl. set_solver.
    + rewrite audit_extend_ne in Hr' by done. apply Hk in Hr'. simpl. set_solver.
Qed.

(** Extending the audit of an active transaction with records of its key. *)
Lemma extend_next_inv l t cur rs m :
  ledger_inv l → active l !! t = Some cur →
  (∀ r, r ∈ rs → idempotency_key r = idempotency_key cur) →
  (∀ t' r', t' ≠ t → m !! t' = Some r' → active l !! t' = Some r') →
  (∀ r', m !! t = Some r' → is_terminal (phase r') = false ∧ last rs = Some r') →
  ledger_inv (set_active (extend_audit l t rs) m).
Proof.
  intros [Hv Ha Hk] Hcur Hrs Hother Hsame. split; [done| |].
  - intros t' r' Hr'. simpl in Hr'. rewrite audit_set_active.
    destruct (decide (t = t')) as [<-|Hne].
    + destruct (Hsame _ Hr') as [? Hl]. split; [done|].
      rewrite audit_extend_eq, last_app. by rewrite Hl.
    + rewrite audit_extend_ne by done. apply Ha. by apply Hother.
  - intros t' r' Hr'. rewrite audit_set_active in Hr'.
    destruct (decide (t = t')) as [<-|Hne].
    + rewrite audit_extend_eq in Hr'. apply elem_of_app in Hr' as [Hr'|Hr'].
      * by apply Hk in Hr'.
      * rewrite (Hrs _ Hr'). simpl. apply (Hk t). destruct (Ha _ _ Hcur) as [_ Hl].
        by apply last_Some_elem_of in Hl.
    + rewrite audit_extend_ne in Hr' by done. by apply Hk in Hr'.
Qed.

(** ** Histories of the store *)
Inductive StoreOp : Type :=
| OpClaim (t : string) (r : ActionRecord)
| OpAppend (t : string) (r : ActionRecord)
| OpEscalate (t : string) (r : ActionRecord) (why : string)
| OpRestart.

(** One operation with its write outcome: the store it leaves and whether it
    reported success ([Ok(true)] for a claim). *)
Definition store_step (op : StoreOp) (w : WriteOutcome) (st : DurableLedger)
    : DurableLedger * bool :=
  match op with
  | OpClaim t r =>
      let '(st, res) := claim_prepared w t r st in
      (st, match res with Ok b => b | Err _ => false end)
  | OpAppend t r => let '(st, res) := append w t r st in (st, is_ok res)
  | OpEscalate t r why => let '(st, res) := escalate_uncertain w t r why st in (st, is_ok res)
  | OpRestart =>
      match ledger_load (Ok (Present (disk st))) with
      | Ok st' => (st', true) | Err _ => (st, false) end
  end.

Definition op_typed (op : StoreOp) : Prop :=
  match op with OpClaim _ r => phase r = Phase.Prepared | _ => True end.

Inductive store_run : DurableLedger → list (StoreOp * bool) → DurableLedger → Prop :=
| srun_nil st : store_run st [] st
| srun_cons st op w ok st1 h st2 :
    op_typed op → store_step op w st = (st1, ok) → store_run st1 h st2 →
    store_run st ((op, ok) :: h) st2.

(** [l'] keeps every key and every audit record of [l]. *)
Definition extends (l l' : Ledger) : Prop :=
  idempotency l ⊆ idempotency l' ∧ ∀ t, audit_of l t `prefix_of` audit_of l' t.

#[global] Instance extends_preorder : PreOrder extends.
Proof.
  split; [intros l; split; [done|]; intros t; reflexivity|].
  intros l1 l2 l3 [? H1] [? H2]. split; [set_solver|]. intros t. etrans; [apply H1|apply H2].
Qed.

Lemma extend_audit_extends l l0 t rs :
  idempotency l0 ⊆ idempotency l → (∀ t', audit_of l t' = audit_of l0 t') →
  extends l0 (extend_audit l t rs).
Proof.
  intros Hk Ha. split; [done|]. intros t'. rewrite <- Ha.
  destruct (decide (t = t')) as [<-|Hne].
  - rewrite audit_extend_eq. by apply prefix_app_r.
  - by rewrite audit_extend_ne.
Qed.

Lemma set_active_extends l l' m : extends l l' → extends l (set_active l' m).
Proof. done. Qed.

Record store_wf (st : DurableLedger) : Prop := {
  sw_mem : ledger_inv (mem st);
  sw_disk : ledger_inv (disk st);
  sw_ext : extends (mem st) (disk st);
}.

Lemma write_ledger_wf w st nxt st' r :
  store_wf st → ledger_inv nxt → extends (mem st) nxt →
  write_ledger w st nxt = (st', r) →
  store_wf st' ∧ extends (mem st) (mem st') ∧ (is_ok r = true → mem st' = nxt)
  ∧ (is_ok r = false → mem st' = mem st).
Proof.
  intros [Hm Hd He] Hn Hx. destruct w as [|[] e]; simpl; intros [= <- <-]; simpl;
    (split; [by split|]); (split; [done|]); done.
Qed.

Lemma cas_matches_key cur r : cas_matches cur r = true → idempotency_key r = idempotency_key cur.
Proof. unfold cas_matches. intros. by inv_watch. Qed.

Lemma claim_wf w t r st st' b :
  store_wf st → phase r = Phase.Prepared → claim_prepared w t r st = (st', b) →
  store_wf st' ∧ extends (mem st) (mem st')
  ∧ (b = Ok true → active (mem st) !! t = None ∧ (idempotency_key r ∉ idempotency (mem st))
       ∧ active (mem st') !! t = Some r ∧ idempotency_key r ∈ idempotency (mem st'))
  ∧ (b ≠ Ok true → mem st' = mem st).
Proof.
  intros Hwf Hp. unfold claim_prepared.
  destruct (_ || _) eqn:Hg; [by intros [= <- <-]|].
  apply orb_false_iff in Hg as [Ha%bool_decide_eq_false Hk%bool_decide_eq_false].
  destruct (write_ledger _ _ _) as [st1 wr] eqn:Hw. intros [= <- <-].
  eapply write_ledger_wf in Hw as (? & ? & Hok & Herr); [|done| |].
  - split; [done|]. split; [done|]. destruct wr as [[]|e]; simpl in *; split; intros; try done.
    + rewrite Hok by done. simpl. rewrite lookup_insert_eq. apply eq_None_not_Some in Ha.
      split_and!; [done..|set_solver].
    + by apply Herr.
  - apply claim_next_inv; [apply Hwf|by rewrite Hp].
  - apply extend_audit_extends; [simpl; set_solver|done].
Qed.

Lemma append_wf w t r st st' b :
  store_wf st → append w t r st = (st', b) →
  store_wf st' ∧ extends (mem st) (mem st')
  ∧ (b = Ok tt → ∃ cur, active (mem st) !! t = Some cur ∧ cas_matches cur r = true
       ∧ store_audit st' t = store_audit st t ++ [r]
       ∧ store_active st' t = if is_terminal (phase r) then None else Some r)
  ∧ (b ≠ Ok tt → mem st' = mem st).
Proof.
  intros Hwf. unfold append. destruct (active (mem st) !! t) as [cur|] eqn:Hc;
    [|by intros [= <- <-]].
  destruct (cas_matches cur r) eqn:Hcas; simpl; [|by intros [= <- <-]].
  intros Hw. eapply write_ledger_wf in Hw as (? & ? & Hok & Herr); [|done| |].
  - split; [done|]. split; [done|]. split.
    + intros ->. exists cur. unfold store_audit, store_active. rewrite Hok by done.
      split; [done|]. split; [done|]. rewrite audit_set_active, audit_extend_eq. simpl.
      split; [done|]. destruct (is_terminal (phase r));
        [apply lookup_delete_eq|apply lookup_insert_eq].
    + destruct b as [[]|e]; [done|]. intros _. by apply Herr.
  - eapply extend_next_inv; [apply Hwf|done| | |].
    + intros r' ->%list_elem_of_singleton. by apply cas_matches_key.
    + intros t' r' Hne. destruct (is_terminal (phase r)); by simplify_map_eq.
    + intros r'. destruct (is_terminal (phase r)) eqn:Ht; intros; by simplify_map_eq.
  - apply set_active_extends, extend_audit_extends; done.
Qed.

Lemma escalate_wf w t r why st st' b :
  store_wf st → escalate_uncertain w t r why st = (st', b) →
  store_wf st' ∧ extends (mem st) (mem st')
  ∧ (∀ h, b = Ok h → phase h = Phase.HumanRequired ∧ store_active st' t = None
       ∧ ∃ u, phase u = Phase.Uncertain ∧ store_audit st' t = store_audit st t ++ [u; h])
  ∧ (is_ok b = false → mem st' = mem st).
Proof.
  intros Hwf. unfold escalate_uncertain. destruct (active (mem st) !! t) as [cur|] eqn:Hc;
    [|by intros [= <- <-]].
  destruct (cas_matches cur r) eqn:Hcas; simpl; [|by intros [= <- <-]].
  destruct (write_ledger _ _ _) as [st1 wr] eqn:Hw. intros [= <- <-].
  eapply write_ledger_wf in Hw as (? & ? & Hok & Herr); [|done| |].
  - split; [done|]. split; [done|]. destruct wr as [[]|e]; simpl in *; split; intros; try done.
    + simplify_eq. unfold store_audit, store_active. rewrite Hok by done.
      rewrite audit_set_active, audit_extend_eq. simpl.
      split; [done|]. split; [apply lookup_delete_eq|].
      eexists. split; [|done]. done.
    + by apply Herr.
  - eapply extend_next_inv; [apply Hwf|done| | |].
    + intros r' Hr'. apply cas_matches_key in Hcas. set_solver.
    + intros t' r' Hne. by simplify_map_eq.
    + intros r'. by simplify_map_eq.
  - apply set_active_extends, extend_audit_extends; done.
Qed.

Lemma restart_wf st :
  store_wf st →
  store_step OpRestart WriteOk st = (mkDurable (disk st) (disk st), true).
Proof. intros [_ [Hv _ _] _]. simpl. by rewrite Hv. Qed.

Lemma store_step_wf op w st st' ok :
  op_typed op → store_wf st → store_step op w st = (st', ok) →
  store_wf st' ∧ extends (mem st) (mem st').
Proof.
  intros Ht Hwf Hs. destruct op; simpl in Hs.
  - destruct (claim_prepared w t r st) as [st1 b] eqn:E. simplify_eq.
    apply claim_wf in E as (? & ? & _); done.
  - destruct (append w t r st) as [st1 b] eqn:E. simplify_eq.
    apply append_wf in E as (? & ? & _); done.
  - destruct (escalate_uncertain w t r why st) as [st1 b] eqn:E. simplify_eq.
    apply escalate_wf in E as (? & ? & _); done.
  - rewrite (li_version _ (sw_disk _ Hwf)) in Hs. simpl in Hs. simplify_eq. simpl.
    split; [|apply Hwf]. split; simpl; [apply Hwf..|done].
Qed.

Lemma store_run_wf st h st' :
  store_run st h st' → store_wf st → store_wf st' ∧ extends (mem st) (mem st').
Proof.
  induction 1 as [st|st op w ok st1 h st2 Ht Hs _ IH]; [done|]. intros Hwf.
  apply store_step_wf in Hs as [Hwf1 He1]; [|done..].
  destruct (IH Hwf1) as [? ?]. split; [done|]. by etrans.
Qed.

Lemma store_run_app st h1 h2 st' :
  store_run st (h1 ++ h2) st' → ∃ st1, store_run st h1 st1 ∧ store_run st1 h2 st'.
Proof.
  revert st. induction h1 as [|x h1 IH]; intros st; simpl.
  - intros. eexists. split; [constructor|done].
  - inversion 1; subst. edestruct IH as (st3 & ? & ?); [done|].
    exists st3. split; [|done]. by econstructor.
Qed.

Lemma store_step_failed op w st st' :
  store_wf st → op_typed op → store_step op w st = (st', false) → mem st' = mem st.
Proof.
  intros Hwf Ht Hs. destruct op; simpl in Hs.
  - destruct (claim_prepared w t r st) as [st1 b] eqn:E. simplify_eq.
    apply claim_wf in E as (_ & _ & _ & Hf); [|done..]. apply Hf. by intros ->.
  - destruct (append w t r st) as [st1 b] eqn:E. simplify_eq.
    apply append_wf in E as (_ & _ & _ & Hf); [|done..]. apply Hf. by intros ->.
  - destruct (escalate_uncertain w t r why st) as [st1 b] eqn:E. simplify_eq.
    apply escalate_wf in E as (_ & _ & _ & Hf); [|done..]. by apply Hf.
  - by rewrite (li_version _ (sw_disk _ Hwf)) in Hs.
Qed.

(** Operations that end the transaction of [t]. *)
Definition releases (t : string) (op : StoreOp) : bool :=
  match op with
  | OpAppend t' r => String.eqb t t' && is_terminal (phase r)
  | OpEscalate t' _ _ => String.eqb t t'
  | OpRestart => true
  | OpClaim _ _ => false
  end.

Lemma active_other w t t' r st st' b :
  t ≠ t' → append w t' r st = (st', b) → is_Some (active (mem st) !! t) →
  is_Some (active (mem st') !! t).
Proof.
  intros Hne. unfold append. destruct (active (mem st) !! t') as [cur|]; [|by intros [= <- <-]].
  destruct (cas_matches cur r); simpl; [|by intros [= <- <-]].
  destruct w as [|[] e]; intros [= <- <-] Ha; simpl in *; try done.
  destruct (is_terminal (phase r)); by simplify_map_eq.
Qed.

Lemma step_keeps_active op w st st' ok t :
  store_wf st → op_typed op → store_step op w st = (st', ok) → releases t op && ok = false →
  is_Some (active (mem st) !! t) → is_Some (active (mem st') !! t).
Proof.
  intros Hwf Ht Hs Hr Ha.
  destruct ok; [|by rewrite (store_step_failed _ _ _ _ Hwf Ht Hs)].
  rewrite andb_true_r in Hr. destruct op as [t' r|t' r|t' r why|]; simpl in *.
  - unfold claim_prepared in Hs. destruct (_ || _) eqn:Hg; [by simplify_eq|].
    destruct w as [|[] e]; simpl in Hs; simplify_eq/=.
    destruct (decide (t' = t)) as [->|]; by simplify_map_eq.
  - destruct (append w t' r st) as [st1 b] eqn:E. simplify_eq.
    destruct (String.eqb_spec t t') as [<-|Hne]; simpl in Hr; [|by eapply active_other].
    apply append_wf in E as (_ & _ & Hok & _); [|done].
    destruct b as [[]|]; [|done]. destruct Hok as (cur & _ & _ & _ & Hact); [done|].
    unfold store_active in Hact. rewrite Hact, Hr. by eexists.
  - destruct (String.eqb_spec t t') as [<-|Hne]; [done|].
    unfold escalate_uncertain in Hs. destruct (active (mem st) !! t') as [cur|]; [|done].
    destruct (cas_matches cur r); simpl in Hs; [|done].
    destruct w as [|[] e]; simplify_eq/=. by simplify_map_eq.
  - done.
Qed.

Lemma run_keeps_active st h st' t :
  store_run st h st' → store_wf st →
  (∀ op ok, (op, ok) ∈ h → releases t op && ok = false) →
  is_Some (active (mem st) !! t) → is_Some (active (mem st') !! t).
Proof.
  induction 1 as [st|st op w ok st1 h st2 Ht Hs _ IH]; [done|]. intros Hwf Hh Ha.
  pose proof (store_step_wf _ _ _ _ _ Ht Hwf Hs) as [Hwf1 _].
  apply IH; [done| |].
  - intros op' ok' Hin. apply Hh. by right.
  - apply (step_keeps_active op w st st1 ok); try done. apply Hh. by left.
Qed.

(** A granted claim, opened. *)
Lemma granted_claim t r w st st' :
  store_wf st → op_typed (OpClaim t r) → store_step (OpClaim t r) w st = (st', true) →
  active (mem st) !! t = None ∧ (idempotency_key r ∉ idempotency (mem st))
  ∧ active (mem st') !! t = Some r ∧ idempotency_key r ∈ idempotency (mem st').
Proof.
  simpl. intros Hwf Ht Hs. destruct (claim_prepared w t r st) as [st1 b] eqn:E. simplify_eq.
  apply claim_wf in E as (_ & _ & Hok & _); [|done..]. apply Hok. by destruct b as [[]|].
Qed.

(** ** Properties *)

(** C16: whatever sequence of claims, appends, escalations and restarts runs
    against the ledger, and however its writes fail, memory and disk stay
    well-formed: an active record is non-terminal and is the last audit entry of
    its target, every audited record's idempotency key is reserved, and the
    in-memory audit only ever grows. *)
Theorem ledger_history_safe st h st' :
  store_wf st → store_run st h st' →
  store_wf st' ∧ ∀ t, store_audit st t `prefix_of` store_audit st' t.
Proof.
  intros Hwf Hr. destruct (store_run_wf _ _ _ Hr Hwf) as [Hwf' [_ Ha]].
  split; [done|]. exact Ha.
Qed.

Definition fresh_store : DurableLedger :=
  mkDurable (mkLedger 1 ∅ ∅ ∅) (mkLedger 1 ∅ ∅ ∅).

Lemma fresh_store_loaded : ledger_load (Ok Missing) = Ok fresh_store.
Proof. done. Qed.

Lemma fresh_store_wf : store_wf fresh_store.
Proof. split; [apply empty_ledger_inv..|reflexivity]. Qed.

Definition sample_record (key : string) : ActionRecord :=
  prepared "act" key "w1" (mkOwner 10 20 "n") 5 30005 "id" "f" "{}".

Definition run_step (s : DurableLedger * list (StoreOp * bool)) (ow : StoreOp * WriteOutcome)
    : DurableLedger * list (StoreOp * bool) :=
  let '(st, ok) := store_step ow.1 ow.2 s.1 in (st, s.2 ++ [(ow.1, ok)]).

Lemma store_run_snoc st h st1 op w st2 ok :
  store_run st h st1 → op_typed op → store_step op w st1 = (st2, ok) →
  store_run st (h ++ [(op, ok)]) st2.
Proof.
  induction 1 as [st|st op' w' ok' st1' h st3 Ht Hs _ IH]; intros Ho Hs2; simpl.
  - econstructor; [done|done|constructor].
  - econstructor; eauto.
Qed.

Lemma store_run_exec ows st h st0 :
  store_run st0 h st → Forall (λ ow, op_typed ow.1) ows →
  let '(st', h') := foldl run_step (st, h) ows in store_run st0 h' st'.
Proof.
  revert st h. induction ows as [|[op w] ows IH]; intros st h Hr Hf; [done|].
  apply Forall_cons in Hf as [Ho Hf]. simpl. unfold run_step at 2. simpl.
  destruct (store_step op w st) as [st1 ok] eqn:E. apply IH; [|done].
  by eapply store_run_snoc.
Qed.

Definition sample_history : list (StoreOp * WriteOutcome) :=
  [(OpClaim "w1" (sample_record "k1"), WriteOk);
   (OpAppend "w1" (next (sample_record "k1") Phase.Begun "b"), WriteErr true "disk full");
   (OpRestart, WriteOk);
   (OpEscalate "w1" (sample_record "k1") "x", WriteOk);
   (OpClaim "w1" (sample_record "k2"), WriteOk)].

Lemma sample_history_typed : Forall (λ ow, op_typed ow.1) sample_history.
Proof. by repeat constructor. Qed.

Lemma ledger_history_safe_witness :
  let '(st', h) := foldl run_step (fresh_store, []) sample_history in
  store_wf st' ∧ ∀ t, store_audit fresh_store t `prefix_of` store_audit st' t.
Proof.
  pose proof (store_run_exec sample_history fresh_store [] fresh_store
    (srun_nil _) sample_history_typed) as Hr.
  destruct (foldl run_step (fresh_store, []) sample_history) as [st' h].
  exact (ledger_history_safe fresh_store h st' fresh_store_wf Hr).
Defined.

(** C12: exactly-once claims: two granted claims in one history, however far
    apart and with any restarts and write failures between them, have different
    idempotency keys. *)
Theorem claim_granted_at_most_once st h1 t r h2 t' r' h3 st' :
  store_wf st →
  store_run st (h1 ++ (OpClaim t r, true) :: h2 ++ (OpClaim t' r', true) :: h3) st' →
  idempotency_key r ≠ idempotency_key r'.
Proof.
  intros Hwf (st1 & Hr1 & Hr2)%store_run_app Heq.
  destruct (store_run_wf _ _ _ Hr1 Hwf) as [Hwf1 _].
  inversion Hr2 as [|? ? w1 ? st2 ? ? Ht1 Hs1 Hr3]; subst.
  pose proof (store_step_wf _ _ _ _ _ Ht1 Hwf1 Hs1) as [Hwf2 _].
  apply granted_claim in Hs1 as (_ & _ & _ & Hin); [|done..].
  apply store_run_app in Hr3 as (st3 & Hr3 & Hr4).
  destruct (store_run_wf _ _ _ Hr3 Hwf2) as [Hwf3 [Hsub _]].
  inversion Hr4 as [|? ? w2 ? st4 ? ? Ht2 Hs2 _]; subst.
  apply granted_claim in Hs2 as (_ & Hn & _); [|done..].
  apply Hn. rewrite <- Heq. by apply Hsub.
Qed.

Lemma claim_granted_at_most_once_witness :
  idempotency_key (sample_record "k1") ≠ idempotency_key (sample_record "k2").
Proof.
  refine (claim_granted_at_most_once fresh_store [] "w1" (sample_record "k1")
    [(OpAppend "w1" (next (sample_record "k1") Phase.Begun "b"), false); (OpRestart, true);
     (OpEscalate "w1" (sample_record "k1") "x", true)] "w1" (sample_record "k2") []
    (foldl run_step (fresh_store, []) sample_history).1 fresh_store_wf _).
  pose proof (store_run_exec sample_history fresh_store [] fresh_store
    (srun_nil _) sample_history_typed) as Hr.
  exact Hr.
Defined.

(** One active transaction per target: between two granted claims on the same
    target a terminal append, an uncertainty escalation or a restart has
    succeeded. *)
Theorem claims_on_target_exclude st h1 t r h2 r' h3 st' :
  store_wf st →
  store_run st (h1 ++ (OpClaim t r, true) :: h2 ++ (OpClaim t r', true) :: h3) st' →
  ∃ op, (op, true) ∈ h2 ∧ releases t op = true.
Proof.
  intros Hwf (st1 & Hr1 & Hr2)%store_run_app.
  destruct (store_run_wf _ _ _ Hr1 Hwf) as [Hwf1 _].
  inversion Hr2 as [|? ? w1 ? st2 ? ? Ht1 Hs1 Hr3]; subst.
  pose proof (store_step_wf _ _ _ _ _ Ht1 Hwf1 Hs1) as [Hwf2 _].
  apply granted_claim in Hs1 as (_ & _ & Hact & _); [|done..].
  apply store_run_app in Hr3 as (st3 & Hr3 & Hr4).
  destruct (store_run_wf _ _ _ Hr3 Hwf2) as [Hwf3 _].
  inversion Hr4 as [|? ? w2 ? st4 ? ? Ht2 Hs2 _]; subst.
  apply granted_claim in Hs2 as (Hnone & _); [|done..].
  destruct (existsb (λ x, releases t x.1 && x.2) h2) eqn:Hex.
  - apply existsb_elem in Hex as ([op ok] & Hin & Hrel). simpl in Hrel.
    apply andb_true_iff in Hrel as [? ->]. eauto.
  - exfalso. rewrite existsb_false_elem in Hex.
    destruct (run_keeps_active _ _ _ t Hr3 Hwf2) as [x Hx]; [|by eexists|congruence].
    intros op ok Hin. by apply (Hex _ Hin).
Qed.

Lemma claims_on_target_exclude_witness :
  ∃ op, (op, true) ∈ [(OpAppend "w1" (next (sample_record "k1") Phase.Begun "b"), false);
                      (OpRestart, true); (OpEscalate "w1" (sample_record "k1") "x", true)]
        ∧ releases "w1" op = true.
Proof.
  refine (claims_on_target_exclude fresh_store [] "w1" (sample_record "k1")
    _ (sample_record "k2") []
    (foldl run_step (fresh_store, []) sample_history).1 fresh_store_wf _).
  exact (store_run_exec sample_history fresh_store [] fresh_store
    (srun_nil _) sample_history_typed).
Defined.
