(* ===== verification/Effects.v ===== *)
(** * Programs with external operations

    Code that talks to traits ([ActionStore], [EvidenceReader], [ActionExecutor],
    [Clock]) is a finite tree of operations: each node names the operation and
    continues with whatever the environment answers.  [traces] lists the
    conversations a program can have with any environment; [interp] runs it
    against a concrete handler; [wp] is the program logic that proves that every
    operation respects a protocol, whatever the environment answers. *)
From S2P Require Import Prelude.

Section Effects.
Context {Op : Type} {Ans : Op → Type}.

Inductive Prog (A : Type) : Type :=
| Ret (a : A)
| Vis (o : Op) (k : Ans o → Prog A).
Arguments Ret {A} a.
Arguments Vis {A} o k.

Fixpoint bind {A B} (p : Prog A) (f : A → Prog B) : Prog B :=
  match p with
  | Ret a => f a
  | Vis o k => Vis o (λ x, bind (k x) f)
  end.

Definition call (o : Op) : Prog (Ans o) := Vis o Ret.

(** ** Conversations *)
Definition Ev : Type := { o : Op & Ans o }.

Fixpoint traces {A} (p : Prog A) (tr : list Ev) (r : A) : Prop :=
  match p with
  | Ret a => tr = [] ∧ r = a
  | Vis o k => ∃ x tr', tr = existT o x :: tr' ∧ traces (k x) tr' r
  end.

Lemma traces_bind {A B} (p : Prog A) (f : A → Prog B) tr r :
  traces (bind p f) tr r ↔
    ∃ tr1 tr2 a, tr = tr1 ++ tr2 ∧ traces p tr1 a ∧ traces (f a) tr2 r.
Proof.
  revert tr. induction p as [a|o k IH]; intros tr; simpl.
  - split; [intros; exists [], tr, a; auto|]. by intros (? & ? & ? & -> & [-> ->] & ?).
  - setoid_rewrite IH. split.
    + intros (x & tr' & -> & tr1 & tr2 & a & -> & H1 & H2).
      exists (existT o x :: tr1), tr2, a. split; [done|]. eauto.
    + intros (tr1 & tr2 & a & -> & (x & tr' & -> & H1) & H2).
      exists x, (tr' ++ tr2). split; [done|]. eauto 8.
Qed.

(** ** Handlers *)
Section Interp.
Context {S : Type} (h : ∀ o, S → S * Ans o).

Fixpoint interp {A} (p : Prog A) (s : S) : S * A :=
  match p with
  | Ret a => (s, a)
  | Vis o k => let '(s', x) := h o s in interp (k x) s'
  end.

Lemma interp_bind {A B} (p : Prog A) (f : A → Prog B) s :
  interp (bind p f) s = let '(s', a) := interp p s in interp (f a) s'.
Proof.
  revert s. induction p as [a|o k IH]; intros s; simpl; [done|].
  destruct (h o s) as [s' x]. apply IH.
Qed.

(** The conversation a run against the handler has. *)
Fixpoint converse {A} (p : Prog A) (s : S) : list Ev * A :=
  match p with
  | Ret a => ([], a)
  | Vis o k =>
      let '(s', x) := h o s in
      let '(tr, r) := converse (k x) s' in (existT o x :: tr, r)
  end.

Lemma converse_traces {A} (p : Prog A) s : traces p (converse p s).1 (converse p s).2.
Proof.
  revert s. induction p as [a|o k IH]; intros s; simpl; [done|].
  destruct (h o s) as [s' x]. specialize (IH x s').
  destruct (converse (k x) s') as [tr r]. simpl in *. eauto.
Qed.

Lemma converse_bind {A B} (p : Prog A) (f : A → Prog B) s :
  (converse (bind p f) s).1 = (converse p s).1 ++ (converse (f (converse p s).2) (interp p s).1).1.
Proof.
  revert s. induction p as [a|o k IH]; intros s; cbn; [done|]. destruct (h o s) as [s' x].
  specialize (IH x s'). destruct (converse (bind (k x) f) s') as [tr r].
  destruct (converse (k x) s') as [tr' r']. cbn in *. by rewrite IH.
Qed.

Lemma converse_result {A} (p : Prog A) s : (converse p s).2 = (interp p s).2.
Proof.
  revert s. induction p as [a|o k IH]; intros s; cbn; [done|]. destruct (h o s) as [s' x].
  specialize (IH x s'). by destruct (converse (k x) s').
Qed.

(** Every run against a handler is a conversation. *)
Lemma interp_traces {A} (p : Prog A) s : ∃ tr, traces p tr (interp p s).2.
Proof.
  revert s. induction p as [a|o k IH]; intros s; simpl; [eauto|].
  destruct (h o s) as [s' x]. destruct (IH x s') as [tr Htr].
  exists (existT o x :: tr). eauto.
Qed.
End Interp.

(** ** Protocols

    A protocol is an automaton over operations: [guard st o] says that [o] may be
    performed in state [st], [advance st o x] is the state after the answer [x]. *)
Section Wp.
Context {St : Type} (guard : St → Op → Prop) (advance : St → ∀ o, Ans o → St).

Fixpoint wp {A} (p : Prog A) (st : St) (Q : A → St → Prop) : Prop :=
  match p with
  | Ret a => Q a st
  | Vis o k => guard st o ∧ ∀ x, wp (k x) (advance st o x) Q
  end.

Fixpoint obeys (st : St) (tr : list Ev) : Prop :=
  match tr with
  | [] => True
  | e :: tr' => guard st (projT1 e) ∧ obeys (advance st (projT1 e) (projT2 e)) tr'
  end.

Definition after (st : St) (tr : list Ev) : St :=
  foldl (λ s e, advance s (projT1 e) (projT2 e)) st tr.

Lemma wp_mono {A} (p : Prog A) st (Q Q' : A → St → Prop) :
  (∀ a s, Q a s → Q' a s) → wp p st Q → wp p st Q'.
Proof.
  intros HQ. revert st. induction p as [a|o k IH]; intros st; simpl; [apply HQ|].
  intros [? Hk]. split; [done|]. intros x. apply IH, Hk.
Qed.

Lemma wp_bind {A B} (p : Prog A) (f : A → Prog B) st Q :
  wp p st (λ a s, wp (f a) s Q) → wp (bind p f) st Q.
Proof.
  revert st. induction p as [a|o k IH]; intros st; simpl; [done|].
  intros [? Hk]. split; [done|]. intros x. apply IH, Hk.
Qed.

Lemma wp_call {B} o (k : Ans o → Prog B) st Q :
  guard st o → (∀ x, wp (k x) (advance st o x) Q) → wp (bind (call o) k) st Q.
Proof. by split. Qed.

(** A proof of [wp] covers every conversation. *)
Lemma wp_sound {A} (p : Prog A) st Q tr r :
  wp p st Q → traces p tr r → obeys st tr ∧ Q r (after st tr).
Proof.
  revert st tr. induction p as [a|o k IH]; intros st tr; simpl.
  - by intros ? [-> ->].
  - intros [Hg Hk] (x & tr' & -> & Htr). simpl.
    destruct (IH x _ _ (Hk x) Htr) as [? ?]. done.
Qed.

Lemma obeys_app st tr1 tr2 :
  obeys st (tr1 ++ tr2) ↔ obeys st tr1 ∧ obeys (after st tr1) tr2.
Proof.
  revert st. induction tr1 as [|e tr1 IH]; intros st; simpl; [tauto|].
  rewrite IH. unfold after. simpl. tauto.
Qed.

Lemma after_app st tr1 tr2 : after st (tr1 ++ tr2) = after (after st tr1) tr2.
Proof. unfold after. by rewrite foldl_app. Qed.
End Wp.
End Effects.

Arguments Prog {Op} Ans A.
Arguments Ret {Op Ans A} a.
Arguments Vis {Op Ans A} o k.
Arguments Ev {Op} Ans.

(** ** Implementing operations by programs

    [translate f p] runs [p] with each of its operations [o] performed by the
    program [f o] over a second set of operations. *)
Section Translate.
Context {Op : Type} {Ans : Op → Type} {Op' : Type} {Ans' : Op' → Type}.
Context (f : ∀ o, Prog Ans' (Ans o)).

Fixpoint translate {A} (p : Prog Ans A) : Prog Ans' A :=
  match p with
  | Ret a => Ret a
  | Vis o k => bind (f o) (λ x, translate (k x))
  end.

(** [refines tr tr']: [tr'] is [tr] with every event replaced by a conversation of
    its implementation. *)
Inductive refines : list (Ev Ans) → list (Ev Ans') → Prop :=
| refines_nil : refines [] []
| refines_cons o x seg tr tr' :
    traces (f o) seg x → refines tr tr' → refines (existT o x :: tr) (seg ++ tr').

(** A conversation of the translated program implements one of the original. *)
Lemma traces_translate {A} (p : Prog Ans A) tr' r :
  traces (translate p) tr' r → ∃ tr, traces p tr r ∧ refines tr tr'.
Proof.
  revert tr'. induction p as [a|o k IH]; intros tr'; simpl.
  - intros [-> ->]. exists []. split; [done|constructor].
  - intros (seg & tr2 & x & -> & Hseg & Htr)%traces_bind.
    destruct (IH x tr2 Htr) as (tr & Ht & Hr).
    exists (existT o x :: tr). split; [eauto|by constructor].
Qed.

(** An event of the implementation belongs to the implementation of some event. *)
Lemma refines_split tr tr' : refines tr tr' → ∀ tr1 e tr2, tr' = tr1 ++ e :: tr2 →
  ∃ ta o x tb sa sb ra rb, tr = ta ++ existT o x :: tb ∧ traces (f o) (sa ++ e :: sb) x
    ∧ refines ta ra ∧ refines tb rb ∧ tr1 = ra ++ sa ∧ tr2 = sb ++ rb.
Proof.
  induction 1 as [|o x seg tr tr' Hseg Hr IH]; intros tr1 e tr2 Heq.
  - by destruct tr1.
  - apply app_eq_inv in Heq as [(k & -> & Heq)|(k & -> & Heq)].
    + destruct k as [|e' k]; simpl in Heq.
      * (* the event is the first of the rest *)
        destruct (IH [] e tr2 (eq_sym Heq))
          as (ta & o' & x' & tb & sa & sb & ra & rb & -> & Hs & Hra & Hrb & Hnil & ->).
        symmetry in Hnil. apply app_nil in Hnil as [-> ->].
        exists (existT o x :: ta), o', x', tb, [], sb, (tr1 ++ []), rb.
        split; [done|]. split; [done|]. split; [|by rewrite !app_nil_r].
        rewrite app_nil_r in Hseg. by constructor.
      * simplify_eq/=. exists [], o, x, tr, tr1, k, [], tr'.
        split; [done|]. split; [done|]. split; [constructor|done].
    + destruct (IH k e tr2 Heq)
        as (ta & o' & x' & tb & sa & sb & ra & rb & -> & Hs & Hra & Hrb & -> & ->).
      exists (existT o x :: ta), o', x', tb, sa, sb, (seg ++ ra), rb.
      split; [done|]. split; [done|]. split; [by constructor|]. split; [done|].
      by rewrite app_assoc.
Qed.
End Translate.

Notation "'let!' x ':=' c 'in' k" := (bind c (λ x, k))
  (at level 10, x name, c at level 100, k at level 200) : watch_scope.
