(* ===== verification/Transaction.v ===== *)
(** * Action transactions (src/src/recovery/transaction.rs)

    [Transaction::run] takes one authorised action through
    prepare, commit, execute and verify against an [ActionStore], an
    [EvidenceReader], an [ActionExecutor] and a [Clock].  The program is a tree of
    the trait calls it makes ([Effects]); its polling loop takes fuel. *)
From S2P Require Import Prelude Json Action Event Identity StateMachine State Policy Actuator.
From S2P Require Import Store ActionStore Effects.
From stdpp Require Import pretty.

Local Open Scope Z_scope.

Record LiveEvidence : Type := mkLive {
  lv_identity : string;
  lv_target_revalidated : bool;
  lv_process_alive : bool;
  lv_pane_matches : bool;
  lv_evidence_current : bool;
  lv_composer_safe : bool;
  lv_human_intervened : bool;
  lv_event : Event;
}.

Record RecoveryContext : Type := mkRecoveryContext {
  rc_attempts_remaining : Z;
  rc_cumulative_wait_remaining_seconds : Z;
  rc_planner_calls_remaining : Z;
  rc_planner_concurrency_available : bool;
  rc_cooldown_ready : bool;
  rc_session_id : option string;
  rc_failed_provider_family : option string;
  rc_planner_provider_family : option string;
}.

Definition from_watcher (w : WatcherState) (now_monotonic_seconds : Z)
    : result string RecoveryContext :=
  let? machine := ok_or (recovery w) "missing recovery machine" in
  let? event := ok_or (last_observation w) "missing current evidence" in
  if negb (bool_decide (state machine = Recovery.Confirmed)
           || bool_decide (state machine = Recovery.Acting))
     || negb (is_actionable (category event))
  then Err "recovery is not confirmed"
  else
    let b := budget machine in
    Ok {| rc_attempts_remaining := saturating_sub (max_attempts b) (attempts machine);
          rc_cumulative_wait_remaining_seconds :=
            as_secs (saturating_sub (max_cumulative_wait b) (cumulative_wait machine));
          rc_planner_calls_remaining :=
            saturating_sub (budget_planner_calls b) (planner_calls machine);
          rc_planner_concurrency_available := false;
          rc_cooldown_ready :=
            bool_decide (state machine = Recovery.Acting)
            || match last_attempt_mono machine with
               | None => true
               | Some last =>
                   as_secs (cooldown b) <=? saturating_sub now_monotonic_seconds last
               end;
          rc_session_id := session_id event;
          rc_failed_provider_family := provider_family event;
          rc_planner_provider_family := None |}.

Inductive TransactionError : Type :=
| TxDuplicate
| TxActiveOwner
| TxRevalidation (m : string)
| TxPolicy (m : string)
| TxExecution (m : string)
| TxVerificationFailed
| TxUncertain (m : string)
| TxStore (m : string).

(** [Display for TransactionError]. *)
Definition transaction_error_display (e : TransactionError) : string :=
  match e with
  | TxDuplicate => "duplicate or in-flight action"
  | TxActiveOwner => "active transaction owner is still alive"
  | TxRevalidation m => "live state changed: " +:+ m
  | TxPolicy m => "policy denied action: " +:+ m
  | TxExecution m => "action execution failed: " +:+ m
  | TxVerificationFailed => "postcondition verification failed"
  | TxUncertain m => "action outcome is uncertain: " +:+ m
  | TxStore m => "durable store failed: " +:+ m
  end.

(** ** Trait calls *)
Inductive Op : Type :=
| ORead
| OReadVerification (baseline : LiveEvidence)
| OWallTime
| OMono
| OSleep (ms : Z)
| OClaim (target : string) (r : ActionRecord)
| OAppend (target : string) (r : ActionRecord)
| OEscalate (target : string) (r : ActionRecord) (why : string)
| OActive (target : string)
| OExecute (a : Action)
| OProbe (own : OwnerIdentity).

Definition Ans (o : Op) : Type :=
  match o with
  | ORead | OReadVerification _ => result string LiveEvidence
  | OWallTime => string
  | OMono => Z
  | OSleep _ => unit
  | OClaim _ _ => result string bool
  | OAppend _ _ => result string unit
  | OEscalate _ _ _ => result string ActionRecord
  | OActive _ => result string (option ActionRecord)
  | OExecute _ => result ExecutionError ExecutionOutput
  | OProbe _ => bool
  end.

Abbreviation TxProg := (Prog Ans).
Definition TxResult : Type := result TransactionError ActionRecord.

(** [c?] in a function that returns [Result<_, TransactionError>]. *)
Definition tx_try {A B} (c : TxProg (result TransactionError A))
    (k : A → TxProg (result TransactionError B)) : TxProg (result TransactionError B) :=
  bind c (λ r, match r with Ok a => k a | Err e => Ret (Err e) end).
Notation "'let!?' x ':=' c 'in' k" := (tx_try c (λ x, k))
  (at level 10, x name, c at level 100, k at level 200) : watch_scope.

Definition store_call {A} (c : TxProg (result string A)) : TxProg (result TransactionError A) :=
  bind c (λ r, Ret (map_err TxStore r)).

(** ** Pure helpers *)
Definition requires_composer (k : ActionKind) : bool :=
  match k with SendText _ | SubmitText _ | SendKeys _ => true | _ => false end.

Definition needs_progress_verification (k : ActionKind) (outcomes : list Condition) : bool :=
  requires_composer k
  || existsb (λ o, one_of ["AGENT_WORKING"; "AGENT_IDLE"; "BLOCK_CLEARED";
        "GOAL_ACTIVE_OR_PURSUING"; "AGENT_STATE_IS"; "MENU_DISMISSED"; "PROCESS_TERMINATED"]
        (cond_kind o)) outcomes.

Definition action_fingerprint (a : Action) : string :=
  default ""
    (c ← find_first (λ c, String.eqb (cond_kind c) "EVIDENCE_FINGERPRINT_MATCHES")
           (preconditions a);
     v ← cond_value c;
     as_str v).

Definition policy_context (live : LiveEvidence) (rc : RecoveryContext) (wall : string)
    : PolicyContext :=
  let e := lv_event live in
  {| target_revalidated := lv_target_revalidated live;
     evidence_current := lv_evidence_current live;
     human_intervened := lv_human_intervened live;
     source_rank := rank (source_kind (source e));
     contradictory_source_rank := contradictory_source_rank safe;
     process_alive := lv_process_alive live;
     pane_matches := lv_pane_matches live;
     composer_empty := lv_composer_safe live;
     failed_provider_family := rc_failed_provider_family rc;
     planner_provider_family := rc_planner_provider_family rc;
     attempts_remaining := rc_attempts_remaining rc;
     cumulative_wait_remaining_seconds := rc_cumulative_wait_remaining_seconds rc;
     planner_calls_remaining := rc_planner_calls_remaining rc;
     planner_concurrency_available := rc_planner_concurrency_available rc;
     cooldown_ready := rc_cooldown_ready rc;
     ctx_session_id := rc_session_id rc;
     ctx_evidence_fingerprint := Some (evidence_fingerprint e);
     menu_stable := menu_stable safe;
     agent_state := meta_str (metadata e) "agent_state";
     goal_state := meta_str (metadata e) "goal_state";
     event_category := Some (to_ascii_uppercase (category_debug (category e)));
     wall_time_rfc3339 := Some wall;
     claude_resume_session := meta_str (metadata e) "claude_resume_session" |}.

Definition receipt_outcome (out : ExecutionOutput) (o : Condition) : bool :=
  if String.eqb (cond_kind o) "WAIT_STATE_RECORDED"
  then match out with Scheduled _ => true | _ => false end
  else if String.eqb (cond_kind o) "HUMAN_NOTIFIED"
  then match out with Notified => true | _ => false end
  else if String.eqb (cond_kind o) "NO_STATE_CHANGE_EXPECTED"
  then match out with
       | Committed | Scheduled _ | Captured _ | Status _ | Notified | Escalated => true end
  else true.

Definition receipt_outcomes_hold (out : ExecutionOutput) (outcomes : list Condition) : bool :=
  forallb (receipt_outcome out) outcomes.

Definition str_gtb (a b : string) : bool := String.ltb b a.

Definition verified_claude_progress (before after : LiveEvidence) (o : Condition) : bool :=
  match cond_value o ≫= as_str with
  | None => false
  | Some sess =>
      let b := lv_event before in
      let e := lv_event after in
      String.eqb (source_id (source e)) "claude"
      && category_eqb (category e) Category.Working
      && meta_true (metadata e) "claude_post_resume_progress"
      && opt_str_eqb (meta_str (metadata b) "claude_resume_session") (Some sess)
      && opt_str_eqb (meta_str (metadata e) "claude_resume_session") (Some sess)
      && str_gtb (observed_at e) (observed_at b)
  end.

Definition claude_menu_became_structured_wait (before after : LiveEvidence) : bool :=
  let b := lv_event before in
  let e := lv_event after in
  bool_decide (source_kind (source b) = Source.ScreenDetection)
  && String.eqb (source_id (source b)) "claude"
  && String.eqb (rule_or_field (source b)) "labelled_wait_menu"
  && bool_decide (source_kind (source e) = Source.Hook)
  && String.eqb (source_id (source e)) "claude_stop_failure"
  && (category_eqb (category e) Category.UsageLimit
      || category_eqb (category e) Category.SessionLimit
      || category_eqb (category e) Category.WeeklyLimit)
  && bool_decide (policy_hint e = Hint.WaitAllowed)
  && bool_decide (is_Some (metadata e !! "claude_reset_at")).

Definition outcome_verified (before after : LiveEvidence) (o : Condition) : bool :=
  let e := lv_event after in
  let k := cond_kind o in
  if String.eqb k "AGENT_WORKING" then category_eqb (category e) Category.Working
  else if String.eqb k "GOAL_ACTIVE_OR_PURSUING" then
    category_eqb (category e) Category.Working
    || match meta_str (metadata e) "goal_state" with
       | Some s => one_of ["active"; "pursuing"] (to_ascii_lowercase s)
       | None => false
       end
    || meta_true (metadata e) "codex_post_resume_progress"
  else if String.eqb k "AGENT_STATE_IS" then
    match cond_value o ≫= as_str with
    | Some s => String.eqb s "WORKING" && category_eqb (category e) Category.Working
    | None => false
    end
  else if String.eqb k "AGENT_IDLE" then category_eqb (category e) Category.Idle
  else if String.eqb k "BLOCK_CLEARED" then negb (is_actionable (category e))
  else if String.eqb k "MENU_DISMISSED" then
    negb (is_actionable (category e)) || claude_menu_became_structured_wait before after
  else if String.eqb k "PROCESS_TERMINATED" then category_eqb (category e) Category.Terminated
  else false.

Definition verified (before after : LiveEvidence) (outcomes : list Condition) : bool :=
  let b := lv_event before in
  let e := lv_event after in
  if String.eqb (evidence_fingerprint e) (evidence_fingerprint b) then false
  else if existsb (λ o, String.eqb (cond_kind o) "CLAUDE_PROGRESS") outcomes then
    existsb (λ o, String.eqb (cond_kind o) "CLAUDE_PROGRESS"
                  && verified_claude_progress before after o) outcomes
  else if (rank (source_kind (source e)) <? rank (source_kind (source b)))
          || f64_ltb (confidence e) (confidence b)
  then false
  else existsb (outcome_verified before after) outcomes.

(** ** The transaction

    [serde_json::to_string] of the authorisation snapshot and the [Debug]
    rendering of an [ExecutionOutput] only feed two free-text fields of the
    ledger record; they are parameters. *)
Class Rendering : Type := mkRendering {
  snapshot_json : EventSource → f64 → list Condition → result string string;
  debug_output : ExecutionOutput → string;
}.

Definition LEASE_MS : Z := 30000.
Definition POLL_MS : Z := 100.

Section Transaction.
Context {rfc : Rfc3339} {render : Rendering}.

Definition output_summary (out : ExecutionOutput) : string :=
  match out with
  | Captured text => "captured " +:+ pretty (String.length text) +:+ " bytes"
  | other => debug_output other
  end.

Definition resume_session_changed (a : Action) (live : LiveEvidence) : bool :=
  existsb (λ c, String.eqb (cond_kind c) "CLAUDE_RESUME_SESSION"
     && negb (opt_str_eqb (cond_value c ≫= as_str)
                (meta_str (metadata (lv_event live)) "claude_resume_session")))
    (preconditions a).

Definition evidence_moved (old live : LiveEvidence) : bool :=
  negb (String.eqb (lv_identity old) (lv_identity live))
  || negb (bool_decide (source (lv_event old) = source (lv_event live)))
  || negb (f64_eqb (confidence (lv_event old)) (confidence (lv_event live))).

(** The checks [revalidate] makes on what [evidence.read()] returned. *)
Definition check_live (a : Action) (baseline : option LiveEvidence) (live : LiveEvidence)
    : result TransactionError LiveEvidence :=
  let? _ := fail_if (negb (lv_target_revalidated live))
              (TxRevalidation "target was not revalidated") in
  let? _ := fail_if (negb (lv_process_alive live))
              (TxRevalidation "target process is not alive") in
  let? _ := fail_if (negb (lv_pane_matches live))
              (TxRevalidation "target pane does not match") in
  let? _ := fail_if (negb (lv_evidence_current live))
              (TxRevalidation "live evidence is not current") in
  let? _ := fail_if (lv_human_intervened live) (TxRevalidation "human intervention") in
  let? _ := fail_if (requires_composer (kind a) && negb (lv_composer_safe live))
              (TxRevalidation "composer unsafe") in
  let? _ := fail_if
              (negb (String.eqb (evidence_fingerprint (lv_event live)) (action_fingerprint a)))
              (TxRevalidation "evidence fingerprint changed") in
  let? _ := fail_if (resume_session_changed a live)
              (TxRevalidation "Claude resume session changed") in
  let? _ := fail_if (match baseline with Some old => evidence_moved old live | None => false end)
              (TxRevalidation "identity or evidence source changed") in
  Ok live.

Definition revalidate (a : Action) (baseline : option LiveEvidence)
    : TxProg (result TransactionError LiveEvidence) :=
  let!? live := store_call (call ORead) in
  Ret (check_live a baseline live).

Definition persist (target : string) (r : ActionRecord) (p : ActionPhase) (why : string)
    : TxProg TxResult :=
  let nxt := next r p why in
  let!? _ := store_call (call (OAppend target nxt)) in
  Ret (Ok nxt).

Definition terminate (target : string) (r : ActionRecord) (p : ActionPhase)
    (error : TransactionError) : TxProg TxResult :=
  let!? _ := store_call (call (OAppend target (next r p (transaction_error_display error)))) in
  Ret (Err error).

Definition uncertain (target : string) (r : ActionRecord) (why : string) : TxProg TxResult :=
  let!? _ := store_call (call (OEscalate target r why)) in
  Ret (Err (TxUncertain why)).

(** A run that used up its fuel returns [None]. *)
Definition finished (p : TxProg TxResult) : TxProg (option TxResult) :=
  bind p (λ r, Ret (Some r)).

Fixpoint verify_loop (fuel : nat) (target : string) (r : ActionRecord)
    (baseline : LiveEvidence) (deadline : Z) (a : Action) : TxProg (option TxResult) :=
  match fuel with
  | O => Ret None
  | S fuel =>
      let! after := call (OReadVerification baseline) in
      match after with
      | Err error =>
          finished (uncertain target r ("verification evidence unavailable: " +:+ error))
      | Ok after =>
          if lv_human_intervened after
             || negb (String.eqb (lv_identity after) (lv_identity baseline))
          then finished (uncertain target r
                 "human intervention or identity contradiction during verification")
          else if verified baseline after (expected_outcomes a)
          then finished (persist target r Phase.Succeeded "canonical expected outcome verified")
          else
            let! now := call OMono in
            if deadline <=? now
            then finished (uncertain target r "verification timed out after possible side effect")
            else
              let! _ := call (OSleep POLL_MS) in
              verify_loop fuel target r baseline deadline a
      end
  end.

(** From the persisted [Sent] record to the end of the transaction. *)
Definition verify_outcome (fuel : nat) (target : string) (r : ActionRecord)
    (baseline : LiveEvidence) (a : Action) (out : ExecutionOutput) : TxProg (option TxResult) :=
  if negb (receipt_outcomes_hold out (expected_outcomes a))
  then finished (uncertain target r "executor did not return the canonical outcome receipt")
  else if negb (needs_progress_verification (kind a) (expected_outcomes a))
  then finished (persist target r Phase.Succeeded "non-input action completed durably")
  else
    let! res := persist target r Phase.Verifying "polling canonical expected outcomes" in
    match res with
    | Err error =>
        finished (uncertain target r
          ("could not durably begin verification after possible side effect: "
           +:+ transaction_error_display error))
    | Ok r =>
        let! now := call OMono in
        let deadline :=
          saturating_add u64_max now (saturating_mul u64_max (timeout_seconds a) 1000) in
        verify_loop fuel target r baseline deadline a
    end.

(** From the claimed record: revalidate, cross the commit boundary, execute. *)
Definition commit (fuel : nat) (target : string) (r : ActionRecord)
    (baseline confirmed : LiveEvidence) (a : Action) : TxProg (option TxResult) :=
  let! live := revalidate a (Some confirmed) in
  match live with
  | Err error => finished (terminate target r Phase.Failed error)
  | Ok _ =>
      let! res := persist target r Phase.Begun "commit boundary entered" in
      match res with
      | Err error => Ret (Some (Err error))
      | Ok r =>
          let! out := call (OExecute a) in
          match out with
          | Err (PossibleSideEffect why) => finished (uncertain target r why)
          | Err error =>
              finished (terminate target r Phase.Failed
                (TxExecution (execution_error_display error)))
          | Ok out =>
              let r := set_output r (Some (output_summary out)) in
              let! res := persist target r Phase.Sent "executor completed action unit" in
              match res with
              | Err error =>
                  finished (uncertain target r
                    ("could not durably record a possible side effect: "
                     +:+ transaction_error_display error))
              | Ok r => verify_outcome fuel target r baseline a out
              end
          end
      end
  end.

Definition idempotency_key_for (target : string) (a : Action) (baseline : LiveEvidence) : string :=
  target +:+ ":" +:+ action_id a +:+ ":" +:+ evidence_fingerprint (lv_event baseline).

Definition run (fuel : nat) (target : string) (own : OwnerIdentity) (a : Action)
    (rc : RecoveryContext) : TxProg (option TxResult) :=
  match validate_action a with
  | Err error => Ret (Some (Err (TxExecution (execution_error_display error))))
  | Ok _ =>
  let! baseline := revalidate a None in
  match baseline with
  | Err error => Ret (Some (Err error))
  | Ok baseline =>
  let! wall := call OWallTime in
  match authorize a (policy_context baseline rc wall) with
  | Err m => Ret (Some (Err (TxPolicy m)))
  | Ok _ =>
  let! confirmed := revalidate a (Some baseline) in
  match confirmed with
  | Err error => Ret (Some (Err error))
  | Ok confirmed =>
  let! now := call OMono in
  let key := idempotency_key_for target a baseline in
  match snapshot_json (source (lv_event baseline)) (confidence (lv_event baseline))
          (preconditions a) with
  | Err m => Ret (Some (Err (TxStore m)))
  | Ok snap =>
  let r := prepared (action_id a) key target own now (saturating_add u64_max now LEASE_MS)
             (lv_identity baseline) (evidence_fingerprint (lv_event baseline)) snap in
  let! claimed := call (OClaim target r) in
  match claimed with
  | Err m => Ret (Some (Err (TxStore m)))
  | Ok false => Ret (Some (Err TxDuplicate))
  | Ok true => commit fuel target r baseline confirmed a
  end end end end end end.

(** ** Restart and lease recovery *)
Definition recover_after_restart (target : string)
    : TxProg (result TransactionError (option ActionRecord)) :=
  let!? found := store_call (call (OActive target)) in
  match found with
  | None => Ret (Ok None)
  | Some r =>
      let '(p, why) :=
        if bool_decide (phase r = Phase.Prepared)
        then (Phase.Failed, "restart cancelled prepared action before side effect")
        else (Phase.HumanRequired,
              "restart found action after commit boundary; blind retry forbidden") in
      let terminal := next r p why in
      let!? _ := store_call (call (OAppend target terminal)) in
      Ret (Ok (Some terminal))
  end.

Definition recover_stale (target : string)
    : TxProg (result TransactionError (option ActionRecord)) :=
  let!? found := store_call (call (OActive target)) in
  match found with
  | None => Ret (Ok None)
  | Some r =>
      let! now := call OMono in
      let! alive := (if now <=? lease_deadline_ms r then Ret true else call (OProbe (owner r))) in
      if alive then Ret (Err TxActiveOwner)
      else
        let p := if bool_decide (phase r = Phase.Prepared)
                 then Phase.Failed else Phase.HumanRequired in
        let terminal := next r p "expired lease owned by a different pid/start identity" in
        let!? _ := store_call (call (OAppend target terminal)) in
        Ret (Ok (Some terminal))
  end.
End Transaction.

(** ** The transaction protocol

    What each trait call of [run] presupposes.  The states follow the durable
    life of the record; [base] is the evidence the action was authorised on. *)
Inductive TxState : Type :=
| SIdle (evs : list LiveEvidence) (wall : option string)
| SRefused
| SClaimed (base conf : LiveEvidence) (r : ActionRecord) (post : option LiveEvidence)
| SBegun (base : LiveEvidence) (r : ActionRecord)
| SExecuted (base : LiveEvidence) (r : ActionRecord)
    (res : result ExecutionError ExecutionOutput)
| SSent (base : LiveEvidence) (r : ActionRecord) (out : ExecutionOutput)
| SVerifying (base : LiveEvidence) (r : ActionRecord) (last : option LiveEvidence)
| SDone (r : ActionRecord)
| SEscalated.

Definition after_append (st : TxState) (r : ActionRecord) : TxState :=
  match phase r, st with
  | Phase.Begun, SClaimed base _ _ _ => SBegun base r
  | Phase.Sent, SExecuted base _ (Ok out) => SSent base r out
  | Phase.Verifying, SSent base _ _ => SVerifying base r None
  | _, _ => SDone r
  end.

Definition advance (st : TxState) (o : Op) : Ans o → TxState :=
  match o return Ans o → TxState with
  | ORead => λ x,
      match x, st with
      | Ok e, SIdle evs w => SIdle (evs ++ [e]) w
      | Ok e, SClaimed base conf r _ => SClaimed base conf r (Some e)
      | _, _ => st
      end
  | OReadVerification _ => λ x,
      match x, st with
      | Ok e, SVerifying base r _ => SVerifying base r (Some e)
      | _, _ => st
      end
  | OWallTime => λ w, match st with SIdle evs _ => SIdle evs (Some w) | _ => st end
  | OClaim _ r => λ x,
      match x, st with
      | Ok true, SIdle [e1; e2] _ => SClaimed e1 e2 r None
      | _, _ => SRefused
      end
  | OAppend _ r => λ x, match x with Ok _ => after_append st r | Err _ => st end
  | OEscalate _ _ _ => λ x, match x with Ok _ => SEscalated | Err _ => st end
  | OExecute _ => λ x, match st with SBegun base r => SExecuted base r x | _ => st end
  | _ => λ _, st
  end.

(** The record stays the record of one transaction. *)
Definition same_tx (r r' : ActionRecord) : Prop :=
  idempotency_key r' = idempotency_key r ∧ rec_action_id r' = rec_action_id r
  ∧ rec_target r' = rec_target r ∧ owner r' = owner r ∧ fingerprint r' = fingerprint r.

(** Evidence an action may be based on. *)
Record usable (a : Action) (e : LiveEvidence) : Prop := {
  us_revalidated : lv_target_revalidated e = true;
  us_alive : lv_process_alive e = true;
  us_pane : lv_pane_matches e = true;
  us_current : lv_evidence_current e = true;
  us_human : lv_human_intervened e = false;
  us_composer : requires_composer (kind a) = true → lv_composer_safe e = true;
  us_fingerprint : evidence_fingerprint (lv_event e) = action_fingerprint a;
  us_resume : resume_session_changed a e = false;
}.

Definition consistent (old live : LiveEvidence) : Prop :=
  lv_identity old = lv_identity live ∧ source (lv_event old) = source (lv_event live)
  ∧ f64_eqb (confidence (lv_event old)) (confidence (lv_event live)) = true.

Section Protocol.
Context {rfc : Rfc3339} {render : Rendering}.
Context (tgt : string) (own : OwnerIdentity) (a : Action) (rc : RecoveryContext).

Definition claim_guard (st : TxState) (r : ActionRecord) : Prop :=
  ∃ e1 e2 wall, st = SIdle [e1; e2] (Some wall)
    ∧ usable a e1 ∧ usable a e2 ∧ consistent e1 e2
    ∧ authorize a (policy_context e1 rc wall) = Ok tt
    ∧ phase r = Phase.Prepared ∧ owner r = own ∧ rec_target r = tgt
    ∧ rec_action_id r = action_id a ∧ idempotency_key r = idempotency_key_for tgt a e1
    ∧ fingerprint r = action_fingerprint a ∧ rec_identity r = lv_identity e1.

Definition append_guard (st : TxState) (r' : ActionRecord) : Prop :=
  match phase r' with
  | Phase.Begun =>
      ∃ base conf r e, st = SClaimed base conf r (Some e)
        ∧ usable a e ∧ consistent conf e ∧ same_tx r r'
  | Phase.Failed =>
      (∃ base conf r post, st = SClaimed base conf r post ∧ same_tx r r')
      ∨ (∃ base r e, st = SExecuted base r (Err e)
           ∧ (∀ m, e ≠ PossibleSideEffect m) ∧ same_tx r r')
  | Phase.Sent => ∃ base r out, st = SExecuted base r (Ok out) ∧ same_tx r r'
  | Phase.Verifying =>
      ∃ base r out, st = SSent base r out
        ∧ receipt_outcomes_hold out (expected_outcomes a) = true
        ∧ needs_progress_verification (kind a) (expected_outcomes a) = true ∧ same_tx r r'
  | Phase.Succeeded =>
      (∃ base r out, st = SSent base r out
         ∧ receipt_outcomes_hold out (expected_outcomes a) = true
         ∧ needs_progress_verification (kind a) (expected_outcomes a) = false ∧ same_tx r r')
      ∨ (∃ base r e, st = SVerifying base r (Some e)
           ∧ lv_human_intervened e = false ∧ lv_identity e = lv_identity base
           ∧ verified base e (expected_outcomes a) = true ∧ same_tx r r')
  | _ => False
  end.

(** States in which a side effect may exist without a terminal record. *)
Definition maybe_sent (st : TxState) (r : ActionRecord) : Prop :=
  (∃ base m, st = SExecuted base r (Err (PossibleSideEffect m)))
  ∨ (∃ base out, st = SExecuted base r (Ok out))
  ∨ (∃ base out, st = SSent base r out) ∨ (∃ base l, st = SVerifying base r l).

Definition guard (st : TxState) (o : Op) : Prop :=
  match o with
  | ORead => (∃ evs w, st = SIdle evs w ∧ (length evs < 2)%nat)
             ∨ (∃ base conf r, st = SClaimed base conf r None)
  | OReadVerification b => ∃ r l, st = SVerifying b r l
  | OWallTime => ∃ e, st = SIdle [e] None
  | OMono => True
  | OSleep ms => ms = POLL_MS ∧ ∃ base r e, st = SVerifying base r (Some e)
  | OClaim t r => t = tgt ∧ claim_guard st r
  | OAppend t r => t = tgt ∧ append_guard st r
  | OEscalate t r' _ => t = tgt ∧ ∃ r, maybe_sent st r ∧ same_tx r r'
  | OExecute a' => a' = a ∧ ∃ base r, st = SBegun base r
  | OActive _ | OProbe _ => False
  end.

(** What the result of [run] says about the durable state. *)
Definition outcome (res : option TxResult) (st : TxState) : Prop :=
  match res with
  | None => ∃ base r l, st = SVerifying base r l
  | Some (Ok r) => phase r = Phase.Succeeded ∧ st = SDone r
  | Some (Err (TxUncertain _)) => st = SEscalated
  | Some (Err (TxPolicy _)) => ∃ evs w, st = SIdle evs w
  | Some (Err TxDuplicate) => st = SRefused
  | Some (Err (TxRevalidation _)) =>
      (∃ evs w, st = SIdle evs w) ∨ (∃ r, st = SDone r ∧ phase r = Phase.Failed)
  | Some (Err (TxExecution _)) =>
      st = SIdle [] None ∨ (∃ r, st = SDone r ∧ phase r = Phase.Failed)
  | Some (Err (TxStore _)) => True
  | Some (Err _) => False
  end.
End Protocol.

Section ProtocolProofs.
Context {rfc : Rfc3339} {render : Rendering}.
Context (tgt : string) (own : OwnerIdentity) (a : Action) (rc : RecoveryContext).

Abbreviation twp := (wp (guard tgt own a rc) advance).

Lemma check_live_Ok base live live' :
  check_live a base live = Ok live' →
  live' = live ∧ usable a live
  ∧ match base with Some old => consistent old live | None => True end.
Proof.
  unfold check_live. intros Hc.
  repeat (apply rbind_Ok in Hc as ([] & ?%fail_if_Ok & Hc)). simplify_eq.
  split; [done|]. split.
  - split; inv_watch; try done. intros Hr. rewrite Hr in *. simpl in *. by inv_watch.
  - destruct base as [old|]; [|done]. unfold evidence_moved in *. inv_watch. done.
Qed.

Lemma check_live_Err base live e :
  check_live a base live = Err e → ∃ m, e = TxRevalidation m.
Proof.
  unfold check_live, rbind, fail_if. intros Hc.
  repeat case_bool_in Hc; simplify_eq; eauto.
Qed.

Lemma wp_revalidate base st Q :
  guard tgt own a rc st ORead →
  (∀ m, Q (Err (TxStore m)) st) →
  (∀ live m, Q (Err (TxRevalidation m)) (advance st ORead (Ok live))) →
  (∀ live, usable a live → match base with Some old => consistent old live | None => True end →
     Q (Ok live) (advance st ORead (Ok live))) →
  twp (revalidate a base) st Q.
Proof.
  intros Hg He Hm Hok. unfold revalidate, tx_try, store_call, call. simpl.
  split; [exact Hg|]. intros [live|m]; simpl.
  - destruct (check_live a base live) as [live'|e] eqn:Hc; simpl.
    + apply check_live_Ok in Hc as (-> & ? & ?). auto.
    + apply check_live_Err in Hc as [m ->]. apply Hm.
  - destruct st; apply He.
Qed.

Lemma wp_persist r p why st Q :
  guard tgt own a rc st (OAppend tgt (next r p why)) →
  Q (Ok (next r p why)) (after_append st (next r p why)) →
  (∀ m, Q (Err (TxStore m)) st) →
  twp (persist tgt r p why) st Q.
Proof.
  intros Hg Hok Herr. unfold persist, tx_try, store_call, call. simpl.
  split; [exact Hg|]. intros [[]|m]; simpl; auto.
Qed.

Lemma wp_terminate r p e st Q :
  guard tgt own a rc st (OAppend tgt (next r p (transaction_error_display e))) →
  Q (Err e) (after_append st (next r p (transaction_error_display e))) →
  (∀ m, Q (Err (TxStore m)) st) →
  twp (terminate tgt r p e) st Q.
Proof.
  intros Hg Hok Herr. unfold terminate, tx_try, store_call, call. simpl.
  split; [exact Hg|]. intros [[]|m]; simpl; auto.
Qed.

Lemma wp_uncertain r r0 why st Q :
  maybe_sent st r0 → same_tx r0 r →
  Q (Err (TxUncertain why)) SEscalated → (∀ m, Q (Err (TxStore m)) st) →
  twp (uncertain tgt r why) st Q.
Proof.
  intros Hg Hs Hok Herr. unfold uncertain, tx_try, store_call, call. simpl.
  split; [split; [done|by exists r0]|]. intros [h|m]; simpl; auto.
Qed.

Lemma wp_finished p st Q : twp p st (λ r s, Q (Some r) s) → twp (finished p) st Q.
Proof. intros Hp. unfold finished. apply wp_bind. exact Hp. Qed.

Lemma same_tx_next r p why : same_tx r (next r p why).
Proof. done. Qed.
Lemma same_tx_refl r : same_tx r r.
Proof. done. Qed.

Lemma wp_finished_uncertain r r0 why st :
  maybe_sent st r0 → same_tx r0 r →
  twp (finished (uncertain tgt r why)) st outcome.
Proof. intros. apply wp_finished. eapply wp_uncertain; done. Qed.

Lemma wp_verify_loop fuel r base deadline l :
  twp (verify_loop fuel tgt r base deadline a) (SVerifying base r l) outcome.
Proof.
  revert l. induction fuel as [|fuel IH]; intros l; [simpl; eauto|].
  cbn [verify_loop]. apply wp_call; [simpl; eauto|].
  assert (∀ l, maybe_sent (SVerifying base r l) r) as Hms by (right; right; right; eauto).
  intros [e|m]; [|apply (wp_finished_uncertain r r); [apply Hms|done]].
  destruct (_ || _) eqn:Hh; [apply (wp_finished_uncertain r r); [apply Hms|done]|].
  apply orb_false_iff in Hh as [Hh Hi%negb_false_iff%String.eqb_eq].
  destruct (verified base e (expected_outcomes a)) eqn:Hv.
  { apply wp_finished. apply wp_persist; [|done|done].
    split; [done|]. right. exists base, r, e. done. }
  apply wp_call; [done|]. intros now.
  destruct (deadline <=? now); [apply (wp_finished_uncertain r r); [apply Hms|done]|].
  apply wp_call; [simpl; eauto 8|]. intros []. apply IH.
Qed.

Lemma wp_verify_outcome fuel r base out :
  twp (verify_outcome fuel tgt r base a out) (SSent base r out) outcome.
Proof.
  unfold verify_outcome.
  assert (maybe_sent (SSent base r out) r) as Hms by (right; right; left; eauto).
  destruct (receipt_outcomes_hold _ _) eqn:Hr; cbn [negb];
    [|apply (wp_finished_uncertain r r); [apply Hms|done]].
  destruct (needs_progress_verification _ _) eqn:Hn; cbn [negb].
  - apply wp_bind. apply wp_persist.
    + split; [done|]. exists base, r, out. done.
    + apply wp_call; [done|]. intros now. apply wp_verify_loop.
    + intros m. apply (wp_finished_uncertain r r); [apply Hms|done].
  - apply wp_finished. apply wp_persist; [|done|done].
    split; [done|]. left. exists base, r, out. done.
Qed.

Lemma wp_claimed_failed r base conf post e :
  (∃ m, e = TxRevalidation m) ∨ (∃ m, e = TxStore m) →
  twp (finished (terminate tgt r Phase.Failed e)) (SClaimed base conf r post) outcome.
Proof.
  intros He. apply wp_finished. apply wp_terminate; [| |done].
  - split; [done|]. left. exists base, conf, r, post. done.
  - destruct He as [[m ->]|[m ->]]; [|done]. right. eexists. done.
Qed.

Lemma wp_commit fuel r base conf :
  twp (commit fuel tgt r base conf a) (SClaimed base conf r None) outcome.
Proof.
  unfold commit. apply wp_bind. apply wp_revalidate.
  { right. eauto. }
  { intros m. apply wp_claimed_failed. eauto. }
  { intros live m. apply wp_claimed_failed. eauto. }
  intros live Hu Hc. cbn [advance].
  apply wp_bind. apply wp_persist; [|cbn [after_append phase next]|done].
  { split; [done|]. exists base, conf, r, live. done. }
  set (r1 := next r Phase.Begun _). apply wp_call; [split; [done|]; eauto|].
  intros [out|e]; cbn [advance].
  - set (r2 := set_output r1 _).
    assert (maybe_sent (SExecuted base r1 (Ok out)) r1) as Hms by (right; left; eauto).
    apply wp_bind. apply wp_persist.
    + split; [done|]. exists base, r1, out. done.
    + apply wp_verify_outcome.
    + intros m. apply (wp_finished_uncertain r2 r1); done.
  - assert (∀ e', e' = e → (∀ m, e' ≠ PossibleSideEffect m) →
      twp (finished (terminate tgt r1 Phase.Failed (TxExecution (execution_error_display e'))))
        (SExecuted base r1 (Err e)) outcome) as Hclean.
    { intros e' -> He. apply wp_finished. apply wp_terminate; [|right; eexists; done|done].
      split; [done|]. right. exists base, r1, e. done. }
    destruct e as [m|m|m]; [by apply Hclean..|].
    apply (wp_finished_uncertain r1 r1); [left; eauto|done].
Qed.

Lemma wp_run fuel : twp (run fuel tgt own a rc) (SIdle [] None) outcome.
Proof.
  unfold run. destruct (validate_action a) as [[]|e] eqn:Hv; [|left; done].
  apply wp_bind. apply wp_revalidate.
  { left. exists [], None. simpl. eauto with lia. }
  { intros m. done. }
  { intros live m. left. simpl. eauto. }
  intros e1 Hu1 _. cbn [advance app]. apply wp_call; [by eexists|].
  intros wall. cbn [advance].
  destruct (authorize a (policy_context e1 rc wall)) as [[]|m] eqn:Hauth; [|simpl; eauto].
  apply wp_bind. apply wp_revalidate.
  { left. exists [e1], (Some wall). simpl. eauto with lia. }
  { intros m. done. }
  { intros live m. left. simpl. eauto. }
  intros e2 Hu2 Hc. cbn [advance app]. apply wp_call; [done|]. intros now. cbn [advance].
  destruct (snapshot_json _ _ _) as [snap|m]; [|done].
  apply wp_call.
  { split; [done|]. exists e1, e2, wall. split_and!; try done. apply Hu1. }
  intros [[]|m]; cbn [advance]; [apply wp_commit|done|done].
Qed.

(** ** Consequences of the protocol *)

(** The evidence chain behind a claimed record. *)
Definition grounded (base : LiveEvidence) (r : ActionRecord) (tr : list (Ev Ans)) : Prop :=
  ∃ r0 conf wall, existT (OClaim tgt r0) (Ok true) ∈ tr ∧ same_tx r0 r
    ∧ existT ORead (Ok base) ∈ tr ∧ existT ORead (Ok conf) ∈ tr ∧ existT OWallTime wall ∈ tr
    ∧ phase r0 = Phase.Prepared ∧ idempotency_key r0 = idempotency_key_for tgt a base
    ∧ usable a base ∧ usable a conf ∧ consistent base conf
    ∧ authorize a (policy_context base rc wall) = Ok tt.

(** A durable [Begun] record, written on evidence read after the claim. *)
Definition begun_in (r : ActionRecord) (tr : list (Ev Ans)) : Prop :=
  ∃ rb e, existT (OAppend tgt rb) (Ok tt) ∈ tr ∧ phase rb = Phase.Begun ∧ same_tx rb r
    ∧ existT ORead (Ok e) ∈ tr ∧ usable a e.

Definition verified_in (base : LiveEvidence) (tr : list (Ev Ans)) : Prop :=
  ∃ e, existT (OReadVerification base) (Ok e) ∈ tr
    ∧ lv_human_intervened e = false ∧ lv_identity e = lv_identity base
    ∧ verified base e (expected_outcomes a) = true.

(** What the conversation so far must contain, by protocol state. *)
Definition history (st : TxState) (tr : list (Ev Ans)) : Prop :=
  match st with
  | SIdle evs wall =>
      (∀ e, e ∈ evs → existT ORead (Ok e) ∈ tr) ∧ ∀ w, wall = Some w → existT OWallTime w ∈ tr
  | SRefused | SEscalated => True
  | SClaimed base conf r post =>
      grounded base r tr ∧ ∀ e, post = Some e → existT ORead (Ok e) ∈ tr
  | SBegun base r | SExecuted base r _ | SSent base r _ => grounded base r tr ∧ begun_in r tr
  | SVerifying base r l =>
      grounded base r tr ∧ begun_in r tr
      ∧ ∀ e, l = Some e → existT (OReadVerification base) (Ok e) ∈ tr
  | SDone r =>
      existT (OAppend tgt r) (Ok tt) ∈ tr
      ∧ (phase r = Phase.Succeeded →
           ∃ base, grounded base r tr ∧ begun_in r tr
             ∧ (needs_progress_verification (kind a) (expected_outcomes a) = true →
                  verified_in base tr))
  end.

Lemma same_tx_trans r1 r2 r3 : same_tx r1 r2 → same_tx r2 r3 → same_tx r1 r3.
Proof. unfold same_tx. intuition congruence. Qed.

Lemma grounded_mono base r r' tr tr' :
  same_tx r r' → tr ⊆ tr' → grounded base r tr → grounded base r' tr'.
Proof.
  intros Hs Ht (r0 & conf & wall & ? & ? & ? & ? & ? & ?). exists r0, conf, wall.
  split; [by apply Ht|]. split; [by eapply same_tx_trans|].
  do 3 (split; [by apply Ht|]). done.
Qed.

Lemma begun_mono r r' tr tr' : same_tx r r' → tr ⊆ tr' → begun_in r tr → begun_in r' tr'.
Proof.
  intros Hs Ht (rb & e & ? & ? & ? & ? & ?). exists rb, e.
  split; [by apply Ht|]. split; [done|]. split; [by eapply same_tx_trans|].
  split; [by apply Ht|done].
Qed.

Lemma history_mono st tr tr' : tr ⊆ tr' → history st tr → history st tr'.
Proof.
  intros Ht. destruct st; simpl; try done.
  - intros [He Hw]. split; [intros e Hin; by apply Ht, He|]. intros w ->. by apply Ht, Hw.
  - intros [Hg He]. split; [by eapply grounded_mono|]. intros e ->. by apply Ht, He.
  - intros [Hg Hb]. split; [by eapply grounded_mono|by eapply begun_mono].
  - intros [Hg Hb]. split; [by eapply grounded_mono|by eapply begun_mono].
  - intros [Hg Hb]. split; [by eapply grounded_mono|by eapply begun_mono].
  - intros (Hg & Hb & He). split; [by eapply grounded_mono|]. split; [by eapply begun_mono|].
    intros e ->. by apply Ht, He.
  - intros [Hin Hs]. split; [by apply Ht|]. intros Hp.
    destruct (Hs Hp) as (base & Hg & Hb & Hv). exists base.
    split; [by eapply grounded_mono|]. split; [by eapply begun_mono|].
    intros Hn. destruct (Hv Hn) as (e & ? & ?). exists e. split; [by apply Ht|done].
Qed.

Lemma history_append st r tr :
  append_guard a st r → history st tr →
  history (after_append st r) (tr ++ [existT (OAppend tgt r) (Ok tt)]).
Proof.
  intros Hg Hh. set (tr' := tr ++ _). assert (tr ⊆ tr') as Hsub by set_solver.
  assert (existT (OAppend tgt r) (Ok tt) ∈ tr') as Hin by set_solver.
  unfold append_guard in Hg. unfold after_append. destruct (phase r) eqn:Hp; try done.
  - destruct Hg as (base & conf & r0 & e & -> & Hu & Hc & Hs). destruct Hh as [Hgr He].
    split; [by eapply grounded_mono|]. exists r, e. split; [done|]. split; [done|].
    split; [done|]. split; [|done]. by apply Hsub, He.
  - destruct Hg as (base & r0 & out & -> & Hs). destruct Hh as [Hgr Hb].
    split; [by eapply grounded_mono|by eapply begun_mono].
  - destruct Hg as (base & r0 & out & -> & _ & _ & Hs). destruct Hh as [Hgr Hb].
    split; [by eapply grounded_mono|]. split; [by eapply begun_mono|done].
  - assert (history (SDone r) tr') as Hd; [|by destruct st].
    split; [done|]. intros _.
    destruct Hg as [(base & r0 & out & -> & _ & Hn & Hs)|(base & r0 & e & -> & ? & ? & ? & Hs)].
    + destruct Hh as [Hgr Hb]. exists base. split; [by eapply grounded_mono|].
      split; [by eapply begun_mono|]. congruence.
    + destruct Hh as (Hgr & Hb & He). exists base. split; [by eapply grounded_mono|].
      split; [by eapply begun_mono|]. intros _. exists e. split; [|done]. by apply Hsub, He.
  - assert (history (SDone r) tr') as Hd; [|by destruct st]. split; [done|congruence].
Qed.

Lemma history_step st o x tr :
  guard tgt own a rc st o → history st tr →
  history (advance st o x) (tr ++ [existT o x]).
Proof.
  intros Hg Hh. set (tr' := tr ++ [existT o x]).
  assert (tr ⊆ tr') as Hsub by set_solver.
  assert (existT o x ∈ tr') as Hin by set_solver.
  assert (history st tr') as Hkeep by (by eapply history_mono).
  destruct o; simpl in Hg; cbn [advance]; try done.
  - destruct x as [e|m]; [|done]. destruct st; try done; simpl in *.
    + split; [|apply Hkeep]. intros e' He'. apply elem_of_app in He' as [?|He'];
        [by apply Hkeep|]. by apply list_elem_of_singleton in He' as ->.
    + destruct Hkeep as [? _]. split; [done|]. by intros ? [= <-].
  - destruct x as [e|m]; [|done]. destruct st; try done; simpl in *.
    destruct Hg as (r0 & l & Heq). injection Heq as -> -> ->. destruct Hkeep as (? & ? & _).
    split; [done|]. split; [done|]. by intros ? [= <-].
  - destruct st; try done. destruct Hkeep as [? _]. split; [done|]. by intros ? [= <-].
  - destruct Hg as [-> (e1 & e2 & wall & -> & Hg)].
    destruct x as [[]|m]; [|done|done]. simpl. split; [|done].
    destruct Hg as (? & ? & ? & ? & ? & ? & ? & ? & ? & ? & ?), Hkeep as [He Hw].
    exists r, e2, wall. split; [done|]. split; [done|]. split; [apply He; by left|].
    split; [apply He; right; by left|]. by split; [apply Hw|].
  - destruct Hg as [-> Hg]. destruct x as [[]|m]; [|done]. by apply history_append.
  - by destruct x.
  - destruct Hg as [-> (base & r & ->)]. simpl. done.
Qed.

Lemma obeys_history tr :
  obeys (guard tgt own a rc) advance (SIdle [] None) tr →
  history (after advance (SIdle [] None) tr) tr.
Proof.
  induction tr as [|e tr IH] using rev_ind; [intros _; split; [intros ? He; by apply elem_of_nil in He|done]|].
  intros [Hob [Hg _]]%obeys_app. rewrite after_app. unfold after at 1. simpl.
  destruct e as [o x]. apply history_step; [done|]. by apply IH.
Qed.
End ProtocolProofs.
