(* ===== verification/TransactionSafety.v ===== *)
(** * Guarantees of action transactions

    Theorems about [Transaction.run] and the two recovery procedures of
    src/src/recovery/transaction.rs.  The safety theorems speak about every
    conversation ([traces]) the program can have with its store, evidence reader,
    executor and clock, whatever these answer; termination and the recovery
    theorems are about handlers that satisfy the named laws. *)
From S2P Require Import Prelude Json Action Event Identity StateMachine State Policy Actuator.
From S2P Require Import Store ActionStore Effects Transaction.

Local Open Scope Z_scope.

Definition is_execute (e : Ev Ans) : bool :=
  match projT1 e with OExecute _ => true | _ => false end.

Definition is_failed_append (e : Ev Ans) : bool :=
  match projT1 e with OAppend _ r => bool_decide (phase r = Phase.Failed) | _ => false end.

(** States from which no execution can follow. *)
Definition spent (st : TxState) : bool :=
  match st with SIdle _ _ | SClaimed _ _ _ _ | SBegun _ _ => false | _ => true end.

(** States after an execution that may have had a side effect. *)
Definition touched (st : TxState) : bool :=
  match st with
  | SExecuted _ _ (Ok _) | SExecuted _ _ (Err (PossibleSideEffect _)) => true
  | SSent _ _ _ | SVerifying _ _ _ | SEscalated => true
  | SDone r => bool_decide (phase r = Phase.Succeeded)
  | _ => false
  end.

Lemma touched_spent st : touched st = true → spent st = true.
Proof. by destruct st. Qed.

Lemma after_append_spent st r : spent st = true → spent (after_append st r) = true.
Proof. unfold after_append. by destruct (phase r), st as [| | | |? ? []| | | |]. Qed.

Lemma advance_spent st o x : spent st = true → spent (advance st o x) = true.
Proof.
  intros Hs. destruct o; cbn [advance]; try done.
  - by destruct x, st.
  - by destruct x, st.
  - by destruct st.
  - destruct x as [[]|]; by destruct st as [| | | | | | | |].
  - destruct x; [by apply after_append_spent|done].
  - by destruct x.
  - by destruct st.
Qed.

Section Safety.
Context {rfc : Rfc3339} {render : Rendering}.
Context (tgt : string) (own : OwnerIdentity) (a : Action) (rc : RecoveryContext).

Abbreviation tguard := (guard tgt own a rc).

Lemma guard_spent st o : tguard st o → spent st = true → ∀ a', o ≠ OExecute a'.
Proof. intros Hg Hs a' ->. destruct Hg as [_ (base & r & ->)]. done. Qed.

Lemma guard_execute st a' : tguard st (OExecute a') → a' = a ∧ ∃ base r, st = SBegun base r.
Proof. done. Qed.

Lemma append_touched st r :
  append_guard a st r → touched st = true →
  touched (after_append st r) = true ∧ phase r ≠ Phase.Failed.
Proof.
  unfold append_guard, after_append. intros Hg Ht. destruct (phase r) eqn:Hp; try done.
  - by destruct Hg as (base & conf & r0 & e & -> & _).
  - by destruct Hg as (base & r0 & out & -> & _).
  - by destruct Hg as (base & r0 & out & -> & _).
  - destruct Hg as [(base & r0 & out & -> & _)|(base & r0 & e & -> & _)]; simpl;
      by rewrite bool_decide_eq_true_2.
  - destruct Hg as [(base & conf & r0 & post & -> & _)|(base & r0 & e & -> & He & _)]; [done|].
    destruct e as [m|m|m]; try done. by destruct (He m).
Qed.

Lemma advance_touched st o x :
  tguard st o → touched st = true →
  touched (advance st o x) = true ∧ is_failed_append (existT o x) = false.
Proof.
  intros Hg Ht. destruct o; cbn [advance]; unfold is_failed_append; cbn [projT1]; try done.
  - split; [|done]. by destruct x, st.
  - split; [|done]. by destruct x, st.
  - split; [|done]. by destruct st.
  - destruct Hg as [_ (e1 & e2 & w & -> & _)]. done.
  - destruct Hg as [-> Hg]. destruct (append_touched _ _ Hg Ht) as [? ?].
    rewrite bool_decide_eq_false_2 by done. by destruct x.
  - by destruct x.
  - by destruct Hg as [_ (base & r & ->)].
Qed.

Lemma spent_no_execute tr st :
  obeys tguard advance st tr → spent st = true → ∀ e, e ∈ tr → is_execute e = false.
Proof.
  revert st. induction tr as [|[o x] tr IH]; intros st; simpl.
  - intros _ _ e He. by apply elem_of_nil in He.
  - intros [Hg Hob] Hs e He. apply elem_of_cons in He as [->|He].
    + pose proof (guard_spent _ _ Hg Hs) as Hne. destruct o; try done. by destruct (Hne a0).
    + by eapply IH; [|apply advance_spent|].
Qed.

Lemma touched_trace tr st :
  obeys tguard advance st tr → touched st = true →
  touched (after advance st tr) = true ∧ ∀ e, e ∈ tr → is_failed_append e = false.
Proof.
  revert st. induction tr as [|[o x] tr IH]; intros st; simpl.
  - intros _ Ht. split; [done|]. intros e He. by apply elem_of_nil in He.
  - intros [Hg Hob] Ht. destruct (advance_touched _ _ x Hg Ht) as [Ht' Hf].
    destruct (IH _ Hob Ht') as [? Hall]. split; [done|].
    intros e He. apply elem_of_cons in He as [->|He]; [done|by apply Hall].
Qed.

(** The conversation around an execution, in protocol states. *)
Lemma split_at_execute fuel tr1 a' x tr2 res :
  traces (run fuel tgt own a rc) (tr1 ++ existT (OExecute a') x :: tr2) res →
  a' = a ∧ ∃ base r,
    after advance (SIdle [] None) tr1 = SBegun base r
    ∧ history tgt a rc (SBegun base r) tr1
    ∧ obeys tguard advance (SIdle [] None) tr1
    ∧ obeys tguard advance (SExecuted base r x) tr2
    ∧ outcome res (after advance (SExecuted base r x) tr2).
Proof.
  intros Htr. eapply wp_sound in Htr as [Hob Hout]; [|apply (wp_run tgt own a rc fuel)].
  apply obeys_app in Hob as [Hob1 [Hg Hob2]].
  destruct Hg as [-> (base & r & Hst)]. cbn [projT1 projT2] in Hob2. split; [done|].
  exists base, r. split; [done|].
  split; [rewrite <- Hst; by eapply obeys_history|]. split; [done|].
  rewrite after_app, Hst in Hout. rewrite Hst in Hob2. done.
Qed.

Lemma no_execute_before tr base r :
  obeys tguard advance (SIdle [] None) tr →
  after advance (SIdle [] None) tr = SBegun base r → ∀ e, e ∈ tr → is_execute e = false.
Proof.
  intros Hob Haft e He. destruct e as [o x], o; try done. exfalso.
  apply list_elem_of_split in He as (tr1 & tr2 & ->).
  apply obeys_app in Hob as [_ [Hg Hob]]. rewrite after_app in Haft.
  destruct Hg as [_ (base' & r' & Hst)]. cbn [projT1 projT2] in *.
  unfold after at 1 in Haft. simpl in Haft. rewrite Hst in *. cbn [advance] in *.
  assert (∀ tr st, spent st = true → spent (after advance st tr) = true) as Hsp.
  { clear. induction tr as [|[o x] tr IH]; intros st Hs; [done|].
    unfold after. simpl. apply IH. by apply advance_spent. }
  specialize (Hsp tr2 (SExecuted base' r' x) eq_refl). unfold after in Hsp.
  by rewrite Haft in Hsp.
Qed.

Lemma run_executes_guarded fuel tr1 a' x tr2 res :
  traces (run fuel tgt own a rc) (tr1 ++ existT (OExecute a') x :: tr2) res →
  a' = a
  ∧ (∃ base r, grounded tgt a rc base r tr1 ∧ begun_in tgt a r tr1)
  ∧ ∀ e, e ∈ tr1 ++ tr2 → is_execute e = false.
Proof.
  intros (-> & base & r & Hst & Hh & Hob1 & Hob2 & _)%split_at_execute.
  split; [done|]. split; [by exists base, r|].
  intros e [He|He]%elem_of_app; [by eapply no_execute_before|by eapply spent_no_execute].
Qed.

Lemma run_succeeds_verified fuel tr r :
  traces (run fuel tgt own a rc) tr (Some (Ok r)) →
  phase r = Phase.Succeeded ∧ existT (OAppend tgt r) (Ok tt) ∈ tr
  ∧ ∃ base, grounded tgt a rc base r tr ∧ begun_in tgt a r tr
      ∧ (needs_progress_verification (kind a) (expected_outcomes a) = true →
           verified_in a base tr).
Proof.
  intros Htr. eapply wp_sound in Htr as [Hob Hout]; [|apply (wp_run tgt own a rc fuel)].
  destruct Hout as [Hp Hst]. apply obeys_history in Hob. rewrite Hst in Hob.
  destruct Hob as [Hin Hs]. split; [done|]. split; [done|]. by apply Hs.
Qed.
End Safety.

(** ** The conversation before and after an execution *)
Section Shape.
Context {rfc : Rfc3339} {render : Rendering}.
Context (tgt : string) (own : OwnerIdentity) (a : Action) (rc : RecoveryContext).

(** The record a transaction claims. *)
Definition claimed_record (base : LiveEvidence) (now : Z) (snap : string) : ActionRecord :=
  prepared (action_id a) (tgt +:+ ":" +:+ action_id a +:+ ":" +:+ evidence_fingerprint (lv_event base))
    tgt own now (saturating_add u64_max now 30000) (lv_identity base)
    (evidence_fingerprint (lv_event base)) snap.

(** The seven calls that lead to an execution, with their answers. *)
Definition commit_prefix (base : LiveEvidence) (wall : string) (conf : LiveEvidence) (now : Z)
    (snap : string) (live : LiveEvidence) : list (Ev Ans) :=
  let r := claimed_record base now snap in
  [existT ORead (Ok base); existT OWallTime wall; existT ORead (Ok conf); existT OMono now;
   existT (OClaim tgt r) (Ok true); existT ORead (Ok live);
   existT (OAppend tgt (next r Phase.Begun "commit boundary entered")) (Ok tt)].

(** What each of these calls answered is what the action was authorised on. *)
Definition authorized_on (base : LiveEvidence) (wall : string) (conf live : LiveEvidence) : Prop :=
  usable a base ∧ usable a conf ∧ usable a live ∧ consistent base conf ∧ consistent conf live
  ∧ authorize a (policy_context base rc wall) = Ok tt.

(** What [commit] does with the executor's answer. *)
Definition after_execution (fuel : nat) (r : ActionRecord) (base : LiveEvidence)
    (out : result ExecutionError ExecutionOutput) : TxProg (option TxResult) :=
  match out with
  | Err (PossibleSideEffect why) => finished (uncertain tgt r why)
  | Err error =>
      finished (terminate tgt r Phase.Failed (TxExecution (execution_error_display error)))
  | Ok out =>
      let r := set_output r (Some (output_summary out)) in
      let! res := persist tgt r Phase.Sent "executor completed action unit" in
      match res with
      | Err error =>
          finished (uncertain tgt r
            ("could not durably record a possible side effect: "
             +:+ transaction_error_display error))
      | Ok r => verify_outcome fuel tgt r base a out
      end
  end.

Lemma traces_revalidate base tr res :
  traces (revalidate a base) tr res →
  ∃ x, tr = [existT ORead x]
       ∧ res = match x with Ok live => check_live a base live | Err m => Err (TxStore m) end.
Proof.
  intros (x & l & -> & Ht). exists x. destruct x; simpl in Ht; by destruct Ht as [-> ->].
Qed.

Lemma traces_persist r p why tr res :
  traces (persist tgt r p why) tr res →
  ∃ x, tr = [existT (OAppend tgt (next r p why)) x]
       ∧ res = match x with Ok _ => Ok (next r p why) | Err m => Err (TxStore m) end.
Proof.
  intros (x & l & -> & Ht). exists x. destruct x; simpl in Ht; by destruct Ht as [-> ->].
Qed.

Lemma traces_terminate r p error tr res :
  traces (terminate tgt r p error) tr res →
  ∃ x, tr = [existT (OAppend tgt (next r p (transaction_error_display error))) x].
Proof.
  intros (x & l & -> & Ht). exists x. destruct x; simpl in Ht; by destruct Ht as [-> ->].
Qed.

Lemma traces_uncertain r why tr res :
  traces (uncertain tgt r why) tr res →
  ∃ x, tr = [existT (OEscalate tgt r why) x]
       ∧ res = match x with Ok _ => Err (TxUncertain why) | Err m => Err (TxStore m) end.
Proof.
  intros (x & l & -> & Ht). exists x. destruct x; simpl in Ht; by destruct Ht as [-> ->].
Qed.

Lemma traces_finished p tr res :
  traces (finished p) tr res ↔ ∃ r, res = Some r ∧ traces p tr r.
Proof.
  unfold finished. rewrite traces_bind. split.
  - intros (ta & tb & r & -> & Ht & -> & ->). exists r. by rewrite app_nil_r.
  - intros (r & -> & Ht). exists tr, [], r. by rewrite app_nil_r.
Qed.

(** The first event of a conversation with an execution in it is not the execution. *)
Lemma strip_first e l tr1 e' tr2 :
  e :: l = tr1 ++ e' :: tr2 → is_execute e = false → is_execute e' = true →
  ∃ k, tr1 = e :: k ∧ l = k ++ e' :: tr2.
Proof. destruct tr1; intros; simplify_eq/=; [congruence|eauto]. Qed.

Lemma cons_eq {A} (x y : A) l k : x :: l = y :: k → x = y ∧ l = k.
Proof. by intros [= -> ->]. Qed.

(** The answer of an execution. *)
Definition execution_answer (e : Ev Ans) : option (Action * result ExecutionError ExecutionOutput) :=
  match projT1 e as o return Ans o → option (Action * result ExecutionError ExecutionOutput) with
  | OExecute a => λ x, Some (a, x)
  | _ => λ _, None
  end (projT2 e).

Lemma execute_event_inj a1 x1 a2 x2 :
  (existT (OExecute a1) x1 : Ev Ans) = existT (OExecute a2) x2 → a1 = a2 ∧ x1 = x2.
Proof. intros He. apply (f_equal execution_answer) in He. by simplify_eq/=. Qed.

Lemma commit_executes fuel r base conf tr1 a' x tr2 res :
  (∀ e, e ∈ tr1 → is_execute e = false) →
  traces (commit fuel tgt r base conf a) (tr1 ++ existT (OExecute a') x :: tr2) res →
  ∃ live, let rb := next r Phase.Begun "commit boundary entered" in
    a' = a ∧ tr1 = [existT ORead (Ok live); existT (OAppend tgt rb) (Ok tt)]
    ∧ usable a live ∧ consistent conf live ∧ traces (after_execution fuel rb base x) tr2 res.
Proof.
  unfold commit. intros Hq (ta & tb & live & Heq & Hr & Ht)%traces_bind.
  apply traces_revalidate in Hr as (y & -> & ->). symmetry in Heq.
  apply strip_first in Heq as (k & -> & ->); [|done..].
  assert (∀ r' e, traces (finished (terminate tgt r' Phase.Failed e))
    (k ++ existT (OExecute a') x :: tr2) res → False) as Hno.
  { intros r' e (z & _ & (u & Hz)%traces_terminate)%traces_finished.
    by destruct k as [|? [|]]; simplify_eq/=. }
  destruct y as [live|m]; [|by apply Hno in Ht].
  destruct (check_live a (Some conf) live) as [live'|e] eqn:Hc; [|by apply Hno in Ht].
  apply check_live_Ok in Hc as (-> & Hu & Hcons).
  apply traces_bind in Ht as (tc & td & y & Heq & Hp & Ht).
  apply traces_persist in Hp as (z & -> & ->). symmetry in Heq.
  apply strip_first in Heq as (k' & -> & ->); [|done..].
  destruct z as [[]|m]; [|destruct Ht as [Hnil _]; by destruct k'].
  destruct Ht as (out & l & Heq & Ht). destruct k' as [|e' k'].
  - apply cons_eq in Heq as [Hh ->]. apply execute_event_inj in Hh as [-> ->].
    exists live. by cbn zeta; split_and!.
  - apply cons_eq in Heq as [He _]. assert (is_execute e' = false) as Hx by (apply Hq; rewrite !elem_of_cons; auto).
    by rewrite He in Hx.
Qed.

Lemma run_prefix fuel tr1 a' x tr2 res :
  traces (run fuel tgt own a rc) (tr1 ++ existT (OExecute a') x :: tr2) res →
  ∃ base wall conf now snap live,
    tr1 = commit_prefix base wall conf now snap live ∧ authorized_on base wall conf live
    ∧ traces (after_execution fuel (next (claimed_record base now snap) Phase.Begun
        "commit boundary entered") base x) tr2 res.
Proof.
  intros Ht. destruct (run_executes_guarded _ _ _ _ _ _ _ _ _ _ Ht) as (_ & _ & Hq).
  assert (∀ e, e ∈ tr1 → is_execute e = false) as Hq1 by set_solver. clear Hq.
  unfold run in Ht. destruct (validate_action a) as [[]|e]; [|destruct Ht; by destruct tr1].
  apply traces_bind in Ht as (ta & tb & y & Heq & Hr & Ht).
  apply traces_revalidate in Hr as (z & -> & ->). symmetry in Heq.
  apply strip_first in Heq as (k1 & -> & ->); [|done..].
  destruct z as [base|m]; [|destruct Ht; by destruct k1].
  destruct (check_live a None base) as [base'|e] eqn:Hc1; [|destruct Ht; by destruct k1].
  apply check_live_Ok in Hc1 as (-> & Hu1 & _).
  destruct Ht as (wall & l & Heq & Ht). symmetry in Heq.
  apply strip_first in Heq as (k2 & -> & ->); [|done..]. cbn [bind] in Ht.
  destruct (authorize a (policy_context base rc wall)) as [[]|m] eqn:Hau;
    [|destruct Ht; by destruct k2].
  apply traces_bind in Ht as (tc & td & y & Heq & Hr & Ht).
  apply traces_revalidate in Hr as (z & -> & ->). symmetry in Heq.
  apply strip_first in Heq as (k3 & -> & ->); [|done..].
  destruct z as [conf|m]; [|destruct Ht; by destruct k3].
  destruct (check_live a (Some base) conf) as [conf'|e] eqn:Hc2; [|destruct Ht; by destruct k3].
  apply check_live_Ok in Hc2 as (-> & Hu2 & Hcons).
  destruct Ht as (now & l & Heq & Ht). symmetry in Heq.
  apply strip_first in Heq as (k4 & -> & ->); [|done..]. cbn [bind] in Ht.
  destruct (snapshot_json _ _ _) as [snap|m]; [|destruct Ht; by destruct k4].
  destruct Ht as (c & l & Heq & Ht). symmetry in Heq.
  apply strip_first in Heq as (k5 & -> & ->); [|done..]. cbn [bind] in Ht.
  destruct c as [[]|m]; [|destruct Ht; by destruct k5..].
  apply commit_executes in Ht as (live & _ & -> & Hu3 & Hc3 & Ht); [|set_solver].
  exists base, wall, conf, now, snap, live. by split_and!.
Qed.

(** ** How a transaction that may have had an effect ends *)
Definition is_poll (e : Ev Ans) : bool :=
  match projT1 e with OReadVerification _ => true | _ => false end.

(** The last call of the conversation [tr] is the durable record of the result
    [res] of the transaction with record [r0]; [None] is a loop that polled [fuel]
    times. *)
Definition closes (fuel : nat) (r0 : ActionRecord) (res : option TxResult) (tr : list (Ev Ans))
    : Prop :=
  match res with
  | Some (Ok r) =>
      phase r = Phase.Succeeded ∧ same_tx r0 r ∧ last tr = Some (existT (OAppend tgt r) (Ok tt))
  | Some (Err (TxUncertain why)) =>
      ∃ r h, same_tx r0 r ∧ last tr = Some (existT (OEscalate tgt r why) (Ok h))
  | Some (Err (TxStore m)) =>
      ∃ r, same_tx r0 r
        ∧ ((∃ why, last tr = Some (existT (OEscalate tgt r why) (Err m)))
           ∨ phase r = Phase.Succeeded ∧ last tr = Some (existT (OAppend tgt r) (Err m)))
  | Some (Err _) => False
  | None => length (List.filter is_poll tr) = fuel
  end.

Lemma last_app_Some {A} (l1 l2 : list A) x : last l2 = Some x → last (l1 ++ l2) = Some x.
Proof. intros Hl. by rewrite last_app, Hl. Qed.

Lemma closes_cons fuel r0 res e tr :
  closes fuel r0 res tr →
  closes (if is_poll e then S fuel else fuel) r0 res (e :: tr).
Proof.
  assert (∀ x, last tr = Some x → last (e :: tr) = Some x) as Hl
    by (intros x Hx; by apply (last_app_Some [e])).
  destruct res as [[r|[]]|]; cbn [closes]; try naive_solver.
  simpl. by destruct (is_poll e); simpl; intros ->.
Qed.

Lemma closes_quiet fuel r0 res e tr :
  is_poll e = false → closes fuel r0 res tr → closes fuel r0 res (e :: tr).
Proof. intros He Hc%(closes_cons _ _ _ e). by rewrite He in Hc. Qed.

Lemma closes_poll fuel r0 res e tr :
  is_poll e = true → closes fuel r0 res tr → closes (S fuel) r0 res (e :: tr).
Proof. intros He Hc%(closes_cons _ _ _ e). by rewrite He in Hc. Qed.

Lemma uncertain_closes fuel r0 r why tr res :
  same_tx r0 r → traces (finished (uncertain tgt r why)) tr res → closes fuel r0 res tr.
Proof.
  intros Hs (z & -> & (x & -> & ->)%traces_uncertain)%traces_finished.
  destruct x; simpl; eauto 8.
Qed.

Lemma succeeded_closes fuel r0 r why tr res :
  same_tx r0 r → traces (finished (persist tgt r Phase.Succeeded why)) tr res →
  closes fuel r0 res tr.
Proof.
  intros Hs (z & -> & (x & -> & ->)%traces_persist)%traces_finished.
  destruct x as [[]|]; simpl; [done|].
  exists (next r Phase.Succeeded why). split; [done|]. by right.
Qed.

Lemma verify_loop_closes fuel r0 r base deadline tr res :
  same_tx r0 r → traces (verify_loop fuel tgt r base deadline a) tr res → closes fuel r0 res tr.
Proof.
  intros Hs. revert tr. induction fuel as [|fuel IH]; intros tr; [by intros [-> ->]|].
  cbn [verify_loop]. intros (x & l & -> & Ht). apply closes_poll; [done|].
  destruct x as [after|m]; [|by eapply uncertain_closes, Ht].
  cbn [bind] in Ht. destruct (_ || _); [by eapply uncertain_closes|].
  destruct (verified _ _ _); [by eapply succeeded_closes|].
  destruct Ht as (now & l' & -> & Ht). cbn [bind] in Ht.
  apply closes_quiet; [done|]. destruct (deadline <=? now); [by eapply uncertain_closes|].
  destruct Ht as (u & l'' & -> & Ht). apply closes_quiet; [done|]. by apply IH.
Qed.

Lemma after_execution_closes fuel r base x tr res :
  (∃ out, x = Ok out) ∨ (∃ m, x = Err (PossibleSideEffect m)) →
  traces (after_execution fuel r base x) tr res → closes fuel r res tr.
Proof.
  intros [[out ->]|[m ->]] Ht; [|by eapply uncertain_closes, Ht]. cbn [after_execution] in Ht.
  apply traces_bind in Ht as (ta & tb & y & -> & (z & -> & ->)%traces_persist & Ht).
  apply closes_quiet; [done|]. destruct z as [[]|m]; [|by eapply uncertain_closes, Ht].
  unfold verify_outcome in Ht. destruct (negb _); [by eapply uncertain_closes, Ht|].
  destruct (negb _); [by eapply succeeded_closes, Ht|].
  apply traces_bind in Ht as (tc & td & y & -> & (z & -> & ->)%traces_persist & Ht).
  apply closes_quiet; [done|]. destruct z as [[]|m]; [|by eapply uncertain_closes, Ht].
  destruct Ht as (now & l & -> & Ht). apply closes_quiet; [done|]. by eapply verify_loop_closes, Ht.
Qed.
End Shape.

(** ** A concrete world

    A handler for the trait calls: the ledger of [ActionStore] with a fixed
    write outcome, a millisecond clock advanced by sleeping, evidence served from a list
    (its last element repeats) and an executor with a fixed answer. *)
Record World : Type := mkWorld {
  w_store : DurableLedger;
  w_now : N;
  w_evidence : list LiveEvidence;
  w_answer : result ExecutionError ExecutionOutput;
  w_alive : bool;
  w_write : WriteOutcome;
}.

Definition world_store (w : World) (st : DurableLedger) : World :=
  mkWorld st (w_now w) (w_evidence w) (w_answer w) (w_alive w) (w_write w).

Definition world_read (w : World) : World * result string LiveEvidence :=
  match w_evidence w with
  | [] => (w, Err "no evidence")
  | [e] => (w, Ok e)
  | e :: es => (mkWorld (w_store w) (w_now w) es (w_answer w) (w_alive w) (w_write w), Ok e)
  end.

Definition world (o : Op) : World → World * Ans o :=
  match o return World → World * Ans o with
  | ORead | OReadVerification _ => world_read
  | OWallTime => λ w, (w, "1970-01-01T00:00:00Z")
  | OMono => λ w, (w, Z.of_N (w_now w))
  | OSleep ms => λ w,
      (mkWorld (w_store w) (w_now w + Z.to_N ms)%N (w_evidence w) (w_answer w) (w_alive w) (w_write w), tt)
  | OClaim t r => λ w,
      let '(st, b) := claim_prepared (w_write w) t r (w_store w) in (world_store w st, b)
  | OAppend t r => λ w,
      let '(st, b) := append (w_write w) t r (w_store w) in (world_store w st, b)
  | OEscalate t r why => λ w,
      let '(st, b) := escalate_uncertain (w_write w) t r why (w_store w) in (world_store w st, b)
  | OActive t => λ w, (w, Ok (store_active (w_store w) t))
  | OExecute _ => λ w, (w, w_answer w)
  | OProbe _ => λ w, (w, w_alive w)
  end.

#[local] Instance epoch_rfc3339 : Rfc3339 := λ s, if is_empty s then None else Some 0.
#[local] Instance plain_rendering : Rendering := mkRendering (λ _ _ _, Ok "{}") (λ _, "done").

Definition sample_event (c : EventCategory) (fp : string) : Event :=
  {| schema_version := "1.0"; event_id := "e1"; observed_at := "1970-01-01T00:00:00Z";
     monotonic_sequence := None; watcher_id := "w1"; target_identity_hash := "h";
     agent_id := None; session_id := None; provider_family := None;
     source := mkEventSource Source.ScreenDetection "codex" "goal_paused" None;
     category := c; confidence := f64_zero; terminal := false;
     evidence_fingerprint := fp; summary := "s"; redacted_evidence := None; reset := None;
     policy_hint := Hint.DeterministicActionAllowed; supersedes_event_id := None; metadata := ∅ |}.

Definition sample_live (c : EventCategory) (fp : string) : LiveEvidence :=
  mkLive "target" true true true true true false (sample_event c fp).

Definition sample_action : Action :=
  set_outcomes (submit_text "act" "/goal resume" "resume the paused goal" "f1")
    [mkCondition "AGENT_WORKING" None].

Definition sample_context : RecoveryContext :=
  mkRecoveryContext 2 300 1 false true None None None.

(** Blocked for the three reads before the commit and the first poll, working
    afterwards. *)
Definition sample_world : World :=
  mkWorld fresh_store 0
    [sample_live Category.UsageLimit "f1"; sample_live Category.UsageLimit "f1";
     sample_live Category.UsageLimit "f1"; sample_live Category.UsageLimit "f1";
     sample_live Category.Working "f2"] (Ok Committed) false WriteOk.

Definition sample_run : list (Ev Ans) * option TxResult :=
  converse world (run 10 "w1" (mkOwner 10 20 "n") sample_action sample_context) sample_world.

Lemma sample_traces :
  traces (run 10 "w1" (mkOwner 10 20 "n") sample_action sample_context)
    sample_run.1 sample_run.2.
Proof. exact (converse_traces world _ _). Qed.

Lemma sample_traces_split :
  traces (run 10 "w1" (mkOwner 10 20 "n") sample_action sample_context)
    (take 7 sample_run.1
       ++ existT (OExecute sample_action) (Ok Committed) :: drop 8 sample_run.1) sample_run.2.
Proof.
  assert (∀ tr tr' : list (Ev Ans), tr = tr' →
    traces (run 10 "w1" (mkOwner 10 20 "n") sample_action sample_context) tr sample_run.2 →
    traces (run 10 "w1" (mkOwner 10 20 "n") sample_action sample_context) tr' sample_run.2)
    as Hc by (by intros ? ? <-).
  apply (Hc sample_run.1); [by vm_compute|exact sample_traces].
Qed.

Lemma sample_succeeds :
  ∃ r, traces (run 10 "w1" (mkOwner 10 20 "n") sample_action sample_context)
         sample_run.1 (Some (Ok r)).
Proof.
  assert (∀ res, traces (run 10 "w1" (mkOwner 10 20 "n") sample_action sample_context)
    sample_run.1 res → (∃ r, res = Some (Ok r)) → ∃ r, traces (run 10 "w1"
    (mkOwner 10 20 "n") sample_action sample_context) sample_run.1 (Some (Ok r))) as Hc
    by (intros res ? [r ->]; by exists r).
  apply (Hc _ sample_traces). eexists. by vm_compute.
Qed.

(** ** Safety *)

(** C2: whatever the store, evidence reader, executor and clock answer, a
    transaction hands its action to the executor at most once, and the calls before
    that are exactly these: a reading [base], the wall clock [wall], a second reading
    [conf], the monotonic clock, the granted claim of a prepared record whose key is
    built from [base], a third reading [live] and the durable [Begun] record.  The
    policy authorised the action on that [base] and that [wall], and the three
    readings are each revalidated, alive, current and untouched by a human and agree
    with each other. *)
Theorem execute_once_behind_commit {rfc : Rfc3339} {render : Rendering}
    fuel tgt own a rc tr1 a' x tr2 res :
  traces (run fuel tgt own a rc) (tr1 ++ existT (OExecute a') x :: tr2) res →
  a' = a
  ∧ (∃ base wall conf now snap live,
       tr1 = commit_prefix tgt own a base wall conf now snap live
       ∧ authorized_on a rc base wall conf live)
  ∧ ∀ e, e ∈ tr1 ++ tr2 → is_execute e = false.
Proof.
  intros Ht. destruct (run_executes_guarded _ _ _ _ _ _ _ _ _ _ Ht) as (-> & _ & Hno).
  apply run_prefix in Ht as (base & wall & conf & now & snap & live & ? & ? & _).
  split; [done|]. split; [|done]. by exists base, wall, conf, now, snap, live.
Qed.

Lemma execute_once_behind_commit_witness :
  ∃ base wall conf now snap live,
    take 7 sample_run.1
      = commit_prefix "w1" (mkOwner 10 20 "n") sample_action base wall conf now snap live
    ∧ authorized_on sample_action sample_context base wall conf live.
Proof.
  refine (proj1 (proj2 (execute_once_behind_commit 10 "w1" (mkOwner 10 20 "n") sample_action
    sample_context (take 7 sample_run.1) sample_action (Ok Committed)
    (drop 8 sample_run.1) sample_run.2 _))).
  exact sample_traces_split.
Defined.

(** C5: once the executor reports success or a possible side effect, the
    transaction is never recorded as [Failed] (which would allow a retry).  Its last
    call is the durable record of its result, for the record it claimed: a
    [Succeeded] record, the escalation to a human the store accepted, or the one of
    these two the store refused, whose error is then the result.  Only a loop that
    polled [fuel] times has no result. *)
Theorem possible_effect_never_failed {rfc : Rfc3339} {render : Rendering}
    fuel tgt own a rc tr1 a' x tr2 res :
  traces (run fuel tgt own a rc) (tr1 ++ existT (OExecute a') x :: tr2) res →
  ((∃ out, x = Ok out) ∨ (∃ m, x = Err (PossibleSideEffect m))) →
  (∀ e, e ∈ tr2 → is_failed_append e = false)
  ∧ ∃ r0, existT (OClaim tgt r0) (Ok true) ∈ tr1 ∧ closes tgt fuel r0 res tr2.
Proof.
  intros Ht Hx. split.
  - apply split_at_execute in Ht as (-> & base & r & _ & _ & _ & Hob & _).
    apply (touched_trace _ _ _ _ _ _ Hob). by destruct Hx as [[out ->]|[m ->]].
  - apply run_prefix in Ht as (base & wall & conf & now & snap & live & -> & _ & Ht).
    exists (claimed_record tgt own a base now snap).
    split; [unfold commit_prefix; set_solver|].
    apply (after_execution_closes _ _ _ _ _ _ _ _ Hx) in Ht. by destruct res as [[?|[]]|].
Qed.

Lemma possible_effect_never_failed_witness :
  length (drop 8 sample_run.1) = 8%nat
  ∧ (∀ e, e ∈ drop 8 sample_run.1 → is_failed_append e = false)
  ∧ ∃ r0, existT (OClaim "w1" r0) (Ok true) ∈ take 7 sample_run.1
      ∧ closes "w1" 10 r0 sample_run.2 (drop 8 sample_run.1).
Proof.
  split; [vm_compute; reflexivity|].
  exact (possible_effect_never_failed 10 "w1" (mkOwner 10 20 "n") sample_action
    sample_context (take 7 sample_run.1) sample_action (Ok Committed)
    (drop 8 sample_run.1) sample_run.2 sample_traces_split (or_introl (ex_intro _ _ eq_refl))).
Defined.

(** C6: [run] returns [Ok] only with a durably appended [Succeeded] record of a
    transaction that was claimed, authorised and begun; and when the action needs
    progress verification, only after a verification reading with the baseline's
    identity, no human intervention and evidence that verifies an expected
    outcome. *)
Theorem success_is_durable_and_verified {rfc : Rfc3339} {render : Rendering}
    fuel tgt own a rc tr r :
  traces (run fuel tgt own a rc) tr (Some (Ok r)) →
  phase r = Phase.Succeeded ∧ existT (OAppend tgt r) (Ok tt) ∈ tr
  ∧ ∃ base, grounded tgt a rc base r tr ∧ begun_in tgt a r tr
      ∧ (needs_progress_verification (kind a) (expected_outcomes a) = true →
           verified_in a base tr).
Proof. apply run_succeeds_verified. Qed.

Lemma success_is_durable_and_verified_witness :
  ∃ r, phase r = Phase.Succeeded ∧ existT (OAppend "w1" r) (Ok tt) ∈ sample_run.1.
Proof.
  destruct sample_succeeds as [r Htr]. exists r.
  destruct (success_is_durable_and_verified 10 "w1" (mkOwner 10 20 "n")
    sample_action sample_context sample_run.1 r Htr) as (Hp & Hin & _).
  exact (conj Hp Hin).
Defined.

(** ** Termination

    The polling loop is bounded by the clock, not by a counter, so termination is
    relative to the documented behaviour of [Clock]: the monotonic reading never
    decreases and sleeping advances it by at least the requested time. *)
Record clock_laws {S} (h : ∀ o, S → S * Ans o) (clock : S → Z) : Prop := {
  cl_read : ∀ s, (h OMono s).2 = clock s;
  cl_mono : ∀ o s, clock s ≤ clock (h o s).1;
  cl_sleep : ∀ ms s, clock s + ms ≤ clock (h (OSleep ms) s).1;
}.

Section Termination.
Context {rfc : Rfc3339} {render : Rendering}.
Context {S : Type} (h : ∀ o, S → S * Ans o) (clock : S → Z) (laws : clock_laws h clock).

Definition returns {A} (p : TxProg (option A)) (s : S) : Prop := is_Some (interp h p s).2.

Lemma returns_finished p s : returns (finished p) s.
Proof.
  unfold returns, finished. rewrite interp_bind. destruct (interp h p s). by eexists.
Qed.

Lemma returns_ret {A} (x : A) s : returns (Ret (Some x)) s.
Proof. by eexists. Qed.

Lemma returns_bind {A B} (p : TxProg A) (f : A → TxProg (option B)) s :
  (∀ s' a, returns (f a) s') → returns (bind p f) s.
Proof. intros Hf. unfold returns. rewrite interp_bind. destruct (interp h p s). apply Hf. Qed.

Lemma returns_call {B} o (k : Ans o → TxProg (option B)) s :
  (∀ s' x, h o s = (s', x) → returns (k x) s') → returns (bind (call o) k) s.
Proof. intros Hk. unfold returns. simpl. destruct (h o s) as [s' x]. by apply Hk. Qed.

Lemma verify_loop_returns fuel tgt r base deadline a s :
  (1 ≤ fuel)%nat → deadline - clock s ≤ POLL_MS * (Z.of_nat fuel - 1) →
  returns (verify_loop fuel tgt r base deadline a) s.
Proof.
  revert s. induction fuel as [|fuel IH]; intros s H1 Hd; [lia|]. cbn [verify_loop].
  apply returns_call. intros s1 [e|m] E1; [|apply returns_finished].
  destruct (_ || _); [apply returns_finished|].
  destruct (verified _ _ _); [apply returns_finished|].
  apply returns_call. intros s2 now E2.
  destruct (Z.leb_spec deadline now) as [?|Hlt]; [apply returns_finished|].
  apply returns_call. intros s3 [] E3.
  pose proof (cl_mono _ _ laws (OReadVerification base) s) as M1.
  pose proof (cl_mono _ _ laws OMono s1) as M2. pose proof (cl_read _ _ laws s1) as M3.
  pose proof (cl_sleep _ _ laws POLL_MS s2) as M4.
  rewrite E1 in M1. rewrite E2 in M2, M3. rewrite E3 in M4. simpl in *.
  unfold POLL_MS in *. apply IH; lia.
Qed.

Lemma deadline_bound now t :
  0 ≤ now → 0 ≤ t →
  saturating_add u64_max now (saturating_mul u64_max t 1000) ≤ now + t * 1000.
Proof. unfold saturating_add, saturating_mul. lia. Qed.

Lemma verify_outcome_returns fuel tgt r base a out s :
  (∀ s, 0 ≤ clock s) → 0 ≤ timeout_seconds a →
  timeout_seconds a * 10 + 1 ≤ Z.of_nat fuel →
  returns (verify_outcome fuel tgt r base a out) s.
Proof.
  intros Hc Ht Hf. unfold verify_outcome. destruct (negb _); [apply returns_finished|].
  destruct (negb _); [apply returns_finished|].
  apply returns_bind. intros s1 [r'|e]; [|apply returns_finished].
  apply returns_call. intros s2 now E. apply verify_loop_returns; [lia|].
  pose proof (cl_read _ _ laws s1) as M1. pose proof (cl_mono _ _ laws OMono s1) as M2.
  rewrite E in M1, M2. simpl in *. pose proof (Hc s1).
  pose proof (deadline_bound now (timeout_seconds a)). unfold POLL_MS. lia.
Qed.

Lemma commit_returns fuel tgt r base conf a s :
  (∀ s, 0 ≤ clock s) → 0 ≤ timeout_seconds a →
  timeout_seconds a * 10 + 1 ≤ Z.of_nat fuel →
  returns (commit fuel tgt r base conf a) s.
Proof.
  intros Hc Ht Hf. unfold commit.
  apply returns_bind. intros ? [live|e]; [|apply returns_finished].
  apply returns_bind. intros ? [r1|e]; [|apply returns_ret].
  apply returns_bind. intros ? [out|[m|m|m]]; try apply returns_finished.
  apply returns_bind. intros ? [r2|e]; [|apply returns_finished].
  by apply verify_outcome_returns.
Qed.

Lemma run_returns fuel tgt own a rc s :
  (∀ s, 0 ≤ clock s) → 0 ≤ timeout_seconds a →
  timeout_seconds a * 10 + 1 ≤ Z.of_nat fuel →
  returns (run fuel tgt own a rc) s.
Proof.
  intros Hc Ht Hf. unfold run. destruct (validate_action a) as [[]|e]; [|apply returns_ret].
  apply returns_bind. intros ? [base|e]; [|apply returns_ret].
  apply returns_bind. intros ? wall.
  destruct (authorize _ _) as [[]|m]; [|apply returns_ret].
  apply returns_bind. intros ? [conf|e]; [|apply returns_ret].
  apply returns_bind. intros ? now.
  destruct (snapshot_json _ _ _) as [snap|m]; [|apply returns_ret].
  apply returns_bind. intros ? [[]|m]; [|apply returns_ret..].
  by apply commit_returns.
Qed.
End Termination.

(** C7: [run] terminates: against any environment whose monotonic clock does not
    go backwards and whose sleep lasts at least as long as asked, the 100 ms
    polling loop ends within ten iterations per second of the action's timeout, so
    that fuel of [10 * timeout_seconds + 1] always produces a result. *)
Theorem run_terminates {rfc : Rfc3339} {render : Rendering} {S} (h : ∀ o, S → S * Ans o)
    (clock : S → Z) fuel tgt own a rc s :
  clock_laws h clock → (∀ s, 0 ≤ clock s) → 0 ≤ timeout_seconds a →
  timeout_seconds a * 10 + 1 ≤ Z.of_nat fuel →
  is_Some (interp h (run fuel tgt own a rc) s).2.
Proof. intros. by apply (run_returns h clock). Qed.

Lemma world_clock : clock_laws world (λ w, Z.of_N (w_now w)).
Proof.
  split; [done| |simpl; lia].
  intros o w. destruct o; simpl; try lia.
  - unfold world_read. destruct (w_evidence w) as [|e [|e' es]]; simpl; lia.
  - unfold world_read. destruct (w_evidence w) as [|e [|e' es]]; simpl; lia.
  - destruct (claim_prepared _ _ _ _). simpl. lia.
  - destruct (append _ _ _ _). simpl. lia.
  - destruct (escalate_uncertain _ _ _ _ _). simpl. lia.
Qed.

(** An environment that never shows progress: the loop runs into its deadline. *)
Lemma run_terminates_witness :
  is_Some (interp world (run 301 "w1" (mkOwner 10 20 "n") sample_action sample_context)
    (mkWorld fresh_store 0 [sample_live Category.UsageLimit "f1"] (Ok Committed) false WriteOk)).2.
Proof.
  apply (run_terminates world (λ w, Z.of_N (w_now w)));
    [exact world_clock|intros w; lia|done|].
  change (timeout_seconds sample_action) with 30. lia.
Defined.

(** ** Recovery of abandoned transactions *)

(** The phase that closes a record found after its owner is gone. *)
Definition closing_phase (p : ActionPhase) : ActionPhase :=
  if bool_decide (p = Phase.Prepared) then Phase.Failed else Phase.HumanRequired.

(** [r'] closes the active record [r] of [t] between two worlds. *)
Definition closed (t : string) (w w' : World) (r r' : ActionRecord) : Prop :=
  same_tx r r' ∧ phase r' = closing_phase (phase r)
  ∧ store_active (w_store w') t = None
  ∧ store_audit (w_store w') t = store_audit (w_store w) t ++ [r'].

Lemma cas_matches_next r p why : cas_matches r (next r p why) = true.
Proof. unfold cas_matches. simpl. by rewrite !String.eqb_refl. Qed.

Lemma closing_terminal p : is_terminal (closing_phase p) = true.
Proof. by destruct p. Qed.

Lemma append_closing w t r why :
  store_wf (w_store w) → store_active (w_store w) t = Some r →
  match w_write w with
  | WriteOk => ∃ st', append WriteOk t (next r (closing_phase (phase r)) why) (w_store w)
                        = (st', Ok tt)
                 ∧ store_wf st'
                 ∧ closed t w (world_store w st') r (next r (closing_phase (phase r)) why)
  | WriteErr b m => ∃ st', append (WriteErr b m) t (next r (closing_phase (phase r)) why)
                             (w_store w) = (st', Err m)
                      ∧ store_wf st' ∧ mem st' = mem (w_store w)
  end.
Proof.
  intros Hwf Ha. set (nr := next r _ why).
  assert (cas_matches r nr = true) as Hcas by apply cas_matches_next.
  destruct (append (w_write w) t nr (w_store w)) as [st' b] eqn:E.
  pose proof (append_wf _ _ _ _ _ _ Hwf E) as (Hwf' & _ & Hok & Herr).
  assert (b = match w_write w with WriteOk => Ok tt | WriteErr _ m => Err m end) as ->.
  { unfold append in E. unfold store_active in Ha. rewrite Ha, Hcas in E.
    cbn [negb] in E. destruct (w_write w); by simplify_eq/=. }
  destruct (w_write w) as [|ren m]; exists st'; (split; [done|]); (split; [done|]);
    [|by apply Herr].
  destruct Hok as (cur & _ & _ & Haud & Hact); [done|].
  split; [done|]. split; [done|]. simpl. rewrite Hact, Haud.
  change (phase nr) with (closing_phase (phase r)). by rewrite closing_terminal.
Qed.

(** After a restart the store's active record of a target is closed exactly
    once and never re-executed: a [Prepared] record becomes [Failed] (nothing was
    sent), any later phase becomes [HumanRequired]; the audit grows by that one
    record and the target is free.  If the write fails, the record stays active. *)
Theorem restart_closes_active w t :
  store_wf (w_store w) →
  let '(w', res) := interp world (recover_after_restart t) w in
  store_wf (w_store w')
  ∧ match store_active (w_store w) t, w_write w with
    | None, _ => res = Ok None ∧ w' = w
    | Some r, WriteOk => ∃ r', res = Ok (Some r') ∧ closed t w w' r r'
    | Some r, WriteErr _ m =>
        res = Err (TxStore m) ∧ store_active (w_store w') t = Some r
    end.
Proof.
  intros Hwf. cbn [interp recover_after_restart tx_try store_call bind call world].
  destruct (store_active (w_store w) t) as [r|] eqn:Ha; cbn [map_err interp]; [|done].
  destruct (if bool_decide (phase r = Phase.Prepared) then _ else _) as [p why] eqn:Hp.
  assert (p = closing_phase (phase r)) as ->
    by (unfold closing_phase; by case_bool_decide; simplify_eq).
  pose proof (append_closing w t r why Hwf Ha) as Hc.
  cbn [interp tx_try store_call bind call world].
  destruct (w_write w) as [|b m]; destruct Hc as (st' & -> & Hwf' & Hc);
    cbn [interp bind map_err]; (split; [done|]).
  - eexists. split; [done|]. exact Hc.
  - split; [done|]. unfold store_active in *. simpl. by rewrite Hc.
Qed.

(** A store whose target [w1] holds a record that crossed the commit boundary. *)
Definition begun_store : DurableLedger :=
  (append WriteOk "w1" (next (sample_record "k1") Phase.Begun "b")
     (claim_prepared WriteOk "w1" (sample_record "k1") fresh_store).1).1.

Lemma begun_store_wf : store_wf begun_store.
Proof.
  unfold begun_store.
  destruct (claim_prepared WriteOk "w1" (sample_record "k1") fresh_store) as [st b] eqn:E1.
  apply claim_wf in E1 as [Hwf _]; [|exact fresh_store_wf|done]. simpl.
  destruct (append _ _ _ st) as [st' b'] eqn:E2. by apply append_wf in E2 as [? _].
Qed.

Definition begun_world (now : N) (alive : bool) : World :=
  mkWorld begun_store now [] (Err (Unsafe "unused")) alive WriteOk.

Lemma restart_closes_active_witness :
  ∃ r', (interp world (recover_after_restart "w1") (begun_world 0 false)).2 = Ok (Some r')
        ∧ phase r' = Phase.HumanRequired.
Proof.
  pose proof (restart_closes_active (begun_world 0 false) "w1" begun_store_wf) as Hc.
  destruct (interp world (recover_after_restart "w1") (begun_world 0 false)) as [w' res].
  destruct Hc as [_ (r' & -> & _ & Hp & _)]. exists r'. split; [done|exact Hp].
Defined.

(** [recover_stale] takes a transaction over only when its lease has expired
    and the owner identity is dead; otherwise it reports the active owner and
    changes nothing.  A takeover closes the record as a restart does, never
    re-executing it. *)
Theorem stale_takeover_needs_dead_owner w t :
  store_wf (w_store w) →
  let '(w', res) := interp world (recover_stale t) w in
  store_wf (w_store w')
  ∧ match store_active (w_store w) t with
    | None => res = Ok None ∧ w' = w
    | Some r =>
        if (Z.of_N (w_now w) <=? lease_deadline_ms r) || w_alive w
        then res = Err TxActiveOwner ∧ w' = w
        else match w_write w with
             | WriteOk => ∃ r', res = Ok (Some r') ∧ closed t w w' r r'
             | WriteErr _ m => res = Err (TxStore m) ∧ store_active (w_store w') t = Some r
             end
    end.
Proof.
  intros Hwf. cbn [interp recover_stale tx_try store_call bind call world].
  destruct (store_active (w_store w) t) as [r|] eqn:Ha; cbn [map_err interp]; [|done].
  cbn [interp bind call world].
  destruct (_ <=? _); cbn [interp bind call world orb]; [done|].
  destruct (w_alive w); cbn [interp orb]; [done|].
  fold (closing_phase (phase r)).
  pose proof (append_closing w t r "expired lease owned by a different pid/start identity"
    Hwf Ha) as Hc.
  cbn [interp tx_try store_call bind call world].
  destruct (w_write w) as [|b m]; destruct Hc as (st' & -> & Hwf' & Hc);
    cbn [interp bind map_err]; (split; [done|]).
  - eexists. split; [done|]. exact Hc.
  - split; [done|]. unfold store_active in *. simpl. by rewrite Hc.
Qed.

Lemma stale_takeover_needs_dead_owner_witness :
  (interp world (recover_stale "w1") (begun_world 30005 false)).2 = Err TxActiveOwner
  ∧ ∃ r', (interp world (recover_stale "w1") (begun_world 30006 false)).2 = Ok (Some r').
Proof.
  split.
  - pose proof (stale_takeover_needs_dead_owner (begun_world 30005 false) "w1"
      begun_store_wf) as Hc.
    destruct (interp world (recover_stale "w1") (begun_world 30005 false)) as [w' res].
    by destruct Hc as [_ [-> _]].
  - pose proof (stale_takeover_needs_dead_owner (begun_world 30006 false) "w1"
      begun_store_wf) as Hc.
    destruct (interp world (recover_stale "w1") (begun_world 30006 false)) as [w' res].
    destruct Hc as [_ (r' & -> & _)]. by exists r'.
Defined.

(** ** The attempt budget seen by the policy *)

(** The attempt that uses up the budget is denied by policy.  [begin_action]
    counts the attempt before [RecoveryContext::from_watcher] computes what remains,
    so when the machine accepts the [max_attempts]-th attempt the context derived
    from it has no attempt left and [authorize] rejects every action. *)
Theorem last_attempt_denied {rfc : Rfc3339} m fp now m' w mono rc a live wall :
  begin_action m fp now = (m', Ok tt) → attempts m + 1 = max_attempts (budget m) →
  recovery w = Some m' → from_watcher w mono = Ok rc →
  authorize a (policy_context live rc wall) ≠ Ok tt.
Proof.
  intros (_ & _ & _ & _ & _ & ->)%begin_action_Ok Hlast Hw Hrc Hauth.
  apply authorize_sound in Hauth as [_ _ [Hatt _] _ _ _ _ _ _ _]. simpl in Hatt.
  unfold from_watcher in Hrc. rewrite Hw in Hrc. cbn [ok_or rbind] in Hrc.
  destruct (last_observation w) as [e|]; cbn [ok_or rbind] in Hrc; [|done].
  destruct (negb _ || _); simplify_eq/=. apply Hatt. unfold saturating_sub. lia.
Qed.

(** A machine with one attempt in its budget, confirmed and then acting. *)
Definition one_attempt : RecoveryMachine :=
  foldl accept (machine_new (mkBudget 1 (from_secs 300) 1 (from_secs 60)))
    [Revalidated; Confirm "f1"].
Definition acting_watcher : WatcherState :=
  set_observation
    (set_recovery
       (watcher_new "w1" (TProcess (process_identity_new 7 8)) Lifecycle.Observing 1 0)
       (Some (begin_action one_attempt "f1" (mkClock 10 0)).1))
    (Some (sample_event Category.UsageLimit "f1")).

Lemma last_attempt_denied_witness :
  let live := sample_live Category.UsageLimit "f1" in
  ∃ rc, from_watcher acting_watcher 10 = Ok rc
    ∧ authorize sample_action (policy_context live rc "1970-01-01T00:00:00Z") ≠ Ok tt.
Proof.
  eexists. split; [vm_compute; reflexivity|].
  refine (last_attempt_denied one_attempt "f1" (mkClock 10 0)
    (begin_action one_attempt "f1" (mkClock 10 0)).1 acting_watcher 10 _ _ _ _ _ _ _ _);
    vm_compute; reflexivity.
Defined.
