(* ===== verification/Registry.v ===== *)
(** * The watcher registry (src/src/daemon/registry.rs) and the recovery
      coordinator (src/src/recovery/coordinator.rs)

    The registry keeps every watcher in memory and in one JSON file.  An operation
    edits a clone of the map, bumps the watcher's revision, writes the clone and
    only then replaces the map.  The outcome of the write is an argument of each
    operation; [lifecycle_audit] lists the records handed to the lifecycle audit,
    whose own I/O errors the registry only prints. *)
From S2P Require Import Prelude Json Event Identity StateMachine State Store.

Local Open Scope Z_scope.

Inductive RegistryError : Type :=
| RegStore (e : string)
| RegUnknown (id : string)
| RegIdCollision (id : string)
| RegRevisionOverflow (id : string)
| RegCorrupt (why : string).

Module Registration.
Inductive RegistrationOutcome : Type :=
| Added (id : string)
| Existing (id : string)
| Revalidated (id : string).
End Registration.
Abbreviation RegistrationOutcome := Registration.RegistrationOutcome.

Definition RESTART_REVALIDATION_REASON : string :=
  "target revalidation required after daemon restart".

Record DispatchSnapshot : Type := mkDispatch { snapshot_watcher : WatcherState }.

Record PersistedRegistry : Type := mkPersisted {
  persisted_version : Z;
  persisted_watchers : list WatcherState;
}.

Record Registry : Type := mkRegistry {
  reg_file : option PersistedRegistry;
  watchers : gmap string WatcherState;
  audited : bool;
  lifecycle_audit : list (WatcherState * string);
}.

Definition set_watchers (reg : Registry) (m : gmap string WatcherState) : Registry :=
  mkRegistry (reg_file reg) m (audited reg) (lifecycle_audit reg).

(** ** Target comparison *)
Definition target_process (t : TargetIdentity) : ProcessIdentity :=
  match t with TProcess p => p | TMultiplexer _ _ _ p _ _ _ _ => p end.

Definition same_process (l r : ProcessIdentity) : bool :=
  (pid l =? pid r) && (start_time l =? start_time r).

Definition stable_target_eq (l r : TargetIdentity) : bool :=
  match l, r with
  | TProcess lp, TProcess rp => same_process lp rp
  | TMultiplexer lprov lserv lpane lp _ _ _ _, TMultiplexer rprov rserv rpane rp _ _ _ _ =>
      String.eqb lprov rprov && String.eqb lserv rserv && String.eqb lpane rpane
      && same_process lp rp
  | _, _ => false
  end.

Definition exact_process_eq (l r : TargetIdentity) : bool :=
  same_process (target_process l) (target_process r).

Definition is_richer_target (existing fresh : TargetIdentity) : bool :=
  match existing, fresh with
  | TProcess _, TMultiplexer _ _ _ _ _ (Some _) _ false => true
  | _, _ => false
  end.

Definition compatible_attachment {T} `{EqDecision T} (existing fresh : option T) : bool :=
  bool_decide (existing = None) || bool_decide (fresh = None) || bool_decide (existing = fresh).

Definition next_revision (w : WatcherState) : result RegistryError Z :=
  ok_or (checked_add u64_max (revision w) 1) (RegRevisionOverflow (ws_id w)).

Definition lifecycle_message (l : WatcherLifecycle) : string :=
  match l with
  | Lifecycle.Registered | Lifecycle.Observing => "watcher resumed"
  | Lifecycle.Paused => "watcher paused"
  | Lifecycle.Waiting _ _ => "capacity wait scheduled"
  | Lifecycle.HumanRequired _ => "human handoff"
  | Lifecycle.TargetTerminated => "target terminated"
  | Lifecycle.Stopped _ => "watcher stopped"
  | Lifecycle.Recovering _ => "watcher lifecycle changed"
  end.

(** ** Persistence *)
Definition persist_watchers (w : WriteOutcome) (m : gmap string WatcherState) (reg : Registry)
    : Registry * result RegistryError unit :=
  let file := Some (mkPersisted 1 (btree_values m)) in
  match w with
  | WriteOk =>
      (mkRegistry file (watchers reg) (audited reg) (lifecycle_audit reg), Ok tt)
  | WriteErr renamed e =>
      (mkRegistry (if renamed then file else reg_file reg) (watchers reg) (audited reg)
         (lifecycle_audit reg), Err (RegStore e))
  end.

(** [self.persist_watchers(&updated)?; self.watchers = updated]. *)
Definition persist_and_swap (w : WriteOutcome) (m : gmap string WatcherState) (reg : Registry)
    : Registry * result RegistryError unit :=
  match persist_watchers w m reg with
  | (reg, Ok _) => (set_watchers reg m, Ok tt)
  | (reg, Err e) => (reg, Err e)
  end.

Definition audit_lifecycle (id : string) (message : WatcherState → string) (reg : Registry)
    : Registry :=
  match watchers reg !! id with
  | Some w =>
      if audited reg then
        mkRegistry (reg_file reg) (watchers reg) (audited reg)
          (lifecycle_audit reg ++ [(w, message w)])
      else reg
  | None => reg
  end.

(** The common shape of every update: clone the map, edit one watcher, bump its
    revision, stamp it, write the clone, swap. *)
Definition bump (w : WatcherState) (now : Z) : result RegistryError WatcherState :=
  let? r := next_revision w in Ok (set_updated (set_revision w r) now).

Definition edit_watcher {A} (wo : WriteOutcome) (id : string) (now : Z)
    (edit : WatcherState → result RegistryError (WatcherState * A)) (reg : Registry)
    : Registry * result RegistryError A :=
  match watchers reg !! id with
  | None => (reg, Err (RegUnknown id))
  | Some w =>
      match (let? wa := edit w in let? w' := bump wa.1 now in Ok (w', wa.2)) with
      | Err e => (reg, Err e)
      | Ok (w', a) =>
          let '(reg, r) := persist_and_swap wo (<[id := w']> (watchers reg)) reg in
          (reg, let? _ := r in Ok a)
      end
  end.

(** ** Loading *)
Definition replay_budget : Budget := mkBudget 3 (from_secs 300) 0 (from_secs 60).

Definition resting_lifecycle (l : WatcherLifecycle) : bool :=
  match l with
  | Lifecycle.Stopped _ | Lifecycle.TargetTerminated | Lifecycle.HumanRequired _ => true
  | _ => false
  end.

(** One iteration of the replay loop: the watcher and whether it changed. *)
Definition replay_watcher (w : WatcherState) : result RegistryError (WatcherState * bool) :=
  let '(w, created) :=
    if needs_revalidation (target w) && bool_decide (recovery w = None)
    then (set_recovery w (Some (machine_new replay_budget)), true) else (w, false) in
  let? wr :=
    match recovery w with
    | None => Ok (w, created)
    | Some m =>
        let? m := map_err (λ _, RegCorrupt "invalid recovery state") (restore_for_restart m) in
        Ok (set_recovery w (Some m), true)
    end in
  let '(w, changed) := wr in
  if negb (resting_lifecycle (lifecycle w)) then
    let w := set_lifecycle w (Lifecycle.HumanRequired RESTART_REVALIDATION_REASON) in
    let? r := next_revision w in
    Ok (set_revision w r, true)
  else Ok (w, changed).

Fixpoint replay_all (l : list (string * WatcherState))
    : result RegistryError (list (string * WatcherState) * bool) :=
  match l with
  | [] => Ok ([], false)
  | (k, w) :: l =>
      let? wr := replay_watcher w in
      let? rest := replay_all l in
      Ok ((k, wr.1) :: rest.1, wr.2 || rest.2)
  end.

Definition load_inner (file : result string (LoadOutcome PersistedRegistry)) (wo : WriteOutcome)
    (audit : bool) : result RegistryError Registry :=
  let? loaded := map_err RegStore file in
  let? ws :=
    match loaded with
    | Missing => Ok ∅
    | Corrupt q => Err (RegCorrupt q)
    | Present saved =>
        if persisted_version saved =? 1
        then Ok (btree_collect ((λ w, (ws_id w, w)) <$> persisted_watchers saved))
        else Err (RegCorrupt "unsupported registry version")
    end in
  let? replayed := replay_all (btree_entries ws) in
  let m := btree_collect replayed.1 in
  let on_disk := match loaded with Present saved => Some saved | _ => None end in
  let reg := mkRegistry on_disk m audit [] in
  if replayed.2 then
    match persist_watchers wo m reg with
    | (reg, Ok _) => Ok reg
    | (_, Err e) => Err e
    end
  else Ok reg.

(** ** Registration *)
Section Refresh.
Context (existing fresh : WatcherState).

Definition process_promotion : bool := is_richer_target (target existing) (target fresh).

Definition target_upgraded : bool :=
  needs_revalidation (target existing) && negb (needs_revalidation (target fresh)).

Definition replay_revalidated : bool :=
  match lifecycle existing with
  | Lifecycle.HumanRequired why => String.eqb why RESTART_REVALIDATION_REASON
  | _ => false
  end.

Definition attachment_upgrade : bool :=
  (bool_decide (codex_session existing = None) && negb (bool_decide (codex_session fresh = None)))
  || (bool_decide (claude_session existing = None)
      && negb (bool_decide (claude_session fresh = None))).

Definition attachments_conflict : bool :=
  negb (compatible_attachment (codex_session existing) (codex_session fresh))
  || negb (compatible_attachment (claude_session existing) (claude_session fresh)).

(** The edit of the [refreshed] entry, without revision and timestamp. *)
Definition refreshed (w : WatcherState) : WatcherState :=
  let w := set_target w (target fresh) in
  if process_promotion || attachment_upgrade then
    let w := set_lifecycle w Lifecycle.Registered in
    let w := set_recovery w None in
    let w := set_observation w None in
    let w := set_schedule w (set_wake_pending (observation_schedule w) true) in
    let w := match codex_session fresh with Some _ => set_codex w (codex_session fresh)
             | None => w end in
    match claude_session fresh with Some _ => set_claude w (claude_session fresh)
    | None => w end
  else if replay_revalidated then
    set_recovery (set_lifecycle w Lifecycle.Registered) (recovery fresh)
  else w.
End Refresh.

Definition refresh_existing (wo : WriteOutcome) (existing_id : string) (fresh : WatcherState)
    (reg : Registry) : Registry * result RegistryError RegistrationOutcome :=
  match watchers reg !! existing_id with
  | None => (reg, Err (RegUnknown existing_id))
  | Some existing =>
      let promoted := process_promotion existing fresh || attachment_upgrade existing fresh in
      if attachments_conflict existing fresh then (reg, Err (RegIdCollision (ws_id fresh)))
      else if negb promoted && negb (target_upgraded existing fresh)
              && negb (replay_revalidated existing)
      then (reg, Ok (Registration.Existing existing_id))
      else
        match edit_watcher wo existing_id (updated_at_unix_ms fresh)
                (λ w, Ok (refreshed existing fresh w, tt)) reg with
        | (reg, Err e) => (reg, Err e)
        | (reg, Ok _) =>
            let reg := audit_lifecycle existing_id
              (λ _, if promoted then "watcher promoted" else "watcher resumed") reg in
            (reg, Ok (if promoted || replay_revalidated existing
                      then Registration.Revalidated existing_id
                      else Registration.Existing existing_id))
        end
  end.

Definition register (wo : WriteOutcome) (w : WatcherState) (reg : Registry)
    : Registry * result RegistryError RegistrationOutcome :=
  match watchers reg !! ws_id w with
  | Some existing =>
      if stable_target_eq (target existing) (target w)
      then refresh_existing wo (ws_id existing) w reg
      else (reg, Err (RegIdCollision (ws_id w)))
  | None =>
  match find_first (λ e, stable_target_eq (target e) (target w)) (btree_values (watchers reg)) with
  | Some existing => refresh_existing wo (ws_id existing) w reg
  | None =>
  match find_first (λ e, exact_process_eq (target e) (target w)) (btree_values (watchers reg)) with
  | Some existing =>
      if is_richer_target (target existing) (target w)
      then refresh_existing wo (ws_id existing) w reg
      else if is_richer_target (target w) (target existing)
      then (reg, Ok (Registration.Existing (ws_id existing)))
      else (reg, Err (RegIdCollision (ws_id w)))
  | None =>
      match persist_and_swap wo (<[ws_id w := w]> (watchers reg)) reg with
      | (reg, Err e) => (reg, Err e)
      | (reg, Ok _) =>
          (audit_lifecycle (ws_id w) (λ _, "watcher registered") reg,
           Ok (Registration.Added (ws_id w)))
      end
  end end end.

(** ** Updates *)
Definition reg_transition (wo : WriteOutcome) (id : string) (l : WatcherLifecycle) (now : Z)
    (reg : Registry) : Registry * result RegistryError unit :=
  match edit_watcher wo id now (λ w, Ok (set_lifecycle w l, tt)) reg with
  | (reg, Err e) => (reg, Err e)
  | (reg, Ok _) => (audit_lifecycle id (λ w, lifecycle_message (lifecycle w)) reg, Ok tt)
  end.

Definition reg_get (reg : Registry) (id : string) : option WatcherState := watchers reg !! id.

Definition dispatch_snapshot (reg : Registry) (id : string)
    : result RegistryError DispatchSnapshot :=
  ok_or (mkDispatch <$> reg_get reg id) (RegUnknown id).

Definition matches_dispatch_snapshot (reg : Registry) (s : DispatchSnapshot) : bool :=
  match reg_get reg (ws_id (snapshot_watcher s)) with
  | Some current => watcher_eqb current (snapshot_watcher s)
  | None => false
  end.

Definition set_process (t : TargetIdentity) (p : ProcessIdentity) : TargetIdentity :=
  match t with
  | TProcess _ => TProcess p
  | TMultiplexer provider server pane _ session context chrome reval =>
      TMultiplexer provider server pane p session context chrome reval
  end.

Definition retarget_process (wo : WriteOutcome) (id : string) (p : ProcessIdentity) (now : Z)
    (reg : Registry) : Registry * result RegistryError unit :=
  edit_watcher wo id now (λ w, Ok (set_target w (set_process (target w) p), tt)) reg.

Definition reg_list (reg : Registry) : list WatcherState := btree_values (watchers reg).

Definition persist_recovery (wo : WriteOutcome) (id : string) (m : RecoveryMachine) (now : Z)
    (reg : Registry) : Registry * result RegistryError unit :=
  edit_watcher wo id now (λ w, Ok (set_recovery w (Some m), tt)) reg.

(** [machine.apply(command).map_err(Corrupt)?]. *)
Definition apply_command (m : RecoveryMachine) (c : RecoveryCommand)
    : result RegistryError RecoveryMachine :=
  match apply m c with
  | (m', Ok _) => Ok m'
  | (_, Err why) => Err (RegCorrupt why)
  end.

Definition apply_recovery_transition (wo : WriteOutcome) (id : string) (c : RecoveryCommand)
    (now : Z) (reg : Registry) : Registry * result RegistryError RecoveryState :=
  edit_watcher wo id now (λ w,
    let? m := ok_or (recovery w) (RegCorrupt "missing recovery state") in
    let? m := apply_command m c in
    Ok (set_recovery w (Some m), state m)) reg.

Definition persist_observation_schedule (wo : WriteOutcome) (id : string)
    (s : ObservationSchedule) (now : Z) (reg : Registry)
    : Registry * result RegistryError unit :=
  edit_watcher wo id now (λ w, Ok (set_schedule w s, tt)) reg.

Definition persist_observation_event (wo : WriteOutcome) (id : string) (e : Event) (now : Z)
    (reg : Registry) : Registry * result RegistryError unit :=
  edit_watcher wo id now (λ w, Ok (set_observation w (Some e), tt)) reg.

(** [if schedule.event_wake_pending { last_wake_completed_wall_ms = now }] and the
    flag cleared. *)
Definition finish_wake (s : ObservationSchedule) (now : Z) : ObservationSchedule :=
  set_wake_pending
    (if event_wake_pending s then set_wake_completed s (Some now) else s) false.

Definition complete_observation (wo : WriteOutcome) (id : string) (e : option Event) (now : Z)
    (reg : Registry) : Registry * result RegistryError unit :=
  edit_watcher wo id now (λ w,
    let w := match e with Some e => set_observation w (Some e) | None => w end in
    Ok (set_schedule w (finish_wake (observation_schedule w) now), tt)) reg.

Definition fresh_claude_limit_after_menu (m : RecoveryMachine) (e : Event) : bool :=
  bool_decide (state m = Recovery.Recovered)
  && bool_decide (source_kind (source e) = Source.Hook)
  && String.eqb (source_id (source e)) "claude_stop_failure"
  && bool_decide (policy_hint e = Hint.WaitAllowed)
  && bool_decide (is_Some (metadata e !! "claude_reset_at"))
  && negb (opt_str_eqb (current m) (Some (evidence_fingerprint e))).

Definition rearms (m : RecoveryMachine) (l : WatcherLifecycle) (e : Event) : bool :=
  bool_decide (state m = Recovery.Recovered)
  && ((match l with Lifecycle.Waiting _ _ => true | _ => false end
       && (meta_true (metadata e) "claude_resume" || meta_true (metadata e) "codex_resume"))
      || fresh_claude_limit_after_menu m e).

Definition confirms (m : RecoveryMachine) (s : ObservationSchedule) (e : Event) : bool :=
  is_actionable (category e)
  && (negb (bool_decide (source_kind (source e) = Source.ScreenDetection))
      || (2 <=? screen_stable_count s))
  && bool_decide (state m = Recovery.Observing).

(** The recovery machine and lifecycle after an observed event. *)
Definition observe_machine (m : RecoveryMachine) (l : WatcherLifecycle)
    (s : ObservationSchedule) (e : Event)
    : result RegistryError (RecoveryMachine * WatcherLifecycle) :=
  let? ml :=
    if bool_decide (state m = Recovery.NeedsRevalidation)
    then let? m := apply_command m StateMachine.Revalidated in Ok (m, Lifecycle.Observing)
    else Ok (m, l) in
  let '(m, l) := ml in
  let? m := if rearms m l e then apply_command m RearmAfterWait else Ok m in
  let? m := if confirms m s e then apply_command m (Confirm (evidence_fingerprint e))
            else Ok m in
  Ok (m, l).

Definition observe_event (w : WatcherState) (e : Event) : result RegistryError WatcherState :=
  let? w :=
    match recovery w with
    | None => Ok w
    | Some m =>
        let? ml := observe_machine m (lifecycle w) (observation_schedule w) e in
        Ok (set_lifecycle (set_recovery w (Some ml.1)) ml.2)
    end in
  Ok (set_observation w (Some e)).

Definition commit_observation (wo : WriteOutcome) (id : string) (s : ObservationSchedule)
    (e : option Event) (now : Z) (reg : Registry) : Registry * result RegistryError unit :=
  edit_watcher wo id now (λ w,
    let w := set_schedule w (finish_wake s now) in
    let? w := match e with Some e => observe_event w e | None => Ok w end in
    Ok (w, tt)) reg.

Definition WAKE_COOLDOWN_MS : Z := 60000.

Definition wake_suppressed (s : ObservationSchedule) (fingerprint : string) (now : Z) : bool :=
  event_wake_pending s
  || (opt_str_eqb (last_wake_fingerprint s) (Some fingerprint)
      && match last_wake_completed_wall_ms s with
         | Some completed => now <? saturating_add u64_max completed WAKE_COOLDOWN_MS
         | None => false
         end).

Definition wake_observation (wo : WriteOutcome) (id fingerprint : string) (now : Z)
    (reg : Registry) : Registry * result RegistryError unit :=
  if (len fingerprint <? 16) || (128 <? len fingerprint)
     || negb (forallb is_ascii_hexdigit (bytes fingerprint))
  then (reg, Err (RegCorrupt "invalid wake fingerprint"))
  else
    match reg_get reg id with
    | None => (reg, Err (RegUnknown id))
    | Some w =>
        let s := observation_schedule w in
        if wake_suppressed s fingerprint now then (reg, Ok tt)
        else
          persist_observation_schedule wo id
            (set_wake_fingerprint (set_wake_pending s true) (Some fingerprint)) now reg
    end.

(** ** The recovery coordinator *)
Definition coord_begin_action (wo : WriteOutcome) (id fingerprint : string)
    (clock : ClockSnapshot) (now : Z) : Registry → Registry * result RegistryError RecoveryState :=
  apply_recovery_transition wo id (BeginAction fingerprint clock) now.
Definition coord_action_failed (wo : WriteOutcome) (id fingerprint : string) (wait : Z)
    (clock : ClockSnapshot) (now : Z) : Registry → Registry * result RegistryError RecoveryState :=
  apply_recovery_transition wo id (ActionFailed fingerprint wait clock) now.
Definition coord_action_succeeded (wo : WriteOutcome) (id fingerprint : string) (now : Z)
    : Registry → Registry * result RegistryError RecoveryState :=
  apply_recovery_transition wo id (ActionSucceeded fingerprint) now.
Definition planner_consulted (wo : WriteOutcome) (id : string) (now : Z)
    : Registry → Registry * result RegistryError RecoveryState :=
  apply_recovery_transition wo id ReservePlanner now.
