(* ===== verification/RegistrySafety.v ===== *)
(** * Guarantees of the watcher registry

    Theorems about sequences of registry operations: the no-ABA guarantee behind
    dispatch snapshots, failure atomicity, uniqueness of watched processes, the
    restart discipline and the confirmation rule. *)
From S2P Require Import Prelude Json Event Identity StateMachine State Store Registry.

Local Open Scope Z_scope.

(** ** Operations as data *)
Inductive RegOp : Type :=
| RegRegister (w : WatcherState)
| RegTransition (id : string) (l : WatcherLifecycle) (now : Z)
| RegRetarget (id : string) (p : ProcessIdentity) (now : Z)
| RegRecovery (id : string) (m : RecoveryMachine) (now : Z)
| RegApply (id : string) (c : RecoveryCommand) (now : Z)
| RegSchedule (id : string) (s : ObservationSchedule) (now : Z)
| RegEvent (id : string) (e : Event) (now : Z)
| RegComplete (id : string) (e : option Event) (now : Z)
| RegCommit (id : string) (s : ObservationSchedule) (e : option Event) (now : Z)
| RegWake (id fingerprint : string) (now : Z).

Definition forget {A} (x : Registry * result RegistryError A) : Registry * bool :=
  (x.1, is_ok x.2).

(** The registry an operation leaves and whether it reported success. *)
Definition reg_step (op : RegOp) (wo : WriteOutcome) (reg : Registry) : Registry * bool :=
  match op with
  | RegRegister w => forget (register wo w reg)
  | RegTransition id l now => forget (reg_transition wo id l now reg)
  | RegRetarget id p now => forget (retarget_process wo id p now reg)
  | RegRecovery id m now => forget (persist_recovery wo id m now reg)
  | RegApply id c now => forget (apply_recovery_transition wo id c now reg)
  | RegSchedule id s now => forget (persist_observation_schedule wo id s now reg)
  | RegEvent id e now => forget (persist_observation_event wo id e now reg)
  | RegComplete id e now => forget (complete_observation wo id e now reg)
  | RegCommit id s e now => forget (commit_observation wo id s e now reg)
  | RegWake id fp now => forget (wake_observation wo id fp now reg)
  end.

Definition reg_run (ops : list (RegOp * WriteOutcome)) (reg : Registry) : Registry :=
  foldl (λ r ow, (reg_step ow.1 ow.2 r).1) reg ops.

(** ** The effect of one operation *)

(** What a successful update did to the map: one watcher edited, its revision
    increased by exactly one and the whole map written. *)
Definition written (reg reg' : Registry) : Prop :=
  reg_file reg' = Some (mkPersisted 1 (btree_values (watchers reg'))).

Definition edited (id : string) (w w' : WatcherState) (reg reg' : Registry) : Prop :=
  watchers reg !! id = Some w ∧ watchers reg' = <[id := w']> (watchers reg)
  ∧ revision w' = revision w + 1 ∧ revision w' ≤ u64_max ∧ ws_id w' = ws_id w
  ∧ written reg reg'.

Definition inserted (w : WatcherState) (reg reg' : Registry) : Prop :=
  watchers reg !! ws_id w = None ∧ watchers reg' = <[ws_id w := w]> (watchers reg)
  ∧ (∀ id e, watchers reg !! id = Some e → exact_process_eq (target e) (target w) = false)
  ∧ written reg reg'.

Definition unchanged (reg reg' : Registry) : Prop :=
  watchers reg' = watchers reg ∧ lifecycle_audit reg' = lifecycle_audit reg.

(** An edit keeps identity and revision; the update bumps the latter. *)
Definition tame {A} (f : WatcherState → result RegistryError (WatcherState * A)) : Prop :=
  ∀ w w' a, f w = Ok (w', a) → revision w' = revision w ∧ ws_id w' = ws_id w.

Lemma persist_and_swap_spec wo m reg reg' r :
  persist_and_swap wo m reg = (reg', r) →
  match r with
  | Ok _ => watchers reg' = m ∧ written reg reg' ∧ lifecycle_audit reg' = lifecycle_audit reg
            ∧ audited reg' = audited reg
  | Err _ => unchanged reg reg'
  end.
Proof.
  unfold persist_and_swap, persist_watchers. destruct wo as [|ren e]; intros; simplify_eq/=; done.
Qed.

Lemma bump_Ok w now w' :
  bump w now = Ok w' ↔
    revision w + 1 ≤ u64_max ∧ w' = set_updated (set_revision w (revision w + 1)) now.
Proof.
  unfold bump, next_revision. destruct (checked_add u64_max (revision w) 1) as [r|] eqn:E; simpl.
  - apply checked_add_Some in E as [-> ?]. naive_solver.
  - split; [done|]. intros [? _].
    assert (checked_add u64_max (revision w) 1 = Some (revision w + 1)) as E'
      by (by apply checked_add_Some). congruence.
Qed.

Lemma edit_watcher_spec {A} wo id now (f : WatcherState → result RegistryError (WatcherState * A))
    reg reg' r :
  tame f → edit_watcher wo id now f reg = (reg', r) →
  match r with
  | Ok a => ∃ w w1, watchers reg !! id = Some w ∧ f w = Ok (w1, a)
      ∧ edited id w (set_updated (set_revision w1 (revision w + 1)) now) reg reg'
      ∧ lifecycle_audit reg' = lifecycle_audit reg
  | Err _ => unchanged reg reg'
  end.
Proof.
  intros Hf. unfold edit_watcher. destruct (watchers reg !! id) as [w|] eqn:Hw;
    [|intros; by simplify_eq].
  destruct (f w) as [[w1 a]|e] eqn:Ef; simpl; [|intros; by simplify_eq].
  destruct (bump w1 now) as [w2|e] eqn:Eb; simpl; [|intros; by simplify_eq].
  destruct (persist_and_swap _ _ _) as [reg1 r1] eqn:Ep. intros [= <- <-].
  apply persist_and_swap_spec in Ep. destruct r1 as [[]|e]; simpl; [|done].
  destruct Ep as (Hm & Hwr & Haud & _). destruct (Hf _ _ _ Ef) as [Hr Hi].
  apply bump_Ok in Eb as [Hle ->]. exists w, w1. rewrite <- Hr.
  split; [done|]. split; [done|]. split; [|done].
  split; [done|]. split; [done|]. simpl. split; [lia|]. done.
Qed.

Lemma audit_lifecycle_frame id msg reg :
  watchers (audit_lifecycle id msg reg) = watchers reg
  ∧ reg_file (audit_lifecycle id msg reg) = reg_file reg.
Proof. unfold audit_lifecycle. destruct (watchers reg !! id), (audited reg); done. Qed.

Lemma edited_audit id w w' reg reg' msg :
  edited id w w' reg reg' → edited id w w' reg (audit_lifecycle id msg reg').
Proof.
  unfold edited, written. destruct (audit_lifecycle_frame id msg reg') as [-> ->]. done.
Qed.

Lemma inserted_audit w reg reg' id msg :
  inserted w reg reg' → inserted w reg (audit_lifecycle id msg reg').
Proof.
  unfold inserted, written. destruct (audit_lifecycle_frame id msg reg') as [-> ->]. done.
Qed.

Definition keeps_process (w w' : WatcherState) : Prop :=
  exact_process_eq (target w) (target w') = true.

Lemma same_process_refl p : same_process p p = true.
Proof. unfold same_process. by rewrite !Z.eqb_refl. Qed.
Lemma same_process_iff p q :
  same_process p q = true ↔ pid p = pid q ∧ start_time p = start_time q.
Proof. unfold same_process. by rewrite andb_true_iff, !Z.eqb_eq. Qed.
Lemma same_process_sym p q : same_process p q = same_process q p.
Proof. unfold same_process. by rewrite (Z.eqb_sym (pid p)), (Z.eqb_sym (start_time p)). Qed.
Lemma same_process_trans p q r :
  same_process p q = true → same_process q r = true → same_process p r = true.
Proof. rewrite !same_process_iff. intuition congruence. Qed.

Lemma stable_exact l r : stable_target_eq l r = true → exact_process_eq l r = true.
Proof. destruct l, r; simpl; try done. intros. by inv_watch. Qed.

Lemma observe_event_frame w e w' :
  observe_event w e = Ok w' →
  revision w' = revision w ∧ ws_id w' = ws_id w ∧ target w' = target w
  ∧ observation_schedule w' = observation_schedule w ∧ last_observation w' = Some e.
Proof.
  unfold observe_event. intros (w1 & H1 & H2)%rbind_Ok. simplify_eq.
  destruct (recovery w) as [m|]; [|by simplify_eq].
  apply rbind_Ok in H1 as ([m' l] & _ & ?). by simplify_eq.
Qed.

Lemma refreshed_frame existing fresh w :
  revision (refreshed existing fresh w) = revision w
  ∧ ws_id (refreshed existing fresh w) = ws_id w
  ∧ target (refreshed existing fresh w) = target fresh.
Proof.
  unfold refreshed. destruct (_ || _), (codex_session fresh), (claude_session fresh),
    (replay_revalidated existing); done.
Qed.

(** Closes [tame] goals. *)
Ltac tame_tac :=
  intros ? ? ? ?; simplify_eq/=; try done;
  repeat match goal with
  | E : rbind _ _ = Ok _ |- _ => apply rbind_Ok in E as (? & ? & ?); simplify_eq/=
  | E : observe_event _ _ = Ok _ |- _ =>
      apply observe_event_frame in E as (? & ? & ? & ? & ?); simplify_eq/=
  | E : match ?e with Some _ => _ | None => _ end = Ok _ |- _ => destruct e; simplify_eq/=
  | |- context [match ?e with Some _ => _ | None => _ end] => destruct e; simplify_eq/=
  end; try done.

(** The outcome of one operation, on every branch. *)
Definition step_effect (op : RegOp) (reg reg' : Registry) : Prop :=
  reg' = reg
  ∨ (∃ id w w', edited id w w' reg reg'
       ∧ (keeps_process w w' ∨ ∃ p now, op = RegRetarget id p now
                                     ∧ target_process (target w') = p))
  ∨ (∃ w, op = RegRegister w ∧ inserted w reg reg').

(** Keys of the map are the watchers' own ids. *)
Definition keyed (reg : Registry) : Prop :=
  ∀ id w, watchers reg !! id = Some w → ws_id w = id.

Lemma edit_step {A} wo id now (f : WatcherState → result RegistryError (WatcherState * A))
    reg reg' r :
  tame f → (∀ w w' a, f w = Ok (w', a) → target w' = target w) →
  edit_watcher wo id now f reg = (reg', r) →
  if is_ok r then ∃ w w', edited id w w' reg reg' ∧ keeps_process w w' else unchanged reg reg'.
Proof.
  intros Hf Ht He. apply edit_watcher_spec in He; [|done].
  destruct r as [a|e]; [|done]. destruct He as (w & w1 & Hw & Hfw & Hed & _). simpl.
  eexists w, _. split; [done|].
  unfold keeps_process, exact_process_eq. simpl. rewrite (Ht _ _ _ Hfw). apply same_process_refl.
Qed.

Lemma edit_effect op id w w' reg reg' :
  edited id w w' reg reg' → keeps_process w w' → step_effect op reg reg'.
Proof. intros. right. left. exists id, w, w'. auto. Qed.

Lemma refresh_step wo id fresh reg reg' r e :
  watchers reg !! id = Some e → exact_process_eq (target e) (target fresh) = true →
  refresh_existing wo id fresh reg = (reg', r) →
  if is_ok r then step_effect (RegRegister fresh) reg reg' else unchanged reg reg'.
Proof.
  intros He Hp. unfold refresh_existing. rewrite He.
  destruct (attachments_conflict e fresh); [intros; by simplify_eq|].
  destruct (negb _ && _ && _); [intros; simplify_eq/=; by left|].
  destruct (edit_watcher _ _ _ _ _) as [reg1 r1] eqn:Ed.
  apply edit_watcher_spec in Ed;
    [|intros w w' a [= <- <-]; by destruct (refreshed_frame e fresh w) as (? & ? & _)].
  destruct r1 as [[]|err]; intros [= <- <-]; simpl; [|done].
  destruct Ed as (w & w1 & Hw & [= <-] & Hed & _). right. left.
  eexists id, w, _. split; [by apply edited_audit|]. left.
  unfold keeps_process. simpl. destruct (refreshed_frame e fresh w) as (_ & _ & ->).
  by simplify_eq.
Qed.

Lemma find_watcher reg f w :
  keyed reg → find_first f (btree_values (watchers reg)) = Some w →
  watchers reg !! ws_id w = Some w ∧ f w = true.
Proof.
  intros Hk [Hin Hf]%find_first_Some. apply elem_of_btree_values in Hin as [k Hw].
  by rewrite (Hk _ _ Hw).
Qed.

Lemma register_step wo w reg reg' r :
  keyed reg → register wo w reg = (reg', r) →
  if is_ok r then step_effect (RegRegister w) reg reg' else unchanged reg reg'.
Proof.
  intros Hk. unfold register. destruct (watchers reg !! ws_id w) as [e|] eqn:Hw.
  { destruct (stable_target_eq _ _) eqn:Hs; [|intros; by simplify_eq].
    rewrite (Hk _ _ Hw). intros. eapply refresh_step; [done|by apply stable_exact|done]. }
  destruct (find_first _ _) as [e|] eqn:Hf1 in |- *.
  { apply find_watcher in Hf1 as [He Hs]; [|done].
    intros. eapply refresh_step; [done|by apply stable_exact|done]. }
  destruct (find_first _ _) as [e|] eqn:Hf2 in |- *.
  { apply find_watcher in Hf2 as [He Hs]; [|done].
    destruct (is_richer_target (target e) _); [intros; by eapply refresh_step|].
    destruct (is_richer_target _ _); intros; simplify_eq/=; [by left|done]. }
  destruct (persist_and_swap _ _ _) as [reg1 r1] eqn:Ep. apply persist_and_swap_spec in Ep.
  destruct r1 as [[]|err]; intros [= <- <-]; simpl; [|done].
  right. right. exists w. split; [done|]. apply inserted_audit.
  destruct Ep as (Hm & Hwr & _). split; [done|]. split; [done|]. split; [|done].
  intros id e He. pose proof (proj1 (find_first_None _ _) Hf2) as Hnone.
  apply Hnone, elem_of_btree_values. eauto.
Qed.

Lemma transition_step op wo id l now reg reg' r :
  reg_transition wo id l now reg = (reg', r) →
  if is_ok r then step_effect op reg reg' else unchanged reg reg'.
Proof.
  unfold reg_transition. destruct (edit_watcher _ _ _ _ _) as [reg1 r1] eqn:Ed.
  apply edit_step in Ed; [|tame_tac|tame_tac].
  destruct r1 as [[]|e]; intros [= <- <-]; simpl in *; [|done].
  destruct Ed as (w & w' & He & Hp). eapply edit_effect; [by apply edited_audit|done].
Qed.

Lemma plain_step {A} op wo id now (f : WatcherState → result RegistryError (WatcherState * A))
    reg reg' r :
  tame f → (∀ w w' a, f w = Ok (w', a) → target w' = target w) →
  edit_watcher wo id now f reg = (reg', r) →
  if is_ok r then step_effect op reg reg' else unchanged reg reg'.
Proof.
  intros Hf Ht He%edit_step; [|done..]. destruct (is_ok r); [|done].
  destruct He as (w & w' & He & Hp). by eapply edit_effect.
Qed.

Lemma retarget_step wo id p now reg reg' r :
  retarget_process wo id p now reg = (reg', r) →
  if is_ok r then step_effect (RegRetarget id p now) reg reg' else unchanged reg reg'.
Proof.
  unfold retarget_process. intros He. apply edit_watcher_spec in He; [|tame_tac].
  destruct r as [[]|e]; [|done]. destruct He as (w & w1 & Hw & Hf & Hed & _). simpl.
  simplify_eq/=. right. left. eexists id, w, _. split; [done|]. right.
  exists p, now. split; [done|]. by destruct (target w).
Qed.

Lemma wake_step wo id fp now reg reg' r :
  wake_observation wo id fp now reg = (reg', r) →
  if is_ok r then step_effect (RegWake id fp now) reg reg' else unchanged reg reg'.
Proof.
  unfold wake_observation. destruct (_ || _ || _); [intros; by simplify_eq|].
  destruct (reg_get reg id) as [w|]; [|intros; by simplify_eq].
  destruct (wake_suppressed _ _ _); [intros; simplify_eq/=; by left|].
  apply plain_step; tame_tac.
Qed.

Lemma reg_step_spec op wo reg reg' ok :
  keyed reg → reg_step op wo reg = (reg', ok) →
  if ok then step_effect op reg reg' else unchanged reg reg'.
Proof.
  intros Hk. destruct op; unfold reg_step, forget; intros Hs.
  all: match type of Hs with context [is_ok ?x.2] => destruct x as [reg1 r] eqn:E end.
  all: simpl in Hs; simplify_eq.
  - by eapply register_step.
  - by eapply transition_step.
  - by eapply retarget_step.
  - by eapply plain_step in E; [|tame_tac..].
  - by eapply plain_step in E; [|tame_tac..].
  - by eapply plain_step in E; [|tame_tac..].
  - by eapply plain_step in E; [|tame_tac..].
  - by eapply plain_step in E; [|tame_tac..].
  - by eapply plain_step in E; [|tame_tac..].
  - by eapply wake_step.
Qed.

(** ** Invariants of runs *)
Lemma effect_keyed op reg reg' : step_effect op reg reg' → keyed reg → keyed reg'.
Proof.
  intros [->|[(id & w & w' & (Hw & Hm & _ & _ & Hid & _) & _)|(w & _ & _ & Hm & _)]] Hk;
    [done|..]; intros id' w'' Hl; rewrite Hm in Hl.
  - apply lookup_insert_Some in Hl as [[<- <-]|[_ Hl]]; [|by apply Hk].
    rewrite Hid. by apply Hk.
  - apply lookup_insert_Some in Hl as [[<- <-]|[_ Hl]]; [done|by apply Hk].
Qed.

Lemma step_keyed op wo reg : keyed reg → keyed (reg_step op wo reg).1.
Proof.
  intros Hk. destruct (reg_step op wo reg) as [reg' ok] eqn:E. apply reg_step_spec in E; [|done].
  destruct ok; [by eapply effect_keyed|]. destruct E as [Hm _]. unfold keyed. simpl.
  by rewrite Hm.
Qed.

Lemma run_keyed ops reg : keyed reg → keyed (reg_run ops reg).
Proof.
  revert reg. induction ops as [|[op wo] ops IH]; intros reg Hk; [done|].
  simpl. apply IH. by apply step_keyed.
Qed.

(** A watcher is never removed, and every change raises its revision. *)
Definition moves_on (a b : option WatcherState) : Prop :=
  a = b ∨ match a, b with Some w, Some w' => revision w < revision w' | None, _ => True
          | _, _ => False end.

#[global] Instance moves_on_preorder : PreOrder moves_on.
Proof.
  split; [by left|]. intros a b c Hab Hbc. destruct Hab as [<-|Hab]; [done|].
  destruct Hbc as [<-|Hbc]; [by right|]. right. destruct a, b, c; try done. lia.
Qed.

Lemma effect_moves_on op reg reg' id :
  step_effect op reg reg' → moves_on (watchers reg !! id) (watchers reg' !! id).
Proof.
  intros [->|[(i & w & w' & (Hw & Hm & Hr & _) & _)|(w & _ & Hn & Hm & _)]]; [by left|..];
    rewrite Hm.
  - destruct (decide (i = id)) as [->|Hne].
    + rewrite lookup_insert_eq, Hw. right. lia.
    + rewrite lookup_insert_ne by done. by left.
  - destruct (decide (ws_id w = id)) as [<-|Hne].
    + rewrite lookup_insert_eq, Hn. by right.
    + rewrite lookup_insert_ne by done. by left.
Qed.

Lemma step_moves_on op wo reg id :
  keyed reg → moves_on (watchers reg !! id) (watchers (reg_step op wo reg).1 !! id).
Proof.
  intros Hk. destruct (reg_step op wo reg) as [reg' ok] eqn:E. apply reg_step_spec in E; [|done].
  destruct ok; [by eapply effect_moves_on|]. destruct E as [Hm _]. simpl. rewrite Hm. by left.
Qed.

Lemma run_moves_on ops reg id :
  keyed reg → moves_on (watchers reg !! id) (watchers (reg_run ops reg) !! id).
Proof.
  revert reg. induction ops as [|[op wo] ops IH]; intros reg Hk; [by left|].
  simpl. etrans; [by apply (step_moves_on op wo)|]. apply IH. by apply step_keyed.
Qed.

Lemma moves_on_squeeze a b c w :
  moves_on a b → moves_on b c → a = Some w →
  (∀ w', c = Some w' → revision w' = revision w) → is_Some c → b = Some w.
Proof.
  intros [<-|Hab] Hbc -> Hc [w' ->]; [done|]. specialize (Hc w' eq_refl).
  destruct b as [wb|]; [|done]. destruct Hbc as [[= ->]|Hbc]; lia.
Qed.

Lemma reg_run_app ops1 ops2 reg : reg_run (ops1 ++ ops2) reg = reg_run ops2 (reg_run ops1 reg).
Proof. unfold reg_run. by rewrite foldl_app. Qed.

(** ** Properties *)

(** C9: dispatch snapshots have no ABA: if a snapshot still matches after any
    sequence of registry operations and write failures, then the watcher was
    exactly the snapshot's at every moment in between, so nothing that was
    authorised on the snapshot can have gone stale. *)
Theorem dispatch_snapshot_no_aba reg id s ops1 ops2 :
  keyed reg → dispatch_snapshot reg id = Ok s →
  matches_dispatch_snapshot (reg_run (ops1 ++ ops2) reg) s = true →
  reg_get (reg_run ops1 reg) id = Some (snapshot_watcher s)
  ∧ reg_get (reg_run (ops1 ++ ops2) reg) id = Some (snapshot_watcher s).
Proof.
  unfold dispatch_snapshot, matches_dispatch_snapshot, reg_get. intros Hk Hs Hm.
  destruct (watchers reg !! id) as [w|] eqn:Hw; simplify_eq/=. rewrite (Hk _ _ Hw) in Hm.
  pose proof (run_moves_on ops1 reg id Hk) as H1.
  pose proof (run_moves_on ops2 (reg_run ops1 reg) id (run_keyed ops1 _ Hk)) as H2.
  rewrite <- reg_run_app in H2.
  destruct (watchers (reg_run (ops1 ++ ops2) reg) !! id) as [w'|] eqn:Hw'; [|done].
  apply watcher_eqb_revision in Hm.
  assert (watchers (reg_run ops1 reg) !! id = Some w) as Hmid
    by (eapply moves_on_squeeze; [apply H1|apply H2|done|by intros ? [= <-]|done]).
  split; [done|]. rewrite Hmid in H2. destruct H2 as [<-|H2]; [done|lia].
Qed.


(** No two watchers watch the same process. *)
Definition processes_unique (reg : Registry) : Prop :=
  ∀ i j wi wj, watchers reg !! i = Some wi → watchers reg !! j = Some wj → i ≠ j →
    exact_process_eq (target wi) (target wj) = false.

(** A retarget names a process no other watcher watches. *)
Definition retarget_fresh (op : RegOp) (reg : Registry) : Prop :=
  match op with
  | RegRetarget id p _ => ∀ j wj, j ≠ id → watchers reg !! j = Some wj →
      same_process p (target_process (target wj)) = false
  | _ => True
  end.

Fixpoint retargets_fresh (ops : list (RegOp * WriteOutcome)) (reg : Registry) : Prop :=
  match ops with
  | [] => True
  | ow :: ops => retarget_fresh ow.1 reg ∧ retargets_fresh ops (reg_step ow.1 ow.2 reg).1
  end.

Lemma exact_process_sym l r : exact_process_eq l r = exact_process_eq r l.
Proof. apply same_process_sym. Qed.

Lemma unique_insert reg id w m :
  (∀ j wj, j ≠ id → watchers reg !! j = Some wj →
     exact_process_eq (target w) (target wj) = false) →
  watchers m = <[id := w]> (watchers reg) → processes_unique reg → processes_unique m.
Proof.
  intros Hw Hm Hu i j wi wj Hi Hj Hne. rewrite Hm in Hi, Hj.
  apply lookup_insert_Some in Hi as [[<- <-]|[Hni Hi]];
    apply lookup_insert_Some in Hj as [[<- <-]|[Hnj Hj]]; try done.
  - by eapply Hw.
  - rewrite exact_process_sym. by eapply Hw.
  - by eapply Hu.
Qed.

Lemma effect_unique op reg reg' :
  retarget_fresh op reg → step_effect op reg reg' → processes_unique reg →
  processes_unique reg'.
Proof.
  intros Hr [->|[(id & w & w' & (Hw & Hm & _) & Hp)|(w & _ & Hn & Hm & Hex & _)]] Hu; [done|..];
    (eapply unique_insert; [|exact Hm|done]); intros j wj Hne Hj.
  - destruct Hp as [Hp|(p & now & -> & <-)]; [|by eapply Hr].
    destruct (exact_process_eq (target w') (target wj)) eqn:He; [|done].
    rewrite <- (Hu id j w wj Hw Hj) by done. symmetry. by eapply same_process_trans.
  - rewrite exact_process_sym. by eapply Hex.
Qed.

Lemma run_unique ops reg :
  keyed reg → retargets_fresh ops reg → processes_unique reg → processes_unique (reg_run ops reg).
Proof.
  revert reg. induction ops as [|[op wo] ops IH]; intros reg Hk Hr Hu; [done|].
  destruct Hr as [Hr Hrs]. simpl in *.
  apply IH; [by apply step_keyed|done|].
  destruct (reg_step op wo reg) as [reg' ok] eqn:E. apply reg_step_spec in E; [|done].
  destruct ok; [by eapply effect_unique|]. destruct E as [Hm _]. unfold processes_unique. simpl.
  by rewrite Hm.
Qed.

(** Registration never creates two watchers for one process (same pid and
    start time), under any ids, targets and multiplexer attachments: a second
    registration refreshes, is answered [Existing] or collides.  Retargeting keeps
    this as long as the new process is not already watched. *)
Theorem watched_processes_unique ops reg :
  keyed reg → processes_unique reg → retargets_fresh ops reg →
  keyed (reg_run ops reg) ∧ processes_unique (reg_run ops reg).
Proof. intros. split; [by apply run_keyed|by apply run_unique]. Qed.

(** ** Restart *)

(** The machine of a restarted watcher: every counter, budget and fingerprint is the
    one it had, the state is [NeedsRevalidation] and the audit says why. *)
Definition restarted (m m' : RecoveryMachine) : Prop :=
  machine_version m' = machine_version m ∧ state m' = Recovery.NeedsRevalidation
  ∧ budget m' = budget m ∧ attempts m' = attempts m ∧ cumulative_wait m' = cumulative_wait m
  ∧ last_attempt_mono m' = last_attempt_mono m ∧ completed m' = completed m
  ∧ current m' = current m ∧ planner_calls m' = planner_calls m
  ∧ audit m' = audit m ++ [mkAudit (state m) Recovery.NeedsRevalidation
                             "restart requires live revalidation"].

(** What a restart makes of a persisted watcher, field by field. *)
Record fails_closed (w w' : WatcherState) : Prop := {
  fc_schema : ws_schema_version w' = ws_schema_version w;
  fc_id : ws_id w' = ws_id w;
  fc_target : target w' = target w;
  fc_event : last_observation w' = last_observation w;
  fc_schedule : observation_schedule w' = observation_schedule w;
  fc_updated : updated_at_unix_ms w' = updated_at_unix_ms w;
  fc_claude : claude_session w' = claude_session w;
  fc_codex : codex_session w' = codex_session w;
  fc_lifecycle : match lifecycle w with
    | Lifecycle.Stopped _ | Lifecycle.TargetTerminated | Lifecycle.HumanRequired _ =>
        lifecycle w' = lifecycle w ∧ revision w' = revision w
    | _ =>
        lifecycle w' = Lifecycle.HumanRequired "target revalidation required after daemon restart"
        ∧ revision w' = revision w + 1
    end;
  fc_machine : match recovery w with
    | Some m => ∃ m', recovery w' = Some m' ∧ restarted m m'
    | None =>
        if needs_revalidation (target w)
        then ∃ m', recovery w' = Some m' ∧ restarted (machine_new replay_budget) m'
        else recovery w' = None
    end;
}.

Lemma restore_for_restart_Ok m m' : restore_for_restart m = Ok m' → restarted m m'.
Proof. unfold restore_for_restart. destruct (negb _); [done|]. by intros [= <-]. Qed.

Lemma next_revision_Ok w r : next_revision w = Ok r → r = revision w + 1.
Proof. unfold next_revision. by intros [-> _]%ok_or_Ok%checked_add_Some. Qed.

Lemma replay_watcher_spec w w' b : replay_watcher w = Ok (w', b) → fails_closed w w'.
Proof.
  unfold replay_watcher.
  set (cr := if needs_revalidation (target w) && _ then _ else _).
  assert (∃ c, cr = (set_recovery w (match recovery w with
    | Some m => Some m
    | None => if needs_revalidation (target w) then Some (machine_new replay_budget) else None
    end), c)) as (c & ->).
  { unfold cr. destruct (needs_revalidation (target w)), (recovery w) eqn:Hw; simpl;
      eexists; f_equal; destruct w; by simplify_eq/=. }
  set (r := match recovery w with Some _ => _ | None => _ end).
  intros ([w1 c1] & H1 & H2)%rbind_Ok. cbn [recovery set_recovery] in H1.
  assert (∃ r', w1 = set_recovery w r' ∧ match r with
    | Some m => ∃ m', r' = Some m' ∧ restarted m m' | None => r' = None end) as (r' & -> & Hr').
  { destruct r as [m|]; simplify_eq/=; [|by exists None].
    apply rbind_Ok in H1 as (m' & Hm%map_err_Ok%restore_for_restart_Ok & ?). simplify_eq/=.
    exists (Some m'). eauto. }
  assert (match recovery w with
    | Some m => ∃ m', r' = Some m' ∧ restarted m m'
    | None => if needs_revalidation (target w)
              then ∃ m', r' = Some m' ∧ restarted (machine_new replay_budget) m'
              else r' = None
    end) as Hm by (unfold r in Hr'; by destruct (recovery w), (needs_revalidation (target w))).
  assert (∀ l rv, match lifecycle w with
    | Lifecycle.Stopped _ | Lifecycle.TargetTerminated | Lifecycle.HumanRequired _ =>
        l = lifecycle w ∧ rv = revision w
    | _ => l = Lifecycle.HumanRequired "target revalidation required after daemon restart"
           ∧ rv = revision w + 1
    end → fails_closed w (set_revision (set_lifecycle (set_recovery w r') l) rv)) as Hfc
    by (intros l rv Hl; by split; simpl).
  cbn [lifecycle set_recovery] in H2. destruct (resting_lifecycle (lifecycle w)) eqn:Hl;
    cbn [negb] in H2.
  - simplify_eq/=. specialize (Hfc (lifecycle w) (revision w)).
    destruct w; simpl in *. apply Hfc. by destruct lifecycle.
  - apply rbind_Ok in H2 as (rv & Hrv%next_revision_Ok & ?). simplify_eq/=.
    apply Hfc. by destruct (lifecycle w).
Qed.

Lemma replay_all_spec l l' b :
  replay_all l = Ok (l', b) →
  Forall2 (λ kw kw', kw'.1 = kw.1 ∧ fails_closed kw.2 kw'.2) l l'.
Proof.
  revert l' b. induction l as [|[k w] l IH]; intros l' b; simpl; [by intros [= <- <-]|].
  intros ([w' c] & Hw & H)%rbind_Ok. apply rbind_Ok in H as ([l1 b1] & Hl & ?). simplify_eq/=.
  constructor; [|by eapply IH]. split; [done|]. by eapply replay_watcher_spec.
Qed.

Lemma replay_collect m l' b :
  replay_all (btree_entries m) = Ok (l', b) →
  (∀ k w', btree_collect l' !! k = Some w' ↔
     ∃ w, m !! k = Some w ∧ (k, w') ∈ l' ∧ fails_closed w w').
Proof.
  intros Hr%replay_all_spec k w'.
  assert (l'.*1 = (btree_entries m).*1) as Hk.
  { clear -Hr. induction Hr as [|x y l l2 [Hxy _] _ IH]; simpl; [done|]. by f_equal. }
  split.
  - intros Hin%btree_collect_Some. destruct (proj1 (list_elem_of_lookup _ _) Hin) as [i Hi].
    destruct (Forall2_lookup_r _ _ _ _ _ Hr Hi) as ([k0 w0] & Hi0 & Heq & Hf). simpl in *. subst.
    exists w0. split; [|done]. apply elem_of_btree_entries, list_elem_of_lookup. eauto.
  - intros (w & _ & Hin & _). apply btree_collect_NoDup; [|done].
    rewrite Hk. apply btree_entries_NoDup.
Qed.

(** The watcher the saved list holds for an id: the last one, as collecting into a
    map keeps it. *)
Definition saved_watcher (saved : PersistedRegistry) (id : string) : option WatcherState :=
  last (List.filter (λ w, String.eqb (ws_id w) id) (persisted_watchers saved)).

Lemma collect_saved ws id :
  (btree_collect ((λ w, (ws_id w, w)) <$> ws) : gmap string WatcherState) !! id
  = last (List.filter (λ w, String.eqb (ws_id w) id) ws).
Proof.
  induction ws as [|w ws IH] using rev_ind; [done|].
  rewrite fmap_app, btree_collect_app, List.filter_app, IH. simpl.
  unfold btree_collect. simpl. destruct (String.eqb_spec (ws_id w) id) as [->|Hne].
  - by rewrite lookup_insert_eq, last_snoc.
  - by rewrite lookup_insert_ne, lookup_empty, app_nil_r.
Qed.

Lemma replay_get m l' b id :
  replay_all (btree_entries m) = Ok (l', b) →
  match m !! id, btree_collect l' !! id with
  | Some w, Some w' => fails_closed w w'
  | None, None => True
  | _, _ => False
  end.
Proof.
  intros Hr. pose proof (replay_collect _ _ _ Hr id) as Hc. apply replay_all_spec in Hr.
  destruct (m !! id) as [w|] eqn:Hm.
  - assert ((id, w) ∈ btree_entries m) as Hin by (by apply elem_of_btree_entries).
    apply list_elem_of_lookup in Hin as [i Hi].
    destruct (Forall2_lookup_l _ _ _ _ _ Hr Hi) as ([k w'] & Hi' & Hk & Hf). simpl in *. subst k.
    assert (btree_collect l' !! id = Some w') as ->; [|done].
    apply Hc. exists w. split; [done|]. split; [|done]. apply list_elem_of_lookup. eauto.
  - destruct (btree_collect l' !! id) as [w'|] eqn:Hw; [|done].
    destruct (proj1 (Hc w') eq_refl) as (w & Hw0 & _). congruence.
Qed.

(** C15: a daemon restart fails closed and loses nothing.  The loaded registry has
    exactly the watchers that were saved.  Each keeps its target, schedule, last
    observation and sessions; one that was not already stopped, terminated or
    waiting for a human comes back as [HumanRequired] with its revision increased,
    any other keeps its lifecycle and revision; and its recovery machine is back in
    [NeedsRevalidation] with its budget, attempts, waits, planner calls, completed
    and current fingerprints equal to the saved ones.  A watcher without a machine
    gets a fresh one exactly when its target must be revalidated. *)
Theorem restart_fails_closed saved wo audit reg :
  load_inner (Ok (Present saved)) wo audit = Ok reg →
  keyed reg ∧ ∀ id,
    match saved_watcher saved id, reg_get reg id with
    | Some w, Some w' => fails_closed w w'
    | None, None => True
    | _, _ => False
    end.
Proof.
  unfold load_inner. cbn [map_err rbind]. destruct (persisted_version saved =? 1); [|done].
  cbn [rbind]. set (ws := btree_collect _). intros ([l' b] & Hl & Hreg)%rbind_Ok.
  assert (watchers reg = btree_collect l') as Hw.
  { destruct b, wo; simpl in Hreg; by simplify_eq/=. }
  assert (∀ id, match saved_watcher saved id, reg_get reg id with
    | Some w, Some w' => fails_closed w w' | None, None => True | _, _ => False end) as Hall.
  { intros id. unfold saved_watcher, reg_get. rewrite Hw, <- collect_saved. by eapply replay_get. }
  split; [|done]. intros id w' Hw'. specialize (Hall id). unfold reg_get in Hall.
  rewrite Hw' in Hall. unfold saved_watcher in Hall.
  destruct (last _) as [w|] eqn:Hs; [|done]. rewrite (fc_id _ _ Hall).
  apply last_Some_elem_of in Hs. apply list_elem_of_In, filter_In in Hs as [_ Hid].
  by apply String.eqb_eq in Hid.
Qed.

(** ** Observations *)
Lemma apply_command_Ok m c m' : apply_command m c = Ok m' ↔ apply m c = (m', Ok tt).
Proof. unfold apply_command. destruct (apply m c) as [m1 [[]|e]]; naive_solver. Qed.

(** What observing an event may do to the recovery machine. *)
Definition observed (m m' : RecoveryMachine) (s : ObservationSchedule) (e : Event) : Prop :=
  (state m' = state m ∧ current m' = current m)
  ∨ state m' = Recovery.Observing
  ∨ (state m' = Recovery.Confirmed ∧ confirms (set_state m Recovery.Observing) s e = true
     ∧ current m' = Some (evidence_fingerprint e)).

Lemma confirms_state m m' s e :
  confirms m s e = true → confirms (set_state m' Recovery.Observing) s e = true.
Proof. unfold confirms. rewrite !andb_true_iff. intros [? _]. done. Qed.

Lemma observe_machine_spec m l s e m' l' :
  observe_machine m l s e = Ok (m', l') → observed m m' s e.
Proof.
  unfold observe_machine. intros ([m1 l1] & H1 & H)%rbind_Ok.
  apply rbind_Ok in H as (m2 & H2 & H). apply rbind_Ok in H as (m3 & H3 & ?). simplify_eq.
  assert (observed m m1 s e) as O1.
  { case_bool_decide; [|simplify_eq; by left].
    apply rbind_Ok in H1 as (mx & Hx%apply_command_Ok & ?). simplify_eq.
    apply revalidated_Ok in Hx as [_ ->]. right. by left. }
  assert ((state m2 = state m1 ∧ current m2 = current m1) ∨ state m2 = Recovery.Observing) as O2.
  { destruct (rearms _ _ _); [|simplify_eq; by left].
    apply apply_command_Ok, rearm_after_wait_Ok in H2 as [_ ->]. by right. }
  destruct (confirms m2 s e) eqn:Hc.
  - apply apply_command_Ok, confirm_Ok in H3 as [_ ->]. right. right. simpl.
    split; [done|]. split; [by eapply confirms_state|done].
  - simplify_eq. destruct O2 as [[Hs Hcur]|Hs]; [|right; by left].
    unfold observed in *. by rewrite Hs, Hcur.
Qed.

Lemma commit_observation_machine wo id s e now reg reg' w m :
  commit_observation wo id s e now reg = (reg', Ok tt) →
  reg_get reg id = Some w → recovery w = Some m →
  ∃ w' m', reg_get reg' id = Some w' ∧ recovery w' = Some m' ∧ revision w' = revision w + 1
    ∧ match e with
      | None => m' = m ∧ last_observation w' = last_observation w
      | Some ev => observed m m' (finish_wake s now) ev ∧ last_observation w' = Some ev
      end.
Proof.
  unfold commit_observation, reg_get. intros Hc Hw Hm. apply edit_watcher_spec in Hc; [|tame_tac].
  destruct Hc as (w0 & w1 & Hw0 & Hf & (_ & Hmap & Hrev & _) & _). simplify_eq.
  rewrite Hmap, lookup_insert_eq.
  destruct e as [ev|]; cbn [rbind] in Hf; [|simplify_eq/=; by eexists _, m].
  apply rbind_Ok in Hf as (w2 & Ho & ?). simplify_eq.
  unfold observe_event in Ho. cbn [recovery set_schedule] in Ho. rewrite Hm in Ho.
  apply rbind_Ok in Ho as (w3 & H3 & ?). simplify_eq.
  apply rbind_Ok in H3 as ([m' l'] & H3 & ?). apply observe_machine_spec in H3.
  simplify_eq/=. by eexists _, m'.
Qed.

Lemma finish_wake_stable s now : screen_stable_count (finish_wake s now) = screen_stable_count s.
Proof. unfold finish_wake. by destruct (event_wake_pending s). Qed.

(** An observation may only move a recovery machine to [Observing], or to
    [Confirmed] when it carries an actionable event that is not a screen detection
    or whose screen was stable at least twice; the confirmed fingerprint is then the
    event's.  In particular an observation never starts, fails or completes an
    action. *)
Theorem observation_confirms_only_stable_events wo id s e now reg reg' w m :
  commit_observation wo id s e now reg = (reg', Ok tt) →
  reg_get reg id = Some w → recovery w = Some m →
  ∃ w' m', reg_get reg' id = Some w' ∧ recovery w' = Some m' ∧ revision w' = revision w + 1
    ∧ (state m' = state m ∨ state m' = Recovery.Observing ∨ state m' = Recovery.Confirmed)
    ∧ (state m' = Recovery.Confirmed → state m ≠ Recovery.Confirmed →
         ∃ ev, e = Some ev ∧ is_actionable (category ev) = true
           ∧ (source_kind (source ev) = Source.ScreenDetection → 2 ≤ screen_stable_count s)
           ∧ current m' = Some (evidence_fingerprint ev) ∧ last_observation w' = Some ev).
Proof.
  intros Hc Hw Hm. destruct (commit_observation_machine _ _ _ _ _ _ _ _ _ Hc Hw Hm)
    as (w' & m' & ? & ? & ? & He). exists w', m'. split; [done|]. split; [done|]. split; [done|].
  destruct e as [ev|].
  - destruct He as [[[Hs _]|[Hs|(Hs & Hcf & Hcur)]] Hl].
    + split; [by left|]. congruence.
    + split; [by right; left|]. congruence.
    + split; [by right; right|]. intros _ _. exists ev. split; [done|].
      unfold confirms in Hcf. rewrite finish_wake_stable in Hcf.
      apply andb_true_iff in Hcf as [[Ha Hst]%andb_true_iff _]. split; [done|].
      split; [|done]. intros Hk. rewrite bool_decide_eq_true_2 in Hst by done.
      by apply Z.leb_le in Hst.
  - destruct He as [-> _]. split; [by left|]. congruence.
Qed.

(** Wake requests are coalesced: a pending wake, or a repeat of the last
    completed fingerprint within the 60 s cooldown, is acknowledged without touching
    memory or disk; otherwise the wake is recorded as pending under that fingerprint
    with a new revision, and completing the observation clears it. *)
Theorem wake_coalesced wo id fp now reg reg' w :
  wake_observation wo id fp now reg = (reg', Ok tt) → reg_get reg id = Some w →
  if wake_suppressed (observation_schedule w) fp now then reg' = reg
  else ∃ w', reg_get reg' id = Some w' ∧ revision w' = revision w + 1
         ∧ event_wake_pending (observation_schedule w') = true
         ∧ last_wake_fingerprint (observation_schedule w') = Some fp
         ∧ (∀ fp' now', wake_suppressed (observation_schedule w') fp' now' = true)
         ∧ event_wake_pending (finish_wake (observation_schedule w') now) = false
         ∧ (now + WAKE_COOLDOWN_MS ≤ u64_max → ∀ now', now' < now + WAKE_COOLDOWN_MS →
              wake_suppressed (finish_wake (observation_schedule w') now) fp now' = true).
Proof.
  unfold wake_observation. destruct (_ || _ || _); [done|]. intros Hwk Hw.
  rewrite Hw in Hwk. destruct (wake_suppressed _ _ _) eqn:Hs; [by simplify_eq|].
  apply edit_watcher_spec in Hwk; [|tame_tac].
  destruct Hwk as (w0 & w1 & Hw0 & Hf & (_ & Hm & Hr & _) & _). unfold reg_get in *.
  simplify_eq/=. rewrite Hm, lookup_insert_eq. eexists. split; [done|]. simpl.
  split; [done|]. split; [done|]. split; [done|]. split; [done|]. split; [done|].
  intros Hle now' Hlt. unfold wake_suppressed. simpl.
  unfold opt_str_eqb. rewrite bool_decide_eq_true_2 by done. simpl.
  apply Z.ltb_lt. unfold saturating_add. lia.
Qed.

(** ** The persisted recovery machine *)

(** [m'] is reached from [m] by accepted commands. *)
Definition driven (m m' : RecoveryMachine) : Prop :=
  ∃ ls, mrun m ls m' ∧ ∀ l, l ∈ ls → ∃ c, l = LCmd c true.

Lemma driven_refl m : driven m m.
Proof. exists []. split; [constructor|]. intros l Hl. by apply elem_of_nil in Hl. Qed.

Lemma driven_apply m c m' :
  cmd_typed c → apply_command m c = Ok m' → driven m m'.
Proof.
  intros Ht Ha%apply_command_Ok. exists [LCmd c true]. split.
  - apply (run_snoc _ [] m); [constructor|]. by apply (step_cmd _ c _ (Ok tt)).
  - intros l ->%list_elem_of_singleton. by exists c.
Qed.

Lemma driven_trans m1 m2 m3 : driven m1 m2 → driven m2 m3 → driven m1 m3.
Proof.
  intros (ls1 & H1 & A1) (ls2 & H2 & A2). exists (ls1 ++ ls2). split.
  - clear A2. induction H2 as [|ls m l m' _ IH Hs]; [by rewrite app_nil_r|].
    rewrite app_assoc. by eapply run_snoc.
  - intros l [?|?]%elem_of_app; auto.
Qed.

#[global] Instance driven_preorder : PreOrder driven.
Proof. split; [intros m; apply driven_refl|intros ???; apply driven_trans]. Qed.

Lemma observe_machine_driven m l s e m' l' :
  observe_machine m l s e = Ok (m', l') → driven m m'.
Proof.
  unfold observe_machine. intros ([m1 l1] & H1 & H)%rbind_Ok.
  apply rbind_Ok in H as (m2 & H2 & H). apply rbind_Ok in H as (m3 & H3 & ?). simplify_eq.
  transitivity m1; [|transitivity m2].
  - case_bool_decide; [|by simplify_eq].
    apply rbind_Ok in H1 as (mx & Hx & ?). simplify_eq. by eapply driven_apply; [|done].
  - destruct (rearms _ _ _); [by eapply driven_apply; [|done]|by simplify_eq].
  - destruct (confirms _ _ _); [by eapply driven_apply; [|done]|by simplify_eq].
Qed.

(** The machine of a watcher, if it has one. *)
Definition machine_of (reg : Registry) (id : string) : option RecoveryMachine :=
  watchers reg !! id ≫= recovery.

(** A machine moved by accepted commands; no machine stays no machine. *)
Definition steered (om om' : option RecoveryMachine) : Prop :=
  match om, om' with
  | Some m, Some m' => driven m m'
  | None, None => True
  | _, _ => False
  end.

#[global] Instance steered_preorder : PreOrder steered.
Proof.
  split; [by intros [m|]; simpl|]. intros [m1|] [m2|] [m3|]; simpl; try done. by etrans.
Qed.

(** What may put another machine in the place of a watcher's: the explicit
    replacement, the registration of a new watcher, a registration that promotes the
    watcher to a richer target or attachment, which drops the machine, and the first
    registration of a watcher held back by a restart. *)
Definition installs (op : RegOp) (reg : Registry) (id : string) (om : option RecoveryMachine)
    : Prop :=
  match op with
  | RegRecovery id' m _ => id' = id ∧ om = Some m
  | RegRegister w =>
      (watchers reg !! id = None ∧ ws_id w = id ∧ om = recovery w)
      ∨ (∃ e, watchers reg !! id = Some e
           ∧ ((process_promotion e w || attachment_upgrade e w = true ∧ om = None)
              ∨ (lifecycle e = Lifecycle.HumanRequired RESTART_REVALIDATION_REASON
                 ∧ om = recovery w)))
  | _ => False
  end.

(** Command payloads are within their machine types. *)
Definition op_typed (op : RegOp) : Prop :=
  match op with RegApply _ c _ => cmd_typed c | _ => True end.

(** What an accepted edit of a watcher does to its machine. *)
Lemma edit_machine {A} wo id0 now (f : WatcherState → result RegistryError (WatcherState * A))
    reg reg' r id :
  tame f → edit_watcher wo id0 now f reg = (reg', r) →
  if is_ok r then
    if decide (id0 = id)
    then ∃ w w1 a, watchers reg !! id = Some w ∧ f w = Ok (w1, a)
           ∧ machine_of reg' id = recovery w1
    else machine_of reg' id = machine_of reg id
  else machine_of reg' id = machine_of reg id.
Proof.
  intros Ht E%edit_watcher_spec; [|done]. unfold machine_of.
  destruct r as [a|e]; simpl; [|by destruct E as [-> _]].
  destruct E as (w & w1 & Hw & Hf & (_ & -> & _) & _). destruct (decide (id0 = id)) as [->|Hne].
  - exists w, w1, a. by rewrite lookup_insert_eq.
  - by rewrite lookup_insert_ne.
Qed.

Lemma edit_steered {A} wo id0 now (f : WatcherState → result RegistryError (WatcherState * A))
    reg id :
  tame f → (∀ w w' a, f w = Ok (w', a) → steered (recovery w) (recovery w')) →
  steered (machine_of reg id) (machine_of (edit_watcher wo id0 now f reg).1 id).
Proof.
  intros Ht Hf. destruct (edit_watcher wo id0 now f reg) as [reg' r] eqn:E.
  apply (edit_machine _ _ _ _ _ _ _ id) in E; [|done]. simpl.
  destruct (is_ok r); [|by rewrite E]. destruct (decide (id0 = id)) as [->|_]; [|by rewrite E].
  destruct E as (w & w1 & a & Hw & Hfw & ->). unfold machine_of. rewrite Hw. simpl.
  by eapply Hf.
Qed.

Lemma audit_machine_of reg id0 msg id :
  machine_of (audit_lifecycle id0 msg reg) id = machine_of reg id.
Proof. unfold machine_of. by destruct (audit_lifecycle_frame id0 msg reg) as [-> _]. Qed.

Lemma commit_steered s e now w w' (a : unit) :
  (let w := set_schedule w (finish_wake s now) in
   let? w := match e with Some e => observe_event w e | None => Ok w end in Ok (w, tt))
    = Ok (w', a) → steered (recovery w) (recovery w').
Proof.
  intros Hf. simpl in Hf. apply rbind_Ok in Hf as (w1 & H1 & ?). simplify_eq.
  destruct e as [ev|]; [|by simplify_eq/=].
  unfold observe_event in H1. apply rbind_Ok in H1 as (w2 & H2 & ?). simplify_eq.
  cbn [recovery set_schedule set_observation] in *.
  destruct (recovery w) as [m|] eqn:Hm; [|simplify_eq/=; by rewrite Hm].
  apply rbind_Ok in H2 as ([m' l'] & H2 & ?). apply observe_machine_driven in H2. by simplify_eq/=.
Qed.

Lemma apply_accepted c w w' s :
  (let? m := ok_or (recovery w) (RegCorrupt "missing recovery state") in
   let? m := apply_command m c in Ok (set_recovery w (Some m), state m)) = Ok (w', s) →
  ∃ m m', recovery w = Some m ∧ apply m c = (m', Ok tt) ∧ recovery w' = Some m'.
Proof.
  intros (m & Hm%ok_or_Ok & H)%rbind_Ok. apply rbind_Ok in H as (m' & Ha%apply_command_Ok & ?).
  simplify_eq/=. by exists m, m'.
Qed.

Lemma refreshed_recovery e fresh :
  recovery (refreshed e fresh e)
  = if process_promotion e fresh || attachment_upgrade e fresh then None
    else if replay_revalidated e then recovery fresh else recovery e.
Proof.
  unfold refreshed. destruct (_ || _), (codex_session fresh), (claude_session fresh),
    (replay_revalidated e); done.
Qed.

Lemma replay_revalidated_true e :
  replay_revalidated e = true →
  lifecycle e = Lifecycle.HumanRequired RESTART_REVALIDATION_REASON.
Proof. unfold replay_revalidated. destruct (lifecycle e); try done. by intros ->%String.eqb_eq. Qed.

(** The machine after an operation: installed by it if it was accepted, or moved by
    accepted commands. *)
Definition machine_step (op : RegOp) (ok : bool) (reg reg' : Registry) (id : string) : Prop :=
  steered (machine_of reg id) (machine_of reg' id)
  ∨ (ok = true ∧ installs op reg id (machine_of reg' id)).

Lemma refresh_machine wo id0 fresh reg reg' r id :
  refresh_existing wo id0 fresh reg = (reg', r) →
  machine_step (RegRegister fresh) (is_ok r) reg reg' id.
Proof.
  assert (machine_of reg' id = machine_of reg id → machine_step (RegRegister fresh) (is_ok r) reg reg' id)
    as Hsame by (intros E; left; by rewrite E).
  unfold refresh_existing. destruct (watchers reg !! id0) as [e|] eqn:He;
    [|intros; simplify_eq; by apply Hsame].
  destruct (attachments_conflict e fresh); [intros; simplify_eq; by apply Hsame|].
  destruct (negb _ && _ && _); [intros; simplify_eq; by apply Hsame|].
  destruct (edit_watcher _ _ _ _ _) as [reg1 r1] eqn:Ed.
  apply (edit_machine _ _ _ _ _ _ _ id) in Ed;
    [|intros w w' a [= <- <-]; by destruct (refreshed_frame e fresh w) as (? & ? & _)].
  destruct r1 as [[]|err]; intros [= <- <-]; simpl in *; [|by left; rewrite Ed].
  unfold machine_step. rewrite audit_machine_of.
  destruct (decide (id0 = id)) as [->|_]; [|left; by rewrite Ed].
  destruct Ed as (w & w1 & a & Hw & [= <- <-] & ->). simplify_eq.
  rewrite refreshed_recovery. destruct (_ || _) eqn:Hp.
  { right. split; [done|]. right. exists e. split; [done|]. by left. }
  destruct (replay_revalidated e) eqn:Hr; [|left; unfold machine_of; by rewrite He].
  right. split; [done|]. right. exists e. split; [done|]. right. by apply replay_revalidated_true in Hr.
Qed.

Lemma register_machine wo w reg reg' r id :
  register wo w reg = (reg', r) → machine_step (RegRegister w) (is_ok r) reg reg' id.
Proof.
  assert (machine_of reg' id = machine_of reg id → machine_step (RegRegister w) (is_ok r) reg reg' id)
    as Hsame by (intros E; left; by rewrite E).
  unfold register. destruct (watchers reg !! ws_id w) as [e|] eqn:Hw.
  { destruct (stable_target_eq _ _); [apply refresh_machine|intros; simplify_eq; by apply Hsame]. }
  destruct (find_first _ _) as [e|] in |- *; [apply refresh_machine|].
  destruct (find_first _ _) as [e|] in |- *.
  { destruct (is_richer_target (target e) _); [apply refresh_machine|].
    destruct (is_richer_target _ _); intros; simplify_eq; by apply Hsame. }
  destruct (persist_and_swap _ _ _) as [reg1 r1] eqn:Ep. apply persist_and_swap_spec in Ep.
  destruct r1 as [[]|err]; intros [= <- <-]; simpl.
  - destruct Ep as (Hm & _). unfold machine_step. rewrite audit_machine_of. unfold machine_of.
    rewrite Hm. destruct (decide (ws_id w = id)) as [<-|Hne].
    + right. rewrite lookup_insert_eq. split; [done|]. by left.
    + left. by rewrite lookup_insert_ne.
  - destruct Ep as [Hm _]. left. unfold machine_of. by rewrite Hm.
Qed.

Lemma step_machine op wo reg id :
  op_typed op → machine_step op (reg_step op wo reg).2 reg (reg_step op wo reg).1 id.
Proof.
  intros Ht.
  destruct op as [w|id0 l now|id0 p now|id0 m now|id0 c now|id0 sch now|id0 e now|id0 e now
    |id0 sch e now|id0 fp now]; unfold reg_step, forget; simpl fst; simpl snd.
  - destruct (register wo w reg) as [reg' r] eqn:E. by apply (register_machine _ _ _ _ _ id) in E.
  - left. unfold reg_transition.
    assert (steered (machine_of reg id)
      (machine_of (edit_watcher wo id0 now (λ w, Ok (set_lifecycle w l, tt)) reg).1 id)) as Hs
      by (apply edit_steered; [tame_tac|by intros w w' a [= <- <-]]).
    destruct (edit_watcher _ _ _ _ _) as [reg1 [[]|e]]; simpl; [by rewrite audit_machine_of|done].
  - left. apply edit_steered; [tame_tac|by intros w w' a [= <- <-]].
  - destruct (persist_recovery wo id0 m now reg) as [reg' r] eqn:E. unfold persist_recovery in E.
    apply (edit_machine _ _ _ _ _ _ _ id) in E; [|tame_tac]. simpl in *.
    destruct (is_ok r); [|left; by rewrite E].
    destruct (decide (id0 = id)) as [->|_]; [|left; by rewrite E].
    destruct E as (w & w1 & a & _ & [= <- <-] & E). right. by rewrite E.
  - left. apply edit_steered; [tame_tac|].
    intros w w' a (m & m' & -> & Ha & ->)%apply_accepted. simpl.
    by eapply driven_apply, apply_command_Ok.
  - left. apply edit_steered; [tame_tac|by intros w w' a [= <- <-]].
  - left. apply edit_steered; [tame_tac|by intros w w' a [= <- <-]].
  - left. apply edit_steered; [tame_tac|]. intros w w' a [= <- <-]. by destruct e.
  - left. apply edit_steered; [tame_tac|]. intros w w' a. apply commit_steered.
  - left. unfold wake_observation. destruct (_ || _ || _); [done|].
    destruct (reg_get reg id0); [|done]. destruct (wake_suppressed _ _ _); [done|].
    apply edit_steered; [tame_tac|by intros w' w'' a [= <- <-]].
Qed.

Lemma reg_run_snoc ops op wo reg :
  reg_run (ops ++ [(op, wo)]) reg = (reg_step op wo (reg_run ops reg)).1.
Proof. unfold reg_run. by rewrite foldl_app. Qed.

Lemma run_machine ops reg id :
  Forall (λ ow, op_typed ow.1) ops →
  ∃ om, steered om (machine_of (reg_run ops reg) id)
    ∧ (om = machine_of reg id
       ∨ ∃ ops1 op wo ops2, ops = ops1 ++ (op, wo) :: ops2
           ∧ (reg_step op wo (reg_run ops1 reg)).2 = true ∧ installs op (reg_run ops1 reg) id om).
Proof.
  induction ops as [|[op wo] ops IH] using rev_ind; intros Ht; [eexists; split; [|by left]; done|].
  apply Forall_app in Ht as [Ht [Hop _]%Forall_cons]. rewrite reg_run_snoc.
  destruct (step_machine op wo (reg_run ops reg) id Hop) as [Hs|[Hok Hi]].
  - destruct (IH Ht) as (om & Hom & Hor). exists om. split; [by etrans|].
    destruct Hor as [->|(ops1 & op' & wo' & ops2 & -> & ?)]; [by left|right].
    exists ops1, op', wo', (ops2 ++ [(op, wo)]). by rewrite <- app_assoc.
  - eexists. split; [reflexivity|]. right. by exists ops, op, wo, [].
Qed.

(** A command sent to the registry is applied, or refused without a trace. *)
Lemma step_apply id c now wo reg :
  let '(reg', ok) := reg_step (RegApply id c now) wo reg in
  if ok then ∃ m m', machine_of reg id = Some m ∧ apply m c = (m', Ok tt)
               ∧ machine_of reg' id = Some m'
  else machine_of reg' id = machine_of reg id.
Proof.
  unfold reg_step, forget. destruct (apply_recovery_transition wo id c now reg) as [reg' r] eqn:E.
  unfold apply_recovery_transition in E.
  apply (edit_machine _ _ _ _ _ _ _ id) in E; [|tame_tac]. simpl.
  destruct (is_ok r); [|done]. rewrite decide_True in E by done.
  destruct E as (w & w1 & a & Hw & (m & m' & Hm & Ha & Hm')%apply_accepted & Hr).
  exists m, m'. unfold machine_of at 1. rewrite Hw, Hr. done.
Qed.


Lemma refresh_not_added wo id w reg reg' id' :
  refresh_existing wo id w reg ≠ (reg', Ok (Registration.Added id')).
Proof.
  unfold refresh_existing. destruct (watchers reg !! id) as [e|]; [|done].
  destruct (attachments_conflict e w); [done|]. destruct (negb _ && _ && _); [done|].
  destruct (edit_watcher _ _ _ _ _) as [reg1 [?|?]]; [|done]. by destruct (_ || _ || _).
Qed.

Lemma register_added wo w reg reg' id :
  register wo w reg = (reg', Ok (Registration.Added id)) →
  id = ws_id w ∧ watchers reg' !! ws_id w = Some w.
Proof.
  unfold register. destruct (watchers reg !! ws_id w).
  { destruct (stable_target_eq _ _); [|done]. by intros ?%refresh_not_added. }
  destruct (find_first _ _) in |- *; [by intros ?%refresh_not_added|].
  destruct (find_first _ _) as [e|] in |- *.
  { destruct (is_richer_target (target e) _); [by intros ?%refresh_not_added|].
    by destruct (is_richer_target _ _). }
  destruct (persist_and_swap _ _ _) as [reg1 r] eqn:E. apply persist_and_swap_spec in E.
  destruct r; [|done]. intros [= <- <-]. split; [done|].
  destruct (audit_lifecycle_frame (ws_id w) (λ _, "watcher registered") reg1) as [-> _].
  destruct E as [-> _]. apply lookup_insert_eq.
Qed.

(** Registration is idempotent: after a watcher was added, registering the
    same watcher again is answered [Existing] and changes nothing, neither in memory
    nor on disk nor in the audit. *)
Theorem register_idempotent wo wo' w reg reg' id :
  register wo w reg = (reg', Ok (Registration.Added id)) →
  lifecycle w ≠ Lifecycle.HumanRequired RESTART_REVALIDATION_REASON →
  register wo' w reg' = (reg', Ok (Registration.Existing id)).
Proof.
  intros Hr Hl.
  apply register_added in Hr as [-> Hw].
  unfold register. rewrite Hw.
  assert (stable_target_eq (target w) (target w) = true) as ->
    by (destruct (target w); simpl; rewrite ?String.eqb_refl; apply same_process_refl).
  unfold refresh_existing. rewrite Hw.
  assert (∀ {T} `{EqDecision T} (o : option T), compatible_attachment o o = true) as Hc.
  { intros. unfold compatible_attachment. rewrite (bool_decide_eq_true_2 (o = o)) by done.
    apply orb_true_r. }
  assert (attachments_conflict w w = false) as ->
    by (unfold attachments_conflict; by rewrite !Hc).
  assert (process_promotion w w = false) as ->
    by (unfold process_promotion; by destruct (target w)).
  assert (attachment_upgrade w w = false) as ->
    by (unfold attachment_upgrade; by destruct (codex_session w), (claude_session w)).
  assert (target_upgraded w w = false) as ->
    by (unfold target_upgraded; by destruct (needs_revalidation (target w))).
  assert (replay_revalidated w = false) as ->.
  { unfold replay_revalidated. destruct (lifecycle w); try done.
    apply String.eqb_neq. congruence. }
  done.
Qed.

(** ** A concrete registry *)
Definition empty_registry : Registry := mkRegistry None ∅ true [].

Definition sample_watcher (id : string) (p : Z) : WatcherState :=
  set_recovery (watcher_new id (TProcess (process_identity_new p 8)) Lifecycle.Registered 0 0)
    (Some (machine_new sample_budget)).

Definition sample_registry : Registry :=
  reg_run [(RegRegister (sample_watcher "w1" 7), WriteOk)] empty_registry.

Lemma empty_registry_keyed : keyed empty_registry.
Proof. intros id w. simpl. by rewrite lookup_empty. Qed.

Lemma sample_registry_keyed : keyed sample_registry.
Proof. apply run_keyed, empty_registry_keyed. Qed.

Definition other_ops : list (RegOp * WriteOutcome) :=
  [(RegRegister (sample_watcher "w2" 9), WriteOk);
   (RegTransition "w1" Lifecycle.Paused 5, WriteErr false "disk full")].

Lemma dispatch_snapshot_no_aba_witness :
  let s := mkDispatch (sample_watcher "w1" 7) in
  dispatch_snapshot sample_registry "w1" = Ok s
  ∧ reg_get (reg_run (take 1 other_ops) sample_registry) "w1" = Some (snapshot_watcher s).
Proof.
  intros s. split; [vm_compute; reflexivity|].
  refine (proj1 (dispatch_snapshot_no_aba sample_registry "w1" s (take 1 other_ops)
    (drop 1 other_ops) sample_registry_keyed _ _)); vm_compute; reflexivity.
Defined.


Lemma watched_processes_unique_witness :
  processes_unique (reg_run other_ops sample_registry).
Proof.
  refine (proj2 (watched_processes_unique
    ((RegRegister (sample_watcher "w1" 7), WriteOk) :: other_ops) empty_registry
    empty_registry_keyed _ _)); [|done].
  intros i j wi wj Hi. simpl in Hi. by rewrite lookup_empty in Hi.
Defined.

Lemma restart_fails_closed_witness :
  ∃ reg w', load_inner (Ok (Present (mkPersisted 1 [sample_watcher "w1" 7]))) WriteOk true = Ok reg
    ∧ reg_get reg "w1" = Some w' ∧ fails_closed (sample_watcher "w1" 7) w'.
Proof.
  destruct (load_inner (Ok (Present (mkPersisted 1 [sample_watcher "w1" 7]))) WriteOk true)
    as [reg|e] eqn:E; [|vm_compute in E; discriminate].
  pose proof (proj2 (restart_fails_closed _ _ _ _ E) "w1") as Hw.
  destruct (reg_get reg "w1") as [w'|] eqn:Hg; [|exfalso; exact Hw].
  exists reg, w'. split; [reflexivity|]. split; [exact Hg|]. exact Hw.
Defined.

Definition hook_event (c : EventCategory) (fp : string) : Event :=
  {| schema_version := "1.0"; event_id := "e1"; observed_at := "1970-01-01T00:00:00Z";
     monotonic_sequence := None; watcher_id := "w1"; target_identity_hash := "h";
     agent_id := None; session_id := None; provider_family := None;
     source := mkEventSource Source.Hook "codex" "limit" None;
     category := c; confidence := f64_zero; terminal := false;
     evidence_fingerprint := fp; summary := "s"; redacted_evidence := None; reset := None;
     policy_hint := Hint.DeterministicActionAllowed; supersedes_event_id := None;
     metadata := ∅ |}.
Definition blocked_event : Event := hook_event Category.UsageLimit "f1".

Lemma observation_confirms_only_stable_events_witness :
  ∃ w' m', reg_get (commit_observation WriteOk "w1" schedule_default (Some blocked_event) 9
                      sample_registry).1 "w1" = Some w'
    ∧ recovery w' = Some m' ∧ revision w' = 1.
Proof.
  destruct (observation_confirms_only_stable_events WriteOk "w1" schedule_default
    (Some blocked_event) 9 sample_registry
    (commit_observation WriteOk "w1" schedule_default (Some blocked_event) 9 sample_registry).1
    (sample_watcher "w1" 7) (machine_new sample_budget)) as (w' & m' & H1 & H2 & H3 & _);
    [vm_compute; reflexivity..|].
  exists w', m'. split; [exact H1|]. split; [exact H2|exact H3].
Defined.

Lemma wake_coalesced_witness :
  let reg' := (wake_observation WriteOk "w1" "00112233445566ff" 9 sample_registry).1 in
  ∃ w', reg_get reg' "w1" = Some w' ∧ event_wake_pending (observation_schedule w') = true.
Proof.
  intros reg'.
  destruct (wake_coalesced WriteOk "w1" "00112233445566ff" 9 sample_registry reg'
    (sample_watcher "w1" 7)) as (w' & H1 & _ & H3 & _); [vm_compute; reflexivity..|].
  exists w'. exact (conj H1 H3).
Defined.

Definition begin_ops : list (RegOp * WriteOutcome) :=
  [(RegCommit "w1" schedule_default (Some blocked_event) 9, WriteOk);
   (RegApply "w1" (BeginAction "f1" (mkClock 10 0)) 11, WriteOk);
   (RegApply "w1" (BeginAction "f1" (mkClock 10 0)) 11, WriteOk)].


Lemma register_idempotent_witness :
  register (WriteErr false "x") (sample_watcher "w1" 7) sample_registry
  = (sample_registry, Ok (Registration.Existing "w1")).
Proof.
  refine (register_idempotent WriteOk (WriteErr false "x") (sample_watcher "w1" 7)
    empty_registry sample_registry "w1" _ _); [vm_compute; reflexivity|discriminate].
Defined.
