(* ===== verification/Runtime.v ===== *)
(** * The recovery runtime (src/src/daemon/recovery_runtime.rs,
      src/src/recovery/engine.rs and the identity helpers of src/src/daemon/mod.rs)

    What the daemon does with a confirmed watcher: ask the recipes for an action,
    begin it on the registry under its lock, take a dispatch snapshot, run the
    transaction with evidence read from the registry and the target, dispatch input
    under the registry lock, and settle the outcome.  The program is a tree of the
    calls it makes; the registry lock is explicit. *)
From S2P Require Import Prelude Json Action Event Identity StateMachine State Policy Actuator.
From S2P Require Import Store ActionStore Effects Transaction Registry RegistrySafety.
From stdpp Require Import pretty.

Local Open Scope Z_scope.

(** ** Multiplexer identities *)
Record MuxIdentity : Type := mkMuxIdentity {
  mi_provider : string;
  mi_server_instance : string;
  mi_server : string;
  mi_session_id : string;
  mi_window_id : string;
  mi_pane_id : string;
  mi_tty : string;
  mi_process : ProcessIdentity;
}.

Module Composer.
Inductive ComposerState : Type := Safe | Unsafe | Unknown | Stale.

#[global] Instance ComposerState_eq_dec : EqDecision ComposerState.
Proof. solve_decision. Defined.
End Composer.
Abbreviation ComposerState := Composer.ComposerState.

Definition process_identity_key (t : TargetIdentity) : string :=
  let p := target_process t in
  "process:" +:+ pretty (pid p) +:+ ":" +:+ pretty (start_time p).

Definition mux_identity_key (i : MuxIdentity) : string :=
  mi_provider i +:+ ":" +:+ mi_server i +:+ ":" +:+ mi_server_instance i +:+ ":"
  +:+ mi_session_id i +:+ ":" +:+ mi_window_id i +:+ ":" +:+ mi_pane_id i +:+ ":"
  +:+ pretty (pid (mi_process i)) +:+ ":" +:+ pretty (start_time (mi_process i)).

(** The error is the text of [MuxError::IdentityChanged]. *)
Definition watcher_mux_identity (w : WatcherState) : result string (option MuxIdentity) :=
  match target w with
  | TMultiplexer provider server pane process _ (Some context) _ false =>
      match context with
      | CtxTmux socket_path server_instance session_id window_id pane_id tty =>
          if String.eqb provider "tmux" && String.eqb server socket_path
             && String.eqb pane pane_id
          then Ok (Some (mkMuxIdentity provider server_instance socket_path session_id
                           window_id pane_id tty process))
          else Err "target identity changed: stored mux context contradicts target"
      | CtxHerdr socket_path server_instance workspace_id tab_id pane_id tty _ =>
          if String.eqb provider "herdr" && String.eqb server socket_path
             && String.eqb pane pane_id
          then Ok (Some (mkMuxIdentity provider server_instance socket_path workspace_id
                           tab_id pane_id tty process))
          else Err "target identity changed: stored mux context contradicts target"
      end
  | _ => Ok None
  end.

(** ** Recipes *)
Class RecipeProvider : Type := action_for : WatcherState → option Action.

Definition builtin_action_for (w : WatcherState) : option Action :=
  match last_observation w with
  | None => None
  | Some event =>
      if negb (bool_decide (policy_hint event = Hint.WaitAllowed))
         || negb (category_eqb (category event) Category.WaitingForModel
                  || category_eqb (category event) Category.WaitingForTool)
      then None
      else
        let a := action_new "builtin.wait" (WaitDuration 60)
          "explicit wait-allowed observation" (evidence_fingerprint event) 30 in
        let a := push_preconditions a
          [mkCondition "PROCESS_ALIVE" None;
           mkCondition "EVENT_CATEGORY_IS"
             (Some (VString (to_ascii_uppercase (category_debug (category event)))))] in
        Some (set_outcomes a [mkCondition "WAIT_STATE_RECORDED" None])
  end.

(** ** Calls *)
Module Decision.
Inductive DecisionPhase : Type :=
| PolicyAllow | PolicyDeny | ActionBegin | ActionVerify | ActionCancel.
End Decision.
Abbreviation DecisionPhase := Decision.DecisionPhase.

Inductive RtOp : Type :=
| RtTx (o : Op)
| RtCancelled
| RtLock
| RtUnlock
| RtGet (id : string)
| RtMatches (s : DispatchSnapshot)
| RtSnapshot (id : string)
| RtReg (op : RegOp)
| RtAlive (t : TargetIdentity)
| RtValidate (w : WatcherState) (i : MuxIdentity)
| RtComposer (w : WatcherState) (i : MuxIdentity)
| RtClaudeProgress (w : WatcherState) (baseline : Event)
| RtCodexProgress (w : WatcherState) (baseline : Event)
| RtMux (w : WatcherState) (a : Action)
| RtCapture (w : WatcherState) (source : string) (max_lines : Z)
| RtService (a : Action)
| RtDecision (w : WatcherState) (ph : DecisionPhase) (policy label outcome : string)
| RtNowMs
| RtWallSeconds.

Definition RtAns (o : RtOp) : Type :=
  match o with
  | RtTx o => Ans o
  | RtCancelled | RtMatches _ | RtAlive _ | RtValidate _ _ => bool
  | RtLock | RtUnlock | RtDecision _ _ _ _ _ => unit
  | RtGet _ => option WatcherState
  | RtSnapshot _ => result RegistryError DispatchSnapshot
  | RtReg _ => bool
  | RtComposer _ _ => result string ComposerState
  | RtClaudeProgress _ _ | RtCodexProgress _ _ => option Event
  | RtMux _ _ | RtCapture _ _ _ | RtService _ => result ExecutionError ExecutionOutput
  | RtNowMs | RtWallSeconds => Z
  end.

Abbreviation RtProg := (Prog RtAns).
Definition rcall (o : RtOp) : RtProg (RtAns o) := call o.

(** SHA-256 over the JSON of a target. *)
Class TargetHash : Type := target_identity_hash : TargetIdentity → string.

(** ** Evidence *)
Definition as_i64 (v : Value) : option Z :=
  match v with
  | VNumber (PosInt z) => if z <=? i64_max then Some z else None
  | VNumber (NegInt z) => Some z
  | _ => None
  end.

Definition claude_menu (e : Event) : bool :=
  bool_decide (source_kind (source e) = Source.ScreenDetection)
  && String.eqb (source_id (source e)) "claude"
  && match metadata e !! "claude_menu_moves" ≫= as_i64 with
     | Some z => (-128 <=? z) && (z <=? 127)
     | None => false
     end.

Definition intervened_lifecycle (l : WatcherLifecycle) : bool :=
  match l with
  | Lifecycle.Paused | Lifecycle.Stopped _ | Lifecycle.HumanRequired _
  | Lifecycle.TargetTerminated => true
  | _ => false
  end.

Section Evidence.
Context {thash : TargetHash} (snap : DispatchSnapshot).

Definition fresh_watcher : RtProg (result string WatcherState) :=
  let! _ := rcall RtLock in
  let! w := rcall (RtGet (ws_id (snapshot_watcher snap))) in
  let! _ := rcall RtUnlock in
  Ret (ok_or w "recovery watcher disappeared").

Definition target_and_lifecycle_are_stable (w : WatcherState) : bool :=
  bool_decide (target w = target (snapshot_watcher snap))
  && bool_decide (lifecycle w = lifecycle (snapshot_watcher snap)).

(** Target validation, pane match, identity key and composer safety. *)
Definition target_facts (w : WatcherState) (alive : bool)
    : RtProg (bool * bool * string * bool) :=
  match watcher_mux_identity w with
  | Ok (Some identity) =>
      let! validated := rcall (RtValidate w identity) in
      let! composer :=
        (if validated then
           let! state := rcall (RtComposer w identity) in
           Ret (match state with Ok Composer.Safe => true | _ => false end)
         else Ret false) in
      Ret (validated, validated, mux_identity_key identity, composer)
  | Ok None => Ret (alive, true, process_identity_key (target w), false)
  | Err _ => Ret (false, false, process_identity_key (target w), false)
  end.

Definition live_evidence (w : WatcherState) (event : Event) (alive : bool)
    (facts : bool * bool * string * bool) : LiveEvidence :=
  let '(revalidated, pane, identity, composer) := facts in
  {| lv_identity := identity;
     lv_target_revalidated := revalidated;
     lv_process_alive := alive;
     lv_pane_matches := pane;
     lv_evidence_current :=
       String.eqb (watcher_id event) (ws_id w)
       && String.eqb (Event.target_identity_hash event) (target_identity_hash (target w));
     lv_composer_safe := composer || claude_menu event;
     lv_human_intervened :=
       negb (target_and_lifecycle_are_stable w)
       || intervened_lifecycle (lifecycle w)
       || category_eqb (category event) Category.HumanIntervention;
     lv_event := event |}.

Definition fresh_read : RtProg (result string LiveEvidence) :=
  let! w := fresh_watcher in
  match w with
  | Err e => Ret (Err e)
  | Ok w =>
      match last_observation w with
      | None => Ret (Err "missing current observation")
      | Some event =>
          let! alive := rcall (RtAlive (target w)) in
          let! facts := target_facts w alive in
          Ret (Ok (live_evidence w event alive facts))
      end
  end.

Definition with_event (e : LiveEvidence) (ev : Event) : LiveEvidence :=
  mkLive (lv_identity e) (lv_target_revalidated e) (lv_process_alive e) (lv_pane_matches e)
    (lv_evidence_current e) (lv_composer_safe e) (lv_human_intervened e) ev.

Definition fresh_read_verification (baseline : LiveEvidence)
    : RtProg (result string LiveEvidence) :=
  let! e := fresh_read in
  match e with
  | Err m => Ret (Err m)
  | Ok e =>
      let! w := fresh_watcher in
      match w with
      | Err m => Ret (Err m)
      | Ok w =>
          let! claude := rcall (RtClaudeProgress w (lv_event baseline)) in
          match claude with
          | Some progress => Ret (Ok (with_event e progress))
          | None =>
              let! codex := rcall (RtCodexProgress w (lv_event baseline)) in
              match codex with
              | Some progress => Ret (Ok (with_event e progress))
              | None => Ret (Ok e)
              end
          end
      end
  end.
End Evidence.

(** ** The daemon's executor *)
Section Executor.
Context {thash : TargetHash} (snap : DispatchSnapshot).

Abbreviation ExecResult := (result ExecutionError ExecutionOutput).

Definition confirm_live_evidence : RtProg (result ExecutionError unit) :=
  let! live := fresh_read snap in
  Ret (let? live := map_err Integration live in
       fail_if (lv_human_intervened live || negb (lv_target_revalidated live)
                || negb (lv_process_alive live) || negb (lv_pane_matches live))
         (Unsafe "target changed before dispatch")).

Definition reject_if_cancelled : RtProg (result ExecutionError unit) :=
  let! cancelled := rcall RtCancelled in
  Ret (fail_if cancelled (Unsafe "recovery cancellation requested")).

(** Acquires the registry lock; on a mismatch the guard is dropped. *)
Definition locked_snapshot_watcher : RtProg (result ExecutionError unit) :=
  let! _ := rcall RtLock in
  let! same := rcall (RtMatches snap) in
  if same then Ret (Ok tt)
  else
    let! _ := rcall RtUnlock in
    Ret (Err (Unsafe "target changed before dispatch")).

Definition dispatch_input (a : Action) : RtProg ExecResult :=
  let! confirmed := confirm_live_evidence in
  match confirmed with
  | Err e => Ret (Err e)
  | Ok _ =>
      let! guard := locked_snapshot_watcher in
      match guard with
      | Err e => Ret (Err e)
      | Ok _ =>
          let! result := rcall (RtMux (snapshot_watcher snap) a) in
          let! _ := rcall RtUnlock in
          let! cancelled := rcall RtCancelled in
          if cancelled
          then Ret (Err (PossibleSideEffect
                 "recovery cancellation arrived after multiplexer dispatch"))
          else Ret result
      end
  end.

Definition capture_source_matches (w : WatcherState) (requested : string) : bool :=
  match last_observation w with
  | None => false
  | Some event =>
      match observation_context (target w) with
      | Some (CtxTmux _ _ _ _ _ _) =>
          one_of ["screen_detection"; "screen_recent"] requested
          && bool_decide (source_kind (source event) = Source.ScreenDetection)
          && String.eqb (source_id (source event)) "tmux"
      | Some (CtxHerdr _ _ _ _ _ _ _) =>
          String.eqb requested "structured_state"
          && bool_decide (source_kind (source event) = Source.HerdrAgentState)
          && String.eqb (source_id (source event)) "herdr"
          && String.eqb (rule_or_field (source event)) "typed_pane_state"
      | None => false
      end
  end.

(** [execute_capture]; the multiplexer read itself is the call. *)
Definition execute_capture (w : WatcherState) (src : string) (max_lines : Z)
    : RtProg ExecResult :=
  if negb (capture_source_matches w src)
  then Ret (Err (Unsafe "capture source does not match current adapter observation"))
  else
    match watcher_mux_identity w with
    | Err e => Ret (Err (Integration e))
    | Ok None => Ret (Err (Unsafe "capture requires a multiplexer target"))
    | Ok (Some _) => rcall (RtCapture w src max_lines)
    end.

Definition dispatch_capture (src : string) (max_lines : Z) : RtProg ExecResult :=
  let! confirmed := confirm_live_evidence in
  match confirmed with
  | Err e => Ret (Err e)
  | Ok _ =>
      let! guard := locked_snapshot_watcher in
      match guard with
      | Err e => Ret (Err e)
      | Ok _ =>
          let! result := execute_capture (snapshot_watcher snap) src max_lines in
          let! _ := rcall RtUnlock in
          let! rejected := reject_if_cancelled in
          match rejected with Err e => Ret (Err e) | Ok _ => Ret result end
      end
  end.

Definition daemon_execute (a : Action) : RtProg ExecResult :=
  let! rejected := reject_if_cancelled in
  match rejected with
  | Err e => Ret (Err e)
  | Ok _ =>
      match kind a with
      | SendText _ | SubmitText _ | SendKeys _ => dispatch_input a
      | Capture src max_lines => dispatch_capture src max_lines
      | Notify _ _ => Ret (Err (Unsafe "notification is not an autonomous recovery action"))
      | _ => rcall (RtService a)
      end
  end.
End Executor.

(** ** The engine *)
Section Engine.
Context {rfc : Rfc3339} {render : Rendering} {thash : TargetHash} {recipes : RecipeProvider}.

(** The transaction's trait calls, answered by the daemon. *)
Definition serve (snap : DispatchSnapshot) (o : Op) : RtProg (Ans o) :=
  match o return RtProg (Ans o) with
  | ORead => fresh_read snap
  | OReadVerification baseline => fresh_read_verification snap baseline
  | OExecute a => daemon_execute snap a
  | o => rcall (RtTx o)
  end.

(** [RecoveryEngine::execute]; [None] when the verification loop runs out of fuel. *)
Definition engine_execute (fuel : nat) (w : WatcherState) (own : OwnerIdentity)
    (snap : DispatchSnapshot)
    : RtProg (option (result TransactionError (option ActionRecord))) :=
  match action_for w with
  | None => Ret (Some (Ok None))
  | Some a =>
      let! now := rcall (RtTx OMono) in
      match from_watcher w (now / 1000) with
      | Err m => Ret (Some (Err (TxPolicy m)))
      | Ok rc =>
          let! res := translate (serve snap) (run fuel (ws_id w) own a rc) in
          Ret (match res with
               | None => None
               | Some (Ok r) => Some (Ok (Some r))
               | Some (Err e) => Some (Err e)
               end)
      end
  end.

Definition action_type_label (k : ActionKind) : string :=
  match k with
  | WaitUntil _ => "WAIT_UNTIL"
  | WaitDuration _ => "WAIT_DURATION"
  | Capture _ _ => "CAPTURE"
  | CheckStatus _ => "CHECK_STATUS"
  | SendText _ => "SEND_TEXT"
  | SubmitText _ => "SUBMIT_TEXT"
  | SendKeys _ => "SEND_KEYS"
  | Notify _ _ => "NOTIFY"
  | Escalate _ => "ESCALATE"
  | StopWatching => "STOP_WATCHING"
  | Noop => "NOOP"
  end.

(** [format!("{:?}", phase).to_ascii_lowercase()]. *)
Definition phase_label (p : ActionPhase) : string :=
  match p with
  | Phase.Prepared => "prepared" | Phase.Begun => "begun" | Phase.Sent => "sent"
  | Phase.Verifying => "verifying" | Phase.Succeeded => "succeeded"
  | Phase.Failed => "failed" | Phase.Uncertain => "uncertain"
  | Phase.HumanRequired => "humanrequired"
  end.

(** [agents::codex::mark_resume_sent] on a non-empty fingerprint. *)
Definition mark_resume_sent (e : Event) (fp : string) : Event :=
  if is_empty fp then e
  else
    mkEvent (schema_version e) (event_id e) (observed_at e) (monotonic_sequence e)
      (watcher_id e) (Event.target_identity_hash e) (agent_id e) (session_id e)
      (provider_family e) (source e) (category e) (confidence e) (terminal e)
      (evidence_fingerprint e) (summary e) (redacted_evidence e) (reset e) (policy_hint e)
      (supersedes_event_id e)
      (<["codex_resume_sent_fingerprint" := VString fp]> (metadata e)).

(** The critical section that begins the action and takes the snapshot. *)
Definition begin_under_lock (w : WatcherState) (label fp : string)
    : RtProg (option DispatchSnapshot) :=
  let! _ := rcall RtLock in
  let! mono := rcall (RtTx OMono) in
  let! wall := rcall RtWallSeconds in
  let! now := rcall RtNowMs in
  let! begun := rcall (RtReg (RegApply (ws_id w) (BeginAction fp (mkClock (mono / 1000) wall)) now)) in
  if negb begun then
    let! _ := rcall (RtDecision w Decision.PolicyDeny "DENY recovery begin refused" label
                       "cancelled") in
    let! _ := rcall RtUnlock in
    Ret None
  else
    let! _ := rcall (RtDecision w Decision.PolicyAllow ("ALLOW " +:+ label) label "authorized") in
    let! _ := rcall (RtDecision w Decision.ActionBegin ("ALLOW " +:+ label) label "begun") in
    let! current := rcall (RtGet (ws_id w)) in
    let! _ :=
      (match current ≫= last_observation with
       | Some event =>
           if meta_true (metadata event) "codex_resume" then
             let! now := rcall RtNowMs in
             let! _ := rcall (RtReg (RegEvent (ws_id w) (mark_resume_sent event fp) now)) in
             Ret tt
           else Ret tt
       | None => Ret tt
       end) in
    let! s := rcall (RtSnapshot (ws_id w)) in
    let! _ := rcall RtUnlock in
    Ret (match s with Ok s => Some s | Err _ => None end).

Definition require_human (id why : string) : RtProg unit :=
  let! _ := rcall RtLock in
  let! now := rcall RtNowMs in
  let! _ := rcall (RtReg (RegTransition id (Lifecycle.HumanRequired why) now)) in
  rcall RtUnlock.

(** What is done with the engine's answer. *)
Definition settle (current : WatcherState) (label fp : string)
    (res : result TransactionError (option ActionRecord)) : RtProg unit :=
  match res with
  | Ok (Some r) =>
      if bool_decide (phase r = Phase.Succeeded) then
        let! cancelled := rcall RtCancelled in
        if cancelled then
          let! _ := rcall (RtDecision current Decision.ActionCancel ("ALLOW " +:+ label) label
                             "cancelled_after_side_effect") in
          require_human (ws_id current) "recovery cancellation followed a completed side effect"
        else
          let! _ := rcall RtLock in
          let! now := rcall RtNowMs in
          let! _ := rcall (RtReg (RegApply (ws_id current) (ActionSucceeded fp) now)) in
          let! _ := rcall RtUnlock in
          rcall (RtDecision current Decision.ActionVerify ("ALLOW " +:+ label) label "verified")
      else rcall (RtDecision current Decision.ActionCancel ("ALLOW " +:+ label) label
                    (phase_label (phase r)))
  | Ok None =>
      rcall (RtDecision current Decision.PolicyDeny "DENY no executable action" label
               "no_action")
  | Err error =>
      let text := transaction_error_display error in
      let! _ :=
        (match error with
         | TxPolicy _ =>
             rcall (RtDecision current Decision.PolicyDeny ("DENY " +:+ text) label "cancelled")
         | _ =>
             rcall (RtDecision current Decision.ActionCancel ("ALLOW " +:+ label) label
                      "cancelled")
         end) in
      require_human (ws_id current) ("recovery action requires review: " +:+ text)
  end.

(** [execute_recovery_action_with_cancellation]: [false] when the verification loop
    runs out of fuel. *)
Definition execute_recovery_action (fuel : nat) (w : WatcherState) (own : OwnerIdentity)
    : RtProg bool :=
  let! cancelled := rcall RtCancelled in
  if cancelled then Ret true
  else
    match action_for w with
    | None =>
        let! _ := rcall (RtDecision w Decision.PolicyDeny "DENY no recovery recipe" "NONE"
                           "no_action") in
        Ret true
    | Some a =>
        let label := action_type_label (kind a) in
        let fp := action_fingerprint a in
        if is_empty fp then
          let! _ := rcall (RtDecision w Decision.PolicyDeny "DENY missing evidence fingerprint"
                             label "cancelled") in
          Ret true
        else
          let! dispatch := begin_under_lock w label fp in
          match dispatch with
          | None => Ret true
          | Some snap =>
              let current := snapshot_watcher snap in
              let! res := engine_execute fuel current own snap in
              match res with
              | None => Ret false
              | Some res =>
                  let! _ := settle current label fp res in
                  Ret true
              end
          end
    end.
End Engine.
