(* ===== verification/RuntimeSafety.v ===== *)
(** * End-to-end guarantees of the recovery runtime

    Theorems about every conversation of [execute_recovery_action] with the
    registry, the ledger, the target and the executor: where input may be
    dispatched, how often, and how a begun action is settled. *)
From S2P Require Import Prelude Json Action Event Identity StateMachine State Policy Actuator.
From S2P Require Import Store ActionStore Effects Transaction TransactionSafety.
From S2P Require Import Registry RegistrySafety Runtime.

Local Open Scope Z_scope.

Abbreviation RtEv := (Ev RtAns).

Definition is_mux (e : RtEv) : bool :=
  match projT1 e with RtMux _ _ => true | _ => false end.

Definition quiet (tr : list RtEv) : Prop := ∀ e, e ∈ tr → is_mux e = false.

Lemma quiet_nil : quiet [].
Proof. intros e He. by apply elem_of_nil in He. Qed.
Lemma quiet_cons e tr : quiet (e :: tr) ↔ is_mux e = false ∧ quiet tr.
Proof. unfold quiet. setoid_rewrite elem_of_cons. naive_solver. Qed.
Lemma quiet_app tr1 tr2 : quiet (tr1 ++ tr2) ↔ quiet tr1 ∧ quiet tr2.
Proof. unfold quiet. setoid_rewrite elem_of_app. naive_solver. Qed.

(** The one dispatch of a conversation lies outside its quiet parts. *)
Lemma locate_left ta tb tr1 e tr2 :
  quiet ta → is_mux e = true → ta ++ tb = tr1 ++ e :: tr2 →
  ∃ k, tr1 = ta ++ k ∧ tb = k ++ e :: tr2.
Proof.
  intros Hq He [(k & -> & Heq)|(k & -> & Heq)]%app_eq_inv; [|by exists k].
  destruct k as [|e' k]; simplify_eq/=; [exists []; by rewrite !app_nil_r|].
  rewrite (Hq e') in He; [done|]. set_solver.
Qed.

Lemma locate_right ta tb tr1 e tr2 :
  quiet tb → is_mux e = true → ta ++ tb = tr1 ++ e :: tr2 →
  ∃ k, tr2 = k ++ tb ∧ ta = tr1 ++ e :: k.
Proof.
  intros Hq He [(k & -> & Heq)|(k & -> & Heq)]%app_eq_inv.
  - destruct k as [|e' k]; simplify_eq/=; [|by exists k].
    rewrite (Hq e) in He; [done|]. set_solver.
  - rewrite (Hq e) in He; [done|]. rewrite Heq. set_solver.
Qed.

(** Programs that make only certain calls. *)
Definition within {A} (allowed : RtOp → Prop) (p : RtProg A) : Prop :=
  wp (λ (_ : unit) o, allowed o) (λ s _ _, s) p tt (λ _ _, True).

Section Within.
Context (allowed : RtOp → Prop).

Lemma within_ret {A} (a : A) : within allowed (Ret a).
Proof. done. Qed.

Lemma within_call o : allowed o → within allowed (rcall o).
Proof. done. Qed.

Lemma within_bind {A B} (p : RtProg A) (f : A → RtProg B) :
  within allowed p → (∀ a, within allowed (f a)) → within allowed (bind p f).
Proof.
  intros Hp Hf. apply wp_bind. eapply wp_mono; [|exact Hp]. intros a [] _. apply Hf.
Qed.

Lemma within_traces {A} (p : RtProg A) tr r :
  within allowed p → traces p tr r → ∀ e, e ∈ tr → allowed (projT1 e).
Proof.
  intros Hs Ht. destruct (wp_sound _ _ _ _ _ _ _ Hs Ht) as [Hob _]. clear Hs Ht.
  induction tr as [|[o x] tr IH]; intros e He; [by apply elem_of_nil in He|].
  destruct Hob as [Hg Hob]. apply elem_of_cons in He as [->|He]; [done|by apply IH].
Qed.

Lemma within_translate {A} {Op' : Type} {Ans' : Op' → Type} (f : ∀ o, RtProg (Ans' o))
    (p : Prog Ans' A) :
  (∀ o, within allowed (f o)) → within allowed (translate f p).
Proof.
  intros Hf. induction p as [a|o k IH]; simpl; [done|]. by apply within_bind.
Qed.
End Within.

Lemma within_mono {A} (P Q : RtOp → Prop) (p : RtProg A) :
  (∀ o, P o → Q o) → within P p → within Q p.
Proof.
  intros HPQ. unfold within. induction p as [a|o k IH]; simpl; [done|].
  intros [? Hk]. split; [auto|]. intros x. apply IH, Hk.
Qed.

Definition no_mux (o : RtOp) : Prop := match o with RtMux _ _ => False | _ => True end.
Definition no_registry (o : RtOp) : Prop := match o with RtReg _ => False | _ => True end.
Definition read_only (o : RtOp) : Prop :=
  match o with RtMux _ _ | RtReg _ => False | _ => True end.

(** Programs that never dispatch input. *)
Abbreviation silent := (within no_mux).

Lemma silent_traces {A} (p : RtProg A) tr r : silent p → traces p tr r → quiet tr.
Proof.
  intros Hs Ht e He. pose proof (within_traces _ _ _ _ Hs Ht e He) as Hn. by destruct e as [[] ?].
Qed.

Lemma traces_rcall {A} o (k : RtAns o → RtProg A) tr r :
  traces (bind (rcall o) k) tr r ↔ ∃ x tr', tr = existT o x :: tr' ∧ traces (k x) tr' r.
Proof. done. Qed.

(** Finds an event in an explicit conversation. *)
Ltac in_tac :=
  lazymatch goal with
  | |- _ ∈ _ :: _ => first [apply list_elem_of_here | apply list_elem_of_further; in_tac]
  | |- _ ∈ _ ++ _ => apply elem_of_app; first [left; in_tac | right; in_tac]
  end.

(** Closes [within] goals by following the program. *)
Ltac within_tac :=
  repeat first
    [ done
    | match goal with |- ∀ _, _ => intros ? end
    | apply within_ret
    | apply within_call; done
    | apply within_bind; [|intros ?]
    | match goal with |- within _ (match ?x with _ => _ end) => destruct x end ].

Section Silent.
Context {thash : TargetHash}.

Lemma fresh_watcher_reads snap : within read_only (fresh_watcher snap).
Proof. unfold fresh_watcher. within_tac. Qed.

Lemma fresh_read_reads snap : within read_only (fresh_read snap).
Proof.
  unfold fresh_read. apply within_bind; [apply fresh_watcher_reads|]. intros w.
  unfold target_facts. within_tac.
Qed.

Lemma fresh_read_verification_reads snap b : within read_only (fresh_read_verification snap b).
Proof.
  unfold fresh_read_verification. apply within_bind; [apply fresh_read_reads|].
  intros [e|m]; [|within_tac]. apply within_bind; [apply fresh_watcher_reads|]. within_tac.
Qed.

Lemma confirm_live_evidence_reads snap : within read_only (confirm_live_evidence snap).
Proof.
  unfold confirm_live_evidence. apply within_bind; [apply fresh_read_reads|]. within_tac.
Qed.

Lemma dispatch_capture_reads snap src n : within read_only (dispatch_capture snap src n).
Proof.
  unfold dispatch_capture. apply within_bind; [apply confirm_live_evidence_reads|].
  intros [[]|e]; [|within_tac]. unfold locked_snapshot_watcher, execute_capture,
    reject_if_cancelled. within_tac.
Qed.

Lemma reads_silent {A} (p : RtProg A) : within read_only p → silent p.
Proof. apply within_mono. by intros []. Qed.

Lemma reads_no_registry {A} (p : RtProg A) : within read_only p → within no_registry p.
Proof. apply within_mono. by intros []. Qed.

Lemma daemon_execute_no_registry snap a : within no_registry (daemon_execute snap a).
Proof.
  unfold daemon_execute, reject_if_cancelled. apply within_bind; [within_tac|].
  assert (within no_registry (dispatch_input snap a)) as Hd.
  { unfold dispatch_input. apply within_bind;
      [apply reads_no_registry, confirm_live_evidence_reads|].
    unfold locked_snapshot_watcher. within_tac. }
  intros [[]|e]; [|within_tac]. destruct (kind a); try done; try (by within_tac).
  apply reads_no_registry, dispatch_capture_reads.
Qed.

Lemma begin_under_lock_silent w label fp : silent (begin_under_lock w label fp).
Proof. unfold begin_under_lock. within_tac. Qed.

Lemma settle_silent w label fp res : silent (settle w label fp res).
Proof. unfold settle, require_human. within_tac. Qed.
End Silent.

(** ** Dispatch of input *)

(** What surrounds a dispatch inside the executor. *)
Record critical_region (snap : DispatchSnapshot) (a : Action) (tr1 : list RtEv) (e : RtEv)
    (tr2 : list RtEv) (res : result ExecutionError ExecutionOutput) : Prop := {
  cr_event : ∃ x c, e = existT (RtMux (snapshot_watcher snap) a) x
    ∧ tr2 = [existT RtUnlock tt; existT RtCancelled c]
    ∧ res = if c then Err (PossibleSideEffect
              "recovery cancellation arrived after multiplexer dispatch") else x;
  cr_locked : ∃ tr0, tr1 = tr0 ++ [existT RtLock tt; existT (RtMatches snap) true];
  cr_input : requires_composer (kind a) = true;
  cr_quiet : quiet tr1;
}.

Section Dispatch.
Context {thash : TargetHash}.

Lemma dispatch_input_region snap a tr1 e tr2 res :
  requires_composer (kind a) = true →
  traces (dispatch_input snap a) (tr1 ++ e :: tr2) res → is_mux e = true →
  critical_region snap a tr1 e tr2 res.
Proof.
  intros Hk Ht He. unfold dispatch_input in Ht.
  apply traces_bind in Ht as (ta & tb & c & Heq & Hc & Ht).
  pose proof (silent_traces _ _ _ (reads_silent _ (confirm_live_evidence_reads snap)) Hc) as Hq.
  symmetry in Heq. apply locate_left in Heq as (k & -> & ->); [|done..].
  destruct c as [[]|err]; [|destruct Ht as [Hnil _]; by destruct k].
  simpl in Ht. destruct Ht as (u & l1 & Heq & same & l2 & -> & Ht).
  assert (quiet [existT RtLock u; existT (RtMatches snap) same]) as Hq2
    by (rewrite !quiet_cons; split_and!; try done; apply quiet_nil).
  symmetry in Heq. change (?x :: ?y :: l2) with ([x; y] ++ l2) in Heq.
  apply locate_left in Heq as (k' & -> & ->); [|done..]. destruct u.
  destruct same; simpl in Ht.
  - destruct Ht as (x & l3 & Heq & u & l4 & -> & cc & l5 & -> & Ht). destruct u.
    destruct k' as [|e' k'].
    + simplify_eq/=. split; [exists x, cc; by destruct cc, Ht as [-> ->]|by exists ta|done|].
      by apply quiet_app.
    + exfalso. simpl in Heq. injection Heq as _ Heq.
      assert (e ∈ existT RtUnlock tt :: existT RtCancelled cc :: l5) as Hin
        by (rewrite <- Heq; set_solver).
      assert (l5 = []) as -> by (by destruct cc, Ht as [-> _]).
      repeat (apply elem_of_cons in Hin as [->|Hin]; [done|]). by apply elem_of_nil in Hin.
  - exfalso. destruct Ht as (u & l3 & Heq & -> & _).
    destruct k' as [|? [|]]; by simplify_eq/=.
Qed.

Lemma daemon_execute_region snap a tr1 e tr2 res :
  traces (daemon_execute snap a) (tr1 ++ e :: tr2) res → is_mux e = true →
  critical_region snap a tr1 e tr2 res ∧ ∃ tr0, tr1 = existT RtCancelled false :: tr0.
Proof.
  intros Ht He. unfold daemon_execute, reject_if_cancelled in Ht. simpl in Ht.
  destruct Ht as (c & l1 & Heq & Ht). symmetry in Heq.
  change (?x :: l1) with ([x] ++ l1) in Heq. apply locate_left in Heq as (k & -> & ->);
    [|by rewrite quiet_cons; split; [done|apply quiet_nil]|done].
  destruct c; simpl in Ht; [destruct Ht as [Hnil _]; by destruct k|].
  assert (∀ p : RtProg (result ExecutionError ExecutionOutput), silent p →
    traces p (k ++ e :: tr2) res → False) as Hsil.
  { intros p Hp Htp. pose proof (silent_traces _ _ _ Hp Htp) as Hq.
    rewrite (Hq e) in He; [done|set_solver]. }
  assert (requires_composer (kind a) = true → traces (dispatch_input snap a) (k ++ e :: tr2) res →
    critical_region snap a (existT RtCancelled false :: k) e tr2 res) as Hreg.
  { intros Hk Htd. destruct (dispatch_input_region _ _ _ _ _ _ Hk Htd He) as [? [tr0 ->] ? ?].
    split; [done|by exists (existT RtCancelled false :: tr0)|done|].
    apply quiet_cons. done. }
  split; [|by eexists].
  destruct (kind a) eqn:Ek; rewrite ?Ek in *;
    try (exfalso; by eapply Hsil, Ht; within_tac); try (by apply Hreg).
  exfalso. eapply Hsil, Ht. apply reads_silent, dispatch_capture_reads.
Qed.
End Dispatch.

(** ** Composition with the transaction *)
Section Compose.
Context {rfc : Rfc3339} {render : Rendering} {thash : TargetHash} {recipes : RecipeProvider}.

Lemma serve_silent snap o : (∀ a, o ≠ OExecute a) → silent (serve snap o).
Proof.
  intros Ho. destruct o; try (by destruct (Ho a)); try (apply within_call; done).
  - apply reads_silent, fresh_read_reads.
  - apply reads_silent, fresh_read_verification_reads.
Qed.

Lemma refines_quiet snap tr tr' :
  refines (serve snap) tr tr' → (∀ e, e ∈ tr → is_execute e = false) → quiet tr'.
Proof.
  induction 1 as [|o x seg tr tr' Hseg _ IH]; intros Hex; [apply quiet_nil|].
  apply quiet_app. split.
  - eapply silent_traces; [|exact Hseg]. apply serve_silent. intros a ->.
    assert (is_execute (existT (OExecute a) x) = false) as Hx by (apply Hex; by left). done.
  - apply IH. intros e He. apply Hex. by right.
Qed.

(** Store and clock calls of the transaction appear as they are. *)
Definition mirror (e : Ev Ans) : option RtEv :=
  match projT1 e with
  | ORead | OReadVerification _ | OExecute _ => None
  | _ => Some (existT (RtTx (projT1 e)) (projT2 e))
  end.

Lemma refines_mirror snap tr tr' e e' :
  refines (serve snap) tr tr' → e ∈ tr → mirror e = Some e' → e' ∈ tr'.
Proof.
  induction 1 as [|o x seg tr tr' Hseg _ IH]; intros He Hm; [by apply elem_of_nil in He|].
  apply elem_of_app. apply elem_of_cons in He as [->|He]; [left|right; by apply IH].
  unfold mirror in Hm. cbn [projT1 projT2] in Hm.
  destruct o; simplify_eq; simpl in Hseg; destruct Hseg as (y & l & -> & -> & ->); by left.
Qed.

Lemma begin_under_lock_Some w label fp tr snap :
  traces (begin_under_lock w label fp) tr (Some snap) →
  (∃ clock now, existT (RtReg (RegApply (ws_id w) (BeginAction fp clock) now)) true ∈ tr)
  ∧ existT (RtSnapshot (ws_id w)) (Ok snap) ∈ tr.
Proof.
  unfold begin_under_lock. simpl.
  intros (u & l1 & -> & mono & l2 & -> & wall & l3 & -> & now & l4 & -> & b & l5 & -> & Ht).
  destruct b; simpl in Ht.
  - destruct Ht as (? & l6 & -> & ? & l7 & -> & cur & l8 & -> & Ht).
    apply traces_bind in Ht as (tm & l9 & ? & -> & _ & Ht). simpl in Ht.
    destruct Ht as (s & l10 & -> & ? & l11 & -> & -> & Hs). destruct s as [s|e]; simplify_eq.
    split; [eexists _, _|]; in_tac.
  - by destruct Ht as (? & l6 & -> & ? & l7 & -> & -> & ?).
Qed.

(** What a dispatch presupposes, in the words of the runtime's calls. *)
Record authorized_dispatch (w : WatcherState) (snap : DispatchSnapshot) (a : Action)
    (tr : list RtEv) : Prop := {
  ad_begun : ∃ fp clock now,
    existT (RtReg (RegApply (ws_id w) (BeginAction fp clock) now)) true ∈ tr;
  ad_snapshot : existT (RtSnapshot (ws_id w)) (Ok snap) ∈ tr;
  ad_recipe : action_for (snapshot_watcher snap) = Some a;
  ad_policy : ∃ mono rc base wall, from_watcher (snapshot_watcher snap) mono = Ok rc
    ∧ usable a base ∧ authorize a (policy_context base rc wall) = Ok tt;
  ad_claimed : ∃ r, existT (RtTx (OClaim (ws_id (snapshot_watcher snap)) r)) (Ok true) ∈ tr
    ∧ phase r = Phase.Prepared;
  ad_commit : ∃ r, existT (RtTx (OAppend (ws_id (snapshot_watcher snap)) r)) (Ok tt) ∈ tr
    ∧ phase r = Phase.Begun;
  ad_locked : ∃ tr0, tr = tr0 ++ [existT RtLock tt; existT (RtMatches snap) true];
}.

Lemma engine_dispatch fuel own snap tr1 e tr2 res :
  traces (engine_execute fuel (snapshot_watcher snap) own snap) (tr1 ++ e :: tr2) res →
  is_mux e = true →
  ∃ a x c tr3, e = existT (RtMux (snapshot_watcher snap) a) x
    ∧ tr2 = [existT RtUnlock tt; existT RtCancelled c] ++ tr3
    ∧ quiet tr1 ∧ quiet tr2
    ∧ ∀ w tr0, (∃ fp clock now,
         existT (RtReg (RegApply (ws_id w) (BeginAction fp clock) now)) true ∈ tr0) →
       existT (RtSnapshot (ws_id w)) (Ok snap) ∈ tr0 →
       authorized_dispatch w snap a (tr0 ++ tr1).
Proof.
  intros Ht He. unfold engine_execute in Ht.
  destruct (action_for (snapshot_watcher snap)) as [a|] eqn:Ha;
    [|destruct Ht as [Hnil _]; by destruct tr1].
  simpl in Ht. destruct Ht as (mono & l1 & Heq & Ht). symmetry in Heq.
  change (?x :: l1) with ([x] ++ l1) in Heq. apply locate_left in Heq as (k & -> & ->);
    [|by rewrite quiet_cons; split; [done|apply quiet_nil]|done].
  destruct (from_watcher _ _) as [rc|m] eqn:Hrc; [|destruct Ht as [Hnil _]; by destruct k].
  apply traces_bind in Ht as (tt1 & tt2 & res' & Heq & Ht & [-> _]).
  rewrite app_nil_r in Heq. subst tt1.
  apply traces_translate in Ht as (tx & Htx & Href).
  destruct (refines_split _ _ _ Href _ _ _ eq_refl)
    as (xa & o & x & xb & sa & sb & ra & rb & -> & Hseg & Hra & Hrb & -> & ->).
  destruct o; try (exfalso; eapply silent_traces in Hseg; [|by apply serve_silent];
    rewrite (Hseg e) in He; [done|set_solver]).
  simpl in Hseg. apply daemon_execute_region in Hseg as [[Hev [s0 ->] _ Hq] _]; [|done].
  destruct Hev as (y & c & -> & -> & _).
  apply run_executes_guarded in Htx
    as (-> & (base & r & (r0 & conf & wall & Hcl & _ & _ & _ & Hwall & Hph & _ & Hus & _ & _ & Hau)
                     & (rb' & e' & Hap & Hbg & _)) & Hno).
  assert (quiet ra) as Hqa by (eapply refines_quiet; [done|]; set_solver).
  assert (quiet rb) as Hqb by (eapply refines_quiet; [done|]; set_solver).
  exists a, y, c, rb. split; [done|]. split; [done|].
  split. { apply quiet_cons. split; [done|]. by apply quiet_app. }
  split. { apply quiet_app. split; [|done]. rewrite !quiet_cons. split_and!; try done. apply quiet_nil. }
  intros w tr0 Hb Hs. split.
  - destruct Hb as (fp & clock & now & Hb). exists fp, clock, now. apply elem_of_app. by left.
  - apply elem_of_app. by left.
  - done.
  - exists (mono / 1000), rc, base, wall. done.
  - exists r0. split; [|done]. apply elem_of_app. right. apply elem_of_cons. right.
    apply elem_of_app. left. eapply refines_mirror; [exact Hra|exact Hcl|done].
  - exists rb'. split; [|done]. apply elem_of_app. right. apply elem_of_cons. right.
    apply elem_of_app. left. eapply refines_mirror; [exact Hra|exact Hap|done].
  - exists (tr0 ++ existT (RtTx OMono) mono :: ra ++ s0). rewrite <- app_assoc. simpl.
    by rewrite <- app_assoc.
Qed.
Lemma runtime_dispatch fuel w own tr1 e tr2 res :
  traces (execute_recovery_action fuel w own) (tr1 ++ e :: tr2) res → is_mux e = true →
  ∃ snap a x c tr3, e = existT (RtMux (snapshot_watcher snap) a) x
    ∧ tr2 = [existT RtUnlock tt; existT RtCancelled c] ++ tr3
    ∧ quiet tr1 ∧ quiet tr2 ∧ authorized_dispatch w snap a tr1.
Proof.
  intros Ht He. unfold execute_recovery_action in Ht.
  apply traces_rcall in Ht as (c & l1 & Heq & Ht). symmetry in Heq.
  change (?x :: l1) with ([x] ++ l1) in Heq. apply locate_left in Heq as (k & -> & ->);
    [|by rewrite quiet_cons; split; [done|apply quiet_nil]|done].
  assert (∀ p : RtProg bool, silent p → traces p (k ++ e :: tr2) res → False) as Hsil.
  { intros p Hp Htp. pose proof (silent_traces _ _ _ Hp Htp) as Hq.
    rewrite (Hq e) in He; [done|set_solver]. }
  cbn [bind] in Ht. destruct c; [exfalso; by eapply Hsil, Ht|].
  destruct (action_for w) as [a|]; [|exfalso; eapply Hsil, Ht; within_tac].
  destruct (is_empty _); [exfalso; eapply Hsil, Ht; within_tac|].
  apply traces_bind in Ht as (tb & tm & d & Heq & Hb & Ht).
  pose proof (silent_traces _ _ _ (begin_under_lock_silent _ _ _) Hb) as Hqb.
  symmetry in Heq. apply locate_left in Heq as (k2 & -> & ->); [|done..].
  destruct d as [snap|]; [|destruct Ht as [Hnil _]; by destruct k2].
  apply begin_under_lock_Some in Hb as [(clock & now & Hbeg) Hsnap].
  apply traces_bind in Ht as (te & ts & er & Heq & Hte & Hts).
  assert (quiet ts) as Hqs.
  { eapply silent_traces; [|exact Hts]. destruct er; [|within_tac].
    apply within_bind; [apply settle_silent|]. within_tac. }
  symmetry in Heq. apply locate_right in Heq as (k3 & -> & ->); [|done..].
  apply engine_dispatch in Hte as (a' & x & c & tr3 & -> & -> & Hq1 & Hq2 & Had); [|done].
  exists snap, a', x, c, (tr3 ++ ts). split; [done|]. split; [by rewrite <- app_assoc|].
  split. { apply quiet_cons. split; [done|]. by apply quiet_app. }
  split; [by apply quiet_app|].
  rewrite app_assoc.
  apply Had; [exists (action_fingerprint a), clock, now|]; apply elem_of_app; by right.
Qed.
End Compose.

(** ** Properties *)

(** C1: end to end, the daemon sends input to a terminal at most once per recovery,
    and only inside the registry lock with the dispatch snapshot still matching,
    after the attempt was accepted and persisted by the recovery machine, for the
    action the recipe proposes for exactly that snapshot, authorised by the policy on
    live evidence, claimed in the ledger and durably begun; the lock is released
    right after the dispatch. *)
Theorem input_dispatch_guarded {rfc : Rfc3339} {render : Rendering} {thash : TargetHash}
    {recipes : RecipeProvider} fuel w own tr1 e tr2 res :
  traces (execute_recovery_action fuel w own) (tr1 ++ e :: tr2) res → is_mux e = true →
  ∃ snap a x c tr3, e = existT (RtMux (snapshot_watcher snap) a) x
    ∧ tr2 = [existT RtUnlock tt; existT RtCancelled c] ++ tr3
    ∧ quiet tr1 ∧ quiet tr2 ∧ authorized_dispatch w snap a tr1.
Proof. apply runtime_dispatch. Qed.

(** ** Settlement of begun actions *)

(** The registry commands that settle an attempt of watcher [id] on [fp]: its
    success, or the hand-off to a human. *)
Definition settling (id fp : string) (op : RegOp) : bool :=
  match op with
  | RegApply i (ActionSucceeded f) _ => String.eqb i id && String.eqb f fp
  | RegTransition i (Lifecycle.HumanRequired _) _ => String.eqb i id
  | _ => false
  end.

(** A watcher whose attempt is settled: a human is in charge, or the machine has
    completed the fingerprint. *)
Definition attempt_settled (reg : Registry) (id fp : string) : Prop :=
  ∃ w, reg_get reg id = Some w
    ∧ ((∃ why, lifecycle w = Lifecycle.HumanRequired why)
       ∨ ∃ m, recovery w = Some m ∧ state m = Recovery.Recovered ∧ fp ∈ completed m).

(** An accepted settling command settles. *)
Lemma settling_settles id fp op wo reg :
  settling id fp op = true → (reg_step op wo reg).2 = true →
  attempt_settled (reg_step op wo reg).1 id fp.
Proof.
  unfold settling, attempt_settled, reg_get. intros Hs Hok. destruct op; try done.
  - destruct l; try done. apply String.eqb_eq in Hs as ->. revert Hok. cbn [reg_step forget fst snd].
    unfold reg_transition. destruct (edit_watcher _ _ _ _ _) as [reg' [[]|e]] eqn:E; [|done].
    apply edit_watcher_spec in E as (w & w1 & Hw & [= <-] & (_ & Hm & _) & _); [|tame_tac].
    intros _. simpl. destruct (audit_lifecycle_frame id (λ w, lifecycle_message (lifecycle w)) reg')
      as [-> _]. rewrite Hm, lookup_insert_eq. eexists. split; [done|]. left. by eexists.
  - destruct c; try done. apply andb_true_iff in Hs as [->%String.eqb_eq ->%String.eqb_eq].
    revert Hok. cbn [reg_step forget fst snd]. unfold apply_recovery_transition.
    destruct (edit_watcher _ _ _ _ _) as [reg' [st|e]] eqn:E; [|done].
    apply edit_watcher_spec in E as (w & w1 & Hw & Hf & (_ & Hm & _) & _); [|tame_tac].
    apply apply_accepted in Hf as (m & m' & _ & Ha & Hm').
    apply action_succeeded_Ok in Ha as (_ & _ & ->). intros _. simpl.
    rewrite Hm, lookup_insert_eq. eexists. split; [done|]. right. eexists. split; [done|].
    simpl. split; [done|]. set_solver.
Qed.

(** The attempt of [id] on [fp] is under way. *)
Definition attempt_open (reg : Registry) (id fp : string) : Prop :=
  ∃ w m, reg_get reg id = Some w ∧ revision w < u64_max ∧ recovery w = Some m
    ∧ state m = Recovery.Acting ∧ current m = Some fp.

Lemma edit_accepted {A} id now (f : WatcherState → result RegistryError (WatcherState * A)) reg
    w w1 a :
  tame f → reg_get reg id = Some w → revision w < u64_max → f w = Ok (w1, a) →
  is_ok (edit_watcher WriteOk id now f reg).2 = true.
Proof.
  unfold reg_get, edit_watcher. intros Ht -> Hr Hf. rewrite Hf. cbn [rbind fst snd].
  destruct (Ht _ _ _ Hf) as [Hrev _].
  rewrite (proj2 (bump_Ok w1 now _)) by (split; [lia|done]). done.
Qed.

(** While the attempt is under way a settling command is accepted, unless the
    write fails. *)
Lemma settling_accepted id fp op reg :
  settling id fp op = true → attempt_open reg id fp → (reg_step op WriteOk reg).2 = true.
Proof.
  unfold settling. intros Hs (w & m & Hw & Hr & Hm & Hst & Hc). destruct op; try done.
  - destruct l; try done. apply String.eqb_eq in Hs as ->. cbn [reg_step forget snd].
    unfold reg_transition.
    assert (is_ok (edit_watcher WriteOk id now
      (λ w, Ok (set_lifecycle w (Lifecycle.HumanRequired reason), tt)) reg).2 = true) as He
      by (eapply edit_accepted; [tame_tac|done|done|done]).
    by destruct (edit_watcher _ _ _ _ _) as [reg' [[]|e]].
  - destruct c; try done. apply andb_true_iff in Hs as [->%String.eqb_eq ->%String.eqb_eq].
    eapply edit_accepted; [tame_tac|done|done|]. rewrite Hm. cbn [ok_or rbind].
    unfold apply_command. cbn [apply].
    by rewrite (proj2 (action_succeeded_Ok m fp _) (conj Hst (conj Hc eq_refl))).
Qed.

(** The registry calls of a conversation, with their answers. *)
Definition registry_calls (tr : list RtEv) : list (RegOp * bool) :=
  omap (λ e, match projT1 e as o return RtAns o → option (RegOp * bool) with
             | RtReg op => λ b, Some (op, b)
             | _ => λ _, None
             end (projT2 e)) tr.

Lemma registry_calls_app tr1 tr2 :
  registry_calls (tr1 ++ tr2) = registry_calls tr1 ++ registry_calls tr2.
Proof. apply omap_app. Qed.

Lemma registry_calls_in op b tr :
  (op, b) ∈ registry_calls tr ↔ existT (RtReg op) b ∈ tr.
Proof.
  unfold registry_calls. rewrite list_elem_of_omap. split.
  - intros ([o x] & Hin & Ho). destruct o; simplify_eq/=. done.
  - intros Hin. by exists (existT (RtReg op) b).
Qed.

(** The registry answers a snapshot request with the watcher asked for. *)
Definition snapshots_keyed (tr : list RtEv) : Prop :=
  ∀ id snap, existT (RtSnapshot id) (Ok snap) ∈ tr → ws_id (snapshot_watcher snap) = id.

Lemma dispatch_snapshot_keyed reg id snap :
  keyed reg → dispatch_snapshot reg id = Ok snap → ws_id (snapshot_watcher snap) = id.
Proof.
  unfold dispatch_snapshot, reg_get. intros Hk.
  destruct (watchers reg !! id) as [w|] eqn:Hw; simpl; [|done]. intros [= <-]. by apply Hk.
Qed.

Section Settle.
Context {rfc : Rfc3339} {render : Rendering} {thash : TargetHash} {recipes : RecipeProvider}.

Lemma require_human_calls id fp why tr r :
  traces (require_human id why) tr r →
  ∃ op b, registry_calls tr = [(op, b)] ∧ settling id fp op = true.
Proof.
  intros (u & l1 & -> & now & l2 & -> & b & l3 & -> & ? & l4 & -> & -> & _).
  eexists _, b. split; [done|]. apply String.eqb_refl.
Qed.

Lemma settle_calls cur label fp res tr u :
  traces (settle cur label fp res) tr u →
  (∃ op b, registry_calls tr = [(op, b)] ∧ settling (ws_id cur) fp op = true)
  ∨ registry_calls tr = []
    ∧ (res = Ok None ∨ ∃ r, res = Ok (Some r) ∧ phase r ≠ Phase.Succeeded).
Proof.
  unfold settle. destruct res as [[r|]|error]; intros Ht.
  - case_bool_decide as Hp.
    + left. apply traces_rcall in Ht as (c & l1 & -> & Ht). cbn [bind] in Ht. destruct c.
      * apply traces_rcall in Ht as (d & l2 & -> & Ht). cbn [bind] in Ht.
        by apply (require_human_calls _ fp) in Ht.
      * destruct Ht as (? & l2 & -> & now & l3 & -> & b & l4 & -> & ? & l5 & -> & ? & l6 & -> & -> & _).
        eexists _, b. split; [done|]. simpl. by rewrite !String.eqb_refl.
    + right. destruct Ht as (? & l & -> & -> & _). split; [done|]. right. eauto.
  - right. destruct Ht as (? & l & -> & -> & _). split; [done|]. by left.
  - left. apply traces_bind in Ht as (ta & tb & ? & -> & Ha & Ht).
    apply (require_human_calls _ fp) in Ht as (op & b & Hc & Hs). exists op, b.
    split; [|done]. rewrite registry_calls_app, Hc.
    assert (registry_calls ta = []) as ->; [|done].
    destruct error; destruct Ha as (? & l & -> & -> & _); done.
Qed.

Lemma engine_answer fuel own w snap tr res :
  traces (engine_execute fuel w own snap) tr (Some (Ok res)) →
  match res with
  | Some r => phase r = Phase.Succeeded
  | None => action_for w = None
  end.
Proof.
  unfold engine_execute. destruct (action_for w) as [a|].
  - intros (mono & l1 & -> & Ht)%traces_rcall. cbn [bind] in Ht.
    destruct (from_watcher _ _) as [rc|m]; [|by destruct Ht].
    apply traces_bind in Ht as (ta & tb & r & -> & Ht & [-> Hres]).
    apply traces_translate in Ht as (tx & Htx & _).
    destruct r as [[r|e]|]; simplify_eq. by apply run_succeeds_verified in Htx as [? _].
  - intros [_ Hres]. by simplify_eq.
Qed.

(** The registry is asked to begin once, with the fingerprint of the action. *)
Lemma begin_under_lock_calls w label fp tr d :
  traces (begin_under_lock w label fp) tr d →
  ∃ clock now b rest,
    registry_calls tr = (RegApply (ws_id w) (BeginAction fp clock) now, b) :: rest
    ∧ (∀ op ok, (op, ok) ∈ rest → ∃ e t, op = RegEvent (ws_id w) e t)
    ∧ match d with
      | Some snap => b = true ∧ existT (RtSnapshot (ws_id w)) (Ok snap) ∈ tr
      | None => b = true → ∃ err, existT (RtSnapshot (ws_id w)) (Err err) ∈ tr
      end.
Proof.
  unfold begin_under_lock. simpl.
  intros (u & l1 & -> & mono & l2 & -> & wall & l3 & -> & now & l4 & -> & b & l5 & -> & Ht).
  eexists _, now, b, (registry_calls l5). split; [done|]. destruct b; simpl in Ht.
  - destruct Ht as (? & l6 & -> & ? & l7 & -> & cur & l8 & -> & Ht).
    apply traces_bind in Ht as (tm & l9 & ? & -> & Hm & Ht). simpl in Ht.
    destruct Ht as (s & l10 & -> & ? & l11 & -> & -> & ->). split.
    + intros op ok Hin. cbn [registry_calls omap list_omap projT1 projT2] in Hin.
      fold (registry_calls (tm ++ [existT (RtSnapshot (ws_id w)) s; existT RtUnlock x2])) in Hin.
      rewrite registry_calls_app in Hin. apply elem_of_app in Hin as [Hin|Hin];
        [|by apply elem_of_nil in Hin].
      destruct (cur ≫= last_observation) as [ev|]; [|destruct Hm as [-> _]; by apply elem_of_nil in Hin].
      destruct (meta_true _ _); [|destruct Hm as [-> _]; by apply elem_of_nil in Hin].
      destruct Hm as (t & m1 & -> & ans & m2 & -> & -> & _).
      apply elem_of_cons in Hin as [[= -> ->]|Hin]; [eauto|by apply elem_of_nil in Hin].
    + destruct s as [s|err]; [split; [done|]|intros _; exists err]; in_tac.
  - destruct Ht as (? & l6 & -> & ? & l7 & -> & -> & ->).
    split; [|done]. intros op ok Hin. by apply elem_of_nil in Hin.
Qed.

Lemma serve_no_registry snap o : within no_registry (serve snap o).
Proof.
  destruct o; try (apply within_call; done); simpl.
  - apply reads_no_registry, fresh_read_reads.
  - apply reads_no_registry, fresh_read_verification_reads.
  - apply daemon_execute_no_registry.
Qed.

Lemma engine_no_registry fuel w own snap : within no_registry (engine_execute fuel w own snap).
Proof.
  unfold engine_execute. destruct (action_for w); [|done].
  apply within_bind; [done|]. intros mono. destruct (from_watcher _ _); [|done].
  apply within_bind; [|done]. apply within_translate, serve_no_registry.
Qed.

Lemma engine_calls fuel w own snap tr res :
  traces (engine_execute fuel w own snap) tr res → registry_calls tr = [].
Proof.
  intros Ht. pose proof (within_traces _ _ _ _ (engine_no_registry _ _ _ _) Ht) as Hn. clear Ht.
  induction tr as [|[o x] tr IH]; [done|]. simpl.
  assert (no_registry o) as Ho by (apply (Hn (existT o x)); by left).
  destruct o; try done; apply IH; intros e He; apply Hn; by right.
Qed.
End Settle.

(** C8: every attempt the recovery machine accepted is settled before the runtime
    returns.  The attempt is one of the runtime's own watcher, and the last command
    the runtime gives the registry is [ActionSucceeded] for that watcher and
    fingerprint or the hand-off of that watcher to a human.  If the registry accepts
    the command, the machine has completed the fingerprint or a human is in charge;
    it refuses it only if its write fails or the attempt is no longer under way.  The
    other exceptions are a watcher that has vanished from the registry, and a snapshot
    for which the recipe no longer proposes an action: then no settling command is
    given.  The registry answers a snapshot request with the watcher asked for. *)
Theorem begun_action_settled {rfc : Rfc3339} {render : Rendering} {thash : TargetHash}
    {recipes : RecipeProvider} fuel w own tr id fp clock now :
  traces (execute_recovery_action fuel w own) tr true → snapshots_keyed tr →
  existT (RtReg (RegApply id (BeginAction fp clock) now)) true ∈ tr →
  id = ws_id w
  ∧ ((∃ op accepted, last (registry_calls tr) = Some (op, accepted) ∧ settling id fp op = true
        ∧ ∀ wo reg, (reg_step op wo reg).2 = accepted →
            if accepted then attempt_settled (reg_step op wo reg).1 id fp
            else wo ≠ WriteOk ∨ ¬ attempt_open reg id fp)
     ∨ (∃ err, existT (RtSnapshot id) (Err err) ∈ tr)
     ∨ (∃ snap, existT (RtSnapshot id) (Ok snap) ∈ tr
          ∧ action_for (snapshot_watcher snap) = None)).
Proof.
  intros Ht Hk Hb. unfold execute_recovery_action in Ht.
  apply traces_rcall in Ht as (c & l1 & -> & Ht). cbn [bind] in Ht.
  apply registry_calls_in in Hb. cbn [registry_calls omap list_omap projT1 projT2] in Hb |- *.
  fold (registry_calls l1) in Hb |- *.
  destruct c; [destruct Ht as [-> _]; by apply elem_of_nil in Hb|].
  destruct (action_for w) as [a|];
    [|destruct Ht as (d & l2 & -> & -> & _); by apply elem_of_nil in Hb].
  destruct (is_empty _); [destruct Ht as (d & l2 & -> & -> & _); by apply elem_of_nil in Hb|].
  apply traces_bind in Ht as (tb & tm & d & -> & Hbt & Ht).
  apply begin_under_lock_calls in Hbt as (clk & t & b & rest & Hcalls & Hrest & Hd).
  rewrite registry_calls_app, Hcalls in *.
  assert ((∀ op ok, (op, ok) ∈ registry_calls tm →
    op ≠ RegApply id (BeginAction fp clock) now) →
    id = ws_id w ∧ fp = action_fingerprint a ∧ b = true) as Hhead.
  { intros Hno. apply elem_of_app in Hb as [Hb|Hb]; [|by destruct (Hno _ _ Hb)].
    apply elem_of_cons in Hb as [[= -> -> _ _ ->]|Hb]; [done|].
    by destruct (Hrest _ _ Hb) as (? & ? & ?). }
  destruct d as [snap|].
  - destruct Hd as [-> Hsnap].
    assert (existT (RtSnapshot (ws_id w)) (Ok snap) ∈ existT RtCancelled false :: tb ++ tm) as Hin
      by (right; apply elem_of_app; by left).
    pose proof (Hk _ _ Hin) as Hid.
    apply traces_bind in Ht as (te & ts & er & -> & Hte & Ht).
    destruct er as [er|]; [|by destruct Ht].
    apply traces_bind in Ht as (tx & ty & ? & -> & Htx & [-> _]).
    rewrite !registry_calls_app, (engine_calls _ _ _ _ _ _ Hte), app_nil_r in *. simpl in *.
    apply settle_calls in Htx as [(op & ok & Hc & Hs)|[Hc Hres]].
    + rewrite Hc in *. rewrite Hid in Hs.
      destruct Hhead as (-> & -> & _); [intros ? ? [= -> ->]%list_elem_of_singleton ->; done|].
      split; [done|]. left. exists op, ok. rewrite app_comm_cons, last_snoc.
      split; [done|]. split; [done|]. intros wo reg Hok.
      destruct ok; [by apply settling_settles|].
      destruct wo; [right|by left]. intros Ho. by rewrite (settling_accepted _ _ _ _ Hs Ho) in Hok.
    + rewrite Hc in *. destruct Hhead as (-> & -> & _); [intros ? ? Hn; by apply elem_of_nil in Hn|].
      split; [done|]. destruct Hres as [->|(r & -> & Hp)]; [|by apply engine_answer in Hte].
      right. right. exists snap. split; [|by apply engine_answer in Hte].
      right. apply elem_of_app. by left.
  - destruct Ht as [-> _].
    destruct Hhead as (-> & -> & ->); [intros ? ? Hn; by apply elem_of_nil in Hn|].
    split; [done|]. right. left. destruct (Hd eq_refl) as [err Herr]. exists err.
    right. apply elem_of_app. by left.
Qed.

(** ** A concrete daemon *)
Record Daemon : Type := mkDaemon {
  dm_registry : Registry;
  dm_world : World;
}.

Definition resumed_event : Event := hook_event Category.Working "f2".

Definition daemon (o : RtOp) : Daemon → Daemon * RtAns o :=
  match o return Daemon → Daemon * RtAns o with
  | RtTx o => λ d, let '(w, x) := world o (dm_world d) in (mkDaemon (dm_registry d) w, x)
  | RtCancelled => λ d, (d, false)
  | RtLock | RtUnlock | RtDecision _ _ _ _ _ => λ d, (d, tt)
  | RtGet id => λ d, (d, reg_get (dm_registry d) id)
  | RtMatches s => λ d, (d, matches_dispatch_snapshot (dm_registry d) s)
  | RtSnapshot id => λ d, (d, dispatch_snapshot (dm_registry d) id)
  | RtReg op => λ d,
      let '(reg, ok) := reg_step op WriteOk (dm_registry d) in (mkDaemon reg (dm_world d), ok)
  | RtAlive _ | RtValidate _ _ => λ d, (d, true)
  | RtComposer _ _ => λ d, (d, Ok Composer.Safe)
  | RtClaudeProgress _ _ => λ d, (d, None)
  | RtCodexProgress _ _ => λ d, (d, Some resumed_event)
  | RtMux _ _ | RtCapture _ _ _ | RtService _ => λ d, (d, Ok Committed)
  | RtNowMs | RtWallSeconds => λ d, (d, 1000)
  end.

#[local] Instance epoch_clock : Rfc3339 := λ s, if is_empty s then None else Some 0.
#[local] Instance plain_text : Rendering := mkRendering (λ _ _ _, Ok "{}") (λ _, "done").
#[local] Instance constant_hash : TargetHash := λ _, "h".
#[local] Instance resume_recipe : RecipeProvider := λ _, Some sample_action.

Definition pane_watcher : WatcherState :=
  set_recovery
    (watcher_new "w1"
       (target_tmux "/s" "srv" "$1" "@1" "%1" "/dev/pts/1" (process_identity_new 7 8) None)
       Lifecycle.Registered 0 0)
    (Some (machine_new sample_budget)).

(** The watcher is registered and an actionable event has confirmed its machine. *)
Definition ready_daemon : Daemon :=
  mkDaemon
    (reg_run [(RegRegister pane_watcher, WriteOk);
              (RegCommit "w1" schedule_default (Some blocked_event) 9, WriteOk)] empty_registry)
    (mkWorld fresh_store 0 [] (Ok Committed) false WriteOk).

Definition daemon_run : list RtEv * bool :=
  converse daemon (execute_recovery_action 10 pane_watcher (mkOwner 10 20 "n")) ready_daemon.

Abbreviation daemon_prog := (execute_recovery_action 10 pane_watcher (mkOwner 10 20 "n")).

Lemma daemon_traces : traces daemon_prog daemon_run.1 daemon_run.2.
Proof. exact (converse_traces daemon _ _). Qed.

(** The run's events, with the dispatch singled out. *)
Definition nth_event (n : nat) : RtEv :=
  default ((existT RtLock tt) : RtEv) (daemon_run.1 !! n).

Lemma daemon_split :
  is_mux (nth_event 43) = true
  ∧ daemon_run.1 = take 43 daemon_run.1 ++ nth_event 43 :: drop 44 daemon_run.1.
Proof.
  split; [by vm_compute|].
  assert (∀ l : list RtEv, is_Some (l !! 43%nat) →
    l = take 43 l ++ default ((existT RtLock tt) : RtEv) (l !! 43%nat) :: drop 44 l) as Hl.
  { intros l [e He]. rewrite He. simpl. symmetry. by apply take_drop_middle. }
  apply Hl. vm_compute. by eexists.
Qed.

Lemma input_dispatch_guarded_witness :
  ∃ snap a x c tr3, nth_event 43 = existT (RtMux (snapshot_watcher snap) a) x
    ∧ drop 44 daemon_run.1 = [existT RtUnlock tt; existT RtCancelled c] ++ tr3
    ∧ quiet (take 43 daemon_run.1) ∧ quiet (drop 44 daemon_run.1)
    ∧ authorized_dispatch pane_watcher snap a (take 43 daemon_run.1).
Proof.
  destruct daemon_split as [He Hs].
  apply (input_dispatch_guarded 10 pane_watcher (mkOwner 10 20 "n") (take 43 daemon_run.1)
    (nth_event 43) (drop 44 daemon_run.1) daemon_run.2); [|exact He].
  exact (eq_ind _ (λ tr, traces daemon_prog tr daemon_run.2) daemon_traces _ Hs).
Defined.

Lemma daemon_finished :
  traces daemon_prog daemon_run.1 true.
Proof.
  assert (∀ b, b = true → traces daemon_prog daemon_run.1 b →
    traces daemon_prog daemon_run.1 true) as Hc by (by intros b ->).
  apply (Hc daemon_run.2); [by vm_compute|exact daemon_traces].
Qed.

(** The event that asks for a snapshot, and what it answered. *)
Definition snapshot_answer (e : RtEv) : option (string * string) :=
  match projT1 e as o return RtAns o → option (string * string) with
  | RtSnapshot id => λ x, match x with Ok s => Some (id, ws_id (snapshot_watcher s)) | Err _ => None end
  | _ => λ _, None
  end (projT2 e).

Definition is_err_snapshot (e : RtEv) : bool :=
  match projT1 e as o return RtAns o → bool with
  | RtSnapshot _ => λ x, negb (is_ok x)
  | _ => λ _, false
  end (projT2 e).

Lemma daemon_keyed : snapshots_keyed daemon_run.1.
Proof.
  intros id snap Hin.
  assert (forallb (λ e, match snapshot_answer e with Some (i, j) => String.eqb j i | None => true end)
    daemon_run.1 = true) as Hall by (vm_compute; reflexivity).
  rewrite forallb_elem in Hall. apply String.eqb_eq. exact (Hall _ Hin).
Qed.

Lemma daemon_began :
  existT (RtReg (RegApply "w1" (BeginAction "f1" (mkClock 0 1000)) 1000)) true ∈ daemon_run.1.
Proof.
  assert (registry_calls daemon_run.1
    = (RegApply "w1" (BeginAction "f1" (mkClock 0 1000)) 1000, true)
      :: drop 1 (registry_calls daemon_run.1)) as Hc by (by vm_compute).
  apply registry_calls_in. rewrite Hc. by left.
Qed.

Lemma Some_pair_inj {A B} (a a' : A) (b b' : B) : Some (a, b) = Some (a', b') → a = a' ∧ b = b'.
Proof. by intros [= -> ->]. Qed.

(** The run's settling command was accepted. *)
Definition settling_op : RegOp := (default (RegWake "" "" 0, false) (last (registry_calls daemon_run.1))).1.

Lemma begun_action_settled_witness :
  last (registry_calls daemon_run.1) = Some (settling_op, true)
  ∧ ∀ wo reg, (reg_step settling_op wo reg).2 = true →
      attempt_settled (reg_step settling_op wo reg).1 "w1" "f1".
Proof.
  assert (last (registry_calls daemon_run.1) = Some (settling_op, true)) as Hl
    by (vm_compute; reflexivity).
  split; [exact Hl|]. intros wo reg Hok.
  destruct (begun_action_settled 10 pane_watcher (mkOwner 10 20 "n") daemon_run.1 "w1" "f1"
    (mkClock 0 1000) 1000 daemon_finished daemon_keyed daemon_began)
    as [_ [(op & acc & Hl' & _ & Heff)|[(err & Hin)|(snap & _ & Hno)]]].
  - destruct (Some_pair_inj _ _ _ _ (eq_trans (eq_sym Hl') Hl)) as [-> ->]. exact (Heff wo reg Hok).
  - exfalso. assert (forallb (λ e, negb (is_err_snapshot e)) daemon_run.1 = true) as Hall
      by (vm_compute; reflexivity).
    rewrite forallb_elem in Hall. pose proof (Hall _ Hin) as Hx. discriminate Hx.
  - discriminate Hno.
Defined.
