(* ===== verification/Jsonl.v ===== *)
(** * Incremental JSONL reading (src/src/observe/jsonl.rs)

    [JsonlCursor] polls an append-only file: it reads at most [max_read_bytes] per
    poll, splits complete lines, decodes them and hands out at most [max_records]
    per poll.  A generation guard samples the consumed prefix to notice that a file
    was rewritten in place.  A poll works on one view of the file; the JSON decoder
    and the hash functions of the standard library are parameters. *)
From S2P Require Import Prelude Json.
From Stdlib Require Import Ascii.

Local Open Scope Z_scope.

Record ReadLimits : Type := mkLimits {
  max_read_bytes : nat;
  max_record_bytes : nat;
  max_records : nat;
}.

Definition limits_default : ReadLimits :=
  mkLimits (Z.to_nat 262144) (Z.to_nat 65536) 256.

Record JsonlBatch : Type := mkBatch {
  records : list Value;
  malformed : nat;
  oversized : nat;
  bytes_read : nat;
}.

Record GuardSample : Type := mkSample {
  gs_position : nat;
  gs_length : nat;
  gs_digest : Z;
}.

Record GenerationGuard : Type := mkGuard {
  gg_identity : Z * Z;
  gg_consumed_prefix_len : nat;
  gg_mode : Z;
  gg_samples : list GuardSample;
  gg_rolling : Z;
}.

(** The mutable fields; [path], [limits] and [guard_key] never change and are arguments
    of the operations.  File positions are below [u64::MAX], so [saturating_add] on them
    is addition. *)
Record JsonlCursor : Type := mkCursor {
  cur_identity : option (Z * Z);
  offset : nat;
  partial : list ascii;
  pending : list Value;
  discarding : bool;
  generation_guard : option GenerationGuard;
  rolling : Z;
}.

(** The file as one poll sees it. *)
Record FileView : Type := mkFile {
  fv_identity : Z * Z;
  fv_mode : Z;
  fv_bytes : list ascii;
}.

(** [serde_json::from_slice] and [DefaultHasher] with the [Hash] instances of
    [u64] and [[u8]]. *)
Class JsonlEnv : Type := mkJsonlEnv {
  from_slice : list ascii → option Value;
  DefaultHasher : Type;
  hasher_new : DefaultHasher;
  hash_u64 : DefaultHasher → Z → DefaultHasher;
  hash_slice : DefaultHasher → list ascii → DefaultHasher;
  finish : DefaultHasher → Z;
}.

Definition digest `{JsonlEnv} (bytes : list ascii) : Z := finish (hash_slice hasher_new bytes).

(** [slice.chunks(1024)], with the length as fuel. *)
Fixpoint chunks_fuel (fuel : nat) (bytes : list ascii) : list (list ascii) :=
  match fuel, bytes with
  | S fuel, _ :: _ => take 1024 bytes :: chunks_fuel fuel (drop 1024 bytes)
  | _, _ => []
  end.
Definition chunks (bytes : list ascii) : list (list ascii) := chunks_fuel (length bytes) bytes.

Definition rolling_digest `{JsonlEnv} (previous : Z) (bytes : list ascii) : Z :=
  finish (foldl hash_slice (hash_u64 hasher_new previous) (chunks bytes)).

Definition newline : ascii := "010"%char.
Definition is_nl (c : ascii) : bool := Ascii.eqb c newline.

(** ** Lines *)

(** [slice.split(|b| b == b'\n')]. *)
Fixpoint split_nl (l : list ascii) : list (list ascii) :=
  match l with
  | [] => [[]]
  | c :: l =>
      if is_nl c then [] :: split_nl l
      else match split_nl l with
           | x :: xs => (c :: x) :: xs
           | [] => [[c]]
           end
  end.

Definition nonempty_line (l : list ascii) : bool := match l with [] => false | _ => true end.
Definition lines_of (l : list ascii) : list (list ascii) :=
  List.filter nonempty_line (split_nl l).

(** [rposition(newline).map_or(0, |i| i + 1)]. *)
Fixpoint complete_len (l : list ascii) : nat :=
  match l with
  | [] => 0
  | c :: l =>
      match complete_len l with
      | O => if is_nl c then 1 else 0
      | S n => S (S n)
      end
  end.

(** ** The generation guard *)
Definition REGION_BYTES : nat := 1024.

(** [read_exact_at]. *)
Definition read_exact_at (f : FileView) (position length : nat) : option (list ascii) :=
  if (position + length <=? List.length (fv_bytes f))%nat
  then Some (take length (drop position (fv_bytes f))) else None.

Section Cursor.
Context {env : JsonlEnv} (limits : ReadLimits) (guard_key : Z).

Fixpoint take_samples (f : FileView) (region : nat) (positions : list nat)
    (samples : list GuardSample) : result string (list GuardSample) :=
  match positions with
  | [] => Ok samples
  | p :: positions =>
      if existsb (λ s, Nat.eqb (gs_position s) p) samples
      then take_samples f region positions samples
      else match read_exact_at f p region with
           | None => Err "failed to fill whole buffer"
           | Some bytes =>
               take_samples f region positions (samples ++ [mkSample p region (digest bytes)])
           end
  end.

Definition guard_at_offset (f : FileView) (off : nat) (roll : Z)
    : result string (option GenerationGuard) :=
  if Nat.eqb off 0 then Ok None
  else
    let region := Nat.min REGION_BYTES off in
    let maximum_start := (off - region)%nat in
    let keyed := Z.to_nat (guard_key mod (Z.of_nat maximum_start + 1)) in
    let? samples := take_samples f region
      [0%nat; Nat.div maximum_start 2; keyed; maximum_start] [] in
    Ok (Some (mkGuard (fv_identity f) off (fv_mode f) samples roll)).

Definition sample_matches (f : FileView) (s : GuardSample) : bool :=
  match read_exact_at f (gs_position s) (gs_length s) with
  | Some bytes => digest bytes =? gs_digest s
  | None => false
  end.

(** The rotation of the sample order does not affect the conjunction. *)
Definition rotate (n : nat) {A} (l : list A) : list A := drop n l ++ take n l.

Definition guard_matches (g : GenerationGuard) (f : FileView) : bool :=
  let first := Z.to_nat (gg_rolling g mod Z.of_nat (length (gg_samples g))) in
  bool_decide (fv_identity f = gg_identity g)
  && (gg_consumed_prefix_len g <=? length (fv_bytes f))%nat
  && (fv_mode f =? gg_mode g)
  && forallb (sample_matches f) (rotate first (gg_samples g)).

(** ** Polling *)
Definition cursor_new : JsonlCursor := mkCursor None 0 [] [] false None 0.

Definition cursor_reset (id : Z * Z) : JsonlCursor := mkCursor (Some id) 0 [] [] false None 0.

Definition must_reset (f : FileView) (c : JsonlCursor) : bool :=
  negb (bool_decide (cur_identity c = Some (fv_identity f)))
  || (length (fv_bytes f) <? offset c)%nat
  || match generation_guard c with Some g => negb (guard_matches g f) | None => false end.

(** The loop over complete lines: [discarding], [pending], counters. *)
Definition feed_line (st : bool * list Value * nat * nat) (line : list ascii)
    : bool * list Value * nat * nat :=
  let '(disc, pend, bad, over) := st in
  if disc then (false, pend, bad, S over)
  else if (max_record_bytes limits <? length line)%nat then (false, pend, bad, S over)
  else match from_slice line with
       | Some v => (false, pend ++ [v], bad, over)
       | None => (false, pend, S bad, over)
       end.

(** A failed guard read returns early: the offset has advanced, the bytes are not
    in [partial]. *)
Definition read_new (file : result string FileView) (c : JsonlCursor)
    : JsonlCursor * result string JsonlBatch :=
  match file with
  | Err e => (c, Err e)
  | Ok f =>
  let c := if must_reset f c then cursor_reset (fv_identity f) else c in
  match pending c with
  | _ :: _ =>
      (mkCursor (cur_identity c) (offset c) (partial c) (drop (max_records limits) (pending c))
         (discarding c) (generation_guard c) (rolling c),
       Ok (mkBatch (take (max_records limits) (pending c)) 0 0 0))
  | [] =>
      let bytes := take (max_read_bytes limits) (drop (offset c) (fv_bytes f)) in
      let off := (offset c + length bytes)%nat in
      let roll := rolling_digest (rolling c) bytes in
      match guard_at_offset f off roll with
      | Err e =>
          (mkCursor (cur_identity c) off (partial c) (pending c) (discarding c)
             (generation_guard c) roll, Err e)
      | Ok g =>
          let buffer := partial c ++ bytes in
          let cut := complete_len buffer in
          let '(disc, pend, bad, over) :=
            foldl feed_line (discarding c, [], 0%nat, 0%nat) (lines_of (take cut buffer)) in
          let tail := drop cut buffer in
          let overflow := (max_record_bytes limits <? length tail)%nat in
          (mkCursor (cur_identity c) off (if overflow then [] else tail)
             (drop (max_records limits) pend) (if overflow then true else disc) g roll,
           Ok (mkBatch (take (max_records limits) pend) bad over (length bytes)))
      end
  end end.
End Cursor.

(** ** Splitting *)
Lemma split_nl_nonempty l : split_nl l ≠ [].
Proof. destruct l as [|c l]; simpl; [done|]. destruct (is_nl c); [done|]. by destruct (split_nl l). Qed.

Lemma split_nl_app l1 l2 : split_nl (l1 ++ newline :: l2) = split_nl l1 ++ split_nl l2.
Proof.
  induction l1 as [|c l1 IH]; [done|]. cbn [app split_nl]. rewrite IH.
  destruct (is_nl c); [done|].
  destruct (split_nl l1) eqn:E; [by destruct (split_nl_nonempty l1)|done].
Qed.

(** A buffer is its complete lines followed by an unfinished one. *)
Definition complete (l : list ascii) : list ascii := take (complete_len l) l.
Definition unfinished (l : list ascii) : list ascii := drop (complete_len l) l.

Lemma complete_unfinished l : complete l ++ unfinished l = l.
Proof. apply take_drop. Qed.

Lemma complete_cons c l :
  complete (c :: l) = match complete_len l with
                      | O => if is_nl c then [c] else []
                      | S _ => c :: complete l end.
Proof.
  unfold complete. simpl. destruct (complete_len l) eqn:E; simpl; [by destruct (is_nl c)|done].
Qed.

Lemma complete_ends l : complete l = [] ∨ ∃ l', complete l = l' ++ [newline].
Proof.
  induction l as [|c l IH]; [by left|]. rewrite complete_cons.
  destruct (complete_len l) eqn:E.
  - destruct (is_nl c) eqn:Hc; [|by left]. right. exists [].
    by apply Ascii.eqb_eq in Hc as ->.
  - destruct IH as [Hn|[l' Hl]].
    + unfold complete in Hn. rewrite E in Hn. destruct l; [done|]. done.
    + right. exists (c :: l'). by rewrite Hl.
Qed.

Lemma unfinished_no_nl l : ∀ c, c ∈ unfinished l → is_nl c = false.
Proof.
  unfold unfinished. induction l as [|c l IH]; intros c' Hin; [by apply elem_of_nil in Hin|].
  simpl in Hin. destruct (complete_len l) eqn:E.
  - destruct (is_nl c) eqn:Hc; simpl in Hin; [by apply IH|].
    apply elem_of_cons in Hin as [->|Hin]; [done|by apply IH].
  - simpl in Hin. by apply IH.
Qed.

Lemma complete_len_no_nl l : (∀ c, c ∈ l → is_nl c = false) → complete_len l = 0%nat.
Proof.
  induction l as [|c l IH]; intros Hl; simpl; [done|].
  rewrite IH by (intros; apply Hl; by right). by rewrite Hl by left.
Qed.

Lemma complete_len_app l1 l2 :
  complete_len (l1 ++ newline :: l2) = (length l1 + 1 + complete_len l2)%nat.
Proof.
  induction l1 as [|c l1 IH]; simpl.
  - destruct (complete_len l2); done.
  - rewrite IH. by destruct (length l1 + 1 + complete_len l2)%nat eqn:E; [lia|].
Qed.

(** Reading on: the complete lines of a longer buffer are those of the shorter one
    followed by those of its unfinished line with the new bytes. *)
Lemma complete_app l b :
  complete (l ++ b) = complete l ++ complete (unfinished l ++ b)
  ∧ unfinished (l ++ b) = unfinished (unfinished l ++ b).
Proof.
  destruct (complete_ends l) as [Hn|[l' Hl]].
  - assert (unfinished l = l) as -> by (by rewrite <- (complete_unfinished l) at 2; rewrite Hn).
    by rewrite Hn.
  - pose proof (complete_unfinished l) as Heq. rewrite Hl in Heq. rewrite Hl.
    set (u := unfinished l) in *. rewrite <- Heq at 1 2. unfold complete, unfinished.
    rewrite <- !app_assoc. simpl. rewrite complete_len_app.
    replace (length l' + 1 + complete_len (u ++ b))%nat
      with (length (l' ++ [newline]) + complete_len (u ++ b))%nat by (rewrite length_app; simpl; lia).
    replace (l' ++ newline :: u ++ b) with ((l' ++ [newline]) ++ u ++ b) by (by rewrite <- app_assoc).
    rewrite take_app_add, drop_app_add. by rewrite <- app_assoc.
Qed.

Lemma lines_of_app l b :
  lines_of (complete (l ++ b)) = lines_of (complete l) ++ lines_of (complete (unfinished l ++ b)).
Proof.
  rewrite (proj1 (complete_app l b)). destruct (complete_ends l) as [->|[l' ->]]; [done|].
  unfold lines_of. rewrite <- app_assoc. simpl. rewrite !split_nl_app, !List.filter_app.
  simpl. by rewrite app_nil_r.
Qed.

Lemma split_nl_no_nl l : (∀ c, c ∈ l → is_nl c = false) → split_nl l = [l].
Proof.
  induction l as [|c l IH]; intros Hl; simpl; [done|].
  rewrite Hl by left. by rewrite IH by (intros; apply Hl; by right).
Qed.

Lemma split_nl_concat p q :
  ∃ ini lst h t, split_nl p = ini ++ [lst] ∧ split_nl q = h :: t
    ∧ split_nl (p ++ q) = ini ++ (lst ++ h) :: t.
Proof.
  destruct (split_nl q) as [|h t] eqn:Hq; [by destruct (split_nl_nonempty q)|].
  induction p as [|c p (ini & lst & h' & t' & Hp & Heq & Hpq)]; simpl.
  - exists [], [], h, t. by rewrite Hq.
  - simplify_eq. rewrite Hp, Hpq. destruct (is_nl c).
    + by exists ([] :: ini), lst, h', t'.
    + destruct ini as [|x ini]; simpl.
      * by exists [], (c :: lst), h', t'.
      * by exists ((c :: x) :: ini), lst, h', t'.
Qed.

Lemma split_prefix p l s :
  p `prefix_of` l → s ∈ split_nl p → ∃ s', s' ∈ split_nl l ∧ (length s ≤ length s')%nat.
Proof.
  intros [q ->] Hs. destruct (split_nl_concat p q) as (ini & lst & h & t & Hp & _ & ->).
  rewrite Hp in Hs. apply elem_of_app in Hs as [Hs|Hs].
  - exists s. split; [|done]. apply elem_of_app. by left.
  - apply list_elem_of_singleton in Hs as ->. exists (lst ++ h). rewrite length_app.
    split; [|lia]. apply elem_of_app. right. by left.
Qed.

Lemma split_complete l :
  unfinished l ∈ split_nl l ∧ ∀ s, s ∈ lines_of (complete l) → s ∈ split_nl l.
Proof.
  destruct (complete_ends l) as [Hn|[l' Hl]].
  - assert (unfinished l = l) as Hu
      by (rewrite <- (complete_unfinished l) at 2; by rewrite Hn).
    rewrite Hn. split; [|by intros s ?%elem_of_nil].
    rewrite Hu at 1. rewrite split_nl_no_nl; [by left|].
    rewrite <- Hu. apply unfinished_no_nl.
  - assert (split_nl l = split_nl l' ++ [unfinished l]) as ->.
    { rewrite <- (complete_unfinished l) at 1. rewrite Hl, <- app_assoc. simpl.
      rewrite split_nl_app, (split_nl_no_nl (unfinished l)); [done|apply unfinished_no_nl]. }
    split; [apply elem_of_app; right; by left|].
    intros s Hs. rewrite Hl in Hs. unfold lines_of in Hs. rewrite split_nl_app in Hs.
    apply list_elem_of_In, filter_In in Hs as [Hs%list_elem_of_In Hne].
    apply elem_of_app in Hs as [Hs|Hs]; [apply elem_of_app; by left|].
    simpl in Hs. apply list_elem_of_singleton in Hs as ->. done.
Qed.

(** ** Polls of a growing file *)
Section Polls.
Context {env : JsonlEnv} (limits : ReadLimits) (guard_key : Z).

(** Every line, the unfinished one included, fits a record. *)
Definition fits (bytes : list ascii) : Prop :=
  ∀ s, s ∈ split_nl bytes → (length s ≤ max_record_bytes limits)%nat.

Lemma fits_prefix p l : p `prefix_of` l → fits l → fits p.
Proof. intros Hp Hl s Hs. destruct (split_prefix p l s Hp Hs) as (s' & Hs' & ?).
  specialize (Hl _ Hs'). lia. Qed.

(** The records of a byte sequence: its complete, decodable lines. *)
Definition decoded (bytes : list ascii) : list Value :=
  omap from_slice (lines_of (complete bytes)).

(** The same file, grown. *)
Definition grows (f f' : FileView) : Prop :=
  fv_identity f' = fv_identity f ∧ fv_mode f' = fv_mode f
  ∧ fv_bytes f `prefix_of` fv_bytes f'.

Lemma feed_lines lines pend bad over :
  (∀ s, s ∈ lines → (length s ≤ max_record_bytes limits)%nat) →
  ∃ bad', foldl (feed_line limits) (false, pend, bad, over) lines
          = (false, pend ++ omap from_slice lines, bad', over).
Proof.
  revert pend bad. induction lines as [|s lines IH]; intros pend bad Hl.
  - exists bad. by rewrite app_nil_r.
  - cbn [foldl feed_line]. rewrite (proj2 (Nat.ltb_ge _ _)) by (apply Hl; by left).
    assert (∀ s, s ∈ lines → (length s ≤ max_record_bytes limits)%nat) as Hl'
      by (intros; apply Hl; by right).
    destruct (from_slice s) as [v|] eqn:Hv; cbn [omap list_omap]; rewrite Hv.
    + destruct (IH (pend ++ [v]) bad Hl') as [b ->]. exists b. by rewrite <- app_assoc.
    + by apply IH.
Qed.

(** The guard of a cursor that consumed [off] bytes of [f] recognises [f] and
    everything it grows into. *)
Definition guard_ok (g : option GenerationGuard) (f : FileView) (off : nat) : Prop :=
  match g with
  | None => True
  | Some g => gg_identity g = fv_identity f ∧ gg_mode g = fv_mode f
      ∧ (gg_consumed_prefix_len g ≤ off)%nat
      ∧ ∀ s, s ∈ gg_samples g → (gs_position s + gs_length s ≤ off)%nat
             ∧ sample_matches f s = true
  end.

Lemma read_exact_grows f f' p n :
  grows f f' → (p + n ≤ length (fv_bytes f))%nat → read_exact_at f' p n = read_exact_at f p n.
Proof.
  intros (_ & _ & [q Hq]) Hle. unfold read_exact_at. rewrite Hq, length_app.
  rewrite !(proj2 (Nat.leb_le _ _)) by lia. f_equal.
  rewrite drop_app_le by lia. rewrite take_app_le; [done|]. rewrite length_drop. lia.
Qed.

Lemma guard_ok_grows g f f' off :
  grows f f' → (off ≤ length (fv_bytes f))%nat → guard_ok g f off → guard_ok g f' off.
Proof.
  intros Hg Hle. destruct g as [g|]; [|done]. intros (Hi & Hm & Hc & Hs).
  pose proof Hg as (Hi' & Hm' & _). simpl. rewrite Hi', Hm'. split_and!; try done.
  intros s Hin. destruct (Hs s Hin) as [Hb Hok]. split; [done|].
  unfold sample_matches in *. by rewrite (read_exact_grows f f') by (done || lia).
Qed.

Lemma guard_ok_matches g f off :
  (off ≤ length (fv_bytes f))%nat → guard_ok (Some g) f off → guard_matches g f = true.
Proof.
  intros Hle (Hi & Hm & Hc & Hs). unfold guard_matches.
  rewrite bool_decide_eq_true_2 by done. rewrite (proj2 (Nat.leb_le _ _)) by lia.
  rewrite (proj2 (Z.eqb_eq _ _)) by done. simpl. apply forallb_elem. intros s Hin.
  apply Hs. unfold rotate in Hin. apply elem_of_app in Hin as [Hin|Hin].
  - by eapply subseteq_drop.
  - by eapply subseteq_take.
Qed.

Lemma take_samples_ok f region ps acc :
  (∀ p, p ∈ ps → (p + region ≤ length (fv_bytes f))%nat) →
  ∃ samples, take_samples f region ps acc = Ok samples
    ∧ ∀ s, s ∈ samples → s ∈ acc ∨
        (gs_position s ∈ ps ∧ gs_length s = region ∧ sample_matches f s = true).
Proof.
  revert acc. induction ps as [|p ps IH]; intros acc Hp; simpl.
  - exists acc. split; [done|]. auto.
  - assert (∀ p, p ∈ ps → (p + region ≤ length (fv_bytes f))%nat) as Hp'
      by (intros; apply Hp; by right).
    destruct (existsb _ acc).
    + destruct (IH acc Hp') as (ss & -> & Hss). exists ss. split; [done|].
      intros s [?|(? & ? & ?)]%Hss; [by left|right]. split_and!; try done. by right.
    + assert (read_exact_at f p region = Some (take region (drop p (fv_bytes f)))) as Hr.
      { unfold read_exact_at. by rewrite (proj2 (Nat.leb_le _ _)) by (apply Hp; by left). }
      rewrite Hr.
      destruct (IH (acc ++ [mkSample p region (digest (take region (drop p (fv_bytes f))))]) Hp')
        as (ss & -> & Hss). exists ss. split; [done|].
      intros s [Hs|(? & ? & ?)]%Hss; [|right; split_and!; try done; by right].
      apply elem_of_app in Hs as [?|Hs]; [by left|right].
      apply list_elem_of_singleton in Hs as ->. simpl. split; [by left|]. split; [done|].
      unfold sample_matches. simpl. by rewrite Hr, Z.eqb_refl.
Qed.

Lemma guard_at_offset_ok f off roll :
  (off ≤ length (fv_bytes f))%nat →
  ∃ g, guard_at_offset guard_key f off roll = Ok g ∧ guard_ok g f off.
Proof.
  intros Hle. unfold guard_at_offset. destruct (Nat.eqb_spec off 0); [by exists None|].
  set (region := Nat.min REGION_BYTES off). set (ms := (off - region)%nat).
  assert (region ≤ off)%nat as Hr by lia.
  set (keyed := Z.to_nat _).
  assert (keyed ≤ ms)%nat as Hk.
  { unfold keyed. pose proof (Z.mod_pos_bound guard_key (Z.of_nat ms + 1)). lia. }
  assert (Nat.div ms 2 ≤ ms)%nat as Hd by (apply Nat.Div0.div_le_upper_bound; lia).
  assert (∀ p, p ∈ [0%nat; Nat.div ms 2; keyed; ms] → (p + region ≤ off)%nat) as Hps.
  { intros p Hp. repeat (apply elem_of_cons in Hp as [->|Hp]; [lia|]). by apply elem_of_nil in Hp. }
  destruct (take_samples_ok f region [0%nat; Nat.div ms 2; keyed; ms] []) as (ss & Hss & Hin).
  { intros p Hp. specialize (Hps p Hp). lia. }
  rewrite Hss. eexists. split; [done|]. simpl. split_and!; try done.
  intros s Hs. destruct (Hin s Hs) as [Hn|(Hp & -> & Hm)]; [by apply elem_of_nil in Hn|].
  split; [by apply Hps|done].
Qed.

(** The cursor has consumed [offset] bytes of [f] and handed out or queued exactly
    the records they hold. *)
Record tracks (c : JsonlCursor) (f : FileView) (emitted : list Value) : Prop := {
  tr_identity : cur_identity c = Some (fv_identity f);
  tr_offset : (offset c ≤ length (fv_bytes f))%nat;
  tr_discarding : discarding c = false;
  tr_partial : partial c = unfinished (take (offset c) (fv_bytes f));
  tr_records : emitted ++ pending c = decoded (take (offset c) (fv_bytes f));
  tr_guard : guard_ok (generation_guard c) f (offset c);
}.

Lemma tracks_reset f : tracks (cursor_reset (fv_identity f)) f [].
Proof. split; simpl; try done; try lia. Qed.

Lemma tracks_grows c f f' em : grows f f' → tracks c f em → tracks c f' em.
Proof.
  intros Hg [Hi Ho Hd Hp Hr Hgu]. pose proof Hg as (Hid & _ & [q Hq]).
  assert (take (offset c) (fv_bytes f') = take (offset c) (fv_bytes f)) as Ht
    by (rewrite Hq; by apply take_app_le).
  split; rewrite ?Ht, ?Hid; try done.
  - rewrite Hq, length_app. lia.
  - by eapply guard_ok_grows.
Qed.

Lemma tracks_no_reset c f em : tracks c f em → must_reset f c = false.
Proof.
  intros [Hi Ho _ _ _ Hg]. unfold must_reset. rewrite Hi.
  rewrite bool_decide_eq_true_2 by done. rewrite (proj2 (Nat.ltb_ge _ _)) by done. simpl.
  destruct (generation_guard c) as [g|]; [|done]. by rewrite (guard_ok_matches g f (offset c)).
Qed.

Lemma decoded_app l b :
  decoded (l ++ b) = decoded l ++ omap from_slice (lines_of (complete (unfinished l ++ b))).
Proof. unfold decoded. by rewrite lines_of_app, omap_app. Qed.

(** One poll of a tracked file. *)
Lemma poll_tracks c f em :
  tracks c f em → fits (fv_bytes f) →
  ∃ c' b, read_new limits guard_key (Ok f) c = (c', Ok b)
    ∧ tracks c' f (em ++ records b) ∧ oversized b = 0%nat
    ∧ (length (records b) ≤ max_records limits)%nat
    ∧ (pending c = [] → (offset c' = Nat.min (offset c + max_read_bytes limits)
                                       (length (fv_bytes f)))%nat).
Proof.
  intros Ht Hf. unfold read_new. rewrite (tracks_no_reset _ _ _ Ht).
  destruct Ht as [Hi Ho Hd Hp Hr Hg]. destruct (pending c) as [|v pend] eqn:Hpend.
  2: { eexists _, _. split; [done|]. split; [|split; [done|]; split; [|done]].
       - split; simpl; try done. by rewrite <- app_assoc, take_drop.
       - simpl. rewrite length_take. lia. }
  set (bytes := take (max_read_bytes limits) (drop (offset c) (fv_bytes f))).
  assert (take (offset c + length bytes) (fv_bytes f)
          = take (offset c) (fv_bytes f) ++ bytes) as Htake.
  { rewrite <- (take_drop (offset c) (fv_bytes f)) at 1.
    rewrite take_app_add' by (rewrite length_take; lia). f_equal.
    unfold bytes. rewrite length_take. destruct (Nat.min_spec (max_read_bytes limits)
      (length (drop (offset c) (fv_bytes f)))) as [[? ->]|[? ->]]; [done|].
    rewrite !take_ge; [done|lia|lia]. }
  assert (offset c + length bytes ≤ length (fv_bytes f))%nat as Hoff.
  { unfold bytes. rewrite length_take, length_drop. lia. }
  destruct (guard_at_offset_ok f (offset c + length bytes)
    (rolling_digest (rolling c) bytes) Hoff) as (g & -> & Hgu).
  assert (fits (take (offset c + length bytes) (fv_bytes f))) as Hfits
    by (eapply fits_prefix; [|done]; apply prefix_take).
  rewrite Hd, Hp.
  set (pre := take (offset c) (fv_bytes f)) in *. rewrite Htake in Hfits.
  destruct (feed_lines (lines_of (complete (unfinished pre ++ bytes))) [] 0 0) as [bad Hfeed].
  { intros s Hs. apply Hfits. apply split_complete. rewrite lines_of_app.
    apply elem_of_app. by right. }
  fold (complete (unfinished pre ++ bytes)). rewrite Hfeed. cbn [app].
  fold (unfinished (unfinished pre ++ bytes)). rewrite <- (proj2 (complete_app pre bytes)).
  rewrite (proj2 (Nat.ltb_ge _ _)) by (apply Hfits; apply (proj1 (split_complete _))).
  eexists _, _. split; [done|]. split; [|split; [done|]; split].
  - split; simpl; try done; rewrite Htake; [done|].
    rewrite <- app_assoc, take_drop, decoded_app, <- Hr, app_nil_r. done.
  - simpl. rewrite length_take. lia.
  - intros _. simpl. unfold bytes. rewrite length_take, length_drop. lia.
Qed.

Definition poll (st : JsonlCursor * list Value) (f : FileView) : JsonlCursor * list Value :=
  match read_new limits guard_key (Ok f) st.1 with
  | (c, Ok b) => (c, st.2 ++ records b)
  | (c, Err _) => (c, st.2)
  end.

Definition polls (fs : list FileView) (st : JsonlCursor * list Value)
    : JsonlCursor * list Value := foldl poll st fs.

(** Successive views of one growing file. *)
Fixpoint growing (f : FileView) (fs : list FileView) : Prop :=
  match fs with [] => True | f' :: fs => grows f f' ∧ growing f' fs end.

Definition latest (f : FileView) (fs : list FileView) : FileView := default f (last fs).

#[global] Instance grows_preorder : PreOrder grows.
Proof.
  split; [intros f; by split_and!|]. intros f1 f2 f3 (Ha & Hb & Hc) (Ha' & Hb' & Hc').
  split; [congruence|]. split; [congruence|]. by etrans.
Qed.

Lemma latest_cons f f' fs : latest f (f' :: fs) = latest f' fs.
Proof. unfold latest. destruct fs as [|f2 fs]; [done|]. by rewrite last_cons_cons; destruct (last (f2 :: fs)) eqn:E; [|apply last_None in E]. Qed.

Lemma growing_latest f fs : growing f fs → grows f (latest f fs).
Proof.
  revert f. induction fs as [|f' fs IH]; intros f; simpl; [done|].
  intros [Hg Hfs]. rewrite latest_cons. etrans; [done|]. by apply IH.
Qed.

Lemma poll_tracked c f em :
  tracks c f em → fits (fv_bytes f) → tracks (poll (c, em) f).1 f (poll (c, em) f).2.
Proof.
  intros Ht Hf. destruct (poll_tracks c f em Ht Hf) as (c' & b & Hr & Ht' & _).
  unfold poll. cbn [fst snd]. by rewrite Hr.
Qed.

Lemma polls_tracked f fs c em :
  growing f fs → fits (fv_bytes (latest f fs)) → tracks c f em →
  tracks (polls fs (c, em)).1 (latest f fs) (polls fs (c, em)).2.
Proof.
  revert f c em. induction fs as [|f' fs IH]; intros f c em Hg Hf Ht; [done|].
  destruct Hg as [Hff' Hg]. rewrite latest_cons in *. cbn [polls foldl].
  assert (fits (fv_bytes f')) as Hf'.
  { eapply fits_prefix; [|exact Hf]. by apply growing_latest in Hg as (_ & _ & ?). }
  pose proof (poll_tracked c f' em (tracks_grows _ _ _ _ Hff' Ht) Hf') as Ht'.
  destruct (poll (c, em) f') as [c' em']. by apply (IH f').
Qed.

(** The first poll starts from the beginning of the file. *)
Lemma poll_fresh f : poll (cursor_new, []) f = poll (cursor_reset (fv_identity f), []) f.
Proof.
  unfold poll, read_new. cbn [fst].
  rewrite (tracks_no_reset _ _ _ (tracks_reset f)). done.
Qed.

Lemma polls_from_new f fs :
  growing f fs → fits (fv_bytes (latest f fs)) →
  tracks (polls (f :: fs) (cursor_new, [])).1 (latest f fs) (polls (f :: fs) (cursor_new, [])).2.
Proof.
  intros Hg Hf. cbn [polls foldl]. rewrite poll_fresh.
  assert (fits (fv_bytes f)) as Hf'.
  { eapply fits_prefix; [|exact Hf]. by apply growing_latest in Hg as (_ & _ & ?). }
  pose proof (poll_tracked _ f [] (tracks_reset f) Hf') as Ht.
  destruct (poll (cursor_reset (fv_identity f), []) f) as [c em]. by apply polls_tracked.
Qed.

(** Work left for the cursor: bytes to read, then records to hand out. *)
Definition work (f : FileView) (c : JsonlCursor) : nat :=
  ((length (fv_bytes f) - offset c) * S (length (decoded (fv_bytes f))) + length (pending c))%nat.

Lemma pending_bound c f em : tracks c f em → (length (pending c) ≤ length (decoded (fv_bytes f)))%nat.
Proof.
  intros Ht. assert (length (em ++ pending c) ≤ length (decoded (fv_bytes f)))%nat as Hle.
  { rewrite (tr_records _ _ _ Ht). rewrite <- (take_drop (offset c) (fv_bytes f)) at 2.
    rewrite decoded_app, length_app. lia. }
  rewrite length_app in Hle. lia.
Qed.

Lemma poll_works c f em :
  (0 < max_read_bytes limits)%nat → (0 < max_records limits)%nat →
  tracks c f em → fits (fv_bytes f) →
  (work f (poll (c, em) f).1 ≤ work f c - 1)%nat.
Proof.
  intros Hmr Hmx Ht Hf. pose proof (pending_bound _ _ _ Ht) as Hpb.
  pose proof (poll_tracked _ _ _ Ht Hf) as Ht2. pose proof (pending_bound _ _ _ Ht2) as Hpb2.
  destruct (poll_tracks c f em Ht Hf) as (c' & b & Hr & Ht' & _ & _ & Hadv).
  unfold poll in *. cbn [fst snd] in *. rewrite Hr in *. cbn [fst snd] in *.
  destruct (pending c) as [|v pend] eqn:Hp.
  - specialize (Hadv eq_refl). pose proof (tr_offset _ _ _ Ht).
    unfold work in *. rewrite Hp. simpl length in *.
    destruct (decide (offset c = length (fv_bytes f))) as [He|He].
    + pose proof (tr_records _ _ _ Ht) as H1. pose proof (tr_records _ _ _ Ht') as H2.
      assert (offset c' = offset c) as Ho by lia. rewrite Ho in *.
      rewrite Hp, app_nil_r in H1. rewrite <- H1, <- app_assoc in H2.
      apply (f_equal length) in H2. rewrite !length_app in H2. nia.
    + nia.
  - unfold read_new in Hr. rewrite (tracks_no_reset _ _ _ Ht), Hp in Hr. simplify_eq.
    unfold work. cbn [offset pending]. rewrite Hp. rewrite length_drop. simpl length.
    destruct (max_records limits); lia.
Qed.

Lemma polls_drain c f em n :
  (0 < max_read_bytes limits)%nat → (0 < max_records limits)%nat →
  tracks c f em → fits (fv_bytes f) → (work f c ≤ n)%nat →
  (polls (replicate n f) (c, em)).2 = decoded (fv_bytes f).
Proof.
  intros Hmr Hmx. revert c em. induction n as [|n IH]; intros c em Ht Hf Hw; simpl.
  - assert (length (fv_bytes f) - offset c = 0 ∧ length (pending c) = 0)%nat as [Ho Hp]
      by (unfold work in Hw; nia).
    pose proof (tr_records _ _ _ Ht) as Hr. apply nil_length_inv in Hp.
    rewrite Hp, app_nil_r in Hr. rewrite Hr. by rewrite take_ge by lia.
  - pose proof (poll_works c f em Hmr Hmx Ht Hf). pose proof (poll_tracked c f em Ht Hf) as Ht'.
    destruct (poll (c, em) f) as [c' em']. apply IH; [done|done|]. simpl in *. lia.
Qed.
End Polls.

(** ** Properties *)

(** C30: while no line of the file is longer than the record limit, the unfinished last
    one included, polling delivers every record exactly once and in order.  Through any
    views of one growing file, whatever the chunk and batch limits, what was handed out and
    what is queued is exactly the decodable complete lines of the bytes consumed so far; and
    finitely many further polls hand out all records of the final file.  The condition is
    needed: after an over-long line the cursor can swallow the next record
    ([discarded_line_swallows_next_record]). *)
Theorem polls_deliver_exactly {env : JsonlEnv} limits key f fs :
  (0 < max_read_bytes limits)%nat → (0 < max_records limits)%nat →
  growing f fs →
  (∀ line, line ∈ split_nl (fv_bytes (latest f fs)) → (length line ≤ max_record_bytes limits)%nat) →
  let '(c, emitted) := polls limits key (f :: fs) (cursor_new, []) in
  emitted ++ pending c = decoded (take (offset c) (fv_bytes (latest f fs)))
  ∧ ∃ n, (polls limits key (replicate n (latest f fs)) (c, emitted)).2
         = decoded (fv_bytes (latest f fs)).
Proof.
  intros Hmr Hmx Hg Hf. pose proof (polls_from_new limits key f fs Hg Hf) as Ht.
  destruct (polls limits key (f :: fs) (cursor_new, [])) as [c em].
  split; [apply Ht|]. exists (work f c + work (latest f fs) c)%nat.
  apply polls_drain; try done. lia.
Qed.

#[local] Instance text_env : JsonlEnv :=
  mkJsonlEnv (λ l, Some (VString (String.string_of_list_ascii l))) Z 0 Z.add
    (λ z l, z + Z.of_nat (length l)) id.

Definition file_view (s : string) : FileView := mkFile (1, 2) 420 (String.list_ascii_of_string s).
Definition nl : string := String newline EmptyString.
Definition small_limits : ReadLimits := mkLimits 3 4 1.

Lemma file_view_grows s s' : grows (file_view s) (file_view (s +:+ s')).
Proof.
  split; [done|]. split; [done|]. exists (String.list_ascii_of_string s'). simpl.
  induction s as [|a s IH]; [done|]. simpl. by rewrite IH.
Qed.

Lemma polls_deliver_exactly_witness :
  let f := file_view ("ab" +:+ nl +:+ "cd") in
  let f' := file_view (("ab" +:+ nl +:+ "cd") +:+ ("ef" +:+ nl)) in
  ∃ n, (polls small_limits 7 (replicate n f')
          (polls small_limits 7 [f; f'] (cursor_new, []))).2
       = [VString "ab"; VString "cdef"].
Proof.
  intros f f'.
  pose proof (polls_deliver_exactly small_limits 7 f [f'] ltac:(simpl; lia) ltac:(simpl; lia)
    (conj (file_view_grows _ _) I)) as Hd.
  destruct (polls small_limits 7 [f; f'] (cursor_new, [])) as [c em].
  destruct Hd as [_ [n Hn]].
  - intros s Hs. vm_compute in Hs.
    repeat (apply elem_of_cons in Hs as [->|Hs]; [vm_compute; lia|]). by apply elem_of_nil in Hs.
  - exists n. etrans; [exact Hn|]. vm_compute. reflexivity.
Defined.

(** After an over-long line was discarded, the cursor swallows the next
    record.  The bytes that end the discarded line arrive as a newline at the start
    of a later chunk; the empty line they form is skipped before the discarding flag
    is cleared, so the flag consumes the following line, which is counted as
    oversized although it fits and is valid. *)
Theorem discarded_line_swallows_next_record {env : JsonlEnv} limits key f c line v :
  must_reset f c = false → pending c = [] → discarding c = true → partial c = [] →
  take (max_read_bytes limits) (drop (offset c) (fv_bytes f)) = newline :: line ++ [newline] →
  line ≠ [] → (∀ x, x ∈ line → is_nl x = false) →
  (length line ≤ max_record_bytes limits)%nat → from_slice line = Some v →
  ∃ c', read_new limits key (Ok f) c = (c', Ok (mkBatch [] 0 1 (length line + 2)))
        ∧ pending c' = [] ∧ discarding c' = false.
Proof.
  intros Hr Hp Hd Hpa Hb Hne Hnl Hle Hv.
  assert (length (newline :: line ++ [newline]) = length line + 2)%nat as Hlen
    by (simpl; rewrite length_app; simpl; lia).
  assert (offset c + (length line + 2) ≤ length (fv_bytes f))%nat as Hoff.
  { unfold must_reset in Hr. apply orb_false_iff in Hr as [[_ Hr%Nat.ltb_ge]%orb_false_iff _].
    rewrite <- Hlen, <- Hb, length_take, length_drop. lia. }
  unfold read_new. rewrite Hr, Hp, Hd, Hpa, Hb, Hlen.
  destruct (guard_at_offset_ok key f _ (rolling_digest (rolling c) (newline :: line ++ [newline]))
    Hoff) as (g & -> & _).
  cbn [app]. assert (complete_len (newline :: line ++ [newline]) = (length line + 2)%nat) as ->.
  { pose proof (complete_len_app (newline :: line) []) as Hl. cbn [app length] in Hl.
    rewrite Hl. simpl. lia. }
  rewrite (take_ge (newline :: _)) by lia.
  assert (lines_of (newline :: line ++ [newline]) = [line]) as ->.
  { unfold lines_of. cbn [split_nl]. replace (is_nl newline) with true by done.
    rewrite split_nl_app, split_nl_no_nl by done. simpl. by destruct line. }
  cbn [foldl feed_line]. rewrite drop_ge by lia.
  cbn [length Nat.ltb Nat.leb]. rewrite take_nil, drop_nil. by eexists.
Qed.

(** A five-byte line overflows the four-byte limit; the record after it is lost. *)
Definition overlong_then_record : FileView := file_view ("xxxxx" +:+ nl +:+ "y" +:+ nl).
Definition overlong_limits : ReadLimits := mkLimits 5 4 9.

Lemma discarded_line_swallows_next_record_witness :
  let c := (polls overlong_limits 7 [file_view "xxxxx"] (cursor_new, [])).1 in
  ∃ c', read_new overlong_limits 7 (Ok overlong_then_record) c = (c', Ok (mkBatch [] 0 1 3))
        ∧ pending c' = [] ∧ discarding c' = false.
Proof.
  intros c.
  apply (discarded_line_swallows_next_record overlong_limits 7 overlong_then_record c
    ["y"%char] (VString "y")); try (vm_compute; reflexivity).
  - discriminate.
  - intros x Hx. apply list_elem_of_singleton in Hx as ->. reflexivity.
  - simpl. lia.
Defined.
