(* ===== verification/Screen.v ===== *)
(** * Terminal screens (src/src/observe/screen.rs)

    Captured terminal bytes pass through [TerminalSanitizer], which strips escape
    sequences and bounds the text; [trusted_tmux_screen] classifies the lines of a
    capture and [actionable_bottom] returns the part recovery may act on;
    [ScreenDebouncer] demands repeated observations.  Bytes are integers in
    [0..256); a [String] is the list of its [char]s (code points). *)
From S2P Require Import Prelude Text.

Local Open Scope Z_scope.

(** ** The sanitizer *)
Module Escape.
Inductive EscapeState : Type := Text | Esc | Csi | Str | StrEnd.
End Escape.
Abbreviation EscapeState := Escape.EscapeState.

Record TerminalSanitizer : Type := mkSanitizer {
  esc_state : EscapeState;
  utf8_pending : list Z;
}.

Definition sanitizer_default : TerminalSanitizer := mkSanitizer Escape.Text [].

Definition utf8_sequence_len (lead : Z) : nat :=
  if in_range 194 223 lead then 2
  else if in_range 224 239 lead then 3
  else if in_range 240 244 lead then 4
  else 1.

(** [std::str::from_utf8(bytes).is_ok()] for one multi-byte sequence (the table of
    well-formed sequences of the Unicode standard). *)
Definition utf8_sequence_ok (l : list Z) : bool :=
  match l with
  | [a; b] => in_range 194 223 a && in_range 128 191 b
  | [a; b; c] =>
      in_range 224 239 a && in_range 128 191 b && in_range 128 191 c
      && negb ((a =? 224) && (b <? 160)) && negb ((a =? 237) && (160 <=? b))
  | [a; b; c; d] =>
      in_range 240 244 a && in_range 128 191 b && in_range 128 191 c && in_range 128 191 d
      && negb ((a =? 240) && (b <? 144)) && negb ((a =? 244) && (144 <=? b))
  | _ => false
  end.

Section Feed.
Context (max_bytes max_lines : nat).

(** The locals of [feed] beside the sanitizer: the output bytes and the line count. *)
Record FeedState : Type := mkFeed {
  fd_san : TerminalSanitizer;
  fd_out : list Z;
  fd_lines : nat;
}.

Definition put (bs : list Z) (n : nat) (f : FeedState) (s : TerminalSanitizer) : FeedState :=
  mkFeed s (fd_out f ++ bs) (fd_lines f + n).

Definition text_byte (b : Z) (f : FeedState) : FeedState :=
  let go st := mkFeed (mkSanitizer st []) (fd_out f) (fd_lines f) in
  let stay := mkSanitizer Escape.Text [] in
  if b =? 27 then go Escape.Esc
  else if b =? 155 then go Escape.Csi
  else if existsb (Z.eqb b) [144; 157; 152; 158; 159] then go Escape.Str
  else if b =? 10 then
    if ((fd_lines f <? max_lines) && (length (fd_out f) <? max_bytes))%nat
    then put [b] 1 f stay else go Escape.Text
  else if b =? 13 then go Escape.Text
  else if in_range 32 126 b then
    if (length (fd_out f) <? max_bytes)%nat then put [b] 0 f stay else go Escape.Text
  else if in_range 194 244 b
  then mkFeed (mkSanitizer Escape.Text [b]) (fd_out f) (fd_lines f)
  else go Escape.Text.

(** A continuation byte while a UTF-8 sequence is pending. *)
Definition pending_byte (b : Z) (p : list Z) (f : FeedState) : FeedState :=
  let p' := p ++ [b] in
  let expected := utf8_sequence_len (default 0 (head p')) in
  if Nat.eqb (length p') expected then
    if utf8_sequence_ok p' && (length (fd_out f) + expected <=? max_bytes)%nat
    then put p' 0 f (mkSanitizer Escape.Text [])
    else mkFeed (mkSanitizer Escape.Text []) (fd_out f) (fd_lines f)
  else mkFeed (mkSanitizer Escape.Text p') (fd_out f) (fd_lines f).

Definition feed_byte (f : FeedState) (b : Z) : FeedState :=
  let s := fd_san f in
  let goto st := mkFeed (mkSanitizer st (utf8_pending s)) (fd_out f) (fd_lines f) in
  match esc_state s with
  | Escape.Text =>
      match utf8_pending s with
      | [] => text_byte b f
      | p => if in_range 128 191 b then pending_byte b p f else text_byte b f
      end
  | Escape.Esc =>
      if b =? 91 then goto Escape.Csi
      else if existsb (Z.eqb b) [93; 80; 88; 94; 95] then goto Escape.Str
      else goto Escape.Text
  | Escape.Csi => if in_range 64 126 b then goto Escape.Text else f
  | Escape.Str =>
      if b =? 7 then goto Escape.Text else if b =? 27 then goto Escape.StrEnd else f
  | Escape.StrEnd => if b =? 92 then goto Escape.Text else goto Escape.Str
  end.

Definition bidi_control (c : Z) : bool := in_range 8234 8238 c || in_range 8294 8297 c.

(** [String::len]. *)
Definition text_len (cs : list Z) : nat := length (encode_utf8 cs).

(** [truncate] at the last character boundary that is at most [n]. *)
Fixpoint truncate_at (n : nat) (cs : list Z) : list Z :=
  match cs with
  | [] => []
  | c :: cs =>
      if (length (encode_char c) <=? n)%nat
      then c :: truncate_at (n - length (encode_char c)) cs else []
  end.

Definition feed (s : TerminalSanitizer) (input : list Z) : TerminalSanitizer * list Z :=
  let f := foldl feed_byte (mkFeed s [] 1) input in
  let text := decode_utf8 (fd_out f) in
  let sanitized := List.filter (λ c, negb (bidi_control c)) text in
  (fd_san f,
   if (max_bytes <? text_len sanitized)%nat then truncate_at max_bytes sanitized
   else sanitized).
End Feed.

Definition sanitize_terminal (input : list Z) (max_bytes max_lines : nat) : list Z :=
  (feed max_bytes max_lines sanitizer_default input).2.

(** ** Lines *)

Fixpoint prefix_of (p l : list Z) : bool :=
  match p, l with
  | [], _ => true
  | a :: p, b :: l => (a =? b) && prefix_of p l
  | _, [] => false
  end.

(** A line without its terminator loses one carriage return. *)
Fixpoint strip_cr (l : list Z) : list Z :=
  match l with
  | [] => []
  | [c] => if c =? 13 then [] else [c]
  | c :: l => c :: strip_cr l
  end.

(** [str::lines]: terminated lines lose their terminator, a trailing empty line is
    not a line. *)
Fixpoint lines_from (acc l : list Z) : list (list Z) :=
  match l with
  | [] => match acc with [] => [] | _ => [acc] end
  | c :: l => if c =? 10 then strip_cr acc :: lines_from [] l else lines_from (acc ++ [c]) l
  end.
Definition str_lines (l : list Z) : list (list Z) := lines_from [] l.

(** [lines.join] with a newline. *)
Fixpoint join_lines (ls : list (list Z)) : list Z :=
  match ls with
  | [] => []
  | [l] => l
  | l :: ls => l ++ 10 :: join_lines ls
  end.

Definition QUOTE : list Z := [62].
Definition BAR : list Z := [9474].
Definition FENCE : list Z := [96; 96; 96].
Definition HISTORY : list Z := byte_list "history:".

Definition last_n {A} (n : nat) (l : list A) : list A := drop (length l - n) l.

Definition live_bottom (input : list Z) (max_bytes max_lines : nat) : list Z :=
  let sanitized := sanitize_terminal input max_bytes (max_lines * 4) in
  let kept := List.filter (λ line,
    let trimmed := trim_start line in
    negb (prefix_of QUOTE trimmed) && negb (prefix_of BAR trimmed)
    && negb (prefix_of HISTORY trimmed)) (str_lines sanitized) in
  join_lines (last_n max_lines kept).

(** ** Live screens *)
Module Provenance.
Inductive LineProvenance : Type :=
| LiveOutput | Transcript | CodeFence | Pasted | Quote | Chrome.
End Provenance.
Abbreviation LineProvenance := Provenance.LineProvenance.

#[global] Instance line_provenance_eq_dec : EqDecision LineProvenance.
Proof. solve_decision. Defined.

Record ScreenLine : Type := mkLine {
  line_text : list Z;
  provenance : LineProvenance;
}.

Record LiveScreen : Type := mkScreen {
  sc_lines : list ScreenLine;
  trusted_boundary : option nat;
  touches_bottom : bool;
}.

Definition is_live (l : ScreenLine) : bool :=
  bool_decide (provenance l = Provenance.LiveOutput).

Definition actionable_bottom (s : LiveScreen) (max_lines : nat) : option (list Z) :=
  match trusted_boundary s with
  | None => None
  | Some boundary =>
      if negb (touches_bottom s) || (length (sc_lines s) <=? boundary)%nat then None
      else
        let eligible := List.filter is_live (drop boundary (sc_lines s)) in
        match eligible, last (sc_lines s) with
        | [], _ | _, None => None
        | _, Some l =>
            if negb (is_live l) then None
            else Some (join_lines (line_text <$> reverse (take max_lines (reverse eligible))))
        end
  end.

Record TrustedScreenBoundary : Type := mkBoundary {
  adapter : string;
  version : Z;
  first_live_line : nat;
}.

Definition is_supported (b : TrustedScreenBoundary) : bool :=
  negb (is_empty (adapter b)) && (version b =? 1).

(** The closure over [fenced] that classifies line [index]. *)
Definition classify (boundary : option nat) (index : nat) (fenced : bool) (text : list Z)
    : bool * ScreenLine :=
  let trimmed := trim_start text in
  if prefix_of FENCE trimmed then (negb fenced, mkLine text Provenance.CodeFence)
  else if fenced then (fenced, mkLine text Provenance.CodeFence)
  else if match boundary with Some v => (v <=? index)%nat | None => false end
  then (fenced, mkLine text Provenance.LiveOutput)
  else if prefix_of QUOTE trimmed || prefix_of BAR trimmed
  then (fenced, mkLine text Provenance.Quote)
  else (fenced, mkLine text Provenance.Transcript).

Fixpoint classify_all (boundary : option nat) (index : nat) (fenced : bool)
    (raw : list (list Z)) : list ScreenLine :=
  match raw with
  | [] => []
  | text :: raw =>
      let '(fenced, line) := classify boundary index fenced text in
      line :: classify_all boundary (S index) fenced raw
  end.

Definition trusted_tmux_screen (capture : list Z) (chrome : TrustedScreenBoundary)
    : LiveScreen :=
  let raw := str_lines capture in
  let boundary :=
    if is_supported chrome && (first_live_line chrome <? length raw)%nat
    then Some (first_live_line chrome) else None in
  mkScreen (classify_all boundary 0 false raw) boundary (bool_decide (is_Some boundary)).

(** ** The debouncer *)
Record ScreenDebouncer : Type := mkDebouncer {
  required : Z;
  last_fingerprint : option string;
  stable : Z;
}.

Definition debouncer_new (req : Z) : ScreenDebouncer := mkDebouncer (Z.max req 2) None 0.

Definition observe (fingerprint : string) (terminal_failure : bool) (d : ScreenDebouncer)
    : ScreenDebouncer * bool :=
  if terminal_failure then (d, true)
  else
    let d :=
      if opt_str_eqb (last_fingerprint d) (Some fingerprint)
      then mkDebouncer (required d) (last_fingerprint d) (saturating_add u8_max (stable d) 1)
      else mkDebouncer (required d) (Some fingerprint) 1 in
    (d, required d <=? stable d).

(** ** What the sanitizer emits *)

(** Characters a terminal interprets only as text, with the C1 controls left in. *)
Definition emitted_char (c : Z) : Prop :=
  c = 10 ∨ 32 ≤ c ≤ 126 ∨ (128 ≤ c ≤ 1114111 ∧ ¬ 55296 ≤ c ≤ 57343).

Ltac seq_cases :=
  rewrite ?andb_true_iff, ?in_range_spec, ?negb_true_iff, ?andb_false_iff, ?Z.eqb_neq,
    ?Z.ltb_ge, ?Z.leb_gt.

(** A well-formed sequence is the encoding of one scalar value. *)
Lemma utf8_sequence_char p :
  utf8_sequence_ok p = true →
  ∃ c, p = encode_char c ∧ 128 ≤ c ≤ 1114111 ∧ ¬ 55296 ≤ c ≤ 57343.
Proof.
  destruct p as [|a [|b [|c [|d [|]]]]]; try done; simpl; seq_cases; intros H.
  - exists ((a - 192) * 64 + (b - 128)). unfold encode_char.
    replace (_ <? 128) with false by (symmetry; apply Z.ltb_ge; lia).
    replace (_ <? 2048) with true by (symmetry; apply Z.ltb_lt; lia).
    split; [|lia]. repeat f_equal; dm_lia.
  - exists ((a - 224) * 4096 + (b - 128) * 64 + (c - 128)). unfold encode_char.
    replace (_ <? 128) with false by (symmetry; apply Z.ltb_ge; lia).
    replace (_ <? 2048) with false by (symmetry; apply Z.ltb_ge; lia).
    replace (_ <? 65536) with true by (symmetry; apply Z.ltb_lt; lia).
    split; [|lia]. repeat f_equal; dm_lia.
  - exists ((a - 240) * 262144 + (b - 128) * 4096 + (c - 128) * 64 + (d - 128)).
    unfold encode_char.
    replace (_ <? 128) with false by (symmetry; apply Z.ltb_ge; lia).
    replace (_ <? 2048) with false by (symmetry; apply Z.ltb_ge; lia).
    replace (_ <? 65536) with false by (symmetry; apply Z.ltb_ge; lia).
    split; [|lia]. repeat f_equal; dm_lia.
Qed.

Lemma encode_ascii c : c < 128 → encode_char c = [c].
Proof. intros. unfold encode_char. by replace (c <? 128) with true by lia. Qed.

Lemma encode_utf8_snoc cs c : encode_utf8 (cs ++ [c]) = encode_utf8 cs ++ encode_char c.
Proof. unfold encode_utf8. by rewrite bind_app; cbn; rewrite app_nil_r. Qed.

Lemma encode_utf8_app cs cs' : encode_utf8 (cs ++ cs') = encode_utf8 cs ++ encode_utf8 cs'.
Proof. apply bind_app. Qed.

Lemma encode_char_length c : (1 ≤ length (encode_char c) ≤ 4)%nat.
Proof. unfold encode_char. repeat case_match; simpl; lia. Qed.

Definition newlines (cs : list Z) : nat := length (List.filter (Z.eqb 10) cs).

Lemma newlines_snoc cs c : newlines (cs ++ [c]) = (newlines cs + (if Z.eqb 10 c then 1 else 0))%nat.
Proof. unfold newlines. rewrite List.filter_app, length_app. f_equal. cbn [List.filter]. by destruct (Z.eqb 10 c). Qed.

Section FeedSafe.
Context (max_bytes max_lines : nat).

(** The output is the encoding of emitted characters, within both bounds, and a
    pending sequence exists only in text and is incomplete. *)
Record feed_inv (f : FeedState) (cs : list Z) : Prop := {
  fi_out : fd_out f = encode_utf8 cs;
  fi_chars : Forall emitted_char cs;
  fi_len : (length (fd_out f) ≤ max_bytes)%nat;
  fi_lines : fd_lines f = S (newlines cs);
  fi_bound : (fd_lines f ≤ Nat.max 1 max_lines)%nat;
}.

Lemma feed_inv_keep f s cs : feed_inv f cs → feed_inv (mkFeed s (fd_out f) (fd_lines f)) cs.
Proof. intros []. by constructor. Qed.

Lemma feed_inv_put f s cs c bs (n : nat) :
  feed_inv f cs → emitted_char c → bs = encode_char c →
  (length (fd_out f) + length bs ≤ max_bytes)%nat → n = (if Z.eqb 10 c then 1 else 0)%nat →
  (fd_lines f + n ≤ Nat.max 1 max_lines)%nat →
  feed_inv (put bs n f s) (cs ++ [c]).
Proof.
  intros [Ho Hc Hl Hn Hb] He -> Hlen -> Hln. unfold put. constructor; cbn [fd_out fd_lines].
  - by rewrite encode_utf8_snoc, Ho.
  - apply Forall_app. split; [done|]. by constructor.
  - by rewrite length_app.
  - rewrite newlines_snoc, Hn. lia.
  - done.
Qed.

Lemma text_byte_inv b f cs :
  feed_inv f cs → ∃ cs', feed_inv (text_byte max_bytes max_lines b f) cs'.
Proof.
  intros Hf. unfold text_byte.
  destruct (b =? 27), (b =? 155), (existsb (Z.eqb b) [144; 157; 152; 158; 159]); try (eexists; by apply feed_inv_keep).
  destruct (Z.eqb_spec b 10) as [->|Hb].
  { destruct (_ && _) eqn:Hr; [|eexists; by apply feed_inv_keep].
    apply andb_true_iff in Hr as [Hl%Nat.ltb_lt Ho%Nat.ltb_lt].
    exists (cs ++ [10]). apply feed_inv_put; [done|by left|done|simpl; lia|done|lia]. }
  destruct (b =? 13); [eexists; by apply feed_inv_keep|].
  destruct (in_range 32 126 b) eqn:Hp; [|destruct (in_range 194 244 b); eexists; by apply feed_inv_keep].
  destruct (_ <? _)%nat eqn:Ho; [|eexists; by apply feed_inv_keep].
  apply in_range_spec in Hp. apply Nat.ltb_lt in Ho.
  exists (cs ++ [b]). apply feed_inv_put; [done|by right; left| | | |].
  - by rewrite encode_ascii by lia.
  - simpl. lia.
  - by destruct (Z.eqb_spec 10 b); [subst b|].
  - rewrite Nat.add_0_r. apply Hf.
Qed.

Lemma pending_byte_inv b p f cs :
  feed_inv f cs → ∃ cs', feed_inv (pending_byte max_bytes b p f) cs'.
Proof.
  intros Hf. unfold pending_byte.
  destruct (Nat.eqb _ _) eqn:He; [|eexists; by apply feed_inv_keep].
  destruct (_ && _) eqn:Hr; [|eexists; by apply feed_inv_keep].
  apply Nat.eqb_eq in He. apply andb_true_iff in Hr as [Hok Hl%Nat.leb_le].
  destruct (utf8_sequence_char _ Hok) as (c & Hp & Hc & Hs).
  exists (cs ++ [c]). apply feed_inv_put; [done|by right; right|done|lia| |].
  - by destruct (Z.eqb_spec 10 c); [lia|].
  - rewrite Nat.add_0_r. apply Hf.
Qed.

Lemma feed_byte_inv f cs b :
  feed_inv f cs → ∃ cs', feed_inv (feed_byte max_bytes max_lines f b) cs'.
Proof.
  intros Hf. unfold feed_byte.
  destruct (esc_state (fd_san f)).
  - destruct (utf8_pending _) as [|x p]; [by eapply text_byte_inv|].
    destruct (in_range _ _ _); [by eapply pending_byte_inv|by eapply text_byte_inv].
  - repeat case_match; eexists; by apply feed_inv_keep.
  - repeat case_match; eexists; first [done|by apply feed_inv_keep].
  - repeat case_match; eexists; first [done|by apply feed_inv_keep].
  - repeat case_match; eexists; by apply feed_inv_keep.
Qed.

Lemma feed_bytes_inv input f cs :
  feed_inv f cs → ∃ cs', feed_inv (foldl (feed_byte max_bytes max_lines) f input) cs'.
Proof.
  revert f cs. induction input as [|b input IH]; intros f cs Hf; [by eexists|].
  simpl. apply (feed_byte_inv _ _ b) in Hf as [cs' Hf]. by eapply IH.
Qed.

Lemma emitted_decode cs : Forall emitted_char cs → decode_utf8 (encode_utf8 cs) = cs.
Proof.
  intros Hc. apply decode_encode_utf8. eapply Forall_impl; [done|].
  intros c He. unfold emitted_char in He. lia.
Qed.

Lemma filter_text_len (g : Z → bool) cs : (text_len (List.filter g cs) ≤ text_len cs)%nat.
Proof.
  unfold text_len, encode_utf8. induction cs as [|c cs IH]; [done|].
  cbn [List.filter]. rewrite bind_cons, length_app.
  destruct (g c); [rewrite bind_cons, length_app|]; lia.
Qed.

Lemma filter_newlines (g : Z → bool) cs : (newlines (List.filter g cs) ≤ newlines cs)%nat.
Proof.
  unfold newlines. induction cs as [|c cs IH]; [done|]. cbn [List.filter].
  destruct (g c); cbn [List.filter]; destruct (Z.eqb 10 c); cbn [length]; lia.
Qed.

Definition no_bidi (cs : list Z) : list Z := List.filter (λ c, negb (bidi_control c)) cs.

(** [feed] never truncates: its text is the emitted characters without the
    bidirectional controls. *)
Lemma feed_text s input :
  ∃ cs, feed_inv (foldl (feed_byte max_bytes max_lines) (mkFeed s [] 1) input) cs
        ∧ (feed max_bytes max_lines s input).2 = no_bidi cs.
Proof.
  destruct (feed_bytes_inv input (mkFeed s [] 1) []) as [cs Hf].
  { constructor; simpl; try done; lia. }
  exists cs. split; [done|]. unfold feed. cbn [snd].
  rewrite (fi_out _ _ Hf), emitted_decode by apply Hf. fold (no_bidi cs).
  destruct (_ <? _)%nat eqn:Hl; [|done]. apply Nat.ltb_lt in Hl. exfalso.
  pose proof (filter_text_len (λ c, negb (bidi_control c)) cs).
  pose proof (fi_len _ _ Hf) as Hlen. rewrite (fi_out _ _ Hf) in Hlen.
  unfold no_bidi, text_len in *. lia.
Qed.
End FeedSafe.

(** ** Sequences of chunks *)
Fixpoint feed_all (max_bytes max_lines : nat) (s : TerminalSanitizer) (chunks : list (list Z))
    : list (list Z) :=
  match chunks with
  | [] => []
  | c :: chunks =>
      let '(s', text) := feed max_bytes max_lines s c in
      text :: feed_all max_bytes max_lines s' chunks
  end.

(** The output is framed: with room in both runs, bytes already emitted do not
    influence what follows. *)
Section Frame.
Context (max_bytes max_lines : nat).

Definition framed (p : list Z) (k : nat) (f : FeedState) : FeedState :=
  mkFeed (fd_san f) (p ++ fd_out f) (k + fd_lines f).

Definition spent (f : FeedState) : nat := length (fd_out f) + length (utf8_pending (fd_san f)).

Definition room (n : nat) (f : FeedState) : Prop :=
  (spent f + n ≤ max_bytes ∧ fd_lines f + n ≤ max_lines)%nat.

Lemma text_byte_frame p k b f :
  (length (p ++ fd_out f) < max_bytes)%nat → (k + fd_lines f < max_lines)%nat →
  text_byte max_bytes max_lines b (framed p k f) = framed p k (text_byte max_bytes max_lines b f).
Proof.
  intros Hr Hl. rewrite length_app in Hr. unfold text_byte, framed, put. cbn [fd_out fd_lines].
  replace (k + fd_lines f <? max_lines)%nat with true by (symmetry; by apply Nat.ltb_lt).
  replace (fd_lines f <? max_lines)%nat with true by (symmetry; apply Nat.ltb_lt; lia).
  rewrite length_app.
  replace (length p + length (fd_out f) <? max_bytes)%nat with true by (symmetry; apply Nat.ltb_lt; lia).
  replace (length (fd_out f) <? max_bytes)%nat with true by (symmetry; apply Nat.ltb_lt; lia).
  repeat case_match; simpl; rewrite ?app_assoc, ?Nat.add_assoc; done.
Qed.

Lemma pending_byte_frame p k b q f :
  (length (p ++ fd_out f) + length q < max_bytes)%nat →
  pending_byte max_bytes b q (framed p k f) = framed p k (pending_byte max_bytes b q f).
Proof.
  intros Hr. unfold pending_byte, framed, put. cbn [fd_out fd_lines].
  destruct (Nat.eqb _ _) eqn:He; [|done]. apply Nat.eqb_eq in He. rewrite <- He.
  rewrite !length_app in *. simpl length.
  replace (_ + _ + _ <=? _)%nat with true by (symmetry; apply Nat.leb_le; lia).
  replace (length (fd_out f) + _ <=? _)%nat with true by (symmetry; apply Nat.leb_le; lia).
  destruct (utf8_sequence_ok _); simpl; rewrite ?app_assoc, ?Nat.add_assoc; done.
Qed.

Lemma feed_byte_frame p k b f :
  room 1 (framed p k f) →
  feed_byte max_bytes max_lines (framed p k f) b
  = framed p k (feed_byte max_bytes max_lines f b).
Proof.
  intros [Hb Hl]. unfold spent in Hb. cbn [framed fd_out fd_lines fd_san] in *.
  unfold feed_byte. cbn [framed fd_san].
  destruct (esc_state (fd_san f)) eqn:Es; try (repeat case_match; reflexivity).
  destruct (utf8_pending (fd_san f)) as [|x q] eqn:Eq.
  - apply text_byte_frame; simpl in *; lia.
  - destruct (in_range 128 191 b).
    + apply pending_byte_frame. lia.
    + apply text_byte_frame; lia.
Qed.

(** A byte costs at most one byte of room and one line. *)
Lemma feed_byte_room f b n :
  room (S n) f → room n (feed_byte max_bytes max_lines f b).
Proof.
  unfold room, spent. intros [Hb Hl]. unfold feed_byte, text_byte, pending_byte, put.
  repeat case_match; simpl; rewrite ?length_app; simpl in *; rewrite ?length_app; simpl; try lia.
Qed.

Lemma feed_bytes_frame input p k f :
  room (length input) (framed p k f) →
  foldl (feed_byte max_bytes max_lines) (framed p k f) input
  = framed p k (foldl (feed_byte max_bytes max_lines) f input).
Proof.
  revert f. induction input as [|b input IH]; intros f Hr; [done|]. simpl in *.
  assert (room 1 (framed p k f)) as Hr1 by (destruct Hr; split; lia).
  rewrite feed_byte_frame by done. apply IH.
  rewrite <- feed_byte_frame by done. by apply feed_byte_room.
Qed.
End Frame.

Lemma feed_bytes_room max_bytes max_lines input f n :
  room max_bytes max_lines (length input + n) f →
  room max_bytes max_lines n (foldl (feed_byte max_bytes max_lines) f input).
Proof.
  revert f. induction input as [|b input IH]; intros f Hr; [done|]. simpl in *.
  apply IH. by apply feed_byte_room.
Qed.

Lemma emitted_inj cs cs' :
  Forall emitted_char cs → Forall emitted_char cs' → encode_utf8 cs = encode_utf8 cs' → cs = cs'.
Proof.
  intros H1 H2 He. by rewrite <- (emitted_decode cs), <- (emitted_decode cs'), He by done.
Qed.

Lemma feed_app max_bytes max_lines s a b :
  room max_bytes max_lines (length (a ++ b)) (mkFeed s [] 1) →
  (feed max_bytes max_lines s (a ++ b)).2
  = (feed max_bytes max_lines s a).2
    ++ (feed max_bytes max_lines (feed max_bytes max_lines s a).1 b).2.
Proof.
  intros Hr. rewrite length_app in Hr. apply feed_bytes_room in Hr.
  destruct (feed_text max_bytes max_lines s a) as (ca & Ha & ->).
  destruct (feed_text max_bytes max_lines (feed max_bytes max_lines s a).1 b) as (cb & Hb & ->).
  destruct (feed_text max_bytes max_lines s (a ++ b)) as (cab & Hab & ->).
  unfold no_bidi. rewrite <- List.filter_app. f_equal.
  apply emitted_inj; [apply Hab|apply Forall_app; split; [apply Ha|apply Hb]|].
  rewrite encode_utf8_app.
  rewrite <- (fi_out _ _ _ _ Hab), <- (fi_out _ _ _ _ Ha), <- (fi_out _ _ _ _ Hb).
  rewrite foldl_app. unfold feed in *. cbn [fst] in *.
  set (fa := foldl (feed_byte max_bytes max_lines) (mkFeed s [] 1) a) in *.
  assert (fa = framed (fd_out fa) (newlines ca) (mkFeed (fd_san fa) [] 1)) as Hfa.
  { pose proof (fi_lines _ _ _ _ Ha) as Hl. destruct fa as [sa oa na]. unfold framed.
    cbn [fd_san fd_out fd_lines] in *. rewrite app_nil_r. f_equal. lia. }
  rewrite Hfa at 1. rewrite feed_bytes_frame by (by rewrite <- Hfa). done.
Qed.

Lemma feed_all_concat max_bytes max_lines chunks s :
  room max_bytes max_lines (length (concat chunks)) (mkFeed s [] 1) →
  concat (feed_all max_bytes max_lines s chunks)
  = (feed max_bytes max_lines s (concat chunks)).2.
Proof.
  revert s. induction chunks as [|c chunks IH]; intros s Hr.
  { cbn. by repeat case_match. }
  cbn [feed_all concat] in *.
  rewrite feed_app by done. destruct (feed max_bytes max_lines s c) as [s' t] eqn:Ef.
  cbn [concat fst snd]. f_equal. apply IH.
  rewrite length_app in Hr. apply feed_bytes_room in Hr as [Hb Hl].
  assert (s' = fd_san (foldl (feed_byte max_bytes max_lines) (mkFeed s [] 1) c)) as ->
    by (by unfold feed in Ef; injection Ef as <- _).
  destruct (feed_bytes_inv max_bytes max_lines c (mkFeed s [] 1) []) as [cs Hf].
  { constructor; simpl; try done; lia. }
  pose proof (fi_lines _ _ _ _ Hf). unfold room, spent in *. simpl. lia.
Qed.

(** ** Properties *)

(** What a reader of sanitized text may rely on. *)
Definition safe_text_char (c : Z) : Prop := emitted_char c ∧ bidi_control c = false.

Lemma feed_safe max_bytes max_lines s input :
  let text := (feed max_bytes max_lines s input).2 in
  Forall safe_text_char text ∧ (text_len text ≤ max_bytes)%nat
  ∧ (newlines text ≤ max_lines - 1)%nat.
Proof.
  destruct (feed_text max_bytes max_lines s input) as (cs & Hf & ->). unfold no_bidi.
  split_and!.
  - apply Forall_forall. intros c [Hc Hb]%list_elem_of_In%List.filter_In.
    split; [|by apply negb_true_iff]. apply list_elem_of_In in Hc.
    pose proof (fi_chars _ _ _ _ Hf) as He. rewrite Forall_forall in He. by apply He.
  - etrans; [apply filter_text_len|]. unfold text_len. rewrite <- (fi_out _ _ _ _ Hf). apply Hf.
  - etrans; [apply filter_newlines|].
    pose proof (fi_lines _ _ _ _ Hf). pose proof (fi_bound _ _ _ _ Hf). lia.
Qed.

Lemma feed_all_safe max_bytes max_lines s chunks :
  Forall (λ text, Forall safe_text_char text ∧ (text_len text ≤ max_bytes)%nat
                  ∧ (newlines text ≤ max_lines - 1)%nat)
    (feed_all max_bytes max_lines s chunks).
Proof.
  revert s. induction chunks as [|c chunks IH]; intros s; [constructor|]. cbn [feed_all].
  pose proof (feed_safe max_bytes max_lines s c) as Hs.
  destruct (feed max_bytes max_lines s c) as [s' t]. constructor; [done|apply IH].
Qed.

(** Sanitized terminal text is safe and bounded.  However the bytes are split
    into chunks, every text returned consists of newlines, printable ASCII and Unicode
    scalar values above ASCII other than bidirectional controls (no escape byte, no C0
    control, no DEL), is valid UTF-8 of at most [max_bytes] bytes and has at most
    [max_lines] lines; and when the limits leave room, splitting inside an escape
    sequence or a character makes no difference: the texts concatenate to the text of
    the whole input. *)
Theorem sanitizer_safe_and_chunk_independent max_bytes max_lines chunks :
  Forall (λ text, Forall safe_text_char text ∧ (text_len text ≤ max_bytes)%nat
                  ∧ (newlines text ≤ max_lines - 1)%nat)
    (feed_all max_bytes max_lines sanitizer_default chunks)
  ∧ ((length (concat chunks) ≤ max_bytes)%nat → (length (concat chunks) < max_lines)%nat →
     concat (feed_all max_bytes max_lines sanitizer_default chunks)
     = sanitize_terminal (concat chunks) max_bytes max_lines).
Proof.
  split; [apply feed_all_safe|]. intros Hb Hl. apply feed_all_concat.
  unfold room, spent. simpl. lia.
Qed.

(** A clear-screen sequence and a two-byte character, both split. *)
Lemma sanitizer_safe_and_chunk_independent_witness :
  concat (feed_all 16 20 sanitizer_default [[72; 27]; [91; 50]; [74; 195]; [169; 10]])
  = sanitize_terminal [72; 27; 91; 50; 74; 195; 169; 10] 16 20
  ∧ sanitize_terminal [72; 27; 91; 50; 74; 195; 169; 10] 16 20 = [72; 233; 10].
Proof.
  split; [|vm_compute; reflexivity].
  apply (sanitizer_safe_and_chunk_independent 16 20 [[72; 27]; [91; 50]; [74; 195]; [169; 10]]);
    simpl; lia.
Defined.

(** The sanitizer passes the C1 control characters.  In their two-byte UTF-8 form
    every character of [U+0080..=U+009F], the single-character CSI and OSC introducers
    among them, reaches the output, although the raw bytes [0x90..=0x9f] are treated as
    introducers. *)
Theorem c1_controls_pass c max_lines :
  128 ≤ c ≤ 159 → sanitize_terminal [194; c] 2 max_lines = [c] ∧ is_control c = true.
Proof.
  intros Hc. unfold sanitize_terminal, feed. cbn [foldl].
  assert (∀ f, utf8_pending (fd_san f) = [194] → esc_state (fd_san f) = Escape.Text →
    fd_out f = [] → fd_out (feed_byte 2 max_lines f c) = [194; c]) as Hstep.
  { intros f Hp He Ho. unfold feed_byte. rewrite Hp, He.
    replace (in_range 128 191 c) with true by (symmetry; apply in_range_spec; lia).
    unfold pending_byte, utf8_sequence_ok. simpl.
    replace (in_range 128 191 c) with true by (symmetry; apply in_range_spec; lia).
    rewrite Ho. simpl. by rewrite Ho. }
  rewrite Hstep by done. cbn [snd decode_utf8].
  replace (194 <? 128) with false by done. replace (194 <? 192) with false by done.
  replace (194 <? 224) with true by done. rewrite cont_bits_mod.
  replace (Z.land 194 31 * 64 + c mod 64) with c by (change (Z.land 194 31) with 2; dm_lia).
  cbn [List.filter]. replace (bidi_control c) with false
    by (symmetry; apply orb_false_iff; rewrite !in_range_false; lia).
  cbn [negb]. split.
  - destruct (_ <? _)%nat eqn:Hl; [|done]. apply Nat.ltb_lt in Hl. exfalso. revert Hl.
    unfold text_len, encode_utf8. cbn. rewrite app_nil_r. unfold encode_char.
    replace (c <? 128) with false by (symmetry; apply Z.ltb_ge; lia).
    replace (c <? 2048) with true by (symmetry; apply Z.ltb_lt; lia). simpl. lia.
  - unfold is_control. apply orb_true_iff. right. apply andb_true_iff. rewrite !Z.leb_le. lia.
Qed.

Lemma c1_controls_pass_witness : sanitize_terminal [194; 155] 2 80 = [155] ∧ is_control 155 = true.
Proof. apply (c1_controls_pass 155 80). lia. Defined.

(** ** The trusted bottom, declaratively *)
Definition is_fence (t : list Z) : bool := prefix_of FENCE (trim_start t).

(** Line [j] lies inside a code fence: an odd number of fence lines precedes it. *)
Definition inside_fence (raw : list (list Z)) (j : nat) : bool :=
  Nat.odd (length (List.filter is_fence (take j raw))).

Definition live_line (raw : list (list Z)) (first : nat) (j : nat) (t : list Z) : bool :=
  (first <=? j)%nat && negb (is_fence t) && negb (inside_fence raw j).

Definition live_texts (raw : list (list Z)) (first : nat) : list (list Z) :=
  snd <$> List.filter (λ p, live_line raw first p.1 p.2) (imap pair raw).

Lemma inside_fence_S t raw j : inside_fence (t :: raw) (S j) = xorb (is_fence t) (inside_fence raw j).
Proof.
  unfold inside_fence. cbn [take List.filter]. destruct (is_fence t); cbn [length].
  - by rewrite Nat.odd_succ, <- Nat.negb_odd; destruct (Nat.odd _).
  - by destruct (Nat.odd _).
Qed.

Lemma classify_flag b i f t : (classify b i f t).1 = xorb f (is_fence t).
Proof.
  unfold classify, is_fence. destruct (prefix_of FENCE _); simpl; [by destruct f|].
  by destruct f; repeat case_match.
Qed.

Lemma classify_all_imap b i f raw :
  classify_all b i f raw
  = imap (λ j t, (classify b (i + j) (xorb f (inside_fence raw j)) t).2) raw.
Proof.
  revert i f. induction raw as [|t raw IH]; intros i f; [done|].
  cbn [classify_all]. pose proof (classify_flag b i f t) as Hf.
  rewrite imap_cons. cbn [inside_fence take List.filter length Nat.odd negb Nat.even].
  rewrite Nat.add_0_r, xorb_false_r.
  destruct (classify b i f t) as [f' line]. cbn [fst snd] in *. subst f'. f_equal.
  rewrite IH. apply imap_ext. intros j x _. cbn.
  by rewrite inside_fence_S, xorb_assoc, Nat.add_succ_r.
Qed.

Lemma classify_text b i f t : line_text (classify b i f t).2 = t.
Proof. unfold classify. by repeat case_match. Qed.

Lemma classify_live raw first j t :
  is_live (classify (Some first) j (inside_fence raw j) t).2 = live_line raw first j t.
Proof.
  unfold classify, live_line. fold (is_fence t). destruct (is_fence t); [by rewrite andb_false_r|].
  destruct (inside_fence raw j); [by rewrite andb_false_r|].
  destruct (first <=? j)%nat; [done|]. by case_match.
Qed.

Lemma filter_imap_texts (g : nat → list Z → ScreenLine) (h : nat → list Z → bool) raw :
  (∀ j t, line_text (g j t) = t) → (∀ j t, is_live (g j t) = h j t) →
  line_text <$> List.filter is_live (imap g raw)
  = snd <$> List.filter (λ p, h p.1 p.2) (imap pair raw).
Proof.
  revert g h. intros g h Ht Hl.
  assert (∀ k, line_text <$> List.filter is_live (imap (λ j, g (k + j)%nat) raw)
    = snd <$> List.filter (λ p, h p.1 p.2) (imap (λ j, pair (k + j)%nat) raw)) as Hk; [|exact (Hk 0%nat)].
  induction raw as [|t raw IH]; intros k; [done|]. rewrite !imap_cons. cbn [List.filter].
  rewrite Hl. cbn [fst snd]. rewrite !Nat.add_0_r.
  assert (∀ (A : Type) (q : nat → list Z → A),
    imap ((λ j, q (k + j)%nat) ∘ S) raw = imap (λ j, q (S k + j)%nat) raw) as Hshift.
  { intros A q. apply imap_ext. intros j x _. cbn. by rewrite Nat.add_succ_r. }
  rewrite (Hshift _ g), (Hshift _ pair).
  destruct (h k t); [|apply IH]. rewrite !fmap_cons. cbn [snd]. rewrite Ht. f_equal. apply IH.
Qed.

(** Nothing before the boundary is live. *)
Lemma filter_drop_live raw first :
  let lines := classify_all (Some first) 0 false raw in
  List.filter is_live (drop first lines) = List.filter is_live lines.
Proof.
  intros lines. rewrite <- (take_drop first lines) at 2. rewrite List.filter_app.
  assert (List.filter is_live (take first lines) = []) as ->; [|done].
  destruct (List.filter is_live (take first lines)) as [|x l] eqn:Ef; [done|].
  assert (x ∈ List.filter is_live (take first lines)) as Hx by (rewrite Ef; by left).
  apply list_elem_of_In, List.filter_In in Hx as [Hx%list_elem_of_In Hl].
  apply list_elem_of_lookup in Hx as [j Hj].
  apply lookup_take_Some in Hj as [Hj Hlt]. exfalso. revert Hj. unfold lines.
  rewrite classify_all_imap, list_lookup_imap, fmap_Some. intros (t & Ht & ->).
  rewrite Nat.add_0_l, xorb_false_l, classify_live in Hl. unfold live_line in Hl.
  apply andb_true_iff in Hl as [[Hle%Nat.leb_le _]%andb_true_iff _]. lia.
Qed.

Lemma classified_texts raw first :
  line_text <$> List.filter is_live (classify_all (Some first) 0 false raw)
  = live_texts raw first.
Proof.
  rewrite classify_all_imap. unfold live_texts. apply filter_imap_texts.
  - intros. apply classify_text.
  - intros j t. rewrite Nat.add_0_l, xorb_false_l. apply classify_live.
Qed.

Lemma classified_last raw first :
  is_live <$> last (classify_all (Some first) 0 false raw)
  = live_line raw first (length raw - 1) <$> last raw.
Proof.
  rewrite classify_all_imap, !last_lookup, length_imap, list_lookup_imap.
  rewrite Nat.sub_1_r. destruct (raw !! _) as [t|]; [|done]. simpl. f_equal.
  by rewrite classify_live.
Qed.

Lemma last_n_reverse {A} n (l : list A) : reverse (take n (reverse l)) = last_n n l.
Proof.
  unfold last_n. destruct (decide (length l ≤ n)%nat) as [Hle|Hgt].
  - replace (length l - n)%nat with 0%nat by lia.
    rewrite take_ge by (rewrite length_reverse; lia). apply reverse_involutive.
  - set (k := (length l - n)%nat). rewrite <- (take_drop k l) at 1. rewrite reverse_app.
    rewrite take_app_length' by (rewrite length_reverse, length_drop; lia).
    apply reverse_involutive.
Qed.

(** The screen text recovery may act on is exactly this: the adapter boundary is
    supported and inside the capture, the last line of the capture is live, and the
    text is the last [max_lines] lines from the boundary on that are neither code
    fences nor inside an open fence (counting every fence line of the capture).  In
    every other case there is none. *)
Theorem actionable_bottom_spec capture chrome n :
  let raw := str_lines capture in
  let first := first_live_line chrome in
  actionable_bottom (trusted_tmux_screen capture chrome) n =
  match last raw with
  | Some t =>
      if is_supported chrome && (first <? length raw)%nat && live_line raw first (length raw - 1) t
      then Some (join_lines (last_n n (live_texts raw first))) else None
  | None => None
  end.
Proof.
  intros raw first. unfold trusted_tmux_screen, actionable_bottom. fold raw first.
  destruct (is_supported chrome && (first <? length raw)%nat) eqn:Hs;
    cbn [trusted_boundary touches_bottom sc_lines]; [|by destruct (last raw)].
  apply andb_true_iff in Hs as [_ Hlt%Nat.ltb_lt].
  set (lines := classify_all (Some first) 0 false raw).
  assert (length lines = length raw) as Hlen by (unfold lines; by rewrite classify_all_imap, length_imap).
  rewrite bool_decide_true by (by eexists). cbn [negb orb andb].
  replace (length lines <=? first)%nat with false by (symmetry; apply Nat.leb_gt; lia).
  pose proof (classified_last raw first) as Hlast. fold lines in Hlast.
  unfold lines at 1. rewrite filter_drop_live. fold lines.
  destruct (last lines) as [l|] eqn:El.
  2: { destruct (last raw); [done|]. by destruct (List.filter _ _). }
  destruct (last raw) as [t|]; [|done]. injection Hlast as Hlive. rewrite Hlive.
  destruct (List.filter is_live lines) as [|x xs] eqn:Ef.
  - destruct (live_line _ _ _ t) eqn:Ht; [|done]. exfalso.
    assert (l ∈ List.filter is_live lines) as Hin; [|rewrite Ef in Hin; by apply elem_of_nil in Hin].
    apply list_elem_of_In, List.filter_In. split; [|done]. apply list_elem_of_In.
    by apply last_Some_elem_of.
  - destruct (live_line _ _ _ t); [|done]. cbn [negb]. f_equal. f_equal. unfold lines.
    rewrite last_n_reverse, filter_drop_live. unfold last_n. rewrite fmap_drop.
    by rewrite <- classified_texts, length_fmap.
Qed.

(** ** The debouncer *)
Definition observes (d : ScreenDebouncer) (fs : list string) : ScreenDebouncer :=
  foldl (λ d f, (observe f false d).1) d fs.

Lemma replicate_suffix_snoc {A} n (x y : A) l :
  replicate (S n) x `suffix_of` (l ++ [y]) ↔ x = y ∧ replicate n x `suffix_of` l.
Proof.
  rewrite replicate_S_end. split.
  - intros [k Hk]. rewrite app_assoc in Hk. apply app_inj_tail in Hk as [-> ->].
    split; [done|]. by exists k.
  - intros [-> [k ->]]. exists k. by rewrite app_assoc.
Qed.

(** The counter is the length of the trailing run of equal fingerprints, cut at 255. *)
Record counts_run (d : ScreenDebouncer) (fs : list string) : Prop := {
  cr_last : last_fingerprint d = last fs;
  cr_stable : ∀ n x, (1 ≤ n)%nat → Z.of_nat n ≤ u8_max → last_fingerprint d = Some x →
    Z.of_nat n ≤ stable d ↔ replicate n x `suffix_of` fs;
}.

Lemma counts_run_snoc d fs f :
  0 ≤ stable d → counts_run d fs → counts_run (observe f false d).1 (fs ++ [f]).
Proof.
  intros Hs [Hl Hr]. unfold observe, opt_str_eqb. case_bool_decide as He; cbn [fst].
  - constructor; cbn [last_fingerprint stable]; [by rewrite He, last_snoc|].
    intros [|n] x Hn Hm Hx; [lia|]. rewrite replicate_suffix_snoc.
    rewrite He in Hx. injection Hx as <-.
    destruct n as [|n].
    + split; [intros _; split; [done|apply suffix_nil]|intros _].
      unfold saturating_add, u8_max. lia.
    + specialize (Hr (S n) f ltac:(lia) ltac:(lia) He). unfold saturating_add.
      rewrite <- Hr. split; [intros; split; [done|lia]|intros [_ ?]; lia].
  - constructor; cbn [last_fingerprint stable]; [by rewrite last_snoc|].
    intros [|n] x Hn Hm [= <-]; [lia|]. rewrite replicate_suffix_snoc.
    split; [intros ?; replace n with 0%nat by lia; split; [done|apply suffix_nil]|].
    intros [_ Hsuf]. destruct n as [|n]; [lia|]. exfalso. apply He. rewrite Hl.
    destruct Hsuf as [k ->]. rewrite replicate_S_end, app_assoc. by rewrite last_snoc.
Qed.

Lemma observes_run req fs :
  let d := observes (debouncer_new req) fs in
  counts_run d fs ∧ 0 ≤ stable d ∧ required d = Z.max req 2.
Proof.
  induction fs as [|f fs IH] using rev_ind.
  - split; [|done]. constructor; [done|]. by intros ? ? _ _ [=].
  - cbn zeta in *. unfold observes in *. rewrite foldl_app. cbn [foldl].
    destruct IH as (Hc & Hs & Hq). split; [by apply counts_run_snoc|].
    revert Hs Hq. generalize (foldl (λ d f, (observe f false d).1) (debouncer_new req) fs).
    intros d Hs Hq. unfold observe, saturating_add, u8_max.
    destruct (opt_str_eqb _ _); cbn [fst stable required]; split; try done; lia.
Qed.

(** The debouncer reports an observation stable exactly when the last
    [max(required, 2)] fingerprints, this one included, are equal; a terminal failure is
    reported at once and does not touch the run. *)
Theorem debounce_iff_stable_run req fs f :
  req ≤ u8_max →
  let d := observes (debouncer_new req) fs in
  ((observe f false d).2 = true ↔ replicate (Z.to_nat (Z.max req 2)) f `suffix_of` (fs ++ [f]))
  ∧ observe f true d = (d, true).
Proof.
  intros Hm d. destruct (observes_run req fs) as (Hc & Hs & Hq). fold d in Hc, Hs, Hq.
  split; [|done].
  pose proof (counts_run_snoc _ _ f Hs Hc) as Hc'.
  pose proof (cr_stable _ _ Hc' (Z.to_nat (Z.max req 2)) f ltac:(lia) ltac:(unfold u8_max in *; lia)) as Hi.
  rewrite <- Hi by (rewrite (cr_last _ _ Hc'), last_snoc; done).
  unfold observe. destruct (opt_str_eqb _ _); cbn [fst snd required stable];
    rewrite Hq, Z.leb_le, Z2Nat.id by lia; done.
Qed.

Lemma debounce_iff_stable_run_witness :
  (observe "a" false (observes (debouncer_new 3) ["b"; "a"; "a"])).2 = true
  ∧ (observe "a" false (observes (debouncer_new 3) ["a"; "b"; "a"])).2 = false.
Proof.
  split.
  - apply (debounce_iff_stable_run 3 ["b"; "a"; "a"] "a"); [done|]. by exists ["b"].
  - reflexivity.
Defined.
