(* ===== verification/PlannerSchema.v ===== *)
(** * Planner output (src/src/planner/schema.rs)

    A planner is another provider's agent; its answer is untrusted text.  The strict
    parser rejects duplicate keys at any depth, the decoder checks the schema's
    bounds, and validation compares the plan with the trusted snapshot and sends every
    action through the compiled policy.  Decoding one string or number token
    ([serde_json::from_str]) and the derived decoding of a plan
    ([serde_json::from_value]) are parameters. *)
From S2P Require Import Prelude Text Json Action Policy.
From Stdlib Require Import Ascii.

Local Open Scope Z_scope.

(** ** Parsers

    A parser works on the bytes from [index] on.  [None] means out of fuel. *)
Abbreviation parsed A := (result string (A * list ascii)).

Definition pbind {A B} (c : option (parsed A)) (k : A → list ascii → option (parsed B))
    : option (parsed B) :=
  match c with
  | None => None
  | Some (Err e) => Some (Err e)
  | Some (Ok (a, l)) => k a l
  end.

Notation "'let#' ( x , l ) ':=' c 'in' k" := (pbind c (λ x l, k))
  (at level 10, x name, l name, c at level 100, k at level 200) : watch_scope.

(** [serde_json::from_str] on the text of one string or number token. *)
Class Tokens : Type := {
  string_token : list ascii → result string string;
  number_token : list ascii → result string Value;
}.

(** The bytes of the double quote and the backslash. *)
Definition dquote : ascii := "034"%char.
Definition backslash : ascii := "092"%char.

Definition char_is (a b : ascii) : bool := Ascii.eqb a b.

Fixpoint skip_ws (l : list ascii) : list ascii :=
  match l with
  | c :: l' => if is_ascii_whitespace c then skip_ws l' else l
  | [] => []
  end.

Definition nonempty (l : list ascii) : bool := match l with [] => false | _ => true end.
Definition peek_is (c : ascii) (l : list ascii) : bool :=
  match l with a :: _ => char_is a c | [] => false end.

Definition bump (l : list ascii) : parsed ascii :=
  match l with a :: l => Ok (a, l) | [] => Err "unexpected end of JSON" end.

(** [byte as char]. *)
Definition byte_as_char (a : ascii) : string :=
  string_of_bytes (encode_char (byte_val a)).

Fixpoint parse_literal (expected : list ascii) (v : Value) (l : list ascii) : parsed Value :=
  match expected with
  | [] => Ok (v, l)
  | b :: expected =>
      match bump l with
      | Err e => Err e
      | Ok (a, l) =>
          if char_is a b then parse_literal expected v l else Err "invalid JSON literal"
      end
  end.

(** The loop of [parse_string] after the opening quote: the bytes up to and including
    the closing quote, and the rest. *)
Inductive StringScan : Type := Plain | Escaped | Hex (more : nat).

Definition scanned (c : ascii) (r : parsed (list ascii)) : parsed (list ascii) :=
  match r with Ok (body, l) => Ok (c :: body, l) | Err e => Err e end.

Fixpoint scan_string (st : StringScan) (l : list ascii) : parsed (list ascii) :=
  match l with
  | [] => Err "unexpected end of JSON"
  | c :: l =>
      match st with
      | Plain =>
          if char_is c dquote then Ok ([c], l)
          else if char_is c backslash then scanned c (scan_string Escaped l)
          else if byte_val c <? 32 then Err "control character in string"
          else scanned c (scan_string Plain l)
      | Escaped =>
          scanned c (scan_string (if char_is c "u"%char then Hex 3 else Plain) l)
      | Hex more =>
          if is_ascii_hexdigit c
          then scanned c (scan_string (match more with O => Plain | S n => Hex n end) l)
          else Err "invalid unicode escape"
      end
  end.

Section Strict.
Context {tokens : Tokens}.

Definition parse_string (l : list ascii) : parsed string :=
  match bump l with
  | Err e => Err e
  | Ok (c, l) =>
      if negb (char_is c dquote) then Err "expected string"
      else
        match scan_string Plain l with
        | Err e => Err e
        | Ok (body, rest) => let? s := string_token (c :: body) in Ok (s, rest)
        end
  end.

(** [while peek().is_ascii_digit() { index += 1 }]: the digits and the rest. *)
Fixpoint digits (l : list ascii) : list ascii * list ascii :=
  match l with
  | c :: l' =>
      if is_ascii_digit c then let '(ds, rest) := digits l' in (c :: ds, rest) else ([], l)
  | [] => ([], [])
  end.

(** The three parts of [parse_number] after the sign. *)
Definition scan_int (l : list ascii) : parsed (list ascii) :=
  match l with
  | c :: l' =>
      if char_is c "0" then Ok ([c], l')
      else if is_ascii_digit c then Ok (digits l) else Err "invalid number"
  | [] => Err "invalid number"
  end.

Definition scan_digits1 (error : string) (l : list ascii) : parsed (list ascii) :=
  match l with
  | c :: _ => if is_ascii_digit c then Ok (digits l) else Err error
  | [] => Err error
  end.

Definition scan_frac (l : list ascii) : parsed (list ascii) :=
  match l with
  | c :: l' => if char_is c "." then scanned c (scan_digits1 "invalid number" l') else Ok ([], l)
  | [] => Ok ([], [])
  end.

Definition scan_exp_sign (l : list ascii) : list ascii * list ascii :=
  match l with
  | c :: l' => if char_is c "+" || char_is c "-" then ([c], l') else ([], l)
  | [] => ([], [])
  end.

Definition scan_exp (l : list ascii) : parsed (list ascii) :=
  match l with
  | c :: l' =>
      if char_is c "e" || char_is c "E" then
        let '(sign, l2) := scan_exp_sign l' in
        match scan_digits1 "invalid exponent" l2 with
        | Ok (ds, rest) => Ok (c :: sign ++ ds, rest)
        | Err e => Err e
        end
      else Ok ([], l)
  | [] => Ok ([], [])
  end.

Definition scan_sign (l : list ascii) : list ascii * list ascii :=
  match l with
  | c :: l' => if char_is c "-" then ([c], l') else ([], l)
  | [] => ([], [])
  end.

Definition scan_number (l : list ascii) : parsed (list ascii) :=
  let '(sign, l) := scan_sign l in
  match scan_int l with
  | Err e => Err e
  | Ok (int, l) =>
  match scan_frac l with
  | Err e => Err e
  | Ok (frac, l) =>
  match scan_exp l with
  | Err e => Err e
  | Ok (exp, l) => Ok (sign ++ int ++ frac ++ exp, l)
  end end end.

Definition parse_number (l : list ascii) : parsed Value :=
  match scan_number l with
  | Err e => Err e
  | Ok (lit, rest) => let? v := number_token lit in Ok (v, rest)
  end.

(** [parse_value] with the loops of [parse_object] and [parse_array].  A byte is
    consumed between any two rounds, and a value inside an array costs two calls. *)
Fixpoint parse_value (fuel : nat) (l : list ascii) : option (parsed Value) :=
  match fuel with
  | O => None
  | S fuel =>
      let l := skip_ws l in
      match l with
      | [] => Some (Err "empty JSON")
      | c :: rest =>
          if char_is c "{" then
            let rest := skip_ws rest in
            if peek_is "}" rest then Some (Ok (VObject (btree_entries ∅), tail rest))
            else parse_members fuel ∅ rest
          else if char_is c "[" then
            let rest := skip_ws rest in
            if peek_is "]" rest then Some (Ok (VArray [], tail rest))
            else parse_items fuel [] rest
          else if char_is c dquote then
            Some (match parse_string l with Ok (s, r) => Ok (VString s, r) | Err e => Err e end)
          else if char_is c "t" then
            Some (parse_literal (bytes "true") (VBool true) l)
          else if char_is c "f" then
            Some (parse_literal (bytes "false") (VBool false) l)
          else if char_is c "n" then
            Some (parse_literal (bytes "null") VNull l)
          else if char_is c "-" || is_ascii_digit c then Some (parse_number l)
          else Some (Err ("unexpected JSON byte " +:+ byte_as_char c))
      end
  end
with parse_members (fuel : nat) (map : gmap string Value) (l : list ascii)
    : option (parsed Value) :=
  match fuel with
  | O => None
  | S fuel =>
      let l := skip_ws l in
      if negb (peek_is dquote l) then Some (Err "object key must be a string")
      else
        let# (key, l) := Some (parse_string l) in
        if bool_decide (is_Some (map !! key)) then Some (Err ("duplicate key: " +:+ key))
        else
          let# (colon, l) := Some (bump (skip_ws l)) in
          if negb (char_is colon ":") then Some (Err "expected ':' after object key")
          else
            let# (value, l) := parse_value fuel l in
            let map := <[key := value]> map in
            let# (c, l) := Some (bump (skip_ws l)) in
            if char_is c "," then parse_members fuel map l
            else if char_is c "}" then Some (Ok (VObject (btree_entries map), l))
            else Some (Err "expected ',' or '}' in object")
  end
with parse_items (fuel : nat) (items : list Value) (l : list ascii) : option (parsed Value) :=
  match fuel with
  | O => None
  | S fuel =>
      let# (value, l) := parse_value fuel l in
      let items := items ++ [value] in
      let# (c, l) := Some (bump (skip_ws l)) in
      if char_is c "," then parse_items fuel items l
      else if char_is c "]" then Some (Ok (VArray items, l))
      else Some (Err "expected ',' or ']' in array")
  end.

(** [from_str_strict].  Two calls per byte and one more are enough fuel.  The slices
    the source decodes with [from_utf8] begin and end at ASCII bytes of a [&str], so
    that decoding cannot fail. *)
Definition parse_rejecting_duplicates (input : list ascii) : option (result string Value) :=
  match parse_value (S (2 * length input)) input with
  | None => None
  | Some (Err e) => Some (Err e)
  | Some (Ok (v, rest)) =>
      Some (if nonempty (skip_ws rest) then Err "trailing data after JSON value" else Ok v)
  end.
End Strict.

(** ** Plans *)
Record PlanTarget : Type := mkPlanTarget {
  pt_watcher_id : string;
  pt_process_pid : Z;
  pt_process_start_time : string;
  pt_mux_kind : string;
  pt_mux_server_id : option string;
  pt_pane_id : string;
  pt_agent_id : option string;
  pt_session_id : option string;
  pt_evidence_fingerprint : string;
}.

Record PlanDiagnosis : Type := mkDiagnosis {
  pd_category : string;
  pd_confidence : f64;
  pd_summary : string;
  pd_failed_provider_family : string;
  pd_planner_provider_family : string;
  pd_human_required : bool;
  pd_uncertainties : list string;
}.

Record RecoveryPlan : Type := mkPlan {
  plan_schema_version : string;
  plan_id : string;
  generated_at : string;
  valid_until : string;
  plan_target : PlanTarget;
  diagnosis : PlanDiagnosis;
  plan_actions : list Action;
}.

Record PlanValidationContext : Type := mkPlanContext {
  vc_failed_provider_family : string;
  vc_planner_provider_family : string;
  vc_evidence_fingerprint : string;
  vc_watcher_id : string;
  vc_process_pid : Z;
  vc_process_start_time : string;
  vc_mux_kind : string;
  vc_pane_id : string;
  vc_now_rfc3339 : string;
  vc_allowed_actions : gset string;
}.

(** [serde_json::from_value::<RecoveryPlan>]. *)
Class PlanDecoder : Type := plan_from_value : Value → result string RecoveryPlan.

Definition action_type_name (k : ActionKind) : string :=
  match k with
  | WaitUntil _ => "WAIT_UNTIL"
  | WaitDuration _ => "WAIT_DURATION"
  | Capture _ _ => "CAPTURE"
  | CheckStatus _ => "CHECK_STATUS"
  | SendText _ => "SEND_TEXT"
  | SubmitText _ => "SUBMIT_TEXT"
  | SendKeys _ => "SEND_KEYS"
  | Notify _ _ => "NOTIFY"
  | Escalate _ => "ESCALATE"
  | StopWatching => "STOP_WATCHING"
  | Noop => "NOOP"
  end.

Definition prohibited_words : list string :=
  ["login"; "sign in"; "billing"; "fund"; "credit"; "upgrade"; "approve"; "permission"; "yolo";
   "sudo"; "rm -rf"; "password"; "token"; "secret"; "curl "; "/bin/sh"; "shell"].

Definition prohibited_text (text : string) : bool :=
  let lower := to_ascii_lowercase text in
  contains "http://" lower || contains "https://" lower
  || existsb (λ word, contains word lower) prohibited_words.

Definition types_prohibited (k : ActionKind) : bool :=
  match k with SendText text | SubmitText text => prohibited_text text | _ => false end.

Section Plans.
Context {rfc : Rfc3339} {tokens : Tokens} {decoder : PlanDecoder}.

(** [for action in &plan.actions { action.validate()? }] *)
Fixpoint validate_all (l : list Action) : result string unit :=
  match l with
  | [] => Ok tt
  | a :: l => let? _ := validate a in validate_all l
  end.

Definition validate_plan_bounds (plan : RecoveryPlan) : result string unit :=
  let? _ := fail_if (negb (String.eqb (plan_schema_version plan) "1.0"))
              "unsupported schema_version" in
  let? _ := fail_if (12 <? length (plan_actions plan))%nat "too many actions" in
  let? _ := fail_if (is_empty (pd_summary (diagnosis plan))
                     || (1000 <? len (pd_summary (diagnosis plan))))
              "diagnosis summary bounds" in
  let? _ := fail_if (negb (in_unit_interval (pd_confidence (diagnosis plan))))
              "confidence bounds" in
  let fp := pt_evidence_fingerprint (plan_target plan) in
  let? _ := fail_if ((len fp <? 16) || (128 <? len fp)
                     || negb (forallb is_ascii_hexdigit (bytes fp)))
              "evidence fingerprint bounds" in
  validate_all (plan_actions plan).

(** [None] is the parser's missing fuel, which never occurs. *)
Definition decode_recovery_plan (input : list ascii) : option (result string RecoveryPlan) :=
  match parse_rejecting_duplicates input with
  | None => None
  | Some r =>
      Some (let? value := r in
            let? plan := plan_from_value value in
            let? _ := validate_plan_bounds plan in
            Ok plan)
  end.

Definition target_mismatch (plan : RecoveryPlan) (c : PlanValidationContext) : bool :=
  let t := plan_target plan in
  negb (String.eqb (pt_evidence_fingerprint t) (vc_evidence_fingerprint c))
  || negb (String.eqb (pt_watcher_id t) (vc_watcher_id c))
  || negb (pt_process_pid t =? vc_process_pid c)
  || negb (String.eqb (pt_process_start_time t) (vc_process_start_time c))
  || negb (String.eqb (pt_mux_kind t) (vc_mux_kind c))
  || negb (String.eqb (pt_pane_id t) (vc_pane_id c)).

(** The policy context of plan validation. *)
Definition plan_policy_context (c : PlanValidationContext) : PolicyContext :=
  {| target_revalidated := target_revalidated safe;
     evidence_current := evidence_current safe;
     human_intervened := human_intervened safe;
     source_rank := source_rank safe;
     contradictory_source_rank := contradictory_source_rank safe;
     process_alive := process_alive safe;
     pane_matches := pane_matches safe;
     composer_empty := composer_empty safe;
     failed_provider_family := Some (vc_failed_provider_family c);
     planner_provider_family := Some (vc_planner_provider_family c);
     attempts_remaining := attempts_remaining safe;
     cumulative_wait_remaining_seconds := cumulative_wait_remaining_seconds safe;
     planner_calls_remaining := planner_calls_remaining safe;
     planner_concurrency_available := planner_concurrency_available safe;
     cooldown_ready := cooldown_ready safe;
     ctx_session_id := ctx_session_id safe;
     ctx_evidence_fingerprint := Some (vc_evidence_fingerprint c);
     menu_stable := menu_stable safe;
     agent_state := agent_state safe;
     goal_state := Some "blocked";
     event_category := event_category safe;
     wall_time_rfc3339 := Some (vc_now_rfc3339 c);
     claude_resume_session := claude_resume_session safe |}.

Definition validate_plan_action (c : PlanValidationContext) (a : Action) : result string unit :=
  let? _ := fail_if (negb (bool_decide (action_type_name (kind a) ∈ vc_allowed_actions c)))
              ("action type not allowlisted: " +:+ action_type_name (kind a)) in
  let? _ := fail_if (types_prohibited (kind a)) "prohibited send text" in
  authorize a (plan_policy_context c).

Fixpoint validate_plan_actions (c : PlanValidationContext) (l : list Action)
    : result string (list Action) :=
  match l with
  | [] => Ok []
  | a :: l =>
      let? _ := validate_plan_action c a in
      let? rest := validate_plan_actions c l in
      Ok (a :: rest)
  end.

Definition validate_recovery_plan (plan : RecoveryPlan) (c : PlanValidationContext)
    : result string (list Action) :=
  let d := diagnosis plan in
  let? _ := fail_if (negb (String.eqb (pd_failed_provider_family d) (vc_failed_provider_family c)))
              "failed provider family mismatch" in
  let? _ := fail_if (negb (String.eqb (pd_planner_provider_family d) (vc_planner_provider_family c)))
              "planner provider family mismatch" in
  let? _ := fail_if (String.eqb (pd_planner_provider_family d) (pd_failed_provider_family d))
              "same-provider planner plan rejected" in
  let? _ := fail_if (target_mismatch plan c) "target or evidence mismatch" in
  let? generated := ok_or (parse_from_rfc3339 (generated_at plan)) "invalid generated_at" in
  let? until := ok_or (parse_from_rfc3339 (valid_until plan)) "invalid valid_until" in
  let? now := ok_or (parse_from_rfc3339 (vc_now_rfc3339 c)) "invalid now" in
  let? _ := fail_if ((until <? now) || (until <? generated)) "plan expired or stale" in
  validate_plan_actions c (plan_actions plan).
End Plans.

(** ** The grammar *)

Definition ws (l : list ascii) : Prop := Forall (λ c, is_ascii_whitespace c = true) l.
Definition all_digits (l : list ascii) : Prop :=
  l ≠ [] ∧ Forall (λ c, is_ascii_digit c = true) l.

(** The text of a string between its quotes. *)
Inductive string_body : list ascii → Prop :=
| body_nil : string_body []
| body_plain c l :
    c ≠ dquote → c ≠ backslash → 32 ≤ byte_val c → string_body l → string_body (c :: l)
| body_escape c l : c ≠ "u"%char → string_body l → string_body (backslash :: c :: l)
| body_unicode a b c d l :
    Forall (λ h, is_ascii_hexdigit h = true) [a; b; c; d] → string_body l →
    string_body (backslash :: "u"%char :: a :: b :: c :: d :: l).

Definition int_part (l : list ascii) : Prop :=
  l = ["0"%char] ∨ (all_digits l ∧ head l ≠ Some "0"%char).
Definition frac_part (l : list ascii) : Prop :=
  l = [] ∨ ∃ ds, l = "."%char :: ds ∧ all_digits ds.
Definition exp_part (l : list ascii) : Prop :=
  l = [] ∨ ∃ e sign ds, l = e :: sign ++ ds ∧ (e = "e"%char ∨ e = "E"%char)
    ∧ (sign = [] ∨ sign = ["+"%char] ∨ sign = ["-"%char]) ∧ all_digits ds.

Definition number_text (l : list ascii) : Prop :=
  ∃ sign int frac exp, l = sign ++ int ++ frac ++ exp ∧ (sign = [] ∨ sign = ["-"%char])
    ∧ int_part int ∧ frac_part frac ∧ exp_part exp.

Section Grammar.
Context {tokens : Tokens}.

Definition key_text (l : list ascii) (k : string) : Prop :=
  ∃ body, l = dquote :: body ++ [dquote] ∧ string_body body ∧ string_token l = Ok k.

(** [json l v]: the text [l], without surrounding whitespace, denotes [v].  An object
    text has pairwise distinct keys. *)
Inductive json : list ascii → Value → Prop :=
| json_null : json (bytes "null") VNull
| json_true : json (bytes "true") (VBool true)
| json_false : json (bytes "false") (VBool false)
| json_string l s : key_text l s → json l (VString s)
| json_number l v : number_text l → number_token l = Ok v → json l v
| json_no_members w : ws w → json ("{"%char :: w ++ ["}"%char]) (VObject (btree_entries ∅))
| json_object l kvs :
    members l kvs → NoDup kvs.*1 →
    json ("{"%char :: l ++ ["}"%char]) (VObject (btree_entries (btree_collect kvs)))
| json_no_items w : ws w → json ("["%char :: w ++ ["]"%char]) (VArray [])
| json_array l vs : items l vs → json ("["%char :: l ++ ["]"%char]) (VArray vs)
with members : list ascii → list (string * Value) → Prop :=
| members_one l k v : member l k v → members l [(k, v)]
| members_cons l k v l' kvs :
    member l k v → members l' kvs → members (l ++ ","%char :: l') ((k, v) :: kvs)
with member : list ascii → string → Value → Prop :=
| member_intro w1 kt k w2 w3 vt v w4 :
    ws w1 → key_text kt k → ws w2 → ws w3 → json vt v → ws w4 →
    member (w1 ++ kt ++ w2 ++ ":"%char :: w3 ++ vt ++ w4) k v
with items : list ascii → list Value → Prop :=
| items_one w1 l v w2 : ws w1 → json l v → ws w2 → items (w1 ++ l ++ w2) [v]
| items_cons w1 l v w2 l' vs :
    ws w1 → json l v → ws w2 → items l' vs →
    items ((w1 ++ l ++ w2) ++ ","%char :: l') (v :: vs).

Scheme json_mind := Induction for json Sort Prop
with members_mind := Induction for members Sort Prop
with member_mind := Induction for member Sort Prop
with items_mind := Induction for items Sort Prop.
Combined Scheme json_mutind from json_mind, members_mind, member_mind, items_mind.
End Grammar.

(** ** Tokens *)
Lemma char_is_eq a b : char_is a b = true ↔ a = b.
Proof. apply Ascii.eqb_eq. Qed.
Lemma char_is_refl a : char_is a a = true.
Proof. by apply char_is_eq. Qed.
Lemma char_is_neq a b : a ≠ b → char_is a b = false.
Proof. intros H. apply not_true_iff_false. by rewrite char_is_eq. Qed.

(** A byte of one class is not one of another, by evaluation. *)
Ltac not_char :=
  apply char_is_neq; intros ->; discriminate.

Definition starts_none (p : ascii → bool) (l : list ascii) : Prop :=
  match l with c :: _ => p c = false | [] => True end.

Lemma skip_ws_split l : ∃ w, l = w ++ skip_ws l ∧ ws w ∧ starts_none is_ascii_whitespace (skip_ws l).
Proof.
  induction l as [|c l (w & Hl & Hw & Hs)]; [exists []; split_and!; [done|constructor|done]|].
  simpl. destruct (is_ascii_whitespace c) eqn:E.
  - exists (c :: w). split; [cbn [app]; by f_equal|]. split; [by constructor|done].
  - exists []. split_and!; [done|constructor|done].
Qed.

Lemma skip_ws_app w l : ws w → starts_none is_ascii_whitespace l → skip_ws (w ++ l) = l.
Proof.
  intros Hw Hl. induction Hw as [|c w Hc _ IH]; simpl; [|by rewrite Hc].
  destruct l as [|c l]; [done|]. simpl in *. by rewrite Hl.
Qed.

Lemma digits_split l ds rest :
  digits l = (ds, rest) →
  l = ds ++ rest ∧ Forall (λ c, is_ascii_digit c = true) ds ∧ starts_none is_ascii_digit rest.
Proof.
  revert ds rest. induction l as [|c l IH]; intros ds rest; simpl; [by intros [= <- <-]|].
  destruct (is_ascii_digit c) eqn:E; [|by intros [= <- <-]].
  destruct (digits l) as [ds' r]. intros [= <- <-].
  destruct (IH _ _ eq_refl) as (-> & ? & ?). split; [done|]. split; [by constructor|done].
Qed.

Lemma digits_app ds rest :
  Forall (λ c, is_ascii_digit c = true) ds → starts_none is_ascii_digit rest →
  digits (ds ++ rest) = (ds, rest).
Proof.
  intros Hd Hr. induction Hd as [|c ds Hc _ IH]; simpl.
  - destruct rest as [|c rest]; [done|]. simpl in *. by rewrite Hr.
  - by rewrite Hc, IH.
Qed.

#[local] Instance ok_inj {E A} : Inj eq eq (@Ok E A).
Proof. by intros x y [= ->]. Qed.

Lemma scan_digits1_ok e l ds rest :
  scan_digits1 e l = Ok (ds, rest) → l = ds ++ rest ∧ all_digits ds.
Proof.
  unfold scan_digits1. destruct l as [|c l]; [done|]. destruct (is_ascii_digit c) eqn:E; [|done].
  intros Hd. apply (inj Ok), digits_split in Hd as (Hl & Hds & Hr).
  split; [done|]. split; [|done]. intros ->. simpl in Hl. subst rest. simpl in Hr. congruence.
Qed.

Lemma scan_digits1_app e ds rest :
  all_digits ds → starts_none is_ascii_digit rest → scan_digits1 e (ds ++ rest) = Ok (ds, rest).
Proof.
  intros [Hne Hd] Hr. pose proof (digits_app _ _ Hd Hr) as He. destruct ds as [|c ds]; [done|].
  unfold scan_digits1. cbn [app] in *. inversion Hd as [|? ? Hc]; subst. by rewrite Hc, He.
Qed.

(** What can follow a number without extending it. *)
Definition num_more (c : ascii) : bool :=
  is_ascii_digit c || char_is c "." || char_is c "e" || char_is c "E".

Lemma starts_none_impl (p q : ascii → bool) l :
  (∀ c, p c = false → q c = false) → starts_none p l → starts_none q l.
Proof. destruct l; simpl; auto. Qed.

Lemma num_more_false c :
  num_more c = false ↔ is_ascii_digit c = false ∧ char_is c "." = false
    ∧ char_is c "e" = false ∧ char_is c "E" = false.
Proof. unfold num_more. rewrite !orb_false_iff. naive_solver. Qed.

Lemma digit_not_zero_head l :
  all_digits l → head l ≠ Some "0"%char →
  ∃ c l', l = c :: l' ∧ is_ascii_digit c = true ∧ char_is c "0" = false.
Proof.
  intros [Hne Hd] Hh. destruct l as [|c l]; [done|]. inversion Hd; subst.
  exists c, l. split_and!; [done|done|]. apply char_is_neq. by intros ->.
Qed.

Lemma scan_int_ok l int rest : scan_int l = Ok (int, rest) → l = int ++ rest ∧ int_part int.
Proof.
  unfold scan_int. destruct l as [|c l]; [done|]. destruct (char_is c "0") eqn:E0.
  - apply char_is_eq in E0 as ->. intros [= <- <-]. split; [done|by left].
  - destruct (is_ascii_digit c) eqn:E; [|done]. intros Hd.
    pose proof (scan_digits1_ok "" (c :: l) int rest) as Hs. unfold scan_digits1 in Hs.
    rewrite E in Hs. destruct (Hs Hd) as [Hl Ha]. split; [done|]. right. split; [done|].
    destruct Ha as [Hne _]. destruct int as [|a int]; [done|]. injection Hl as <- _. simpl.
    intros [= ->]. by rewrite char_is_refl in E0.
Qed.

Lemma scan_int_app int rest :
  int_part int → starts_none is_ascii_digit rest → scan_int (int ++ rest) = Ok (int, rest).
Proof.
  intros [->|[Ha Hh]] Hr; [done|].
  destruct (digit_not_zero_head _ Ha Hh) as (c & l & -> & Hc & H0).
  unfold scan_int. cbn [app]. rewrite H0, Hc. f_equal.
  apply (digits_app (c :: l)); [apply Ha|done].
Qed.

Lemma scan_frac_ok l frac rest : scan_frac l = Ok (frac, rest) → l = frac ++ rest ∧ frac_part frac.
Proof.
  unfold scan_frac. destruct l as [|c l]; [intros [= <- <-]; split; [done|by left]|].
  destruct (char_is c ".") eqn:E; [|intros [= <- <-]; split; [done|by left]].
  apply char_is_eq in E as ->. destruct (scan_digits1 _ l) as [[ds r]|] eqn:Es; [|done].
  intros [= <- <-]. apply scan_digits1_ok in Es as [-> Ha]. split; [done|]. right. by exists ds.
Qed.

Lemma scan_frac_app frac rest :
  frac_part frac → starts_none is_ascii_digit rest → starts_none (λ c, char_is c ".") rest →
  scan_frac (frac ++ rest) = Ok (frac, rest).
Proof.
  intros [->|(ds & -> & Ha)] Hd Hp; unfold scan_frac; cbn [app].
  - destruct rest as [|c rest]; [done|]. simpl in Hp. by rewrite Hp.
  - rewrite char_is_refl, scan_digits1_app by done. done.
Qed.

Lemma scan_exp_sign_split l sign rest :
  scan_exp_sign l = (sign, rest) →
  l = sign ++ rest ∧ (sign = [] ∨ sign = ["+"%char] ∨ sign = ["-"%char]).
Proof.
  unfold scan_exp_sign. destruct l as [|c l]; [intros [= <- <-]; by split; [|left]|].
  destruct (char_is c "+" || char_is c "-") eqn:E; intros [= <- <-]; [|by split; [|left]].
  split; [done|]. right. apply orb_true_iff in E as [->%char_is_eq| ->%char_is_eq]; naive_solver.
Qed.

Lemma scan_exp_sign_app sign ds rest :
  (sign = [] ∨ sign = ["+"%char] ∨ sign = ["-"%char]) → all_digits ds →
  scan_exp_sign (sign ++ ds ++ rest) = (sign, ds ++ rest).
Proof.
  intros [->|[->| ->]] [Hne Hd]; [|done|done]. destruct ds as [|c ds]; [done|].
  inversion Hd as [|? ? Hc]; subst. cbn.
  replace (char_is c "+") with false by (symmetry; not_char).
  by replace (char_is c "-") with false by (symmetry; not_char).
Qed.

Lemma scan_exp_ok l exp rest : scan_exp l = Ok (exp, rest) → l = exp ++ rest ∧ exp_part exp.
Proof.
  unfold scan_exp. destruct l as [|c l]; [intros [= <- <-]; split; [done|by left]|].
  destruct (char_is c "e" || char_is c "E") eqn:E; [|intros [= <- <-]; split; [done|by left]].
  destruct (scan_exp_sign l) as [sign l2] eqn:Es. apply scan_exp_sign_split in Es as [-> Hs].
  destruct (scan_digits1 _ l2) as [[ds r]|] eqn:Ed; [|done]. intros [= <- <-].
  apply scan_digits1_ok in Ed as [-> Ha]. split; [by cbn; rewrite <- app_assoc|].
  right. exists c, sign, ds. split_and!; try done.
  apply orb_true_iff in E as [->%char_is_eq| ->%char_is_eq]; naive_solver.
Qed.

Lemma scan_exp_app exp rest :
  exp_part exp → starts_none num_more rest → scan_exp (exp ++ rest) = Ok (exp, rest).
Proof.
  intros He Hr. unfold scan_exp. destruct He as [->|(e & sign & ds & -> & He & Hs & Ha)]; cbn [app].
  - destruct rest as [|c rest]; [done|]. simpl in Hr.
    apply num_more_false in Hr as (_ & _ & -> & ->). done.
  - replace (char_is e "e" || char_is e "E") with true
      by (destruct He as [-> | ->]; done).
    rewrite <- app_assoc, scan_exp_sign_app by done.
    rewrite scan_digits1_app; [done..|]. eapply starts_none_impl; [|done].
    by intros c [??]%num_more_false.
Qed.

Lemma part_starts p exp rest :
  (∀ c, p c = true → num_more c = true) → (∀ c, c = "e"%char ∨ c = "E"%char → p c = false) →
  exp_part exp → starts_none num_more rest → starts_none p (exp ++ rest).
Proof.
  intros Hp He [->|(e & sign & ds & -> & Hx & _)] Hr; cbn.
  - eapply starts_none_impl; [|done]. intros c Hc. apply not_true_iff_false.
    intros Hpc%Hp. congruence.
  - auto.
Qed.

Lemma scan_number_ok l lit rest :
  scan_number l = Ok (lit, rest) → l = lit ++ rest ∧ number_text lit.
Proof.
  unfold scan_number. destruct (scan_sign l) as [sign l1] eqn:Es.
  assert (l = sign ++ l1 ∧ (sign = [] ∨ sign = ["-"%char])) as [-> Hs].
  { unfold scan_sign in Es. destruct l as [|c l]; [injection Es as <- <-; split; [done|by left]|].
    destruct (char_is c "-") eqn:E; injection Es as <- <-; [|split; [done|by left]].
    apply char_is_eq in E as ->. split; [done|by right]. }
  destruct (scan_int l1) as [[int l2]|] eqn:Ei; [|done]. apply scan_int_ok in Ei as [-> Hi].
  destruct (scan_frac l2) as [[frac l3]|] eqn:Ef; [|done]. apply scan_frac_ok in Ef as [-> Hf].
  destruct (scan_exp l3) as [[exp l4]|] eqn:Ee; [|done]. apply scan_exp_ok in Ee as [-> He].
  intros [= <- <-]. split; [by rewrite <- !app_assoc|]. by exists sign, int, frac, exp.
Qed.

Lemma int_part_head int : int_part int → ∃ c l, int = c :: l ∧ is_ascii_digit c = true.
Proof.
  intros [->|[Ha Hh]]; [by exists "0"%char, []|].
  destruct (digit_not_zero_head _ Ha Hh) as (c & l & -> & Hc & _). by exists c, l.
Qed.

Lemma scan_number_app lit rest :
  number_text lit → starts_none num_more rest → scan_number (lit ++ rest) = Ok (lit, rest).
Proof.
  intros (sign & int & frac & exp & -> & Hs & Hi & Hf & He) Hr. unfold scan_number.
  rewrite <- !app_assoc.
  assert (scan_sign (sign ++ int ++ frac ++ exp ++ rest) = (sign, int ++ frac ++ exp ++ rest)) as ->.
  { destruct Hs as [-> | ->]; [|done]. destruct (int_part_head _ Hi) as (c & l & -> & Hc). cbn.
    by replace (char_is c "-") with false by (symmetry; not_char). }
  assert (∀ c, is_ascii_digit c = true → num_more c = true) as Hd
    by (intros c Hc; unfold num_more; by rewrite Hc).
  assert (∀ c, char_is c "." = true → num_more c = true) as Hp
    by (intros c Hc; unfold num_more; by rewrite Hc, orb_true_r).
  rewrite scan_int_app; [|done|].
  2: { destruct Hf as [->|(ds & -> & _)]; [|done].
       cbn [app]. by apply part_starts; [done|intros c [-> | ->]|..]. }
  rewrite scan_frac_app; [|done|by apply part_starts; [done|intros c [-> | ->]|..]..].
  by rewrite scan_exp_app.
Qed.

(** What is left of a string in each scanning state. *)
Definition state_body (st : StringScan) (b : list ascii) : Prop :=
  match st with
  | Plain => string_body b
  | Escaped => string_body (backslash :: b)
  | Hex n => ∃ hs b', b = hs ++ b' ∧ length hs = S n
      ∧ Forall (λ h, is_ascii_hexdigit h = true) hs ∧ string_body b'
  end.

Lemma body_escaped c b :
  string_body (backslash :: c :: b) ↔ state_body (if char_is c "u" then Hex 3 else Plain) b.
Proof.
  split.
  - inversion 1 as [|? ? ? Hn|? ? Hc|a0 a1 a2 a3 ? Hh]; subst; [done| |].
    + by rewrite char_is_neq.
    + rewrite char_is_refl. by exists [a0; a1; a2; a3], l.
  - destruct (char_is c "u") eqn:E.
    + apply char_is_eq in E as ->. intros (hs & b' & -> & Hl & Hh & Hb).
      destruct hs as [|a0 [|a1 [|a2 [|a3 [|]]]]]; try done. by apply body_unicode.
    + intros Hb. apply body_escape; [|done]. intros ->. by rewrite char_is_refl in E.
Qed.

Lemma state_body_hex c n b :
  state_body (Hex n) (c :: b) ↔
  is_ascii_hexdigit c = true ∧ state_body (match n with O => Plain | S n => Hex n end) b.
Proof.
  split.
  - intros (hs & b' & He & Hl & Hh & Hb). destruct hs as [|h hs]; [done|].
    injection He as -> ->. inversion Hh; subst. split; [done|]. destruct n as [|n].
    + by destruct hs.
    + exists hs, b'. by injection Hl.
  - intros [Hc Hb]. destruct n as [|n].
    + exists [c], b. split_and!; try done. by constructor.
    + destruct Hb as (hs & b' & -> & Hl & Hh & Hb). exists (c :: hs), b'.
      split_and!; try done; [by simpl; rewrite Hl|by constructor].
Qed.

Lemma scan_string_ok st l body rest :
  scan_string st l = Ok (body, rest) →
  ∃ b, body = b ++ [dquote] ∧ l = body ++ rest ∧ state_body st b.
Proof.
  revert st body. induction l as [|c l IH]; intros st body; [done|]. cbn [scan_string].
  assert (∀ st', scanned c (scan_string st' l) = Ok (body, rest) →
    ∃ b, body = (c :: b) ++ [dquote] ∧ c :: l = body ++ rest ∧ state_body st' b) as Hgo.
  { intros st'. destruct (scan_string st' l) as [[body' r]|] eqn:E; [|done]. intros [= <- ->].
    destruct (IH _ _ E) as (b & -> & -> & Hb). by exists b. }
  destruct st as [| |n].
  - destruct (char_is c dquote) eqn:Eq.
    { apply char_is_eq in Eq as ->. intros [= <- <-]. exists []. split_and!; try done. constructor. }
    destruct (char_is c backslash) eqn:Eb.
    { apply char_is_eq in Eb as ->. intros (b & -> & Hl & Hb)%Hgo. by eexists. }
    destruct (Z.ltb_spec (byte_val c) 32) as [|Hge]; [done|].
    intros (b & -> & Hl & Hb)%Hgo. eexists. split_and!; [done|done|].
    constructor; try done; intros ->; [by rewrite char_is_refl in Eq|by rewrite char_is_refl in Eb].
  - intros (b & -> & Hl & Hb)%Hgo. eexists. split_and!; [done|done|]. by apply body_escaped.
  - destruct (is_ascii_hexdigit c) eqn:Eh; [|done]. intros (b & -> & Hl & Hb)%Hgo.
    eexists. split_and!; [done|done|]. by apply state_body_hex.
Qed.

Lemma scan_string_app st b rest :
  state_body st b → scan_string st (b ++ dquote :: rest) = Ok (b ++ [dquote], rest).
Proof.
  revert st. induction b as [|c b IH]; intros st Hb.
  - destruct st as [| |n]; [done|inversion Hb; subst; done|].
    destruct Hb as ([] & b' & He & Hl & _); done.
  - cbn [app scan_string]. destruct st as [| |n].
    + destruct (char_is c backslash) eqn:Eb.
      { apply char_is_eq in Eb as ->. by rewrite (IH Escaped). }
      inversion Hb as [|? ? Hq Hs Hge Hb'| |]; subst; try by rewrite char_is_refl in Eb.
      rewrite char_is_neq by done. replace (byte_val c <? 32) with false
        by (symmetry; by apply Z.ltb_ge). by rewrite (IH Plain).
    + apply body_escaped in Hb. by rewrite IH.
    + apply state_body_hex in Hb as [-> Hb]. by rewrite IH.
Qed.

Section StrictProofs.
Context {tokens : Tokens}.

Lemma parse_string_ok l s rest :
  parse_string l = Ok (s, rest) → ∃ t, l = t ++ rest ∧ key_text t s.
Proof.
  unfold parse_string. destruct l as [|c l]; [done|]. cbn [bump].
  destruct (char_is c dquote) eqn:E; [|done]. apply char_is_eq in E as ->. cbn [negb].
  destruct (scan_string Plain l) as [[body r]|] eqn:Es; [|done].
  destruct (string_token (dquote :: body)) as [k|] eqn:Et; [|done]. intros [= <- <-].
  apply scan_string_ok in Es as (b & -> & -> & Hb). exists (dquote :: b ++ [dquote]).
  split; [done|]. by exists b.
Qed.

Lemma parse_string_app t s rest : key_text t s → parse_string (t ++ rest) = Ok (s, rest).
Proof.
  intros (b & -> & Hb & Ht). unfold parse_string. cbn [app bump].
  rewrite char_is_refl. cbn [negb]. rewrite <- app_assoc. cbn [app].
  rewrite (scan_string_app Plain) by done. by rewrite Ht.
Qed.

Lemma parse_literal_ok expected v l v' rest :
  parse_literal expected v l = Ok (v', rest) → l = expected ++ rest ∧ v' = v.
Proof.
  revert l. induction expected as [|b expected IH]; intros l; simpl; [by intros [= <- <-]|].
  destruct l as [|a l]; [done|]. simpl. destruct (char_is a b) eqn:E; [|done].
  apply char_is_eq in E as ->. by intros [-> ->]%IH.
Qed.

Lemma parse_literal_app expected v rest : parse_literal expected v (expected ++ rest) = Ok (v, rest).
Proof. induction expected as [|b expected IH]; simpl; [done|]. by rewrite char_is_refl. Qed.

Lemma pbind_ok {A B} (c : option (parsed A)) (k : A → list ascii → option (parsed B)) r :
  pbind c k = Some (Ok r) ↔ ∃ a l, c = Some (Ok (a, l)) ∧ k a l = Some (Ok r).
Proof. destruct c as [[[a l]|e]|]; simpl; naive_solver. Qed.

Lemma bump_ok l c rest : bump l = Ok (c, rest) ↔ l = c :: rest.
Proof. destruct l; simpl; naive_solver. Qed.

Lemma bump_skip_ok l c rest :
  bump (skip_ws l) = Ok (c, rest) → ∃ w, l = w ++ c :: rest ∧ ws w.
Proof.
  destruct (skip_ws_split l) as (w & Hl & Hw & _). intros Hb%bump_ok. exists w.
  by rewrite <- Hb.
Qed.

Definition collect_into (m : gmap string Value) (kvs : list (string * Value)) : gmap string Value :=
  foldl (λ m p, <[p.1 := p.2]> m) m kvs.

Definition value_sound (fuel : nat) : Prop :=
  ∀ l v rest, parse_value fuel l = Some (Ok (v, rest)) →
  ∃ w t, l = w ++ t ++ rest ∧ ws w ∧ json t v.

Definition members_sound (fuel : nat) : Prop :=
  ∀ m l v rest, parse_members fuel m l = Some (Ok (v, rest)) →
  ∃ t kvs, l = t ++ "}"%char :: rest ∧ members t kvs ∧ NoDup kvs.*1
    ∧ (∀ k, k ∈ kvs.*1 → m !! k = None) ∧ v = VObject (btree_entries (collect_into m kvs)).

Definition items_sound (fuel : nat) : Prop :=
  ∀ acc l v rest, parse_items fuel acc l = Some (Ok (v, rest)) →
  ∃ t vs, l = t ++ "]"%char :: rest ∧ items t vs ∧ v = VArray (acc ++ vs).

(** Whitespace may be added in front. *)
Lemma members_pad w l kvs : ws w → members l kvs → members (w ++ l) kvs.
Proof.
  intros Hw Hm.
  assert (∀ l k v, member l k v → member (w ++ l) k v) as Hone.
  { intros l0 k v Hmem. inversion Hmem; subst. rewrite app_assoc.
    apply member_intro; try done. by apply Forall_app. }
  inversion Hm; subst; [constructor; auto|]. rewrite app_assoc. constructor; auto.
Qed.

Lemma items_pad w l vs : ws w → items l vs → items (w ++ l) vs.
Proof.
  intros Hw Hi. inversion Hi as [w1 t v w2|w1 t v w2 l' vs']; subst.
  - replace (w ++ w1 ++ t ++ w2) with ((w ++ w1) ++ t ++ w2) by (by rewrite <- !app_assoc).
    constructor; try done. by apply Forall_app.
  - replace (w ++ (w1 ++ t ++ w2) ++ ","%char :: l')
      with (((w ++ w1) ++ t ++ w2) ++ ","%char :: l') by (by rewrite <- !app_assoc).
    constructor; try done. by apply Forall_app.
Qed.

Lemma parse_value_sound fuel :
  members_sound fuel → items_sound fuel → value_sound (S fuel).
Proof.
  intros HM HI l v rest. cbn [parse_value].
  destruct (skip_ws_split l) as (w & Hl & Hw & _).
  destruct (skip_ws l) as [|c r] eqn:El; [done|].
  assert (∀ t, c :: r = t ++ rest → json t v →
    ∃ w0 t, l = w0 ++ t ++ rest ∧ ws w0 ∧ json t v) as Hret.
  { intros t Ht Hj. exists w, t. split_and!; [by rewrite <- Ht|done..]. }
  destruct (skip_ws_split r) as (w2 & Hr & Hw2 & _).
  destruct (char_is c "{") eqn:E1.
  { apply char_is_eq in E1 as ->. destruct (peek_is "}" (skip_ws r)) eqn:Ep.
    - destruct (skip_ws r) as [|a r2] eqn:Er; [done|]. simpl in Ep. apply char_is_eq in Ep as ->.
      intros [= <- <-]. apply (Hret ("{"%char :: w2 ++ ["}"%char])); [|by constructor].
      cbn. rewrite <- app_assoc. by rewrite Hr.
    - intros (t & kvs & Ht & Hm & Hnd & _ & ->)%HM.
      apply (Hret ("{"%char :: (w2 ++ t) ++ ["}"%char])).
      + cbn. rewrite <- !app_assoc. cbn. by rewrite <- Ht, <- Hr.
      + apply (json_object (w2 ++ t) kvs); [|done]. by apply members_pad. }
  destruct (char_is c "[") eqn:E2.
  { apply char_is_eq in E2 as ->. destruct (peek_is "]" (skip_ws r)) eqn:Ep.
    - destruct (skip_ws r) as [|a r2] eqn:Er; [done|]. simpl in Ep. apply char_is_eq in Ep as ->.
      intros [= <- <-]. apply (Hret ("["%char :: w2 ++ ["]"%char])); [|by constructor].
      cbn. rewrite <- app_assoc. by rewrite Hr.
    - intros (t & vs & Ht & Hi & ->)%HI. cbn [app].
      apply (Hret ("["%char :: (w2 ++ t) ++ ["]"%char])).
      + cbn. rewrite <- !app_assoc. cbn. by rewrite <- Ht, <- Hr.
      + apply json_array. by apply items_pad. }
  destruct (char_is c dquote).
  { destruct (parse_string (c :: r)) as [[s r2]|] eqn:Es; [|done]. intros [= <- <-].
    apply parse_string_ok in Es as (t & Ht & Hk). apply (Hret t); [done|by constructor]. }
  destruct (char_is c "t"); [intros Hp; apply (inj Some), parse_literal_ok in Hp as [Ht ->];
    by eapply Hret, json_true|].
  destruct (char_is c "f"); [intros Hp; apply (inj Some), parse_literal_ok in Hp as [Ht ->];
    by eapply Hret, json_false|].
  destruct (char_is c "n"); [intros Hp; apply (inj Some), parse_literal_ok in Hp as [Ht ->];
    by eapply Hret, json_null|].
  destruct (_ || _); [|done]. unfold parse_number.
  destruct (scan_number (c :: r)) as [[lit r2]|] eqn:En; [|done].
  destruct (number_token lit) as [v'|] eqn:Et; [|done]. intros [= <- <-].
  apply scan_number_ok in En as [Hc Hn]. apply (Hret lit); [done|by constructor].
Qed.

Lemma parse_members_sound fuel :
  value_sound fuel → members_sound fuel → members_sound (S fuel).
Proof.
  intros HV HM m l v rest. cbn [parse_members].
  destruct (skip_ws_split l) as (w & Hl & Hw & _). set (l1 := skip_ws l) in *. clearbody l1.
  destruct (peek_is dquote l1); cbn [negb]; [|done].
  intros (key & l2 & Hk & H2)%pbind_ok. apply (inj Some), parse_string_ok in Hk as (kt & -> & Hk).
  case_bool_decide as Hnew; [done|]. apply eq_None_not_Some in Hnew.
  apply pbind_ok in H2 as (colon & l3 & Hc & H3).
  apply (inj Some), bump_skip_ok in Hc as (w2 & -> & Hw2).
  destruct (char_is colon ":") eqn:Ec; [|done]. apply char_is_eq in Ec as ->. cbn [negb] in H3.
  apply pbind_ok in H3 as (value & l4 & Hv & H4). apply HV in Hv as (w3 & vt & -> & Hw3 & Hv).
  apply pbind_ok in H4 as (c & l5 & Hb & H5).
  apply (inj Some), bump_skip_ok in Hb as (w4 & -> & Hw4).
  assert (member (w ++ kt ++ w2 ++ ":"%char :: w3 ++ vt ++ w4) key value) as Hmem
    by by apply member_intro.
  destruct (char_is c ",") eqn:E1.
  - apply char_is_eq in E1 as ->. apply HM in H5 as (t & kvs & -> & Hm & Hnd & Hfresh & ->).
    exists ((w ++ kt ++ w2 ++ ":"%char :: w3 ++ vt ++ w4) ++ ","%char :: t), ((key, value) :: kvs).
    split_and!; [|by constructor| | |done].
    + rewrite Hl. by rewrite <- !app_assoc; cbn; rewrite <- !app_assoc.
    + rewrite fmap_cons. constructor; [|done]. intros Hin%Hfresh. cbn in Hin.
      by rewrite lookup_insert_eq in Hin.
    + rewrite fmap_cons. intros k [->|Hin]%elem_of_cons; [done|]. apply Hfresh in Hin.
      by apply lookup_insert_None in Hin as [? _].
  - destruct (char_is c "}") eqn:E2; [|done]. apply char_is_eq in E2 as ->.
    injection H5 as <- <-.
    exists (w ++ kt ++ w2 ++ ":"%char :: w3 ++ vt ++ w4), [(key, value)].
    split_and!; [|by constructor|by apply NoDup_singleton| |done].
    + rewrite Hl. by rewrite <- !app_assoc; cbn; rewrite <- !app_assoc.
    + intros k ->%list_elem_of_singleton. done.
Qed.

Lemma parse_items_sound fuel :
  value_sound fuel → items_sound fuel → items_sound (S fuel).
Proof.
  intros HV HI acc l v rest. cbn [parse_items].
  intros (value & l1 & Hv & H1)%pbind_ok. apply HV in Hv as (w & t & -> & Hw & Hv).
  apply pbind_ok in H1 as (c & l2 & Hb & H2).
  apply (inj Some), bump_skip_ok in Hb as (w2 & -> & Hw2).
  destruct (char_is c ",") eqn:E1.
  - apply char_is_eq in E1 as ->. apply HI in H2 as (t2 & vs & -> & Hi & ->).
    exists ((w ++ t ++ w2) ++ ","%char :: t2), (value :: vs).
    split_and!; [by rewrite <- !app_assoc|by constructor|by rewrite <- app_assoc].
  - destruct (char_is c "]") eqn:E2; [|done]. apply char_is_eq in E2 as ->.
    injection H2 as <- <-. exists (w ++ t ++ w2), [value].
    split_and!; [by rewrite <- !app_assoc|by constructor|done].
Qed.

Lemma parse_sound fuel : value_sound fuel ∧ members_sound fuel ∧ items_sound fuel.
Proof.
  induction fuel as [|fuel (HV & HM & HI)]; [by split_and!|].
  split_and!; [by apply parse_value_sound|by apply parse_members_sound|by apply parse_items_sound].
Qed.

(** *** Totality *)
Lemma json_nonempty t v : json t v → (0 < length t)%nat.
Proof.
  intros H. inversion H as [| | |? ? (b & -> & _)|? ? (sign & int & frac & exp & -> & _ & Hi & _)| | | |];
    subst; try (simpl; lia).
  destruct (int_part_head _ Hi) as (c & r & -> & _). rewrite !length_app. simpl. lia.
Qed.

Lemma parse_total fuel :
  (∀ l, (2 * length l + 1 ≤ fuel)%nat → is_Some (parse_value fuel l))
  ∧ (∀ m l, (2 * length l + 2 ≤ fuel)%nat → is_Some (parse_members fuel m l))
  ∧ (∀ acc l, (2 * length l + 2 ≤ fuel)%nat → is_Some (parse_items fuel acc l)).
Proof.
  induction fuel as [|fuel (HV & HM & HI)]; [split_and!; intros; lia|].
  destruct (parse_sound fuel) as (SV & _ & _).
  assert (∀ l, length (skip_ws l) ≤ length l)%nat as Hskip.
  { intros l. destruct (skip_ws_split l) as (w & Hl & _). rewrite Hl at 2. rewrite length_app. lia. }
  split_and!.
  - intros l Hf. cbn [parse_value]. pose proof (Hskip l). destruct (skip_ws l) as [|c r]; [done|].
    simpl in *. pose proof (Hskip r).
    repeat case_match; try done; [apply HM; lia|apply HI; lia].
  - intros m l Hf. cbn [parse_members]. pose proof (Hskip l). set (l1 := skip_ws l) in *. clearbody l1.
    destruct (peek_is dquote l1); cbn [negb]; [|done].
    destruct (parse_string l1) as [[k l2]|] eqn:Ek; [|done]. cbn [pbind].
    apply parse_string_ok in Ek as (kt & -> & (b & -> & _)).
    case_bool_decide; [done|]. destruct (bump (skip_ws l2)) as [[c l3]|] eqn:Eb; [|done]. cbn [pbind].
    apply bump_skip_ok in Eb as (w2 & -> & _). repeat rewrite ?length_app in *. simpl in *.
    repeat rewrite ?length_app in *. simpl in *.
    destruct (char_is c ":"); cbn [negb]; [|done].
    destruct (HV l3 ltac:(lia)) as [[[v l4]|e] Hv]; rewrite Hv; [|done]. cbn [pbind].
    apply SV in Hv as (w3 & vt & -> & _ & Hj%json_nonempty).
    destruct (bump (skip_ws l4)) as [[c2 l5]|] eqn:Eb2; [|done]. cbn [pbind].
    apply bump_skip_ok in Eb2 as (w4 & -> & _). repeat rewrite ?length_app in *. simpl in *.
    repeat case_match; try done. apply HM. lia.
  - intros acc l Hf. cbn [parse_items].
    destruct (HV l ltac:(lia)) as [[[v l4]|e] Hv]; rewrite Hv; [|done]. cbn [pbind].
    apply SV in Hv as (w3 & vt & -> & _ & Hj%json_nonempty).
    destruct (bump (skip_ws l4)) as [[c2 l5]|] eqn:Eb2; [|done]. cbn [pbind].
    apply bump_skip_ok in Eb2 as (w4 & -> & _). repeat rewrite ?length_app in *. simpl in *.
    repeat case_match; try done. apply HI. lia.
Qed.

(** *** Completeness *)
Definition follow (l : list ascii) : Prop :=
  match l with
  | [] => True
  | c :: _ => is_ascii_whitespace c || char_is c "," || char_is c "}" || char_is c "]" = true
  end.

Lemma ws_byte c : is_ascii_whitespace c = true → num_more c = false.
Proof.
  intros Hw. apply num_more_false. split_and!; try not_char.
  unfold is_ascii_whitespace in Hw. unfold is_ascii_digit. apply andb_false_iff.
  rewrite !orb_true_iff, !Z.eqb_eq in Hw. rewrite !Z.leb_gt. lia.
Qed.

Lemma follow_number l : follow l → starts_none num_more l.
Proof.
  destruct l as [|c l]; [done|]. simpl. rewrite !orb_true_iff, !char_is_eq.
  intros [[[Hw| ->]| ->]| ->]; [by apply ws_byte|done..].
Qed.

Lemma follow_ws w c l : ws w → follow (c :: l) → follow (w ++ c :: l).
Proof. intros [|a w' Ha _]; [done|]. intros _. simpl. by rewrite Ha. Qed.

(** A value starts with a byte that is neither whitespace nor a closing bracket. *)
Definition opens (c : ascii) : Prop := is_ascii_whitespace c = false ∧ char_is c "]" = false.

Lemma digit_opens c : is_ascii_digit c = true → opens c.
Proof.
  intros Hd. split; [|not_char]. apply not_true_iff_false. intros Hw%ws_byte.
  unfold num_more in Hw. by rewrite Hd in Hw.
Qed.

Lemma number_head l :
  number_text l → ∃ c r, l = c :: r ∧ opens c ∧ (c = "-"%char ∨ is_ascii_digit c = true).
Proof.
  intros (sign & int & frac & exp & -> & Hs & Hi & _).
  destruct (int_part_head _ Hi) as (c & r & -> & Hc).
  destruct Hs as [-> | ->]; cbn [app]; eexists _, _; (split; [done|]); [|by split; [|left]].
  split; [by apply digit_opens|by right].
Qed.

Lemma json_head t v : json t v → ∃ c r, t = c :: r ∧ opens c.
Proof.
  intros H. inversion H as [| | |? ? (b & -> & _)|? ? Hn| | | |]; subst; try by eexists _, _.
  destruct (number_head _ Hn) as (c & r & -> & Ho & _). by eexists _, _.
Qed.

Lemma skip_ws_value w c r rest : ws w → opens c → skip_ws (w ++ (c :: r) ++ rest) = c :: r ++ rest.
Proof. intros Hw [Hc _]. by apply skip_ws_app. Qed.

Lemma skip_ws_idem l : skip_ws (skip_ws l) = skip_ws l.
Proof.
  destruct (skip_ws_split l) as (w & _ & _ & Hs). revert Hs. generalize (skip_ws l) as r.
  intros r Hs. exact (skip_ws_app [] _ (Forall_nil_2 _) Hs).
Qed.

Lemma parse_members_skip fuel m l : parse_members fuel m (skip_ws l) = parse_members fuel m l.
Proof. destruct fuel; [done|]. cbn [parse_members]. by rewrite skip_ws_idem. Qed.

Lemma parse_value_skip fuel l : parse_value fuel (skip_ws l) = parse_value fuel l.
Proof. destruct fuel; [done|]. cbn [parse_value]. by rewrite skip_ws_idem. Qed.

Lemma parse_items_skip fuel acc l : parse_items fuel acc (skip_ws l) = parse_items fuel acc l.
Proof. destruct fuel; [done|]. cbn [parse_items]. by rewrite parse_value_skip. Qed.

Lemma bump_skip_app w c rest :
  ws w → is_ascii_whitespace c = false → bump (skip_ws (w ++ c :: rest)) = Ok (c, rest).
Proof. intros Hw Hc. by rewrite skip_ws_app. Qed.

Lemma members_head t kvs : members t kvs → ∃ w r, t = w ++ dquote :: r ∧ ws w.
Proof.
  intros Hm.
  assert (∀ l k v, member l k v → ∃ w r, l = w ++ dquote :: r ∧ ws w) as Hone.
  { intros l k v Hmem. inversion Hmem as [w1 kt ? ? ? ? ? ? ? (b & -> & _)]; subst.
    eexists w1, _. by split. }
  inversion Hm as [? ? ? Hmem|? ? ? ? ? Hmem]; subst; apply Hone in Hmem as (w & r & -> & Hw).
  - by exists w, r.
  - eexists w, _. rewrite <- app_assoc. by split.
Qed.

Lemma items_head t vs : items t vs → ∃ w c r, t = w ++ c :: r ∧ ws w ∧ opens c.
Proof.
  intros Hi. inversion Hi as [w1 l v w2 Hw Hj|w1 l v w2 l' vs' Hw Hj]; subst;
    destruct (json_head _ _ Hj) as (c & r & -> & Hc); eexists w1, c, _;
    rewrite <- ?app_assoc; by split.
Qed.

Definition value_complete (t : list ascii) (v : Value) : Prop :=
  ∀ w rest fuel, ws w → follow rest → (2 * length t + 1 ≤ fuel)%nat →
  parse_value fuel (w ++ t ++ rest) = Some (Ok (v, rest)).

Definition members_complete (t : list ascii) (kvs : list (string * Value)) : Prop :=
  ∀ m rest fuel, NoDup kvs.*1 → (∀ k, k ∈ kvs.*1 → m !! k = None) → (2 * length t + 2 ≤ fuel)%nat →
  parse_members fuel m (t ++ "}"%char :: rest)
  = Some (Ok (VObject (btree_entries (collect_into m kvs)), rest)).

Definition member_complete (t : list ascii) (k : string) (v : Value) : Prop :=
  ∀ m c rest fuel, m !! k = None → (c = ","%char ∨ c = "}"%char) → (2 * length t + 1 ≤ fuel)%nat →
  parse_members (S fuel) m (t ++ c :: rest)
  = (if char_is c "," then parse_members fuel (<[k := v]> m) rest
     else Some (Ok (VObject (btree_entries (<[k := v]> m)), rest))).

Definition items_complete (t : list ascii) (vs : list Value) : Prop :=
  ∀ acc rest fuel, (2 * length t + 2 ≤ fuel)%nat →
  parse_items fuel acc (t ++ "]"%char :: rest) = Some (Ok (VArray (acc ++ vs), rest)).

(** The dispatch on the first byte, once the whitespace is skipped. *)
Lemma parse_value_at fuel w c r rest :
  ws w → opens c → parse_value fuel (w ++ (c :: r) ++ rest) = parse_value fuel (c :: r ++ rest).
Proof. intros Hw Hc. rewrite <- parse_value_skip, skip_ws_value by done. by cbn. Qed.

Lemma skip_ws_opens c l : opens c → skip_ws (c :: l) = c :: l.
Proof. intros [Hc _]. cbn. by rewrite Hc. Qed.

Lemma complete_number t v : number_text t → number_token t = Ok v → value_complete t v.
Proof.
  intros Hn Ht w rest fuel Hw Hf Hfuel. pose proof (follow_number _ Hf) as Hr.
  pose proof (scan_number_app _ _ Hn Hr) as Hs.
  destruct (number_head _ Hn) as (c & r & -> & Ho & Hc).
  rewrite parse_value_at by done. destruct fuel as [|fuel]; [lia|]. cbn [parse_value].
  rewrite skip_ws_opens by done. cbn [app] in Hs.
  assert (∀ x, x ∈ ["{"; "["; dquote; "t"; "f"; "n"]%char → char_is c x = false) as Hx.
  { intros x Hx. apply char_is_neq. intros ->.
    repeat (apply elem_of_cons in Hx as [->|Hx]; [by destruct Hc|]). by apply elem_of_nil in Hx. }
  rewrite !Hx by set_solver.
  replace (char_is c "-" || is_ascii_digit c) with true
    by (destruct Hc as [-> | ->]; [done|by rewrite orb_true_r]).
  unfold parse_number. rewrite Hs. by rewrite Ht.
Qed.

Lemma complete_string t s : key_text t s → value_complete t (VString s).
Proof.
  intros Hk w rest fuel Hw Hf Hfuel. pose proof (parse_string_app t s rest Hk) as Hp.
  destruct Hk as (b & -> & _). rewrite parse_value_at by done.
  destruct fuel as [|fuel]; [lia|]. cbn [parse_value]. rewrite skip_ws_opens by done.
  cbn [app] in Hp. rewrite Hp. done.
Qed.

Lemma complete_literal (lit : string) v :
  (∀ fuel rest, parse_value (S fuel) (bytes lit ++ rest) = Some (parse_literal (bytes lit) v (bytes lit ++ rest))) →
  (∃ c r, bytes lit = c :: r ∧ opens c) → value_complete (bytes lit) v.
Proof.
  intros Hd (c & r & He & Ho) w rest fuel Hw Hf Hfuel. rewrite He in *.
  rewrite parse_value_at by done. destruct fuel as [|fuel]; [lia|].
  change (c :: r ++ rest) with ((c :: r) ++ rest). rewrite Hd. by rewrite parse_literal_app.
Qed.

Lemma complete_members t kvs :
  NoDup kvs.*1 → members t kvs → members_complete t kvs →
  value_complete ("{"%char :: t ++ ["}"%char]) (VObject (btree_entries (btree_collect kvs))).
Proof.
  intros Hnd Hm Hc w rest fuel Hw Hf Hfuel. rewrite parse_value_at by done.
  destruct fuel as [|fuel]; [lia|]. cbn [parse_value]. rewrite skip_ws_opens by done.
  rewrite <- app_assoc. cbn [app]. replace (char_is "{" "{") with true by done.
  cbn [length] in Hfuel. rewrite length_app in Hfuel. simpl in Hfuel.
  assert (peek_is "}" (skip_ws (t ++ "}"%char :: rest)) = false) as ->.
  { destruct (members_head _ _ Hm) as (w2 & r & -> & Hw2). rewrite <- app_assoc.
    by rewrite skip_ws_app. }
  rewrite parse_members_skip, Hc; [done|done|set_solver|lia].
Qed.

Lemma complete_items t vs :
  items t vs → items_complete t vs → value_complete ("["%char :: t ++ ["]"%char]) (VArray vs).
Proof.
  intros Hi Hc w rest fuel Hw Hf Hfuel. rewrite parse_value_at by done.
  destruct fuel as [|fuel]; [lia|]. cbn [parse_value]. rewrite skip_ws_opens by done.
  rewrite <- app_assoc. cbn [app].
  replace (char_is "[" "{") with false by done. replace (char_is "[" "[") with true by done.
  cbn [length] in Hfuel. rewrite length_app in Hfuel. simpl in Hfuel.
  assert (peek_is "]" (skip_ws (t ++ "]"%char :: rest)) = false) as ->.
  { destruct (items_head _ _ Hi) as (w2 & c & r & -> & Hw2 & Ho). rewrite <- app_assoc. cbn [app].
    rewrite skip_ws_app by (try done; apply Ho). apply Ho. }
  rewrite parse_items_skip, Hc; [done|lia].
Qed.

Lemma complete_empty (a b : ascii) v w0 :
  opens a → is_ascii_whitespace b = false → ws w0 →
  (∀ fuel r, parse_value (S fuel) (a :: r) =
     if peek_is b (skip_ws r) then Some (Ok (v, tail (skip_ws r))) else parse_value (S fuel) (a :: r)) →
  value_complete (a :: w0 ++ [b]) v.
Proof.
  intros Ha Hb Hw0 Hd w rest fuel Hw Hf Hfuel. rewrite parse_value_at by done.
  destruct fuel as [|fuel]; [lia|]. rewrite Hd, <- app_assoc. cbn [app].
  rewrite skip_ws_app by done. cbn. by rewrite char_is_refl.
Qed.

Lemma complete_member w1 kt k w2 w3 vt v w4 :
  ws w1 → key_text kt k → ws w2 → ws w3 → ws w4 → value_complete vt v →
  member_complete (w1 ++ kt ++ w2 ++ ":"%char :: w3 ++ vt ++ w4) k v.
Proof.
  intros Hw1 Hk Hw2 Hw3 Hw4 Hv m c rest fuel Hm Hc Hfuel. cbn [parse_members].
  pose proof Hk as (b & Hkt & _).
  assert ((w1 ++ kt ++ w2 ++ ":"%char :: w3 ++ vt ++ w4) ++ c :: rest
    = w1 ++ kt ++ w2 ++ ":"%char :: w3 ++ vt ++ w4 ++ c :: rest) as ->
    by (by rewrite <- !app_assoc; cbn; rewrite <- !app_assoc).
  assert (is_ascii_whitespace c = false) as Hcw by (by destruct Hc as [-> | ->]).
  assert (follow (w4 ++ c :: rest)) as Hfol
    by (apply follow_ws; [done|by destruct Hc as [-> | ->]]).
  rewrite skip_ws_app by (try done; by rewrite Hkt).
  replace (peek_is dquote (kt ++ _)) with true by (by rewrite Hkt). cbn [negb].
  rewrite parse_string_app with (s := k) by done. cbn [pbind].
  rewrite bool_decide_false by (rewrite Hm; by intros []).
  rewrite bump_skip_app by done. cbn [pbind].
  replace (char_is ":" ":") with true by done. cbn [negb].
  rewrite Hv; [|done|done|].
  2: { repeat rewrite ?length_app in Hfuel; cbn [length] in Hfuel.
       repeat rewrite ?length_app in Hfuel. lia. }
  cbn [pbind]. rewrite bump_skip_app by done. cbn [pbind].
  by destruct Hc as [-> | ->].
Qed.

Lemma complete_members_cons l k v l' kvs :
  member_complete l k v → members_complete l' kvs →
  members_complete (l ++ ","%char :: l') ((k, v) :: kvs).
Proof.
  intros Hm Hms m rest fuel Hnd Hfresh Hfuel. rewrite length_app in Hfuel. cbn [length] in Hfuel.
  rewrite fmap_cons in Hnd, Hfresh. apply NoDup_cons in Hnd as [Hk Hnd].
  destruct fuel as [|fuel]; [lia|]. rewrite <- app_assoc. cbn [app].
  rewrite Hm; [|apply Hfresh; by left|by left|lia].
  replace (char_is "," ",") with true by done.
  rewrite Hms; [done|done| |lia]. intros k' Hk'. cbn in Hk. rewrite lookup_insert_ne by congruence.
  apply Hfresh. by right.
Qed.

Lemma complete_items_cons w1 l v w2 (c : ascii) acc rest fuel :
  ws w1 → value_complete l v → ws w2 → c = ","%char ∨ c = "]"%char →
  (2 * length (w1 ++ l ++ w2) + 2 ≤ S fuel)%nat →
  parse_items (S fuel) acc ((w1 ++ l ++ w2) ++ c :: rest)
  = (if char_is c "," then parse_items fuel (acc ++ [v]) rest
     else Some (Ok (VArray (acc ++ [v]), rest))).
Proof.
  intros Hw1 Hv Hw2 Hc Hfuel. cbn [parse_items]. rewrite <- !app_assoc.
  rewrite !length_app in Hfuel.
  rewrite Hv; [|done|apply follow_ws; [done|by destruct Hc as [-> | ->]]|lia].
  cbn [pbind]. rewrite bump_skip_app by (try done; by destruct Hc as [-> | ->]). cbn [pbind].
  by destruct Hc as [-> | ->].
Qed.

Lemma parse_complete t v : json t v → value_complete t v.
Proof.
  revert t v. apply (json_mind (λ t v _, value_complete t v) (λ t kvs _, members_complete t kvs)
    (λ t k v _, member_complete t k v) (λ t vs _, items_complete t vs)).
  - apply (complete_literal "null"); [done|]. by eexists _, _.
  - apply (complete_literal "true"); [done|]. by eexists _, _.
  - apply (complete_literal "false"); [done|]. by eexists _, _.
  - intros. by apply complete_string.
  - intros. by apply complete_number.
  - intros w Hw. apply complete_empty; try done. intros fuel r. cbn [parse_value].
    rewrite skip_ws_opens by done. by destruct (peek_is "}" (skip_ws r)).
  - intros. by apply complete_members.
  - intros w Hw. apply complete_empty; try done. intros fuel r. cbn [parse_value].
    rewrite skip_ws_opens by done. by destruct (peek_is "]" (skip_ws r)).
  - intros. by apply complete_items.
  - intros l k v _ Hm m rest fuel _ Hfresh Hfuel. destruct fuel as [|fuel]; [lia|].
    rewrite Hm; [done|apply Hfresh; by left|by right|lia].
  - intros. by apply complete_members_cons.
  - intros. by apply complete_member.
  - intros w1 l v w2 Hw1 _ Hv Hw2 acc rest fuel Hfuel. destruct fuel as [|fuel]; [lia|].
    rewrite (complete_items_cons _ _ v) by (try done; by right). done.
  - intros w1 l v w2 l' vs Hw1 _ Hv Hw2 _ Hvs acc rest fuel Hfuel.
    rewrite length_app in Hfuel. cbn [length] in Hfuel.
    destruct fuel as [|fuel]; [lia|]. rewrite <- (app_assoc _ (","%char :: l')). cbn [app].
    rewrite (complete_items_cons _ _ v); [|done|done|done|by left|lia].
    replace (char_is "," ",") with true by done. rewrite Hvs by lia. by rewrite <- app_assoc.
Qed.
End StrictProofs.

(** ** Properties of the parser *)

(** The strict parser decides the grammar: it always ends with a verdict (the
    fuel suffices for every input), and it accepts an input with a value exactly when
    the input is whitespace around a text of the JSON grammar that denotes the value and
    in which no object, at any depth, repeats a key. *)
Theorem strict_parser_decides_grammar {tokens : Tokens} input :
  is_Some (parse_rejecting_duplicates input)
  ∧ ∀ v, parse_rejecting_duplicates input = Some (Ok v)
         ↔ ∃ w t w', input = w ++ t ++ w' ∧ ws w ∧ ws w' ∧ json t v.
Proof.
  unfold parse_rejecting_duplicates. split.
  - destruct (parse_total (S (2 * length input))) as [HV _].
    destruct (HV input ltac:(lia)) as [[[v rest]|e] ->]; done.
  - intros v. split.
    + destruct (parse_value _ input) as [[[v' rest]|e]|] eqn:Ep; try done.
      destruct (skip_ws_split rest) as (w' & Hr & Hw' & _).
      destruct (skip_ws rest) as [|c r]; [|done]. intros [= ->].
      apply parse_sound in Ep as (w & t & -> & Hw & Hj).
      exists w, t, w'. rewrite app_nil_r in Hr. by rewrite Hr.
    + intros (w & t & w' & -> & Hw & Hw' & Hj).
      assert (follow w') as Hf by (destruct Hw' as [|c w' Hc _]; [done|]; simpl; by rewrite Hc).
      rewrite (parse_complete _ _ Hj); [|done|done|rewrite !length_app; lia].
      assert (skip_ws w' = []) as ->; [|done].
      pose proof (skip_ws_app w' [] Hw' I) as Hs. by rewrite app_nil_r in Hs.
Qed.
