(* ===== verification/Redact.v ===== *)
(** * Redaction (src/src/redact.rs)

    Text and JSON that leave the daemon are redacted: a list of regular expressions,
    the query parameters of URLs, and whole JSON fields with sensitive names.  The
    regex crate is a parameter: counting matches, replacing them, and splitting a text
    into matched and unmatched segments. *)
From S2P Require Import Prelude Json.
From Stdlib Require Import Ascii.

Local Open Scope Z_scope.

Record RedactionReport : Type := mkReport {
  replacement_count : nat;
  categories : gset string;
}.

Definition report_default : RedactionReport := mkReport 0 ∅.

Definition mark (category : string) (count : nat) (r : RedactionReport) : RedactionReport :=
  if Nat.eqb count 0 then r
  else mkReport (replacement_count r + count) ({[category]} ∪ categories r).

Definition merge (other r : RedactionReport) : RedactionReport :=
  mkReport (replacement_count r + replacement_count other) (categories r ∪ categories other).

(** The regex crate.  [re_segments] lists the text between and in the matches, with
    [true] for a match. *)
Class RegexCrate : Type := {
  re_count : string → string → nat;
  re_replace_all : string → string → string → string;
  re_segments : string → string → list (bool * string);
  re_escape : string → string;
}.

Definition dq : string := String "034"%char EmptyString.

Definition patterns : list (string * string * string) :=
  [("private_key",
    "(?is)-----BEGIN [^\-\r\n]*PRIVATE KEY-----.*?-----END [^\-\r\n]*PRIVATE KEY-----",
    "<REDACTED:PRIVATE_KEY>");
   ("authorization_header",
    "(?im)^(Authorization\s*:\s*(?:Bearer|Basic)\s+)[^\s]+",
    "${1}<REDACTED:AUTH>");
   ("jwt",
    "\beyJ[A-Za-z0-9_-]{8,}\.[A-Za-z0-9_-]{8,}\.[A-Za-z0-9_-]{8,}\b",
    "<REDACTED:JWT>");
   ("known_token",
    "\b(?:sk-[A-Za-z0-9_-]{16,}|sk-ant-[A-Za-z0-9_-]{16,}|ghp_[A-Za-z0-9]{20,}|" +:+
    "github_pat_[A-Za-z0-9_]{20,}|glpat-[A-Za-z0-9_-]{16,}|xox[baprs]-[A-Za-z0-9-]{16,}|" +:+
    "AKIA[0-9A-Z]{16})\b",
    "<REDACTED:TOKEN>");
   ("secret_assignment",
    "(?i)\b((?:api[_-]?key|access[_-]?token|refresh[_-]?token|client[_-]?secret|password|" +:+
    "passwd|secret|cookie|session[_-]?token)\s*[:=]\s*)(?:['" +:+ dq +:+ "])?([^\s,'" +:+ dq +:+
    ";]{6,})(?:['" +:+ dq +:+ "])?",
    "${1}<REDACTED:SECRET>");
   ("database_url",
    "(?i)\b([a-z][a-z0-9+.-]*://[^\s:/@]+:)[^\s@/]+(@[^\s]+)",
    "${1}<REDACTED:PASSWORD>${2}")].

Definition sensitive_query_key (key : string) : bool :=
  let lower := to_ascii_lowercase key in
  one_of ["access_token"; "api_key"; "apikey"; "auth"; "authorization"; "credential"; "key";
          "password"; "secret"; "signature"; "sig"; "token"; "x-amz-credential";
          "x-amz-signature"; "x-goog-signature"] lower
  || ends_with "token" lower || ends_with "signature" lower.

(** ** String helpers of the standard library *)

(** [str::split_once] on an ASCII character. *)
Fixpoint split_once (c : ascii) (s : string) : option (string * string) :=
  match s with
  | EmptyString => None
  | String a s =>
      if Ascii.eqb a c then Some (EmptyString, s)
      else match split_once c s with
           | Some (l, r) => Some (String a l, r)
           | None => None
           end
  end.

(** [str::split] on an ASCII character. *)
Fixpoint split_char (c : ascii) (s : string) : list string :=
  match s with
  | EmptyString => [EmptyString]
  | String a s =>
      match split_char c s with
      | [] => []
      | x :: xs => if Ascii.eqb a c then EmptyString :: x :: xs else String a x :: xs
      end
  end.

Definition trailing_char (a : ascii) : bool :=
  existsb (Ascii.eqb a) ["."; ","; ")"; ";"; "]"]%char.

(** The loop that moves closing punctuation to [trailing]. *)
Fixpoint split_trailing (s : string) : string * string :=
  match s with
  | EmptyString => (EmptyString, EmptyString)
  | String a s =>
      let '(value, trailing) := split_trailing s in
      if is_empty value && trailing_char a then (EmptyString, String a trailing)
      else (String a value, trailing)
  end.

Definition join (sep : string) (l : list string) : string :=
  match l with
  | [] => ""
  | s :: l => foldl (λ acc x, acc +:+ sep +:+ x) s l
  end.

(** ** URLs *)

(** One pair of the query: whether it was sensitive, and its new text. *)
Definition redact_pair (pair : string) : bool * string :=
  let '(key, val) := default (pair, "") (split_once "=" pair) in
  if sensitive_query_key key then (true, key +:+ "=<REDACTED>") else (false, key +:+ "=" +:+ val).

Definition redact_query (query : string) : bool * string :=
  let pairs := redact_pair <$> List.filter (λ p, negb (is_empty p)) (split_char "&" query) in
  (existsb fst pairs, join "&" (snd <$> pairs)).

Definition redact_url (url : string) (report : RedactionReport) : string * RedactionReport :=
  let '(value, trailing) := split_trailing url in
  match split_once "?" value with
  | None => (url, report)
  | Some (base, query) =>
      let '(query, fragment) :=
        match split_once "#" query with
        | Some (q, f) => (q, Some f)
        | None => (query, None)
        end in
      let '(changed, text) := redact_query query in
      if negb changed then (url, report)
      else
        (base +:+ "?" +:+ text
           +:+ (match fragment with Some f => "#" +:+ f | None => "" end) +:+ trailing,
         mark "signed_url" 1 report)
  end.

Definition URL_RE : string := "https?://[^\s<>" +:+ dq +:+ "']+".

Section Redact.
Context {regex : RegexCrate} (extra_secret_names : list string).

Definition redact_segment (st : string * RedactionReport) (seg : bool * string)
    : string * RedactionReport :=
  let '(out, report) := st in
  if seg.1 then let '(url, report) := redact_url seg.2 report in (out +:+ url, report)
  else (out +:+ seg.2, report).

Definition redact_urls (text : string) (report : RedactionReport) : string * RedactionReport :=
  foldl redact_segment ("", report) (re_segments URL_RE text).

Definition apply_pattern (text pattern replacement : string) : string * nat :=
  let count := re_count pattern text in
  if Nat.eqb count 0 then (text, 0%nat) else (re_replace_all pattern text replacement, count).

Definition step_pattern (st : string * RedactionReport) (p : string * string * string)
    : string * RedactionReport :=
  let '(category, pattern, replacement) := p in
  let '(next, count) := apply_pattern st.1 pattern replacement in
  (next, mark category count st.2).

Definition custom_pattern (safe : list string) : string :=
  "(?im)^((?:" +:+ join "|" safe +:+ ")\s*[:=]\s*)(?:['" +:+ dq +:+ "])?([^\s'" +:+ dq
    +:+ "]+)(?:['" +:+ dq +:+ "])?$".

Definition redact_text (text : string) : string * RedactionReport :=
  let st := foldl step_pattern (text, report_default) patterns in
  let safe := re_escape <$> List.filter (λ n, negb (is_empty n)) extra_secret_names in
  let st :=
    match safe with
    | [] => st
    | _ =>
        step_pattern st ("custom_secret", custom_pattern safe, "${1}<REDACTED:CUSTOM_SECRET>")
    end in
  redact_urls st.1 st.2.

(** ** JSON *)
Definition sensitive_field_name (key : string) : bool :=
  let lower := to_ascii_lowercase key in
  sensitive_query_key lower || contains "password" lower || contains "secret" lower
  || contains "token" lower || contains "api_key" lower || contains "apikey" lower
  || contains "cookie" lower || existsb (λ name, String.eqb name key) extra_secret_names.

Definition REDACTED_FIELD : Value := VString "<REDACTED:FIELD>".

Fixpoint walk (v : Value) (report : RedactionReport) {struct v} : Value * RedactionReport :=
  match v with
  | VObject fields =>
      let '(out, report) :=
        (fix go (l : list (string * Value)) (report : RedactionReport) :=
           match l with
           | [] => ([], report)
           | (key, child) :: l =>
               let '(child', report) :=
                 if sensitive_field_name key
                 then (REDACTED_FIELD, mark "sensitive_field" 1 report)
                 else walk child report in
               let '(l', report) := go l report in
               ((key, child') :: l', report)
           end) fields report in
      (VObject out, report)
  | VArray items =>
      let '(out, report) :=
        (fix go (l : list Value) (report : RedactionReport) :=
           match l with
           | [] => ([], report)
           | item :: l =>
               let '(item', report) := walk item report in
               let '(l', report) := go l report in
               (item' :: l', report)
           end) items report in
      (VArray out, report)
  | VString text =>
      let '(redacted, partial) := redact_text text in
      (VString redacted, merge partial report)
  | other => (other, report)
  end.

Definition redact_json (v : Value) : Value * RedactionReport := walk v report_default.

(** ** What redaction guarantees *)

(** Two values that agree outside the sensitive fields. *)
#[warnings="-register-all"]
Inductive agree : Value → Value → Prop :=
| agree_null : agree VNull VNull
| agree_bool b : agree (VBool b) (VBool b)
| agree_number n : agree (VNumber n) (VNumber n)
| agree_string s : agree (VString s) (VString s)
| agree_array l l' : Forall2 agree l l' → agree (VArray l) (VArray l')
| agree_object l l' :
    Forall2 (λ p p', p.1 = p'.1 ∧ (sensitive_field_name p.1 = true ∨ agree p.2 p'.2)) l l' →
    agree (VObject l) (VObject l').

Lemma walk_agree v v' report : agree v v' → walk v report = walk v' report.
Proof.
  revert v' report. induction v as [|b|n|s|l IH|l IH] using Value_ind'; intros v' report Ha;
    inversion Ha as [| | | |? l' Hl|? l' Hl]; subst; try done; clear Ha.
  - cbn [walk].
    match goal with |- context [let '(_, _) := ?g l report in _] => set (go := g) end.
    assert (go l report = go l' report) as ->; [|done].
    revert report. induction Hl as [|x x' l l' Hx _ IHl]; intros report; [done|].
    inversion IH as [|? ? IHx IH']; subst. cbn [go].
    rewrite (IHx x' report Hx). destruct (walk x' report) as [y r]. by rewrite IHl.
  - cbn [walk].
    match goal with |- context [let '(_, _) := ?g l report in _] => set (go := g) end.
    assert (go l report = go l' report) as ->; [|done].
    revert report. induction Hl as [|[k x] [k' x'] l l' [Hk Hx] _ IHl]; intros report; [done|].
    cbn in Hk, Hx. subst k'. inversion IH as [|? ? IHx IH']; subst. cbn [go].
    destruct (sensitive_field_name k) eqn:Es; [by rewrite IHl|].
    destruct Hx as [?|Hx]; [done|]. cbn in IHx. rewrite (IHx x' report Hx).
    destruct (walk x' report) as [y r]. by rewrite IHl.
Qed.

(** Every field of a value, at any depth outside sensitive fields, and its content. *)
Inductive field : Value → string → Value → Prop :=
| field_here l k v : (k, v) ∈ l → field (VObject l) k v
| field_object l k v k' v' : (k, v) ∈ l → field v k' v' → field (VObject l) k' v'
| field_array l v k' v' : v ∈ l → field v k' v' → field (VArray l) k' v'.

Lemma walk_fields v report k x :
  field (walk v report).1 k x → sensitive_field_name k = true → x = REDACTED_FIELD.
Proof.
  revert report. induction v as [|b|n|s|l IH|l IH] using Value_ind'; intros report.
  1-3: inversion 1.
  - cbn [walk]. destruct (redact_text s). inversion 1.
  - cbn [walk].
    match goal with |- context [let '(_, _) := ?g l report in _] => set (go := g) end.
    assert (∀ y, y ∈ (go l report).1 → ∃ z r, z ∈ l ∧ y = (walk z r).1) as Hgo.
    { clear IH. revert report. induction l as [|z l IHl]; intros report y; cbn [go].
      - cbn. by intros ?%elem_of_nil.
      - destruct (walk z report) as [z' r1] eqn:Ez. specialize (IHl r1 y).
        destruct (go l r1) as [l' r2]. cbn [fst] in *. intros [->|Hy]%elem_of_cons.
        + exists z, report. rewrite Ez. by split; [left|].
        + destruct (IHl Hy) as (z0 & r & Hz & ->). exists z0, r. by split; [right|]. }
    destruct (go l report) as [l' r']. cbn [fst] in *. intros Hf Hs.
    inversion Hf as [| |? y ? ? Hy Hf']; subst. destruct (Hgo _ Hy) as (z & r & Hz & ->).
    rewrite Forall_forall in IH. by eapply (IH z Hz r).
  - cbn [walk].
    match goal with |- context [let '(_, _) := ?g l report in _] => set (go := g) end.
    assert (∀ q y, (q, y) ∈ (go l report).1 → sensitive_field_name q = true ∧ y = REDACTED_FIELD
      ∨ sensitive_field_name q = false ∧ ∃ z r, (q, z) ∈ l ∧ y = (walk z r).1) as Hgo.
    { clear IH. revert report. induction l as [|[q z] l IHl]; intros report q' y; cbn [go].
      - cbn. by intros ?%elem_of_nil.
      - destruct (sensitive_field_name q) eqn:Eq.
        + specialize (IHl (mark "sensitive_field" 1 report) q' y). destruct (go l _) as [l' r2].
          cbn [fst] in *. intros [[= -> ->]|Hy]%elem_of_cons; [by left|].
          destruct (IHl Hy) as [?|(? & z0 & r & Hz & ->)]; [by left|]. right. split; [done|].
          exists z0, r. by split; [right|].
        + destruct (walk z report) as [z' r1] eqn:Ez. specialize (IHl r1 q' y).
          destruct (go l r1) as [l' r2]. cbn [fst] in *.
          intros [[= -> ->]|Hy]%elem_of_cons.
          * right. split; [done|]. exists z, report. rewrite Ez. by split; [left|].
          * destruct (IHl Hy) as [?|(? & z0 & r & Hz & ->)]; [by left|]. right. split; [done|].
            exists z0, r. by split; [right|]. }
    destruct (go l report) as [l' r']. cbn [fst] in *. intros Hf Hs. rewrite Forall_forall in IH.
    inversion Hf as [? ? ? Hy|? q y ? ? Hy Hf'|]; subst.
    + destruct (Hgo _ _ Hy) as [[_ ->]|[? _]]; [done|congruence].
    + destruct (Hgo _ _ Hy) as [[_ ->]|(_ & z & r & Hz & ->)]; [inversion Hf'|].
      by eapply (IH (q, z) Hz r).
Qed.
End Redact.

(** ** Properties *)

(** Redacted JSON does not depend on what sensitive fields hold: two documents that
    agree outside the fields with sensitive names, at any depth, redact to the same
    document with the same report; and every field with a sensitive name in a redacted
    document is the mask. *)
Theorem redaction_hides_sensitive_fields {regex : RegexCrate} names v v' :
  (agree names v v' → redact_json names v = redact_json names v')
  ∧ ∀ k x, field (redact_json names v).1 k x → sensitive_field_name names k = true →
           x = REDACTED_FIELD.
Proof. split; [apply walk_agree|apply walk_fields]. Qed.

#[local] Instance no_regex : RegexCrate :=
  {| re_count := λ _ _, 0%nat; re_replace_all := λ _ t _, t;
     re_segments := λ _ t, [(false, t)]; re_escape := λ t, t |}.

Lemma redaction_hides_sensitive_fields_witness :
  let doc secret := VObject [("api_token", VString secret); ("pane", VString "%1")] in
  redact_json [] (doc "abc") = redact_json [] (doc "xyz")
  ∧ (redact_json [] (doc "abc")).1
    = VObject [("api_token", REDACTED_FIELD); ("pane", VString "%1")].
Proof.
  intros doc. split; [|vm_compute; reflexivity].
  apply (redaction_hides_sensitive_fields [] (doc "abc") (doc "xyz")).
  constructor. constructor; [split; [reflexivity|left; reflexivity]|].
  constructor; [split; [reflexivity|right; constructor]|constructor].
Defined.
