(* ===== verification/Planner.v ===== *)
(** * The planner broker (src/src/planner/mod.rs, src/src/planner/router.rs)

    When the daemon has no recipe it may ask an agent of another provider for a plan.
    The router chooses planners of a different family, the snapshot sent to them is
    redacted and bounded, the broker keeps concurrency and call budgets, and an answer
    is decoded and validated before any of its actions is returned.  Running a planner
    process, the JSON encoder and the wall clock are parameters. *)
From stdpp Require Import pretty.
From Stdlib Require Import Ascii.
From S2P Require Import Prelude Text Json Action Policy Screen PlannerSchema Redact.

Local Open Scope Z_scope.

(** Configuration (src/src/config.rs). *)
Record PlannerConfig : Type := mkPlannerConfig {
  pc_enabled : bool;
  pc_executable : string;
  pc_provider_family : string;
  pc_provider : string;
  pc_model : string;
}.

Record PlanningConfig : Type := mkPlanning {
  enabled : bool;
  max_calls_per_event : Z;
  allow_independent_second_opinion : bool;
  max_calls_per_session_per_day : Z;
  max_concurrent_calls : Z;
  planning_timeout_seconds : Z;
  max_output_bytes : Z;
  max_snapshot_bytes : Z;
  allow_unknown_provider_family : bool;
  allow_repository_context : bool;
  allow_network : bool;
  planner_priority : list string;
  planners : gmap string PlannerConfig;
}.

(** ** Routing *)
Record PlannerCapability : Type := mkCapability {
  cap_id : string;
  cap_executable : string;
  configured_family : string;
  resolved_family : string;
  available : bool;
  unsafe_mode : bool;
}.

Record ResolvedPlanner : Type := mkResolved {
  rp_id : string;
  rp_executable : string;
  rp_provider_family : string;
  rp_args : list string;
}.

Record RouterOutcome : Type := mkOutcome {
  eligible : list ResolvedPlanner;
  human_required : bool;
}.

Definition normalize_family (family : string) : string := to_ascii_lowercase (trim_string family).

(** The [continue]s of the routing loop for one candidate. *)
Definition route_candidate (planning : PlanningConfig) (failed_family id : string)
    (c : PlannerCapability) : option ResolvedPlanner :=
  if negb (available c) || unsafe_mode c then None
  else if match planners planning !! id with Some config => negb (pc_enabled config) | None => false end
  then None
  else
    let family := normalize_family (resolved_family c) in
    if String.eqb family "unknown" && negb (allow_unknown_provider_family planning) then None
    else if String.eqb family (normalize_family failed_family) then None
    else Some (mkResolved (cap_id c) (cap_executable c) family []).

Fixpoint route (planning : PlanningConfig) (failed_family : string)
    (by_id : gmap string PlannerCapability) (priority : list string) : list ResolvedPlanner :=
  match priority with
  | [] => []
  | id :: priority =>
      match by_id !! id with
      | None => route planning failed_family by_id priority
      | Some c =>
          option_list (route_candidate planning failed_family id c)
          ++ route planning failed_family (delete id by_id) priority
      end
  end.

Definition resolve_eligible_planners (planning : PlanningConfig) (failed_family : string)
    (candidates : list PlannerCapability) : list ResolvedPlanner :=
  if negb (enabled planning) then []
  else route planning failed_family
         (btree_collect ((λ c, (cap_id c, c)) <$> candidates)) (planner_priority planning).

Definition select (planning : PlanningConfig) (failed_family : string)
    (candidates : list PlannerCapability) : RouterOutcome :=
  let eligible := resolve_eligible_planners planning failed_family candidates in
  mkOutcome eligible (match eligible with [] => true | _ => false end).

(** ** Errors *)
Inductive WatchmeError : Type :=
| UnsupportedContext (m : string)
| Configuration (m : string)
| TargetTerminated (m : string)
| RetryableIntegration (m : string)
| PolicyDenied (m : string)
| HumanRequired (m : string)
| CapabilityUnavailable (m : string).

(** ** Snapshots *)
Record SnapshotObservation : Type := mkSnapObs {
  so_event_id : string;
  so_category : string;
  so_source_kind : string;
  so_confidence : f64;
  so_summary : string;
  so_observed_at : string;
}.

Record SnapshotBuildInput : Type := mkSnapInput {
  si_snapshot_id : string;
  si_created_at : string;
  si_watcher_id : string;
  si_watcher_state : string;
  si_evidence_fingerprint : string;
  si_mux_kind : string;
  si_pane_id : string;
  si_process_pid : Z;
  si_process_start_time : string;
  si_identity_hash : string;
  si_agent_id : option string;
  si_provider_family : option string;
  si_failed_provider_family : string;
  si_terminal_text : option string;
  si_observations : list SnapshotObservation;
  si_allowed_actions : list string;
  si_max_snapshot_bytes : Z;
  si_extra_secret_names : list string;
}.

Record SnapshotRedaction : Type := mkSnapRedaction {
  performed : bool;
  snap_replacement_count : nat;
  snap_categories : list string;
  raw_evidence_included : bool;
}.

Record SnapshotTerminal : Type := mkSnapTerminal {
  st_source : string;
  st_line_count : nat;
  st_text : string;
  st_truncated : bool;
  st_ansi_removed : bool;
  st_control_sequences_removed : Z;
}.

Record SnapshotWatcher : Type := mkSnapWatcher {
  sw_watcher_id : string;
  sw_state : string;
  sw_evidence_fingerprint : string;
}.

Record SnapshotTarget : Type := mkSnapTarget {
  sg_mux_kind : string;
  sg_pane_id : string;
  sg_process_pid : Z;
  sg_process_start_time : string;
  sg_identity_hash : string;
}.

Record SnapshotAgent : Type := mkSnapAgent {
  sa_agent_id : option string;
  sa_provider_family : option string;
  sa_failed_provider_family : string;
}.

Record RedactedSnapshot : Type := mkSnapshot {
  sn_schema_version : string;
  sn_snapshot_id : string;
  sn_created_at : string;
  sn_watcher : SnapshotWatcher;
  sn_target : SnapshotTarget;
  sn_agent : SnapshotAgent;
  sn_terminal : option SnapshotTerminal;
  sn_observations : list SnapshotObservation;
  sn_attempts : list Value;
  sn_allowed_actions : list string;
  sn_redaction : SnapshotRedaction;
}.

(** [str::is_char_boundary]. *)
Definition is_char_boundary (s : string) (n : Z) : bool :=
  (n =? 0) || (n =? len s)
  || match bytes s !! Z.to_nat n with
     | Some b => negb (in_range 128 191 (byte_val b))
     | None => false
     end.

(** [String::truncate]: it panics ([None]) inside a character. *)
Definition truncate (n : Z) (s : string) : option string :=
  if len s <=? n then Some s
  else if is_char_boundary s n then Some (String.substring 0 (Z.to_nat n) s) else None.

(** The length of [serde_json::to_vec(&snapshot)]. *)
Class SnapshotEncoder : Type := encoded_len : RedactedSnapshot → result string Z.

Section Snapshot.
Context {regex : RegexCrate} {encoder : SnapshotEncoder}.

(** The terminal section: [None] when [truncate] panics.  The loop that follows the
    truncation pops characters while the end of the string is not a boundary; the end
    of a string always is. *)
Definition build_terminal (max_bytes : Z) (names : list string) (text : string)
    : option (SnapshotTerminal * RedactionReport) :=
  let '(redacted, partial) := redact_text names text in
  let budget := Z.max (saturating_mul u64_max max_bytes 3 / 4) 256 in
  match
    (if budget <? len redacted
     then match truncate budget redacted with Some b => Some (b, true) | None => None end
     else Some (redacted, false))
  with
  | None => None
  | Some (bounded, truncated) =>
      Some (mkSnapTerminal "recent" (Nat.min (length (str_lines (chars bounded))) 300) bounded
              truncated true 0, partial)
  end.

Definition redact_observation (names : list string) (o : SnapshotObservation)
    : SnapshotObservation * RedactionReport :=
  let '(summary, partial) := redact_text names (so_summary o) in
  (mkSnapObs (so_event_id o) (so_category o) (so_source_kind o) (so_confidence o) summary
     (so_observed_at o), partial).

(** [None] is a panic, which aborts the process. *)
Definition build_redacted_snapshot (input : SnapshotBuildInput)
    : option (result WatchmeError RedactedSnapshot) :=
  let names := si_extra_secret_names input in
  match
    (match si_terminal_text input with
     | None => Some (None, report_default)
     | Some text =>
         match build_terminal (si_max_snapshot_bytes input) names text with
         | None => None
         | Some (t, partial) => Some (Some t, merge partial report_default)
         end
     end)
  with
  | None => None
  | Some (terminal, report) =>
      let redacted := redact_observation names <$> take 32 (si_observations input) in
      let report := foldl (λ r p, merge p.2 r) report redacted in
      let observations := fst <$> redacted in
      match observations with
      | [] => Some (Err (Configuration "snapshot requires at least one observation"))
      | _ =>
          let snapshot :=
            mkSnapshot "1.0" (si_snapshot_id input) (si_created_at input)
              (mkSnapWatcher (si_watcher_id input) (si_watcher_state input)
                 (si_evidence_fingerprint input))
              (mkSnapTarget (si_mux_kind input) (si_pane_id input) (si_process_pid input)
                 (si_process_start_time input) (si_identity_hash input))
              (mkSnapAgent (si_agent_id input) (si_provider_family input)
                 (si_failed_provider_family input))
              terminal observations [] (si_allowed_actions input)
              (mkSnapRedaction true (replacement_count report)
                 (btree_keys (gset_to_gmap tt (categories report))) false) in
          Some
            (let? size := map_err Configuration (encoded_len snapshot) in
             let? _ := fail_if (si_max_snapshot_bytes input <? size)
                         (Configuration ("snapshot exceeds max_snapshot_bytes ("
                            +:+ pretty (si_max_snapshot_bytes input) +:+ ")")) in
             Ok snapshot)
      end
  end.
End Snapshot.

(** ** Requests *)
Record PlannerRequest : Type := mkPlannerRequest {
  rq_session_id : string;
  rq_event_id : string;
  rq_failed_provider_family : string;
  rq_snapshot_json : Value;
  rq_day_key : string;
  rq_resolved : list ResolvedPlanner;
}.

Record PlannerResult : Type := mkPlannerResult {
  pr_planner_id : string;
  pr_provider_family : string;
  pr_actions : list Action;
  pr_used_second_opinion : bool;
}.

Record BudgetState : Type := mkBudgets {
  active : Z;
  per_event : gmap string Z;
  per_session_day : gmap (string * string) Z;
}.

Definition budgets_default : BudgetState := mkBudgets 0 ∅ ∅.

Definition session_key (r : PlannerRequest) : string * string := (rq_session_id r, rq_day_key r).

Definition acquire_budget (planning : PlanningConfig) (r : PlannerRequest) (b : BudgetState)
    : BudgetState * result WatchmeError unit :=
  if max_concurrent_calls planning <=? active b
  then (b, Err (PolicyDenied "planner concurrency budget denied"))
  else if max_calls_per_event planning <=? default 0 (per_event b !! rq_event_id r)
  then (b, Err (PolicyDenied "planner per-event budget denied"))
  else if max_calls_per_session_per_day planning
            <=? default 0 (per_session_day b !! session_key r)
  then (b, Err (PolicyDenied "planner per-session daily budget denied"))
  else (mkBudgets (active b + 1) (per_event b) (per_session_day b), Ok tt).

Definition commit_budget (r : PlannerRequest) (b : BudgetState) : BudgetState :=
  mkBudgets (active b)
    (<[rq_event_id r := default 0 (per_event b !! rq_event_id r) + 1]> (per_event b))
    (<[session_key r := default 0 (per_session_day b !! session_key r) + 1]> (per_session_day b)).

Definition release_concurrency (b : BudgetState) : BudgetState :=
  mkBudgets (saturating_sub (active b) 1) (per_event b) (per_session_day b).

(** ** Trusted snapshot fields *)

(** [Value::get] and the casts the broker uses. *)
Definition value_get (key : string) (v : Value) : option Value :=
  match v with
  | VObject l => snd <$> find_first (λ p, String.eqb p.1 key) l
  | _ => None
  end.
Definition as_u64 (v : Value) : option Z :=
  match v with VNumber (PosInt z) => Some z | _ => None end.
Definition as_array (v : Value) : option (list Value) :=
  match v with VArray l => Some l | _ => None end.

Definition required_str (object : Value) (key : string) : result WatchmeError string :=
  ok_or (value_get key object ≫= as_str) (Configuration ("snapshot missing " +:+ key)).

Definition validation_context_from_snapshot (now : string) (snapshot : Value)
    (failed_family planner_family : string) : result WatchmeError PlanValidationContext :=
  let? watcher := ok_or (value_get "watcher" snapshot) (Configuration "snapshot missing watcher") in
  let? target := ok_or (value_get "target" snapshot) (Configuration "snapshot missing target") in
  let? fingerprint := required_str watcher "evidence_fingerprint" in
  let? watcher_id := required_str watcher "watcher_id" in
  let? pid := ok_or (value_get "process_pid" target ≫= as_u64)
                (Configuration "snapshot missing process_pid") in
  let? start := required_str target "process_start_time" in
  let? mux_kind := required_str target "mux_kind" in
  let? pane_id := required_str target "pane_id" in
  let? allowed := ok_or (value_get "allowed_actions" snapshot ≫= as_array)
                    (Configuration "snapshot missing allowed_actions") in
  Ok (mkPlanContext failed_family planner_family fingerprint watcher_id
        (pid mod (u32_max + 1)) start mux_kind pane_id now (list_to_set (omap as_str allowed))).

(** ** Invoking planners *)

(** How [run_planner_process] failed. *)
Inductive ProcessError : Type :=
| ProcTimeout (m : string)
| ProcOutputLimit (m : string)
| ProcOther (m : string).

Definition process_error (e : ProcessError) : WatchmeError :=
  match e with
  | ProcTimeout m => RetryableIntegration m
  | ProcOutputLimit m => PolicyDenied m
  | ProcOther m => RetryableIntegration m
  end.

(** Running one planner on the snapshot: its standard output as text. *)
Class PlannerProcess : Type := run_planner : ResolvedPlanner → Value → result ProcessError string.

Section Broker.
Context {rfc : Rfc3339} {tokens : Tokens} {decoder : PlanDecoder} {regex : RegexCrate}.
Context {process : PlannerProcess} (now : string).
Context (planning : PlanningConfig) (extra_secret_names : list string).

(** [None] is the parser's missing fuel, which never occurs. *)
Definition invoke_one (planner : ResolvedPlanner) (snapshot : Value) (failed_family : string)
    : option (result WatchmeError (list Action)) :=
  match map_err process_error (run_planner planner snapshot) with
  | Err e => Some (Err e)
  | Ok text =>
      match decode_recovery_plan (bytes (trim_string text)) with
      | None => None
      | Some decoded =>
          Some
            (let? plan := map_err (λ e, PolicyDenied ("planner schema rejected: " +:+ e)) decoded in
             let? context := validation_context_from_snapshot now snapshot failed_family
                               (rp_provider_family planner) in
             let? _ := fail_if (negb (String.eqb (pd_planner_provider_family (diagnosis plan))
                                        (rp_provider_family planner)))
                         (PolicyDenied "planner family mismatch in plan") in
             map_err PolicyDenied (validate_recovery_plan plan context))
      end
  end.

Fixpoint try_planners (index : nat) (planners : list ResolvedPlanner) (snapshot : Value)
    (failed_family : string) (last_error : WatchmeError) : option (result WatchmeError PlannerResult) :=
  match planners with
  | [] => Some (Err last_error)
  | planner :: planners =>
      match invoke_one planner snapshot failed_family with
      | None => None
      | Some (Ok actions) =>
          Some (Ok (mkPlannerResult (rp_id planner) (rp_provider_family planner) actions
                      (0 <? index)%nat))
      | Some (Err e) => try_planners (S index) planners snapshot failed_family e
      end
  end.

Definition max_attempts (request : PlannerRequest) : nat :=
  Nat.min (if allow_independent_second_opinion planning then 2 else 1) (length (rq_resolved request)).

Definition invoke_with_optional_fallback (request : PlannerRequest)
    : option (result WatchmeError PlannerResult) :=
  let redacted := (redact_json extra_secret_names (rq_snapshot_json request)).1 in
  try_planners 0 (take (max_attempts request) (rq_resolved request)) redacted
    (rq_failed_provider_family request) (HumanRequired "no planner succeeded").

(** [request_plan] when no other call interleaves. *)
Definition request_plan (request : PlannerRequest) (b : BudgetState)
    : BudgetState * option (result WatchmeError PlannerResult) :=
  if negb (enabled planning)
  then (b, Some (Err (HumanRequired "planning disabled; human required")))
  else match rq_resolved request with
  | [] => (b, Some (Err (HumanRequired "no independent planner available")))
  | _ =>
      let '(b, acquired) := acquire_budget planning request b in
      match acquired with
      | Err e => (b, Some (Err e))
      | Ok _ =>
          let result := invoke_with_optional_fallback request in
          (commit_budget request (release_concurrency b), result)
      end
  end.
End Broker.

(** ** Routing, proved *)

(** What makes a planner eligible. *)
Definition routed (planning : PlanningConfig) (failed_family : string)
    (c : PlannerCapability) (p : ResolvedPlanner) : Prop :=
  rp_id p = cap_id c ∧ available c = true ∧ unsafe_mode c = false
  ∧ (∀ config, planners planning !! cap_id c = Some config → pc_enabled config = true)
  ∧ rp_provider_family p = normalize_family (resolved_family c)
  ∧ rp_provider_family p ≠ normalize_family failed_family
  ∧ (rp_provider_family p = "unknown" → allow_unknown_provider_family planning = true).

Lemma route_candidate_Some planning failed c p :
  route_candidate planning failed (cap_id c) c = Some p → routed planning failed c p.
Proof.
  unfold route_candidate, routed. set (family := normalize_family (resolved_family c)).
  destruct (available c), (unsafe_mode c); try done. cbn [negb orb].
  destruct (match planners planning !! cap_id c with Some config => negb (pc_enabled config)
            | None => false end) eqn:Hen; [done|].
  destruct (String.eqb family "unknown" && _) eqn:Hu; [done|].
  destruct (String.eqb_spec family (normalize_family failed)) as [|Hf]; [done|].
  intros [= <-]. cbn. split_and!; try done.
  - intros config He. rewrite He in Hen. by apply negb_false_iff in Hen.
  - intros ->. by apply negb_false_iff in Hu.
Qed.

Lemma route_spec planning failed by_id priority :
  (∀ id c, by_id !! id = Some c → cap_id c = id) →
  let l := route planning failed by_id priority in
  (∀ p, p ∈ l → ∃ c, by_id !! rp_id p = Some c ∧ routed planning failed c p)
  ∧ (rp_id <$> l) `sublist_of` priority ∧ NoDup (rp_id <$> l).
Proof.
  revert by_id. induction priority as [|id priority IH]; intros by_id Hid l; subst l; cbn [route].
  { split_and!; [by intros p ?%elem_of_nil|done|constructor]. }
  destruct (by_id !! id) as [c|] eqn:Ec.
  2: { destruct (IH by_id Hid) as (H1 & H2 & H3). split_and!; [done|by apply sublist_cons|done]. }
  assert (∀ id' c', delete id by_id !! id' = Some c' → cap_id c' = id') as Hid'.
  { intros id' c' [_ ?]%lookup_delete_Some. by apply Hid. }
  destruct (IH (delete id by_id) Hid') as (H1 & H2 & H3).
  assert (∀ p, p ∈ route planning failed (delete id by_id) priority → rp_id p ≠ id) as Hne.
  { intros p (c' & [? _]%lookup_delete_Some & _)%H1. done. }
  pose proof (Hid _ _ Ec) as <-.
  destruct (route_candidate planning failed (cap_id c) c) as [q|] eqn:Eq; cbn [option_list app].
  - pose proof (route_candidate_Some _ _ _ _ Eq) as Hq. pose proof Hq as [Hqid _]. split_and!.
    + intros p [->|(c' & [_ ?]%lookup_delete_Some & ?)%H1]%elem_of_cons; [|by exists c'].
      exists c. by rewrite Hqid.
    + cbn. rewrite Hqid. by apply sublist_skip.
    + cbn. constructor; [|done]. rewrite Hqid. intros (p & Hp & Hin)%list_elem_of_fmap.
      by apply (Hne p).
  - split_and!; [|by apply sublist_cons|done].
    intros p (c' & [_ ?]%lookup_delete_Some & ?)%H1. by exists c'.
Qed.

Lemma by_id_candidate candidates id c :
  btree_collect ((λ c, (cap_id c, c)) <$> candidates) !! id = Some c →
  cap_id c = id ∧ c ∈ candidates.
Proof.
  intros Hc%btree_collect_Some. apply list_elem_of_fmap in Hc as (c' & [= -> ->] & Hin). done.
Qed.

(** ** Accepted plans *)
Lemma validate_all_Ok {rfc : Rfc3339} l : validate_all l = Ok tt → ∀ a, a ∈ l → validate a = Ok tt.
Proof.
  induction l as [|x l IH]; cbn; [by intros _ a ?%elem_of_nil|].
  rewrite rbind_Ok. intros ([] & Hx & Hl) a [->|Ha]%elem_of_cons; auto.
Qed.

Lemma validate_plan_actions_Ok {rfc : Rfc3339} c l l' :
  validate_plan_actions c l = Ok l' →
  l' = l ∧ ∀ a, a ∈ l → action_type_name (kind a) ∈ vc_allowed_actions c
    ∧ types_prohibited (kind a) = false ∧ authorized a (plan_policy_context c).
Proof.
  revert l'. induction l as [|x l IH]; intros l'; cbn [validate_plan_actions].
  { intros [= <-]. split; [done|by intros a ?%elem_of_nil]. }
  rewrite rbind_Ok. intros ([] & Hx & Hl). rewrite rbind_Ok in Hl. destruct Hl as (r & Hr & [= <-]).
  destruct (IH _ Hr) as [-> Hall]. split; [done|]. intros a [->|Ha]%elem_of_cons; [|auto].
  unfold validate_plan_action in Hx. apply rbind_Ok in Hx as (? & Hx1 & Hx).
  apply rbind_Ok in Hx as (? & Hx2 & Hx3). rewrite fail_if_Ok in Hx1, Hx2.
  rewrite negb_false_iff, bool_decide_eq_true in Hx1.
  split_and!; [done|done|by apply authorize_sound].
Qed.

(** What a returned action has passed. *)
Record plan_action_safe {rfc : Rfc3339} (c : PlanValidationContext) (a : Action) : Prop := {
  pas_valid : validate a = Ok tt;
  pas_allowlisted : action_type_name (kind a) ∈ vc_allowed_actions c;
  pas_authorized : authorized a (plan_policy_context c);
  pas_text : ∀ t, kind a = SendText t ∨ kind a = SubmitText t → t ∈ allowed_texts;
}.

(** The plan is about the trusted target and is neither expired nor back-dated. *)
Record plan_matches {rfc : Rfc3339} (plan : RecoveryPlan) (c : PlanValidationContext) : Prop := {
  pm_target : target_mismatch plan c = false;
  pm_families : pd_planner_provider_family (diagnosis plan) = vc_planner_provider_family c
    ∧ pd_failed_provider_family (diagnosis plan) = vc_failed_provider_family c
    ∧ vc_planner_provider_family c ≠ vc_failed_provider_family c;
  pm_time : ∃ generated until now, parse_from_rfc3339 (generated_at plan) = Some generated
    ∧ parse_from_rfc3339 (valid_until plan) = Some until
    ∧ parse_from_rfc3339 (vc_now_rfc3339 c) = Some now ∧ now ≤ until ∧ generated ≤ until;
}.

Lemma validate_recovery_plan_Ok {rfc : Rfc3339} plan c l :
  validate_plan_bounds plan = Ok tt → validate_recovery_plan plan c = Ok l →
  l = plan_actions plan ∧ (length l ≤ 12)%nat ∧ plan_matches plan c ∧ Forall (plan_action_safe c) l.
Proof.
  intros Hb Hv. unfold validate_plan_bounds in Hb.
  apply rbind_Ok in Hb as (? & _ & Hb). apply rbind_Ok in Hb as (? & Hlen & Hb).
  do 3 apply rbind_Ok in Hb as (? & _ & Hb). rewrite fail_if_Ok, Nat.ltb_ge in Hlen.
  unfold validate_recovery_plan in Hv.
  apply rbind_Ok in Hv as (? & H1 & Hv). apply rbind_Ok in Hv as (? & H2 & Hv).
  apply rbind_Ok in Hv as (? & H3 & Hv). apply rbind_Ok in Hv as (? & H4 & Hv).
  apply rbind_Ok in Hv as (generated & Hg & Hv). apply rbind_Ok in Hv as (until & Hu & Hv).
  apply rbind_Ok in Hv as (now & Hn & Hv). apply rbind_Ok in Hv as (? & H5 & Hv).
  rewrite fail_if_Ok in H1, H2, H3, H4, H5. rewrite ok_or_Ok in Hg, Hu, Hn.
  rewrite negb_false_iff, String.eqb_eq in H1, H2. rewrite String.eqb_neq in H3.
  rewrite orb_false_iff, !Z.ltb_ge in H5.
  apply validate_plan_actions_Ok in Hv as [-> Hall].
  split_and!; [done|lia| |].
  - constructor; [done|split_and!; congruence|]. exists generated, until, now. naive_solver.
  - apply Forall_forall. intros a Ha. destruct (Hall a Ha) as (Hal & _ & Hau).
    constructor; [by eapply validate_all_Ok|done|done|]. intros t Ht. by eapply auth_text.
Qed.

Section Accepted.
Context {rfc : Rfc3339} {tokens : Tokens} {decoder : PlanDecoder} {regex : RegexCrate}.
Context {process : PlannerProcess} (now : string).

Lemma decode_recovery_plan_Ok input plan :
  decode_recovery_plan input = Some (Ok plan) → validate_plan_bounds plan = Ok tt.
Proof.
  unfold decode_recovery_plan. destruct (parse_rejecting_duplicates input) as [r|]; [|done].
  intros H. apply (inj Some) in H. apply rbind_Ok in H as (v & _ & H).
  apply rbind_Ok in H as (p & _ & H). apply rbind_Ok in H as ([] & Hb & [= ->]). done.
Qed.

(** The guarantee for one planner's actions. *)
Definition accepted (planner : ResolvedPlanner) (snapshot : Value) (failed_family : string)
    (actions : list Action) : Prop :=
  ∃ context plan,
    validation_context_from_snapshot now snapshot failed_family (rp_provider_family planner)
      = Ok context
    ∧ plan_matches plan context ∧ actions = plan_actions plan ∧ (length actions ≤ 12)%nat
    ∧ Forall (plan_action_safe context) actions.

Lemma invoke_one_Ok planner snapshot failed actions :
  invoke_one now planner snapshot failed = Some (Ok actions) →
  accepted planner snapshot failed actions.
Proof.
  unfold invoke_one. destruct (map_err _ _) as [text|]; [|done].
  destruct (decode_recovery_plan _) as [decoded|] eqn:Ed; [|done]. intros H. apply (inj Some) in H.
  apply rbind_Ok in H as (plan & Hp & H). apply map_err_Ok in Hp as ->.
  apply decode_recovery_plan_Ok in Ed. apply rbind_Ok in H as (context & Hc & H).
  apply rbind_Ok in H as (? & _ & H). apply map_err_Ok in H.
  apply validate_recovery_plan_Ok in H as (-> & Hl & Hm & Ha); [|done].
  by exists context, plan.
Qed.

Lemma try_planners_Ok i planners snapshot failed e r :
  try_planners now i planners snapshot failed e = Some (Ok r) →
  ∃ k planner, planners !! k = Some planner ∧ pr_planner_id r = rp_id planner
    ∧ pr_provider_family r = rp_provider_family planner
    ∧ pr_used_second_opinion r = (0 <? i + k)%nat
    ∧ accepted planner snapshot failed (pr_actions r).
Proof.
  revert i e. induction planners as [|p planners IH]; intros i e; [done|]. cbn [try_planners].
  destruct (invoke_one now p snapshot failed) as [[actions|e']|] eqn:Ei; [| |done].
  - intros [= <-]. exists 0%nat, p. cbn [pr_planner_id pr_provider_family pr_actions
      pr_used_second_opinion]. rewrite Nat.add_0_r. split_and!; try done. by apply invoke_one_Ok.
  - intros (k & planner & H)%IH. exists (S k), planner. by rewrite Nat.add_succ_r.
Qed.

Lemma request_plan_Ok planning names request b b' r :
  request_plan now planning names request b = (b', Some (Ok r)) →
  ∃ k planner, rq_resolved request !! k = Some planner
    ∧ (k < if allow_independent_second_opinion planning then 2 else 1)%nat
    ∧ pr_planner_id r = rp_id planner ∧ pr_provider_family r = rp_provider_family planner
    ∧ pr_used_second_opinion r = (0 <? k)%nat
    ∧ accepted planner (redact_json names (rq_snapshot_json request)).1
        (rq_failed_provider_family request) (pr_actions r).
Proof.
  unfold request_plan. destruct (enabled planning); [|done]. cbn [negb].
  destruct (rq_resolved request) as [|p0 ps] eqn:Er; [done|].
  destruct (acquire_budget planning request b) as [b1 [[]|e]]; [|done]. intros [= <- Hi].
  apply try_planners_Ok in Hi as (k & planner & Hk & H1 & H2 & H3 & H4).
  apply lookup_take_Some in Hk as [Hk Hlt]. unfold max_attempts in Hlt.
  exists k, planner. rewrite Er in Hk. split_and!; try done. lia.
Qed.
End Accepted.

(** ** Interleaved requests

    [request_plan] takes the budget lock three times: to acquire, to release and to
    commit; other requests may run in between.  [running] are the requests whose
    planner is being invoked, [released] those between release and commit. *)
Record Broker : Type := mkBroker {
  budgets : BudgetState;
  running : list PlannerRequest;
  released : list PlannerRequest;
}.

Definition broker_new : Broker := mkBroker budgets_default [] [].

Inductive BrokerLabel : Type :=
| Acquired (r : PlannerRequest)
| Released (r : PlannerRequest)
| Committed (r : PlannerRequest).

Inductive bstep (planning : PlanningConfig) : Broker → BrokerLabel → Broker → Prop :=
| bstep_acquire b b' run rel r :
    acquire_budget planning r b = (b', Ok tt) →
    bstep planning (mkBroker b run rel) (Acquired r) (mkBroker b' (r :: run) rel)
| bstep_release b run run' rel r :
    run ≡ₚ r :: run' →
    bstep planning (mkBroker b run rel) (Released r)
      (mkBroker (release_concurrency b) run' (r :: rel))
| bstep_commit b run rel rel' r :
    rel ≡ₚ r :: rel' →
    bstep planning (mkBroker b run rel) (Committed r) (mkBroker (commit_budget r b) run rel').

Inductive bruns (planning : PlanningConfig) : Broker → list BrokerLabel → Broker → Prop :=
| bruns_nil s : bruns planning s [] s
| bruns_cons s l s' ls s'' :
    bstep planning s l s' → bruns planning s' ls s'' → bruns planning s (l :: ls) s''.

Lemma bruns_app planning s ls ls' s'' :
  bruns planning s (ls ++ ls') s'' ↔ ∃ s', bruns planning s ls s' ∧ bruns planning s' ls' s''.
Proof.
  revert s. induction ls as [|l ls IH]; intros s; cbn [app].
  - split; [intros H; exists s; by split; [constructor|]|]. intros (s' & H & H'). by inversion H; subst.
  - split.
    + inversion 1 as [|? ? s1 ? ? Hs Hr]; subst. apply IH in Hr as (s' & H1 & H2).
      exists s'. split; [by econstructor|done].
    + intros (s' & H1 & H2). inversion H1 as [|? ? s1 ? ? Hs Hr]; subst.
      econstructor; [done|]. apply IH. by exists s'.
Qed.

Definition is_ev (e : string) (r : PlannerRequest) : bool := String.eqb (rq_event_id r) e.
Definition is_sess (k : string * string) (r : PlannerRequest) : bool := bool_decide (session_key r = k).
Definition count (p : PlannerRequest → bool) (l : list PlannerRequest) : Z :=
  Z.of_nat (length (List.filter p l)).

(** The planner calls of a run. *)
Definition calls (ls : list BrokerLabel) : list PlannerRequest :=
  omap (λ l, match l with Acquired r => Some r | _ => None end) ls.

Lemma count_cons p r l : count p (r :: l) = (if p r then 1 else 0) + count p l.
Proof. unfold count. cbn [List.filter]. destruct (p r); cbn [length]; lia. Qed.

Lemma acquire_Ok planning r b b' :
  acquire_budget planning r b = (b', Ok tt) →
  active b < max_concurrent_calls planning
  ∧ default 0 (per_event b !! rq_event_id r) < max_calls_per_event planning
  ∧ default 0 (per_session_day b !! session_key r) < max_calls_per_session_per_day planning
  ∧ b' = mkBudgets (active b + 1) (per_event b) (per_session_day b).
Proof.
  unfold acquire_budget. repeat case_match; try done. intros [= <-].
  rewrite !Z.leb_gt in *. done.
Qed.

(** In every interleaving [active] is the number of running calls, within the limit. *)
Lemma bruns_active planning ls s s' :
  bruns planning s ls s' →
  active (budgets s) = Z.of_nat (length (running s)) →
  active (budgets s) ≤ Z.max 0 (max_concurrent_calls planning) →
  active (budgets s') = Z.of_nat (length (running s'))
  ∧ active (budgets s') ≤ Z.max 0 (max_concurrent_calls planning).
Proof.
  induction 1 as [|s l s1 ls s2 Hs _ IH]; [done|]. intros Ha Hm. apply IH; clear IH.
  - inversion Hs as [? ? ? ? r Hacq|? ? ? ? r Hp|]; subst; cbn in *.
    + apply acquire_Ok in Hacq as (_ & _ & _ & ->). cbn. lia.
    + rewrite Hp in Ha. cbn in Ha. unfold saturating_sub. lia.
    + done.
  - inversion Hs as [? ? ? ? r Hacq|? ? ? ? r Hp|]; subst; cbn in *.
    + apply acquire_Ok in Hacq as (? & _ & _ & ->). cbn. lia.
    + unfold saturating_sub. lia.
    + done.
Qed.

(** One request served without interference. *)
Definition serial (r : PlannerRequest) : list BrokerLabel := [Acquired r; Released r; Committed r].

Lemma serial_step planning b r s :
  bruns planning (mkBroker b [] []) (serial r) s →
  ∃ b', s = mkBroker b' [] [] ∧ active b' = saturating_sub (active b + 1) 1
    ∧ default 0 (per_event b !! rq_event_id r) < max_calls_per_event planning
    ∧ default 0 (per_session_day b !! session_key r) < max_calls_per_session_per_day planning
    ∧ per_event b' = <[rq_event_id r := default 0 (per_event b !! rq_event_id r) + 1]> (per_event b)
    ∧ per_session_day b'
      = <[session_key r := default 0 (per_session_day b !! session_key r) + 1]> (per_session_day b).
Proof.
  intros H. inversion H as [|? ? s1 ? ? H1 Hr1]; subst.
  inversion Hr1 as [|? ? s2 ? ? H2 Hr2]; subst. inversion Hr2 as [|? ? s3 ? ? H3 Hr3]; subst.
  inversion Hr3; subst. inversion H1 as [? b1 ? ? ? Hacq| |]; subst.
  apply acquire_Ok in Hacq as (_ & He & Hd & ->).
  inversion H2 as [|? ? run' ? ? Hp|]; subst. apply Permutation_singleton_l in Hp.
  injection Hp as <-. inversion H3 as [| |? ? ? rel' ? Hp]; subst.
  apply Permutation_singleton_l in Hp. injection Hp as <-.
  eexists. split; [done|]. done.
Qed.

Lemma serial_counts planning rs b s :
  bruns planning (mkBroker b [] []) (concat (serial <$> rs)) s →
  (∀ e, default 0 (per_event b !! e) ≤ Z.max 0 (max_calls_per_event planning) →
     default 0 (per_event b !! e) + count (is_ev e) rs ≤ Z.max 0 (max_calls_per_event planning))
  ∧ (∀ k, default 0 (per_session_day b !! k) ≤ Z.max 0 (max_calls_per_session_per_day planning) →
     default 0 (per_session_day b !! k) + count (is_sess k) rs
       ≤ Z.max 0 (max_calls_per_session_per_day planning)).
Proof.
  revert b. induction rs as [|r rs IH]; intros b.
  - intros _. unfold count. cbn. split; intros; lia.
  - rewrite fmap_cons. cbn [concat]. rewrite bruns_app. intros (s1 & H1 & H2).
    apply serial_step in H1 as (b' & -> & _ & He & Hd & Hpe & Hps).
    apply IH in H2 as [IHe IHd]. split.
    + intros e Hle. specialize (IHe e). rewrite Hpe in IHe. rewrite count_cons. unfold is_ev at 1.
      destruct (String.eqb_spec (rq_event_id r) e) as [<-|Hne].
      * rewrite lookup_insert_eq in IHe. cbn in IHe. lia.
      * rewrite lookup_insert_ne in IHe by done. lia.
    + intros k Hle. specialize (IHd k). rewrite Hps in IHd. rewrite count_cons. unfold is_sess at 1.
      case_bool_decide as Hk.
      * rewrite Hk, lookup_insert_eq in IHd. cbn in IHd. rewrite Hk in Hd. lia.
      * rewrite lookup_insert_ne in IHd by done. lia.
Qed.

Lemma calls_serial rs : calls (concat (serial <$> rs)) = rs.
Proof. unfold calls. induction rs as [|r rs IH]; [done|]. cbn. by f_equal. Qed.

(** A request that is acquired and released, with the commit still to come. *)
Definition uncommitted (r : PlannerRequest) : list BrokerLabel := [Acquired r; Released r].

Lemma acquire_fresh planning r :
  1 ≤ max_concurrent_calls planning → 1 ≤ max_calls_per_event planning →
  1 ≤ max_calls_per_session_per_day planning →
  acquire_budget planning r budgets_default = (mkBudgets 1 ∅ ∅, Ok tt).
Proof.
  intros H1 H2 H3. unfold acquire_budget. cbn [budgets_default active per_event per_session_day].
  rewrite lookup_empty, lookup_empty. cbn [default].
  by rewrite !(proj2 (Z.leb_gt _ _)) by lia.
Qed.

Lemma uncommitted_runs planning r n k :
  1 ≤ max_concurrent_calls planning → 1 ≤ max_calls_per_event planning →
  1 ≤ max_calls_per_session_per_day planning →
  bruns planning (mkBroker budgets_default [] (replicate k r)) (concat (replicate n (uncommitted r)))
    (mkBroker budgets_default [] (replicate (n + k) r)).
Proof.
  intros H1 H2 H3. revert k. induction n as [|n IH]; intros k; cbn [replicate concat]; [constructor|].
  rewrite bruns_app. exists (mkBroker budgets_default [] (r :: replicate k r)). split.
  - econstructor; [by apply bstep_acquire, acquire_fresh|].
    econstructor; [by apply bstep_release|]. constructor.
  - replace (S n + k)%nat with (n + S k)%nat by lia. apply (IH (S k)).
Qed.

Lemma calls_uncommitted n r : calls (concat (replicate n (uncommitted r))) = replicate n r.
Proof. unfold calls. induction n as [|n IH]; [done|]. cbn. by f_equal. Qed.

(** ** Properties *)

(** The router selects only independent planners: each one is an available
    candidate in safe mode that the configuration does not disable, listed in the
    priority order and at most once, its provider family is its probed family and
    differs from the failed one, and an unknown family appears only when allowed. *)
Theorem router_selects_independent_planners planning failed candidates :
  let l := resolve_eligible_planners planning failed candidates in
  (∀ p, p ∈ l → ∃ c, c ∈ candidates ∧ routed planning failed c p)
  ∧ (rp_id <$> l) `sublist_of` planner_priority planning ∧ NoDup (rp_id <$> l)
  ∧ (human_required (select planning failed candidates) = true ↔ l = []).
Proof.
  intros l. unfold l, resolve_eligible_planners, select. cbn [human_required].
  fold (resolve_eligible_planners planning failed candidates).
  destruct (enabled planning) eqn:Een; unfold resolve_eligible_planners; rewrite Een; cbn [negb].
  - destruct (route_spec planning failed
      (btree_collect ((λ c, (cap_id c, c)) <$> candidates)) (planner_priority planning))
      as (H1 & H2 & H3).
    { intros id c Hc%by_id_candidate. apply Hc. }
    split_and!; [|done|done|by destruct (route _ _ _ _)].
    intros p (c & [_ Hc]%by_id_candidate & Hr)%H1. by exists c.
  - split_and!; [by intros p ?%elem_of_nil|apply sublist_nil_l|constructor|done].
Qed.

(** Actions returned by the broker are safe.  When a request yields a result, it
    comes from the first resolved planner, or the second if second opinions are on, and
    every returned action is schema-valid, of a type the trusted redacted snapshot
    allows, authorised by the compiled policy, and types nothing but the four allowed
    literals; the plan names the snapshot's target and evidence, has not expired, holds
    at most twelve actions and comes from a provider family other than the failed one. *)
Theorem accepted_plan_safe {rfc : Rfc3339} {tokens : Tokens} {decoder : PlanDecoder}
    {regex : RegexCrate} {process : PlannerProcess} now planning names request b b' r :
  request_plan now planning names request b = (b', Some (Ok r)) →
  ∃ k planner, rq_resolved request !! k = Some planner
    ∧ (k < if allow_independent_second_opinion planning then 2 else 1)%nat
    ∧ pr_planner_id r = rp_id planner ∧ pr_provider_family r = rp_provider_family planner
    ∧ pr_used_second_opinion r = (0 <? k)%nat
    ∧ rp_provider_family planner ≠ rq_failed_provider_family request
    ∧ accepted now planner (redact_json names (rq_snapshot_json request)).1
        (rq_failed_provider_family request) (pr_actions r).
Proof.
  intros (k & planner & Hk & Hlt & H1 & H2 & H3 & Ha)%request_plan_Ok.
  exists k, planner. split_and!; try done.
  destruct Ha as (context & plan & Hc & Hm & _). destruct (pm_families _ _ Hm) as (_ & _ & Hf).
  unfold validation_context_from_snapshot in Hc. inv_watch. cbn in Hf. done.
Qed.

(** The planner budgets.  In every interleaving of requests the number of planners
    running at once is [active] and stays within [max_concurrent_calls]; and when
    requests are served one after the other, an event receives at most
    [max_calls_per_event] planner calls and a session at most
    [max_calls_per_session_per_day] per day. *)
Theorem planner_budgets_hold planning :
  (∀ ls s, bruns planning broker_new ls s →
     active (budgets s) = Z.of_nat (length (running s))
     ∧ Z.of_nat (length (running s)) ≤ Z.max 0 (max_concurrent_calls planning))
  ∧ (∀ rs s e k, bruns planning broker_new (concat (serial <$> rs)) s →
     calls (concat (serial <$> rs)) = rs
     ∧ count (is_ev e) rs ≤ Z.max 0 (max_calls_per_event planning)
     ∧ count (is_sess k) rs ≤ Z.max 0 (max_calls_per_session_per_day planning)).
Proof.
  split.
  - intros ls s Hr. apply bruns_active in Hr as [Ha Hm]; cbn in *; [|lia..]. lia.
  - intros rs s e k Hr. split; [apply calls_serial|].
    apply serial_counts in Hr as [He Hk]. specialize (He e). specialize (Hk k).
    cbn [budgets_default per_event per_session_day] in He, Hk.
    rewrite lookup_empty in He. rewrite lookup_empty in Hk. cbn [default] in He, Hk. lia.
Qed.

(** Interleaved requests overrun the call budgets.  The budget is checked when a
    request starts but charged only after it has released its slot, so for every number
    [n] there is an interleaving with [n] planner calls for one event and one session of
    one day, never two at once, whatever positive limits are configured. *)
Theorem interleaved_calls_exceed_budget planning r n :
  1 ≤ max_concurrent_calls planning → 1 ≤ max_calls_per_event planning →
  1 ≤ max_calls_per_session_per_day planning →
  ∃ ls s, bruns planning broker_new ls s
    ∧ count (is_ev (rq_event_id r)) (calls ls) = Z.of_nat n
    ∧ count (is_sess (session_key r)) (calls ls) = Z.of_nat n.
Proof.
  intros H1 H2 H3. exists (concat (replicate n (uncommitted r))), (mkBroker budgets_default [] (replicate (n + 0) r)).
  split; [by apply (uncommitted_runs planning r n 0)|]. rewrite calls_uncommitted.
  assert (∀ p, p r = true → count p (replicate n r) = Z.of_nat n) as Hc.
  { intros p Hp. induction n as [|n IH]; [done|]. cbn [replicate]. rewrite count_cons, Hp, IH. lia. }
  split; apply Hc; [apply String.eqb_refl|by apply bool_decide_eq_true].
Qed.

(** The byte budget of the terminal section. *)
Definition terminal_budget (input : SnapshotBuildInput) : Z :=
  Z.max (saturating_mul u64_max (si_max_snapshot_bytes input) 3 / 4) 256.

(** Building a snapshot aborts the process exactly when the redacted terminal text
    is longer than its budget and the budget falls inside a character: [truncate]
    panics there, before the loop that looks for a boundary. *)
Theorem snapshot_aborts_inside_character {regex : RegexCrate} {encoder : SnapshotEncoder} input :
  build_redacted_snapshot input = None ↔
  ∃ text, si_terminal_text input = Some text
    ∧ let redacted := (redact_text (si_extra_secret_names input) text).1 in
      terminal_budget input < len redacted
      ∧ is_char_boundary redacted (terminal_budget input) = false.
Proof.
  unfold build_redacted_snapshot, build_terminal, truncate. fold (terminal_budget input).
  destruct (si_terminal_text input) as [text|]; [|repeat case_match; naive_solver].
  destruct (redact_text _ text) as [redacted partial] eqn:Er.
  destruct (Z.ltb_spec (terminal_budget input) (len redacted)) as [Hlt|Hge].
  - rewrite (proj2 (Z.leb_gt _ _)) by lia. cbn [fst].
    destruct (is_char_boundary redacted (terminal_budget input)) eqn:Hb.
    + split; [repeat case_match; done|]. intros (t & [= <-] & _ & Hf). rewrite Er in Hf. cbn [fst] in Hf. congruence.
    + split; [|done]. intros _. exists text. by rewrite Er.
  - split; [repeat case_match; done|]. intros (t & [= <-] & Hf & _). rewrite Er in Hf. cbn [fst] in Hf. lia.
Qed.

(** ** Witnesses *)
Definition sample_planning : PlanningConfig :=
  mkPlanning true 1 false 4 1 90 100000 50000 false false false ["codex"; "claude"] ∅.

Definition sample_planner : ResolvedPlanner := mkResolved "codex" "/usr/bin/codex" "openai" [].

Definition sample_fingerprint : string := "0123456789abcdef".

Definition sample_snapshot : Value :=
  VObject
    [("allowed_actions", VArray [VString "NOOP"]);
     ("target", VObject [("mux_kind", VString "tmux"); ("pane_id", VString "%1");
                         ("process_pid", VNumber (PosInt 7));
                         ("process_start_time", VString "100")]);
     ("watcher", VObject [("evidence_fingerprint", VString sample_fingerprint);
                          ("watcher_id", VString "w")])].

Definition sample_request : PlannerRequest :=
  mkPlannerRequest "s" "e" "anthropic" sample_snapshot "2026-01-01" [sample_planner].

Definition sample_plan : RecoveryPlan :=
  mkPlan "1.0" "p" "t0" "t2"
    (mkPlanTarget "w" 7 "100" "tmux" None "%1" None None sample_fingerprint)
    (mkDiagnosis "limit" f64_one "stuck" "anthropic" "openai" false [])
    [action_new "a" Noop "wait" sample_fingerprint 5].

#[local] Instance sample_rfc : Rfc3339 :=
  λ s, if String.eqb s "t0" then Some 0 else if String.eqb s "t1" then Some 1
       else if String.eqb s "t2" then Some 2 else None.
#[local] Instance sample_tokens : Tokens :=
  {| string_token := λ _, Ok ""; number_token := λ _, Ok VNull |}.
#[local] Instance sample_decoder : PlanDecoder := λ _, Ok sample_plan.
#[local] Instance sample_regex : RegexCrate :=
  {| re_count := λ _ _, 0%nat; re_replace_all := λ _ t _, t;
     re_segments := λ _ t, [(false, t)]; re_escape := λ t, t |}.
#[local] Instance sample_process : PlannerProcess := λ _ _, Ok " null ".

Lemma accepted_plan_safe_witness :
  let run := request_plan "t1" sample_planning [] sample_request budgets_default in
  let r := mkPlannerResult "codex" "openai" [action_new "a" Noop "wait" sample_fingerprint 5] false in
  run.2 = Some (Ok r)
  ∧ ∃ k planner, rq_resolved sample_request !! k = Some planner
    ∧ pr_planner_id r = rp_id planner
    ∧ accepted "t1" planner (redact_json [] sample_snapshot).1 "anthropic" (pr_actions r).
Proof.
  intros run r. split; [vm_compute; reflexivity|].
  destruct (accepted_plan_safe "t1" sample_planning [] sample_request budgets_default run.1 r)
    as (k & planner & Hk & _ & Hid & _ & _ & _ & Ha); [vm_compute; reflexivity|].
  exists k, planner. split; [exact Hk|]. split; [exact Hid|exact Ha].
Defined.

Lemma interleaved_calls_exceed_budget_witness :
  ∃ ls s, bruns sample_planning broker_new ls s
    ∧ count (is_ev "e") (calls ls) = 3 ∧ max_calls_per_event sample_planning = 1.
Proof.
  destruct (interleaved_calls_exceed_budget sample_planning sample_request 3)
    as (ls & s & Hr & He & _); [discriminate..|].
  exists ls, s. split; [exact Hr|]. split; [exact He|reflexivity].
Defined.

(** 255 letters and a two-byte character at a budget of 256 bytes. *)
Definition long_text : string :=
  String.string_of_list_ascii (replicate 255 "a"%char) +:+ string_of_bytes [195; 169].

Example snapshot_abort_occurs :
  let encoder : SnapshotEncoder := λ _, Ok 100 in
  build_redacted_snapshot
    (mkSnapInput "" "" "w" "" "" "" "" 1 "" "" None None "" (Some long_text) [] [] 100 []) = None.
Proof. vm_compute. reflexivity. Qed.

Lemma router_selects_independent_planners_witness :
  let codex := mkCapability "codex" "/usr/bin/codex" "openai" " OpenAI" true false in
  let claude := mkCapability "claude" "/usr/bin/claude" "anthropic" "anthropic" true false in
  let l := resolve_eligible_planners sample_planning "anthropic" [claude; codex] in
  l = [sample_planner] ∧ ∃ c, c ∈ [claude; codex] ∧ routed sample_planning "anthropic" c sample_planner.
Proof.
  intros codex claude l. assert (l = [sample_planner]) as Hl by (vm_compute; reflexivity).
  split; [exact Hl|].
  destruct (router_selects_independent_planners sample_planning "anthropic" [claude; codex]) as [H _].
  apply H. fold l. rewrite Hl. constructor.
Defined.

Lemma planner_budgets_hold_witness :
  ∃ s, bruns sample_planning broker_new (serial sample_request) s
    ∧ count (is_ev "e") [sample_request] ≤ 1.
Proof.
  assert (∃ s, bruns sample_planning broker_new (serial sample_request) s) as [s Hs].
  { eexists. eapply bruns_cons; [apply bstep_acquire, acquire_fresh; discriminate|].
    eapply bruns_cons; [by apply bstep_release|].
    eapply bruns_cons; [by apply bstep_commit|]. apply bruns_nil. }
  exists s. split; [exact Hs|].
  destruct (planner_budgets_hold sample_planning) as [_ H].
  apply (H [sample_request] s "e" ("s", "2026-01-01")). exact Hs.
Defined.
