(* ===== verification/Process.v ===== *)
(** * Process resolution and liveness (src/src/process/mod.rs, src/src/process/scoring.rs)

    Which process a watcher is bound to: the resolver walks the ancestors of the calling
    process, or the processes on its terminal, scores the agents among them and accepts
    only a unique best candidate.  [LifecycleMonitor] decides at every tick whether the
    bound process is alive, in its grace period, re-executed or gone.  The operating
    system is a [ProcessInspector]; SHA-256 is a parameter. *)
From stdpp Require Import pretty.
From S2P Require Import Prelude Identity.
From Stdlib Require Import Ascii.

Local Open Scope Z_scope.

Definition MAX_ANCESTORS : nat := 64.
Definition MINIMUM_CONFIDENCE : Z := 10.

Module Agent.
Inductive AgentKind : Type := Claude | Codex | Manifest.
End Agent.
Abbreviation AgentKind := Agent.AgentKind.

#[global] Instance AgentKind_eq_dec : EqDecision AgentKind.
Proof. solve_decision. Defined.

Record ProcessRecord : Type := mkProcess {
  pr_pid : Z;
  pr_parent_pid : Z;
  pr_start_time : Z;
  pr_executable : option string;
  pr_argv_digest : option string;
  pr_uid : option Z;
  pr_process_group_id : option Z;
  pr_session_leader_id : option Z;
  pr_tty : option string;
}.

(** [ProcessRecord::identity]. *)
Definition record_identity (p : ProcessRecord) : ProcessIdentity :=
  mkProcessIdentity PROCESS_IDENTITY_SCHEMA_VERSION (pr_pid p) (pr_start_time p)
    (pr_executable p) (pr_argv_digest p) (pr_uid p) (pr_process_group_id p)
    (pr_session_leader_id p) (pr_tty p) None.

Record CandidateHints : Type := mkHints {
  hint_tty : option string;
  hint_process_group_id : option Z;
  hint_session_leader_id : option Z;
  hint_uid : option Z;
  executable_hint : option string;
}.

Record ResolvedProcess : Type := mkResolvedProcess {
  rs_identity : ProcessIdentity;
  rs_agent : AgentKind;
  rs_score : Z;
  rs_reasons : list string;
}.

Inductive ProcessError : Type :=
| Disappeared (p : Z)
| Malformed (p : Z) (reason : string)
| Inspection (m : string)
| IncompleteEnumeration (m : string)
| Ambiguous (candidates : list Z)
| NoConfidentCandidate (examined : nat).

(** The trait object: the answers of the operating system during one call. *)
Record ProcessInspector : Type := mkInspector {
  inspect : Z → result ProcessError ProcessRecord;
  processes_on_tty : string → result ProcessError (list ProcessRecord);
}.

(** ** Scoring *)

(** [executable.rsplit('/').next()]. *)
Definition base_name (executable : string) : string := after_last "/" executable.

Definition identify_agent (executable : string) : option AgentKind :=
  let name := to_ascii_lowercase (base_name executable) in
  if one_of ["claude"; "claude-code"] name || starts_with "claude-" name then Some Agent.Claude
  else if one_of ["codex"; "codex-cli"] name || starts_with "codex-" name then Some Agent.Codex
  else None.

(** The accumulators of [score]: total, correlations, reasons. *)
Definition Tally : Type := Z * nat * list string.

Definition correlate {T} `{EqDecision T} (label : string) (actual expected : option T)
    (points : Z) (t : Tally) : option Tally :=
  let '(total, correlations, reasons) := t in
  match actual, expected with
  | Some a, Some e =>
      if bool_decide (a = e)
      then Some (total + points, S correlations,
                 reasons ++ [label +:+ " matches pane (+" +:+ pretty points +:+ ")"])
      else None
  | _, _ => Some t
  end.

Definition ancestor_points (distance : nat) : Z := 6 - Z.of_nat (Nat.min distance 4).

Definition base_tally (ancestry_distance : option nat) : Tally :=
  let reasons := ["known agent executable (+8)"] in
  match ancestry_distance with
  | None => (8, 0%nat, reasons)
  | Some distance =>
      let points := ancestor_points distance in
      (8 + points, 0%nat,
       reasons ++ ["agent ancestor distance " +:+ pretty distance +:+ " (+" +:+ pretty points
                     +:+ ")"])
  end.

Definition correlate_executable (executable hint : option string) (t : Tally) : option Tally :=
  let '(total, correlations, reasons) := t in
  match executable, hint with
  | Some e, Some h =>
      if negb (String.eqb (base_name e) h) then None
      else Some (total + 2, S correlations, reasons ++ ["pane executable hint (+2)"])
  | _, _ => Some t
  end.

Definition score (p : ProcessRecord) (h : CandidateHints) (ancestry_distance : option nat)
    : option (Z * list string) :=
  t ← correlate "tty" (pr_tty p) (hint_tty h) 4 (base_tally ancestry_distance);
  t ← correlate "process group" (pr_process_group_id p) (hint_process_group_id h) 2 t;
  t ← correlate "session" (pr_session_leader_id p) (hint_session_leader_id h) 2 t;
  t ← correlate "uid" (pr_uid p) (hint_uid h) 2 t;
  t ← correlate_executable (pr_executable p) (executable_hint h) t;
  let '(total, correlations, reasons) := t in
  if (0 <? correlations)%nat then Some (total, reasons) else None.

(** ** Resolution *)
Definition ancestry_cut (pid : Z) (seen : list ProcessRecord) : bool :=
  (pid <=? 1) || existsb (λ s, pr_pid s =? pid) seen.

(** [for _ in 0..MAX_ANCESTORS] with [result] as accumulator. *)
Fixpoint ancestry_from (inspector : ProcessInspector) (rounds : nat) (pid : Z)
    (found : list ProcessRecord) : list ProcessRecord :=
  match rounds with
  | O => found
  | S rounds =>
      match inspect inspector pid with
      | Err _ => found
      | Ok process =>
          let pid := pr_parent_pid process in
          let found := found ++ [process] in
          if ancestry_cut pid found then found else ancestry_from inspector rounds pid found
      end
  end.

Definition ancestry (inspector : ProcessInspector) (child_pid : Z) : list ProcessRecord :=
  ancestry_from inspector MAX_ANCESTORS child_pid [].

Definition agent_for (manifest_names : list string) (p : ProcessRecord) : option AgentKind :=
  executable ← pr_executable p;
  match identify_agent executable with
  | Some agent => Some agent
  | None =>
      if existsb (λ known, String.eqb known (base_name executable)) manifest_names
      then Some Agent.Manifest else None
  end.

(** The two nested [if let]s around [candidate]. *)
Definition candidate (manifest_names : list string) (h : CandidateHints)
    (distance : option nat) (p : ProcessRecord) : option ResolvedProcess :=
  agent ← agent_for manifest_names p;
  sr ← score p h distance;
  Some (mkResolvedProcess (record_identity p) agent sr.1 sr.2).

(** [ancestry.iter().enumerate().skip(1)]. *)
Definition ancestor_candidates (manifest_names : list string) (h : CandidateHints)
    (l : list ProcessRecord) : list ResolvedProcess :=
  omap (λ dp, candidate manifest_names h (Some dp.1) dp.2) (drop 1 (imap pair l)).

(** [sort_by(|l, r| r.score.cmp(&l.score))], a stable sort by descending score. *)
Fixpoint insert_desc (x : ResolvedProcess) (l : list ResolvedProcess) : list ResolvedProcess :=
  match l with
  | [] => [x]
  | y :: l => if rs_score y <=? rs_score x then x :: y :: l else y :: insert_desc x l
  end.
Definition sort_desc (l : list ResolvedProcess) : list ResolvedProcess := foldr insert_desc [] l.

Fixpoint take_score (s : Z) (l : list ResolvedProcess) : list ResolvedProcess :=
  match l with
  | x :: l => if rs_score x =? s then x :: take_score s l else []
  | [] => []
  end.

Definition select_candidate (candidates : list ResolvedProcess)
    : result ProcessError ResolvedProcess :=
  let candidates := sort_desc candidates in
  match candidates with
  | [] => Err (NoConfidentCandidate 0)
  | best :: rest =>
      if rs_score best <? MINIMUM_CONFIDENCE then Err (NoConfidentCandidate (length candidates))
      else
        match rest with
        | next :: _ =>
            if rs_score next =? rs_score best
            then Err (Ambiguous (pid ∘ rs_identity <$> take_score (rs_score best) candidates))
            else Ok best
        | [] => Ok best
        end
  end.

(** SHA-256 in hexadecimal. *)
Class Sha256Hex : Type := sha256_hex : list Z → string.

(** [to_le_bytes] of an [n]-byte integer. *)
Fixpoint le_bytes (n : nat) (z : Z) : list Z :=
  match n with
  | O => []
  | S n => z mod 256 :: le_bytes n (z / 256)
  end.

Definition ancestry_bytes (l : list ProcessRecord) : list Z :=
  l ≫= λ p, le_bytes 4 (pr_pid p) ++ le_bytes 8 (pr_start_time p).

Definition set_parent_digest (i : ProcessIdentity) (d : option string) : ProcessIdentity :=
  mkProcessIdentity (pi_schema_version i) (pid i) (start_time i) (executable i) (argv_digest i)
    (uid i) (process_group_id i) (session_leader_id i) (tty i) d.

(** Agents among the ancestors, else those on the terminal of the hints. *)
Definition resolve_candidates (manifest_names : list string) (inspector : ProcessInspector)
    (lineage : list ProcessRecord) (h : CandidateHints)
    : result ProcessError (list ResolvedProcess) :=
  match ancestor_candidates manifest_names h lineage, hint_tty h with
  | [], Some t =>
      let? on_tty := processes_on_tty inspector t in
      Ok (omap (candidate manifest_names h None) on_tty)
  | cs, _ => Ok cs
  end.

Definition resolve `{Sha256Hex} (manifest_names : list string) (inspector : ProcessInspector)
    (child_pid : Z) (h : CandidateHints) : result ProcessError ResolvedProcess :=
  let lineage := ancestry inspector child_pid in
  let? candidates := resolve_candidates manifest_names inspector lineage h in
  let? selected := select_candidate candidates in
  match lineage with
  | [] => Ok selected
  | _ =>
      Ok (mkResolvedProcess
            (set_parent_digest (rs_identity selected) (Some (sha256_hex (ancestry_bytes lineage))))
            (rs_agent selected) (rs_score selected) (rs_reasons selected))
  end.

(** ** The lifecycle monitor *)
Inductive LifecycleDecision : Type :=
| Alive
| Grace
| ReexecAccepted (i : ProcessIdentity)
| Terminate.

Record LifecycleMonitor : Type := mkMonitor {
  lm_identity : ProcessIdentity;
  grace_ms : Z;
  missing_since : option Z;
}.

Definition monitor_new (i : ProcessIdentity) : LifecycleMonitor := mkMonitor i 0 None.
Definition with_reexec_grace (i : ProcessIdentity) (grace : Z) : LifecycleMonitor :=
  mkMonitor i grace None.

Definition same_process (i : ProcessIdentity) (p : ProcessRecord) : bool :=
  (pid i =? pr_pid p) && (start_time i =? pr_start_time p)
  && opt_str_eqb (executable i) (pr_executable p).

Definition both_differ (l r : option Z) : bool :=
  bool_decide (is_Some l) && bool_decide (is_Some r) && negb (bool_decide (l = r)).
Definition both_agree (l r : option Z) : bool := bool_decide (is_Some l) && bool_decide (l = r).

Definition continuity_matches (i : ProcessIdentity) (p : ProcessRecord) : bool :=
  let pairs := [(process_group_id i, pr_process_group_id p);
                (session_leader_id i, pr_session_leader_id p)] in
  negb (existsb (λ lr, both_differ lr.1 lr.2) pairs) && existsb (λ lr, both_agree lr.1 lr.2) pairs.

Definition strong_reexec_match (i : ProcessIdentity) (p : ProcessRecord) : bool :=
  let original_agent := executable i ≫= identify_agent in
  let replacement_agent := pr_executable p ≫= identify_agent in
  bool_decide (is_Some (tty i)) && opt_str_eqb (tty i) (pr_tty p)
  && bool_decide (is_Some (uid i)) && bool_decide (uid i = pr_uid p)
  && continuity_matches i p
  && bool_decide (is_Some original_agent) && bool_decide (original_agent = replacement_agent).

Definition observe_missing (inspector : ProcessInspector) (now_ms : Z) (m : LifecycleMonitor)
    : LifecycleMonitor * LifecycleDecision :=
  let since := default now_ms (missing_since m) in
  let m := mkMonitor (lm_identity m) (grace_ms m) (Some since) in
  if grace_ms m <? saturating_sub now_ms since then (m, Terminate)
  else
    match tty (lm_identity m) with
    | None => (m, Grace)
    | Some t =>
        match processes_on_tty inspector t with
        | Err _ => (m, Grace)
        | Ok processes =>
            match List.filter (strong_reexec_match (lm_identity m)) processes with
            | [p] => (m, ReexecAccepted (record_identity p))
            | _ => (m, Grace)
            end
        end
    end.

(** [LifecycleMonitor::observe]. *)
Definition monitor_observe (inspector : ProcessInspector) (now_ms : Z) (m : LifecycleMonitor)
    : LifecycleMonitor * LifecycleDecision :=
  match inspect inspector (pid (lm_identity m)) with
  | Ok process => if same_process (lm_identity m) process then (m, Alive) else (m, Terminate)
  | Err (Disappeared _) => if 0 <? grace_ms m then observe_missing inspector now_ms m else (m, Terminate)
  | Err _ => (m, Terminate)
  end.

Definition commit_reexec (i : ProcessIdentity) (m : LifecycleMonitor) : LifecycleMonitor :=
  mkMonitor i (grace_ms m) None.

(** ** Scoring, proved *)

(** No hint contradicts the process. *)
Definition agrees {T} (actual expected : option T) : Prop :=
  ∀ a e, actual = Some a → expected = Some e → a = e.
Definition corroborates {T} (actual expected : option T) : Prop :=
  ∃ a, actual = Some a ∧ expected = Some a.

Record hints_hold (p : ProcessRecord) (h : CandidateHints) : Prop := {
  hh_tty : agrees (pr_tty p) (hint_tty h);
  hh_group : agrees (pr_process_group_id p) (hint_process_group_id h);
  hh_session : agrees (pr_session_leader_id p) (hint_session_leader_id h);
  hh_uid : agrees (pr_uid p) (hint_uid h);
  hh_executable : agrees (base_name <$> pr_executable p) (executable_hint h);
}.

Definition corroborated (p : ProcessRecord) (h : CandidateHints) : Prop :=
  corroborates (pr_tty p) (hint_tty h)
  ∨ corroborates (pr_process_group_id p) (hint_process_group_id h)
  ∨ corroborates (pr_session_leader_id p) (hint_session_leader_id h)
  ∨ corroborates (pr_uid p) (hint_uid h)
  ∨ corroborates (base_name <$> pr_executable p) (executable_hint h).

(** One correlation either adds points and evidence or leaves the tally alone. *)
Definition tallied {T} (actual expected : option T) (points : Z) (t t' : Tally) : Prop :=
  agrees actual expected
  ∧ (corroborates actual expected ∧ t'.1.1 = t.1.1 + points ∧ t'.1.2 = S t.1.2
     ∨ t'.1.1 = t.1.1 ∧ t'.1.2 = t.1.2).

Lemma correlate_tallied {T} `{EqDecision T} label (actual expected : option T) points t t' :
  correlate label actual expected points t = Some t' → tallied actual expected points t t'.
Proof.
  destruct t as [[total c] rs]. unfold correlate, tallied, agrees, corroborates.
  destruct actual as [a|], expected as [e|]; try (intros [= <-]; split; [naive_solver|by right]).
  case_bool_decide as He; [|done]. intros [= <-]. subst e. split; [naive_solver|]. left. eauto.
Qed.

Lemma correlate_executable_tallied e h t t' :
  correlate_executable e h t = Some t' → tallied (base_name <$> e) h 2 t t'.
Proof.
  destruct t as [[total c] rs]. unfold correlate_executable, tallied, agrees, corroborates.
  destruct e as [e|], h as [h|]; cbn; try (intros [= <-]; split; [naive_solver|by right]).
  destruct (String.eqb_spec (base_name e) h) as [<-|]; [|done]. intros [= <-].
  split; [naive_solver|]. left. eauto.
Qed.

Lemma base_tally_spec d :
  (base_tally d).1.2 = 0%nat ∧ 8 ≤ (base_tally d).1.1 ≤ 14.
Proof.
  unfold base_tally, ancestor_points. destruct d as [d|]; cbn [fst snd]; split; try done; lia.
Qed.

Lemma score_Some p h d t rs :
  score p h d = Some (t, rs) → hints_hold p h ∧ corroborated p h ∧ MINIMUM_CONFIDENCE ≤ t ≤ 26.
Proof.
  unfold score. destruct (base_tally_spec d) as [Hc Ht].
  intros (t1 & H1%correlate_tallied & H)%bind_Some. apply bind_Some in H as (t2 & H2%correlate_tallied & H).
  apply bind_Some in H as (t3 & H3%correlate_tallied & H). apply bind_Some in H as (t4 & H4%correlate_tallied & H).
  apply bind_Some in H as ([[t5 c5] r5] & H5%correlate_executable_tallied & H).
  destruct (Nat.ltb_spec 0 c5) as [Hpos|]; [|done]. injection H as <- <-.
  destruct H1 as [A1 C1], H2 as [A2 C2], H3 as [A3 C3], H4 as [A4 C4], H5 as [A5 C5].
  cbn [fst snd] in *. unfold corroborated, MINIMUM_CONFIDENCE. split; [by constructor|].
  split; [|lia]. destruct C1 as [[? _]|[_ E1]]; [by left|]. destruct C2 as [[? _]|[_ E2]]; [by right; left|].
  destruct C3 as [[? _]|[_ E3]]; [by right; right; left|].
  destruct C4 as [[? _]|[_ E4]]; [by right; right; right; left|].
  destruct C5 as [[? _]|[_ E5]]; [by right; right; right; right|]. lia.
Qed.

(** ** Sorting and selection *)
Lemma insert_desc_perm x l : insert_desc x l ≡ₚ x :: l.
Proof. induction l as [|y l IH]; cbn; [done|]. destruct (_ <=? _); [done|]. rewrite IH. by constructor. Qed.

Lemma sort_desc_perm l : sort_desc l ≡ₚ l.
Proof. induction l as [|x l IH]; cbn; [done|]. by rewrite insert_desc_perm, IH. Qed.

Definition desc (x y : ResolvedProcess) : Prop := rs_score y ≤ rs_score x.

Lemma insert_desc_sorted x l : StronglySorted desc l → StronglySorted desc (insert_desc x l).
Proof.
  induction 1 as [|y l Hs IH Hy]; cbn; [by repeat constructor|].
  destruct (Z.leb_spec (rs_score y) (rs_score x)) as [Hle|Hgt].
  - constructor; [by constructor|]. constructor; [done|]. eapply Forall_impl; [done|].
    unfold desc. intros z Hz. lia.
  - constructor; [done|]. rewrite insert_desc_perm. constructor; [unfold desc; lia|done].
Qed.

Lemma sort_desc_sorted l : StronglySorted desc (sort_desc l).
Proof. induction l; cbn; [constructor|]. by apply insert_desc_sorted. Qed.

Definition at_score (s : Z) (x : ResolvedProcess) : bool := rs_score x =? s.

Lemma insert_desc_stable s x l :
  List.filter (at_score s) (insert_desc x l) = List.filter (at_score s) (x :: l).
Proof.
  induction l as [|y l IH]; cbn; [done|]. destruct (Z.leb_spec (rs_score y) (rs_score x)) as [|Hgt]; [done|].
  cbn. rewrite IH. cbn. unfold at_score.
  destruct (Z.eqb_spec (rs_score x) s), (Z.eqb_spec (rs_score y) s); try done. lia.
Qed.

Lemma sort_desc_stable s l : List.filter (at_score s) (sort_desc l) = List.filter (at_score s) l.
Proof.
  induction l as [|x l IH]; [done|].
  change (sort_desc (x :: l)) with (insert_desc x (sort_desc l)).
  rewrite insert_desc_stable. cbn [List.filter]. by rewrite IH.
Qed.

Lemma take_score_filter s l :
  StronglySorted desc l → Forall (λ x, rs_score x ≤ s) l →
  take_score s l = List.filter (at_score s) l.
Proof.
  induction 1 as [|x l Hs IH Hx]; intros Hle; cbn; [done|]. inversion Hle; subst.
  unfold at_score at 1. destruct (Z.eqb_spec (rs_score x) s); [by rewrite IH|].
  symmetry. clear IH. assert (Forall (λ y, rs_score y < s) l) as Hlt.
  { eapply Forall_impl; [exact Hx|]. unfold desc. intros y Hy. lia. }
  clear -Hlt. induction Hlt as [|y l Hy _ IH]; cbn; [done|]. unfold at_score at 1.
  by rewrite (proj2 (Z.eqb_neq _ _)) by lia.
Qed.

(** The three verdicts of the selection. *)
Definition selection (cs : list ResolvedProcess) (v : result ProcessError ResolvedProcess) : Prop :=
  match v with
  | Ok r => ∃ l1 l2, cs = l1 ++ r :: l2 ∧ MINIMUM_CONFIDENCE ≤ rs_score r
      ∧ Forall (λ x, rs_score x < rs_score r) (l1 ++ l2)
  | Err (NoConfidentCandidate n) =>
      n = length cs ∧ Forall (λ x, rs_score x < MINIMUM_CONFIDENCE) cs
  | Err (Ambiguous pids) => ∃ s, MINIMUM_CONFIDENCE ≤ s ∧ Forall (λ x, rs_score x ≤ s) cs
      ∧ pids = pid ∘ rs_identity <$> List.filter (at_score s) cs ∧ (2 ≤ length pids)%nat
  | Err _ => False
  end.

Lemma select_candidate_spec cs : selection cs (select_candidate cs).
Proof.
  unfold select_candidate. pose proof (sort_desc_perm cs) as Hp.
  pose proof (sort_desc_sorted cs) as Hs. pose proof (λ s, sort_desc_stable s cs) as Hst.
  destruct (sort_desc cs) as [|best rest]; [apply Permutation_nil_l in Hp; subst cs; cbn; auto|].
  assert (Forall (λ x, rs_score x ≤ rs_score best) rest) as Hr by (by inversion Hs).
  assert (Forall (λ x, rs_score x ≤ rs_score best) cs) as Hall.
  { rewrite <- Hp. by constructor. }
  destruct (Z.ltb_spec (rs_score best) MINIMUM_CONFIDENCE) as [Hlow|Hok].
  - cbn. split; [by rewrite <- Hp|]. eapply Forall_impl; [exact Hall|]. cbn. intros; lia.
  - assert (Forall (λ x, rs_score x < rs_score best) rest → selection cs (Ok best)) as Hbest.
    { intros Hlt. assert (best ∈ cs) as Hin by (rewrite <- Hp; by left).
      apply list_elem_of_split in Hin as (l1 & l2 & ->). exists l1, l2. split_and!; [done|done|].
      rewrite <- Permutation_middle in Hp. apply Permutation_cons_inv in Hp. by rewrite <- Hp. }
    destruct rest as [|next rest]; [by apply Hbest|].
    destruct (Z.eqb_spec (rs_score next) (rs_score best)) as [He|Hne].
    + exists (rs_score best). split_and!; [done|done| |].
      * rewrite take_score_filter; [by rewrite Hst|done|by constructor].
      * cbn. by rewrite Z.eqb_refl, He, Z.eqb_refl; cbn; lia.
    + apply Hbest. inversion Hs as [|? ? Hs' _]; subst. inversion Hs' as [|? ? _ Hn]; subst.
      inversion Hr; subst. constructor; [lia|]. eapply Forall_impl; [exact Hn|]. unfold desc. intros; lia.
Qed.

(** ** Resolution, proved *)

(** Where a candidate may come from. *)
Definition found (names : list string) (inspector : ProcessInspector) (child_pid : Z)
    (h : CandidateHints) (p : ProcessRecord) : Prop :=
  p ∈ drop 1 (ancestry inspector child_pid)
  ∨ ancestor_candidates names h (ancestry inspector child_pid) = []
    ∧ ∃ t l, hint_tty h = Some t ∧ processes_on_tty inspector t = Ok l ∧ p ∈ l.

(** What every candidate satisfies. *)
Definition sound_candidate (names : list string) (h : CandidateHints) (p : ProcessRecord)
    (r : ResolvedProcess) : Prop :=
  rs_identity r = record_identity p ∧ agent_for names p = Some (rs_agent r)
  ∧ hints_hold p h ∧ corroborated p h ∧ MINIMUM_CONFIDENCE ≤ rs_score r ≤ 26.

Lemma candidate_Some names h d p r : candidate names h d p = Some r → sound_candidate names h p r.
Proof.
  unfold candidate, sound_candidate. intros (a & Ha & H)%bind_Some.
  apply bind_Some in H as ([t rs] & Hs & [= <-]). apply score_Some in Hs. naive_solver.
Qed.

Lemma resolve_candidates_sound names inspector child h cs r :
  resolve_candidates names inspector (ancestry inspector child) h = Ok cs → r ∈ cs →
  ∃ p, found names inspector child h p ∧ sound_candidate names h p r.
Proof.
  unfold resolve_candidates, found. intros Hc Hr.
  assert (∀ r, r ∈ ancestor_candidates names h (ancestry inspector child) →
    ∃ p, p ∈ drop 1 (ancestry inspector child) ∧ sound_candidate names h p r) as Hanc.
  { intros r' ([d p] & Hin & Hp)%list_elem_of_omap. cbn in Hp.
    exists p. split; [|by eapply candidate_Some].
    assert (snd <$> drop 1 (imap pair (ancestry inspector child)) = drop 1 (ancestry inspector child)) as <-.
    { rewrite fmap_drop, fmap_imap. f_equal.
      etrans; [apply (imap_const id)|apply list_fmap_id]. }
    apply list_elem_of_fmap. by exists (d, p). }
  destruct (ancestor_candidates names h (ancestry inspector child)) as [|x l] eqn:Ea.
  - destruct (hint_tty h) as [t|] eqn:Et; [|injection Hc as <-; by apply elem_of_nil in Hr].
    apply rbind_Ok in Hc as (on_tty & Htty & [= <-]).
    apply list_elem_of_omap in Hr as (p & Hp & Hcand).
    exists p. split; [|by eapply candidate_Some]. right. split; [done|]. by exists t, on_tty.
  - assert (cs = x :: l) as -> by (destruct (hint_tty h); congruence).
    destruct (Hanc _ Hr) as (p & Hp & Hs). exists p. split; [by left|done].
Qed.

(** ** Properties *)

(** Process resolution is trustworthy.  A resolved process is an ancestor of the
    caller (not the caller itself) or, when no ancestor is an agent, a process on the
    terminal of the hints; its executable names the agent, no hint contradicts it and at
    least one corroborates it, and it scores strictly higher than every other candidate.
    A tie is reported with the processes that share the best score, in discovery order,
    and [NoConfidentCandidate] means that there was no candidate at all: the confidence
    threshold never rejects one. *)
Theorem resolve_trustworthy `{Sha256Hex} names inspector child h :
  match resolve names inspector child h with
  | Ok r => ∃ p cs l1 l2 best,
      resolve_candidates names inspector (ancestry inspector child) h = Ok cs
      ∧ cs = l1 ++ best :: l2 ∧ Forall (λ x, rs_score x < rs_score best) (l1 ++ l2)
      ∧ found names inspector child h p ∧ sound_candidate names h p best
      ∧ rs_agent r = rs_agent best ∧ rs_score r = rs_score best
      ∧ pid (rs_identity r) = pr_pid p ∧ start_time (rs_identity r) = pr_start_time p
  | Err (NoConfidentCandidate n) =>
      n = 0%nat ∧ resolve_candidates names inspector (ancestry inspector child) h = Ok []
      ∨ ∃ t, processes_on_tty inspector t = Err (NoConfidentCandidate n)
  | Err (Ambiguous pids) =>
      (∃ cs s, resolve_candidates names inspector (ancestry inspector child) h = Ok cs
        ∧ Forall (λ x, rs_score x ≤ s) cs ∧ (2 ≤ length pids)%nat
        ∧ pids = pid ∘ rs_identity <$> List.filter (at_score s) cs)
      ∨ ∃ t, processes_on_tty inspector t = Err (Ambiguous pids)
  | Err e => ∃ t, processes_on_tty inspector t = Err e
  end.
Proof.
  unfold resolve. set (lineage := ancestry inspector child).
  destruct (resolve_candidates names inspector lineage h) as [cs|e] eqn:Ec; cbn [rbind].
  2: { unfold resolve_candidates in Ec. destruct (ancestor_candidates names h lineage); [|by destruct (hint_tty h)].
       destruct (hint_tty h) as [t|]; [|done].
       destruct (processes_on_tty inspector t) as [l|e'] eqn:Et; [done|]. cbn in Ec. injection Ec as ->.
       destruct e; eauto. }
  pose proof (select_candidate_spec cs) as Hs.
  pose proof (λ r, resolve_candidates_sound names inspector child h cs r Ec) as Hsound.
  destruct (select_candidate cs) as [best|e]; cbn [rbind].
  - destruct Hs as (l1 & l2 & -> & Hmin & Hlt).
    destruct (Hsound best) as (p & Hf & Hp); [apply elem_of_app; right; by left|].
    destruct lineage; exists p, (l1 ++ best :: l2), l1, l2, best; pose proof Hp as (Hid & _);
      cbn [rs_agent rs_score rs_identity set_parent_digest pid start_time]; by rewrite Hid.
  - destruct e as [| | | |pids|n]; try done.
    + destruct Hs as (s & _ & Hle & -> & Hl). left. by exists cs, s.
    + destruct Hs as [-> Hlow]. left. destruct cs as [|x cs]; [done|]. exfalso.
      destruct (Hsound x) as (p & _ & _ & _ & _ & _ & Hmin); [by left|]. inversion Hlow; subst. lia.
Qed.
