(* ===== verification/Ipc.v ===== *)
(** * The IPC protocol (src/src/ipc/protocol.rs, src/src/ipc/mod.rs)

    Requests and responses between the command line and the daemon, the versioned
    envelope and the length-prefixed framing.  serde_json's encoder and decoder of the
    flattened envelope are a class parameter; a stream is the bytes that arrive before
    the peer closes it. *)
From S2P Require Import Prelude State.

Local Open Scope Z_scope.

Definition PROTOCOL_VERSION : Z := 1.
Definition MAX_FRAME_BYTES : Z := 64 * 1024.

Module Request.
Inductive Request : Type :=
| Status (id : option string)
| ListWatchers
| Stop (id : option string) (all : bool)
| Pause (id : string)
| Resume (id : string)
| WakeObservation (id event_fingerprint : string)
| Register (watcher : WatcherState)
| Shutdown.
End Request.
Abbreviation Request := Request.Request.

Module Response.
Inductive Response : Type :=
| Status (running : bool) (watchers : list WatcherState)
| Watchers (watchers : list WatcherState)
| Registered (watcher_id : string) (existing : bool)
| Updated (watcher : WatcherState)
| Stopped
| Acknowledged
| Error (code message : string).
End Response.
Abbreviation Response := Response.Response.

Module Protocol.
Inductive ProtocolError : Type :=
| Oversized
| Malformed (m : string)
| Version (v : Z).
End Protocol.
Abbreviation ProtocolError := Protocol.ProtocolError.

Inductive IpcError : Type :=
| Io (m : string)
| Protocol (e : ProtocolError)
| Timeout.

(** serde_json on the envelope [{ version, ..payload }]. *)
Class EnvelopeCodec (T : Type) : Type := {
  to_vec : Z → T → result string (list Z);
  from_slice : list Z → result string (Z * T);
}.

Definition byte_len (b : list Z) : Z := Z.of_nat (length b).

(** Big-endian bytes of [write_u32] and [read_u32]. *)
Fixpoint be_bytes (n : nat) (z : Z) : list Z :=
  match n with O => [] | S n => be_bytes n (z / 256) ++ [z mod 256] end.
Definition be_value (l : list Z) : Z := foldl (λ acc b, acc * 256 + b) 0 l.

Section Frames.
Context {T : Type} `{EnvelopeCodec T}.

Definition encode_frame (value : T) : result ProtocolError (list Z) :=
  let? b := map_err Protocol.Malformed (to_vec PROTOCOL_VERSION value) in
  if MAX_FRAME_BYTES <? byte_len b then Err Protocol.Oversized else Ok b.

Definition decode_frame (b : list Z) : result ProtocolError T :=
  if MAX_FRAME_BYTES <? byte_len b then Err Protocol.Oversized
  else
    let? envelope := map_err Protocol.Malformed (from_slice b) in
    if negb (envelope.1 =? PROTOCOL_VERSION) then Err (Protocol.Version envelope.1)
    else Ok envelope.2.

(** [read_exact]: all [n] bytes or an error. *)
Definition read_exact (n : nat) (stream : list Z) : result IpcError (list Z * list Z) :=
  if (n <=? length stream)%nat then Ok (take n stream, drop n stream)
  else Err (Io "unexpected end of file").

Definition read_frame (stream : list Z) : result IpcError (T * list Z) :=
  let? prefix := read_exact 4 stream in
  let length := be_value prefix.1 in
  if MAX_FRAME_BYTES <? length then Err (Protocol Protocol.Oversized)
  else
    let? body := read_exact (Z.to_nat length) prefix.2 in
    let? value := map_err Protocol (decode_frame body.1) in
    Ok (value, body.2).

(** The bytes handed to the writer, before any of them is lost. *)
Definition write_frame (value : T) : result IpcError (list Z) :=
  let? b := map_err Protocol (encode_frame value) in
  Ok (be_bytes 4 (byte_len b) ++ b).

(** [tokio::time::timeout] around a frame operation. *)
Definition with_timeout {A} (elapsed : bool) (r : result IpcError A) : result IpcError A :=
  if elapsed then Err Timeout else r.
End Frames.

Definition read_request `{EnvelopeCodec Request} (elapsed : bool) (stream : list Z)
    : result IpcError (Request * list Z) := with_timeout elapsed (read_frame stream).
Definition write_request `{EnvelopeCodec Request} (elapsed : bool) (r : Request)
    : result IpcError (list Z) := with_timeout elapsed (write_frame r).
Definition read_response `{EnvelopeCodec Response} (elapsed : bool) (stream : list Z)
    : result IpcError (Response * list Z) := with_timeout elapsed (read_frame stream).
Definition write_response `{EnvelopeCodec Response} (elapsed : bool) (r : Response)
    : result IpcError (list Z) := with_timeout elapsed (write_frame r).

Definition validate_peer_uid (peer_uid owner_uid : Z) : result IpcError unit :=
  if peer_uid =? owner_uid then Ok tt else Err (Io "IPC peer is not the daemon owner").

(** ** Framing, proved *)
Lemma be_bytes_length n z : length (be_bytes n z) = n.
Proof. revert z. induction n as [|n IH]; intros z; cbn; [done|]. rewrite length_app, IH. cbn. lia. Qed.

Lemma be_value_snoc l b : be_value (l ++ [b]) = be_value l * 256 + b.
Proof. unfold be_value. by rewrite foldl_app. Qed.

Lemma be_value_bytes n z : 0 ≤ z < 256 ^ Z.of_nat n → be_value (be_bytes n z) = z.
Proof.
  revert z. induction n as [|n IH]; intros z Hz; [cbn in *; lia|].
  cbn [be_bytes]. rewrite be_value_snoc. rewrite Nat2Z.inj_succ, Z.pow_succ_r in Hz by lia.
  rewrite IH; [pose proof (Z.div_mod z 256); lia|].
  split; [apply Z.div_pos; lia|]. apply Z.div_lt_upper_bound; lia.
Qed.

Lemma read_exact_app n l rest :
  length l = n → read_exact n (l ++ rest) = Ok (l, rest).
Proof.
  intros <-. unfold read_exact. rewrite length_app.
  rewrite (proj2 (Nat.leb_le _ _)) by lia. by rewrite take_app_length, drop_app_length.
Qed.

Lemma read_exact_short n l : (length l < n)%nat → read_exact n l = Err (Io "unexpected end of file").
Proof. intros. unfold read_exact. by rewrite (proj2 (Nat.leb_gt _ _)). Qed.

Section Roundtrip.
Context {T : Type} `{EnvelopeCodec T}.

(** What serde_json promises for a value: decoding its encoding gives it back. *)
Definition decodes_back (x : T) : Prop :=
  ∀ b, to_vec PROTOCOL_VERSION x = Ok b → from_slice b = Ok (PROTOCOL_VERSION, x).

Lemma encode_frame_Ok x b :
  encode_frame x = Ok b → to_vec PROTOCOL_VERSION x = Ok b ∧ 0 ≤ byte_len b ≤ MAX_FRAME_BYTES.
Proof.
  unfold encode_frame. intros (b' & Hb%map_err_Ok & H1)%rbind_Ok.
  destruct (Z.ltb_spec MAX_FRAME_BYTES (byte_len b')); [done|]. injection H1 as ->.
  split; [done|]. unfold byte_len in *. lia.
Qed.

Lemma decode_encode x b : decodes_back x → encode_frame x = Ok b → decode_frame b = Ok x.
Proof.
  intros Hx [Hb Hl]%encode_frame_Ok. unfold decode_frame. rewrite (proj2 (Z.ltb_ge _ _)) by lia.
  by rewrite (Hx _ Hb).
Qed.

Lemma be4 z : 0 ≤ z ≤ MAX_FRAME_BYTES → be_value (be_bytes 4 z) = z.
Proof. unfold MAX_FRAME_BYTES. intros. apply be_value_bytes. lia. Qed.

(** Frames round-trip and are self-delimiting.  A written frame followed by any
    bytes reads back as the value and exactly those bytes; every proper prefix of a
    frame, as left by a peer that died while writing, is rejected as an incomplete
    read and never decodes; and no frame carries more than [MAX_FRAME_BYTES]. *)
Theorem frame_roundtrip (x : T) (f rest torn : list Z) :
  decodes_back x → write_frame x = Ok f →
  read_frame (f ++ rest) = Ok (x, rest)
  ∧ byte_len f ≤ 4 + MAX_FRAME_BYTES
  ∧ (torn `prefix_of` f ∧ torn ≠ f →
     read_frame (T := T) torn = Err (Io "unexpected end of file")).
Proof.
  intros Hx (b & Hb%map_err_Ok & Hf)%rbind_Ok.
  assert (f = be_bytes 4 (byte_len b) ++ b) as -> by congruence. clear Hf.
  pose proof (encode_frame_Ok _ _ Hb) as [_ Hl]. pose proof (decode_encode _ _ Hx Hb) as Hd.
  pose proof (be_bytes_length 4 (byte_len b)) as Hn. split_and!.
  - unfold read_frame. rewrite <- app_assoc, read_exact_app by done. cbn [rbind fst snd].
    rewrite be4 by done. rewrite (proj2 (Z.ltb_ge _ _)) by lia.
    rewrite read_exact_app by (unfold byte_len; lia). cbn [rbind fst snd]. by rewrite Hd.
  - unfold byte_len in *. rewrite length_app, Hn. lia.
  - intros [Hp Hne]. unfold read_frame.
    destruct (decide (length torn < 4)%nat) as [Hs|Hs]; [by rewrite read_exact_short|].
    destruct Hp as [k Hk].
    assert (∃ t, torn = be_bytes 4 (byte_len b) ++ t) as [t ->].
    { exists (drop 4 torn). rewrite <- (take_drop 4 torn) at 1. f_equal.
      assert (take 4 (be_bytes 4 (byte_len b) ++ b) = take 4 (torn ++ k)) as Ht by congruence.
      rewrite take_app_le in Ht by lia. rewrite take_ge in Ht by lia.
      by rewrite take_app_le in Ht by lia. }
    rewrite read_exact_app by done. cbn [rbind fst snd]. rewrite be4 by done.
    rewrite (proj2 (Z.ltb_ge _ _)) by lia. rewrite <- app_assoc in Hk. apply app_inv_head in Hk.
    rewrite read_exact_short; [done|]. subst b. unfold byte_len. rewrite length_app.
    destruct k; [by rewrite app_nil_r in Hne|cbn; lia].
Qed.

(** A declared length over the limit is refused before the body is read. *)
Lemma read_frame_oversized prefix rest :
  length prefix = 4%nat → MAX_FRAME_BYTES < be_value prefix →
  read_frame (T := T) (prefix ++ rest) = Err (Protocol Protocol.Oversized).
Proof.
  intros Hn Hl. unfold read_frame. rewrite read_exact_app by done. cbn [rbind fst snd].
  by rewrite (proj2 (Z.ltb_lt _ _)).
Qed.
End Roundtrip.

(** ** A concrete codec *)
Definition unit_codec : EnvelopeCodec bool := {|
  to_vec v x := Ok [v; if x : bool then 1 else 0];
  from_slice b := match b with [v; x] => Ok (v, x =? 1) | _ => Err "eof" end;
|}.

Lemma frame_roundtrip_witness :
  read_frame (H := unit_codec) [0; 0; 0; 2; 1; 1; 7; 8] = Ok (true, [7; 8])
  ∧ read_frame (H := unit_codec) [0; 0; 0; 2; 1] = Err (Io "unexpected end of file").
Proof.
  destruct (frame_roundtrip (H := unit_codec) true [0; 0; 0; 2; 1; 1] [7; 8] [0; 0; 0; 2; 1])
    as (H1 & _ & H3).
  - intros b [= <-]. reflexivity.
  - reflexivity.
  - split; [exact H1|]. apply H3. split; [by exists [1]|discriminate].
Defined.
