(* ===== verification/Scheduler.v ===== *)
(** * The scheduler task (src/src/daemon/scheduler.rs, src/src/daemon/lifecycle.rs)

    The scheduler decides when an idle daemon may stop: it keeps the set of scheduled
    watchers from the events it receives and returns when it has been empty for the
    idle grace.  A run consumes the sequence of receive results; the channel is
    unbounded, so every event sent before the run returns is received in order. *)
From S2P Require Import Prelude State Registry.

Local Open Scope Z_scope.

Record WatcherSchedule : Type := mkWatcherSchedule {
  wsch_id : string;
  wsch_paused : bool;
}.

Module SEvent.
Inductive SchedulerEvent : Type :=
| Register (id : string)
| Pause (id : string)
| Resume (id : string)
| Stop (id : string)
| Shutdown
| Snapshot.
End SEvent.
Abbreviation SchedulerEvent := SEvent.SchedulerEvent.

(** What [recv] gives back: an event, the closed channel, or the elapsed idle grace. *)
Inductive Received : Type :=
| Got (e : SchedulerEvent)
| ChannelClosed
| GraceElapsed.

Definition schedules (m : gmap string bool) : list WatcherSchedule :=
  (λ p, mkWatcherSchedule p.1 p.2) <$> btree_entries m.

(** One arm of the [match event]: the new map and the reply to a snapshot. *)
Definition on_event (e : SchedulerEvent) (m : gmap string bool)
    : option (gmap string bool) * list (list WatcherSchedule) :=
  match e with
  | SEvent.Register id => (Some (<[id := false]> m), [])
  | SEvent.Pause id => (Some (alter (λ _, true) id m), [])
  | SEvent.Resume id => (Some (alter (λ _, false) id m), [])
  | SEvent.Stop id => (Some (delete id m), [])
  | SEvent.Snapshot => (Some m, [schedules m])
  | SEvent.Shutdown => (None, [])
  end.

(** One turn of the loop; [None] is the return.  The grace timer is armed only when the
    map is empty and the daemon is not resident; otherwise [recv] waits on. *)
Definition turn (stay_resident : bool) (r : Received) (m : gmap string bool)
    : option (gmap string bool) * list (list WatcherSchedule) :=
  match r with
  | Got e => on_event e m
  | ChannelClosed => (None, [])
  | GraceElapsed => (if bool_decide (m = ∅) && negb stay_resident then None else Some m, [])
  end.

(** [Scheduler::run]: [None] when it returned [Response::Stopped]. *)
Fixpoint run_from (stay_resident : bool) (rs : list Received) (m : gmap string bool)
    : option (gmap string bool) * list (list WatcherSchedule) :=
  match rs with
  | [] => (Some m, [])
  | r :: rs =>
      match turn stay_resident r m with
      | (None, replies) => (None, replies)
      | (Some m, replies) =>
          let '(o, more) := run_from stay_resident rs m in (o, replies ++ more)
      end
  end.
Definition scheduler_run (stay_resident : bool) (rs : list Received) := run_from stay_resident rs ∅.

(** ** The registry's view (src/src/daemon/lifecycle.rs) *)
Definition finished (l : WatcherLifecycle) : bool :=
  match l with Lifecycle.Stopped _ | Lifecycle.TargetTerminated => true | _ => false end.

Definition held (l : WatcherLifecycle) : bool :=
  match l with Lifecycle.Paused | Lifecycle.HumanRequired _ => true | _ => false end.

(** The events [scheduler_from_registry] sends to the fresh scheduler. *)
Definition initial_events (w : WatcherState) : list SchedulerEvent :=
  if finished (lifecycle w) then []
  else SEvent.Register (ws_id w) :: (if held (lifecycle w) then [SEvent.Pause (ws_id w)] else []).

Definition scheduler_from_registry (reg : Registry) : list SchedulerEvent :=
  reg_list reg ≫= initial_events.

Definition has_active_watchers (reg : Registry) : bool :=
  existsb (λ w, negb (finished (lifecycle w))) (reg_list reg).

(** ** Event histories *)
Definition apply_event (m : gmap string bool) (e : SchedulerEvent) : gmap string bool :=
  default m (on_event e m).1.
Definition sched_after (es : list SchedulerEvent) (m : gmap string bool) : gmap string bool :=
  foldl apply_event m es.

(** What the history says about one watcher: the reference the run is compared with. *)
Definition told (id : string) (s : option bool) (e : SchedulerEvent) : option bool :=
  match e with
  | SEvent.Register i => if String.eqb i id then Some false else s
  | SEvent.Stop i => if String.eqb i id then None else s
  | SEvent.Pause i => if String.eqb i id then (λ _, true) <$> s else s
  | SEvent.Resume i => if String.eqb i id then (λ _, false) <$> s else s
  | SEvent.Shutdown | SEvent.Snapshot => s
  end.

Lemma apply_event_told e m id : apply_event m e !! id = told id (m !! id) e.
Proof.
  unfold apply_event. destruct e as [i|i|i|i| |]; cbn; try done;
    destruct (String.eqb_spec i id) as [->|Hne].
  - by rewrite lookup_insert_eq.
  - by rewrite lookup_insert_ne.
  - by rewrite lookup_alter_eq.
  - by rewrite lookup_alter_ne.
  - by rewrite lookup_alter_eq.
  - by rewrite lookup_alter_ne.
  - by rewrite lookup_delete_eq.
  - by rewrite lookup_delete_ne.
Qed.

Lemma sched_after_told es m id : sched_after es m !! id = foldl (told id) (m !! id) es.
Proof.
  revert m. induction es as [|e es IH]; intros m; cbn; [done|].
  change (sched_after es (apply_event m e) !! id = foldl (told id) (told id (m !! id) e) es).
  by rewrite IH, apply_event_told.
Qed.

Lemma sched_after_app es es' m : sched_after (es ++ es') m = sched_after es' (sched_after es m).
Proof. unfold sched_after. by rewrite foldl_app. Qed.

(** The events of a sequence of receive results, and whether it ends the run. *)
Definition events (rs : list Received) : list SchedulerEvent :=
  omap (λ r, match r with Got e => Some e | _ => None end) rs.
Definition ends_run (r : Received) : bool :=
  match r with Got SEvent.Shutdown | ChannelClosed => true | _ => false end.

Lemma turn_spec stay r m :
  (turn stay r m).1 =
    if ends_run r then None
    else match r with
         | Got e => Some (apply_event m e)
         | _ => if bool_decide (m = ∅) && negb stay then None else Some m
         end.
Proof. destruct r as [[]| |]; done. Qed.

Lemma run_from_Some stay rs m m' :
  (run_from stay rs m).1 = Some m' → m' = sched_after (events rs) m.
Proof.
  revert m. induction rs as [|r rs IH]; intros m; cbn [run_from]; [by intros [= <-]|].
  pose proof (turn_spec stay r m) as Ht. destruct (turn stay r m) as [[m1|] rep]; [|done].
  destruct (run_from stay rs m1) as [o more] eqn:E. cbn [fst]. intros ->.
  specialize (IH m1). rewrite E in IH. specialize (IH eq_refl). cbn [fst] in Ht.
  destruct r as [e| |]; cbn in Ht; [|done|].
  - destruct (ends_run (Got e)) eqn:Ee; cbn in Ee; destruct e; cbn in *; simplify_eq; done.
  - destruct (bool_decide _ && _); [done|]. injection Ht as ->. done.
Qed.

Lemma run_from_None stay rs m :
  (run_from stay rs m).1 = None →
  ∃ rs1 r rs2, rs = rs1 ++ r :: rs2
    ∧ (ends_run r = true
       ∨ r = GraceElapsed ∧ stay = false ∧ sched_after (events rs1) m = ∅).
Proof.
  revert m. induction rs as [|r rs IH]; intros m; cbn [run_from]; [done|].
  pose proof (turn_spec stay r m) as Ht. destruct (turn stay r m) as [[m1|] rep]; cbn [fst] in Ht.
  - destruct (run_from stay rs m1) as [o more] eqn:E. cbn [fst]. intros ->.
    destruct (IH m1) as (rs1 & r' & rs2 & -> & Hr); [by rewrite E|].
    exists (r :: rs1), r', rs2. split; [done|]. destruct Hr as [Hr|(-> & -> & Hr)]; [by left|].
    right. split_and!; [done|done|].
    destruct (ends_run r) eqn:Er; [done|]. destruct r as [e| |]; [|done|]; cbn.
    + injection Ht as ->. done.
    + destruct (bool_decide _ && _); [done|]. by injection Ht as ->.
  - intros _. exists [], r, rs. split; [done|].
    destruct (ends_run r) eqn:Er; [by left|]. right.
    destruct r as [e| |]; [done|done|]. destruct (bool_decide (m = ∅)) eqn:Em; [|done].
    apply bool_decide_eq_true in Em. by destruct stay.
Qed.

(** ** A restarted scheduler knows the registry *)
Definition lifecycle_schedule (l : WatcherLifecycle) : option bool :=
  if finished l then None else Some (held l).

Lemma told_other id i s es :
  i ≠ id → Forall (λ e, e = SEvent.Register i ∨ e = SEvent.Pause i) es →
  foldl (told id) s es = s.
Proof.
  intros Hne. revert s. induction es as [|e es IH]; intros s Hf; [done|].
  apply Forall_cons in Hf as [He Hf]. cbn. rewrite IH by done.
  destruct He as [-> | ->]; cbn; by rewrite (proj2 (String.eqb_neq _ _)).
Qed.

Lemma initial_events_told id w s :
  foldl (told id) s (initial_events w) =
    if String.eqb (ws_id w) id then
      (if finished (lifecycle w) then s else lifecycle_schedule (lifecycle w))
    else s.
Proof.
  destruct (String.eqb_spec (ws_id w) id) as [<-|Hne].
  - unfold initial_events, lifecycle_schedule. destruct (finished (lifecycle w)); [done|].
    destruct (held (lifecycle w)); cbn; by rewrite String.eqb_refl.
  - apply (told_other _ (ws_id w)); [done|]. unfold initial_events.
    destruct (finished (lifecycle w)), (held (lifecycle w)); rewrite ?Forall_cons; naive_solver.
Qed.

Lemma initial_list_told id l s :
  NoDup (ws_id <$> l) →
  foldl (told id) s (l ≫= initial_events) =
    match find_first (λ w, String.eqb (ws_id w) id) l with
    | Some w => if finished (lifecycle w) then s else lifecycle_schedule (lifecycle w)
    | None => s
    end.
Proof.
  revert s. induction l as [|w l IH]; intros s Hnd; [done|].
  cbn in Hnd. apply NoDup_cons in Hnd as [Hw Hnd]. cbn [mbind list_bind]. rewrite foldl_app.
  fold (mbind (M := list) initial_events l).
  rewrite initial_events_told. cbn [find_first].
  destruct (String.eqb_spec (ws_id w) id) as [<-|Hne]; [|by apply IH].
  rewrite IH by done.
  destruct (find_first _ l) as [w'|] eqn:E; [|done]. exfalso.
  apply find_first_Some in E as [Hin He%String.eqb_eq]. apply Hw. rewrite <- He.
  by apply list_elem_of_fmap_2.
Qed.

Lemma btree_values_ids reg : (∀ id w, watchers reg !! id = Some w → ws_id w = id) →
  ws_id <$> reg_list reg = btree_keys (watchers reg).
Proof.
  intros Hk. unfold reg_list, btree_values, btree_keys. rewrite <- list_fmap_compose.
  apply list_fmap_ext. intros i [k w] Hi. cbn. apply Hk, elem_of_btree_entries.
  by eapply list_elem_of_lookup_2.
Qed.

Lemma find_keyed reg id : (∀ id w, watchers reg !! id = Some w → ws_id w = id) →
  find_first (λ w, String.eqb (ws_id w) id) (reg_list reg) = watchers reg !! id.
Proof.
  intros Hk. destruct (find_first _ _) as [w|] eqn:E.
  - apply find_first_Some in E as [Hin He%String.eqb_eq].
    apply elem_of_btree_values in Hin as [k Hw]. rewrite <- He. by rewrite (Hk _ _ Hw).
  - destruct (watchers reg !! id) as [w|] eqn:Hw; [|done].
    pose proof (proj1 (find_first_None _ _) E w) as Hn. cbn in Hn.
    rewrite (Hk _ _ Hw), String.eqb_refl in Hn. exfalso. apply diff_true_false, Hn.
    apply elem_of_btree_values. by exists id.
Qed.

(** A scheduler started from the registry schedules exactly the watchers that are not
    finished, and holds back those that are paused or wait for a human. *)
Lemma scheduler_from_registry_spec reg id :
  (∀ id w, watchers reg !! id = Some w → ws_id w = id) →
  sched_after (scheduler_from_registry reg) ∅ !! id
  = (watchers reg !! id ≫= λ w, lifecycle_schedule (lifecycle w)).
Proof.
  intros Hk. rewrite sched_after_told, lookup_empty. unfold scheduler_from_registry.
  rewrite initial_list_told.
  - rewrite find_keyed by done. destruct (watchers reg !! id) as [w|]; [|done]. cbn.
    unfold lifecycle_schedule. by destruct (finished (lifecycle w)).
  - rewrite btree_values_ids by done. apply btree_entries_NoDup.
Qed.

Lemma has_active_watchers_iff reg :
  has_active_watchers reg = true
  ↔ ∃ id w, watchers reg !! id = Some w ∧ finished (lifecycle w) = false.
Proof.
  unfold has_active_watchers. rewrite existsb_exists. setoid_rewrite negb_true_iff.
  setoid_rewrite <- list_elem_of_In. unfold reg_list. setoid_rewrite elem_of_btree_values. naive_solver.
Qed.
