(* ===== verification/IpcService.v ===== *)
(** * Request handling (src/src/daemon/ipc_service.rs)

    One connection: peer authentication, framing, validation and the registry and
    scheduler effects of the request.  Disk writes and clock readings made while a
    request is handled are indexed by the watcher they concern. *)
From stdpp Require Import pretty.
From S2P Require Import Prelude Json Event Identity StateMachine State Store Registry.
From S2P Require Import RegistrySafety Ipc Scheduler.

Local Open Scope Z_scope.

(** ** Error texts ([thiserror]) *)
Definition protocol_error_text (e : ProtocolError) : string :=
  match e with
  | Protocol.Oversized => "IPC frame exceeds 65536 bytes"
  | Protocol.Malformed m => "malformed IPC frame: " +:+ m
  | Protocol.Version v => "unsupported IPC protocol version " +:+ pretty v
  end.

Definition ipc_error_text (e : IpcError) : string :=
  match e with
  | Io m => m
  | Protocol e => protocol_error_text e
  | Timeout => "IPC operation timed out"
  end.

Definition registry_error_text (e : RegistryError) : string :=
  match e with
  | RegStore m => m
  | RegUnknown id => "unknown watcher " +:+ id
  | RegIdCollision id => "watcher ID collision: " +:+ id
  | RegRevisionOverflow id => "watcher revision overflow: " +:+ id
  | RegCorrupt why => "corrupt watcher registry quarantined at " +:+ why
  end.

(** ** Validation *)
Definition request_has_empty_target (r : Request) : bool :=
  match r with
  | Request.Status id | Request.Stop id _ =>
      match id with Some id => is_empty id | None => false end
  | Request.Pause id | Request.Resume id | Request.WakeObservation id _ => is_empty id
  | Request.ListWatchers | Request.Register _ | Request.Shutdown => false
  end.

Definition validation_error (r : Request) : option Response :=
  if request_has_empty_target r
  then Some (Response.Error "invalid_target" "target ID must not be empty")
  else
    match r with
    | Request.Stop None false =>
        Some (Response.Error "invalid_request" "stop requires a watcher ID or --all")
    | _ => None
    end.

(** ** Handling *)

(** The disk and the clock while one request is handled. *)
Record Env : Type := mkEnv {
  env_write : string → WriteOutcome;
  env_now : string → Z;
}.

(** A handler's outcome; [Panicked] is a failed [expect]. *)
Inductive Handled : Type :=
| Done (r : result RegistryError Response)
| Panicked.

Definition stop_reason : WatcherLifecycle := Lifecycle.Stopped "requested".

(** [ids.into_iter().try_for_each(..)]. *)
Fixpoint stop_each (env : Env) (ids : list string) (reg : Registry)
    : Registry * result RegistryError unit :=
  match ids with
  | [] => (reg, Ok tt)
  | id :: ids =>
      match reg_transition (env_write env id) id stop_reason (env_now env id) reg with
      | (reg, Ok _) => stop_each env ids reg
      | (reg, Err e) => (reg, Err e)
      end
  end.

Definition is_stopped (l : WatcherLifecycle) : bool :=
  match l with Lifecycle.Stopped _ => true | _ => false end.

(** The [Stop] events sent for every stopped watcher. *)
Definition stop_events (reg : Registry) : list SchedulerEvent :=
  SEvent.Stop ∘ ws_id <$> List.filter (λ w, is_stopped (lifecycle w)) (reg_list reg).

(** Pause and resume: transition, notify the scheduler, answer with the watcher. *)
Definition shift (env : Env) (id : string) (l : WatcherLifecycle) (e : SchedulerEvent)
    (reg : Registry) : Registry * list SchedulerEvent * Handled :=
  match reg_transition (env_write env id) id l (env_now env id) reg with
  | (reg, Err err) => (reg, [], Done (Err err))
  | (reg, Ok _) =>
      match reg_get reg id with
      | Some w => (reg, [e], Done (Ok (Response.Updated w)))
      | None => (reg, [e], Panicked)
      end
  end.

Definition handle_request (env : Env) (r : Request) (reg : Registry)
    : Registry * list SchedulerEvent * Handled :=
  match r with
  | Request.Status id =>
      (reg, [], Done (Ok (Response.Status true
        (match id with None => reg_list reg | Some id => option_list (reg_get reg id) end))))
  | Request.ListWatchers => (reg, [], Done (Ok (Response.Watchers (reg_list reg))))
  | Request.WakeObservation id fingerprint =>
      match wake_observation (env_write env id) id fingerprint (env_now env id) reg with
      | (reg, Ok _) => (reg, [], Done (Ok Response.Acknowledged))
      | (reg, Err e) => (reg, [], Done (Err e))
      end
  | Request.Register w =>
      match register (env_write env (ws_id w)) w reg with
      | (reg, Err e) => (reg, [], Done (Err e))
      | (reg, Ok (Registration.Added id)) =>
          (reg, [SEvent.Register id], Done (Ok (Response.Registered id false)))
      | (reg, Ok (Registration.Existing id)) => (reg, [], Done (Ok (Response.Registered id true)))
      | (reg, Ok (Registration.Revalidated id)) =>
          (reg, [SEvent.Resume id], Done (Ok (Response.Registered id true)))
      end
  | Request.Stop id all =>
      let ids := if all : bool then ws_id <$> reg_list reg else option_list id in
      let '(reg, r) := stop_each env ids reg in
      (reg, stop_events reg, Done (let? _ := r in Ok Response.Stopped))
  | Request.Pause id => shift env id Lifecycle.Paused (SEvent.Pause id) reg
  | Request.Resume id => shift env id Lifecycle.Observing (SEvent.Resume id) reg
  | Request.Shutdown => (reg, [], Done (Ok Response.Stopped))
  end.

(** What a connection ends with. *)
Inductive Served : Type :=
| Denied
| Answered (r : Response)
| ShutdownAsked
| Aborted.

Definition service_connection (peer : result string Z) (owner : Z) (request : result IpcError Request)
    (env : Env) (reg : Registry) : Registry * list SchedulerEvent * Served :=
  match peer with
  | Err _ => (reg, [], Denied)
  | Ok uid =>
      if negb (uid =? owner) then (reg, [], Denied)
      else
        match request with
        | Err e => (reg, [], Answered (Response.Error "invalid_request" (ipc_error_text e)))
        | Ok r =>
            match validation_error r, r with
            | Some response, _ => (reg, [], Answered response)
            | None, Request.Shutdown => (reg, [], ShutdownAsked)
            | None, _ =>
                match handle_request env r reg with
                | (reg, es, Done (Ok response)) => (reg, es, Answered response)
                | (reg, es, Done (Err e)) =>
                    (reg, es, Answered (Response.Error "daemon_error" (registry_error_text e)))
                | (reg, es, Panicked) => (reg, es, Aborted)
                end
            end
        end
  end.

(** [request_shutdown]: the coordinator may be gone, or drop the acknowledgement. *)
Definition request_shutdown (sent acknowledged : bool) : option Response :=
  if negb sent
  then Some (Response.Error "daemon_stopping" "daemon shutdown coordinator is unavailable")
  else if negb acknowledged then None else Some Response.Stopped.

(** ** The registry operations behind a request *)
Definition stop_op (env : Env) (id : string) : RegOp * WriteOutcome :=
  (RegTransition id stop_reason (env_now env id), env_write env id).

(** The operations a request performs on the registry, in order. *)
Definition request_ops (env : Env) (r : Request) (reg : Registry) : list (RegOp * WriteOutcome) :=
  match r with
  | Request.WakeObservation id fp => [(RegWake id fp (env_now env id), env_write env id)]
  | Request.Register w => [(RegRegister w, env_write env (ws_id w))]
  | Request.Pause id => [(RegTransition id Lifecycle.Paused (env_now env id), env_write env id)]
  | Request.Resume id => [(RegTransition id Lifecycle.Observing (env_now env id), env_write env id)]
  | Request.Stop id all =>
      stop_op env <$> (if all : bool then ws_id <$> reg_list reg else option_list id)
  | _ => []
  end.

Lemma reg_transition_Ok wo id l now reg reg' :
  reg_transition wo id l now reg = (reg', Ok tt) →
  ∃ w w', watchers reg !! id = Some w ∧ watchers reg' = <[id := w']> (watchers reg)
    ∧ lifecycle w' = l ∧ ws_id w' = ws_id w ∧ target w' = target w.
Proof.
  unfold reg_transition. destruct (edit_watcher _ _ _ _ _) as [reg1 r1] eqn:Ed.
  apply edit_watcher_spec in Ed; [|tame_tac]. destruct r1 as [[]|]; [|done].
  destruct Ed as (w & w1 & Hw & [= <-] & (_ & Hm & _ & _ & Hid & _) & _). intros [= <-].
  destruct (audit_lifecycle_frame id (λ w, lifecycle_message (lifecycle w)) reg1) as [-> _].
  exists w. eexists. split_and!; [done|exact Hm|done|done|done].
Qed.

Lemma reg_transition_Err wo id l now reg reg' e :
  reg_transition wo id l now reg = (reg', Err e) → unchanged reg reg'.
Proof. intros H. by apply (transition_step (RegTransition id l now)) in H. Qed.

(** [stop_each] performs a prefix of its transitions and stops at the first failure. *)
Lemma stop_each_ops env ids reg :
  ∃ n, (stop_each env ids reg).1 = reg_run (take n (stop_op env <$> ids)) reg.
Proof.
  revert reg. induction ids as [|id ids IH]; intros reg; [by exists 0%nat|]. cbn [stop_each].
  destruct (reg_transition _ _ _ _ _) as [reg1 [[]|e]] eqn:E.
  - destruct (IH reg1) as [n Hn]. exists (S n). rewrite Hn. cbn. unfold reg_step, forget.
    cbn. by rewrite E.
  - exists 1%nat. cbn. unfold reg_step, forget. cbn. by rewrite E.
Qed.

Lemma handle_request_ops env r reg :
  ∃ n, (handle_request env r reg).1.1 = reg_run (take n (request_ops env r reg)) reg.
Proof.
  destruct r as [id| |id all|id|id|id fp|w|]; cbn [handle_request request_ops];
    try (by exists 0%nat).
  - destruct (stop_each_ops env (if all then ws_id <$> reg_list reg else option_list id) reg) as [n Hn].
    exists n. rewrite <- Hn. by destruct (stop_each _ _ _).
  - exists 1%nat. unfold shift. cbn. unfold forget. destruct (reg_transition _ _ _ _ _) as [reg1 [[]|]]; [|done].
    by destruct (reg_get reg1 id).
  - exists 1%nat. unfold shift. cbn. unfold forget. destruct (reg_transition _ _ _ _ _) as [reg1 [[]|]]; [|done].
    by destruct (reg_get reg1 id).
  - exists 1%nat. cbn. unfold forget. by destruct (wake_observation _ _ _ _ _) as [reg1 [[]|]].
  - exists 1%nat. cbn. unfold forget. by destruct (register _ _ _) as [reg1 [[]|]].
Qed.

Lemma shift_no_panic env id l e reg : (shift env id l e reg).2 ≠ Panicked.
Proof.
  unfold shift. destruct (reg_transition _ _ _ _ _) as [reg1 [[]|]] eqn:E; [|done].
  apply reg_transition_Ok in E as (w & w' & _ & Hm & _). unfold reg_get. by rewrite Hm, lookup_insert_eq.
Qed.

Lemma handle_request_no_panic env r reg : (handle_request env r reg).2 ≠ Panicked.
Proof.
  destruct r; cbn; try done; try apply shift_no_panic.
  - by destruct (stop_each _ _ _).
  - by destruct (wake_observation _ _ _ _ _) as [? [|]].
  - by destruct (register _ _ _) as [? [[]|]].
Qed.
