(* ===== verification/Lifecycle.v ===== *)
(** * Process lifecycle monitoring (src/src/daemon/lifecycle.rs)

    Once per second the daemon checks the process of every live watcher, retargets a
    watcher whose agent was re-executed and terminates one whose process is gone.  The
    operating system answers per watcher ([insp id]), as does the disk ([env_write]). *)
From S2P Require Import Prelude Json Event Identity StateMachine State Store Process Registry.
From S2P Require Import RegistrySafety Scheduler IpcService.

Local Open Scope Z_scope.

Definition PROCESS_REEXEC_GRACE_MS : Z := 2000.

Abbreviation Monitors := (gmap string LifecycleMonitor).

(** The state a tick works on: registry, monitors, events sent to the scheduler. *)
Record Tick : Type := mkTick {
  tk_registry : Registry;
  tk_monitors : Monitors;
  tk_events : list SchedulerEvent;
}.

(** [monitors.entry(id).or_insert_with(..)]. *)
Definition monitor_for (w : WatcherState) (o : option LifecycleMonitor) : LifecycleMonitor :=
  default (with_reexec_grace (target_process (target w)) PROCESS_REEXEC_GRACE_MS) o.

(** The body of the loop for one watcher of the listing. *)
Definition monitor_one (insp : string → ProcessInspector) (env : Env) (now : Z) (s : Tick)
    (w : WatcherState) : Tick :=
  let '(mkTick reg mons es) := s in
  let id := ws_id w in
  if finished (lifecycle w) then mkTick reg (delete id mons) es
  else
    let '(m, decision) := monitor_observe (insp id) now (monitor_for w (mons !! id)) in
    match decision with
    | Alive | Grace => mkTick reg (<[id := m]> mons) es
    | ReexecAccepted i =>
        match retarget_process (env_write env id) id i now reg with
        | (reg, Ok _) => mkTick reg (<[id := commit_reexec i m]> mons) es
        | (reg, Err _) => mkTick reg (<[id := m]> mons) es
        end
    | Terminate =>
        match reg_transition (env_write env id) id Lifecycle.TargetTerminated now reg with
        | (reg, Ok _) => mkTick reg (delete id mons) (es ++ [SEvent.Stop id])
        | (reg, Err _) => mkTick reg (<[id := m]> mons) es
        end
    end.

Definition monitor_process_lifecycles (insp : string → ProcessInspector) (env : Env) (now : Z)
    (reg : Registry) (mons : Monitors) : Tick :=
  foldl (monitor_one insp env now) (mkTick reg mons []) (reg_list reg).

(** ** One watcher *)

(** What a tick did to one watcher, its monitor and the scheduler. *)
Definition tick_outcome (insp : ProcessInspector) (now : Z) (w : WatcherState)
    (o : option LifecycleMonitor) (w' : WatcherState) (o' : option LifecycleMonitor)
    (stopped : Prop) : Prop :=
  if finished (lifecycle w) then w' = w ∧ o' = None ∧ ¬ stopped
  else
    let '(m, decision) := monitor_observe insp now (monitor_for w o) in
    match decision with
    | Alive | Grace => w' = w ∧ o' = Some m ∧ ¬ stopped
    | ReexecAccepted i =>
        ¬ stopped ∧
        (w' = w ∧ o' = Some m
         ∨ target_process (target w') = i ∧ lifecycle w' = lifecycle w
           ∧ o' = Some (commit_reexec i m))
    | Terminate =>
        w' = w ∧ o' = Some m ∧ ¬ stopped
        ∨ lifecycle w' = Lifecycle.TargetTerminated ∧ target w' = target w ∧ o' = None ∧ stopped
    end.

Definition stops (id : string) (s : Tick) : Prop := SEvent.Stop id ∈ tk_events s.

Lemma retarget_process_Ok wo id p now reg reg' :
  retarget_process wo id p now reg = (reg', Ok tt) →
  ∃ w w', watchers reg !! id = Some w ∧ watchers reg' = <[id := w']> (watchers reg)
    ∧ target_process (target w') = p ∧ lifecycle w' = lifecycle w ∧ ws_id w' = ws_id w.
Proof.
  unfold retarget_process. intros He. apply edit_watcher_spec in He; [|tame_tac].
  destruct He as (w & w1 & Hw & [= <-] & (_ & Hm & _ & _ & Hid & _) & _).
  exists w. eexists. split_and!; [done|exact Hm|cbn; by destruct (target w)|done|done].
Qed.

Lemma retarget_process_Err wo id p now reg reg' e :
  retarget_process wo id p now reg = (reg', Err e) → unchanged reg reg'.
Proof. intros H. by apply retarget_step in H. Qed.

(** The loop body is local to its watcher and has the outcome above. *)
Definition local_at (id : string) (s s' : Tick) : Prop :=
  ∀ i, i ≠ id → watchers (tk_registry s') !! i = watchers (tk_registry s) !! i
    ∧ tk_monitors s' !! i = tk_monitors s !! i ∧ (stops i s' ↔ stops i s).

Lemma monitor_one_spec insp env now s w :
  watchers (tk_registry s) !! ws_id w = Some w → ¬ stops (ws_id w) s →
  let s' := monitor_one insp env now s w in
  local_at (ws_id w) s s'
  ∧ ∃ w', watchers (tk_registry s') !! ws_id w = Some w' ∧ ws_id w' = ws_id w
    ∧ tick_outcome (insp (ws_id w)) now w (tk_monitors s !! ws_id w) w'
        (tk_monitors s' !! ws_id w) (stops (ws_id w) s').
Proof.
  destruct s as [reg mons es]. unfold local_at, stops. cbn [tk_registry tk_monitors tk_events].
  intros Hw Hs. unfold monitor_one, tick_outcome. destruct (finished (lifecycle w)).
  { split; [intros; cbn; by rewrite lookup_delete_ne|]. exists w. cbn. by rewrite lookup_delete_eq. }
  destruct (monitor_observe _ _ _) as [m d].
  assert (∀ reg', watchers reg' = watchers reg →
    let s' := mkTick reg' (<[ws_id w := m]> mons) es in
    local_at (ws_id w) (mkTick reg mons es) s'
    ∧ watchers reg' !! ws_id w = Some w ∧ tk_monitors s' !! ws_id w = Some m) as Hstay.
  { intros reg' Hr. unfold local_at, stops. cbn. rewrite lookup_insert_eq, Hr.
    split; [intros i Hi; by rewrite lookup_insert_ne|done]. }
  destruct d as [| |i|].
  - destruct (Hstay reg eq_refl) as (H1 & H2 & H3). split; [exact H1|]. exists w. done.
  - destruct (Hstay reg eq_refl) as (H1 & H2 & H3). split; [exact H1|]. exists w. done.
  - destruct (retarget_process _ _ _ _ _) as [reg' [[]|e]] eqn:E.
    + apply retarget_process_Ok in E as (w0 & w' & Hw0 & Hm & Hp & Hl & Hi). simplify_eq.
      cbn. rewrite Hm, lookup_insert_eq, lookup_insert_eq.
      split; [intros i Hne; by rewrite !lookup_insert_ne|]. exists w'. auto 10.
    + apply retarget_process_Err in E as [Hr _].
      destruct (Hstay reg' Hr) as (H1 & H2 & H3). split; [exact H1|]. exists w. auto 10.
  - destruct (reg_transition _ _ _ _ _) as [reg' [[]|e]] eqn:E.
    + apply reg_transition_Ok in E as (w0 & w' & Hw0 & Hm & Hp & Hl & Hi). simplify_eq.
      cbn. rewrite Hm, lookup_insert_eq, lookup_delete_eq. split.
      { intros i Hne. rewrite lookup_insert_ne, lookup_delete_ne by done.
        split_and!; [done|done|]. rewrite elem_of_app, list_elem_of_singleton. naive_solver. }
      exists w'. split_and!; [done|done|]. right. rewrite elem_of_app, list_elem_of_singleton. auto.
    + apply reg_transition_Err in E as [Hr _].
      destruct (Hstay reg' Hr) as (H1 & H2 & H3). split; [exact H1|]. exists w. auto 10.
Qed.

Lemma tick_fold insp env now l s :
  NoDup (ws_id <$> l) →
  (∀ w, w ∈ l → watchers (tk_registry s) !! ws_id w = Some w ∧ ¬ stops (ws_id w) s) →
  let s' := foldl (monitor_one insp env now) s l in
  (∀ w, w ∈ l → ∃ w', watchers (tk_registry s') !! ws_id w = Some w' ∧ ws_id w' = ws_id w
     ∧ tick_outcome (insp (ws_id w)) now w (tk_monitors s !! ws_id w) w'
         (tk_monitors s' !! ws_id w) (stops (ws_id w) s'))
  ∧ (∀ i, i ∉ ws_id <$> l → watchers (tk_registry s') !! i = watchers (tk_registry s) !! i
       ∧ tk_monitors s' !! i = tk_monitors s !! i ∧ (stops i s' ↔ stops i s)).
Proof.
  revert s. induction l as [|w l IH]; intros s Hnd Hl; [cbn; split; [set_solver|done]|].
  cbn in Hnd. apply NoDup_cons in Hnd as [Hw Hnd].
  destruct (Hl w) as [Hlw Hlo]; [by left|].
  destruct (monitor_one_spec insp env now s w Hlw Hlo) as [Hloc (w1 & Hw1 & Hid & Hout)].
  cbn [foldl]. set (s1 := monitor_one insp env now s w) in *.
  assert (∀ x, x ∈ l → ws_id x ≠ ws_id w) as Hne.
  { intros x Hx He. apply Hw. rewrite <- He. by apply list_elem_of_fmap_2. }
  destruct (IH s1 Hnd) as [IHin IHout].
  { intros x Hx. destruct (Hloc (ws_id x) (Hne x Hx)) as (-> & _ & ->). apply Hl. by right. }
  split.
  - intros x [->|Hx]%elem_of_cons.
    + destruct (IHout (ws_id w)) as (-> & -> & Hst); [done|]. exists w1. split_and!; [done|done|].
      unfold tick_outcome in *. destruct (finished (lifecycle w)); [naive_solver|].
      destruct (monitor_observe _ _ _) as [m []]; naive_solver.
    + destruct (IHin x Hx) as (w' & H1 & H2 & H3). exists w'. split_and!; [done|done|].
      by destruct (Hloc (ws_id x) (Hne x Hx)) as (_ & <- & _).
  - intros i Hi. rewrite fmap_cons, not_elem_of_cons in Hi. destruct Hi as [Hi1 Hi2].
    destruct (IHout i Hi2) as (-> & -> & ->). by apply Hloc.
Qed.

(** The outcome of a tick for every watcher. *)
Lemma tick_spec insp env now reg mons :
  keyed reg →
  let s' := monitor_process_lifecycles insp env now reg mons in
  keyed (tk_registry s')
  ∧ ∀ id, match watchers reg !! id with
    | Some w => ∃ w', watchers (tk_registry s') !! id = Some w'
        ∧ tick_outcome (insp id) now w (mons !! id) w' (tk_monitors s' !! id) (stops id s')
    | None => watchers (tk_registry s') !! id = None ∧ tk_monitors s' !! id = mons !! id
        ∧ ¬ stops id s'
    end.
Proof.
  intros Hk. cbn zeta. unfold monitor_process_lifecycles.
  assert (∀ w, w ∈ reg_list reg ↔ watchers reg !! ws_id w = Some w) as Hin.
  { intros w. unfold reg_list. rewrite elem_of_btree_values. split; [|by eauto].
    intros [k Hw]. by rewrite (Hk _ _ Hw). }
  destruct (tick_fold insp env now (reg_list reg) (mkTick reg mons [])) as [H1 H2].
  { rewrite btree_values_ids by done. apply btree_entries_NoDup. }
  { intros w Hw%Hin. split; [done|]. unfold stops. set_solver. }
  set (s' := foldl _ _ _) in *.
  assert (∀ id, match watchers reg !! id with
    | Some w => ∃ w', watchers (tk_registry s') !! id = Some w' ∧ ws_id w' = id
        ∧ tick_outcome (insp id) now w (mons !! id) w' (tk_monitors s' !! id) (stops id s')
    | None => watchers (tk_registry s') !! id = None ∧ tk_monitors s' !! id = mons !! id
        ∧ ¬ stops id s'
    end) as Hall.
  { intros id. destruct (watchers reg !! id) as [w|] eqn:Hw.
    - pose proof (Hk _ _ Hw) as <-. by apply H1, Hin.
    - destruct (H2 id) as (Ha & Hb & Hc).
      { intros (w & -> & Hx%Hin)%list_elem_of_fmap. congruence. }
      rewrite Ha, Hb, Hc. split_and!; [done|done|]. unfold stops. set_solver. }
  split.
  - intros id w Hw. specialize (Hall id). destruct (watchers reg !! id); [naive_solver|].
    destruct Hall as [Hn _]. congruence.
  - intros id. specialize (Hall id). destruct (watchers reg !! id); naive_solver.
Qed.

(** ** Interleavings of ticks and registry operations *)
Inductive LStep : Type :=
| LOp (op : RegOp) (wo : WriteOutcome)
| LTick (insp : string → ProcessInspector) (env : Env) (now : Z).

Definition lstep (s : Registry * Monitors) (x : LStep) : Registry * Monitors :=
  match x with
  | LOp op wo => ((reg_step op wo s.1).1, s.2)
  | LTick insp env now =>
      let t := monitor_process_lifecycles insp env now s.1 s.2 in (tk_registry t, tk_monitors t)
  end.
Definition lrun (xs : list LStep) (s : Registry * Monitors) : Registry * Monitors := foldl lstep s xs.

(** The monitor task is the only caller of [retarget_process]. *)
Definition leaves_target (x : LStep) : bool :=
  match x with LOp (RegRetarget _ _ _) _ => false | _ => true end.

(** Every monitor follows the process its watcher is bound to. *)
Definition tracks (reg : Registry) (mons : Monitors) : Prop :=
  ∀ id m, mons !! id = Some m →
    grace_ms m = PROCESS_REEXEC_GRACE_MS
    ∧ ∃ w, watchers reg !! id = Some w
        ∧ same_process (lm_identity m) (target_process (target w)) = true.

Lemma monitor_observe_frame insp now m m' d :
  monitor_observe insp now m = (m', d) →
  lm_identity m' = lm_identity m ∧ grace_ms m' = grace_ms m.
Proof.
  unfold monitor_observe, observe_missing.
  repeat match goal with |- context [match ?x with _ => _ end] => destruct x end; naive_solver.
Qed.

Lemma op_tracks op wo reg mons :
  leaves_target (LOp op wo) = true → keyed reg → tracks reg mons → tracks (reg_step op wo reg).1 mons.
Proof.
  intros Hop Hk Ht id m Hm. destruct (Ht id m Hm) as (Hg & w & Hw & Hs). split; [done|].
  destruct (reg_step op wo reg) as [reg' ok] eqn:E. apply reg_step_spec in E; [|done]. cbn [fst].
  destruct ok; [|destruct E as [-> _]; eauto].
  destruct E as [->|[(i & v & v' & (Hv & Hmap & _) & Hp)|(v & _ & Hn & Hmap & _)]]; [eauto|..];
    rewrite Hmap.
  - destruct (decide (i = id)) as [->|Hne]; [|rewrite lookup_insert_ne by done; eauto].
    rewrite lookup_insert_eq. exists v'. split; [done|]. simplify_eq.
    destruct Hp as [Hp|(p & now & -> & _)]; [|done]. by eapply same_process_trans.
  - rewrite lookup_insert_ne; [eauto|]. intros <-. congruence.
Qed.

Lemma monitor_for_tracks reg mons id w :
  tracks reg mons → watchers reg !! id = Some w →
  let m := monitor_for w (mons !! id) in
  grace_ms m = PROCESS_REEXEC_GRACE_MS
  ∧ same_process (lm_identity m) (target_process (target w)) = true.
Proof.
  intros Ht Hw. unfold monitor_for. destruct (mons !! id) as [m|] eqn:Hm; cbn [default].
  - destruct (Ht id m Hm) as (Hg & w' & Hw' & Hs). simplify_eq. done.
  - split; [done|]. apply same_process_refl.
Qed.

Lemma tick_tracks insp env now reg mons :
  keyed reg → tracks reg mons →
  let t := monitor_process_lifecycles insp env now reg mons in
  tracks (tk_registry t) (tk_monitors t).
Proof.
  intros Hk Ht t id m Hm. destruct (tick_spec insp env now reg mons Hk) as [_ Hs].
  specialize (Hs id). fold t in Hs. destruct (watchers reg !! id) as [w|] eqn:Hw.
  - destruct Hs as (w' & Hw' & Ho). rewrite Hw', Hm in *. unfold tick_outcome in Ho.
    destruct (finished (lifecycle w)); [naive_solver|].
    destruct (monitor_for_tracks reg mons id w Ht Hw) as [Hg Hp].
    destruct (monitor_observe _ _ _) as [m1 d] eqn:E.
    apply monitor_observe_frame in E as [Hi1 Hg1].
    assert (same_process (lm_identity m1) (target_process (target w)) = true) as Hs1
      by (by rewrite Hi1).
    assert (∀ v, Some v = Some w → m = m1 → grace_ms m = PROCESS_REEXEC_GRACE_MS
      ∧ ∃ w0, Some v = Some w0 ∧ same_process (lm_identity m) (target_process (target w0)) = true)
      as Hsame by (intros v [= ->] ->; split; [congruence|eauto]).
    destruct d as [| |i|].
    1,2: destruct Ho as (-> & [= ->] & _); by apply Hsame.
    2: { destruct Ho as [(-> & [= ->] & _)|(_ & _ & ? & _)]; [by apply Hsame|done]. }
    destruct Ho as [_ [[-> [= ->]]|(Ht' & _ & [= ->])]]; [split; [congruence|eauto]|].
    split; [cbn; congruence|]. exists w'. split; [done|]. cbn. rewrite Ht'. apply same_process_refl.
  - destruct Hs as (_ & Hm' & _). rewrite Hm in Hm'. symmetry in Hm'.
    destruct (Ht id m Hm') as (_ & w & Hw' & _). congruence.
Qed.

Lemma lrun_tracks xs reg mons :
  Forall (λ x, leaves_target x = true) xs → keyed reg → tracks reg mons →
  let s := lrun xs (reg, mons) in keyed s.1 ∧ tracks s.1 s.2.
Proof.
  revert reg mons. induction xs as [|x xs IH]; intros reg mons Hx Hk Ht; [done|].
  apply Forall_cons in Hx as [Hx Hxs]. cbn. destruct x as [op wo|insp env now]; cbn.
  - apply IH; [done|by apply step_keyed|by apply op_tracks].
  - apply IH; [done|by apply tick_spec|by apply tick_tracks].
Qed.

(** ** What a tick may conclude *)

(** The inspection shows that the process is not the monitored one any more. *)
Definition gone (insp : ProcessInspector) (now : Z) (p : Z) (m : LifecycleMonitor) : Prop :=
  match inspect insp p with
  | Ok r => pr_pid r ≠ p ∨ start_time (lm_identity m) ≠ pr_start_time r
            ∨ executable (lm_identity m) ≠ pr_executable r
  | Err (Disappeared _) =>
      ∃ since, missing_since m = Some since ∧ PROCESS_REEXEC_GRACE_MS < now - since
  | Err _ => True
  end.

(** The agent was re-executed: its pid disappeared and exactly one process on its
    terminal has the same owner, session and agent kind. *)
Definition reexecuted (insp : ProcessInspector) (p : Z) (m : LifecycleMonitor) (i : ProcessIdentity)
    : Prop :=
  (∃ q, inspect insp p = Err (Disappeared q))
  ∧ ∃ t ps r, tty (lm_identity m) = Some t ∧ processes_on_tty insp t = Ok ps
      ∧ List.filter (strong_reexec_match (lm_identity m)) ps = [r] ∧ i = record_identity r.

Lemma observe_terminate insp now m m' :
  grace_ms m = PROCESS_REEXEC_GRACE_MS → monitor_observe insp now m = (m', Terminate) →
  gone insp now (pid (lm_identity m)) m.
Proof.
  intros Hg. unfold monitor_observe, gone, observe_missing.
  destruct (inspect insp (pid (lm_identity m))) as [r|e].
  - destruct (Process.same_process (lm_identity m) r) eqn:E; [done|]. intros _.
    unfold Process.same_process in E. rewrite !andb_false_iff, !Z.eqb_neq in E.
    destruct E as [[E|E]|E]; [by left; congruence|by right; left|].
    right. right. by apply bool_decide_eq_false in E.
  - destruct e; try done. rewrite Hg. cbn [grace_ms]. rewrite (proj2 (Z.ltb_lt _ _)) by done.
    destruct (Z.ltb_spec PROCESS_REEXEC_GRACE_MS
                (saturating_sub now (default now (missing_since m)))) as [Hlt|].
    + intros _. unfold saturating_sub, PROCESS_REEXEC_GRACE_MS in *.
      destruct (missing_since m) as [s|]; cbn in Hlt; [|lia]. exists s. split; [done|lia].
    + repeat match goal with |- context [match ?x with _ => _ end] => destruct x end; done.
Qed.

Lemma observe_reexec insp now m m' i :
  monitor_observe insp now m = (m', ReexecAccepted i) → reexecuted insp (pid (lm_identity m)) m i.
Proof.
  unfold monitor_observe, observe_missing, reexecuted.
  destruct (inspect insp (pid (lm_identity m))) as [r|e]; [by destruct (Process.same_process _ _)|].
  destruct e; try done. destruct (_ <? _); [|done]. cbn [lm_identity].
  destruct (_ <? _); [done|]. destruct (tty (lm_identity m)) as [t|] eqn:Et; [|done].
  destruct (processes_on_tty insp t) as [ps|] eqn:Ep; [|done].
  destruct (List.filter _ ps) as [|r [|]] eqn:Ef; try done. intros [= <- <-]. eauto 12.
Qed.

(** The lifecycle monitor never mistakes a process.  Whatever registrations, other
    registry operations and earlier ticks came before, with whatever disk failures and
    inspection answers, a tick changes a watcher only on evidence about the very process
    the watcher is bound to: it terminates it when that pid shows a different process,
    cannot be inspected, or has been missing for longer than the grace, and then also
    removes it from the scheduler; it retargets it only to the unique process on its
    terminal that matches owner, session and agent, while the bound pid is missing. *)
Theorem lifecycle_tick_sound xs reg0 insp env now id w w' :
  keyed reg0 → Forall (λ x, leaves_target x = true) xs →
  let s := lrun xs (reg0, ∅) in
  let t := monitor_process_lifecycles insp env now s.1 s.2 in
  watchers s.1 !! id = Some w → watchers (tk_registry t) !! id = Some w' →
  (w' = w ∧ ¬ stops id t)
  ∨ ∃ m, grace_ms m = PROCESS_REEXEC_GRACE_MS
      ∧ same_process (lm_identity m) (target_process (target w)) = true
      ∧ finished (lifecycle w) = false
      ∧ (lifecycle w' = Lifecycle.TargetTerminated ∧ target w' = target w ∧ stops id t
         ∧ gone (insp id) now (pid (target_process (target w))) m
         ∨ lifecycle w' = lifecycle w ∧ ¬ stops id t
           ∧ reexecuted (insp id) (pid (target_process (target w))) m
               (target_process (target w'))).
Proof.
  intros Hk Hx s t Hw Hw'.
  destruct (lrun_tracks xs reg0 ∅ Hx Hk) as [Hk' Ht]; [intros ? ?; by rewrite lookup_empty|].
  fold s in Hk', Ht. destruct (tick_spec insp env now s.1 s.2 Hk') as [_ Hs].
  specialize (Hs id). fold t in Hs. rewrite Hw in Hs. destruct Hs as (v & Hv & Ho). simplify_eq.
  destruct (monitor_for_tracks s.1 s.2 id w Ht Hw) as [Hg Hp]. unfold tick_outcome in Ho.
  destruct (finished (lifecycle w)) eqn:Hf; [left; naive_solver|].
  destruct (monitor_observe _ _ _) as [m1 d] eqn:E.
  pose proof (proj1 (proj1 (same_process_iff _ _) Hp)) as Hpid.
  destruct d as [| |i|]; [left; naive_solver|left; naive_solver|..].
  - apply observe_reexec in E. destruct Ho as [Hst [[-> _]|(Hi & Hl & _)]]; [by left|].
    right. exists (monitor_for w (s.2 !! id)). rewrite <- Hpid, Hi. auto 10.
  - apply observe_terminate in E; [|done]. destruct Ho as [(-> & _ & Hst)|(Hl & Htg & _ & Hst)]; [by left|].
    right. exists (monitor_for w (s.2 !! id)). rewrite <- Hpid. auto 10.
Qed.

(** ** Concrete ticks *)
Definition agent_record (p start : Z) : ProcessRecord :=
  mkProcess p 1 start (Some "/usr/bin/claude") None (Some 1000) (Some 5) (Some 5) (Some "pts/1").
Definition agent_watcher (id : string) (p start : Z) : WatcherState :=
  watcher_new id (TProcess (record_identity (agent_record p start))) Lifecycle.Registered 0 0.
Definition agents_registry (l : list WatcherState) : Registry :=
  reg_run ((λ w, (RegRegister w, WriteOk)) <$> l) empty_registry.

(** An operating system with the given processes. *)
Definition running (ps : list ProcessRecord) : ProcessInspector := {|
  inspect p := ok_or (find_first (λ r, pr_pid r =? p) ps) (Disappeared p);
  processes_on_tty t := Ok (List.filter (λ r, opt_str_eqb (pr_tty r) (Some t)) ps);
|}.
Definition calm : Env := mkEnv (λ _, WriteOk) (λ _, 0).

Lemma lifecycle_tick_sound_witness :
  let t := monitor_process_lifecycles (λ _, running [agent_record 7 99]) calm 50
             (agents_registry [agent_watcher "w" 7 8]) ∅ in
  option_map lifecycle (watchers (tk_registry t) !! "w") = Some Lifecycle.TargetTerminated
  ∧ stops "w" t.
Proof.
  intros t. split; [vm_compute; reflexivity|].
  destruct (watchers (tk_registry t) !! "w") as [w'|] eqn:E; [|vm_compute in E; discriminate].
  destruct (lifecycle_tick_sound [] (agents_registry [agent_watcher "w" 7 8])
    (λ _, running [agent_record 7 99]) calm 50 "w" (agent_watcher "w" 7 8) w')
    as [[He _]|(m & _ & _ & _ & [(_ & _ & Hs & _)|(Hl & _)])].
  - apply run_keyed, empty_registry_keyed.
  - constructor.
  - vm_compute; reflexivity.
  - exact E.
  - exfalso. rewrite He in E. vm_compute in E. discriminate.
  - exact Hs.
  - exfalso. vm_compute in E. injection E as <-. vm_compute in Hl. discriminate.
Defined.

(** A re-executed agent may be matched to a process that another watcher already
    watches.  The match looks at terminal, owner, session and agent kind and
    [retarget_process] does not look at the other watchers, so one tick can bind two
    watchers to the same process, which registration always prevents. *)
Theorem reexec_duplicates_watched_process :
  let reg := agents_registry [agent_watcher "a" 7 8; agent_watcher "b" 9 10] in
  let t := monitor_process_lifecycles (λ _, running [agent_record 9 10]) calm 50 reg ∅ in
  keyed reg ∧ processes_unique reg
  ∧ (target_process ∘ target <$> watchers (tk_registry t) !! "a")
    = (target_process ∘ target <$> watchers (tk_registry t) !! "b")
  ∧ ¬ processes_unique (tk_registry t).
Proof.
  intros reg t. split; [apply run_keyed, empty_registry_keyed|]. split.
  { apply (run_unique _ empty_registry); [apply empty_registry_keyed|by repeat split|].
    intros i j wi wj Hi. cbn in Hi. by rewrite lookup_empty in Hi. }
  split; [vm_compute; reflexivity|]. intros Hu.
  destruct (watchers (tk_registry t) !! "a") as [wa|] eqn:Ea; [|vm_compute in Ea; done].
  destruct (watchers (tk_registry t) !! "b") as [wb|] eqn:Eb; [|vm_compute in Eb; done].
  specialize (Hu "a" "b" wa wb Ea Eb ltac:(done)).
  vm_compute in Ea, Eb. injection Ea as <-. injection Eb as <-. vm_compute in Hu. done.
Qed.

(** The grace period is not renewed: [observe] keeps [missing_since] when the process is
    seen alive again, so a later disappearance is timed from the earlier one and
    terminates the watcher at once. *)
Lemma grace_not_renewed m since insp1 t1 m1 insp2 t2 q :
  grace_ms m = PROCESS_REEXEC_GRACE_MS → missing_since m = Some since →
  monitor_observe insp1 t1 m = (m1, Alive) →
  inspect insp2 (pid (lm_identity m)) = Err (Disappeared q) →
  PROCESS_REEXEC_GRACE_MS < t2 - since →
  (monitor_observe insp2 t2 m1).2 = Terminate.
Proof.
  intros Hg Hm Ha Hi Ht. assert (m1 = m) as ->.
  { unfold monitor_observe, observe_missing in Ha.
    repeat match type of Ha with context [match ?x with _ => _ end] => destruct x end; congruence. }
  unfold monitor_observe, observe_missing. rewrite Hi, Hm. cbn [grace_ms default].
  rewrite Hg, (proj2 (Z.ltb_lt _ _)) by done.
  cbn [from_option id]. by rewrite (proj2 (Z.ltb_lt _ _)) by (unfold saturating_sub; lia).
Qed.
