(* ===== verification/Daemon.v ===== *)
(** * The daemon loop (src/src/daemon/mod.rs)

    How requests, lifecycle ticks, recovery and the scheduler fit together.  The loop of
    [run_with_components_and_clock] replaces a scheduler that returned while watchers
    were active or connections open; the lifecycle task keeps the handle it was started
    with. *)
From S2P Require Import Prelude Json Event Identity StateMachine State Store Process Registry.
From S2P Require Import RegistrySafety Ipc Scheduler IpcService Lifecycle.

Local Open Scope Z_scope.

(** [d_sched] is the map of the current scheduler once it has read what was sent to it;
    [d_stale] says that the lifecycle task's handle belongs to an earlier scheduler, whose
    receiver is gone, so that its events are dropped. *)
Record Daemon : Type := mkDaemon {
  d_registry : Registry;
  d_monitors : Monitors;
  d_sched : gmap string bool;
  d_stale : bool;
}.

Definition daemon_start (reg : Registry) : Daemon :=
  mkDaemon reg ∅ (sched_after (scheduler_from_registry reg) ∅) false.

Inductive DStep : Type :=
| DServe (peer : result string Z) (owner : Z) (request : result IpcError Request) (env : Env)
| DOther (op : RegOp) (wo : WriteOutcome)
| DTick (insp : string → ProcessInspector) (env : Env) (now : Z)
| DIdle (connections : nat).

(** The arm of the scheduler task: the daemon stops, or starts a new scheduler.  It is
    taken when the idle grace elapsed on an empty map. *)
Inductive LoopTurn : Type := Stops | Continues (d : Daemon).

Definition on_idle (stay_resident : bool) (connections : nat) (d : Daemon) : LoopTurn :=
  match (run_from stay_resident [GraceElapsed] (d_sched d)).1 with
  | Some _ => Continues d
  | None =>
      if negb (has_active_watchers (d_registry d)) && (connections =? 0)%nat then Stops
      else Continues (mkDaemon (d_registry d) (d_monitors d)
             (sched_after (scheduler_from_registry (d_registry d)) ∅) true)
  end.

Definition dstep (stay_resident : bool) (d : Daemon) (x : DStep) : LoopTurn :=
  match x with
  | DServe peer owner request env =>
      let '(reg, es, _) := service_connection peer owner request env (d_registry d) in
      Continues (mkDaemon reg (d_monitors d) (sched_after es (d_sched d)) (d_stale d))
  | DOther op wo =>
      Continues (mkDaemon (reg_step op wo (d_registry d)).1 (d_monitors d) (d_sched d) (d_stale d))
  | DTick insp env now =>
      let t := monitor_process_lifecycles insp env now (d_registry d) (d_monitors d) in
      Continues (mkDaemon (tk_registry t) (tk_monitors t)
        (if d_stale d then d_sched d else sched_after (tk_events t) (d_sched d)) (d_stale d))
  | DIdle connections => on_idle stay_resident connections d
  end.

(** [None] once the loop has ended. *)
Fixpoint drun (stay_resident : bool) (xs : list DStep) (d : Daemon) : option Daemon :=
  match xs with
  | [] => Some d
  | x :: xs =>
      match dstep stay_resident d x with
      | Stops => None
      | Continues d => drun stay_resident xs d
      end
  end.

(** ** Lifecycles under registry operations *)

(** An edit that does not finish a live watcher. *)
Definition keeps_live {A} (f : WatcherState → result RegistryError (WatcherState * A)) : Prop :=
  ∀ w w' a, f w = Ok (w', a) → finished (lifecycle w) = false → finished (lifecycle w') = false.

Definition live_at (reg : Registry) (id : string) : Prop :=
  ∃ w, watchers reg !! id = Some w ∧ finished (lifecycle w) = false.

Lemma live_insert reg reg' id i w' :
  watchers reg' = <[i := w']> (watchers reg) →
  (live_at reg i → finished (lifecycle w') = false) → live_at reg id → live_at reg' id.
Proof.
  intros Hm Hf Hl. unfold live_at in *. rewrite Hm. destruct (decide (i = id)) as [->|Hne].
  - rewrite lookup_insert_eq. eauto.
  - by rewrite lookup_insert_ne.
Qed.

Lemma live_unchanged reg reg' id : watchers reg' = watchers reg → live_at reg id → live_at reg' id.
Proof. unfold live_at. by intros ->. Qed.

Lemma edit_live {A} wo i now (f : WatcherState → result RegistryError (WatcherState * A)) reg reg' r id :
  tame f → keeps_live f → edit_watcher wo i now f reg = (reg', r) →
  live_at reg id → live_at reg' id.
Proof.
  intros Hf Hl He. apply edit_watcher_spec in He; [|done]. destruct r as [a|e].
  - destruct He as (w & w1 & Hw & Hfw & (_ & Hm & _) & _). eapply live_insert; [exact Hm|].
    cbn. intros (w2 & Hw2 & Hlive). simplify_eq. by eapply Hl.
  - apply live_unchanged, He.
Qed.

Lemma observe_machine_live m l s e m' l' :
  observe_machine m l s e = Ok (m', l') → l' = l ∨ l' = Lifecycle.Observing.
Proof.
  unfold observe_machine. intros ([m1 l1] & H1 & H)%rbind_Ok.
  apply rbind_Ok in H as (m2 & _ & H). apply rbind_Ok in H as (m3 & _ & [= <- <-]).
  destruct (bool_decide _); [|injection H1 as <- <-; by left].
  apply rbind_Ok in H1 as (m4 & _ & [= <- <-]). by right.
Qed.

Lemma observe_event_live w e w' :
  observe_event w e = Ok w' → finished (lifecycle w) = false → finished (lifecycle w') = false.
Proof.
  unfold observe_event. intros (w1 & H1 & [= <-])%rbind_Ok Hl. cbn.
  destruct (recovery w) as [m|]; [|by injection H1 as <-].
  apply rbind_Ok in H1 as ([m' l'] & Ho & [= <-]). cbn.
  by apply observe_machine_live in Ho as [->| ->].
Qed.

Lemma refreshed_live e f w :
  finished (lifecycle w) = false → finished (lifecycle (refreshed e f w)) = false.
Proof.
  intros. unfold refreshed. destruct (_ || _), (codex_session f), (claude_session f),
    (replay_revalidated e); done.
Qed.

Lemma refresh_live wo i f reg id :
  live_at reg id → live_at (refresh_existing wo i f reg).1 id.
Proof.
  intros Hl. unfold refresh_existing. destruct (watchers reg !! i) as [e|] eqn:He; [|done].
  destruct (attachments_conflict e f); [done|]. destruct (negb _ && _ && _); [done|].
  destruct (edit_watcher _ _ _ _ _) as [reg1 [[]|err]] eqn:Ed; cbn [fst].
  - destruct (audit_lifecycle_frame i (λ _, if process_promotion e f || attachment_upgrade e f
      then "watcher promoted" else "watcher resumed") reg1) as [Hm _].
    eapply live_unchanged; [exact Hm|]. eapply edit_live; [..|exact Ed|done].
    + intros w w' a [= <- <-]. by destruct (refreshed_frame e f w) as (? & ? & _).
    + intros w w' a [= <- <-]. by apply refreshed_live.
  - eapply edit_live; [..|exact Ed|done].
    + intros w w' a [= <- <-]. by destruct (refreshed_frame e f w) as (? & ? & _).
    + intros w w' a [= <- <-]. by apply refreshed_live.
Qed.

Lemma register_live wo w reg id :
  finished (lifecycle w) = false → live_at reg id → live_at (register wo w reg).1 id.
Proof.
  intros Hw Hl. unfold register. destruct (watchers reg !! ws_id w) eqn:Hi.
  { destruct (stable_target_eq _ _); [by apply refresh_live|done]. }
  destruct (find_first _ _) in |- *; [by apply refresh_live|].
  destruct (find_first _ _) as [e|] in |- *.
  { destruct (is_richer_target (target e) _); [by apply refresh_live|]. by destruct (is_richer_target _ _). }
  destruct (persist_and_swap _ _ _) as [reg1 [[]|err]] eqn:Ep; apply persist_and_swap_spec in Ep; cbn [fst].
  - destruct Ep as [Hm _].
    destruct (audit_lifecycle_frame (ws_id w) (λ _, "watcher registered") reg1) as [Ha _].
    eapply live_unchanged; [exact Ha|]. by eapply live_insert; [exact Hm|done|].
  - eapply live_unchanged; [apply Ep|done].
Qed.

Lemma transition_live wo i l now reg id :
  finished l = false → live_at reg id → live_at (reg_transition wo i l now reg).1 id.
Proof.
  intros Hl Hlive. destruct (reg_transition _ _ _ _ _) as [reg' [[]|e]] eqn:E; cbn.
  - apply reg_transition_Ok in E as (w & w' & _ & Hm & <- & _). by eapply live_insert.
  - apply reg_transition_Err in E as [Hm _]. by eapply live_unchanged.
Qed.

(** The operations the daemon performs outside requests and ticks finish no watcher,
    except through a lifecycle transition that says so. *)
Definition finishing (op : RegOp) : bool :=
  match op with
  | RegTransition _ l _ => finished l
  | RegRegister w => finished (lifecycle w)
  | _ => false
  end.

Lemma step_live op wo reg id :
  finishing op = false → live_at reg id → live_at (reg_step op wo reg).1 id.
Proof.
  intros Hop Hl. destruct op; unfold reg_step, forget; cbn [fst];
    try (by apply register_live); try (by apply transition_live).
  8: { unfold wake_observation. destruct (_ || _ || _); [done|].
       destruct (reg_get reg _); [|done]. destruct (wake_suppressed _ _ _); [done|].
       destruct (persist_observation_schedule _ _ _ _ _) eqn:E.
       eapply edit_live; [..|exact E|done]; [tame_tac|]. by intros ? ? ? [= <- <-]. }
  all: match goal with |- live_at (fst ?x) _ => destruct x as [reg' r] eqn:E end.
  all: eapply edit_live; [ | |exact E|done]; [tame_tac|].
  - by intros v v' a [= <- <-].
  - by intros v v' a [= <- <-].
  - intros v v' a. destruct (recovery v) as [m0|]; [|done]. cbn [ok_or rbind].
    by intros (m1 & _ & [= <- <-])%rbind_Ok.
  - by intros v v' a [= <- <-].
  - by intros v v' a [= <- <-].
  - intros v v' a [= <- <-]. by destruct e.
  - intros v v' a (w1 & H1 & [= <- <-])%rbind_Ok. destruct e as [e|]; [|by injection H1 as <-].
    intros Hv. eapply observe_event_live; [exact H1|done].
Qed.

(** ** Scheduled watchers are live *)
Definition covers (reg : Registry) (m : gmap string bool) : Prop :=
  ∀ id, is_Some (m !! id) → live_at reg id.

(** A history that never registers a watcher schedules only what was scheduled. *)
Definition registers (id : string) (e : SchedulerEvent) : Prop := e = SEvent.Register id.

Lemma told_Some id s e : is_Some (told id s e) → is_Some s ∨ registers id e.
Proof.
  unfold registers. destruct e as [i|i|i|i| |]; cbn; try (by left);
    destruct (String.eqb_spec i id) as [->|]; try (by left); try (by right);
    try (by intros []); by destruct s; left.
Qed.

Lemma sched_after_Some id es m :
  is_Some (sched_after es m !! id) → is_Some (m !! id) ∨ SEvent.Register id ∈ es.
Proof.
  rewrite sched_after_told. generalize (m !! id). induction es as [|e es IH]; intros s; cbn; [by left|].
  intros [H| ?]%IH; [|right; by right]. apply told_Some in H as [?|H]; [by left|].
  right. unfold registers in H. subst. by left.
Qed.

Lemma sched_after_stopped id es m :
  (∀ e, e ∈ es → ∃ i, e = SEvent.Stop i) → SEvent.Stop id ∈ es → sched_after es m !! id = None.
Proof.
  intros Hall Hin. rewrite sched_after_told.
  assert (∀ s, s = None ∨ SEvent.Stop id ∈ es → foldl (told id) s es = None) as H; [|auto].
  clear m Hin. induction es as [|e es IH]; intros s Hs; cbn.
  - destruct Hs as [->|Hs]; [done|by apply elem_of_nil in Hs].
  - destruct (Hall e) as [i ->]; [by left|]. apply IH; [intros; apply Hall; by right|]. cbn.
    destruct (String.eqb_spec i id) as [->|Hne]; [by left|]. destruct Hs as [->|Hs]; [by left|].
    apply elem_of_cons in Hs as [[= ?]|Hs]; [done|]. by right.
Qed.

Lemma covers_start reg : keyed reg → covers reg (sched_after (scheduler_from_registry reg) ∅).
Proof.
  intros Hk id. rewrite scheduler_from_registry_spec by done.
  destruct (watchers reg !! id) as [w|] eqn:Hw; cbn; [|by intros []].
  unfold lifecycle_schedule. destruct (finished (lifecycle w)) eqn:Hf; [by intros []|].
  intros _. by exists w.
Qed.

(** Stopping: a watcher is as before or stopped, and all of them are when it succeeds. *)
Definition stopped_at (reg : Registry) (id : string) : Prop :=
  ∃ w, watchers reg !! id = Some w ∧ lifecycle w = stop_reason.

Lemma stop_each_spec env ids reg reg' r :
  stop_each env ids reg = (reg', r) →
  (∀ id, watchers reg' !! id = watchers reg !! id ∨ stopped_at reg' id)
  ∧ (r = Ok tt → ∀ id, id ∈ ids → stopped_at reg' id).
Proof.
  revert reg. induction ids as [|i ids IH]; intros reg; cbn [stop_each].
  { intros [= <- <-]. split; [by left|]. intros _ id ?%elem_of_nil. done. }
  destruct (reg_transition _ _ _ _ _) as [reg1 [[]|e]] eqn:E.
  - apply reg_transition_Ok in E as (w & w' & _ & Hm & Hl & _). intros [H1 H2]%IH.
    assert (stopped_at reg' i) as Hi.
    { destruct (H1 i) as [He|?]; [|done]. exists w'. by rewrite He, Hm, lookup_insert_eq. }
    split.
    + intros id. destruct (decide (i = id)) as [->|Hne]; [by right|].
      destruct (H1 id) as [He|?]; [|by right]. left. by rewrite He, Hm, lookup_insert_ne.
    + intros Hr id [->|Hin]%elem_of_cons; [done|]. by apply H2.
  - apply reg_transition_Err in E as [Hm _]. intros [= <- <-]. split; [|done].
    intros id. left. by rewrite Hm.
Qed.

Lemma stop_each_keyed env ids reg : keyed reg → keyed (stop_each env ids reg).1.
Proof. intros Hk. destruct (stop_each_ops env ids reg) as [n ->]. by apply run_keyed. Qed.

Lemma elem_of_stop_events reg id : keyed reg →
  SEvent.Stop id ∈ stop_events reg ↔ ∃ w, watchers reg !! id = Some w ∧ is_stopped (lifecycle w) = true.
Proof.
  intros Hk. unfold stop_events. rewrite list_elem_of_fmap. setoid_rewrite list_elem_of_In.
  setoid_rewrite filter_In. setoid_rewrite <- list_elem_of_In. unfold reg_list.
  setoid_rewrite elem_of_btree_values. split.
  - intros (w & [= ->] & [k Hw] & Hs). exists w. by rewrite (Hk _ _ Hw).
  - intros (w & Hw & Hs). exists w. cbn. rewrite (Hk _ _ Hw). eauto.
Qed.

Lemma stop_events_stops reg e : e ∈ stop_events reg → ∃ i, e = SEvent.Stop i.
Proof. unfold stop_events. intros (w & -> & _)%list_elem_of_fmap. by eexists. Qed.

(** Events that only stop watchers, each of a watcher that is no longer live. *)
Lemma covers_stops reg reg' es m :
  covers reg m → (∀ e, e ∈ es → ∃ i, e = SEvent.Stop i) →
  (∀ id, live_at reg id → live_at reg' id ∨ SEvent.Stop id ∈ es) → covers reg' (sched_after es m).
Proof.
  intros Hc Hs Hl id Hin. pose proof Hin as [Hm|Hr]%sched_after_Some.
  - destruct (Hl id (Hc id Hm)) as [?|Hst]; [done|].
    rewrite sched_after_stopped in Hin by done. by destruct Hin.
  - apply Hs in Hr as [i ?]. done.
Qed.

Lemma covers_mono reg reg' es m :
  covers reg m → (∀ id, SEvent.Register id ∈ es → live_at reg' id) →
  (∀ id, live_at reg id → live_at reg' id) → covers reg' (sched_after es m).
Proof. intros Hc Hr Hl id [Hm|He]%sched_after_Some; [by apply Hl, Hc|by apply Hr]. Qed.

(** What clients send: a watcher is registered live. *)
Definition admits (r : Request) : bool :=
  match r with Request.Register w => negb (finished (lifecycle w)) | _ => true end.

Lemma shift_covers env i l e reg m :
  finished l = false → (∀ id, e ≠ SEvent.Register id) → covers reg m →
  let s := shift env i l e reg in covers s.1.1 (sched_after s.1.2 m).
Proof.
  intros Hl He Hc. pose proof (transition_live (env_write env i) i l (env_now env i) reg) as Ht.
  unfold shift. destruct (reg_transition _ _ _ _ _) as [reg1 [[]|err]]; cbn [fst snd] in *.
  - destruct (reg_get reg1 i); cbn [fst snd]; (apply (covers_mono reg); [done| |auto]);
      intros id ?%list_elem_of_singleton; by destruct (He id).
  - apply (covers_mono reg); [done| |auto]. intros id ?%elem_of_nil. done.
Qed.

Lemma handle_request_covers env r reg m :
  keyed reg → admits r = true → covers reg m →
  let s := handle_request env r reg in covers s.1.1 (sched_after s.1.2 m).
Proof.
  intros Hk Ha Hc. destruct r as [id| |id all|id|id|id fp|w|]; cbn [handle_request]; try done.
  - destruct (stop_each _ _ _) as [reg' r] eqn:E.
    pose proof (stop_each_keyed env (if all then ws_id <$> reg_list reg else option_list id) reg Hk) as Hk'.
    rewrite E in Hk'. apply stop_each_spec in E as [Hs _].
    apply (covers_stops reg); [done|apply stop_events_stops|].
    intros i (w & Hw & Hf). cbn in Hk'. destruct (Hs i) as [He|(w' & Hw' & Hl)].
    + left. exists w. split; [exact (eq_trans He Hw)|done].
    + right. apply elem_of_stop_events; [done|]. exists w'. split; [done|]. by rewrite Hl.
  - by apply shift_covers.
  - by apply shift_covers.
  - pose proof (step_live (RegWake id fp (env_now env id)) (env_write env id) reg) as Ht.
    unfold reg_step, forget in Ht. destruct (wake_observation _ _ _ _ _) as [reg1 [[]|]]; cbn [fst snd] in *;
      (apply (covers_mono reg); [done| |auto]); intros ? ?%elem_of_nil; done.
  - cbn in Ha. apply negb_true_iff in Ha.
    pose proof (register_live (env_write env (ws_id w)) w reg) as Ht.
    destruct (register _ _ _) as [reg1 [[i|i|i]|]] eqn:E; cbn [fst snd] in *;
      (apply (covers_mono reg); [done| |auto]); intros j Hj.
    + apply list_elem_of_singleton in Hj as [= ->]. apply register_added in E as [-> Hw].
      by exists w.
    + by apply elem_of_nil in Hj.
    + by apply list_elem_of_singleton in Hj.
    + by apply elem_of_nil in Hj.
Qed.

(** ** Ticks and service *)
Lemma monitor_one_events insp env now s w :
  ∃ es, tk_events (monitor_one insp env now s w) = tk_events s ++ es
    ∧ ∀ e, e ∈ es → ∃ i, e = SEvent.Stop i.
Proof.
  destruct s as [reg mons es]. unfold monitor_one.
  assert (∃ es', es = es ++ es' ∧ ∀ e, e ∈ es' → ∃ i, e = SEvent.Stop i) as Hnil.
  { exists []. split; [by rewrite app_nil_r|]. intros e ?%elem_of_nil. done. }
  destruct (finished (lifecycle w)); [done|]. destruct (monitor_observe _ _ _) as [m [| |i|]]; [done|done|..].
  - by destruct (retarget_process _ _ _ _ _) as [? [|]].
  - destruct (reg_transition _ _ _ _ _) as [? [|]]; [|done]. exists [SEvent.Stop (ws_id w)].
    split; [done|]. intros e ->%list_elem_of_singleton. by eexists.
Qed.

Lemma tick_events_stops insp env now reg mons e :
  e ∈ tk_events (monitor_process_lifecycles insp env now reg mons) → ∃ i, e = SEvent.Stop i.
Proof.
  unfold monitor_process_lifecycles.
  assert (∀ l s, (∀ e, e ∈ tk_events s → ∃ i, e = SEvent.Stop i) →
    e ∈ tk_events (foldl (monitor_one insp env now) s l) → ∃ i, e = SEvent.Stop i) as H.
  { intros l. induction l as [|w l IH]; intros s Hs; cbn; [apply Hs|]. apply IH.
    destruct (monitor_one_events insp env now s w) as (es & -> & Hes).
    intros e' [?|?]%elem_of_app; auto. }
  apply H. intros e' ?%elem_of_nil. done.
Qed.

Lemma tick_covers insp env now reg mons m :
  keyed reg → covers reg m →
  let t := monitor_process_lifecycles insp env now reg mons in
  covers (tk_registry t) (sched_after (tk_events t) m).
Proof.
  intros Hk Hc t. apply (covers_stops reg); [done|apply tick_events_stops|].
  intros id (w & Hw & Hf). destruct (tick_spec insp env now reg mons Hk) as [_ Hs].
  specialize (Hs id). rewrite Hw in Hs. fold t in Hs. destruct Hs as (w' & Hw' & Ho).
  unfold tick_outcome in Ho. rewrite Hf in Ho.
  assert (lifecycle w' = lifecycle w → live_at (tk_registry t) id) as Hlive
    by (intros He; exists w'; by rewrite He).
  destruct (monitor_observe _ _ _) as [m1 [| |i|]].
  - left. apply Hlive. by destruct Ho as [-> _].
  - left. apply Hlive. by destruct Ho as [-> _].
  - left. apply Hlive. by destruct Ho as [_ [[-> _]|(_ & ? & _)]].
  - destruct Ho as [[-> _]|(_ & _ & _ & Hst)]; [left; by apply Hlive|by right].
Qed.

Lemma service_keyed peer owner request env reg :
  keyed reg → keyed (service_connection peer owner request env reg).1.1.
Proof.
  intros Hk. unfold service_connection. destruct peer as [uid|]; [|done].
  destruct (negb (uid =? owner)); [done|]. destruct request as [r|]; [|done].
  destruct (validation_error r); [done|].
  assert (keyed (handle_request env r reg).1.1) as Hh.
  { destruct (handle_request_ops env r reg) as [n ->]. by apply run_keyed. }
  destruct r; try done; by destruct (handle_request _ _ _) as [[? ?] [[]|]].
Qed.

(** What a step of the daemon may contain: registrations of live watchers and, outside
    requests, operations that finish no watcher. *)
Definition daemon_step_ok (x : DStep) : bool :=
  match x with
  | DServe _ _ (Ok r) _ => admits r
  | DOther op _ => negb (finishing op)
  | _ => true
  end.

Lemma service_covers peer owner request env reg m :
  keyed reg → daemon_step_ok (DServe peer owner request env) = true → covers reg m →
  let s := service_connection peer owner request env reg in covers s.1.1 (sched_after s.1.2 m).
Proof.
  intros Hk Ha Hc. unfold service_connection. destruct peer as [uid|]; [|done].
  destruct (negb (uid =? owner)); [done|]. destruct request as [r|]; [|done].
  destruct (validation_error r); [done|]. cbn in Ha.
  pose proof (handle_request_covers env r reg m Hk Ha Hc) as Hh.
  destruct r; try done; by destruct (handle_request _ _ _) as [[? ?] [[]|]].
Qed.

Definition daemon_inv (d : Daemon) : Prop :=
  keyed (d_registry d) ∧ (d_stale d = false → covers (d_registry d) (d_sched d)).

Lemma dstep_inv stay d x d' :
  daemon_step_ok x = true → daemon_inv d → dstep stay d x = Continues d' → daemon_inv d'.
Proof.
  intros Hx [Hk Hc]. destruct x as [peer owner request env|op wo|insp env now|n]; cbn [dstep].
  - pose proof (service_keyed peer owner request env (d_registry d) Hk) as Hk'.
    pose proof (service_covers peer owner request env (d_registry d) (d_sched d) Hk Hx) as Hc'.
    destruct (service_connection _ _ _ _ _) as [[reg es] sv]. intros [= <-].
    split; [done|]. intros Hs. by apply Hc', Hc.
  - intros [= <-]. split; [by apply step_keyed|]. cbn. intros Hs id Hin.
    apply step_live; [by apply negb_true_iff|]. by apply Hc.
  - intros [= <-]. split; [by apply tick_spec|]. cbn. intros Hs. rewrite Hs. apply tick_covers; auto.
  - unfold on_idle. destruct (run_from _ _ _).1; [by intros [= <-]|].
    destruct (_ && _); [done|]. by intros [= <-].
Qed.

Lemma drun_inv stay xs d d' :
  Forall (λ x, daemon_step_ok x = true) xs → daemon_inv d → drun stay xs d = Some d' → daemon_inv d'.
Proof.
  revert d. induction xs as [|x xs IH]; intros d Hx Hd; cbn; [by intros [= <-]|].
  apply Forall_cons in Hx as [Hx Hxs]. destruct (dstep stay d x) as [|d1] eqn:E; [done|].
  apply IH; [done|]. by eapply dstep_inv.
Qed.

Lemma start_inv reg : keyed reg → daemon_inv (daemon_start reg).
Proof. intros Hk. split; [done|]. intros _. by apply covers_start. Qed.

Lemma on_idle_stops stay n d :
  on_idle stay n d = Stops → n = 0%nat ∧ stay = false ∧ ∀ id, ¬ live_at (d_registry d) id.
Proof.
  unfold on_idle. destruct (run_from _ _ _).1 eqn:Er; [done|].
  destruct (has_active_watchers (d_registry d)) eqn:Ha; [done|]. cbn.
  destruct (Nat.eqb_spec n 0) as [->|]; [|done]. intros _. split; [done|]. split.
  - cbn in Er. destruct stay; [|done]. by rewrite andb_false_r in Er.
  - intros id (w & Hw & Hf). apply not_true_iff_false in Ha. apply Ha, has_active_watchers_iff. eauto.
Qed.

(** The daemon stops exactly when there is nothing left to watch.  While the
    lifecycle task holds the current scheduler's handle, in every interleaving of
    requests (authenticated or not), lifecycle ticks, recovery and observation
    operations and disk failures, each scheduled watcher is a live watcher of the
    registry; so once every watcher is finished the next idle grace without open
    connections ends a non-resident daemon, and it never ends while a watcher is live. *)
Theorem daemon_stops_iff_nothing_live stay xs reg d n :
  keyed reg → Forall (λ x, daemon_step_ok x = true) xs →
  drun stay xs (daemon_start reg) = Some d → d_stale d = false →
  (∀ id, is_Some (d_sched d !! id) → live_at (d_registry d) id)
  ∧ (on_idle stay n d = Stops ↔ n = 0%nat ∧ stay = false ∧ ∀ id, ¬ live_at (d_registry d) id).
Proof.
  intros Hk Hx Hr Hs. destruct (drun_inv _ _ _ _ Hx (start_inv _ Hk) Hr) as [_ Hc].
  specialize (Hc Hs). split; [exact Hc|]. split; [apply on_idle_stops|].
  intros (-> & -> & Hl). unfold on_idle.
  assert (d_sched d = ∅) as ->.
  { apply map_empty. intros id. destruct (d_sched d !! id) eqn:E; [|done]. exfalso.
    apply (Hl id), Hc. by rewrite E. }
  cbn. destruct (has_active_watchers (d_registry d)) eqn:Ha; [|done].
  apply has_active_watchers_iff in Ha as (id & w & Hw & Hf). exfalso. apply (Hl id). by exists w.
Qed.

(** ** A replaced scheduler *)

(** Requests that make the scheduler forget watchers. *)
Definition is_stop_request (x : DStep) : bool :=
  match x with DServe _ _ (Ok (Request.Stop _ _)) _ => true | _ => false end.

Lemma told_keeps id s e : is_Some s → (∀ i, e ≠ SEvent.Stop i) → is_Some (told id s e).
Proof.
  intros [b ->] He. destruct e as [i|i|i|i| |]; cbn; try done; try (by destruct (He i));
    by destruct (String.eqb i id).
Qed.

Lemma sched_after_keeps id es m :
  is_Some (m !! id) → (∀ i, SEvent.Stop i ∉ es) → is_Some (sched_after es m !! id).
Proof.
  rewrite sched_after_told. generalize (m !! id). induction es as [|e es IH]; intros s Hs Hn; [done|].
  cbn. apply IH; [|intros i Hi; apply (Hn i); by right]. apply told_keeps; [done|].
  intros i ->. apply (Hn i). by left.
Qed.

Lemma handle_request_no_stop env r reg i :
  (∀ id all, r ≠ Request.Stop id all) → SEvent.Stop i ∉ (handle_request env r reg).1.2.
Proof.
  intros Hr. destruct r as [id| |id all|id|id|id fp|w|]; cbn [handle_request];
    try (by intros ?%elem_of_nil).
  - by destruct (Hr id all).
  - unfold shift. destruct (reg_transition _ _ _ _ _) as [reg1 [|]]; [destruct (reg_get reg1 id)|]; cbn; set_solver.
  - unfold shift. destruct (reg_transition _ _ _ _ _) as [reg1 [|]]; [destruct (reg_get reg1 id)|]; cbn; set_solver.
  - destruct (wake_observation _ _ _ _ _) as [? [|]]; cbn; set_solver.
  - destruct (register _ _ _) as [? [[]|]]; cbn; set_solver.
Qed.

Lemma service_no_stop peer owner request env reg i :
  is_stop_request (DServe peer owner request env) = false →
  SEvent.Stop i ∉ (service_connection peer owner request env reg).1.2.
Proof.
  intros Hx. unfold service_connection. destruct peer as [uid|]; [|apply not_elem_of_nil].
  destruct (negb (uid =? owner)); [apply not_elem_of_nil|].
  destruct request as [r|]; [|apply not_elem_of_nil].
  destruct (validation_error r); [apply not_elem_of_nil|].
  assert (SEvent.Stop i ∉ (handle_request env r reg).1.2) as Hh.
  { apply handle_request_no_stop. intros id all ->. done. }
  destruct r; try apply not_elem_of_nil; by destruct (handle_request _ _ _) as [[? ?] [[]|]].
Qed.

Lemma stale_keeps stay xs d d' id :
  d_stale d = true → is_Some (d_sched d !! id) → Forall (λ x, is_stop_request x = false) xs →
  drun stay xs d = Some d' → d_stale d' = true ∧ is_Some (d_sched d' !! id).
Proof.
  revert d. induction xs as [|x xs IH]; intros d Hs Hin Hx; cbn; [by intros [= <-]|].
  apply Forall_cons in Hx as [Hx Hxs]. destruct x as [peer owner request env|op wo|insp env now|n]; cbn [dstep].
  - pose proof (λ i, service_no_stop peer owner request env (d_registry d) i Hx) as Hn.
    destruct (service_connection _ _ _ _ _) as [[reg es] sv]. apply IH; [done| |done].
    by apply sched_after_keeps.
  - by apply IH.
  - apply IH; [done| |done]. cbn. by rewrite Hs.
  - unfold on_idle. cbn. rewrite bool_decide_eq_false_2; [by apply IH|].
    intros He. rewrite He, lookup_empty in Hin. by destruct Hin.
Qed.

Lemma stale_never_stops stay xs d id :
  d_stale d = true → is_Some (d_sched d !! id) → Forall (λ x, is_stop_request x = false) xs →
  drun stay xs d ≠ None.
Proof.
  intros Hs Hin Hx Hr.
  assert (∃ ys y d', Forall (λ x, is_stop_request x = false) ys ∧ drun stay ys d = Some d'
    ∧ dstep stay d' y = Stops) as (ys & y & d' & Hys & Hd & Hy).
  { clear Hin Hs. revert d Hr. induction xs as [|x xs IH]; intros d; cbn; [done|].
    apply Forall_cons in Hx as [Hx Hxs]. destruct (dstep stay d x) as [|d1] eqn:E.
    - intros _. by exists [], x, d.
    - intros Hr. destruct (IH Hxs d1 Hr) as (ys & y & d' & ? & ? & ?). exists (x :: ys), y, d'.
      cbn. rewrite E. auto using Forall_cons_2. }
  destruct (stale_keeps _ _ _ _ _ Hs Hin Hys Hd) as [_ Hin'].
  destruct y as [peer owner request env|op wo|insp env now|n]; cbn [dstep] in Hy; try done.
  - by destruct (service_connection _ _ _ _ _) as [[? ?] ?].
  - unfold on_idle in Hy. cbn in Hy. rewrite bool_decide_eq_false_2 in Hy; [done|].
    intros He. rewrite He, lookup_empty in Hin'. by destruct Hin'.
Qed.

Definition owner_request (r : Request) : DStep := DServe (Ok 1000) 1000 (Ok r) calm.

(** The idle grace elapses while a client is connected; a watcher is then registered and
    its process exits. *)
Definition stranded : list DStep :=
  [DIdle 1; owner_request (Request.Register (agent_watcher "w" 7 8));
   DTick (λ _, running [agent_record 7 99]) calm 50].

(** A daemon whose scheduler was replaced may never stop.  The lifecycle task keeps
    sending to the scheduler it was started with; in the run [stranded] every watcher has
    terminated, yet the current scheduler still holds one, and whatever follows, short of
    a stop request by the user, the daemon keeps running. *)
Theorem replaced_scheduler_never_stops :
  ∃ d, drun false stranded (daemon_start empty_registry) = Some d
    ∧ (∀ id, ¬ live_at (d_registry d) id)
    ∧ ∀ xs, Forall (λ x, is_stop_request x = false) xs → drun false xs d ≠ None.
Proof.
  destruct (drun false stranded (daemon_start empty_registry)) as [d|] eqn:E; [|vm_compute in E; done].
  exists d. split; [done|].
  assert (d_stale d = true ∧ d_sched d !! "w" = Some false
    ∧ has_active_watchers (d_registry d) = false) as (H1 & H2 & H3).
  { vm_compute in E. injection E as <-. split_and!; vm_compute; reflexivity. }
  split.
  - intros id (w & Hw & Hf). apply not_true_iff_false in H3. apply H3, has_active_watchers_iff. eauto.
  - intros xs Hxs. eapply (stale_never_stops _ _ _ "w"); [done|by rewrite H2|done].
Qed.

Lemma daemon_stops_iff_nothing_live_witness :
  let xs := tail stranded in
  ∃ d, drun false xs (daemon_start empty_registry) = Some d ∧ on_idle false 0 d = Stops.
Proof.
  intros xs. destruct (drun false xs (daemon_start empty_registry)) as [d|] eqn:E;
    [|vm_compute in E; discriminate].
  exists d. split; [reflexivity|].
  destruct (daemon_stops_iff_nothing_live false xs empty_registry d 0 empty_registry_keyed) as [_ H].
  - repeat constructor.
  - exact E.
  - vm_compute in E. injection E as <-. vm_compute. reflexivity.
  - apply H. split; [reflexivity|]. split; [reflexivity|]. intros id (w & Hw & Hf).
    assert (has_active_watchers (d_registry d) = false) as H3.
    { vm_compute in E. injection E as <-. vm_compute. reflexivity. }
    apply not_true_iff_false in H3. apply H3, has_active_watchers_iff. eauto.
Defined.

(** Only the owner's valid requests reach the registry.  A connection from another
    user, a frame that does not decode, a request without target and a shutdown request
    leave registry and scheduler alone; every other request performs its registry
    operations in order, up to the first failure, and handling never panics. *)
Theorem service_guarded peer owner request env reg :
  let '(reg', es, served) := service_connection peer owner request env reg in
  served ≠ Aborted ∧ (served = Denied ↔ peer ≠ Ok owner)
  ∧ (reg' = reg ∧ es = []
     ∨ ∃ r n, peer = Ok owner ∧ request = Ok r ∧ validation_error r = None
         ∧ r ≠ Request.Shutdown ∧ reg' = reg_run (take n (request_ops env r reg)) reg).
Proof.
  unfold service_connection. destruct peer as [uid|]; [|naive_solver].
  destruct (Z.eqb_spec uid owner) as [->|Hne]; cbn [negb]; [|naive_solver].
  destruct request as [r|]; [|naive_solver]. destruct (validation_error r) eqn:Ev; [naive_solver|].
  destruct (handle_request_ops env r reg) as [n Hn].
  pose proof (handle_request_no_panic env r reg) as Hp.
  destruct r; try naive_solver;
    destruct (handle_request _ _ _) as [[reg' es] [[]|]]; cbn in Hn, Hp; try done;
    (split; [done|]); (split; [naive_solver|]); right; eexists _, n; rewrite Hn; split_and!; done.
Qed.

(** Stopping all watchers stops all of them, or reports the failure. *)
Lemma stop_all_complete env reg reg' es :
  keyed reg → handle_request env (Request.Stop None true) reg = (reg', es, Done (Ok Response.Stopped)) →
  ∀ id, is_Some (watchers reg !! id) → stopped_at reg' id ∧ SEvent.Stop id ∈ es.
Proof.
  intros Hk. cbn [handle_request].
  pose proof (stop_each_keyed env (ws_id <$> reg_list reg) reg Hk) as Hk'.
  destruct (stop_each _ _ _) as [reg1 [[]|]] eqn:E; [|done]. intros [= <- <-] id [w Hw].
  apply stop_each_spec in E as [_ Hall]. destruct (Hall eq_refl id) as (w' & Hw' & Hl).
  { apply list_elem_of_fmap. exists w. split; [symmetry; by apply Hk|]. apply elem_of_btree_values. eauto. }
  split; [by exists w'|]. apply elem_of_stop_events; [done|]. exists w'. by rewrite Hl.
Qed.
