(* ===== verification/Jobs.v ===== *)
(** * Observation scheduling and recovery jobs (src/src/daemon/recovery_jobs.rs)

    The observation loop decides which watchers are due, observes them one after the
    other without holding the registry lock, commits each result and hands committed
    watchers to recovery workers.  [RecoverySupervisor] owns the workers; its threads are
    modelled by a step relation over the atomic accesses they make. *)
From S2P Require Import Prelude Json Event Identity StateMachine State Store Registry.
From S2P Require Import RegistrySafety Scheduler.

Local Open Scope Z_scope.

Record ObservationResult : Type := mkObservationResult {
  or_event : option Event;
  or_herdr_after_sequence : option Z;
}.

Definition NORMAL_INTERVAL_MS : Z := 60000.
Definition VERIFY_INTERVAL_MS : Z := 1000.

Definition recovery_observation_interval_ms (w : WatcherState) : Z :=
  match recovery w with
  | Some m => if bool_decide (state m = Recovery.Acting) then VERIFY_INTERVAL_MS else NORMAL_INTERVAL_MS
  | None => NORMAL_INTERVAL_MS
  end.

Definition observation_jitter_seconds (watcher_id : string) (interval_sequence : Z) : Z :=
  let hash := foldl (λ acc b, wrapping_add u64_max (wrapping_mul u64_max acc 109) (byte_val b))
                interval_sequence (bytes watcher_id) in
  hash mod 11 - 5.

(** ** Due watchers *)
Definition unobserved (l : WatcherLifecycle) : bool :=
  match l with
  | Lifecycle.Paused | Lifecycle.Stopped _ | Lifecycle.TargetTerminated => true
  | _ => false
  end.

Definition set_checked (s : ObservationSchedule) (last : option Z) (seq due : Z) : ObservationSchedule :=
  mkSchedule due last (event_wake_pending s) seq (last_wake_fingerprint s)
    (last_wake_completed_wall_ms s) (herdr_after_sequence s) (screen_fingerprint s)
    (screen_stable_count s).

Record DuePass : Type := mkDuePass {
  runtime_due : gmap string Z;
  due : list (WatcherState * ObservationSchedule);
}.

(** [*entry = entry.or_insert_with(..).min(mono + interval)]. *)
Definition due_mono (now mono : Z) (w : WatcherState) (o : option Z) : Z :=
  let d := default (saturating_add u64_max mono
             (Z.min (saturating_sub (next_due_wall_ms (observation_schedule w)) now) 65000)) o in
  Z.min d (saturating_add u64_max mono (recovery_observation_interval_ms w)).

Definition next_interval (w : WatcherState) (sequence : Z) : Z :=
  let interval := recovery_observation_interval_ms w in
  if interval <? 60000 then interval
  else Z.max (60000 + observation_jitter_seconds (ws_id w) sequence * 1000) 1.

(** The body of [for watcher in guard.list()]. *)
Definition due_one (now mono : Z) (p : DuePass) (w : WatcherState) : DuePass :=
  if unobserved (lifecycle w) then p
  else
    let s := observation_schedule w in
    let d := due_mono now mono w (runtime_due p !! ws_id w) in
    if event_wake_pending s || (d <=? mono) then
      let sequence := saturating_add u64_max (interval_sequence s) 1 in
      let next := next_interval w sequence in
      mkDuePass (<[ws_id w := saturating_add u64_max mono next]> (runtime_due p))
        (due p ++ [(w, set_checked s (Some now) sequence (saturating_add u64_max now next))])
    else mkDuePass (<[ws_id w := d]> (runtime_due p)) (due p).

Definition due_pass (now mono : Z) (reg : Registry) (timers : gmap string Z) : DuePass :=
  foldl (due_one now mono) (mkDuePass timers []) (reg_list reg).

(** ** Committing an observation *)
Definition set_screen (s : ObservationSchedule) (fp : option string) (n : Z) : ObservationSchedule :=
  mkSchedule (next_due_wall_ms s) (last_check_wall_ms s) (event_wake_pending s) (interval_sequence s)
    (last_wake_fingerprint s) (last_wake_completed_wall_ms s) (herdr_after_sequence s) fp n.

Definition set_herdr (s : ObservationSchedule) (n : Z) : ObservationSchedule :=
  mkSchedule (next_due_wall_ms s) (last_check_wall_ms s) (event_wake_pending s) (interval_sequence s)
    (last_wake_fingerprint s) (last_wake_completed_wall_ms s) n (screen_fingerprint s)
    (screen_stable_count s).

(** The screen debounce kept in the schedule. *)
Definition count_screen (s : ObservationSchedule) (e : Event) : ObservationSchedule :=
  if bool_decide (source_kind (source e) = Source.ScreenDetection) then
    if is_actionable (category e) then
      if opt_str_eqb (screen_fingerprint s) (Some (evidence_fingerprint e))
      then set_screen s (screen_fingerprint s) (saturating_add u8_max (screen_stable_count s) 1)
      else set_screen s (Some (evidence_fingerprint e)) 1
    else set_screen s None 0
  else s.

Definition observed_schedule (s : ObservationSchedule) (r : ObservationResult) : ObservationSchedule :=
  let s := match or_herdr_after_sequence r with Some n => set_herdr s n | None => s end in
  match or_event r with Some e => count_screen s e | None => s end.

(** [commit_and_schedule]: the registry it leaves and the watcher handed to a recovery
    worker ([with_recovery] says whether the loop has a recovery context). *)
Definition commit_and_schedule (wo : WriteOutcome) (with_recovery : bool) (now : Z)
    (w : WatcherState) (next : ObservationSchedule) (r : ObservationResult) (reg : Registry)
    : Registry * option WatcherState :=
  match commit_observation wo (ws_id w) (observed_schedule next r) (or_event r) now reg with
  | (reg, Err _) => (reg, None)
  | (reg, Ok _) => (reg, if with_recovery then reg_get reg (ws_id w) else None)
  end.

(** ** Cadence, proved *)
Lemma jitter_bounds id n : -5 ≤ observation_jitter_seconds id n ≤ 5.
Proof. unfold observation_jitter_seconds. pose proof (Z.mod_pos_bound) as H. dm_lia. Qed.

Lemma next_interval_bounds w n :
  0 < next_interval w n ≤ 65000
  ∧ (recovery_observation_interval_ms w = VERIFY_INTERVAL_MS → next_interval w n = VERIFY_INTERVAL_MS).
Proof.
  unfold next_interval, recovery_observation_interval_ms, VERIFY_INTERVAL_MS, NORMAL_INTERVAL_MS.
  pose proof (jitter_bounds (ws_id w) n).
  destruct (recovery w) as [m|]; [case_bool_decide|]; cbn; split; try done; lia.
Qed.

Lemma due_mono_bound now mono w o :
  due_mono now mono w o ≤ saturating_add u64_max mono 60000
  ∧ (∀ d, o = Some d → due_mono now mono w o ≤ d).
Proof.
  unfold due_mono, recovery_observation_interval_ms, saturating_add, VERIFY_INTERVAL_MS, NORMAL_INTERVAL_MS.
  split; [|intros d ->]; destruct (recovery w) as [m|]; try case_bool_decide; cbn; lia.
Qed.

(** What one pass does for one watcher of the listing. *)
Definition is_due (now mono : Z) (timers : gmap string Z) (w : WatcherState) : bool :=
  negb (unobserved (lifecycle w))
  && (event_wake_pending (observation_schedule w)
      || (due_mono now mono w (timers !! ws_id w) <=? mono)).

Lemma due_one_local now mono p w :
  let p' := due_one now mono p w in
  (∀ i, i ≠ ws_id w → runtime_due p' !! i = runtime_due p !! i)
  ∧ due p' = due p ++ (if is_due now mono (runtime_due p) w
       then [(w, let s := observation_schedule w in
                 let n := saturating_add u64_max (interval_sequence s) 1 in
                 set_checked s (Some now) n (saturating_add u64_max now (next_interval w n)))] else [])
  ∧ (unobserved (lifecycle w) = false →
       ∃ d, runtime_due p' !! ws_id w = Some d ∧ d ≤ mono + 65000
         ∧ (is_due now mono (runtime_due p) w = false →
            ∀ d0, runtime_due p !! ws_id w = Some d0 → d ≤ d0)).
Proof.
  unfold due_one, is_due. destruct (unobserved (lifecycle w)); cbn [negb andb].
  { by rewrite app_nil_r. }
  pose proof (due_mono_bound now mono w (runtime_due p !! ws_id w)) as [Hb Hm].
  destruct (_ || _); cbn [runtime_due due].
  - split; [intros; by rewrite lookup_insert_ne|]. split; [done|]. intros _. eexists.
    rewrite lookup_insert_eq. split; [done|]. split; [|done].
    pose proof (next_interval_bounds w
      (saturating_add u64_max (interval_sequence (observation_schedule w)) 1)) as [Hn _].
    unfold saturating_add in *. lia.
  - split; [intros; by rewrite lookup_insert_ne|]. split; [by rewrite app_nil_r|]. intros _. eexists.
    rewrite lookup_insert_eq. split; [done|]. split; [unfold saturating_add in *; lia|].
    intros _. apply Hm.
Qed.

Lemma due_fold now mono l p :
  NoDup (ws_id <$> l) →
  let p' := foldl (due_one now mono) p l in
  (∀ i, i ∉ ws_id <$> l → runtime_due p' !! i = runtime_due p !! i)
  ∧ (∀ x, x ∈ (due p').*1 ↔ x ∈ (due p).*1 ∨ x ∈ l ∧ is_due now mono (runtime_due p) x = true)
  ∧ (∀ w, w ∈ l → unobserved (lifecycle w) = false →
       ∃ d, runtime_due p' !! ws_id w = Some d ∧ d ≤ mono + 65000
         ∧ (is_due now mono (runtime_due p) w = false →
            ∀ d0, runtime_due p !! ws_id w = Some d0 → d ≤ d0)).
Proof.
  revert p. induction l as [|w l IH]; intros p Hnd; cbn [foldl]; [set_solver|].
  cbn in Hnd. apply NoDup_cons in Hnd as [Hw Hnd].
  destruct (due_one_local now mono p w) as (Hloc & Hdue & Htimer).
  destruct (IH (due_one now mono p w) Hnd) as (H1 & H2 & H3).
  assert (∀ x, x ∈ l → ws_id x ≠ ws_id w) as Hne.
  { intros x Hx He. apply Hw. rewrite <- He. by apply list_elem_of_fmap_2. }
  assert (∀ x, x ∈ l → is_due now mono (runtime_due (due_one now mono p w)) x
    = is_due now mono (runtime_due p) x) as Hsame.
  { intros x Hx. unfold is_due. by rewrite (Hloc (ws_id x)) by auto. }
  split_and!.
  - intros i Hi. rewrite fmap_cons, not_elem_of_cons in Hi. destruct Hi. rewrite H1 by done. by apply Hloc.
  - intros x. rewrite H2, Hdue, fmap_app, elem_of_app, elem_of_cons.
    destruct (is_due now mono (runtime_due p) w) eqn:Ew; cbn;
      rewrite ?list_elem_of_singleton, ?elem_of_nil; split.
    + intros [[Hx| ->]|[Hx Hd]]; [by left|by right; auto|]. right. rewrite <- Hsame by done. auto.
    + intros [Hx|[[->|Hx] Hd]]; [by left; left|by left; right|]. right. rewrite Hsame by done. auto.
    + intros [[Hx|[]]|[Hx Hd]]; [by left|]. right. rewrite <- Hsame by done. auto.
    + intros [Hx|[[->|Hx] Hd]]; [by left; left|congruence|]. right. rewrite Hsame by done. auto.
  - intros x [->|Hx]%elem_of_cons Hu.
    + rewrite H1 by done. by apply Htimer.
    + destruct (H3 x Hx Hu) as (d & Hd & Hle & Hmono). exists d. split; [done|]. split; [done|].
      rewrite <- Hsame by done. by rewrite <- (Hloc (ws_id x)) by auto.
Qed.

Lemma due_pass_spec now mono reg timers w :
  keyed reg → watchers reg !! ws_id w = Some w →
  let p := due_pass now mono reg timers in
  (w ∈ (due p).*1 ↔ is_due now mono timers w = true)
  ∧ (unobserved (lifecycle w) = false →
       ∃ d, runtime_due p !! ws_id w = Some d ∧ d ≤ mono + 65000
         ∧ (is_due now mono timers w = false → ∀ d0, timers !! ws_id w = Some d0 → d ≤ d0)).
Proof.
  intros Hk Hw. unfold due_pass.
  assert (w ∈ reg_list reg) as Hin by (apply elem_of_btree_values; eauto).
  destruct (due_fold now mono (reg_list reg) (mkDuePass timers [])) as (_ & H2 & H3).
  { rewrite btree_values_ids by done. apply btree_entries_NoDup. }
  split; [|by apply H3]. rewrite H2. cbn. split; [|by auto].
  intros [?%elem_of_nil|[_ ?]]; done.
Qed.

(** ** Repeated passes *)
Record Pass : Type := mkPass { ps_now : Z; ps_mono : Z; ps_registry : Registry }.

Fixpoint run_passes (ps : list Pass) (timers : gmap string Z) : list DuePass :=
  match ps with
  | [] => []
  | p :: ps =>
      let d := due_pass (ps_now p) (ps_mono p) (ps_registry p) timers in
      d :: run_passes ps (runtime_due d)
  end.

Definition observes (id : string) (d : DuePass) : Prop := id ∈ ws_id <$> (due d).*1.

(** The watcher exists and its lifecycle lets it be observed. *)
Definition watchable (id : string) (p : Pass) : Prop :=
  keyed (ps_registry p)
  ∧ ∃ w, watchers (ps_registry p) !! id = Some w ∧ unobserved (lifecycle w) = false.

Lemma observed_by T ps timers id d0 :
  timers !! id = Some d0 → d0 ≤ T → Forall (watchable id) ps →
  Exists (λ p, T ≤ ps_mono p) ps → Exists (observes id) (run_passes ps timers).
Proof.
  revert timers d0. induction ps as [|p ps IH]; intros timers d0 Ht Hle Hw Hx.
  { by apply Exists_nil in Hx. }
  apply Forall_cons in Hw as [(Hk & w & Hw & Hu) Hws]. pose proof (Hk _ _ Hw) as <-. cbn [run_passes].
  destruct (due_pass_spec (ps_now p) (ps_mono p) (ps_registry p) timers w Hk Hw) as [Hdue Htimer].
  destruct (is_due (ps_now p) (ps_mono p) timers w) eqn:Ed.
  - apply Exists_cons_hd. apply list_elem_of_fmap_2. by apply Hdue.
  - destruct (Htimer Hu) as (d & Hd & _ & Hmono). apply Exists_cons_tl.
    apply (IH _ d); [done|etrans; [by apply Hmono|done]|done|].
    apply Exists_cons in Hx as [Hx|Hx]; [|done]. exfalso. unfold is_due in Ed. rewrite Hu in Ed. cbn in Ed.
    apply orb_false_iff in Ed as [_ Ed%Z.leb_gt].
    pose proof (proj2 (due_mono_bound (ps_now p) (ps_mono p) w (timers !! ws_id w)) d0 Ht). lia.
Qed.

(** No live watcher is starved of observations.  Whatever the registry does between
    the passes of the loop (schedules rewritten, wall clock moved, recovery states
    changed), a watcher that stays observable is picked at least once in every window of
    65 seconds of monotonic time. *)
Theorem watcher_observed_within_65s id p0 ps timers :
  Forall (watchable id) (p0 :: ps) →
  Exists (λ p, ps_mono p0 + 65000 ≤ ps_mono p) ps →
  Exists (observes id) (tail (run_passes (p0 :: ps) timers)).
Proof.
  intros [(Hk & w & Hw & Hu) Hws]%Forall_cons Hx. pose proof (Hk _ _ Hw) as <-. cbn [run_passes tail].
  destruct (due_pass_spec (ps_now p0) (ps_mono p0) (ps_registry p0) timers w Hk Hw) as [_ Ht].
  destruct (Ht Hu) as (d & Hd & Hle & _). by eapply observed_by.
Qed.

(** ** Commits *)
Lemma commit_observation_spec wo id s e now reg reg' :
  commit_observation wo id s e now reg = (reg', Ok tt) →
  ∃ w w', watchers reg !! id = Some w ∧ watchers reg' !! id = Some w' ∧ written reg reg'
    ∧ observation_schedule w' = finish_wake s now ∧ revision w' = revision w + 1
    ∧ target w' = target w
    ∧ last_observation w' = match e with Some e => Some e | None => last_observation w end.
Proof.
  unfold commit_observation. intros Hc. apply edit_watcher_spec in Hc; [|tame_tac].
  destruct Hc as (w & w1 & Hw & Hf & (_ & Hmap & Hrev & _ & _ & Hwr) & _).
  exists w. eexists. rewrite Hmap, lookup_insert_eq. split; [done|]. split; [done|].
  apply rbind_Ok in Hf as (w2 & Ho & [= <-]). cbn in Hrev |- *.
  destruct e as [ev|]; [|injection Ho as <-; done].
  apply observe_event_frame in Ho as (_ & _ & Ht & Hs & Hl). by rewrite Hs, Hl, Ht.
Qed.

(** A recovery worker only ever sees a durably committed observation.  It is handed
    a watcher exactly when the commit succeeded: the watcher is the registry's current
    entry, the whole registry with it is on disk, and it carries the event that was
    observed; after a failed commit (unknown watcher, rejected transition, failed write)
    nothing is handed out and no watcher changed. *)
Theorem recovery_consumes_committed_observation wo now w next r reg :
  let '(reg', job) := commit_and_schedule wo true now w next r reg in
  match job with
  | Some current =>
      ws_id w ∈ dom (watchers reg) ∧ watchers reg' !! ws_id w = Some current
      ∧ (∃ file, reg_file reg' = Some file ∧ current ∈ persisted_watchers file)
      ∧ (∀ e, or_event r = Some e → last_observation current = Some e)
  | None => watchers reg' = watchers reg ∧ lifecycle_audit reg' = lifecycle_audit reg
  end.
Proof.
  unfold commit_and_schedule.
  destruct (commit_observation _ _ _ _ _ _) as [reg' [[]|e]] eqn:E.
  - apply commit_observation_spec in E as (w0 & w' & Hw & Hw' & Hwr & _ & _ & _ & Hl).
    unfold reg_get. rewrite Hw'. split_and!.
    + by apply elem_of_dom_2 in Hw.
    + done.
    + eexists. split; [exact Hwr|]. apply elem_of_btree_values. by eexists.
    + intros e He. by rewrite He in Hl.
  - unfold commit_observation in E. apply edit_watcher_spec in E; [|tame_tac]. exact E.
Qed.

Lemma due_pass_elem now mono reg timers w next :
  keyed reg → (w, next) ∈ due (due_pass now mono reg timers) →
  watchers reg !! ws_id w = Some w
  ∧ last_wake_fingerprint next = last_wake_fingerprint (observation_schedule w).
Proof.
  intros Hk Hin. unfold due_pass in Hin. split.
  - destruct (due_fold now mono (reg_list reg) (mkDuePass timers [])) as (_ & H2 & _).
    { rewrite btree_values_ids by done. apply btree_entries_NoDup. }
    destruct (proj1 (H2 w)) as [?%elem_of_nil|[Hw _]]; [by apply (list_elem_of_fmap_2 fst _ (w, next))|done|].
    apply elem_of_btree_values in Hw as [k Hw]. by rewrite (Hk _ _ Hw).
  - assert (∀ l p, (∀ x n, (x, n) ∈ due p →
        last_wake_fingerprint n = last_wake_fingerprint (observation_schedule x)) →
      (w, next) ∈ due (foldl (due_one now mono) p l) →
      last_wake_fingerprint next = last_wake_fingerprint (observation_schedule w)) as Hfold.
    { intros l. induction l as [|v l IH]; intros p Hp; cbn; [apply Hp|]. apply IH.
      intros x n. destruct (due_one_local now mono p v) as (_ & -> & _).
      intros [Hx|Hx]%elem_of_app; [by apply Hp|]. destruct (is_due _ _ _ v); [|by apply elem_of_nil in Hx].
      apply list_elem_of_singleton in Hx as [= -> ->]. done. }
    apply (Hfold (reg_list reg) (mkDuePass timers [])); [|exact Hin]. intros x n ?%elem_of_nil. done.
Qed.

Lemma observed_schedule_wake s r :
  last_wake_fingerprint (observed_schedule s r) = last_wake_fingerprint s.
Proof.
  unfold observed_schedule, count_screen. destruct (or_herdr_after_sequence r), (or_event r); try done;
    repeat case_bool; done.
Qed.

(** A wake that arrives while its watcher is being observed is lost.  The loop keeps
    the schedule it cloned before the observation and commits that clone.  A wake that
    was accepted and recorded as pending in between is overwritten: after the commit no
    wake is pending and the recorded fingerprint is the one before the wake, although
    the observation may have looked at the target before the event that caused it. *)
Theorem wake_during_observation_lost now mono reg timers w next fp t wo reg1 r wo2 t2 reg2 current :
  keyed reg → (w, next) ∈ due (due_pass now mono reg timers) →
  wake_suppressed (observation_schedule w) fp t = false →
  wake_observation wo (ws_id w) fp t reg = (reg1, Ok tt) →
  commit_and_schedule wo2 true t2 w next r reg1 = (reg2, Some current) →
  (∃ w1, reg_get reg1 (ws_id w) = Some w1 ∧ event_wake_pending (observation_schedule w1) = true
     ∧ last_wake_fingerprint (observation_schedule w1) = Some fp)
  ∧ event_wake_pending (observation_schedule current) = false
  ∧ last_wake_fingerprint (observation_schedule current)
    = last_wake_fingerprint (observation_schedule w).
Proof.
  intros Hk Hin Hs Hwake. destruct (due_pass_elem _ _ _ _ _ _ Hk Hin) as [Hw Hn].
  pose proof (wake_coalesced _ _ _ _ _ _ _ Hwake Hw) as Hc. rewrite Hs in Hc.
  destruct Hc as (w1 & Hw1 & _ & Hp & Hf & _). unfold commit_and_schedule.
  destruct (commit_observation _ _ _ _ _ _) as [reg' [[]|e]] eqn:E; [|done].
  apply commit_observation_spec in E as (w0 & w' & _ & Hw' & _ & Hs' & _). unfold reg_get. rewrite Hw'.
  intros [= <- <-]. split; [by exists w1|]. rewrite Hs'. rewrite <- Hn, <- (observed_schedule_wake next r).
  unfold finish_wake. by destruct (event_wake_pending (observed_schedule next r)).
Qed.

(** ** The recovery supervisor

    [schedule] holds the job lock while it checks [accepting] and pushes;
    [begin_shutdown] stores both flags without the lock; [wait_for_terminal_jobs] takes
    the job list under the lock and then awaits every job.  Each access is one step, so
    the relation covers all interleavings of any number of scheduling threads with one
    shutdown and with the workers' own progress. *)
Module Supervisor.
Inductive ThreadPc : Type :=
| Unlocked
| Locked
| Checked.

Inductive ShutdownPc : Type :=
| Running
| Refusing       (** [accepting] stored *)
| Cancelling     (** [cancellation] stored *)
| Awaiting (js : list nat)
| Finished.

Record Sup : Type := mkSup {
  accepting : bool;
  cancellation : bool;
  lock : option nat;
  jobs : list nat;
  threads : gmap nat ThreadPc;
  shutdown : ShutdownPc;
  started : gset nat;
  ended : gset nat;
}.

Definition initial (ts : gset nat) : Sup :=
  mkSup true false None [] (gset_to_gmap Unlocked ts) Running ∅ ∅.

Definition set_thread (s : Sup) (l : option nat) (t : nat) (pc : ThreadPc) : Sup :=
  mkSup (accepting s) (cancellation s) l (jobs s) (<[t := pc]> (threads s)) (shutdown s)
    (started s) (ended s).

Definition set_shutdown (s : Sup) (pc : ShutdownPc) : Sup :=
  mkSup (accepting s) (cancellation s) (lock s) (jobs s) (threads s) pc (started s) (ended s).

Inductive step (s : Sup) : Sup → Prop :=
| acquire t :
    threads s !! t = Some Unlocked → lock s = None → step s (set_thread s (Some t) t Locked)
| check_refused t :
    threads s !! t = Some Locked → accepting s = false →
    step s (set_thread s None t Unlocked)
| check_accepted t :
    threads s !! t = Some Locked → accepting s = true →
    step s (set_thread s (lock s) t Checked)
| push t j :
    (** [retain] keeps the unfinished jobs; the new one is spawned and pushed. *)
    threads s !! t = Some Checked → j ∉ started s →
    step s (mkSup (accepting s) (cancellation s) None
              (List.filter (λ i, negb (bool_decide (i ∈ ended s))) (jobs s) ++ [j])
              (<[t := Unlocked]> (threads s)) (shutdown s) ({[j]} ∪ started s) (ended s))
| job_ends j :
    j ∈ started s →
    step s (mkSup (accepting s) (cancellation s) (lock s) (jobs s) (threads s) (shutdown s)
              (started s) ({[j]} ∪ ended s))
| refuse :
    shutdown s = Running →
    step s (mkSup false (cancellation s) (lock s) (jobs s) (threads s) Refusing (started s) (ended s))
| cancel :
    shutdown s = Refusing →
    step s (mkSup (accepting s) true (lock s) (jobs s) (threads s) Cancelling (started s) (ended s))
| take_jobs :
    shutdown s = Cancelling → lock s = None →
    step s (mkSup (accepting s) (cancellation s) None [] (threads s) (Awaiting (jobs s))
              (started s) (ended s))
| await_job j js :
    shutdown s = Awaiting (j :: js) → j ∈ ended s → step s (set_shutdown s (Awaiting js))
| await_done :
    shutdown s = Awaiting [] → step s (set_shutdown s Finished).

Inductive reach (ts : gset nat) : Sup → Prop :=
| reach_init : reach ts (initial ts)
| reach_step s s' : reach ts s → step s s' → reach ts s'.

(** Who may still hold unfinished jobs, and what has been stored by then. *)
Definition owned (s : Sup) : list nat :=
  match shutdown s with Awaiting js => js ++ jobs s | _ => jobs s end.

Record inv (s : Sup) : Prop := {
  inv_owned : ∀ j, j ∈ started s → j ∈ ended s ∨ j ∈ owned s;
  inv_lock : ∀ t pc, threads s !! t = Some pc → pc ≠ Unlocked → lock s = Some t;
  inv_refusing : shutdown s ≠ Running → accepting s = false;
  inv_cancel : shutdown s ≠ Running → shutdown s ≠ Refusing → cancellation s = true;
  inv_taken : ∀ js, shutdown s = Awaiting js ∨ shutdown s = Finished →
    jobs s = [] ∧ ∀ t, threads s !! t ≠ Some Checked;
}.

Lemma inv_initial ts : inv (initial ts).
Proof.
  split; cbn; [set_solver| |done|done|by intros js []].
  intros t pc (_ & <-)%lookup_gset_to_gmap_Some. done.
Qed.

(** A thread moves between program points; only the lock and its own point change. *)
Lemma set_thread_inv s l t pc :
  inv s → (∀ t', t' ≠ t → threads s !! t' ≠ Some Locked ∧ threads s !! t' ≠ Some Checked) →
  (pc = Unlocked ∨ l = Some t) → (pc = Checked → accepting s = true) →
  inv (set_thread s l t pc).
Proof.
  intros [I1 I2 I3 I4 I5] Hothers Hl Hacc. split; cbn; try done.
  - intros t' pc' [[<- <-]|[Hne Ht]]%lookup_insert_Some Hpc; [by destruct Hl|].
    destruct (Hothers t' ltac:(done)). by destruct pc'.
  - intros js Hjs. destruct (I5 js Hjs) as [Hj Ht]. split; [done|]. intros t'.
    rewrite lookup_insert. case_decide; [|apply Ht]. intros [= ->].
    rewrite I3 in Hacc; [by specialize (Hacc eq_refl)|]. by destruct Hjs as [-> | ->].
Qed.

Lemma lock_excludes s t t' pc :
  inv s → threads s !! t = Some pc → pc ≠ Unlocked → t' ≠ t →
  threads s !! t' ≠ Some Locked ∧ threads s !! t' ≠ Some Checked.
Proof.
  intros Hi Ht Hpc Hne. pose proof (inv_lock _ Hi t pc Ht Hpc) as Hl.
  split; intros Ht'; pose proof (inv_lock _ Hi t' _ Ht' ltac:(done)); congruence.
Qed.

Lemma push_inv s t j :
  inv s → threads s !! t = Some Checked →
  inv (mkSup (accepting s) (cancellation s) None
         (List.filter (λ i, negb (bool_decide (i ∈ ended s))) (jobs s) ++ [j])
         (<[t := Unlocked]> (threads s)) (shutdown s) ({[j]} ∪ started s) (ended s)).
Proof.
  intros Hi Ht. pose proof (lock_excludes s t) as Hex. pose proof Hi as [I1 I2 I3 I4 I5].
  assert (∀ js, shutdown s ≠ Awaiting js ∧ shutdown s ≠ Finished) as Hnot.
  { intros js. split; intros Hs; destruct (I5 js) as [_ Hn]; auto; by apply (Hn t). }
  split; cbn; try done.
  - unfold owned. cbn. intros i Hin. destruct (decide (i ∈ ended s)) as [?|Hne]; [by left|]. right.
    assert (i ∈ List.filter (λ i, negb (bool_decide (i ∈ ended s))) (jobs s) ++ [j]) as Hi'.
    { apply elem_of_union in Hin as [->%elem_of_singleton|Hin]; [set_solver|].
      destruct (I1 i Hin) as [?|Hown]; [done|]. apply elem_of_app. left.
      apply list_elem_of_In, filter_In. rewrite bool_decide_eq_false_2 by done. split; [|done].
      apply list_elem_of_In. unfold owned in Hown. destruct (shutdown s) eqn:Es; try done.
      by destruct (Hnot js). }
    destruct (shutdown s) eqn:Es; try done. by destruct (Hnot js).
  - intros t' pc [[<- <-]|[Hne Ht']]%lookup_insert_Some Hpc; [done|].
    destruct (Hex t' Checked Hi Ht) as [? ?]; [done..|]. by destruct pc.
  - intros js []; by destruct (Hnot js).
Qed.

Lemma sup_step_inv s s' : inv s → step s s' → inv s'.
Proof.
  intros Hi Hs. pose proof Hi as [I1 I2 I3 I4 I5]. destruct Hs as [t Ht Hl|t Ht Ha|t Ht Ha|t j Ht Hj|j Hj|Hs|Hs|Hs Hl|j js Hs Hj|Hs].
  - apply set_thread_inv; [done| |by right|done]. intros t' Hne.
    split; intros Ht'; pose proof (I2 t' _ Ht' ltac:(done)); congruence.
  - apply set_thread_inv; [done| |by left|done]. intros t' Hne. by eapply lock_excludes.
  - apply set_thread_inv; [done| |right|done]; [intros t' Hne; by eapply lock_excludes|].
    by eapply I2.
  - by apply push_inv.
  - split; cbn; try done. unfold owned in *. cbn. set_solver.
  - split; cbn; try done; [|intros js []; done]. unfold owned in *. cbn. by rewrite Hs in I1.
  - split; cbn; try done; [|by intros _; apply I3; rewrite Hs|intros js []; done].
    unfold owned in *. cbn. by rewrite Hs in I1.
  - split; cbn; try done.
    + unfold owned in *. cbn. rewrite Hs in I1. by rewrite app_nil_r.
    + intros t pc Ht Hpc. pose proof (I2 t pc Ht Hpc). congruence.
    + intros _. apply I3. by rewrite Hs.
    + intros _ _. by apply I4; rewrite Hs.
    + intros js' _. split; [done|]. intros t Ht. pose proof (I2 t _ Ht ltac:(done)). congruence.
  - split; cbn; try done.
    + unfold owned in *. cbn. rewrite Hs in I1. intros i Hin. destruct (I1 i Hin) as [?|Ho]; [by left|].
      cbn in Ho. apply elem_of_cons in Ho as [->|Ho]; [by left|by right].
    + intros _. apply I3. by rewrite Hs.
    + intros _ _. by apply I4; rewrite Hs.
    + intros js' _. apply (I5 (j :: js)). by left.
  - split; cbn; try done.
    + unfold owned in *. cbn. rewrite Hs in I1. exact I1.
    + intros _. apply I3. by rewrite Hs.
    + intros _ _. by apply I4; rewrite Hs.
    + intros js' _. apply (I5 []). by left.
Qed.

Lemma reach_inv ts s : reach ts s → inv s.
Proof. induction 1; [apply inv_initial|by eapply sup_step_inv]. Qed.

(** C24: shutdown leaves no recovery worker behind.  In every interleaving of scheduling
    threads, workers and the shutdown, once [wait_for_terminal_jobs] has taken the jobs
    no worker is ever started again, every worker that is still running had the
    cancellation flag set, and when it returns every worker that was ever started has
    ended. *)
Theorem shutdown_leaves_no_worker ts s s' :
  reach ts s →
  (shutdown s = Finished → started s ⊆ ended s)
  ∧ (∀ js, shutdown s = Awaiting js ∨ shutdown s = Finished →
       cancellation s = true ∧ (step s s' → started s' = started s)).
Proof.
  intros Hr%reach_inv. split.
  - intros Hs j Hj. destruct (inv_owned _ Hr j Hj) as [?|Ho]; [done|].
    unfold owned in Ho. rewrite Hs in Ho.
    destruct (inv_taken _ Hr []) as [Hn _]; [by right|]. rewrite Hn in Ho. by apply elem_of_nil in Ho.
  - intros js Hs. split.
    + apply (inv_cancel _ Hr); by destruct Hs as [-> | ->].
    + intros Hst. destruct (inv_taken _ Hr js Hs) as [_ Hn].
      destruct Hst as [| | |t j Ht _| | | | | |]; try done. by destruct (Hn t).
Qed.

(** A run: a worker is scheduled while shutdown begins, and both finish. *)
Lemma supervised_run :
  ∃ s, reach {[0%nat]} s ∧ shutdown s = Finished ∧ started s = {[1%nat]}.
Proof.
  pose proof (reach_init {[0%nat]}) as H.
  eapply reach_step in H; [|apply (acquire _ 0); reflexivity].
  eapply reach_step in H; [|apply (check_accepted _ 0); reflexivity].
  eapply reach_step in H; [|apply refuse; reflexivity].
  eapply reach_step in H; [|apply (push _ 0 1); [reflexivity|apply not_elem_of_empty]].
  eapply reach_step in H; [|apply cancel; reflexivity].
  eapply reach_step in H; [|apply (job_ends _ 1); cbn; set_solver].
  eapply reach_step in H; [|apply take_jobs; reflexivity].
  eapply reach_step in H; [|eapply (await_job _ 1); [reflexivity|cbn; set_solver]].
  eapply reach_step in H; [|apply await_done; reflexivity].
  eexists. split; [exact H|]. split; [reflexivity|]. cbn. apply union_empty_r_L.
Qed.

Lemma shutdown_leaves_no_worker_witness :
  ∃ s, reach {[0%nat]} s ∧ started s = {[1%nat]} ∧ started s ⊆ ended s.
Proof.
  destruct supervised_run as (s & Hr & Hs & Hj). exists s. split; [exact Hr|]. split; [exact Hj|].
  exact (proj1 (shutdown_leaves_no_worker {[0%nat]} s s Hr) Hs).
Defined.
End Supervisor.

(** ** Concrete passes *)
Definition lost_wake_result : ObservationResult := mkObservationResult None None.

Lemma watcher_observed_within_65s_witness :
  let p mono := mkPass 1000 mono sample_registry in
  Exists (observes "w1") (tail (run_passes [p 0; p 30000; p 65000] ∅)).
Proof.
  intros p. apply watcher_observed_within_65s.
  - repeat constructor; try apply sample_registry_keyed;
      (exists (sample_watcher "w1" 7); split; vm_compute; reflexivity).
  - apply Exists_cons_tl, Exists_cons_hd. vm_compute. discriminate.
Defined.

Lemma wake_during_observation_lost_witness :
  let fp := "00112233445566ff" in
  let reg1 := (wake_observation WriteOk "w1" fp 9 sample_registry).1 in
  ∃ next current,
    due (due_pass 1000 5 sample_registry ∅) = [(sample_watcher "w1" 7, next)]
    ∧ (commit_and_schedule WriteOk true 1010 (sample_watcher "w1" 7) next lost_wake_result reg1).2
      = Some current
    ∧ event_wake_pending (observation_schedule current) = false.
Proof.
  intros fp reg1. eexists _, _. split; [vm_compute; reflexivity|]. split; [vm_compute; reflexivity|].
  refine (proj1 (proj2 (wake_during_observation_lost 1000 5 sample_registry ∅ (sample_watcher "w1" 7)
    _ fp 9 WriteOk reg1 lost_wake_result WriteOk 1010 _ _ sample_registry_keyed _ _ _ _))).
  - vm_compute. left.
  - vm_compute. reflexivity.
  - vm_compute. reflexivity.
  - vm_compute. reflexivity.
Defined.
