(* ===== verification/Services.v ===== *)
(** * Daemon runtime services (src/src/daemon/runtime_services.rs, src/src/notify.rs)

    The services behind the canonical actions that send no input: durable waits, status
    checks, escalation, stopping and notification with its fallback chain.  Disk writes
    and inspection answers are arguments; the RFC 3339 parser is the class parameter of
    the actions. *)
From stdpp Require Import pretty.
From S2P Require Import Prelude Text ParseInt Json Action Event Identity StateMachine State.
From S2P Require Import Store Process Registry RegistrySafety IpcService.
From Stdlib Require Import Ascii.

Local Open Scope Z_scope.

(** [str::strip_prefix] and [str::strip_suffix]. *)
Fixpoint strip_prefix (p s : string) : option string :=
  match p, s with
  | EmptyString, _ => Some s
  | String a p, String b s => if Ascii.eqb a b then strip_prefix p s else None
  | _, _ => None
  end.

Fixpoint strip_suffix (p s : string) : option string :=
  if String.eqb s p then Some ""
  else match s with EmptyString => None | String c s => String c <$> strip_suffix p s end.

(** ** Notification *)
Record NotificationsConfig : Type := mkNotifications {
  cfg_herdr : bool;
  cfg_desktop : bool;
  cfg_stderr : bool;
  notify_on_recovery : bool;
  notify_on_human_required : bool;
  notify_on_target_exit : bool;
}.

Inductive NotificationOutcome : Type :=
| Delivered (channel : string)
| Suppressed (why : string).

(** The answer each back end of [NotifyTarget] would give; [None] when absent. *)
Record NotifyTarget : Type := mkNotifyTarget {
  nt_herdr : option (result string bool);
  nt_desktop : option (result string unit);
  nt_stderr : option (result string unit);
}.

Definition attempt {A} (channel : string) (o : option A) : list string :=
  match o with Some _ => [channel] | None => [] end.

(** [deliver]: the channels tried, in order, and the outcome. *)
Definition deliver (c : NotificationsConfig) (t : NotifyTarget) (cleanup : bool)
    : list string * NotificationOutcome :=
  let herdr := if cfg_herdr c then nt_herdr t else None in
  let desktop := if cfg_desktop c then nt_desktop t else None in
  let stderr := if cfg_stderr c then nt_stderr t else None in
  let tried1 := attempt "herdr" herdr in
  match herdr with
  | Some (Ok true) => (tried1, Delivered "herdr")
  | _ =>
      let tried2 := tried1 ++ attempt "desktop" desktop in
      match desktop with
      | Some (Ok _) => (tried2, Delivered "desktop")
      | _ =>
          let tried3 := tried2 ++ attempt "stderr" stderr in
          match stderr with
          | Some (Ok _) => (tried3, Delivered "stderr")
          | Some (Err why) =>
              (tried3, Suppressed (if cleanup then why else "all notification channels failed"))
          | None =>
              (tried3, Suppressed (if cleanup then "all notification channels failed during cleanup"
                                   else "all notification channels failed"))
          end
      end
  end.

Definition notification_allowed (c : NotificationsConfig) (severity : string) : bool :=
  let s := to_ascii_lowercase (trim_string severity) in
  if contains "human" s || String.eqb s "error" || String.eqb s "critical"
  then notify_on_human_required c
  else if contains "exit" s || contains "terminat" s then notify_on_target_exit c
  else notify_on_recovery c.

(** ** Waits *)
Section Services.
Context {rfc : Rfc3339}.

Definition NANOS_PER_MILLI : Z := 1000000.

Definition parse_wait_deadline (deadline : string) (now : Z) : result string Z :=
  match strip_prefix "monotonic+" deadline ≫= strip_suffix "s" with
  | Some seconds =>
      let? seconds := ok_or (parse_unsigned u64_max seconds) "invalid monotonic wait deadline" in
      Ok (saturating_add u64_max now (saturating_mul u64_max seconds 1000))
  | None =>
      let? date := ok_or (parse_from_rfc3339 deadline) "invalid wall-clock wait deadline" in
      let milliseconds := date / NANOS_PER_MILLI in
      let? milliseconds := ok_or (within 0 u64_max milliseconds) "wait deadline predates Unix epoch" in
      if milliseconds <? now then Err "wait deadline is in the past" else Ok milliseconds
  end.

Definition set_wait (s : ObservationSchedule) (until : Z) : ObservationSchedule :=
  mkSchedule until (last_check_wall_ms s) false (interval_sequence s) (last_wake_fingerprint s)
    (last_wake_completed_wall_ms s) (herdr_after_sequence s) (screen_fingerprint s)
    (screen_stable_count s).

(** [RuntimeServices::schedule], with the outcomes of its two writes. *)
Definition svc_schedule (wo1 wo2 : WriteOutcome) (now : Z) (id deadline : string) (reg : Registry)
    : Registry * result string unit :=
  match parse_wait_deadline deadline now with
  | Err e => (reg, Err e)
  | Ok until =>
      match reg_get reg id with
      | None => (reg, Err "unknown watcher for scheduled action")
      | Some w =>
          match persist_observation_schedule wo1 id (set_wait (observation_schedule w) until) now reg with
          | (reg, Err e) => (reg, Err (registry_error_text e))
          | (reg, Ok _) =>
              let '(reg, r) := reg_transition wo2 id
                (Lifecycle.Waiting until "recovery wait scheduled") now reg in
              (reg, map_err registry_error_text r)
          end
      end
  end.

Definition target_process_is_alive (insp : ProcessInspector) (t : TargetIdentity) : bool :=
  match inspect insp (pid (target_process t)) with
  | Ok actual => pr_start_time actual =? start_time (target_process t)
  | Err _ => false
  end.

Definition svc_check (insp : ProcessInspector) (id kind : string) (reg : Registry) : result string bool :=
  if negb (String.eqb kind "PROCESS_ALIVE") then Err "unsupported runtime status check"
  else
    let? w := ok_or (reg_get reg id) "unknown watcher for status check" in
    Ok (target_process_is_alive insp (target w)).

Definition svc_escalate (wo : WriteOutcome) (now : Z) (id level : string) (reg : Registry)
    : Registry * result string unit :=
  if negb (String.eqb level "human_required")
  then (reg, Err "planner escalation is not available in the daemon runtime")
  else
    let '(reg, r) := reg_transition wo id (Lifecycle.HumanRequired "recovery escalation requested") now reg in
    (reg, map_err registry_error_text r).

Definition svc_stop_watching (wo : WriteOutcome) (now : Z) (id : string) (reg : Registry)
    : Registry * result string unit :=
  let '(reg, r) := reg_transition wo id (Lifecycle.Stopped "recovery action stopped watcher") now reg in
  (reg, map_err registry_error_text r).
End Services.

(** ** Laws *)
Lemma strip_suffix_unfold p s :
  strip_suffix p s =
    if String.eqb s p then Some ""
    else match s with EmptyString => None | String c s => String c <$> strip_suffix p s end.
Proof. by destruct s. Qed.

Lemma string_length_app s t : String.length (s +:+ t) = (String.length s + String.length t)%nat.
Proof. induction s as [|c s IH]; [done|]. exact (f_equal S IH). Qed.

Lemma strip_suffix_app p s : strip_suffix p (s +:+ p) = Some s.
Proof.
  induction s as [|c s IH]; rewrite strip_suffix_unfold.
  - change ("" +:+ p) with p. by rewrite String.eqb_refl.
  - change (String c s +:+ p) with (String c (s +:+ p)).
    rewrite (proj2 (String.eqb_neq _ _)), IH; [done|].
    intros He. apply (f_equal String.length) in He. cbn in He. rewrite string_length_app in He. lia.
Qed.

Lemma strip_prefix_app p s : strip_prefix p (p +:+ s) = Some s.
Proof.
  induction p as [|c p IH]; [done|].
  change ((if Ascii.eqb c c then strip_prefix p (p +:+ s) else None) = Some s).
  by rewrite Ascii.eqb_refl.
Qed.

Lemma parse_wait_deadline_future {rfc : Rfc3339} deadline now until :
  0 ≤ now ≤ u64_max → parse_wait_deadline deadline now = Ok until → now ≤ until ≤ u64_max.
Proof.
  intros Hnow. unfold parse_wait_deadline. destruct (_ ≫= _) as [s|].
  - intros (n & Hn%ok_or_Ok%parse_unsigned_bounds & [= <-])%rbind_Ok.
    unfold saturating_add, saturating_mul, u64_max in *. lia.
  - intros (d & _ & H)%rbind_Ok. apply rbind_Ok in H as (m & Hm%ok_or_Ok & H).
    unfold within in Hm. destruct (_ && _) eqn:E; [|done]. injection Hm as <-.
    destruct (Z.ltb_spec (d / NANOS_PER_MILLI) now); [done|]. injection H as <-.
    apply andb_true_iff in E as [_ ?%Z.leb_le]. lia.
Qed.

(** A scheduled wait is durable, in the future and exact.  When the service reports
    success, the watcher in memory and on disk is [Waiting] until the parsed deadline and
    its next observation is set to it, the deadline is not in the past, and the deadline
    text a [WAIT_DURATION] action of [d] seconds produces means [d] seconds from now; a
    failure changes the lifecycle of no watcher. *)
Theorem wait_scheduled_durably {rfc : Rfc3339} wo1 wo2 now id deadline reg :
  0 ≤ now ≤ u64_max →
  let '(reg', r) := svc_schedule wo1 wo2 now id deadline reg in
  match r with
  | Ok _ => ∃ until w', parse_wait_deadline deadline now = Ok until ∧ now ≤ until
      ∧ watchers reg' !! id = Some w'
      ∧ lifecycle w' = Lifecycle.Waiting until "recovery wait scheduled"
      ∧ next_due_wall_ms (observation_schedule w') = until
      ∧ (∃ file, reg_file reg' = Some file ∧ w' ∈ persisted_watchers file)
      ∧ ∀ d, 0 ≤ d → now + d * 1000 ≤ u64_max →
          deadline = "monotonic+" +:+ pretty d +:+ "s" → until = now + d * 1000
  | Err _ => ∀ i, lifecycle <$> watchers reg' !! i = lifecycle <$> watchers reg !! i
  end.
Proof.
  intros Hnow. unfold svc_schedule. destruct (parse_wait_deadline deadline now) as [until|] eqn:Ep; [|done].
  pose proof (parse_wait_deadline_future _ _ _ Hnow Ep) as Hu.
  destruct (reg_get reg id) as [w|] eqn:Hw; [|done].
  destruct (persist_observation_schedule _ _ _ _ _) as [reg1 [[]|e]] eqn:E1; unfold persist_observation_schedule in E1;
    (apply edit_watcher_spec in E1; [|tame_tac]).
  2: { intros i. by destruct E1 as [-> _]. }
  destruct E1 as (w0 & w1 & Hw0 & [= <-] & (_ & Hm1 & _) & _). unfold reg_get in Hw. simplify_eq.
  destruct (reg_transition _ _ _ _ _) as [reg2 [[]|e]] eqn:E2; cbn [map_err].
  2: { intros i. apply reg_transition_Err in E2 as [-> _]. rewrite Hm1.
       destruct (decide (id = i)) as [<-|]; [by rewrite lookup_insert_eq, Hw|by rewrite lookup_insert_ne]. }
  unfold reg_transition in E2. destruct (edit_watcher _ _ _ _ reg1) as [reg3 [[]|]] eqn:E3; [|done].
  apply edit_watcher_spec in E3; [|tame_tac].
  destruct E3 as (w1 & w2 & Hw1 & [= <-] & (_ & Hm2 & _ & _ & _ & Hwr) & _). injection E2 as <-.
  rewrite Hm1, lookup_insert_eq in Hw1. injection Hw1 as <-.
  destruct (audit_lifecycle_frame id (λ w, lifecycle_message (lifecycle w)) reg3) as [-> ->].
  eexists until, _. rewrite Hm2, lookup_insert_eq. split_and!; [done|lia|done|done|done| |].
  - eexists. split; [exact Hwr|]. apply elem_of_btree_values. exists id. by rewrite Hm2, lookup_insert_eq.
  - intros d Hd Hmax ->. unfold parse_wait_deadline in Ep.
    rewrite strip_prefix_app in Ep. cbn [mbind option_bind] in Ep. rewrite strip_suffix_app in Ep.
    rewrite parse_unsigned_pretty in Ep by lia. cbn [ok_or rbind] in Ep. injection Ep as <-.
    unfold saturating_add, saturating_mul. lia.
Qed.

Lemma wait_scheduled_durably_witness :
  let rfc : Rfc3339 := λ _, None in
  let '(reg', r) := svc_schedule WriteOk WriteOk 1000 "w1" "monotonic+60s" sample_registry in
  r = Ok tt ∧ (lifecycle <$> watchers reg' !! "w1")
              = Some (Lifecycle.Waiting 61000 "recovery wait scheduled").
Proof.
  intros rfc.
  pose proof (wait_scheduled_durably WriteOk WriteOk 1000 "w1" "monotonic+60s" sample_registry) as H.
  destruct (svc_schedule _ _ _ _ _ sample_registry) as [reg' r] eqn:E.
  assert (r = Ok tt) as -> by (vm_compute in E; congruence). split; [reflexivity|].
  destruct H as (until & w' & Hp & _ & Hw & Hl & _ & _ & Hd); [vm_compute; split; discriminate|].
  rewrite Hw. cbn. rewrite Hl, (Hd 60); [reflexivity|done|done|reflexivity].
Defined.

(** The enabled channels that would deliver. *)
Definition working (c : NotificationsConfig) (t : NotifyTarget) : list string :=
  (if cfg_herdr c && match nt_herdr t with Some (Ok b) => b | _ => false end then ["herdr"] else [])
  ++ (if cfg_desktop c && match nt_desktop t with Some (Ok _) => true | _ => false end
      then ["desktop"] else [])
  ++ (if cfg_stderr c && match nt_stderr t with Some (Ok _) => true | _ => false end
      then ["stderr"] else []).

(** The first working channel delivers and no later one is tried; without one the
    notification is suppressed. *)
Lemma deliver_first_working c t cleanup :
  let '(tried, outcome) := deliver c t cleanup in
  match head (working c t) with
  | Some channel => outcome = Delivered channel ∧ last tried = Some channel
  | None => ∃ why, outcome = Suppressed why
  end.
Proof.
  unfold deliver, working.
  destruct (cfg_herdr c), (nt_herdr t) as [[[]|]|], (cfg_desktop c), (nt_desktop t) as [[|]|],
    (cfg_stderr c), (nt_stderr t) as [[|]|]; cbn; eauto.
Qed.
