(* ===== verification/Observe.v ===== *)
(** * Evidence (src/src/observe/mod.rs, src/src/daemon/observation.rs)

    Fingerprints of evidence, the merger that picks the most authoritative actionable
    event unless something of equal authority contradicts it, and the per-target
    observation cadence.  SHA-256 is a class parameter. *)
From S2P Require Import Prelude Text Json Action Event State Process Ipc.
From Stdlib Require Import Ascii Floats.SpecFloat.

Local Open Scope Z_scope.

(** ** Fingerprints *)
Definition framed (part : list Z) : list Z := be_bytes 8 (byte_len part) ++ part.
Definition hash_input (source rule : string) (evidence : list Z) : list Z :=
  framed (byte_list source) ++ framed (byte_list rule) ++ framed evidence.
Definition fingerprint `{Sha256Hex} (source rule : string) (evidence : list Z) : string :=
  sha256_hex (hash_input source rule evidence).

(** ** Merging *)

(** [Ordering::then_with]. *)
Definition then_with (c d : comparison) : comparison := match c with Eq => d | _ => c end.

Definition authority_cmp (a b : Event) : comparison :=
  then_with (Z.compare (rank (source_kind (source a))) (rank (source_kind (source b))))
    (total_cmp (confidence a) (confidence b)).

(** [Iterator::max_by], which keeps the last of equal elements. *)
Definition max_by {A} (cmp : A → A → comparison) (l : list A) : option A :=
  match l with
  | [] => None
  | x :: l => Some (foldl (λ best y, match cmp best y with Gt => best | _ => y end) x l)
  end.

Definition correlated (left right : Event) : bool :=
  String.eqb (watcher_id left) (watcher_id right)
  && String.eqb (target_identity_hash left) (target_identity_hash right)
  && (bool_decide (session_id left = None) || bool_decide (session_id right = None)
      || opt_str_eqb (session_id left) (session_id right)).

Definition contradicts (a b : EventCategory) : bool :=
  negb (category_eqb a b)
  && match a with
     | Category.Working | Category.Idle | Category.Recovered | Category.HumanIntervention => true
     | _ => false
     end.

(** [other.confidence >= candidate.confidence] at equal rank, or a higher rank. *)
Definition at_least (other candidate : Event) : bool :=
  let ro := rank (source_kind (source other)) in
  let rc := rank (source_kind (source candidate)) in
  (rc <? ro) || ((ro =? rc) && f64_leb (confidence candidate) (confidence other)).

Definition select_actionable (events : list Event) : option Event :=
  candidate ← max_by authority_cmp (List.filter (λ e, is_actionable (category e)) events);
  if existsb (λ other, correlated other candidate
                && contradicts (category other) (category candidate)
                && at_least other candidate) events
  then None else Some candidate.

(** ** Cadence *)
Record ObservationCadence : Type := mkCadence {
  interval_seconds : Z;
  max_jitter_seconds : Z;
  next_due : gmap string Z;
}.

Definition cadence_new (interval jitter : Z) : ObservationCadence :=
  mkCadence (Z.max interval 1) jitter ∅.

Definition cadence_register (target : string) (now jitter : Z) (c : ObservationCadence)
    : ObservationCadence :=
  mkCadence (interval_seconds c) (max_jitter_seconds c)
    (<[target := saturating_add u64_max (saturating_add u64_max now (interval_seconds c))
                   (Z.min jitter (max_jitter_seconds c))]> (next_due c)).

Definition cadence_wake (target : string) (c : ObservationCadence) : ObservationCadence :=
  mkCadence (interval_seconds c) (max_jitter_seconds c) (alter (λ _, 0) target (next_due c)).

Definition cadence_due (now : Z) (c : ObservationCadence) : ObservationCadence * list string :=
  let due := (List.filter (λ p, p.2 <=? now) (btree_entries (next_due c))).*1 in
  (mkCadence (interval_seconds c) (max_jitter_seconds c)
     (foldl (λ m t, <[t := saturating_add u64_max now (interval_seconds c)]> m) (next_due c) due), due).

(** ** Herdr states (src/src/daemon/observation.rs) *)
Definition classify_herdr_state (state : string) (terminal_evidence : bool)
    : option (EventCategory * bool) :=
  if String.eqb state "working" then Some (Category.Working, false)
  else if String.eqb state "idle" then Some (Category.Idle, false)
  else if String.eqb state "waiting" then Some (Category.WaitingForTool, false)
  else if String.eqb state "terminated" && terminal_evidence then Some (Category.Terminated, true)
  else if String.eqb state "blocked" && terminal_evidence then Some (Category.BlockedGoal, true)
  else None.

(** ** Fingerprints, proved *)
Lemma framed_inj p q r s :
  byte_len p < 2 ^ 64 → byte_len q < 2 ^ 64 → framed p ++ r = framed q ++ s → p = q ∧ r = s.
Proof.
  intros Hp Hq He. unfold framed in He. rewrite <- !app_assoc in He.
  apply app_inj_1 in He as [Hl He]; [|by rewrite !be_bytes_length].
  apply (f_equal be_value) in Hl. unfold byte_len in *.
  rewrite !be_value_bytes in Hl by (change (256 ^ Z.of_nat 8) with (2 ^ 64); lia).
  apply app_inj_1 in He; [done|lia].
Qed.

Lemma byte_val_inj a b : byte_val a = byte_val b → a = b.
Proof.
  unfold byte_val. intros H%N2Z.inj. rewrite <- (ascii_N_embedding a), <- (ascii_N_embedding b).
  by rewrite H.
Qed.

Lemma byte_list_inj s t : byte_list s = byte_list t → s = t.
Proof.
  revert t. induction s as [|c s IH]; intros [|d t]; cbn; try done.
  intros [= H1%byte_val_inj H2]. f_equal; [done|]. by apply IH.
Qed.

Lemma byte_list_length s : byte_len (byte_list s) = len s.
Proof.
  unfold byte_len, len, byte_list, bytes. f_equal. induction s as [|c s IH]; [done|].
  exact (f_equal S IH).
Qed.

Lemma hash_input_inj s r e s' r' e' :
  len s < 2 ^ 64 → len r < 2 ^ 64 → len s' < 2 ^ 64 → len r' < 2 ^ 64 →
  byte_len e < 2 ^ 64 → byte_len e' < 2 ^ 64 →
  hash_input s r e = hash_input s' r' e' → s = s' ∧ r = r' ∧ e = e'.
Proof.
  intros ?????? He. unfold hash_input in He. rewrite <- (app_nil_r (framed e)), <- (app_nil_r (framed e')) in He.
  apply framed_inj in He as [Hs He]; [|by rewrite byte_list_length..].
  apply framed_inj in He as [Hr He]; [|by rewrite byte_list_length..].
  apply framed_inj in He as [Hev _]; [|done..]. by apply byte_list_inj in Hs, Hr.
Qed.

(** ** [f64::total_cmp] is a total order *)
Definition float_key (f : f64) : Z * Z * Z :=
  match f with
  | S754_infinity true => (0, 0, 0)
  | S754_finite true m e => (1, - e, - Z.pos m)
  | S754_zero true => (2, 0, 0)
  | S754_zero false => (3, 0, 0)
  | S754_finite false m e => (4, e, Z.pos m)
  | S754_infinity false => (5, 0, 0)
  | S754_nan => (6, 0, 0)
  end.

Definition lex3 (a b : Z * Z * Z) : comparison :=
  then_with (Z.compare a.1.1 b.1.1) (then_with (Z.compare a.1.2 b.1.2) (Z.compare a.2 b.2)).

Lemma total_cmp_key a b : total_cmp a b = lex3 (float_key a) (float_key b).
Proof.
  destruct a as [[]|[]| |[] m e], b as [[]|[]| |[] m' e']; try reflexivity.
  - unfold lex3. cbn. rewrite Z.compare_opp, Z.compare_opp.
    destruct (Z.compare_spec e e') as [->|H|H]; cbn.
    + rewrite Z.compare_refl. cbn. rewrite Pos.compare_cont_spec. cbn.
      unfold Pos.switch_Eq. destruct (Pos.compare_spec m m'); destruct (Pos.compare_spec m' m); subst; try done; lia.
    + by rewrite (proj2 (Z.compare_gt_iff e' e)).
    + by rewrite (proj2 (Z.compare_lt_iff e' e)).
  - unfold lex3. cbn. destruct (Z.compare_spec e e') as [->|H|H]; cbn; done.
Qed.

(** ** [max_by] picks the last greatest element *)
Section MaxBy.
Context {A : Type} (cmp : A → A → comparison).
Context (cmp_trans : ∀ x y z, cmp x y ≠ Gt → cmp y z ≠ Gt → cmp x z ≠ Gt).
Context (cmp_asym : ∀ x y, cmp x y = Gt → cmp y x ≠ Gt).

Definition last_greatest (l : list A) (c : A) : Prop :=
  ∃ l1 l2, l = l1 ++ c :: l2 ∧ Forall (λ x, cmp x c ≠ Gt) l1 ∧ Forall (λ x, cmp c x = Gt) l2.

Lemma max_by_foldl l p best :
  last_greatest p best →
  last_greatest (p ++ l) (foldl (λ best y, match cmp best y with Gt => best | _ => y end) best l).
Proof.
  revert p best. induction l as [|y l IH]; intros p best Hb; cbn; [by rewrite app_nil_r|].
  rewrite (cons_middle y p l), app_assoc. apply IH. destruct Hb as (l1 & l2 & -> & H1 & H2).
  destruct (cmp best y) eqn:E.
  3: { exists l1, (l2 ++ [y]). split; [by rewrite <- app_assoc|]. split; [done|].
       apply Forall_app. split; [done|]. by constructor. }
  all: exists (l1 ++ best :: l2), []; split; [done|]; split; [|done]; apply Forall_app; split;
    [eapply Forall_impl; [exact H1|]; intros x Hx; apply (cmp_trans _ best); [done|congruence]
    |constructor; [congruence|]; eapply Forall_impl; [exact H2|]; intros x Hx;
     apply (cmp_trans _ best); [by apply cmp_asym|congruence]].
Qed.

Lemma max_by_spec l :
  match max_by cmp l with Some c => last_greatest l c | None => l = [] end.
Proof.
  destruct l as [|x l]; [done|]. cbn. apply (max_by_foldl l [x] x). by exists [], [].
Qed.
End MaxBy.

Lemma authority_cmp_le a b :
  authority_cmp a b ≠ Gt ↔
    let ra := rank (source_kind (source a)) in let rb := rank (source_kind (source b)) in
    let ka := float_key (confidence a) in let kb := float_key (confidence b) in
    ra < rb ∨ ra = rb ∧ (ka.1.1 < kb.1.1 ∨ ka.1.1 = kb.1.1 ∧
      (ka.1.2 < kb.1.2 ∨ ka.1.2 = kb.1.2 ∧ ka.2 ≤ kb.2)).
Proof.
  cbn zeta. unfold authority_cmp. rewrite total_cmp_key. unfold lex3.
  destruct (Z.compare_spec (rank (source_kind (source a))) (rank (source_kind (source b))));
    destruct (Z.compare_spec (float_key (confidence a)).1.1 (float_key (confidence b)).1.1);
    destruct (Z.compare_spec (float_key (confidence a)).1.2 (float_key (confidence b)).1.2);
    destruct (Z.compare_spec (float_key (confidence a)).2 (float_key (confidence b)).2); cbn;
    split; intros; try done; lia.
Qed.

Lemma authority_trans x y z :
  authority_cmp x y ≠ Gt → authority_cmp y z ≠ Gt → authority_cmp x z ≠ Gt.
Proof. rewrite !authority_cmp_le. cbn zeta. lia. Qed.

Lemma authority_asym x y : authority_cmp x y = Gt → authority_cmp y x ≠ Gt.
Proof.
  intros H. apply authority_cmp_le.
  assert (¬ authority_cmp x y ≠ Gt) as Hn by naive_solver. rewrite authority_cmp_le in Hn.
  cbn zeta in *. lia.
Qed.

(** ** Properties *)
Definition overruled (events : list Event) (c : Event) : Prop :=
  ∃ o, o ∈ events ∧ correlated o c = true ∧ contradicts (category o) (category c) = true
    ∧ at_least o c = true.

(** The merger selects the most authoritative actionable event.  It is the last of
    the actionable events with the greatest source rank and, within the rank, the
    greatest confidence; it is withheld exactly when an observation of the same target
    and session that contradicts it comes from a higher rank, or from the same rank with
    at least its confidence.  Nothing is selected only when there is no actionable event
    or the best one is overruled: a weaker event never takes its place. *)
Theorem merger_selects_authoritative events :
  let actionable := List.filter (λ e, is_actionable (category e)) events in
  match select_actionable events with
  | Some c => last_greatest authority_cmp actionable c ∧ c ∈ events
              ∧ is_actionable (category c) = true ∧ ¬ overruled events c
  | None => actionable = [] ∨ ∃ c, last_greatest authority_cmp actionable c ∧ overruled events c
  end.
Proof.
  cbn zeta. unfold select_actionable.
  pose proof (max_by_spec authority_cmp authority_trans authority_asym
    (List.filter (λ e, is_actionable (category e)) events)) as Hm.
  destruct (max_by _ _) as [c|]; cbn; [|by left].
  assert (c ∈ List.filter (λ e, is_actionable (category e)) events) as Hc.
  { destruct Hm as (l1 & l2 & -> & _). apply elem_of_app. right. by left. }
  apply list_elem_of_In, filter_In in Hc as [Hin%list_elem_of_In Hact].
  match goal with |- context [existsb ?f ?l] => destruct (existsb f l) eqn:E end.
  - right. exists c. split; [done|]. apply existsb_elem in E as (o & Ho & Hf).
    rewrite !andb_true_iff in Hf. exists o. naive_solver.
  - split_and!; [done|done|done|]. intros (o & Ho & H1 & H2 & H3).
    pose proof (proj1 (existsb_false_elem _ _) E o Ho) as Hf. cbn in Hf. by rewrite H1, H2, H3 in Hf.
Qed.

(** Fingerprints are unambiguous.  Two pieces of evidence get the same fingerprint
    only when source, rule and content are all the same, or when SHA-256 collides: the
    length-prefixed parts cannot be shifted into one another. *)
Theorem fingerprint_unambiguous `{Sha256Hex} s r e s' r' e' :
  (∀ x, x ∈ [s; r; s'; r'] → len x < 2 ^ 64) → byte_len e < 2 ^ 64 → byte_len e' < 2 ^ 64 →
  fingerprint s r e = fingerprint s' r' e' →
  (s = s' ∧ r = r' ∧ e = e') ∨ ∃ x y, x ≠ y ∧ sha256_hex x = sha256_hex y.
Proof.
  intros Hl He He' Hf. destruct (decide (hash_input s r e = hash_input s' r' e')) as [Hi|Hi].
  - left. apply hash_input_inj; try done; apply Hl; set_solver.
  - right. by eexists _, _.
Qed.

Lemma fingerprint_unambiguous_witness :
  let sha : Sha256Hex := λ l, string_of_bytes l in
  fingerprint "a" "bc" [1] = fingerprint "a" "bc" [1]
  ∧ (("a" = "a" ∧ "bc" = "bc" ∧ [1] = [1]) ∨ ∃ x y, x ≠ y ∧ sha256_hex x = sha256_hex y).
Proof.
  intros sha. split; [reflexivity|].
  apply (fingerprint_unambiguous "a" "bc" [1] "a" "bc" [1]).
  - intros x Hx. repeat (apply elem_of_cons in Hx as [->|Hx]; [vm_compute; reflexivity|]).
    by apply elem_of_nil in Hx.
  - vm_compute; reflexivity.
  - vm_compute; reflexivity.
  - reflexivity.
Defined.

(** A due target is not due again before its interval has passed. *)
Lemma cadence_due_spec now c c' due t :
  cadence_due now c = (c', due) →
  (t ∈ due ↔ ∃ d, next_due c !! t = Some d ∧ d ≤ now)
  ∧ next_due c' !! t = (if bool_decide (t ∈ due)
       then Some (saturating_add u64_max now (interval_seconds c)) else next_due c !! t).
Proof.
  unfold cadence_due. intros [= <- <-]. set (l := List.filter _ _). split.
  - subst l. rewrite list_elem_of_fmap. setoid_rewrite list_elem_of_In. setoid_rewrite filter_In.
    setoid_rewrite <- list_elem_of_In. split.
    + intros ([k d] & -> & Hin%elem_of_btree_entries & Hd%Z.leb_le). eauto.
    + intros (d & Hin%elem_of_btree_entries & Hd). exists (t, d). split; [done|].
      split; [done|]. by apply Z.leb_le.
  - cbn. generalize (saturating_add u64_max now (interval_seconds c)), (next_due c), l.*1.
    intros v m ts. revert m. induction ts as [|i ts IH]; intros m; cbn.
    + by rewrite bool_decide_eq_false_2 by set_solver.
    + rewrite IH. repeat case_bool_decide; try done; try set_solver.
      * assert (t = i) as -> by set_solver. by rewrite lookup_insert_eq.
      * rewrite lookup_insert_ne; [done|set_solver].
Qed.
