(* ===== verification/StoreFs.v ===== *)
(** * The JSON store on a file system (src/src/store.rs)

    [JsonStore] over a directory whose contents survive a crash only as far as they were
    synchronised: an inode whose data was not synced may hold anything afterwards, and
    every name may point where any directory version since the last directory sync
    pointed it.  Each system call of [write_impl] and [quarantine] is one step and may
    fail; the directory after every step is recorded, so a crash can be placed between
    any two of them.  serde_json is a parameter; the opening of the trusted parent directory
    (TrustedParent) is an outcome here. *)
From S2P Require Import Prelude Store Ipc.

Local Open Scope Z_scope.

Definition DEFAULT_MAX_BYTES : Z := 4 * 1024 * 1024.

Inductive StoreError : Type :=
| UnsafePath (what : string)
| StoreIo (errno : Z)
| StoreSerialize (m : string).

(** ** Files and crashes *)
Record Inode : Type := mkInode { data : list Z; synced : bool }.

Record Dir : Type := mkDir {
  inodes : gmap nat Inode;
  entries : gmap string nat;
  versions : list (gmap string nat);
}.

Definition with_entries (d : Dir) (e : gmap string nat) : Dir :=
  mkDir (inodes d) e (versions d ++ [e]).
Definition with_inode (d : Dir) (i : nat) (f : Inode) : Dir :=
  mkDir (<[i := f]> (inodes d)) (entries d) (versions d).

(** [openat(O_CREAT | O_EXCL)] on a free name, with a fresh inode. *)
Definition fs_create (i : nat) (name : string) (d : Dir) : Dir :=
  with_entries (with_inode d i (mkInode [] false)) (<[name := i]> (entries d)).
Definition fs_write (i : nat) (bs : list Z) (d : Dir) : Dir :=
  with_inode d i (mkInode (default [] (data <$> inodes d !! i) ++ bs) false).
Definition fs_sync (i : nat) (d : Dir) : Dir :=
  with_inode d i (mkInode (default [] (data <$> inodes d !! i)) true).
Definition fs_rename (from to : string) (d : Dir) : Dir :=
  match entries d !! from with
  | Some i => with_entries d (<[to := i]> (delete from (entries d)))
  | None => d
  end.
Definition fs_unlink (name : string) (d : Dir) : Dir := with_entries d (delete name (entries d)).
Definition fs_sync_dir (d : Dir) : Dir := mkDir (inodes d) (entries d) [entries d].

Definition fs_read (d : Dir) (name : string) : option (list Z) :=
  i ← entries d !! name; data <$> inodes d !! i.

(** What a crash may leave. *)
Definition crash (d d' : Dir) : Prop :=
  (∀ name, ∃ v, v ∈ versions d ∧ entries d' !! name = v !! name)
  ∧ ∀ i f, inodes d !! i = Some f → synced f = true → inodes d' !! i = Some f.

Definition possible (d : Dir) (name : string) (c : option (list Z)) : Prop :=
  ∃ d', crash d d' ∧ fs_read d' name = c.

(** ** Writing *)

(** The kind [io::Error::from_raw_os_error] gives an errno is the standard library's. *)
Class ErrorKinds : Type := kind_unsupported : Z → bool.

Definition is_unsupported_directory_sync `{ErrorKinds} (errno : Z) : bool :=
  kind_unsupported errno || (errno =? 22) || (errno =? 95).

(** The answers of the system calls of one write: [None] is success. *)
Record WriteCalls : Type := mkWriteCalls {
  wc_parent : option StoreError;         (** [TrustedParent::open] *)
  wc_stat : result Z bool;               (** [statat]: is the target a symlink *)
  wc_open : option Z;
  wc_inode : nat;                        (** the inode a successful [openat] creates *)
  wc_written : option (nat * Z);         (** [write_all] failed after so many bytes *)
  wc_sync : option Z;
  wc_rename : option Z;
  wc_sync_dir : option Z;
  wc_unlink : option Z;
}.

Definition ENOENT : Z := 2.
Definition EEXIST : Z := 17.

(** [sync_directory]. *)
Definition sync_directory `{ErrorKinds} (answer : option Z) (d : Dir) : Dir * option Z :=
  match answer with
  | None => (fs_sync_dir d, None)
  | Some e => (d, if is_unsupported_directory_sync e then None else Some e)
  end.

(** The closure of [write_impl]: the directories it goes through (latest first), whether
    it renamed, and its error. *)
Definition write_body `{ErrorKinds} (c : WriteCalls) (name temporary : string) (bs : list Z) (d : Dir)
    : list Dir * bool * option Z :=
  let i := wc_inode c in
  match wc_written c with
  | Some (n, e) => ([fs_write i (take n bs) d], false, Some e)
  | None =>
      let d1 := fs_write i bs d in
      match wc_sync c with
      | Some e => ([d1], false, Some e)
      | None =>
          let d2 := fs_sync i d1 in
          match wc_rename c with
          | Some e => ([d2; d1], false, Some e)
          | None =>
              let d3 := fs_rename temporary name d2 in
              let '(d4, r) := sync_directory (wc_sync_dir c) d3 in
              ([d4; d3; d2; d1], true, r)
          end
      end
  end.

(** From the [openat] of the temporary file on; a failed body unlinks it. *)
Definition create_and_write `{ErrorKinds} (c : WriteCalls) (name temporary : string) (bs : list Z)
    (d : Dir) : list Dir * bool * result StoreError unit :=
  match wc_open c, entries d !! temporary with
  | Some e, _ => ([d], false, Err (StoreIo e))
  | None, Some _ => ([d], false, Err (StoreIo EEXIST))
  | None, None =>
      let d0 := fs_create (wc_inode c) temporary d in
      let '(ds, renamed, r) := write_body c name temporary bs d0 in
      match r with
      | None => (ds ++ [d0; d], renamed, Ok tt)
      | Some e =>
          let last := hd d0 ds in
          let cleaned := match wc_unlink c with None => fs_unlink temporary last | Some _ => last end in
          (cleaned :: ds ++ [d0; d], renamed, Err (StoreIo e))
      end
  end.

(** [write_impl] after serialisation: the directories it goes through, latest first,
    whether the rename happened, and the result. *)
Definition write_bytes `{ErrorKinds} (max_bytes : Z) (c : WriteCalls) (name temporary : string)
    (bs : list Z) (d : Dir) : list Dir * bool * result StoreError unit :=
  if max_bytes <? byte_len bs then ([d], false, Err (UnsafePath "serialized state exceeds size limit"))
  else
    match wc_parent c, wc_stat c with
    | Some e, _ => ([d], false, Err e)
    | None, Ok true => ([d], false, Err (UnsafePath name))
    | None, Ok false => create_and_write c name temporary bs d
    | None, Err e =>
        if e =? ENOENT then create_and_write c name temporary bs d
        else ([d], false, Err (StoreIo e))
    end.

(** What the callers of [write] see. *)
Definition write_outcome (message : StoreError → string) (renamed : bool) (r : result StoreError unit)
    : WriteOutcome :=
  match r with Ok _ => WriteOk | Err e => WriteErr renamed (message e) end.

Section Json.
Context {V : Type} (to_vec : V → result string (list Z)) (from_slice : list Z → option V).

Definition store_write `{ErrorKinds} (max_bytes : Z) (c : WriteCalls) (name temporary : string)
    (v : V) (d : Dir) : list Dir * bool * result StoreError unit :=
  match to_vec v with
  | Err m => ([d], false, Err (StoreSerialize m))
  | Ok bs => write_bytes max_bytes c name temporary bs d
  end.

(** The answers of the system calls of one load. *)
Record LoadCalls : Type := mkLoadCalls {
  lc_parent : option StoreError;
  lc_open : option Z;                    (** an [openat] error other than ENOENT *)
  lc_regular : bool;
  lc_fcntl : option Z;
  lc_read : option Z;
  lc_quarantine : string;                (** the generated name *)
  lc_create : option Z;
  lc_inode : nat;
  lc_written : option (nat * Z);
  lc_sync : option Z;
  lc_sync_dir : option Z;
  lc_unlink : option Z;
}.

Definition quarantine `{ErrorKinds} (c : LoadCalls) (evidence : list Z) (d : Dir)
    : Dir * result StoreError (LoadOutcome V) :=
  let q := lc_quarantine c in
  match lc_create c, entries d !! q with
  | Some e, _ => (d, Err (StoreIo e))
  | None, Some _ => (d, Err (StoreIo EEXIST))
  | None, None =>
      let i := lc_inode c in
      let d0 := fs_create i q d in
      let '(d1, r) :=
        match lc_written c with
        | Some (n, e) => (fs_write i (take n evidence) d0, Some e)
        | None =>
            let d1 := fs_write i evidence d0 in
            match lc_sync c with
            | Some e => (d1, Some e)
            | None => sync_directory (lc_sync_dir c) (fs_sync i d1)
            end
        end in
      match r with
      | Some e =>
          (match lc_unlink c with None => fs_unlink q d1 | Some _ => d1 end, Err (StoreIo e))
      | None => (d1, Ok (Corrupt q))
      end
  end.

Definition load_impl `{ErrorKinds} (max_bytes : Z) (c : LoadCalls) (name : string) (d : Dir)
    : Dir * result StoreError (LoadOutcome V) :=
  match lc_parent c, lc_open c with
  | Some e, _ => (d, Err e)
  | None, Some e => (d, Err (StoreIo e))
  | None, None =>
      match fs_read d name with
      | None => (d, Ok Missing)
      | Some file =>
          if negb (lc_regular c) then (d, Err (UnsafePath name))
          else
            match lc_fcntl c, lc_read c with
            | Some e, _ | None, Some e => (d, Err (StoreIo e))
            | None, None =>
                let bs := take (Z.to_nat (max_bytes + 1)) file in
                match (if byte_len bs <=? max_bytes then from_slice bs else None) with
                | Some v => (d, Ok (Present v))
                | None => quarantine c bs d
                end
            end
      end
  end.
End Json.

(** ** Crashes, proved *)

(** A directory whose current entries are one of its versions. *)
Definition wf_dir (d : Dir) : Prop := entries d ∈ versions d.
(** An inode number nothing refers to. *)
Definition unused (i : nat) (d : Dir) : Prop :=
  inodes d !! i = None ∧ ∀ v n, v ∈ versions d → v !! n ≠ Some i.

(** [x] is [d] with the file [name] possibly replaced by the synced inode [i]. *)
Definition replaces (d : Dir) (i : nat) (name : string) (bs : list Z) (x : Dir) : Prop :=
  (∀ j, j ≠ i → inodes x !! j = inodes d !! j)
  ∧ ∀ v, v ∈ versions x →
      (∃ v0, v0 ∈ versions d ∧ v !! name = v0 !! name)
      ∨ v !! name = Some i ∧ inodes x !! i = Some (mkInode bs true).

Lemma replaces_possible d i name bs x c :
  unused i d → replaces d i name bs x → possible x name c → possible d name c ∨ c = Some bs.
Proof.
  intros [Hu _] [Hj Hv] (d' & [He Hi] & Hr).
  destruct (He name) as (v & Hin & Hn). destruct (Hv v Hin) as [(v0 & Hv0 & Hvv)|[Hvi Hsync]].
  - left. exists (mkDir (inodes d') v0 []). split; [split|].
    + intros n. by exists v0.
    + intros j f Hf Hs. apply Hi; [|done]. rewrite Hj; [done|]. intros ->. congruence.
    + rewrite <- Hr. unfold fs_read. cbn. by rewrite Hn, Hvv.
  - right. rewrite <- Hr. unfold fs_read. rewrite Hn, Hvi. cbn.
    by rewrite (Hi i _ Hsync eq_refl).
Qed.

Lemma replaces_self d i name bs : replaces d i name bs d.
Proof. split; [done|]. intros v Hv. left. by exists v. Qed.

(** Steps on other names, and on the inode before it is linked. *)
Lemma replaces_entries d i name bs x e :
  replaces d i name bs x →
  (∃ v0, v0 ∈ versions d ∧ e !! name = v0 !! name)
   ∨ e !! name = Some i ∧ inodes x !! i = Some (mkInode bs true) →
  replaces d i name bs (with_entries x e).
Proof.
  intros [Hj Hv] He. split; [done|]. cbn. intros v [Hin|Hin]%elem_of_app; [by apply Hv|].
  apply list_elem_of_singleton in Hin as ->. done.
Qed.

Lemma replaces_inode d i name bs x f :
  replaces d i name bs x → (∀ v, v ∈ versions x → v !! name ≠ Some i) →
  replaces d i name bs (with_inode x i f).
Proof.
  intros [Hj Hv] Hn. split; cbn.
  - intros j Hne. rewrite lookup_insert_ne by done. by apply Hj.
  - intros v Hin. destruct (Hv v Hin) as [?|[Hvi _]]; [by left|]. by destruct (Hn v Hin).
Qed.

Lemma replaces_sync_dir d i name bs x :
  wf_dir x → replaces d i name bs x → replaces d i name bs (fs_sync_dir x).
Proof.
  intros Hw [Hj Hv]. split; [done|]. cbn. intros v ->%list_elem_of_singleton. by apply Hv.
Qed.

(** Prove [Forall P] of an explicit list element by element. *)
Ltac forall_each tac := repeat (apply Forall_cons; split; [tac|]); try (by apply Forall_nil).

Section Write.
Context (d : Dir) (i : nat) (name temporary : string).
Context (d_wf : wf_dir d) (i_unused : unused i d) (names_differ : name ≠ temporary).

(** The temporary file exists with the given content; [name] is as before. *)
Definition staged (content : list Z) (s : bool) (x : Dir) : Prop :=
  inodes x = <[i := mkInode content s]> (inodes d)
  ∧ entries x = <[temporary := i]> (entries d)
  ∧ versions x = versions d ++ [entries x].

(** The file has been moved over [name]. *)
Definition moved (bs : list Z) (x : Dir) : Prop :=
  inodes x !! i = Some (mkInode bs true) ∧ entries x !! name = Some i
  ∧ entries x !! temporary = None ∧ replaces d i name bs x ∧ wf_dir x
  ∧ ∀ n, n ≠ name → n ≠ temporary → entries x !! n = entries d !! n.

Lemma staged_create : staged [] false (fs_create i temporary d).
Proof. by split. Qed.

Lemma staged_write bs x : staged [] false x → staged bs false (fs_write i bs x).
Proof.
  intros (Hi & He & Hv). unfold staged, fs_write. cbn. rewrite Hi, lookup_insert_eq. cbn.
  by rewrite insert_insert_eq.
Qed.

Lemma staged_sync bs x : staged bs false x → staged bs true (fs_sync i x).
Proof.
  intros (Hi & He & Hv). unfold staged, fs_sync. cbn. rewrite Hi, lookup_insert_eq. cbn.
  by rewrite insert_insert_eq.
Qed.

Lemma staged_replaces content s bs x : staged content s x → replaces d i name bs x.
Proof.
  intros (Hi & He & Hv). split.
  - intros j Hj. rewrite Hi. by rewrite lookup_insert_ne.
  - intros v. rewrite Hv. intros [Hin|Hin]%elem_of_app; left; [by exists v|].
    apply list_elem_of_singleton in Hin as ->. exists (entries d).
    rewrite He. by rewrite lookup_insert_ne.
Qed.

Lemma staged_unlink content s bs x :
  staged content s x → replaces d i name bs (fs_unlink temporary x)
  ∧ entries (fs_unlink temporary x) !! name = entries d !! name.
Proof.
  intros Hs. pose proof Hs as (Hi & He & Hv).
  assert (delete temporary (entries x) !! name = entries d !! name) as Hn.
  { rewrite lookup_delete_ne by done. by rewrite He, lookup_insert_ne. }
  split; [|done]. apply replaces_entries; [by eapply staged_replaces|]. left. by exists (entries d).
Qed.

Lemma staged_rename bs x : staged bs true x → moved bs (fs_rename temporary name x).
Proof.
  intros Hs. pose proof Hs as (Hi & He & Hv). unfold fs_rename. rewrite He, lookup_insert_eq.
  assert (inodes x !! i = Some (mkInode bs true)) as Hx by (by rewrite Hi, lookup_insert_eq).
  split; [done|]. cbn. rewrite lookup_insert_eq. split; [done|]. split; [|split; [|split]].
  - by rewrite lookup_insert_ne, lookup_delete_eq.
  - apply replaces_entries; [by eapply staged_replaces|]. right. by rewrite lookup_insert_eq.
  - unfold wf_dir. cbn. apply elem_of_app. right. by apply list_elem_of_singleton.
  - intros n H1 H2. by rewrite lookup_insert_ne, lookup_delete_ne, lookup_insert_ne.
Qed.

Lemma moved_sync_dir bs x : moved bs x → moved bs (fs_sync_dir x).
Proof.
  intros (H1 & H2 & H3 & H4 & H5 & H6). split; [done|]. split; [done|]. split; [done|].
  split; [by apply replaces_sync_dir|]. split; [by apply list_elem_of_singleton|done].
Qed.

Lemma moved_unlink bs x : moved bs x → moved bs (fs_unlink temporary x).
Proof.
  intros (H1 & H2 & H3 & H4 & H5 & H6). split; [done|]. cbn. rewrite lookup_delete_ne by done.
  split; [done|]. split; [by rewrite lookup_delete_eq|]. split; [|split].
  - apply replaces_entries; [done|]. right. by rewrite lookup_delete_ne.
  - unfold wf_dir. cbn. apply elem_of_app. right. by apply list_elem_of_singleton.
  - intros n ??. rewrite lookup_delete_ne by done. by apply H6.
Qed.

Lemma moved_read bs x : moved bs x → fs_read x name = Some bs.
Proof. intros (H1 & H2 & _). unfold fs_read. rewrite H2. cbn. by rewrite H1. Qed.

(** What the latest directory [x] of a write is. *)
Definition settled (bs : list Z) (renamed : bool) (x : Dir) : Prop :=
  if renamed then moved bs x
  else replaces d i name bs x ∧ entries x !! name = entries d !! name.

Lemma staged_settled content s bs x : staged content s x → settled bs false x.
Proof.
  intros Hs. split; [by eapply staged_replaces|]. destruct Hs as (_ & -> & _). by rewrite lookup_insert_ne.
Qed.

Lemma staged_unlink_settled content s bs x :
  staged content s x → settled bs false (fs_unlink temporary x).
Proof. intros. by eapply staged_unlink. Qed.

(** A synced directory has one version. *)
Lemma moved_synced bs x c : moved bs x → possible (fs_sync_dir x) name c → c = Some bs.
Proof.
  intros (H1 & H2 & _) (d' & [He Hi] & <-). destruct (He name) as (v & Hv & Hn).
  apply list_elem_of_singleton in Hv as ->. unfold fs_read. rewrite Hn. cbn in Hn |- *. rewrite H2. cbn.
  by rewrite (Hi i _ H1 eq_refl).
Qed.

Definition write_spec `{ErrorKinds} (c : WriteCalls) (bs : list Z)
    (t : list Dir * bool * result StoreError unit) : Prop :=
  let '(ds, renamed, r) := t in
  (∀ x, x ∈ ds → replaces d i name bs x) ∧ settled bs renamed (hd d ds)
  ∧ (r = Ok tt → renamed = true ∧ (wc_sync_dir c = None →
       ∀ content, possible (hd d ds) name content → content = Some bs)).

Lemma write_spec_nothing `{ErrorKinds} c bs e : write_spec c bs ([d], false, Err e).
Proof.
  split; [|split; [|done]].
  - intros x ->%list_elem_of_singleton. apply replaces_self.
  - split; [apply replaces_self|done].
Qed.

Lemma create_and_write_spec `{ErrorKinds} c bs :
  wc_inode c = i → write_spec c bs (create_and_write c name temporary bs d).
Proof.
  intros Hi. unfold create_and_write. rewrite Hi.
  destruct (wc_open c); [apply write_spec_nothing|].
  destruct (entries d !! temporary); [apply write_spec_nothing|].
  pose proof staged_create as S0. set (d0 := fs_create i temporary d) in *.
  unfold write_body. rewrite Hi.
  assert (∀ l, Forall (replaces d i name bs) l → Forall (replaces d i name bs) (l ++ [d0; d])) as Hbase.
  { intros l Hl. apply Forall_app. split; [done|].
    forall_each ltac:(first [by eapply staged_replaces|apply replaces_self]). }
  assert (∀ b x l, Forall (replaces d i name bs) (x :: l) → settled bs b x → ∀ e,
    write_spec c bs (x :: l, b, Err e)) as Herr.
  { intros b x l Hl Hx e. split; [|split; [exact Hx|done]]. intros y Hy.
    by eapply Forall_forall in Hl. }
  destruct (wc_written c) as [[n e]|].
  { pose proof (staged_write (take n bs) d0 S0) as S1. cbn [hd].
    apply Herr; [apply Forall_cons; split; [|apply Hbase; forall_each ltac:(by eapply staged_replaces)]|].
    - destruct (wc_unlink c); [by eapply staged_replaces|by eapply staged_unlink].
    - destruct (wc_unlink c); [by eapply staged_settled|by eapply staged_unlink_settled]. }
  pose proof (staged_write bs d0 S0) as S1. set (d1 := fs_write i bs d0) in *.
  destruct (wc_sync c) as [e|].
  { cbn [hd]. apply Herr; [apply Forall_cons; split; [|apply Hbase; forall_each ltac:(by eapply staged_replaces)]|].
    - destruct (wc_unlink c); [by eapply staged_replaces|by eapply staged_unlink].
    - destruct (wc_unlink c); [by eapply staged_settled|by eapply staged_unlink_settled]. }
  pose proof (staged_sync bs d1 S1) as S2. set (d2 := fs_sync i d1) in *.
  destruct (wc_rename c) as [e|].
  { cbn [hd]. apply Herr; [apply Forall_cons; split; [|apply Hbase; forall_each ltac:(by eapply staged_replaces)]|].
    - destruct (wc_unlink c); [by eapply staged_replaces|by eapply staged_unlink].
    - destruct (wc_unlink c); [by eapply staged_settled|by eapply staged_unlink_settled]. }
  pose proof (staged_rename bs d2 S2) as M3. set (d3 := fs_rename temporary name d2) in *.
  assert (∀ x, moved bs x → replaces d i name bs x) as Hmr by (by intros x (_ & _ & _ & ? & _)).
  unfold sync_directory. destruct (wc_sync_dir c) as [e|] eqn:Esd.
  - destruct (is_unsupported_directory_sync e).
    + split; [|split; [exact M3|intros _; split; [done|by rewrite Esd]]]. intros x Hx.
      eapply Forall_forall; [|exact Hx]. apply Hbase. forall_each ltac:(first [by apply Hmr|by eapply staged_replaces]).
    + cbn [hd]. apply Herr.
      * apply Forall_cons; split; [|apply Hbase; forall_each ltac:(first [by apply Hmr|by eapply staged_replaces])].
        apply Hmr. destruct (wc_unlink c); [done|by apply moved_unlink].
      * destruct (wc_unlink c); [done|by apply moved_unlink].
  - pose proof (moved_sync_dir bs d3 M3) as M4. split; [|split; [exact M4|]].
    + intros x Hx. eapply Forall_forall; [|exact Hx]. apply Hbase.
      forall_each ltac:(first [by apply Hmr|by eapply staged_replaces]).
    + intros _. split; [done|]. intros _ content. by apply moved_synced.
Qed.
End Write.

(** ** Properties *)

(** C18: a state file is replaced atomically.  Whatever system call of a write fails and
    wherever the machine crashes during it, afterwards the file has a content it could
    have had before the write or exactly the new bytes, never a torn mixture; a write
    that succeeded with the directory synced survives every crash; and the outcome the
    callers see is right: the file reads as the new bytes after success and after an
    error past the rename, and as before after any other error. *)
Theorem store_write_atomic `{ErrorKinds} max_bytes c name temporary bs d message :
  wf_dir d → unused (wc_inode c) d → name ≠ temporary →
  let '(ds, renamed, r) := write_bytes max_bytes c name temporary bs d in
  (∀ x content, x ∈ ds → possible x name content → possible d name content ∨ content = Some bs)
  ∧ (r = Ok tt → wc_sync_dir c = None →
     ∀ content, possible (hd d ds) name content → content = Some bs)
  ∧ fs_read (hd d ds) name =
      match write_outcome message renamed r with
      | WriteOk | WriteErr true _ => Some bs
      | WriteErr false _ => fs_read d name
      end.
Proof.
  intros Hw Hu Hne. assert (write_spec d (wc_inode c) name temporary c bs
    (write_bytes max_bytes c name temporary bs d)) as Hs.
  { unfold write_bytes. destruct (_ <? _); [apply write_spec_nothing|].
    destruct (wc_parent c); [apply write_spec_nothing|].
    destruct (wc_stat c) as [[]|e]; [apply write_spec_nothing|by apply create_and_write_spec|].
    destruct (e =? ENOENT); [by apply create_and_write_spec|apply write_spec_nothing]. }
  destruct (write_bytes _ _ _ _ _ _) as [[ds renamed] r]. destruct Hs as (H1 & H2 & H3).
  split; [|split].
  - intros x content Hx. by eapply replaces_possible, H1.
  - intros Hr Hsd. by apply (H3 Hr).
  - unfold settled in H2. destruct r as [[]|e]; cbn.
    + destruct (H3 eq_refl) as [-> _]. by eapply moved_read.
    + destruct renamed; [by eapply moved_read|]. destruct H2 as [[Hj _] He]. unfold fs_read. rewrite He.
      destruct (entries d !! name) as [j|] eqn:Ej; [|done]. cbn. rewrite Hj; [done|].
      intros ->. by apply (proj2 Hu (entries d) name Hw).
Qed.

(** The write of a fresh file, with every call succeeding. *)
Definition empty_dir : Dir := mkDir ∅ ∅ [∅].
Definition good_calls : WriteCalls :=
  mkWriteCalls None (Err ENOENT) None 7 None None None None None.

Lemma store_write_atomic_witness :
  let kinds : ErrorKinds := λ _, false in
  let '(ds, renamed, r) := write_bytes DEFAULT_MAX_BYTES good_calls "s" "s.tmp" [1; 2] empty_dir in
  r = Ok tt ∧ fs_read (hd empty_dir ds) "s" = Some [1; 2]
  ∧ ∀ content, possible (hd empty_dir ds) "s" content → content = Some [1; 2].
Proof.
  intros kinds.
  pose proof (store_write_atomic DEFAULT_MAX_BYTES good_calls "s" "s.tmp" [1; 2] empty_dir
    (λ _, "e")) as H.
  destruct (write_bytes _ _ _ _ _ empty_dir) as [[ds renamed] r] eqn:E.
  assert (r = Ok tt) as -> by (vm_compute in E; congruence).
  destruct H as (_ & H2 & H3).
  - by apply list_elem_of_singleton.
  - split; [reflexivity|]. intros v n ->%list_elem_of_singleton. by rewrite lookup_empty.
  - discriminate.
  - split; [reflexivity|]. split; [exact H3|]. apply H2; reflexivity.
Defined.

(** Loading never changes the state file: corrupt content is copied to a fresh file and
    left in place. *)
Lemma load_keeps_file `{ErrorKinds} {V} (from_slice : list Z → option V) max_bytes c name d :
  unused (lc_inode c) d → wf_dir d → name ≠ lc_quarantine c →
  fs_read (load_impl from_slice max_bytes c name d).1 name = fs_read d name.
Proof.
  intros Hu Hw Hne. unfold load_impl. destruct (lc_parent c); [done|]. destruct (lc_open c); [done|].
  destruct (fs_read d name) as [file|] eqn:Ef; [|done]. destruct (negb _); [done|].
  destruct (lc_fcntl c); [done|]. destruct (lc_read c); [done|].
  match goal with |- context [match ?x with Some v => (d, Ok (Present v)) | None => _ end] =>
    destruct x; [done|] end.
  rewrite <- Ef. unfold quarantine.
  destruct (lc_create c); [done|]. destruct (entries d !! lc_quarantine c); [done|].
  set (i := lc_inode c) in *.
  assert (∀ x, entries x !! name = entries d !! name → (∀ j, j ≠ i → inodes x !! j = inodes d !! j) →
    fs_read x name = fs_read d name) as Hframe.
  { intros x He Hj. unfold fs_read. rewrite He. destruct (entries d !! name) as [j|] eqn:Ej; [|done].
    cbn. rewrite Hj; [done|]. intros ->. by apply (proj2 Hu (entries d) name Hw). }
  unfold sync_directory.
  destruct (lc_written c) as [[n e]|]; [|destruct (lc_sync c); [|destruct (lc_sync_dir c) as [e|];
    [destruct (is_unsupported_directory_sync e)|]]]; try destruct (lc_unlink c); cbn [fst];
    apply Hframe; cbn; try (rewrite lookup_delete_ne by done); try (by rewrite lookup_insert_ne);
    intros j Hj; by rewrite ?lookup_insert_ne by done.
Qed.
