(* ===== verification/ResetTime.v ===== *)
(** * Reset times (src/src/recovery/reset_time.rs)

    The parser of human-facing reset messages: a duration ("resets in 2 hours"), or a
    clock time with an optional date and IANA zone.  chrono's calendar and chrono-tz's
    zones are the class [Chrono]; instants are seconds since the epoch with the
    nanoseconds within the second and their offset. *)
From stdpp Require Import pretty.
From S2P Require Import Prelude Text ParseInt Services.
From Stdlib Require Import Ascii.

Local Open Scope Z_scope.

Definition MIN_WALL_FUTURE_SECONDS : Z := 300.
Definition i32_max : Z := 2147483647.

(** [DateTime<FixedOffset>]: [timestamp()], the nanoseconds within the second, and the
    offset. *)
Record DateTime : Type := mkDateTime { timestamp : Z; subsec_nanos : Z; utc_offset : Z }.

Inductive LocalResult : Type :=
| LNone
| LSingle (t : DateTime)
| LAmbiguous (first second : DateTime).

(** chrono and chrono-tz. *)
Class Chrono : Type := {
  NaiveDate : Type;
  Tz : Type;
  date_year : NaiveDate → Z;
  from_ymd_opt : Z → Z → Z → option NaiveDate;
  with_year : NaiveDate → Z → option NaiveDate;
  add_days : NaiveDate → Z → NaiveDate;
  parse_tz : string → option Tz;
  tz_name : Tz → string;
  offset_text : Z → string;
  tz_date : Tz → DateTime → NaiveDate;
  fixed_date : DateTime → NaiveDate;
  tz_local : Tz → NaiveDate → Z → Z → LocalResult;
  fixed_local : Z → NaiveDate → Z → Z → LocalResult;
}.

Record ResetTime : Type := mkResetTime {
  reset_at : DateTime;
  confidence_milli : Z;
  reset_timezone : string;
  margin_seconds : Z;
}.

(** ** Words *)
Definition word_char (a : ascii) : bool := is_ascii_alphanumeric a || Ascii.eqb a ":".

(** [text.split(..).filter(non-empty)]; [cur] is the word being read, reversed. *)
Fixpoint words_from (cur : list ascii) (l : list ascii) : list string :=
  let flush := match cur with [] => [] | _ => [String.string_of_list_ascii (reverse cur)] end in
  match l with
  | [] => flush
  | c :: l => if word_char c then words_from (c :: cur) l else flush ++ words_from [] l
  end.
Definition words (text : string) : list string := words_from [] (bytes text).

(** [&text[text.find(p)?..]]. *)
Fixpoint find_from (p s : string) : option string :=
  if starts_with p s then Some s
  else match s with EmptyString => None | String _ s => find_from p s end.

Definition split_meridiem (token : string) : string * option bool :=
  match strip_suffix "am" token with
  | Some value => (value, Some false)
  | None => match strip_suffix "pm" token with
            | Some value => (value, Some true)
            | None => (token, None)
            end
  end.

Definition meridiem (token : string) : option bool :=
  if String.eqb token "am" then Some false
  else if String.eqb token "pm" then Some true else None.

Definition MONTHS : list string :=
  ["jan"; "feb"; "mar"; "apr"; "may"; "jun"; "jul"; "aug"; "sep"; "oct"; "nov"; "dec"].

(** [&token[..token.len().min(3)]]. *)
Definition month (token : string) : option Z :=
  let three := String.substring 0 3 token in
  (λ p, Z.of_nat p.1 + 1) <$> list_find (λ m, m = three) MONTHS.

(** ** Durations *)
Definition unit_seconds (token : string) : option Z :=
  if starts_with "h" token then Some 3600
  else if starts_with "m" token then Some 60
  else if starts_with "s" token then Some 1
  else None.

Definition checked_i64 (z : Z) : option Z := within (- i64_max - 1) i64_max z.

(** The loop over the words, with [number] and [seconds]. *)
Fixpoint relative_loop (number : option Z) (seconds : Z) (ws : list string) : option Z :=
  match ws with
  | [] => Some seconds
  | token :: ws =>
      match parse_signed i64_max token with
      | Some value => relative_loop (Some value) seconds ws
      | None =>
          match number with
          | None => relative_loop None seconds ws
          | Some value =>
              multiplier ← unit_seconds token;
              product ← checked_i64 (value * multiplier);
              seconds ← checked_i64 (seconds + product);
              if 31536000 <? seconds then None else relative_loop None seconds ws
          end
      end
  end.

Definition or_else {A} (a b : option A) : option A := match a with Some _ => a | None => b end.

Definition parse_relative (text : string) : option Z :=
  fragment ← or_else (find_from "resets in" text)
               (or_else (find_from "reset in" text) (find_from "try again in" text));
  seconds ← relative_loop None 0 (words fragment);
  if 0 <? seconds then Some seconds else None.

(** ** Clock times *)

(** [split_once(':')]. *)
Fixpoint split_colon (s : string) : option (string * string) :=
  match s with
  | EmptyString => None
  | String c s =>
      if Ascii.eqb c ":" then Some ("", s)
      else (λ p, (String c p.1, p.2)) <$> split_colon s
  end.

(** What one token says: nothing, a parse failure that ends the search, or a time. *)
Inductive ClockToken : Type :=
| NotClock
| Unparsable
| Clock (hour minute : Z).

Definition clock_token (token : string) (following : option string) : ClockToken :=
  let '(digits, suffix) := split_meridiem token in
  let following_meridiem := following ≫= meridiem in
  match split_colon digits with
  | Some (h, m) =>
      match parse_unsigned u32_max h, parse_unsigned u32_max m with
      | Some h, Some m => Clock h m
      | _, _ => Unparsable
      end
  | None =>
      if bool_decide (is_Some suffix) || bool_decide (is_Some following_meridiem) then
        match parse_unsigned u32_max digits with Some h => Clock h 0 | None => Unparsable end
      else NotClock
  end.

(** The hour on the 24-hour clock, or [continue]. *)
Definition clock_hour (m : option bool) (hour : Z) : option Z :=
  match m with
  | Some is_pm => if (1 <=? hour) && (hour <=? 12)
                  then Some (hour mod 12 + (if is_pm : bool then 12 else 0)) else None
  | None => if hour <=? 23 then Some hour else None
  end.

Fixpoint clock_loop (ws : list string) : option (Z * Z) :=
  match ws with
  | [] => None
  | token :: ws' =>
      match clock_token token (head ws') with
      | Unparsable => None
      | NotClock => clock_loop ws'
      | Clock hour minute =>
          match clock_hour (or_else (split_meridiem token).2 (head ws' ≫= meridiem)) hour with
          | Some hour => if minute <? 60 then Some (hour, minute) else clock_loop ws'
          | None => clock_loop ws'
          end
      end
  end.
Definition parse_clock (text : string) : option (Z * Z) := clock_loop (words text).

(** ** Dates and zones *)
Section Calendar.
Context `{Chrono}.

(** The date, whether it was named, whether its year was. *)
Fixpoint date_loop (fallback : NaiveDate) (ws : list string) : option (NaiveDate * bool * bool) :=
  match ws with
  | [] => Some (fallback, false, false)
  | token :: ws' =>
      match month token with
      | None => date_loop fallback ws'
      | Some month =>
          day ← head ws' ≫= parse_unsigned u32_max;
          let explicit_year :=
            value ← head (tail ws');
            if len value =? 4 then parse_signed i32_max value else None in
          date ← from_ymd_opt (default (date_year fallback) explicit_year) month day;
          Some (date, true, bool_decide (is_Some explicit_year))
      end
  end.
Definition parse_date (text : string) (fallback : NaiveDate) := date_loop fallback (words text).

Inductive Zone : Type := Iana (z : Tz) | Fixed (offset : Z).

(** [split_whitespace] and [trim_matches] on characters. *)
Fixpoint fields_from (cur : list Z) (l : list Z) : list (list Z) :=
  let flush := match cur with [] => [] | _ => [reverse cur] end in
  match l with
  | [] => flush
  | c :: l => if is_whitespace c then flush ++ fields_from [] l else fields_from (c :: cur) l
  end.

Definition zone_char (c : Z) : bool :=
  ((48 <=? c) && (c <=? 57)) || ((65 <=? c) && (c <=? 90)) || ((97 <=? c) && (c <=? 122)) || (c =? 47).

Fixpoint drop_while (f : Z → bool) (l : list Z) : list Z :=
  match l with [] => [] | c :: l' => if f c then drop_while f l' else l end.
Definition trim_zone (l : list Z) : list Z :=
  reverse (drop_while (negb ∘ zone_char) (reverse (drop_while (negb ∘ zone_char) l))).

Definition zone_of (token : list Z) : option Tz :=
  if existsb (Z.eqb 47) token then parse_tz (string_of_bytes (encode_utf8 token)) else None.

Definition zone_from_text (text : string) (fallback : Z) : Zone :=
  match head (omap (zone_of ∘ trim_zone) (fields_from [] (chars text))) with
  | Some z => Iana z
  | None => Fixed fallback
  end.

Definition zone_name (z : Zone) : string :=
  match z with Iana z => tz_name z | Fixed o => offset_text o end.

Definition local_date (z : Zone) (now : DateTime) : NaiveDate :=
  match z with Iana z => tz_date z now | Fixed _ => fixed_date now end.

Definition candidates (z : Zone) (date : NaiveDate) (hour minute : Z) : option (list DateTime) :=
  match z with
  | Iana z => match tz_local z date hour minute with
              | LNone => None
              | LSingle t => Some [t]
              | LAmbiguous a b => Some [a; b]
              end
  | Fixed o => match fixed_local o date hour minute with LSingle t => Some [t] | _ => None end
  end.

(** [min_by_key(DateTime::timestamp)], the first of the earliest. *)
Definition earliest (l : list DateTime) : option DateTime :=
  match l with
  | [] => None
  | t :: l => Some (foldl (λ best t, if timestamp t <? timestamp best then t else best) t l)
  end.

Definition zone_resolve (z : Zone) (date : NaiveDate) (hour minute : Z) (now : DateTime)
    : option DateTime :=
  if (hour <? 24) && (minute <? 60) then
    cs ← candidates z date hour minute;
    earliest (List.filter (λ t, timestamp now <? timestamp t) cs)
  else None.

(** The wall-clock branch: today or the named date, then the next year or day. *)
Definition resolve_wall (z : Zone) (date : NaiveDate) (named explicit : bool) (hour minute : Z)
    (now : DateTime) : option (option DateTime) :=
  let candidate := zone_resolve z date hour minute now in
  match candidate with
  | Some _ => Some candidate
  | None =>
      if named : bool then
        if negb explicit then
          year ← (if date_year date + 1 <=? i32_max then Some (date_year date + 1) else None);
          date ← with_year date year;
          Some (zone_resolve z date hour minute now)
        else Some None
      else
        Some (or_else (zone_resolve z (add_days date 1) hour minute now)
                (zone_resolve z (add_days date 2) hour minute now))
  end.

Definition parse_reset (text : string) (now : DateTime) : option ResetTime :=
  if is_empty text || (500 <? len text) then None
  else
    let lower := to_ascii_lowercase text in
    if negb (contains "reset" lower || contains "try again" lower) then None
    else
      match parse_relative lower with
      | Some seconds =>
          Some (mkResetTime (mkDateTime (timestamp now + seconds) (subsec_nanos now) (utc_offset now)) 980
                  (offset_text (utc_offset now)) 60)
      | None =>
          let zone := zone_from_text text (utc_offset now) in
          hm ← parse_clock lower;
          dne ← parse_date lower (local_date zone now);
          let '(date, named, explicit) := dne in
          candidate ← resolve_wall zone date named explicit hm.1 hm.2 now;
          at_ ← candidate;
          if negb named && (timestamp at_ - timestamp now <? MIN_WALL_FUTURE_SECONDS) then None
          else Some (mkResetTime at_ (if named : bool then 930 else 860) (zone_name zone) 60)
      end.
End Calendar.

(** ** Durations and clock times, proved *)
Lemma relative_loop_bound number seconds ws z :
  seconds ≤ 31536000 → relative_loop number seconds ws = Some z → z ≤ 31536000.
Proof.
  revert number seconds. induction ws as [|t ws IH]; intros number seconds Hs; cbn; [by intros [= <-]|].
  destruct (parse_signed i64_max t); [by apply IH|]. destruct number as [v|]; [|by apply IH].
  intros (k & _ & H)%bind_Some. apply bind_Some in H as (p & _ & H). apply bind_Some in H as (s & _ & H).
  destruct (Z.ltb_spec 31536000 s); [done|]. by apply (IH None s).
Qed.

Lemma parse_relative_bound text z : parse_relative text = Some z → 0 < z ≤ 31536000.
Proof.
  unfold parse_relative. intros (f & _ & H)%bind_Some. apply bind_Some in H as (s & Hs & H).
  apply relative_loop_bound in Hs; [|done]. destruct (Z.ltb_spec 0 s); [|done]. by injection H as <-.
Qed.

Lemma clock_hour_bound m h h' : 0 ≤ h → clock_hour m h = Some h' → 0 ≤ h' < 24.
Proof.
  intros Hh. unfold clock_hour. destruct m as [pm|].
  - destruct (_ && _); [|done]. intros [= <-]. destruct pm; pose proof (Z.mod_pos_bound h 12); lia.
  - destruct (Z.leb_spec h 23); [|done]. intros [= <-]. lia.
Qed.

Lemma clock_token_bound t f h m : clock_token t f = Clock h m → 0 ≤ h ∧ 0 ≤ m.
Proof.
  unfold clock_token. destruct (split_meridiem t) as [digits suffix].
  destruct (split_colon digits) as [[a b]|].
  - destruct (parse_unsigned u32_max a) eqn:Ea, (parse_unsigned u32_max b) eqn:Eb; try done.
    intros [= <- <-]. apply parse_unsigned_bounds in Ea, Eb. lia.
  - destruct (_ || _); [|done]. destruct (parse_unsigned u32_max digits) eqn:Ed; [|done].
    intros [= <- <-]. apply parse_unsigned_bounds in Ed. lia.
Qed.

Lemma parse_clock_bound text h m : parse_clock text = Some (h, m) → 0 ≤ h < 24 ∧ 0 ≤ m < 60.
Proof.
  unfold parse_clock. induction (words text) as [|t ws IH]; cbn; [done|].
  destruct (clock_token t (head ws)) as [| |hour minute] eqn:Et; [done|done|].
  apply clock_token_bound in Et as [Hh Hm].
  destruct (clock_hour _ hour) as [hr|] eqn:Eh; [|done]. apply clock_hour_bound in Eh; [|done].
  destruct (Z.ltb_spec minute 60); [|done]. intros [= <- <-]. done.
Qed.

Section Future.
Context `{Chrono}.

Lemma earliest_spec l t :
  earliest l = Some t → t ∈ l ∧ Forall (λ x, timestamp t ≤ timestamp x) l.
Proof.
  destruct l as [|x l]; [done|]. intros [= <-].
  assert (∀ l p best, best ∈ p → Forall (λ y, timestamp best ≤ timestamp y) p →
    let r := foldl (λ best t, if timestamp t <? timestamp best then t else best) best l in
    r ∈ p ++ l ∧ Forall (λ y, timestamp r ≤ timestamp y) (p ++ l)) as Hf.
  { clear. intros l. induction l as [|y l IH]; intros p best Hin Hmin; cbn; [by rewrite app_nil_r|].
    rewrite (cons_middle y p l), app_assoc. apply IH.
    - destruct (_ <? _); apply elem_of_app; [right; by apply list_elem_of_singleton|by left].
    - destruct (Z.ltb_spec (timestamp y) (timestamp best)); apply Forall_app; split;
        try (apply Forall_singleton; lia); eapply Forall_impl; [exact Hmin|cbn; intros; lia|exact Hmin|done]. }
  apply (Hf l [x] x); [by apply list_elem_of_singleton|]. by apply Forall_singleton.
Qed.

(** A clock time in a zone means the earliest instant after now that shows it. *)
Lemma zone_resolve_spec z date h m now t :
  zone_resolve z date h m now = Some t →
  ∃ cs, candidates z date h m = Some cs ∧ t ∈ cs ∧ timestamp now < timestamp t
    ∧ ∀ x, x ∈ cs → timestamp now < timestamp x → timestamp t ≤ timestamp x.
Proof.
  unfold zone_resolve. destruct (_ && _); [|done]. intros (cs & Hc & He)%bind_Some.
  apply earliest_spec in He as [Hin Hmin]. exists cs. split; [done|].
  apply list_elem_of_In, filter_In in Hin as [Hin%list_elem_of_In Hf%Z.ltb_lt]. split; [done|].
  split; [done|]. intros x Hx Hlt. rewrite Forall_forall in Hmin. apply Hmin.
  apply list_elem_of_In, filter_In. split; [by apply list_elem_of_In|]. by apply Z.ltb_lt.
Qed.

Lemma zone_resolve_future z date h m now t :
  zone_resolve z date h m now = Some t → timestamp now < timestamp t.
Proof. by intros (cs & _ & _ & ? & _)%zone_resolve_spec. Qed.

Lemma resolve_wall_future z date named explicit h m now t :
  resolve_wall z date named explicit h m now = Some (Some t) → timestamp now < timestamp t.
Proof.
  unfold resolve_wall. destruct (zone_resolve z date h m now) as [c|] eqn:E.
  { intros [= <-]. by apply zone_resolve_future in E. }
  destruct named.
  - destruct (negb explicit); [|done]. intros (y & _ & Hy)%bind_Some.
    apply bind_Some in Hy as (d & _ & [= Hr]). by apply zone_resolve_future in Hr.
  - intros [= Hr]. unfold or_else in Hr.
    destruct (zone_resolve z (add_days date 1) h m now) as [c|] eqn:E1; [|by apply zone_resolve_future in Hr].
    injection Hr as ->. by apply zone_resolve_future in E1.
Qed.

(** A parsed reset time is always in the future and bounded.  Whatever the text, the
    zone data and the calendar, an accepted reset lies strictly after now; a relative one
    at most a year ahead, a bare clock time at least five minutes ahead; the confidence
    says which form was read and the margin is a minute.  Texts without a reset cue, empty
    or longer than 500 bytes are refused. *)
Theorem reset_in_future text now r :
  parse_reset text now = Some r →
  timestamp now < timestamp (reset_at r) ∧ margin_seconds r = 60
  ∧ (confidence_milli r = 980 ∧ timestamp (reset_at r) ≤ timestamp now + 31536000
     ∨ confidence_milli r = 930
     ∨ confidence_milli r = 860
       ∧ timestamp now + MIN_WALL_FUTURE_SECONDS ≤ timestamp (reset_at r))
  ∧ 0 < len text ≤ 500
  ∧ (contains "reset" (to_ascii_lowercase text) = true
     ∨ contains "try again" (to_ascii_lowercase text) = true).
Proof.
  unfold parse_reset. destruct (is_empty text || (500 <? len text)) eqn:El; [done|].
  apply orb_false_iff in El as [Hne Hlen%Z.ltb_ge].
  assert (0 < len text ≤ 500) as Htext.
  { split; [|done]. pose proof (len_nonneg text). assert (len text ≠ 0); [|lia].
    intros Hz%len_zero. subst. done. }
  destruct (contains "reset" _ || contains "try again" _) eqn:Ec; [|done]. cbn [negb].
  apply orb_true_iff in Ec. destruct (parse_relative _) as [s|] eqn:Er.
  { apply parse_relative_bound in Er. intros [= <-]. cbn. split; [lia|]. split; [done|].
    split; [left; split; [done|lia]|done]. }
  intros ([h m] & _ & H1)%bind_Some. apply bind_Some in H1 as ([[date named] explicit] & _ & H1).
  apply bind_Some in H1 as (c & Hc & H1). apply bind_Some in H1 as (t & -> & H1).
  apply resolve_wall_future in Hc. destruct named; cbn [negb andb] in H1.
  - injection H1 as <-. cbn. auto 10.
  - destruct (Z.ltb_spec (timestamp t - timestamp now) MIN_WALL_FUTURE_SECONDS); [done|].
    injection H1 as <-. cbn. split; [done|]. split; [done|]. split; [|done]. right. right. lia.
Qed.

(** A word that ends in "am" and has no digits ends the search for a clock time. *)
Lemma clock_word_ends_search word digits ws :
  strip_suffix "am" word = Some digits → split_colon digits = None →
  parse_unsigned u32_max digits = None → clock_loop (word :: ws) = None.
Proof.
  intros Hs Hc Hd. cbn [clock_loop]. unfold clock_token, split_meridiem. by rewrite Hs, Hc, Hd.
Qed.

(** An ordinary word can hide the reset time.  A word that ends in "am" or "pm"
    before the time ("team", "program") is taken for a clock time whose digits do not
    parse, and a word whose first letters are a month ("may", "market") for a date; either
    ends the search instead of being skipped, so the message is refused whatever zone and
    calendar apply, although the time in it is read when the word is left out. *)
Theorem ordinary_words_hide_reset now :
  parse_reset "Your team limit resets at 5pm" now = None
  ∧ parse_clock "your limit resets at 5pm" = Some (17, 0)
  ∧ parse_reset "You may try again at 5pm" now = None
  ∧ parse_date "you can try again at 5pm" (fixed_date now) = Some (fixed_date now, false, false).
Proof. split_and!; reflexivity. Qed.
End Future.

(** ** A concrete calendar *)
Definition seconds_of_day : Chrono := {|
  NaiveDate := Z; Tz := unit; date_year _ := 2026; from_ymd_opt _ _ d := Some d;
  with_year d _ := Some d; add_days d n := d + n; parse_tz _ := None; tz_name _ := "UTC";
  offset_text o := pretty o; tz_date _ t := timestamp t / 86400; fixed_date t := timestamp t / 86400;
  tz_local _ _ _ _ := LNone;
  fixed_local o d h m := LSingle (mkDateTime (d * 86400 + h * 3600 + m * 60 - o) 0 o);
|}.

Lemma reset_in_future_witness :
  let now := mkDateTime 1000 0 0 in
  ∃ r, parse_reset (H := seconds_of_day) "Your limit resets at 5pm" now = Some r
       ∧ timestamp (reset_at r) = 61200 ∧ timestamp now < timestamp (reset_at r).
Proof.
  intros now. eexists. split; [vm_compute; reflexivity|]. split; [reflexivity|].
  refine (proj1 (reset_in_future (H := seconds_of_day) "Your limit resets at 5pm" now _ _)).
  vm_compute. reflexivity.
Defined.
