(* ===== verification/Lock.v ===== *)
(** * The daemon lock (src/src/daemon/lock.rs)

    One daemon per runtime directory: a lock file that names its owner, guarded by an
    exclusive [flock] for as long as the owner lives.  Any number of processes run
    [acquire] concurrently; each system call is one step, and a process may die between
    any two of them, which releases its [flock].  The JSON decoder of the identity and
    the probe of running processes are parameters. *)
From S2P Require Import Prelude Ipc.

Local Open Scope Z_scope.

Record DaemonIdentity : Type := mkDaemonIdentity {
  di_version : Z;
  di_pid : Z;
  di_start_time : Z;
}.

#[global] Instance DaemonIdentity_eq_dec : EqDecision DaemonIdentity.
Proof. solve_decision. Defined.

(** The lock file: its bytes, its safety ([is_file], owner, mode), the [flock] holder. *)
Record LockFile : Type := mkLockFile {
  lf_bytes : list Z;
  lf_safe : bool;
  lf_holder : option nat;
}.

(** Where a process is in [acquire]. *)
Inductive Pc : Type :=
| Start
| Created                              (** [create_new] succeeded *)
| CreatedLocked
| Exists                               (** [AlreadyExists] *)
| Stale                                (** the recorded owner does not run *)
| Reopened
| TakenOver                            (** [flock] on the existing file *)
| Truncated
| Holds
| Failed
| Dead.

Class LockCodec : Type := {
  identity_bytes : DaemonIdentity → list Z;
  identity_decode : list Z → option DaemonIdentity;
}.

Section Lock.
Context `{LockCodec}.
(** The identity each process would write. *)
Context (ident : nat → DaemonIdentity).

Definition read_lock (f : LockFile) : option DaemonIdentity :=
  if negb (lf_safe f) then None
  else if 4096 <? byte_len (lf_bytes f) then None
  else
    i ← identity_decode (lf_bytes f);
    if di_version i =? 1 then Some i else None.

Record Lock : Type := mkLock {
  lk_file : option LockFile;
  lk_pc : gmap nat Pc;
}.

Definition set_pc (s : Lock) (p : nat) (pc : Pc) : Lock := mkLock (lk_file s) (<[p := pc]> (lk_pc s)).
Definition set_file (s : Lock) (f : LockFile) (p : nat) (pc : Pc) : Lock :=
  mkLock (Some f) (<[p := pc]> (lk_pc s)).

Definition flock (f : LockFile) (p : nat) : LockFile := mkLockFile (lf_bytes f) (lf_safe f) (Some p).
Definition release (f : LockFile) (p : nat) : LockFile :=
  if bool_decide (lf_holder f = Some p) then mkLockFile (lf_bytes f) (lf_safe f) None else f.

(** [probe.start_time(pid)? == Some(start_time)] is the argument [runs]. *)
Inductive lstep (s : Lock) : Lock → Prop :=
| do_create p : lk_pc s !! p = Some Start → lk_file s = None →
    lstep s (set_file s (mkLockFile [] true None) p Created)
| create_exists p f : lk_pc s !! p = Some Start → lk_file s = Some f → lstep s (set_pc s p Exists)
| create_flock p f : lk_pc s !! p = Some Created → lk_file s = Some f → lf_holder f = None →
    lstep s (set_file s (flock f p) p CreatedLocked)
| create_flock_busy p f q : lk_pc s !! p = Some Created → lk_file s = Some f → lf_holder f = Some q →
    lstep s (set_pc s p Failed)
| create_write p f : lk_pc s !! p = Some CreatedLocked → lk_file s = Some f →
    lstep s (set_file s (mkLockFile (identity_bytes (ident p)) (lf_safe f) (lf_holder f)) p Holds)
| read_bad p f : lk_pc s !! p = Some Exists → lk_file s = Some f → read_lock f = None →
    lstep s (set_pc s p Failed)
| probe_running p f i : lk_pc s !! p = Some Exists → lk_file s = Some f → read_lock f = Some i →
    lstep s (set_pc s p Failed)
| probe_stale p f i : lk_pc s !! p = Some Exists → lk_file s = Some f → read_lock f = Some i →
    lstep s (set_pc s p Stale)
| reopen p : lk_pc s !! p = Some Stale → lstep s (set_pc s p Reopened)
| take_over p f : lk_pc s !! p = Some Reopened → lk_file s = Some f → lf_holder f = None →
    lstep s (set_file s (flock f p) p TakenOver)
| take_over_busy p f q : lk_pc s !! p = Some Reopened → lk_file s = Some f → lf_holder f = Some q →
    lstep s (set_pc s p Failed)
| truncate p f : lk_pc s !! p = Some TakenOver → lk_file s = Some f →
    lstep s (set_file s (mkLockFile [] (lf_safe f) (lf_holder f)) p Truncated)
| rewrite_identity p f : lk_pc s !! p = Some Truncated → lk_file s = Some f →
    lstep s (set_file s (mkLockFile (identity_bytes (ident p)) (lf_safe f) (lf_holder f)) p Holds)
| fails p pc : lk_pc s !! p = Some pc → pc ≠ Holds → pc ≠ Dead →
    lstep s (mkLock ((λ f, release f p) <$> lk_file s) (<[p := Failed]> (lk_pc s)))
| dies p pc : lk_pc s !! p = Some pc →
    lstep s (mkLock ((λ f, release f p) <$> lk_file s) (<[p := Dead]> (lk_pc s))).

Inductive lreach (s0 : Lock) : Lock → Prop :=
| lreach_init : lreach s0 s0
| lreach_step s s' : lreach s0 s → lstep s s' → lreach s0 s'.

(** ** Mutual exclusion *)
Definition locked (pc : Pc) : Prop :=
  pc = CreatedLocked ∨ pc = TakenOver ∨ pc = Truncated ∨ pc = Holds.

Definition lock_inv (s : Lock) : Prop :=
  ∀ p pc, lk_pc s !! p = Some pc → locked pc →
    ∃ f, lk_file s = Some f ∧ lf_holder f = Some p
      ∧ (pc = Holds → lf_bytes f = identity_bytes (ident p)).

Lemma locked_excludes s p q pc pc' :
  lock_inv s → lk_pc s !! p = Some pc → locked pc → lk_pc s !! q = Some pc' → locked pc' → p = q.
Proof.
  intros Hi Hp Hl Hq Hl'. destruct (Hi p pc Hp Hl) as (f & Hf & Hh & _).
  destruct (Hi q pc' Hq Hl') as (f' & Hf' & Hh' & _). congruence.
Qed.

(** A step of [p] that leaves the file alone. *)
Lemma set_pc_inv s p pc : lock_inv s → ¬ locked pc → lock_inv (set_pc s p pc).
Proof.
  intros Hi Hn q pc' Hq Hl. cbn in Hq. apply lookup_insert_Some in Hq as [[<- <-]|[_ Hq]]; [done|]. by apply Hi.
Qed.

(** A step of [p] that changes the file while no other process has locked it. *)
Lemma set_file_inv s p pc f :
  lock_inv s → (∀ q pc', q ≠ p → lk_pc s !! q = Some pc' → ¬ locked pc') →
  (locked pc → lf_holder f = Some p) → (pc = Holds → lf_bytes f = identity_bytes (ident p)) →
  lock_inv (set_file s f p pc).
Proof.
  intros Hi Ho Hh Hb q pc' Hq Hl. cbn in Hq.
  apply lookup_insert_Some in Hq as [[<- <-]|[Hne Hq]]; [eexists; eauto|].
  by destruct (Ho q pc' ltac:(done) Hq).
Qed.

Lemma release_inv s p pc :
  lock_inv s → ¬ locked pc →
  lock_inv (mkLock ((λ f, release f p) <$> lk_file s) (<[p := pc]> (lk_pc s))).
Proof.
  intros Hi Hn q pc' Hq Hl. cbn in Hq.
  apply lookup_insert_Some in Hq as [[<- <-]|[Hne Hq]]; [done|].
  destruct (Hi q pc' Hq Hl) as (f & Hf & Hh & Hb). exists f. cbn. rewrite Hf. cbn. split; [|done].
  unfold release. rewrite bool_decide_eq_false_2; [done|congruence].
Qed.

Lemma none_locked s :
  lock_inv s → match lk_file s with Some f => lf_holder f = None | None => True end →
  ∀ q pc, lk_pc s !! q = Some pc → ¬ locked pc.
Proof.
  intros Hi Hf q pc Hq Hl. destruct (Hi q pc Hq Hl) as (f & Hf' & Hh & _). rewrite Hf' in Hf. congruence.
Qed.

Lemma lstep_inv s s' : lock_inv s → lstep s s' → lock_inv s'.
Proof.
  intros Hi Hs.
  assert (∀ p pc, lk_pc s !! p = Some pc → locked pc → ∀ q pc', q ≠ p → lk_pc s !! q = Some pc' → ¬ locked pc')
    as Hex by (intros p pc Hp Hl q pc' Hne Hq Hl'; by rewrite (locked_excludes s p q pc pc') in Hne).
  assert (∀ p pc f, lk_pc s !! p = Some pc → locked pc → lk_file s = Some f → lf_holder f = Some p) as Hown.
  { intros p pc f Hp Hl Hf. destruct (Hi p pc Hp Hl) as (f' & Hf' & Hh & _). congruence. }
  unfold locked in Hex, Hown.
  destruct Hs as [p Hp Hf|p f Hp Hf|p f Hp Hf Hh|p f q Hp Hf Hh|p f Hp Hf|p f Hp Hf Hr|p f i Hp Hf Hr
    |p f i Hp Hf Hr|p Hp|p f Hp Hf Hh|p f q Hp Hf Hh|p f Hp Hf|p f Hp Hf|p pc Hp H1 H2|p pc Hp].
  all: try (apply set_pc_inv; [done|by intros [|[|[|]]]]).
  all: try (apply release_inv; [done|by intros [|[|[|]]]]).
  - apply set_file_inv; [done| |by intros [|[|[|]]]|done].
    intros q pc _ Hq. eapply none_locked; [done| |exact Hq]. by rewrite Hf.
  - apply set_file_inv; [done| |done|done].
    intros q pc _ Hq. eapply none_locked; [done| |exact Hq]. by rewrite Hf.
  - apply set_file_inv; [done|eapply Hex; [done|by left]| |done].
    intros _. cbn. apply (Hown p _ f Hp); [by left|done].
  - apply set_file_inv; [done| |done|done].
    intros q pc _ Hq. eapply none_locked; [done| |exact Hq]. by rewrite Hf.
  - apply set_file_inv; [done|eapply Hex; [done|by right; left]| |done].
    intros _. cbn. apply (Hown p _ f Hp); [by right; left|done].
  - apply set_file_inv; [done|eapply Hex; [done|by right; right; left]| |done].
    intros _. cbn. apply (Hown p _ f Hp); [by right; right; left|done].
Qed.

Lemma lreach_inv s0 s : lock_inv s0 → lreach s0 s → lock_inv s.
Proof. intros Hi. induction 1; [done|by eapply lstep_inv]. Qed.

(** C25: at most one daemon holds the lock.  However many processes start at once, over
    a missing, stale or damaged lock file, with crashes and failed system calls between
    any two steps, no two of them hold the lock together, and while one holds it the file
    names it. *)
Theorem daemon_lock_exclusive s0 s p q :
  (∀ r pc, lk_pc s0 !! r = Some pc → pc = Start) → lreach s0 s →
  lk_pc s !! p = Some Holds → lk_pc s !! q = Some Holds →
  p = q ∧ ∃ f, lk_file s = Some f ∧ lf_holder f = Some p ∧ lf_bytes f = identity_bytes (ident p).
Proof.
  intros Hs0 Hr Hp Hq. assert (lock_inv s) as Hi.
  { eapply lreach_inv; [|done]. intros r pc Hr'%Hs0 Hl. subst. by destruct Hl as [|[|[|]]]. }
  split; [eapply locked_excludes; [done|exact Hp| |exact Hq|]; by right; right; right|].
  destruct (Hi p Holds Hp) as (f & Hf & Hh & Hb); [by right; right; right|]. eauto 10.
Qed.

(** ** A damaged lock file *)

(** Nobody is past reading the file, and the file cannot be read. *)
Definition stuck (s : Lock) : Prop :=
  (∃ f, lk_file s = Some f ∧ read_lock f = None)
  ∧ ∀ p pc, lk_pc s !! p = Some pc → pc ∈ [Start; Exists; Failed; Dead].

Lemma read_lock_release f p : read_lock (release f p) = read_lock f.
Proof. unfold release. by destruct (bool_decide _). Qed.

Lemma stuck_step s s' : stuck s → lstep s s' → stuck s'.
Proof.
  intros [(f & Hf & Hr) Hpc] Hs.
  assert (∀ p pc, pc ∈ [Start; Exists; Failed; Dead] → stuck (set_pc s p pc)) as Hset.
  { intros p pc Hin. split; [by exists f|]. intros q pc' Hq. cbn in Hq. apply lookup_insert_Some in Hq as [[<- <-]|[_ Hq]]; [done|].
    by eapply Hpc. }
  assert (∀ p pc, pc ∈ [Start; Exists; Failed; Dead] →
    stuck (mkLock ((λ f, release f p) <$> lk_file s) (<[p := pc]> (lk_pc s)))) as Hrel.
  { intros p pc Hin. split; [exists (release f p); cbn; by rewrite Hf, read_lock_release|].
    intros q pc' Hq. cbn in Hq. apply lookup_insert_Some in Hq as [[<- <-]|[_ Hq]]; [done|]. by eapply Hpc. }
  assert (∀ p pc, lk_pc s !! p = Some pc → pc ∉ [Start; Exists; Failed; Dead] → False) as Hno
    by (intros p pc Hp Hn; by apply Hn, (Hpc p)).
  destruct Hs as [p Hp Hf'|p f' Hp Hf'|p f' Hp Hf' Hh|p f' q Hp Hf' Hh|p f' Hp Hf'|p f' Hp Hf' Hr'|p f' i Hp Hf' Hr'
    |p f' i Hp Hf' Hr'|p Hp|p f' Hp Hf' Hh|p f' q Hp Hf' Hh|p f' Hp Hf'|p f' Hp Hf'|p pc Hp H1 H2|p pc Hp];
    try congruence; try (by apply Hset; set_solver); try (by apply Hrel; set_solver);
    (exfalso; eapply Hno; [exact Hp|set_solver]).
Qed.

Lemma stuck_reach s s' : stuck s → lreach s s' → stuck s'.
Proof. intros Hs. induction 1; [done|by eapply stuck_step]. Qed.

(** A crash while the lock file is written keeps every later daemon out.  A daemon
    that dies between creating the file and writing its identity leaves an empty file;
    it does not decode, and [acquire] reports that instead of taking the file over, so
    however many daemons are started afterwards none of them ever holds the lock. *)
Theorem torn_lock_never_acquired others :
  identity_decode [] = None → (∀ r pc, others !! r = Some pc → pc = Start) →
  ∃ s, lreach (mkLock None (<[0%nat := Start]> others)) s ∧ lk_pc s !! 0%nat = Some Dead
    ∧ ∀ s' p, lreach s s' → lk_pc s' !! p ≠ Some Holds.
Proof.
  intros Hd Ho. set (s0 := mkLock None (<[0%nat := Start]> others)).
  assert (lstep s0 (set_file s0 (mkLockFile [] true None) 0 Created)) as S1.
  { apply do_create; [|done]. subst s0. cbn. by rewrite lookup_insert_eq. }
  set (s1 := set_file _ _ _ _) in S1.
  assert (lk_pc s1 !! 0%nat = Some Created) as P1 by (subst s1; cbn; by rewrite lookup_insert_eq).
  set (s2 := mkLock ((λ f, release f 0) <$> lk_file s1) (<[0%nat := Dead]> (lk_pc s1))).
  assert (lstep s1 s2) as S2 by (by eapply dies).
  exists s2. split; [|split].
  - eapply lreach_step; [|exact S2]. eapply lreach_step; [apply lreach_init|exact S1].
  - subst s2. cbn. by rewrite lookup_insert_eq.
  - intros s' p Hr Hp. assert (stuck s2) as Hst.
    { split.
      - eexists. split; [reflexivity|]. rewrite read_lock_release. unfold read_lock. cbn. by rewrite Hd.
      - intros q pc. subst s2 s1 s0. cbn.
        intros [[<- <-]|[Hne Hq]]%lookup_insert_Some; [rewrite !elem_of_cons; auto 10|].
        rewrite !lookup_insert_ne in Hq by done. rewrite (Ho _ _ Hq). by left. }
    destruct (stuck_reach _ _ Hst Hr) as [_ Hpc]. specialize (Hpc p _ Hp).
    rewrite !elem_of_cons, elem_of_nil in Hpc. naive_solver.
Qed.
End Lock.

(** ** Concrete locks *)
Definition toy_codec : LockCodec := {|
  identity_bytes i := [di_version i; di_pid i; di_start_time i];
  identity_decode b := match b with [v; p; t] => Some (mkDaemonIdentity v p t) | _ => None end;
|}.
Definition toy_ident (p : nat) : DaemonIdentity := mkDaemonIdentity 1 (Z.of_nat p) 5.

Lemma toy_run :
  ∃ s, lreach (H := toy_codec) toy_ident (mkLock None {[0%nat := Start; 1%nat := Start]}) s
       ∧ lk_pc s !! 0%nat = Some Holds.
Proof.
  pose proof (lreach_init (H := toy_codec) toy_ident (mkLock None {[0%nat := Start; 1%nat := Start]})) as R.
  eapply lreach_step in R; [|apply (do_create toy_ident _ 0); reflexivity].
  eapply lreach_step in R; [|eapply (create_flock toy_ident _ 0); reflexivity].
  eapply lreach_step in R; [|eapply (create_write toy_ident _ 0); reflexivity].
  eexists. split; [exact R|]. reflexivity.
Qed.

Lemma toy_starts r pc :
  ({[0%nat := Start; 1%nat := Start]} : gmap nat Pc) !! r = Some pc → pc = Start.
Proof.
  intros [[_ <-]|[_ [_ <-]%lookup_singleton_Some]]%lookup_insert_Some; done.
Qed.

Lemma daemon_lock_exclusive_witness :
  ∃ s f, lk_file s = Some f ∧ lf_holder f = Some 0%nat.
Proof.
  destruct toy_run as (s & Hr & Hp).
  destruct (daemon_lock_exclusive (H := toy_codec) toy_ident
    (mkLock None {[0%nat := Start; 1%nat := Start]}) s 0 0 toy_starts Hr Hp Hp)
    as (_ & f & Hf & Hh & _).
  exists s, f. exact (conj Hf Hh).
Defined.

Lemma torn_lock_never_acquired_witness :
  ∃ s, lk_pc s !! 0%nat = Some Dead ∧ lk_pc s !! 1%nat ≠ Some Holds.
Proof.
  destruct (torn_lock_never_acquired (H := toy_codec) toy_ident {[1%nat := Start]} eq_refl)
    as (s & _ & Hd & Hn).
  - intros r pc [_ <-]%lookup_singleton_Some. reflexivity.
  - exists s. split; [exact Hd|]. apply Hn, lreach_init.
Defined.
