(* ===== verification/Hooks.v ===== *)
(** * Claude hooks (src/src/hooks/claude.rs)

    The StopFailure hook: the command written into Claude's settings, its installation
    and removal, the payload Claude hands to it, and the markers made of it and kept by
    the reader; the marker file itself is in HookFiles.
    Settings are JSON values whose objects are kept in key order; paths are their text. *)
From S2P Require Import Prelude Json Text.
From Stdlib Require Import Ascii.

Local Open Scope Z_scope.

Definition WATCHME_MARKER : string := "watchme_stop_failure_v1".
Definition STOP_FAILURE_MATCHER : string := "rate_limit|overloaded|server_error".

Record HookMarker : Type := mkMarker {
  mk_session_id : string;
  mk_transcript_path : string;
  mk_error_type : string;
  mk_detail : string;
}.

#[global] Instance HookMarker_eq_dec : EqDecision HookMarker.
Proof. solve_decision. Defined.

(** ** Paths *)

(** [Path::is_absolute] on Unix. *)
Definition is_absolute (path : string) : bool := starts_with "/" path.

(** [Path::components]: empty and current-directory components are dropped, a leading
    current directory of a relative path is kept. *)
Fixpoint split_slash (cur : list ascii) (l : list ascii) : list (list ascii) :=
  match l with
  | [] => [reverse cur]
  | c :: l =>
      if Ascii.eqb c "/" then reverse cur :: split_slash [] l else split_slash (c :: cur) l
  end.

Definition normal_component (c : list ascii) : bool :=
  negb (bool_decide (c = [])) && negb (bool_decide (c = bytes ".")).

Definition components (path : string) : bool * list (list ascii) :=
  let parts := split_slash [] (bytes path) in
  (is_absolute path,
   match parts with
   | first :: rest =>
       (if negb (is_absolute path) && bool_decide (first = bytes ".") then [first]
        else List.filter normal_component [first])
       ++ List.filter normal_component rest
   | [] => []
   end).

(** [PartialEq for Path]. *)
Definition path_eqb (a b : string) : bool := bool_decide (components a = components b).

(** ** The command *)
Definition validate_marker_path (marker : string) : result string unit :=
  if negb (is_absolute marker) || is_empty marker
     || existsb (λ b, (byte_val b =? 0) || (byte_val b =? 10) || (byte_val b =? 13)) (bytes marker)
  then Err "hook marker path must be an absolute single-line path" else Ok tt.

Definition APOS : ascii := "'".
Definition BACKSLASH : ascii := "\".

(** [value.replace('\'', "'\\''")] between single quotes. *)
Definition quote_char (c : ascii) : list ascii :=
  if Ascii.eqb c APOS then [APOS; BACKSLASH; APOS; APOS] else [c].

Definition posix_single_quote (value : string) : string :=
  String.string_of_list_ascii (APOS :: mbind quote_char (bytes value) ++ [APOS]).

Definition stop_failure_command (marker : string) : result string string :=
  let? _ := validate_marker_path marker in
  Ok ("watchme watchme-hook-stop-failure --marker " +:+ posix_single_quote marker).

(** ** JSON objects *)
Definition Fields : Type := list (string * Value).

Fixpoint field (k : string) (fs : Fields) : option Value :=
  match fs with
  | [] => None
  | (k', v) :: fs => if String.eqb k k' then Some v else field k fs
  end.

(** Assigning a key that is present, and a new key in key order. *)
Fixpoint replace_field (k : string) (v : Value) (fs : Fields) : Fields :=
  match fs with
  | [] => []
  | (k', v') :: fs => if String.eqb k k' then (k', v) :: fs else (k', v') :: replace_field k v fs
  end.

Fixpoint insert_field (k : string) (v : Value) (fs : Fields) : Fields :=
  match fs with
  | [] => [(k, v)]
  | (k', v') :: fs' =>
      if String.ltb k k' then (k, v) :: fs else (k', v') :: insert_field k v fs'
  end.

Definition set_field (k : string) (v : Value) (fs : Fields) : Fields :=
  match field k fs with Some _ => replace_field k v fs | None => insert_field k v fs end.

(** [Value::get] with a string index, [as_array], [as_object]. *)
Definition get_field (k : string) (v : Value) : option Value :=
  match v with VObject fs => field k fs | _ => None end.
Definition as_array (v : Value) : option (list Value) :=
  match v with VArray l => Some l | _ => None end.
Definition as_object (v : Value) : option Fields :=
  match v with VObject fs => Some fs | _ => None end.

(** ** Installation and removal *)
Definition handler_owns_watchme (command : string) (handler : Value) : bool :=
  opt_str_eqb (get_field "type" handler ≫= as_str) (Some "command")
  && opt_str_eqb (get_field "command" handler ≫= as_str) (Some command).

Definition group_owns_watchme (command : string) (group : Value) : bool :=
  match get_field "hooks" group ≫= as_array with
  | Some handlers => existsb (handler_owns_watchme command) handlers
  | None => false
  end.

Definition own_handler (command : string) : Value :=
  VObject [("command", VString command); ("type", VString "command")].
Definition own_group (command : string) : Value :=
  VObject [("hooks", VArray [own_handler command]); ("matcher", VString STOP_FAILURE_MATCHER)].

(** The changes to the settings value: [None] when nothing is written. *)
Definition install_root (command : string) (root : Value) : result string (option Value) :=
  let? top := ok_or (as_object root) "Claude settings root must be object" in
  let? hooks := ok_or (as_object (default (VObject []) (field "hooks" top)))
                  "Claude hooks must be object" in
  let? groups := ok_or (as_array (default (VArray []) (field "StopFailure" hooks)))
                   "StopFailure hook must be array" in
  if existsb (group_owns_watchme command) groups then Ok None
  else Ok (Some (VObject (set_field "hooks"
              (VObject (set_field "StopFailure" (VArray (groups ++ [own_group command])) hooks))
              top))).

Definition install_stop_failure_hook (parent : result string unit) (settings : result string Value)
    (write : result string unit) (marker : string) : result string (option Value) :=
  let? _ := parent in
  let? command := stop_failure_command marker in
  let? root := settings in
  let? r := install_root command root in
  match r with
  | None => Ok None
  | Some root => let? _ := write in Ok (Some root)
  end.

(** One group under [retain_mut]: what is kept of it, and whether it changed. *)
Definition strip_group (command : string) (group : Value) : option Value * bool :=
  if opt_str_eqb (get_field "watchme_marker" group ≫= as_str) (Some WATCHME_MARKER)
  then (None, true)
  else
    match group with
    | VObject fs =>
        match field "hooks" fs ≫= as_array with
        | None => (Some group, false)
        | Some handlers =>
            let kept := List.filter (λ h, negb (handler_owns_watchme command h)) handlers in
            let changed := negb (length kept =? length handlers)%nat in
            (match kept with
             | [] => None
             | _ => Some (VObject (set_field "hooks" (VArray kept) fs))
             end, changed)
        end
    | _ => (Some group, false)
    end.

Definition remove_root (command : string) (root : Value) : option Value :=
  top ← as_object root;
  hooks ← field "hooks" top ≫= as_object;
  groups ← field "StopFailure" hooks ≫= as_array;
  let stripped := strip_group command <$> groups in
  if existsb snd stripped
  then Some (VObject (set_field "hooks"
          (VObject (set_field "StopFailure" (VArray (omap fst stripped)) hooks)) top))
  else None.

Definition remove_stop_failure_hook (settings : result string Value)
    (write : result string unit) (marker : string) : result string (option Value) :=
  let? command := stop_failure_command marker in
  let? root := settings in
  match remove_root command root with
  | None => Ok None
  | Some root => let? _ := write in Ok (Some root)
  end.

(** ** Payloads *)
Definition optional_string (object : Fields) (name : string) (max : Z) : result string (option string) :=
  match field name object with
  | None => Ok None
  | Some value =>
      let? text := ok_or (as_str value) ("Claude hook payload field " +:+ name +:+ " must be a string") in
      if is_empty text || (max <? len text)
      then Err ("Claude hook payload field " +:+ name +:+ " is out of bounds")
      else Ok (Some text)
  end.

Definition required_string (object : Fields) (name : string) (max : Z) : result string string :=
  let? o := optional_string object name max in
  ok_or o ("Claude hook payload lacks " +:+ name).

Definition contains_line_control (text : string) : bool := existsb is_control (chars text).

Definition contains_secret_like (text : string) : bool :=
  let lower := to_ascii_lowercase text in
  existsb (λ needle, contains needle lower)
    ["bearer "; "api_key"; "api key"; "authorization:"; "password"; "secret"; "sk-"].

Definition error_type_byte (b : ascii) : bool :=
  is_ascii_alphanumeric b || (byte_val b =? 95) || (byte_val b =? 45).

Definition cwd_relative (cwd : option string) : bool :=
  match cwd with Some c => negb (is_absolute c) | None => false end.

(** [payload] is the result of serde_json's parser. *)
Definition parse_stop_failure_payload (payload : option Value) : result string HookMarker :=
  let? value := ok_or payload "Claude hook payload is not valid JSON" in
  let? object := ok_or (as_object value) "Claude hook payload must be an object" in
  let? session := required_string object "session_id" 256 in
  let? transcript := required_string object "transcript_path" 4096 in
  let? error := required_string object "error" 128 in
  let? _ := fail_if (negb (opt_str_eqb (field "hook_event_name" object ≫= as_str) (Some "StopFailure")))
              "Claude hook payload is not StopFailure" in
  let? cwd := optional_string object "cwd" 4096 in
  let? _ := fail_if (cwd_relative cwd) "Claude hook cwd must be absolute" in
  let? _ := optional_string object "permission_mode" 128 in
  let? _ := fail_if (negb (is_absolute transcript) || contains_line_control session
                     || contains_line_control transcript
                     || negb (forallb error_type_byte (bytes error)))
              "Claude hook payload contains invalid identity fields" in
  let? details := optional_string object "error_details" 4096 in
  let? message := optional_string object "last_assistant_message" 4096 in
  let detail := default "StopFailure" (match details with Some _ => details | None => message end) in
  let? _ := fail_if (contains_secret_like detail || contains_line_control detail)
              "Claude hook payload detail is unsafe to persist" in
  Ok (mkMarker session transcript error detail).

(** ** The marker file *)
Definition valid_marker (m : HookMarker) : bool :=
  negb (is_empty (mk_session_id m)) && (len (mk_session_id m) <=? 256)
  && is_absolute (mk_transcript_path m) && (len (mk_transcript_path m) <=? 4096)
  && (len (mk_error_type m) <=? 128) && (len (mk_detail m) <=? 4096).

(** serde_json on one marker. *)
Class MarkerCodec : Type := {
  encode_marker : HookMarker → result string string;
  decode_marker : string → option HookMarker;
}.

Section Markers.
Context `{MarkerCodec}.

Definition MAX_MARKERS : nat := 256.

(** One line of the loop; [None] once a line could not be read. *)
Definition keep_marker (kept : list HookMarker) (line : string) : list HookMarker :=
  if 8192 <? len line then kept
  else
    match decode_marker line with
    | Some m =>
        if valid_marker m
        then (if (length kept =? MAX_MARKERS)%nat then drop 1 kept else kept) ++ [m]
        else kept
    | None => kept
    end.

Fixpoint read_lines (kept : list HookMarker) (lines : list (result string string))
    : result string (list HookMarker) :=
  match lines with
  | [] => Ok kept
  | l :: lines => let? line := l in read_lines (keep_marker kept line) lines
  end.

End Markers.

Definition marker_matches (session transcript : string) (m : HookMarker) : bool :=
  String.eqb (mk_session_id m) session && path_eqb (mk_transcript_path m) transcript.

Definition correlate_marker (markers : list HookMarker) (session transcript : string)
    : option HookMarker :=
  List.find (marker_matches session transcript) (reverse markers).

(** ** The command is one argument

    The word splitting of a POSIX shell, for text without expansions: blanks separate
    words, quotes and backslashes are removed, any other special character is refused. *)
Definition shell_special (c : ascii) : bool :=
  existsb (Z.eqb (byte_val c)) [9; 10; 33; 34; 35; 36; 38; 40; 41; 42; 59; 60; 62; 63; 91; 92; 94; 96; 123; 124; 125; 126].

Definition flush_word (cur : option (list ascii)) : list (list ascii) :=
  match cur with Some w => [w] | None => [] end.
Definition extend_word (cur : option (list ascii)) (w : list ascii) : option (list ascii) :=
  Some (default [] cur ++ w).

Fixpoint shell_words (quoted : bool) (cur : option (list ascii)) (l : list ascii)
    : option (list (list ascii)) :=
  match l with
  | [] => if quoted then None else Some (flush_word cur)
  | c :: l' =>
      if Ascii.eqb c APOS then shell_words (negb quoted) (extend_word cur []) l'
      else if quoted then shell_words true (extend_word cur [c]) l'
      else if Ascii.eqb c BACKSLASH then
        match l' with
        | [] => None
        | d :: l'' => shell_words false (extend_word cur [d]) l''
        end
      else if Ascii.eqb c " " then
        ws ← shell_words false None l'; Some (flush_word cur ++ ws)
      else if shell_special c then None
      else shell_words false (extend_word cur [c]) l'
  end.

Lemma shell_quoted value w rest :
  shell_words true (Some w) (mbind quote_char value ++ rest)
  = shell_words true (Some (w ++ value)) rest.
Proof.
  revert w. induction value as [|c value IH]; intros w; cbn [mbind list_bind app];
    [by rewrite app_nil_r|].
  rewrite <- app_assoc. unfold quote_char at 1. destruct (Ascii.eqb c APOS) eqn:E; cbn [app].
  - apply Ascii.eqb_eq in E as ->. cbn -[mbind]. unfold extend_word. simpl default. rewrite !app_nil_r. etrans; [apply IH|].
    cbn [id]. by rewrite <- app_assoc.
  - cbn [shell_words]. rewrite E. unfold extend_word. simpl default. rewrite IH. by rewrite <- app_assoc.
Qed.

Lemma bytes_string_of_list l : bytes (String.string_of_list_ascii l) = l.
Proof. apply String.list_ascii_of_string_of_list_ascii. Qed.

Lemma bytes_app s t : bytes (s +:+ t) = bytes s ++ bytes t.
Proof. unfold bytes. induction s as [|c s IH]; [done|]. exact (f_equal (cons c) IH). Qed.

(** The command written into Claude's settings is read by a POSIX shell as exactly
    four words, the fixed program and option and the marker path as it is, whatever
    blanks, quotes or shell characters the path holds. *)
Theorem hook_command_quotes_path marker command :
  stop_failure_command marker = Ok command →
  shell_words false None (bytes command)
  = Some [bytes "watchme"; bytes "watchme-hook-stop-failure"; bytes "--marker"; bytes marker].
Proof.
  unfold stop_failure_command. intros (u & _ & [= <-])%rbind_Ok.
  rewrite bytes_app. unfold posix_single_quote. rewrite bytes_string_of_list.
  set (q := mbind quote_char (bytes marker) ++ [APOS]).
  assert (shell_words true (extend_word None []) q = Some [bytes marker]) as Hq.
  { unfold q, extend_word. rewrite shell_quoted. cbn. by rewrite app_nil_r. }
  clearbody q. cbn. by rewrite Hq.
Qed.

(** ** Fields *)
Lemma field_replace k v fs k' :
  field k' (replace_field k v fs)
  = if String.eqb k' k then (match field k fs with Some _ => Some v | None => None end)
    else field k' fs.
Proof.
  induction fs as [|[j w] fs IH]; cbn [field replace_field]; [by destruct (String.eqb k' k)|].
  destruct (String.eqb_spec k j) as [<-|Hkj]; cbn [field].
  - by destruct (String.eqb k' k).
  - rewrite IH. destruct (String.eqb_spec k' j) as [->|]; [|done].
    destruct (String.eqb_spec j k); [congruence|done].
Qed.

Lemma field_insert k v fs k' :
  field k fs = None →
  field k' (insert_field k v fs) = if String.eqb k' k then Some v else field k' fs.
Proof.
  induction fs as [|[j w] fs IH]; cbn [field insert_field]; [done|].
  destruct (String.eqb_spec k j) as [|Hkj]; [done|]. intros Hn.
  destruct (String.ltb k j); cbn [field]; [done|]. rewrite IH by done.
  destruct (String.eqb_spec k' j) as [->|]; [|done].
  destruct (String.eqb_spec j k); [congruence|done].
Qed.

Lemma field_set k v fs k' :
  field k' (set_field k v fs) = if String.eqb k' k then Some v else field k' fs.
Proof.
  unfold set_field. destruct (field k fs) eqn:E; [|by apply field_insert].
  rewrite field_replace, E. done.
Qed.

Lemma field_set_eq k v fs : field k (set_field k v fs) = Some v.
Proof. by rewrite field_set, String.eqb_refl. Qed.

Lemma replace_same k v fs : field k fs = Some v → replace_field k v fs = fs.
Proof.
  induction fs as [|[j w] fs IH]; cbn; [done|]. destruct (String.eqb k j); [congruence|].
  intros. by rewrite IH.
Qed.

Lemma set_same k v fs : field k fs = Some v → set_field k v fs = fs.
Proof. intros E. unfold set_field. rewrite E. by apply replace_same. Qed.

(** The StopFailure groups of a settings value, and everything else it holds. *)
Definition stop_groups (root : Value) : list Value :=
  default [] ((get_field "hooks" root ≫= get_field "StopFailure") ≫= as_array).

Definition same_otherwise (root root' : Value) : Prop :=
  (∀ k, k ≠ "hooks" → get_field k root' = get_field k root)
  ∧ ∀ k, k ≠ "StopFailure" →
      (get_field "hooks" root' ≫= get_field k) = (get_field "hooks" root ≫= get_field k).

(** A group the installer would not drop on removal: no mark of an earlier version, and
    at least one handler. *)
Definition clean_group (group : Value) : Prop :=
  (get_field "watchme_marker" group ≫= as_str) ≠ Some WATCHME_MARKER
  ∧ (get_field "hooks" group ≫= as_array) ≠ Some [].

Lemma set_groups_spec top hooks groups root' :
  root' = VObject (set_field "hooks" (VObject (set_field "StopFailure" (VArray groups) hooks)) top) →
  as_object (default (VObject []) (field "hooks" top)) = Some hooks →
  stop_groups root' = groups ∧ same_otherwise (VObject top) root'.
Proof.
  intros -> Hh. unfold stop_groups, same_otherwise. cbn [get_field].
  rewrite field_set_eq. cbn [mbind option_bind get_field]. rewrite field_set_eq. split; [done|].
  split; intros k Hk.
  - rewrite field_set. by apply String.eqb_neq in Hk as ->.
  - rewrite field_set. apply String.eqb_neq in Hk as Hk'. rewrite Hk'.
    destruct (field "hooks" top) as [v|]; cbn in *; [by destruct v; naive_solver|].
    by injection Hh as <-.
Qed.

Lemma own_group_owned command : group_owns_watchme command (own_group command) = true.
Proof.
  unfold group_owns_watchme, own_group, handler_owns_watchme, own_handler, opt_str_eqb. cbn.
  by rewrite !bool_decide_eq_true_2 by done.
Qed.

Lemma strip_own_group command : strip_group command (own_group command) = (None, true).
Proof.
  unfold strip_group, own_group, handler_owns_watchme, own_handler, opt_str_eqb. cbn.
  repeat case_bool_decide; try done; naive_solver.
Qed.

(** A clean group without our handler is left as it is. *)
Lemma strip_foreign_group command group :
  group_owns_watchme command group = false → clean_group group →
  strip_group command group = (Some group, false).
Proof.
  unfold group_owns_watchme, clean_group, strip_group. intros Ho [Hm Hh].
  replace (opt_str_eqb (get_field "watchme_marker" group ≫= as_str) (Some WATCHME_MARKER)) with false
    by (symmetry; by apply bool_decide_eq_false_2).
  destruct group as [| | | | |fs]; try done. cbn [get_field] in *.
  destruct (field "hooks" fs) as [v|] eqn:Ef; cbn in *; [|done].
  destruct v as [| | | |handlers|]; cbn in *; try done.
  assert (List.filter (λ h, negb (handler_owns_watchme command h)) handlers = handlers) as ->.
  { clear -Ho. induction handlers as [|h handlers IH]; cbn in *; [done|].
    apply orb_false_iff in Ho as [-> Ho]. cbn. by rewrite IH. }
  rewrite Nat.eqb_refl, set_same by done. cbn. destruct handlers; [congruence|done].
Qed.

Lemma install_root_spec command root root' :
  install_root command root = Ok (Some root') →
  ∃ top hooks groups,
    root = VObject top ∧ as_object (default (VObject []) (field "hooks" top)) = Some hooks
    ∧ as_array (default (VArray []) (field "StopFailure" hooks)) = Some groups
    ∧ existsb (group_owns_watchme command) groups = false
    ∧ root' = VObject (set_field "hooks"
        (VObject (set_field "StopFailure" (VArray (groups ++ [own_group command])) hooks)) top).
Proof.
  unfold install_root. intros (top & Ht & H)%rbind_Ok. apply ok_or_Ok in Ht.
  apply rbind_Ok in H as (hooks & Hh & H). apply ok_or_Ok in Hh.
  apply rbind_Ok in H as (groups & Hg & H). apply ok_or_Ok in Hg.
  destruct (existsb _ groups) eqn:Eo; [done|]. injection H as <-.
  destruct root; try done. injection Ht as ->. eauto 10.
Qed.

Lemma stop_groups_top top hooks groups :
  as_object (default (VObject []) (field "hooks" top)) = Some hooks →
  as_array (default (VArray []) (field "StopFailure" hooks)) = Some groups →
  stop_groups (VObject top) = groups.
Proof.
  unfold stop_groups. cbn [get_field]. destruct (field "hooks" top) as [v|]; cbn.
  - intros Hv Hg. destruct v; try done. injection Hv as ->. cbn.
    destruct (field "StopFailure" hooks) as [g|]; cbn in *; [by rewrite Hg|congruence].
  - intros [= <-]. cbn. congruence.
Qed.

(** Our settings after an installation, opened up. *)
Lemma reopen top hooks groups :
  let hooks' := set_field "StopFailure" (VArray groups) hooks in
  let top' := set_field "hooks" (VObject hooks') top in
  as_object (default (VObject []) (field "hooks" top')) = Some hooks'
  ∧ (field "hooks" top' ≫= as_object) = Some hooks'
  ∧ as_array (default (VArray []) (field "StopFailure" hooks')) = Some groups
  ∧ (field "StopFailure" hooks' ≫= as_array) = Some groups.
Proof. cbn zeta. by rewrite !field_set_eq. Qed.

Lemma strip_groups command groups :
  existsb (group_owns_watchme command) groups = false → Forall clean_group groups →
  omap fst (strip_group command <$> groups) = groups.
Proof.
  intros Ho. induction 1 as [|g groups Hg _ IH]; cbn in *; [done|].
  apply orb_false_iff in Ho as [Hg' Ho]. rewrite strip_foreign_group by done. cbn.
  by rewrite IH.
Qed.

Lemma strip_changed command groups :
  existsb snd (strip_group command <$> (groups ++ [own_group command])) = true.
Proof.
  rewrite fmap_app, existsb_app. cbn. rewrite strip_own_group. apply orb_true_r.
Qed.

(** Installing the hook appends one group to the StopFailure groups and keeps every
    other setting; installing it again changes nothing; removing it gives back exactly
    the groups that were there before (none of which had an empty handler list or the
    mark of an earlier version), again with every other setting unchanged. *)
Theorem hook_install_remove command root root' :
  install_root command root = Ok (Some root') → Forall clean_group (stop_groups root) →
  stop_groups root' = stop_groups root ++ [own_group command] ∧ same_otherwise root root'
  ∧ install_root command root' = Ok None
  ∧ ∃ root'', remove_root command root' = Some root''
      ∧ stop_groups root'' = stop_groups root ∧ same_otherwise root' root''
      ∧ remove_root command root'' = None.
Proof.
  intros (top & hooks & groups & -> & Hh & Hg & Ho & Hr)%install_root_spec Hc.
  rewrite (stop_groups_top top hooks groups) in * by done.
  destruct (set_groups_spec top hooks _ _ Hr Hh) as [Hs Hsame].
  destruct (reopen top hooks (groups ++ [own_group command])) as (Hh' & Hf' & Hg' & Hgf').
  split; [done|]. split; [done|]. subst root'. split.
  - unfold install_root. cbn [as_object ok_or rbind]. rewrite Hh'. cbn [ok_or rbind].
    rewrite Hg'. cbn [ok_or rbind]. rewrite existsb_app. cbn [existsb].
    by rewrite own_group_owned, orb_true_r.
  - set (top' := set_field "hooks" _ top) in *. set (hooks' := set_field "StopFailure" _ hooks) in *.
    exists (VObject (set_field "hooks" (VObject (set_field "StopFailure" (VArray groups) hooks')) top')).
    destruct (set_groups_spec top' hooks' groups _ eq_refl Hh') as [Hs'' Hsame''].
    split; [|split; [done|split; [done|]]].
    + unfold remove_root. cbn [as_object mbind option_bind]. rewrite Hf'.
      cbn [mbind option_bind]. rewrite Hgf'. cbn [mbind option_bind].
      rewrite strip_changed, fmap_app, omap_app. cbn [fmap list_fmap omap list_omap].
      rewrite strip_own_group, strip_groups by done. cbn. by rewrite app_nil_r.
    + destruct (reopen top' hooks' groups) as (_ & Hf & _ & Hgf).
      unfold remove_root. cbn [as_object mbind option_bind]. rewrite Hf.
      cbn [mbind option_bind]. rewrite Hgf. cbn [mbind option_bind].
      assert (existsb snd (strip_group command <$> groups) = false) as ->; [|done].
      clear -Ho Hc. induction Hc as [|g groups Hg _ IH]; cbn in *; [done|].
      apply orb_false_iff in Ho as [Hg' Ho]. rewrite strip_foreign_group by done. by apply IH.
Qed.

(** ** Payloads and markers *)
Lemma optional_string_bounds object name max s :
  optional_string object name max = Ok (Some s) → s ≠ "" ∧ len s ≤ max.
Proof.
  unfold optional_string. destruct (field name object); [|done].
  intros (t & Ht & H)%rbind_Ok. destruct (is_empty t) eqn:E; [done|].
  destruct (Z.ltb_spec max (len t)); [done|]. injection H as <-. split; [|lia].
  intros ->. done.
Qed.

Lemma required_string_bounds object name max s :
  required_string object name max = Ok s → s ≠ "" ∧ len s ≤ max.
Proof.
  unfold required_string. intros (o & Ho & Hs)%rbind_Ok. apply ok_or_Ok in Hs as ->.
  by eapply optional_string_bounds.
Qed.

(** What a marker made from a payload satisfies. *)
Record safe_marker (m : HookMarker) : Prop := {
  sm_valid : valid_marker m = true;
  sm_identity : contains_line_control (mk_session_id m) = false
                ∧ contains_line_control (mk_transcript_path m) = false;
  sm_error : forallb error_type_byte (bytes (mk_error_type m)) = true;
  sm_detail : contains_line_control (mk_detail m) = false
              ∧ contains_secret_like (mk_detail m) = false;
}.

Lemma payload_marker_safe payload m : parse_stop_failure_payload payload = Ok m → safe_marker m.
Proof.
  unfold parse_stop_failure_payload. intros H.
  repeat (apply rbind_Ok in H as (? & ? & H)). injection H as <-.
  repeat match goal with
  | E : required_string _ _ _ = Ok _ |- _ => apply required_string_bounds in E as [? ?]
  | E : fail_if _ _ = Ok _ |- _ => apply fail_if_Ok in E
  end.
  repeat match goal with E : _ || _ = false |- _ => apply orb_false_iff in E as [? ?] end.
  rewrite !negb_false_iff in *.
  match goal with |- safe_marker (mkMarker _ _ _ ?d) => assert (len d ≤ 4096) as Hd end.
  { repeat match goal with E : optional_string _ _ 4096 = Ok ?o |- _ =>
      destruct o; [apply optional_string_bounds in E as [_ ?]|clear E] end; cbn; done. }
  split; cbn; try done. unfold valid_marker.
  cbn [mk_session_id mk_transcript_path mk_error_type mk_detail].
  assert (∀ s, s ≠ "" → is_empty s = false) as He by (intros s; apply String.eqb_neq).
  rewrite He by done. repeat (apply andb_true_iff; split); try done; by apply Z.leb_le.
Qed.

Section Delivery.
Context `{MarkerCodec}.

Definition accepted_marker (line : string) : option HookMarker :=
  if 8192 <? len line then None
  else m ← decode_marker line; if valid_marker m then Some m else None.

Definition last_n {A} (n : nat) (l : list A) : list A := drop (length l - n) l.

Lemma last_n_snoc {A} n (l : list A) x :
  (0 < n)%nat →
  (if (length (last_n n l) =? n)%nat then drop 1 (last_n n l) else last_n n l) ++ [x]
  = last_n n (l ++ [x]).
Proof.
  intros Hn. unfold last_n. rewrite length_drop, length_app. cbn.
  destruct (Nat.eqb_spec (length l - (length l - n)) n).
  - rewrite drop_drop, drop_app_le by lia. f_equal. f_equal. lia.
  - rewrite drop_app_le by lia. f_equal. f_equal. lia.
Qed.

Lemma keep_marker_last seen line :
  keep_marker (last_n MAX_MARKERS seen) line
  = last_n MAX_MARKERS (seen ++ option_list (accepted_marker line)).
Proof.
  unfold keep_marker, accepted_marker.
  destruct (8192 <? len line); cbn [option_list]; [by rewrite app_nil_r|].
  destruct (decode_marker line) as [m|]; cbn [mbind option_bind option_list]; [|by rewrite app_nil_r].
  destruct (valid_marker m); cbn [option_list]; [|by rewrite app_nil_r].
  apply last_n_snoc. unfold MAX_MARKERS. lia.
Qed.

(** The reader keeps exactly the newest accepted markers, in order. *)
Lemma read_lines_spec seen lines ms :
  read_lines (last_n MAX_MARKERS seen) lines = Ok ms →
  ∃ ls, lines = Ok <$> ls ∧ ms = last_n MAX_MARKERS (seen ++ omap accepted_marker ls).
Proof.
  revert seen. induction lines as [|l lines IH]; intros seen; cbn [read_lines].
  - intros [= <-]. exists []. by rewrite app_nil_r.
  - intros (line & -> & Hr)%rbind_Ok. rewrite keep_marker_last in Hr.
    apply IH in Hr as (ls & -> & ->). exists (line :: ls). split; [done|].
    f_equal. rewrite <- app_assoc. f_equal. cbn. by destruct (accepted_marker line).
Qed.

Lemma path_eqb_refl p : path_eqb p p = true.
Proof. by apply bool_decide_eq_true_2. Qed.

(** The newest accepted marker of a session is the one it is correlated with. *)
Lemma newest_marker_correlated ms m :
  correlate_marker (last_n MAX_MARKERS (ms ++ [m])) (mk_session_id m) (mk_transcript_path m) = Some m.
Proof.
  rewrite <- last_n_snoc by (unfold MAX_MARKERS; lia).
  unfold correlate_marker. rewrite reverse_snoc. cbn [List.find]. unfold marker_matches.
  by rewrite String.eqb_refl, path_eqb_refl.
Qed.
End Delivery.

(** ** Concrete inputs *)
Lemma hook_command_quotes_path_witness :
  shell_words false None (bytes "watchme watchme-hook-stop-failure --marker '/a b'\''$(c)'")
  = Some [bytes "watchme"; bytes "watchme-hook-stop-failure"; bytes "--marker"; bytes "/a b'$(c)"].
Proof. by apply (hook_command_quotes_path "/a b'$(c)"). Defined.

Definition sample_settings : Value :=
  VObject [("hooks", VObject [("StopFailure", VArray [own_group "other"])]); ("model", VString "opus")].

Lemma hook_install_remove_witness :
  ∃ root', install_root "watchme" sample_settings = Ok (Some root')
           ∧ stop_groups root' = [own_group "other"; own_group "watchme"].
Proof.
  eexists. split; [reflexivity|].
  refine (proj1 (hook_install_remove "watchme" sample_settings _ eq_refl _)).
  repeat constructor; vm_compute; discriminate.
Defined.

(** A codec that writes the session alone, enough for one marker. *)
Definition toy_marker : HookMarker := mkMarker "s1" "/t" "rate_limit" "usage limit".
Definition toy_marker_codec : MarkerCodec := {|
  encode_marker m := if decide (m = toy_marker) then Ok "s1" else Err "unsupported";
  decode_marker s := if String.eqb s "s1" then Some toy_marker else None |}.
