(* ===== verification/Claude.v ===== *)
(** * The Claude adapter (src/src/agents/claude.rs)

    Classification of StopFailure markers and of live screens, the labelled wait menu,
    the events the adapter builds and the recipes that answer them.  Screen text is a
    list of code points; a substring search over bytes and one over code points agree on
    valid UTF-8. *)
From stdpp Require Import pretty.
From S2P Require Import Prelude Json Text ParseInt Action Event Identity StateMachine State.
From S2P Require Import Screen Process Observe Registry Runtime ResetTime Hooks.
From Stdlib Require Import Ascii Floats.SpecFloat.

Local Open Scope Z_scope.

Module Class.
Inductive ClaudeClass : Type :=
| UsageLimit | SessionLimit | WeeklyLimit | TerminalOverload | NativeRetry | HumanRequired | Unknown.
End Class.
Abbreviation ClaudeClass := Class.ClaudeClass.

Record WaitMenu : Type := mkWaitMenu { moves : Z }.

Definition WAIT_LABEL : list Z := chars "stop and wait for limit to reset".
Definition DEFAULT_RESUME : string := "Continue exactly where you left off.".

(** ** Text *)
Definition lower (l : list Z) : list Z := (λ c, if in_range 65 90 c then c + 32 else c) <$> l.

Fixpoint has (needle l : list Z) : bool :=
  prefix_of needle l || match l with [] => false | _ :: l => has needle l end.

Definition contains_any (value : list Z) (needles : list string) : bool :=
  existsb (λ needle, has (chars needle) value) needles.

(** [strip_prefix], and [strip_suffix] of one character. *)
Fixpoint without_prefix (p l : list Z) : option (list Z) :=
  match p, l with
  | [], _ => Some l
  | a :: p, b :: l => if a =? b then without_prefix p l else None
  | _ :: _, [] => None
  end.
Definition without_last (c : Z) (l : list Z) : option (list Z) :=
  match reverse l with d :: r => if d =? c then Some (reverse r) else None | [] => None end.

(** [split_once] at a character. *)
Fixpoint split_at (c : Z) (l : list Z) : option (list Z * list Z) :=
  match l with
  | [] => None
  | d :: l => if d =? c then Some ([], l) else (λ p, (d :: p.1, p.2)) <$> split_at c l
  end.

(** [split_whitespace], joined by single spaces. *)
Fixpoint join_space (ws : list (list Z)) : list Z :=
  match ws with [] => [] | [w] => w | w :: ws => w ++ 32 :: join_space ws end.

Definition normalize_label (value : list Z) : list Z := lower (join_space (fields_from [] value)).

(** [str::len]. *)
Definition byte_count (l : list Z) : Z := Z.of_nat (text_len l).

(** ** Classification *)
Definition account_errors : list string :=
  ["auth"; "billing"; "credit"; "invalid"; "safety"; "model_not_found"; "not_found"].
Definition account_texts : list string :=
  ["sign in"; "login"; "billing"; "add funds"; "credit"; "upgrade"; "invalid request"; "safety";
   "model unavailable"].
Definition overload_texts : list string :=
  ["api error: 529"; "overloaded"; "service capacity"; "api error: 500"; "api error: 502";
   "api error: 503"; "api error: 504"].

Definition classify_stop_failure (error_type detail : list Z) (native_retry : bool) : ClaudeClass :=
  let error := lower error_type in
  let text := lower detail in
  if native_retry || has (chars "retrying") text then Class.NativeRetry
  else if contains_any error account_errors || contains_any text account_texts
  then Class.HumanRequired
  else if contains_any text ["weekly usage limit"; "weekly limit"] then Class.WeeklyLimit
  else if contains_any text ["session limit"] then Class.SessionLimit
  else if contains_any error ["rate_limit"]
          || contains_any text ["usage limit"; "limit to reset"; "resets in"]
  then Class.UsageLimit
  else if contains_any error ["overloaded"; "server_error"] || contains_any text overload_texts
  then Class.TerminalOverload
  else Class.Unknown.

(** ** The wait menu *)
Definition looks_quoted (text : list Z) : bool :=
  let l := lower text in
  has (chars "documentation below") l || has (chars "untrusted tool output") l
  || existsb (λ line, prefix_of [34] (trim_start line)) (str_lines l).

Definition suffix_char (c : Z) : bool :=
  in_range 48 57 c || in_range 65 90 c || in_range 97 122 c
  || existsb (Z.eqb c) [32; 58; 44; 43; 45; 40; 41; 47].

Definition wrapped_suffix (s : list Z) : option (list Z) :=
  match without_prefix [40] s ≫= without_last 41 with
  | Some v => Some v
  | None =>
      match without_prefix [45] s with
      | Some v => Some v
      | None => without_prefix [8211] s
      end
  end.

Definition is_reset_suffix (suffix : list Z) : bool :=
  match wrapped_suffix (normalize_label suffix) with
  | Some value =>
      negb (bool_decide (value = [])) && (byte_count value <=? 160)
      && has (chars "reset") value && forallb suffix_char value
  | None => false
  end.

Definition is_wait_label (label : list Z) : bool :=
  let label := normalize_label label in
  bool_decide (label = WAIT_LABEL)
  || match without_prefix WAIT_LABEL label with
     | Some suffix => is_reset_suffix (trim suffix)
     | None => false
     end.

Definition menu_row (line : list Z) : option (bool * list Z) :=
  let trimmed := trim line in
  let '(cursor, rest) :=
    match without_prefix [62] trimmed with
    | Some rest => (true, trim_start rest)
    | None =>
        match without_prefix [8250] trimmed with
        | Some rest => (true, trim_start rest)
        | None => (false, trimmed)
        end
    end in
  nl ← split_at 46 rest;
  let '(number, label) := nl in
  if bool_decide (number = []) || negb (forallb (in_range 48 57) number) then None
  else
    let label := normalize_label label in
    if negb (bool_decide (label = [])) && (byte_count label <=? 200) then Some (cursor, label)
    else None.

(** One line of the loop of [menu_rows]: a row, or a wrapped suffix of the last row. *)
Definition add_line (rows : list (bool * list Z)) (line : list Z) : list (bool * list Z) :=
  match menu_row line with
  | Some row => rows ++ [row]
  | None =>
      let suffix := trim line in
      match last rows with
      | Some (cursor, previous) =>
          if match line with c :: _ => is_whitespace c | [] => false end && is_reset_suffix suffix
          then removelast rows ++ [(cursor, previous ++ 32 :: normalize_label suffix)]
          else rows
      | None => rows
      end
  end.

Definition menu_rows (screen : list Z) : option (list (bool * list Z)) :=
  match foldl add_line [] (str_lines screen) with [] => None | rows => Some rows end.

Fixpoint position {A} (f : A → bool) (l : list A) : option nat :=
  match l with
  | [] => None
  | x :: l => if f x then Some 0%nat else S <$> position f l
  end.
Definition count {A} (f : A → bool) (l : list A) : nat := length (List.filter f l).

Definition is_wait_row (row : bool * list Z) : bool := is_wait_label row.2.
Definition i8_of (n : nat) : option Z := within (-128) 127 (Z.of_nat n).

Definition labelled_wait_menu (first second : list Z) : option WaitMenu :=
  if negb (bool_decide (first = second)) || (16384 <? byte_count first) || looks_quoted first
  then None
  else
    rows ← menu_rows first;
    target ← position is_wait_row rows;
    cursor ← position fst rows;
    if negb (count is_wait_row rows =? 1)%nat || negb (count fst rows =? 1)%nat then None
    else
      t ← i8_of target;
      c ← i8_of cursor;
      m ← within (-128) 127 (t - c);
      Some (mkWaitMenu m).

Definition menu_keys (menu : WaitMenu) : list string :=
  replicate (Z.to_nat (Z.abs (moves menu))) (if moves menu <? 0 then "UP" else "DOWN") ++ ["ENTER"].

Definition classify_screen (first second : list Z) : ClaudeClass :=
  match labelled_wait_menu first second with
  | Some _ =>
      let text := lower first in
      if has (chars "weekly") text then Class.WeeklyLimit
      else if has (chars "session") text then Class.SessionLimit
      else Class.UsageLimit
  | None =>
      if bool_decide (first = second) && negb (looks_quoted first)
      then classify_stop_failure [] first false
      else Class.Unknown
  end.

Definition working_line (line : list Z) : bool :=
  let line := normalize_label line in
  existsb (λ text, bool_decide (line = chars text)) ["working"; "working..."; "claude is working"]
  || bool_decide (line = chars "working" ++ [8230])
  || prefix_of (chars "working ") line.

Definition has_working_indicator (live_tail : list Z) : bool := existsb working_line (str_lines live_tail).

(** ** Back-off *)
Definition overload_backoff_seconds (attempt entropy cap : Z) : Z :=
  let ceiling := Z.min (saturating_mul u64_max (Z.shiftl 1 (Z.min attempt 10)) 5) (Z.max cap 1) in
  entropy mod (saturating_add u64_max ceiling 1).

(** FNV-1a over the bytes. *)
Definition hash64 (value : string) : Z :=
  foldl (λ h b, (Z.lxor h (byte_val b) * 1099511628211) mod 2 ^ 64) 14695981039346656037 (bytes value).

(** ** Events *)
Definition instant (d : DateTime) : Z := timestamp d * 1000000000 + subsec_nanos d.
Definition plus_seconds (d : DateTime) (s : Z) : DateTime :=
  mkDateTime (timestamp d + s) (subsec_nanos d) (utc_offset d).
Definition with_utc (d : DateTime) : DateTime := mkDateTime (timestamp d) (subsec_nanos d) 0.

(** chrono's RFC 3339 text: [parse_from_rfc3339] with the offset it keeps, and
    [to_rfc3339]. *)
Class Rfc3339Text : Type := {
  datetime_of : string → option DateTime;
  to_rfc3339 : DateTime → string;
}.
#[global] Instance rfc_instant `{Rfc3339Text} : Rfc3339 := λ s, instant <$> datetime_of s.

Definition f64_seven_tenths : f64 := S754_finite false 6305039478318694 (-53).
Definition f64_of_Z (z : Z) : f64 := binary_normalize 53 1024 z 0 false.
Definition milli (z : Z) : f64 := SFdiv 53 1024 (f64_of_Z z) (f64_of_Z 1000).

Definition number_of (z : Z) : Value := VNumber (if z <? 0 then NegInt z else PosInt z).
Definition as_u64 (v : Value) : option Z :=
  match v with VNumber (PosInt z) => Some z | _ => None end.

(** [metadata.insert], and the assignments of the functions below. *)
Definition put_meta (k : string) (v : Value) (e : Event) : Event :=
  mkEvent (schema_version e) (event_id e) (observed_at e) (monotonic_sequence e) (watcher_id e)
    (Event.target_identity_hash e) (agent_id e) (session_id e) (provider_family e) (source e) (category e)
    (confidence e) (terminal e) (evidence_fingerprint e) (summary e) (redacted_evidence e) (reset e)
    (policy_hint e) (supersedes_event_id e) (<[k := v]> (metadata e)).
Definition set_session (s : option string) (e : Event) : Event :=
  mkEvent (schema_version e) (event_id e) (observed_at e) (monotonic_sequence e) (watcher_id e)
    (Event.target_identity_hash e) (agent_id e) s (provider_family e) (source e) (category e)
    (confidence e) (terminal e) (evidence_fingerprint e) (summary e) (redacted_evidence e) (reset e)
    (policy_hint e) (supersedes_event_id e) (metadata e).
Definition set_reset (r : EventReset) (e : Event) : Event :=
  mkEvent (schema_version e) (event_id e) (observed_at e) (monotonic_sequence e) (watcher_id e)
    (Event.target_identity_hash e) (agent_id e) (session_id e) (provider_family e) (source e) (category e)
    (confidence e) (terminal e) (evidence_fingerprint e) (summary e) (redacted_evidence e) (Some r)
    (policy_hint e) (supersedes_event_id e) (metadata e).

Definition ok {E A} (r : result E A) : option A := match r with Ok a => Some a | Err _ => None end.

Definition current_target_session (t : TargetIdentity) : option string :=
  match t with TProcess _ => None | TMultiplexer _ _ _ _ session _ _ _ => session end.

(** What the operating system answers. *)
Record HookFacts : Type := mkFacts {
  process_cwd_matches : Z → string → bool;
  transcript_matches_binding : string → string → TranscriptBinding → bool;
  marker_file : string → result string (list HookMarker);
  observed_now : DateTime;
}.

Definition hook_outcome (c : ClaudeClass) : option (EventCategory * PolicyHint) :=
  match c with
  | Class.UsageLimit => Some (Category.UsageLimit, Hint.WaitAllowed)
  | Class.SessionLimit => Some (Category.SessionLimit, Hint.WaitAllowed)
  | Class.WeeklyLimit => Some (Category.WeeklyLimit, Hint.WaitAllowed)
  | Class.TerminalOverload => Some (Category.TransientOverload, Hint.WaitAllowed)
  | Class.NativeRetry => None
  | Class.HumanRequired => Some (Category.TerminalFailure, Hint.HumanRequired)
  | Class.Unknown => None
  end.

Section Events.
Context `{Rfc3339Text} `{Chrono} `{Sha256Hex} `{TargetHash}.

(** The reset found in the detail of a marker. *)
Definition add_reset (r : ResetTime) (e : Event) : Event :=
  put_meta "claude_resume_margin_seconds" (number_of (ResetTime.margin_seconds r))
    (set_reset (mkEventReset "Claude StopFailure reset" (to_rfc3339 (reset_at r))
                  (Some (ResetTime.reset_timezone r)) (milli (confidence_milli r))
                  (Some (ResetTime.margin_seconds r)))
       (put_meta "claude_reset_at" (VString (to_rfc3339 (reset_at r))) e)).

Definition correlated_hook_event (facts : HookFacts) (w : WatcherState) : option Event :=
  reference ← claude_session w;
  binding ← transcript_binding reference;
  let process := target_process (target w) in
  if negb (start_time process =? claude_process_start_time reference)
     || negb (process_cwd_matches facts (pid process) (claude_process_cwd reference))
     || negb (opt_str_eqb (current_target_session (target w)) (claude_target_session reference))
     || negb (transcript_matches_binding facts (transcript_path reference)
                (transcript_path reference) binding)
  then None
  else
    markers ← ok (marker_file facts (marker_path reference));
    marker ← correlate_marker markers (claude_session_id reference) (transcript_path reference);
    outcome ← hook_outcome (classify_stop_failure (chars (mk_error_type marker))
                              (chars (mk_detail marker)) false);
    let '(cat, hint) := outcome in
    let observed := observed_now facts in
    event ← ok (event_new ("claude-hook-" +:+ ws_id w) (to_rfc3339 observed) (ws_id w)
                  (Runtime.target_identity_hash (target w))
                  (event_source_new Source.Hook "claude_stop_failure" "StopFailure")
                  cat f64_one true
                  (fingerprint "claude_stop_failure" (mk_error_type marker)
                     (byte_list (mk_session_id marker +:+ ":" +:+ mk_transcript_path marker)))
                  "correlated Claude StopFailure" hint);
    let event := set_session (Some (claude_session_id reference)) event in
    match parse_reset (mk_detail marker) observed with
    | Some r => Some (add_reset r event)
    | None => Some event
    end.

Definition limit_category (c : EventCategory) : bool :=
  match c with Category.UsageLimit | Category.SessionLimit | Category.WeeklyLimit => true | _ => false end.

Definition from_claude_hook (e : Event) : bool :=
  bool_decide (source_kind (source e) = Source.Hook) && String.eqb (source_id (source e)) "claude_stop_failure".

Definition event_margin (e : Event) : option Z := reset e ≫= Event.margin_seconds.

Definition resume_margin (e : Event) : Z :=
  match metadata e !! "claude_resume_margin_seconds" ≫= as_u64 with
  | Some m => m
  | None => default 30 (event_margin e)
  end.

Definition resumed (w : WatcherState) (now reset_time : DateTime) (previous : Event) : Event :=
  let fp := fingerprint "claude_resume" (evidence_fingerprint previous)
              (byte_list (to_rfc3339 (with_utc reset_time))) in
  let event :=
    mkEvent (schema_version previous) ("claude-resume-" +:+ ws_id w) (to_rfc3339 now)
      (monotonic_sequence previous) (watcher_id previous) (Event.target_identity_hash previous)
      (agent_id previous) (session_id previous) (provider_family previous) (source previous)
      Category.WaitingForModel (confidence previous) false fp
      "Claude reset elapsed; resume revalidation candidate" (redacted_evidence previous)
      (reset previous) Hint.DeterministicActionAllowed (supersedes_event_id previous)
      (metadata previous) in
  put_meta "agent_state" (VString "WORKING")
    (put_meta "claude_resume_session" (VString fp)
       (put_meta "claude_resume" (VBool true) event)).

Definition waiting (l : WatcherLifecycle) : bool :=
  match l with Lifecycle.Waiting _ _ => true | _ => false end.

Definition resume_candidate_event (w : WatcherState) (now : DateTime) : option Event :=
  if negb (waiting (lifecycle w)) then None
  else
    previous ← last_observation w;
    if negb (from_claude_hook previous) || negb (limit_category (category previous)) then None
    else
      reset_text ← meta_str (metadata previous) "claude_reset_at";
      reset_time ← datetime_of reset_text;
      margin ← within (- i64_max - 1) i64_max (resume_margin previous);
      if instant now <? instant (plus_seconds reset_time margin) then None
      else Some (resumed w now reset_time previous).

Definition screen_category (c : ClaudeClass) : option EventCategory :=
  match c with
  | Class.UsageLimit => Some Category.UsageLimit
  | Class.SessionLimit => Some Category.SessionLimit
  | Class.WeeklyLimit => Some Category.WeeklyLimit
  | _ => None
  end.

Definition trusted_menu_event (observed : DateTime) (w : WatcherState) (first second : list Z)
    : option Event :=
  menu ← labelled_wait_menu first second;
  cat ← screen_category (classify_screen first second);
  event ← ok (event_new ("claude-menu-" +:+ ws_id w) (to_rfc3339 observed) (ws_id w)
                (Runtime.target_identity_hash (target w))
                (event_source_new Source.ScreenDetection "claude" "labelled_wait_menu")
                cat f64_seven_tenths true
                (fingerprint "claude_menu" "wait" (encode_utf8 first))
                "trusted Claude labelled wait menu" Hint.DeterministicActionAllowed);
  Some (put_meta "claude_menu_moves" (number_of (moves menu)) event).

Definition shows_wait_menu (live_tail : list Z) : bool :=
  match menu_rows live_tail with Some rows => existsb is_wait_row rows | None => false end.

Definition trusted_resume_progress_event (w : WatcherState) (baseline : Event) (live_tail : list Z)
    (at_ : string) : option Event :=
  if (32768 <? byte_count live_tail) || looks_quoted live_tail || shows_wait_menu live_tail
     || negb (has_working_indicator live_tail)
  then None
  else
    t ← datetime_of at_;
    t0 ← datetime_of (observed_at baseline);
    if instant t <=? instant t0 then None
    else
      session ← meta_str (metadata baseline) "claude_resume_session";
      event ← ok (event_new ("claude-progress-" +:+ ws_id w) at_ (ws_id w)
                    (Event.target_identity_hash baseline)
                    (event_source_new Source.ScreenDetection "claude" "post_resume_progress")
                    Category.Working f64_seven_tenths false
                    (fingerprint "claude_progress" session (encode_utf8 live_tail))
                    "fresh Claude working output after resume" Hint.ObserveOnly);
      Some (put_meta "claude_post_resume_progress" (VBool true)
              (put_meta "claude_resume_session" (VString session) event)).
End Events.

(** ** Recipes *)
Section Recipes.
Context `{Rfc3339Text}.

Definition wait_recorded : list Condition := [mkCondition "WAIT_STATE_RECORDED" None].

Definition menu_action (e : Event) : option Action :=
  v ← metadata e !! "claude_menu_moves";
  z ← as_i64 v;
  m ← within (-128) 127 z;
  Some (set_outcomes
    (push_preconditions
       (action_new "claude.select_wait_menu" (SendKeys (menu_keys (mkWaitMenu m)))
          "trusted stable Claude labelled wait menu" (evidence_fingerprint e) 30)
       [mkCondition "PROCESS_ALIVE" None; mkCondition "NO_HUMAN_INTERVENTION" None;
        mkCondition "MENU_STABLE" None])
    [mkCondition "MENU_DISMISSED" None]).

Definition wait_for_reset (e : Event) : option Action :=
  at_ ← meta_str (metadata e) "claude_reset_at";
  reset_time ← datetime_of at_;
  margin ← within (- i64_max - 1) i64_max (default 30 (event_margin e));
  Some (set_outcomes
    (action_new "claude.wait_for_reset" (WaitUntil (to_rfc3339 (plus_seconds reset_time margin)))
       "correlated Claude reset time" (evidence_fingerprint e) 30)
    wait_recorded).

Definition overload_wait (e : Event) (rev : Z) : Action :=
  let seconds := Z.max 1 (overload_backoff_seconds (rev mod 2 ^ 32) (hash64 (evidence_fingerprint e)) 300) in
  set_outcomes
    (action_new "claude.terminal_overload_wait" (WaitDuration seconds)
       "terminal Claude overload after native retry ended" (evidence_fingerprint e) 30)
    wait_recorded.

Definition resume_action (e : Event) : option Action :=
  session ← meta_str (metadata e) "claude_resume_session";
  Some (set_outcomes
    (push_preconditions
       (send_text "claude.resume_once" DEFAULT_RESUME
          "reset elapsed and live Claude target revalidated" (evidence_fingerprint e))
       [mkCondition "PROCESS_ALIVE" None; mkCondition "NO_HUMAN_INTERVENTION" None;
        mkCondition "COMPOSER_EMPTY" None;
        mkCondition "CLAUDE_RESUME_SESSION" (Some (VString session))])
    [mkCondition "CLAUDE_PROGRESS" (Some (VString session))]).

Definition claude_action_for (w : WatcherState) : option Action :=
  e ← last_observation w;
  if bool_decide (source_kind (source e) = Source.ScreenDetection)
     && String.eqb (source_id (source e)) "claude" && limit_category (category e)
     && bool_decide (policy_hint e = Hint.DeterministicActionAllowed)
  then menu_action e
  else if negb (from_claude_hook e) then builtin_action_for w
  else if limit_category (category e) && bool_decide (policy_hint e = Hint.WaitAllowed)
  then wait_for_reset e
  else if category_eqb (category e) Category.TransientOverload && terminal e
  then Some (overload_wait e (revision w))
  else if category_eqb (category e) Category.WaitingForModel
          && bool_decide (policy_hint e = Hint.DeterministicActionAllowed)
          && meta_true (metadata e) "claude_resume"
  then resume_action e
  else None.
End Recipes.

(** ** Selecting the wait row

    A menu of [n] rows with its cursor, as the terminal program draws it: the arrows
    move by one row and Enter chooses.  What an arrow does at the edge of the menu or a
    key after the choice is left open. *)
Definition press (n : nat) (s : nat * option nat) (key : string) : option (nat * option nat) :=
  match s with
  | (c, None) =>
      if String.eqb key "ENTER" then Some (c, Some c)
      else if String.eqb key "UP" then match c with O => None | S c => Some (c, None) end
      else if String.eqb key "DOWN" then if (S c <? n)%nat then Some (S c, None) else None
      else None
  | (_, Some _) => None
  end.

Fixpoint press_all (n : nat) (s : nat * option nat) (keys : list string) : option (nat * option nat) :=
  match keys with [] => Some s | k :: keys => press n s k ≫= λ s, press_all n s keys end.

Lemma press_all_app n s ks ks' :
  press_all n s (ks ++ ks') = press_all n s ks ≫= λ s, press_all n s ks'.
Proof.
  revert s. induction ks as [|k ks IH]; intros s; cbn; [done|].
  destruct (press n s k); cbn; [apply IH|done].
Qed.

Lemma press_down n c k :
  (c + k < n)%nat → press_all n (c, None) (replicate k "DOWN") = Some ((c + k)%nat, None).
Proof.
  revert c. induction k as [|k IH]; intros c Hk; cbn -[Nat.ltb]; [by rewrite Nat.add_0_r|].
  destruct (Nat.ltb_spec (S c) n); [|lia]. cbn. rewrite IH by lia. do 2 f_equal. lia.
Qed.

Lemma press_up n c k :
  (k ≤ c)%nat → press_all n (c, None) (replicate k "UP") = Some ((c - k)%nat, None).
Proof.
  revert c. induction k as [|k IH]; intros c Hk; cbn; [by rewrite Nat.sub_0_r|].
  destruct c as [|c]; [lia|]. cbn. rewrite IH by lia. done.
Qed.

Lemma menu_keys_choose n c t :
  (c < n)%nat → (t < n)%nat →
  press_all n (c, None) (menu_keys (mkWaitMenu (Z.of_nat t - Z.of_nat c))) = Some (t, Some t).
Proof.
  intros Hc Ht. unfold menu_keys. cbn [moves]. rewrite press_all_app.
  destruct (Z.ltb_spec (Z.of_nat t - Z.of_nat c) 0).
  - rewrite press_up by lia. cbn. do 2 f_equal; [|f_equal]; lia.
  - rewrite press_down by lia. cbn. do 2 f_equal; [|f_equal]; lia.
Qed.

Lemma position_spec {A} (f : A → bool) l i :
  position f l = Some i → ∃ x, l !! i = Some x ∧ f x = true.
Proof.
  revert i. induction l as [|x l IH]; intros i; cbn; [done|].
  destruct (f x) eqn:E; [intros [= <-]; eauto|].
  intros (j & Hj & ->)%fmap_Some. exact (IH j Hj).
Qed.

Lemma count_one_unique {A} (f : A → bool) l i j x y :
  count f l = 1%nat → l !! i = Some x → f x = true → l !! j = Some y → f y = true → i = j.
Proof.
  unfold count. revert i j. induction l as [|z l IH]; intros i j; cbn; [done|].
  assert (∀ k v, List.filter f l = [] → l !! k = Some v → f v = false) as Hn.
  { intros k v Hf Hk. apply not_true_iff_false. intros Hv.
    apply list_elem_of_lookup_2, list_elem_of_In in Hk.
    assert (List.In v (List.filter f l)) as Hin by (by apply filter_In). by rewrite Hf in Hin. }
  destruct (f z) eqn:Ez; cbn.
  - intros [=Hz]. apply nil_length_inv in Hz. destruct i as [|i], j as [|j]; cbn; intros; [done|..].
    + by rewrite (Hn j y) in *.
    + by rewrite (Hn i x) in *.
    + by rewrite (Hn j y) in *.
  - intros Hc. destruct i as [|i], j as [|j]; cbn; intros; try congruence. f_equal. eauto.
Qed.

(** The cursor and the wait row of an accepted menu. *)
Record menu_at (rows : list (bool * list Z)) (cursor target : nat) : Prop := {
  ma_cursor : ∀ i row, rows !! i = Some row → row.1 = true ↔ i = cursor;
  ma_target : ∀ i row, rows !! i = Some row → is_wait_label row.2 = true ↔ i = target;
  ma_bounds : (cursor < length rows ∧ target < length rows)%nat;
}.

Lemma labelled_wait_menu_spec first second menu :
  labelled_wait_menu first second = Some menu →
  second = first ∧ looks_quoted first = false ∧ byte_count first ≤ 16384
  ∧ ∃ rows cursor target, menu_rows first = Some rows ∧ menu_at rows cursor target
      ∧ menu = mkWaitMenu (Z.of_nat target - Z.of_nat cursor) ∧ -128 ≤ moves menu ≤ 127.
Proof.
  unfold labelled_wait_menu.
  destruct (bool_decide (first = second)) eqn:Es; [|done]. apply bool_decide_eq_true in Es as <-.
  destruct (Z.ltb_spec 16384 (byte_count first)); [done|].
  destruct (looks_quoted first); cbn [negb orb]; [done|].
  intros (rows & Hrows & H1)%bind_Some. apply bind_Some in H1 as (t & Ht & H1).
  apply bind_Some in H1 as (c & Hc & H1).
  destruct (Nat.eqb_spec (count is_wait_row rows) 1) as [Hct|]; [|done].
  destruct (Nat.eqb_spec (count fst rows) 1) as [Hcc|]; [|done]. cbn [negb orb] in H1.
  apply bind_Some in H1 as (tz & Htz & H1). apply bind_Some in H1 as (cz & Hcz & H1).
  apply bind_Some in H1 as (m & Hm & [= <-]).
  apply within_Some in Htz as [-> ?], Hcz as [-> ?], Hm as [-> ?].
  repeat split; try done. exists rows, c, t. split; [done|]. split; [|split; [done|cbn; lia]].
  apply position_spec in Ht as (rt & Ht & Hwt). apply position_spec in Hc as (rc & Hc & Hwc).
  split.
  - intros i row Hi. split; [|intros ->; congruence]. intros Hr. exact (count_one_unique fst rows i c row rc Hcc Hi Hr Hc Hwc).
  - intros i row Hi. split; [|intros ->; rewrite Ht in Hi; by injection Hi as <-].
    intros Hr. exact (count_one_unique is_wait_row rows i t row rt Hct Hi Hr Ht Hwt).
  - apply lookup_lt_Some in Ht, Hc. done.
Qed.

(** ** Events and recipes together *)
Section Compose.
Context `{Rfc3339Text} `{Chrono} `{Sha256Hex} `{TargetHash}.

Lemma event_new_fields id at_ w th src cat conf term fp sm hint e :
  ok (event_new id at_ w th src cat conf term fp sm hint) = Some e →
  source e = src ∧ category e = cat ∧ policy_hint e = hint ∧ metadata e = ∅
  ∧ evidence_fingerprint e = fp ∧ terminal e = term ∧ session_id e = None ∧ reset e = None.
Proof.
  unfold event_new. destruct (event_validate _); [|done]. cbn. by intros [= <-].
Qed.

Lemma as_i64_number z : -128 ≤ z ≤ 127 → as_i64 (number_of z) = Some z.
Proof.
  intros Hz. unfold number_of, as_i64. destruct (Z.ltb_spec z 0); [done|].
  destruct (Z.leb_spec z i64_max); [done|]. unfold i64_max in *. lia.
Qed.

(** The guards every menu selection carries. *)
Definition menu_guards (e : Event) : list Condition :=
  [mkCondition "EVIDENCE_FINGERPRINT_MATCHES" (Some (VString (evidence_fingerprint e)));
   mkCondition "PROCESS_ALIVE" None; mkCondition "NO_HUMAN_INTERVENTION" None;
   mkCondition "MENU_STABLE" None].

(** When two captures are taken for a wait menu, the recipe for that event sends
    arrow keys that move the cursor, without ever reaching the edge of the menu, to the
    one row whose label is the wait label, and chooses it with a single Enter; no other
    row has that label and no other row had the cursor.  The action is guarded by the
    evidence fingerprint, the live process, no human intervention and a stable menu. *)
Theorem menu_recipe_selects_wait_row observed w w' first second e :
  trusted_menu_event observed w first second = Some e → last_observation w' = Some e →
  ∃ rows cursor target keys a,
    second = first ∧ menu_rows first = Some rows ∧ menu_at rows cursor target
    ∧ claude_action_for w' = Some a ∧ kind a = SendKeys keys ∧ preconditions a = menu_guards e
    ∧ press_all (length rows) (cursor, None) keys = Some (target, Some target).
Proof.
  unfold trusted_menu_event. intros He Hw'. apply bind_Some in He as (menu & Hm & He).
  apply bind_Some in He as (cat & Hcat & He). apply bind_Some in He as (e0 & He0 & [= <-]).
  apply labelled_wait_menu_spec in Hm as (-> & _ & _ & rows & c & t & Hrows & Hat & -> & Hb).
  apply event_new_fields in He0 as (Hsrc & Hc & Hh & Hmeta & Hfp & _).
  exists rows, c, t, (menu_keys (mkWaitMenu (Z.of_nat t - Z.of_nat c))). eexists.
  split; [done|]. split; [done|]. split; [done|].
  unfold claude_action_for. rewrite Hw'. cbn [mbind option_bind put_meta source category policy_hint].
  rewrite Hsrc, Hc, Hh. cbn [event_source_new source_kind source_id].
  rewrite !bool_decide_eq_true_2, String.eqb_refl by done.
  assert (limit_category cat = true) as ->
    by (destruct (classify_screen first first); try done; by injection Hcat as <-).
  cbn [andb]. unfold menu_action. cbn [put_meta metadata]. rewrite lookup_insert_eq.
  cbn [mbind option_bind moves]. rewrite as_i64_number by done. cbn [mbind option_bind].
  cbn [moves] in Hb. unfold within. replace (_ && _) with true by lia. cbn [mbind option_bind].
  split; [reflexivity|]. split; [done|]. split; [done|].
  apply menu_keys_choose; apply (ma_bounds _ _ _ Hat).
Qed.

(** ** What the recipes may do *)
Lemma overload_backoff_bound attempt entropy cap :
  0 ≤ attempt → 0 ≤ entropy → 1 ≤ cap ≤ 5120 →
  0 ≤ overload_backoff_seconds attempt entropy cap ≤ cap.
Proof.
  intros Ha He Hc. unfold overload_backoff_seconds.
  assert (1 ≤ Z.shiftl 1 (Z.min attempt 10)) as Hs.
  { rewrite Z.shiftl_1_l. pose proof (Z.pow_pos_nonneg 2 (Z.min attempt 10)). lia. }
  unfold saturating_mul, saturating_add, u64_max in *.
  set (ceil := Z.min (Z.min _ (Z.shiftl 1 (Z.min attempt 10) * 5)) (Z.max cap 1)).
  assert (1 ≤ ceil ≤ cap) as Hceil by lia.
  rewrite Z.min_r by lia. pose proof (Z.mod_pos_bound entropy (ceil + 1)). lia.
Qed.

Lemma hash64_nonneg s : 0 ≤ hash64 s.
Proof.
  unfold hash64. enough (∀ l h, 0 ≤ h →
    0 ≤ foldl (λ h b, (Z.lxor h (byte_val b) * 1099511628211) mod 2 ^ 64) h l) as Hf by by apply Hf.
  induction l as [|b l IH]; intros h Hh; cbn -[Z.pow]; [done|]. apply IH. by apply Z.mod_pos_bound.
Qed.

Lemma overload_wait_bound e rev : ∃ s, kind (overload_wait e rev) = WaitDuration s ∧ 1 ≤ s ≤ 300.
Proof.
  eexists. split; [reflexivity|].
  pose proof (overload_backoff_bound (rev mod 2 ^ 32) (hash64 (evidence_fingerprint e)) 300) as Hb.
  pose proof (hash64_nonneg (evidence_fingerprint e)). pose proof (Z.mod_pos_bound rev (2 ^ 32)). lia.
Qed.

(** The observations that allow input: a trusted wait menu, and an elapsed reset. *)
Definition menu_observation (e : Event) : Prop :=
  source_kind (source e) = Source.ScreenDetection ∧ source_id (source e) = "claude"
  ∧ limit_category (category e) = true ∧ policy_hint e = Hint.DeterministicActionAllowed.

Definition resume_observation (e : Event) : Prop :=
  from_claude_hook e = true ∧ category e = Category.WaitingForModel
  ∧ policy_hint e = Hint.DeterministicActionAllowed ∧ metadata e !! "claude_resume" = Some (VBool true).

Definition resume_guards (e : Event) (session : string) : list Condition :=
  [mkCondition "EVIDENCE_FINGERPRINT_MATCHES" (Some (VString (evidence_fingerprint e)));
   mkCondition "TARGET_IDENTITY_MATCHES" None; mkCondition "PROCESS_ALIVE" None;
   mkCondition "NO_HUMAN_INTERVENTION" None; mkCondition "COMPOSER_EMPTY" None;
   mkCondition "CLAUDE_RESUME_SESSION" (Some (VString session))].

(** The Claude recipes are conservative.  Whatever the last observation is, a
    proposed action waits at most 300 seconds, waits for the reset of a correlated limit,
    selects in a trusted wait menu with arrow keys and one Enter, or types the fixed
    resume text; keys and text are proposed only for the observations above, with their
    guards and bound to the evidence fingerprint.  No other kind of action is proposed,
    and none for a StopFailure that requires a human. *)
Lemma claude_recipes_conservative w a :
  claude_action_for w = Some a →
  ∃ e, last_observation w = Some e
    ∧ ¬ (from_claude_hook e = true ∧ policy_hint e = Hint.HumanRequired ∧ category e = Category.TerminalFailure)
    ∧ match kind a with
      | WaitDuration s => 1 ≤ s ≤ 300
      | WaitUntil _ => from_claude_hook e = true ∧ limit_category (category e) = true
                       ∧ policy_hint e = Hint.WaitAllowed
      | SendKeys keys => menu_observation e ∧ preconditions a = menu_guards e
                         ∧ ∃ m, keys = menu_keys m ∧ -128 ≤ moves m ≤ 127
      | SendText text => resume_observation e ∧ text = DEFAULT_RESUME
                         ∧ ∃ session, preconditions a = resume_guards e session
      | _ => False
      end.
Proof.
  unfold claude_action_for. intros (e & He & H3)%bind_Some. exists e. split; [done|].
  destruct (_ && _ && _ && _) eqn:Emenu in H3.
  { inv_watch. unfold menu_action in H3.
    apply bind_Some in H3 as (v & _ & H3). apply bind_Some in H3 as (z & _ & H3).
    apply bind_Some in H3 as (m & Hm & [= <-]). apply within_Some in Hm as [-> Hm]. cbn.
    split; [unfold from_claude_hook; rewrite bool_decide_eq_false_2; [naive_solver|congruence]|].
    unfold menu_observation. split; [done|]. split; [done|]. by exists (mkWaitMenu z). }
  clear Emenu. destruct (from_claude_hook e) eqn:Eh; cbn [negb] in H3.
  2: { split; [naive_solver|]. unfold builtin_action_for in H3. rewrite He in H3.
       destruct (_ || _) in H3; [done|]. injection H3 as <-. cbn. lia. }
  destruct (limit_category (category e) && _) eqn:El.
  { apply andb_true_iff in El as [El Ew%bool_decide_eq_true].
    unfold wait_for_reset in H3. apply bind_Some in H3 as (? & _ & H3).
    apply bind_Some in H3 as (? & _ & H3). apply bind_Some in H3 as (? & _ & [= <-]).
    cbn. split; [|done]. intros (_ & ? & _). congruence. }
  destruct (category_eqb (category e) Category.TransientOverload && terminal e) eqn:Eo.
  { apply andb_true_iff in Eo as [Eo%bool_decide_eq_true _]. injection H3 as <-.
    destruct (overload_wait_bound e (revision w)) as (s & -> & Hs).
    split; [|done]. intros (_ & _ & ?). congruence. }
  destruct (_ && _ && _) eqn:Er in H3; [|done].
  apply andb_true_iff in Er as [Er Em]. apply andb_true_iff in Er as [Ec Ed].
  apply bool_decide_eq_true in Ec, Ed. apply meta_true_spec in Em.
  unfold resume_action in H3. apply bind_Some in H3 as (session & _ & [= <-]). cbn.
  split; [intros (_ & _ & ?); congruence|]. unfold resume_observation. eauto 10.
Qed.
End Compose.

(** ** Waiting and resuming agree *)
Section Resume.
Context `{Rfc3339Text} `{Chrono} `{Sha256Hex} `{TargetHash}.

Lemma parse_reset_margin text now r : parse_reset text now = Some r → ResetTime.margin_seconds r = 60.
Proof.
  unfold parse_reset. destruct (_ || _); [done|]. destruct (negb _); [done|].
  destruct (parse_relative _); [by intros [= <-]|].
  intros (? & _ & H4)%bind_Some. apply bind_Some in H4 as ([[? ?] ?] & _ & H4).
  apply bind_Some in H4 as (? & _ & H4). apply bind_Some in H4 as (? & _ & H4).
  destruct (_ && _) in H4; [done|]. by injection H4 as <-.
Qed.

Lemma hook_outcome_wait c cat hint :
  hook_outcome c = Some (cat, hint) → limit_category cat = true → hint = Hint.WaitAllowed.
Proof. destruct c; cbn; intros [= <- <-]; done. Qed.

(** A hook event of a limit with a reset time, and what it carries. *)
Lemma hook_event_reset facts w e :
  correlated_hook_event facts w = Some e → limit_category (category e) = true → reset e ≠ None →
  from_claude_hook e = true ∧ policy_hint e = Hint.WaitAllowed
  ∧ ∃ d, meta_str (metadata e) "claude_reset_at" = Some (to_rfc3339 d)
      ∧ event_margin e = Some 60 ∧ resume_margin e = 60.
Proof.
  unfold correlated_hook_event. intros (ref & _ & H4)%bind_Some.
  apply bind_Some in H4 as (binding & _ & H4). destruct (_ || _ || _ || _); [done|].
  apply bind_Some in H4 as (ms & _ & H4). apply bind_Some in H4 as (m & _ & H4).
  apply bind_Some in H4 as ([cat hint] & Ho & H4). apply bind_Some in H4 as (e0 & He0 & H4).
  apply event_new_fields in He0 as (Hsrc & Hcat & Hhint & Hmeta & _ & _ & _ & Hr0).
  destruct (parse_reset _ _) as [r|] eqn:Er; injection H4 as <-; [|by rewrite <- Hr0].
  intros Hl _. cbn [add_reset put_meta set_reset set_session category policy_hint] in *.
  rewrite Hcat in Hl. apply parse_reset_margin in Er.
  assert (resume_margin (add_reset r (set_session (Some (claude_session_id ref)) e0)) = 60) as Hm.
  { unfold resume_margin. cbn [add_reset put_meta metadata]. rewrite lookup_insert_eq, Er. done. }
  split; [|split; [|exists (reset_at r); split_and!]].
  - unfold from_claude_hook, add_reset, put_meta, set_reset, set_session. cbn [source].
    by rewrite Hsrc, bool_decide_eq_true_2.
  - rewrite Hhint. by apply (hook_outcome_wait _ _ _ Ho).
  - unfold meta_str. cbn [add_reset put_meta metadata set_reset].
    rewrite lookup_insert_ne, lookup_insert_eq by done. done.
  - unfold event_margin. cbn. by rewrite Er.
  - done.
Qed.

Lemma resumed_action w now d previous w' :
  from_claude_hook previous = true → last_observation w' = Some (resumed w now d previous) →
  ∃ a, claude_action_for w' = Some a ∧ kind a = SendText DEFAULT_RESUME
       ∧ mkCondition "CLAUDE_RESUME_SESSION" (Some (VString (evidence_fingerprint (resumed w now d previous))))
         ∈ preconditions a.
Proof.
  intros Hf Hw'. unfold claude_action_for. rewrite Hw'. cbn [mbind option_bind].
  set (e := resumed w now d previous). assert (from_claude_hook e = true) as Hf' by done.
  assert (bool_decide (source_kind (source e) = Source.ScreenDetection) = false) as ->.
  { apply bool_decide_eq_false_2. unfold from_claude_hook in Hf'.
    apply andb_true_iff in Hf' as [->%bool_decide_eq_true _]. done. }
  rewrite Hf'. cbn [andb negb].
  assert (meta_true (metadata e) "claude_resume" = true) as Hr.
  { apply meta_true_spec. unfold e, resumed, put_meta. cbn [metadata].
    by rewrite !lookup_insert_ne, lookup_insert_eq by done. }
  assert (meta_str (metadata e) "claude_resume_session" = Some (evidence_fingerprint e)) as Hs.
  { unfold meta_str, e, resumed, put_meta. cbn [metadata evidence_fingerprint].
    by rewrite lookup_insert_ne, lookup_insert_eq by done. }
  unfold limit_category, category_eqb. change (category e) with Category.WaitingForModel. cbn [andb].
  rewrite Hr. rewrite bool_decide_eq_false_2, !bool_decide_eq_true_2 by done. cbn [andb].
  unfold resume_action. rewrite Hs. cbn [mbind option_bind]. eexists. split; [reflexivity|].
  split; [done|]. cbn. set_solver.
Qed.

(** For a correlated limit with a reset time, waiting and resuming use one deadline:
    the recipe waits until it, no resume candidate is made before it, one is made from it
    on, and the recipe for that candidate types the resume text once, bound to the
    candidate's own fingerprint as session. *)
Theorem resume_exactly_at_wait_deadline facts w0 e w until why w' :
  (∀ d, datetime_of (to_rfc3339 d) = Some d) →
  correlated_hook_event facts w0 = Some e → limit_category (category e) = true → reset e ≠ None →
  last_observation w = Some e → last_observation w' = Some e →
  lifecycle w' = Lifecycle.Waiting until why →
  ∃ deadline a, claude_action_for w = Some a ∧ kind a = WaitUntil (to_rfc3339 deadline)
    ∧ ∀ now, if decide (instant deadline ≤ instant now)
             then ∃ e', resume_candidate_event w' now = Some e'
                  ∧ ∀ w'', last_observation w'' = Some e' →
                      ∃ r, claude_action_for w'' = Some r ∧ kind r = SendText DEFAULT_RESUME
                        ∧ mkCondition "CLAUDE_RESUME_SESSION" (Some (VString (evidence_fingerprint e')))
                          ∈ preconditions r
             else resume_candidate_event w' now = None.
Proof.
  intros Hrt He Hl Hr Hw Hw' Hlife.
  destruct (hook_event_reset _ _ _ He Hl Hr) as (Hf & Hh & d & Hmeta & Hm & Hrm).
  exists (plus_seconds d 60). eexists. split; [|split; [|intros now]].
  - unfold claude_action_for. rewrite Hw. cbn [mbind option_bind].
    assert (bool_decide (source_kind (source e) = Source.ScreenDetection) = false) as ->.
    { apply bool_decide_eq_false_2. unfold from_claude_hook in Hf.
      apply andb_true_iff in Hf as [->%bool_decide_eq_true _]. done. }
    rewrite Hf, Hl, Hh. cbn [andb negb]. rewrite bool_decide_eq_true_2 by done.
    unfold wait_for_reset. rewrite Hmeta. cbn [mbind option_bind]. rewrite Hrt, Hm.
    cbn [mbind option_bind]. reflexivity.
  - done.
  - unfold resume_candidate_event. rewrite Hlife, Hw'. cbn [waiting negb mbind option_bind].
    rewrite Hf, Hl. cbn [negb orb]. rewrite Hmeta. cbn [mbind option_bind]. rewrite Hrt, Hrm.
    cbn [mbind option_bind].
    change (within _ _ 60) with (Some 60). cbn [mbind option_bind].
    destruct (Z.ltb_spec (instant now) (instant (plus_seconds d 60))), (decide _); try lia; [done|].
    eexists. split; [reflexivity|]. intros w'' Hw''. by apply (resumed_action w' now d e).
Qed.
End Resume.

(** ** Concrete inputs *)
Fixpoint pos_text (p : positive) : string :=
  match p with xH => "" | xO p => String "0" (pos_text p) | xI p => String "1" (pos_text p) end.
Fixpoint text_pos (s : string) : positive :=
  match s with
  | EmptyString => xH
  | String c s => if Ascii.eqb c "0" then xO (text_pos s) else xI (text_pos s)
  end.

Lemma text_pos_text p : text_pos (pos_text p) = p.
Proof. induction p as [p IH|p IH|]; cbn; by rewrite ?IH. Qed.

Definition toy_text : Rfc3339Text := {|
  to_rfc3339 d := pos_text (encode (timestamp d, subsec_nanos d, utc_offset d));
  datetime_of s := (λ '(t, n, o), mkDateTime t n o) <$> decode (text_pos s) |}.

Lemma toy_text_roundtrip d : datetime_of (Rfc3339Text := toy_text) (to_rfc3339 (Rfc3339Text := toy_text) d) = Some d.
Proof. cbn. rewrite text_pos_text, decode_encode. by destruct d. Qed.

Definition toy_sha : Sha256Hex := λ _, "aaaaaaaaaaaaaaaa".
Definition toy_target_hash : TargetHash := λ _, "bbbbbbbbbbbbbbbb".

Definition toy_watcher (l : WatcherLifecycle) (o : option Event) : WatcherState :=
  mkWatcher WATCHER_STATE_SCHEMA_VERSION "w1" (TProcess (process_identity_new 7 5)) l 1 0 None
    schedule_default o
    (Some (mkClaudeRef "s1" "/t" "/m" 5 "/" None (Some (mkTranscriptBinding "/t" 1 2)))) None.

Definition NL : ascii := "010".
Definition wait_menu_screen : list Z :=
  chars ("> 1. Upgrade your plan" +:+ String NL "  2. Stop and wait for limit to reset" +:+ String NL "     (resets 5pm)").

Definition menu_event : option Event :=
  trusted_menu_event (H := toy_text) (H1 := toy_sha) (H2 := toy_target_hash)
    (mkDateTime 1000 0 0) (toy_watcher Lifecycle.Observing None)
    wait_menu_screen wait_menu_screen.

Lemma menu_recipe_selects_wait_row_witness :
  ∃ e a, menu_event = Some e
    ∧ claude_action_for (H := toy_text) (toy_watcher Lifecycle.Observing (Some e)) = Some a
    ∧ kind a = SendKeys ["DOWN"; "ENTER"].
Proof.
  destruct menu_event as [e|] eqn:E; [|by vm_compute in E]. exists e.
  destruct (menu_recipe_selects_wait_row (H := toy_text) (mkDateTime 1000 0 0) _
    (toy_watcher Lifecycle.Observing (Some e)) _ _ e E eq_refl)
    as (rows & c & t & keys & a & _ & _ & _ & Ha & Hk & _).
  exists a. split; [done|]. split; [done|].
  vm_compute in E. injection E as <-. vm_compute in Ha. injection Ha as <-. reflexivity.
Defined.

Lemma claude_recipes_conservative_witness :
  ∃ e a, menu_event = Some e
    ∧ claude_action_for (H := toy_text) (toy_watcher Lifecycle.Observing (Some e)) = Some a
    ∧ preconditions a = menu_guards e.
Proof.
  destruct menu_event as [e|] eqn:E; [|by vm_compute in E].
  destruct (claude_action_for (H := toy_text) (toy_watcher Lifecycle.Observing (Some e))) as [a|] eqn:Ea;
    [|vm_compute in E; injection E as <-; by vm_compute in Ea].
  exists e, a. split; [done|]. split; [done|].
  destruct (claude_recipes_conservative (H := toy_text) _ _ Ea) as (e' & [= <-] & _ & Hk).
  assert (kind a = SendKeys ["DOWN"; "ENTER"]) as Hkind
    by (vm_compute in E; injection E as <-; vm_compute in Ea; by injection Ea as <-).
  rewrite Hkind in Hk. exact (proj1 (proj2 Hk)).
Defined.

Definition toy_facts : HookFacts :=
  mkFacts (λ _ _, true) (λ _ _ _, true)
    (λ _, Ok [mkMarker "s1" "/t" "rate_limit" "usage limit, resets in 2 hours"]) (mkDateTime 1000 0 0).

Definition limit_event : option Event :=
  correlated_hook_event (H := toy_text) (H0 := seconds_of_day) (H1 := toy_sha) (H2 := toy_target_hash) toy_facts
    (toy_watcher Lifecycle.Observing None).

Lemma resume_exactly_at_wait_deadline_witness :
  ∃ e, limit_event = Some e
    ∧ ∃ deadline a,
        claude_action_for (H := toy_text) (toy_watcher Lifecycle.Observing (Some e)) = Some a
        ∧ kind a = WaitUntil (to_rfc3339 (Rfc3339Text := toy_text) deadline).
Proof.
  destruct limit_event as [e|] eqn:E; [|by vm_compute in E]. exists e. split; [done|].
  edestruct (resume_exactly_at_wait_deadline (H := toy_text) (H0 := seconds_of_day) (H1 := toy_sha)
    (H2 := toy_target_hash) toy_facts
    (toy_watcher Lifecycle.Observing None) e (toy_watcher Lifecycle.Observing (Some e)) 0 "wait"
    (toy_watcher (Lifecycle.Waiting 0 "wait") (Some e)) toy_text_roundtrip E) as (d & a & Ha & Hk & _);
    [vm_compute in E; injection E as <-; done..|].
  by exists d, a.
Defined.
