(* ===== verification/Manifest.v ===== *)
(** * Provider manifests (src/src/agents/manifest.rs)

    Agents that WatchMe knows by declaration only: the manifest record, its validation,
    the loader with local overrides, version ranges, and the recipes made from the
    declared recoveries.  The TOML decoder and the regex compiler are parameters;
    directory listings and file metadata are answers of the environment. *)
From S2P Require Import Prelude Json Text ParseInt Action Event Identity StateMachine State.
From S2P Require Import Policy Process Runtime Hooks.
From Stdlib Require Import Ascii.

Local Open Scope Z_scope.

Definition SCHEMA_VERSION : string := "1.0".

Definition FORBIDDEN_SHELLS : list string :=
  ["sh"; "bash"; "zsh"; "dash"; "fish"; "csh"; "tcsh"; "ksh"; "busybox"; "pwsh"; "powershell";
   "cmd"; "python"; "python3"; "perl"; "ruby"; "node"; "osascript"].

Inductive ManifestError : Type :=
| SchemaVersion (v : string)
| Parse (m : string)
| UnknownField (m : string)
| UnsafeRegex (m : string)
| ForbiddenCommand (m : string)
| UnsafePath (m : string)
| HashMismatch (id : string)
| PolicyWeakening (m : string)
| Invalid (m : string)
| ManifestIo (m : string).

(** ** The record *)
Module Tier.
Inductive SupportTier : Type :=
| Structured | DeterministicTerminal | PlannerAssisted | ObservationOnly | Disabled.
#[global] Instance SupportTier_eq_dec : EqDecision SupportTier.
Proof. solve_decision. Defined.
End Tier.
Abbreviation SupportTier := Tier.SupportTier.

Module Unknown.
Inductive UnknownVersionPolicy : Type := ObservationOnly | Disable | AllowExactRules.
End Unknown.
Abbreviation UnknownVersionPolicy := Unknown.UnknownVersionPolicy.

Module Capability.
Inductive EffectiveCapability : Type :=
| Structured | DeterministicTerminal | PlannerAssisted | ObservationOnly | Disabled.
End Capability.
Abbreviation EffectiveCapability := Capability.EffectiveCapability.

Module Readiness.
Inductive ProviderReadiness : Type := Tested | Probed | ObservationOnly | Absent | Disabled.
End Readiness.
Abbreviation ProviderReadiness := Readiness.ProviderReadiness.

Inductive ManifestSource : Type := Bundled | LocalOverride.

Record VersionRange : Type := mkRange {
  minimum : option string;
  maximum_exclusive : option string;
  unknown_version_policy : option UnknownVersionPolicy;
}.

Inductive ProcessMatcherKind : Type :=
| ExecutableBasename | ExecutableRealpath | ArgvLiteral | ArgvSafeRegex | EnvironmentHint.
#[global] Instance ProcessMatcherKind_eq_dec : EqDecision ProcessMatcherKind.
Proof. solve_decision. Defined.

Record ProcessMatcher : Type := mkMatcher {
  pm_kind : ProcessMatcherKind;
  pm_pattern : string;
  pm_weight : Z;
  pm_case_sensitive : bool;
}.

Record CommandSpec : Type := mkCommand {
  cs_executable : string;
  cs_args : list string;
  cs_timeout_seconds : Z;
  cs_max_output_bytes : Z;
}.

Inductive ProviderResolutionMode : Type :=
| Fixed | Argv | Environment | ConfigMetadata | RuntimeProbe | UnknownMode.

Record ProviderResolution : Type := mkResolution {
  mode : ProviderResolutionMode;
  fixed_family : option string;
  argv_flag_names : list string;
  environment_names : list string;
  unknown_is_independent : bool;
}.

Inductive SessionSourceKind : Type :=
| HerdrAgentSession | HookPayload | SessionTypedApi | ProcessEnvironment | OpenFile
| JsonlMetadata | SessionStateDatabase | BoundedGlob.

Record SessionSource : Type := mkSessionSource {
  ss_kind : SessionSourceKind;
  ss_priority : Z;
  environment_name : option string;
  path_template : option string;
  json_pointer : option string;
  requires_cwd_match : bool;
  requires_process_time_match : bool;
}.

Inductive StructuredSourceKind : Type :=
| StructuredHook | StructuredJsonl | LocalApi | StateDatabase | HerdrState.

Record StructuredSource : Type := mkStructuredSource {
  st_id : string;
  st_kind : StructuredSourceKind;
  st_priority : Z;
  event_selector : option string;
  terminal_only : bool;
}.

Inductive ScreenState : Type := ScreenWorking | ScreenIdle | ScreenBlocked | ScreenUnknown.
Inductive ScreenRegion : Type := Bottom2 | Bottom5 | Bottom12 | WholeRecent | Detection | MenuBlock.
Inductive ScreenConditionKind : Type :=
| ContainsLiteral | NotContainsLiteral | LineSafeRegex | BottomLineContains | LabelledMenuOption.
#[global] Instance ScreenConditionKind_eq_dec : EqDecision ScreenConditionKind.
Proof. solve_decision. Defined.

Record ScreenCondition : Type := mkScreenCondition {
  sc_kind : ScreenConditionKind;
  sc_value : string;
}.

Record ScreenRule : Type := mkScreenRule {
  sr_id : string;
  sr_state : ScreenState;
  sr_category : string;
  sr_priority : Z;
  sr_confidence : f64;
  sr_region : ScreenRegion;
  sr_conditions : list ScreenCondition;
  requires_stable_samples : Z;
  visible_blocker : bool;
  allow_action : bool;
  version_note : option string;
}.

Inductive TemplatePreconditionKind : Type :=
| TargetIdentityPre | ProcessAlive | ComposerEmpty | MenuStable | EventCategoryPre | GoalState
| NoHumanIntervention.

Record TemplatePrecondition : Type := mkTemplatePrecondition {
  tp_kind : TemplatePreconditionKind;
  tp_value : option string;
}.

Module Template.
Inductive TemplateActionType : Type :=
| WaitParsedReset | WaitBackoff | SendFixedText | SendFixedKeys | CheckAgentState
| CheckGoalState | Notify | HumanRequired.
End Template.
Abbreviation TemplateActionType := Template.TemplateActionType.

Record TemplateAction : Type := mkTemplateAction {
  ta_type : TemplateActionType;
  ta_text : option string;
  ta_keys : list string;
  ta_seconds : option Z;
}.

Record RecoveryRecipe : Type := mkRecipe {
  rr_id : string;
  event_categories : list string;
  rr_preconditions : list TemplatePrecondition;
  rr_actions : list TemplateAction;
  rr_max_attempts : Z;
  cooldown_seconds : Z;
  human_on_failure : bool;
}.

Inductive PlannerOutputMode : Type := OutJson | OutJsonl | TextThenValidate.
Inductive PlannerFamilySource : Type := FamFixed | CliArgs | ConfigProbe | FamRuntimeProbe | FamUnknown.

Record PlannerRecipe : Type := mkPlannerRecipe {
  pr_id : string;
  pr_command : CommandSpec;
  output_mode : PlannerOutputMode;
  schema_enforced : bool;
  requires_isolated_cwd : bool;
  tools_disabled : bool;
  auto_approval_disabled : bool;
  provider_family_source : PlannerFamilySource;
  fixed_provider_family : option string;
  enabled_by_default : bool;
  unsafe_reason : option string;
}.

Record ProviderManifest : Type := mkManifest {
  mf_schema_version : string;
  mf_id : string;
  manifest_version : string;
  updated_at : string;
  min_watchme_version : option string;
  description : option string;
  source_url : option string;
  support_tier : SupportTier;
  aliases : list string;
  version_range : option VersionRange;
  process_matchers : list ProcessMatcher;
  version_probe : option CommandSpec;
  provider_resolution : ProviderResolution;
  session_sources : list SessionSource;
  structured_sources : list StructuredSource;
  screen_rules : list ScreenRule;
  composer_rules : list ScreenRule;
  deterministic_recoveries : list RecoveryRecipe;
  planner_recipes : list PlannerRecipe;
  fixture_paths : list string;
}.

(** ** Validation *)
Fixpoint each {E A} (f : A → result E unit) (l : list A) : result E unit :=
  match l with [] => Ok tt | x :: l => let? _ := f x in each f l end.

Definition slug_byte (b : ascii) : bool :=
  is_ascii_lowercase b || is_ascii_digit b || existsb (Ascii.eqb b) (bytes "._-").

Definition slug_ok (value : string) : bool :=
  negb (is_empty value) && (len value <=? 64)
  && match bytes value with c :: _ => is_ascii_lowercase c || is_ascii_digit c | [] => false end
  && forallb slug_byte (bytes value).

Definition validate_slug (value label : string) : result ManifestError unit :=
  fail_if (negb (slug_ok value)) (Invalid ("invalid " +:+ label +:+ ": " +:+ value)).

(** The regex [\([^()]*[+*][^()]*\)[+*?]], anywhere in the pattern. *)
Fixpoint group_at (quantified : bool) (l : list ascii) : bool :=
  match l with
  | [] => false
  | c :: l =>
      if Ascii.eqb c "(" then false
      else if Ascii.eqb c ")" then
        quantified && match l with d :: _ => existsb (Ascii.eqb d) (bytes "+*?") | [] => false end
      else group_at (quantified || existsb (Ascii.eqb c) (bytes "+*")) l
  end.
Fixpoint nested_quantifier (l : list ascii) : bool :=
  match l with
  | [] => false
  | c :: l => (Ascii.eqb c "(" && group_at false l) || nested_quantifier l
  end.

Fixpoint backreference (l : list ascii) : bool :=
  match l with
  | a :: (b :: _) as l' => (Ascii.eqb a "\" && is_ascii_digit b) || backreference l'
  | _ => false
  end.

Definition looks_catastrophic (pattern : string) : bool :=
  nested_quantifier (bytes pattern)
  || (existsb (λ b, Ascii.eqb b "\") (bytes pattern) && existsb is_ascii_digit (bytes pattern)
      && backreference (bytes pattern)).

(** The regex crate's compiler under the size limits. *)
Class RegexBuild : Type := regex_build : string → result string unit.
(** toml's decoder into the manifest record. *)
Class TomlDecode : Type := toml_from_str : string → result string ProviderManifest.

Section Validation.
Context `{Rfc3339} `{RegexBuild}.

Definition validate_safe_regex (pattern : string) : result ManifestError unit :=
  let? _ := fail_if (is_empty pattern || (512 <? len pattern)) (UnsafeRegex "length bounds") in
  let? _ := fail_if (looks_catastrophic pattern)
              (UnsafeRegex ("catastrophic pattern rejected: " +:+ pattern)) in
  map_err UnsafeRegex (regex_build pattern).

Definition validate_process_matcher (m : ProcessMatcher) : result ManifestError unit :=
  let? _ := fail_if (is_empty (pm_pattern m) || (256 <? len (pm_pattern m)))
              (Invalid "process matcher pattern bounds") in
  let? _ := fail_if (negb ((-100 <=? pm_weight m) && (pm_weight m <=? 100)))
              (Invalid "process matcher weight bounds") in
  if bool_decide (pm_kind m = ArgvSafeRegex) then validate_safe_regex (pm_pattern m) else Ok tt.

Definition validate_screen_condition (c : ScreenCondition) : result ManifestError unit :=
  let? _ := fail_if (is_empty (sc_value c) || (512 <? len (sc_value c)))
              (Invalid "screen condition value bounds") in
  if bool_decide (sc_kind c = LineSafeRegex) then validate_safe_regex (sc_value c) else Ok tt.

Definition validate_screen_rule (r : ScreenRule) : result ManifestError unit :=
  let? _ := validate_slug (sr_id r) "screen rule id" in
  let? _ := fail_if (negb (in_unit_interval (sr_confidence r)) || negb (is_finite (sr_confidence r)))
              (Invalid "screen confidence bounds") in
  let? _ := fail_if (bool_decide (sr_conditions r = []) || (16 <? Z.of_nat (length (sr_conditions r))))
              (Invalid "screen conditions bounds") in
  let? _ := fail_if (negb ((1 <=? requires_stable_samples r) && (requires_stable_samples r <=? 5)))
              (Invalid "requires_stable_samples bounds") in
  each validate_screen_condition (sr_conditions r).

Definition executable_byte (b : ascii) : bool :=
  is_ascii_alphanumeric b || existsb (Ascii.eqb b) (bytes "_./+-").

Definition forbidden_argument (arg : string) : bool :=
  let lower := to_ascii_lowercase arg in
  one_of ["-c"; "--command"; "-e"] lower || contains "yolo" lower || contains "auto-approve" lower
  || contains "dangerously" lower.

Definition validate_argument (arg : string) : result ManifestError unit :=
  let? _ := fail_if (512 <? len arg) (ForbiddenCommand "arg too long") in
  fail_if (forbidden_argument arg) (ForbiddenCommand ("forbidden argument: " +:+ arg)).

Definition command_basename (c : CommandSpec) : string :=
  to_ascii_lowercase (after_last "/" (cs_executable c)).

Definition validate_command_spec (c : CommandSpec) : result ManifestError unit :=
  let? _ := fail_if (is_empty (cs_executable c) || (256 <? len (cs_executable c)))
              (ForbiddenCommand "executable bounds") in
  let? _ := fail_if (negb (forallb executable_byte (bytes (cs_executable c))))
              (ForbiddenCommand "executable has illegal characters") in
  let? _ := fail_if (contains ".." (cs_executable c)) (ForbiddenCommand "executable path traversal") in
  let? _ := fail_if (one_of FORBIDDEN_SHELLS (command_basename c))
              (ForbiddenCommand ("shell/interpreter executable forbidden: " +:+ command_basename c)) in
  let? _ := fail_if (32 <? Z.of_nat (length (cs_args c))) (ForbiddenCommand "too many args") in
  let? _ := each validate_argument (cs_args c) in
  let? _ := fail_if (negb ((1 <=? cs_timeout_seconds c) && (cs_timeout_seconds c <=? 300)))
              (ForbiddenCommand "timeout bounds") in
  fail_if (negb ((1 <=? cs_max_output_bytes c) && (cs_max_output_bytes c <=? 10000000)))
    (ForbiddenCommand "max_output_bytes bounds").

Definition manifest_keys : list string :=
  ["ENTER"; "ESCAPE"; "UP"; "DOWN"; "LEFT"; "RIGHT"; "TAB"; "BACKTAB"].

Definition validate_template_action (a : TemplateAction) : result ManifestError unit :=
  match ta_type a with
  | Template.SendFixedText =>
      let text := default "" (ta_text a) in
      fail_if (is_empty text || negb (is_safe_send_text text))
        (PolicyWeakening ("SEND_FIXED_TEXT rejected by compiled allowlist: " +:+ text))
  | Template.SendFixedKeys =>
      fail_if (bool_decide (ta_keys a = []) || negb (forallb (one_of manifest_keys) (ta_keys a)))
        (PolicyWeakening "SEND_FIXED_KEYS has non-allowlisted keys")
  | Template.WaitBackoff =>
      let seconds := default 0 (ta_seconds a) in
      fail_if (negb ((1 <=? seconds) && (seconds <=? 86400))) (Invalid "WAIT_BACKOFF seconds bounds")
  | Template.Notify =>
      let text := default "" (ta_text a) in
      fail_if (is_empty text || (512 <? len text) || existsb is_control (chars text))
        (Invalid "NOTIFY text bounds")
  | Template.WaitParsedReset | Template.CheckAgentState | Template.CheckGoalState
  | Template.HumanRequired => Ok tt
  end.

Definition validate_recovery_recipe (r : RecoveryRecipe) : result ManifestError unit :=
  let? _ := validate_slug (rr_id r) "recovery id" in
  let? _ := fail_if (bool_decide (event_categories r = [])
                     || (16 <? Z.of_nat (length (event_categories r))))
              (Invalid "event_categories bounds") in
  let? _ := fail_if (bool_decide (rr_preconditions r = []) || bool_decide (rr_actions r = []))
              (Invalid "recovery requires preconditions and actions") in
  let? _ := fail_if (negb ((1 <=? rr_max_attempts r) && (rr_max_attempts r <=? 10)))
              (Invalid "max_attempts bounds") in
  each validate_template_action (rr_actions r).

Definition validate_planner_recipe (r : PlannerRecipe) : result ManifestError unit :=
  let? _ := validate_slug (pr_id r) "planner id" in
  let? _ := validate_command_spec (pr_command r) in
  let? _ := fail_if (negb (requires_isolated_cwd r))
              (PolicyWeakening "planner recipes require isolated cwd") in
  let? _ := fail_if (negb (tools_disabled r) || negb (auto_approval_disabled r))
              (PolicyWeakening "planner recipes must disable tools and auto-approval") in
  fail_if (negb (schema_enforced r) && enabled_by_default r)
    (PolicyWeakening "enabled planner recipes must enforce schema").

Definition input_type (t : TemplateActionType) : bool :=
  match t with Template.SendFixedText | Template.SendFixedKeys => true | _ => false end.

Definition recipe_has_input_action (r : RecoveryRecipe) : bool :=
  existsb (λ a, input_type (ta_type a)) (rr_actions r).

Definition passive_tier (t : SupportTier) : bool :=
  match t with Tier.ObservationOnly | Tier.Disabled => true | _ => false end.

Definition validate_manifest (m : ProviderManifest) : result ManifestError unit :=
  let? _ := fail_if (negb (String.eqb (mf_schema_version m) SCHEMA_VERSION))
              (SchemaVersion (mf_schema_version m)) in
  let? _ := validate_slug (mf_id m) "id" in
  let? _ := fail_if (is_empty (manifest_version m) || (64 <? len (manifest_version m)))
              (Invalid "manifest_version bounds") in
  let? _ := fail_if (negb (valid_datetime (updated_at m))) (Invalid "updated_at must be RFC3339") in
  let? _ := fail_if (32 <? Z.of_nat (length (aliases m))) (Invalid "too many aliases") in
  let? _ := each (λ a, validate_slug a "alias") (aliases m) in
  let? _ := fail_if (bool_decide (process_matchers m = [])
                     || (32 <? Z.of_nat (length (process_matchers m))))
              (Invalid "process_matchers bounds") in
  let? _ := each validate_process_matcher (process_matchers m) in
  let? _ := match version_probe m with Some p => validate_command_spec p | None => Ok tt end in
  let? _ := fail_if (unknown_is_independent (provider_resolution m))
              (PolicyWeakening "unknown_is_independent must be false") in
  let? _ := each validate_screen_rule (screen_rules m ++ composer_rules m) in
  let? _ := fail_if (passive_tier (support_tier m)
                     && existsb recipe_has_input_action (deterministic_recoveries m))
              (PolicyWeakening "observation_only/disabled manifests cannot declare input recoveries") in
  let? _ := each validate_recovery_recipe (deterministic_recoveries m) in
  each validate_planner_recipe (planner_recipes m).

Definition parse_and_validate `{TomlDecode} (toml_text : string) : result ManifestError ProviderManifest :=
  match toml_from_str toml_text with
  | Err message =>
      Err (if contains "unknown field" message then UnknownField message else Parse message)
  | Ok m => let? _ := validate_manifest m in Ok m
  end.
End Validation.

(** ** Versions and capability *)
Fixpoint split_char (sep : ascii) (cur : list ascii) (l : list ascii) : list string :=
  match l with
  | [] => [String.string_of_list_ascii (reverse cur)]
  | c :: l =>
      if Ascii.eqb c sep then String.string_of_list_ascii (reverse cur) :: split_char sep [] l
      else split_char sep (c :: cur) l
  end.

Definition Version : Type := Z * Z * Z.

Definition parse_version (value : string) : option Version :=
  let parts := split_char "." [] (bytes (trim_string value)) in
  major ← head parts ≫= parse_unsigned u64_max;
  minor ← parse_unsigned u64_max (default "0" (parts !! 1%nat));
  patch ← parse_unsigned u64_max (default "0" (parts !! 2%nat));
  if (3 <? Z.of_nat (length parts)) then None else Some (major, minor, patch).

(** The derived order of tuples. *)
Definition version_ltb (a b : Version) : bool :=
  let '(a1, a2, a3) := a in
  let '(b1, b2, b3) := b in
  (a1 <? b1) || ((a1 =? b1) && ((a2 <? b2) || ((a2 =? b2) && (a3 <? b3)))).

Definition version_in_range (version : string) (range : VersionRange) : option bool :=
  parsed ← parse_version version;
  below ← match minimum range with
          | Some min => (λ m, version_ltb parsed m) <$> parse_version min
          | None => Some false
          end;
  if below : bool then Some false
  else
    above ← match maximum_exclusive range with
            | Some max => (λ m, negb (version_ltb parsed m)) <$> parse_version max
            | None => Some false
            end;
    Some (negb above).

Definition base_capability (t : SupportTier) : EffectiveCapability :=
  match t with
  | Tier.Structured => Capability.Structured
  | Tier.DeterministicTerminal => Capability.DeterministicTerminal
  | Tier.PlannerAssisted => Capability.PlannerAssisted
  | Tier.ObservationOnly => Capability.ObservationOnly
  | Tier.Disabled => Capability.Disabled
  end.

Definition effective_capability (m : ProviderManifest) (version : option string) : EffectiveCapability :=
  let base := base_capability (support_tier m) in
  match version_range m with
  | None => base
  | Some range =>
      match version ≫= λ v, version_in_range v range with
      | Some true => base
      | Some false | None =>
          match default Unknown.ObservationOnly (unknown_version_policy range) with
          | Unknown.ObservationOnly => Capability.ObservationOnly
          | Unknown.Disable => Capability.Disabled
          | Unknown.AllowExactRules => base
          end
      end
  end.

(** ** Loading *)
Record LoadedManifest : Type := mkLoaded {
  lm_manifest : ProviderManifest;
  lm_source : ManifestSource;
  content_sha256 : string;
  lm_path : option string;
}.

Record OverrideAudit : Type := mkOverride {
  ov_id : string;
  replaced_bundled : bool;
  ov_path : string;
}.

Abbreviation ManifestRegistry := (gmap string LoadedManifest).

Record ManifestLoadReport : Type := mkReport {
  rp_loaded : list LoadedManifest;
  rp_overrides : list OverrideAudit;
  rp_registry : ManifestRegistry;
}.

(** [symlink_metadata]. *)
Record FileMeta : Type := mkMeta {
  is_symlink : bool;
  is_dir : bool;
  is_file : bool;
  permissions : Z;
}.

Record DirEntry : Type := mkEntry {
  de_path : string;
  de_meta : result string FileMeta;
  de_canonical : result string string;
  de_content : result string string;
}.

Record LocalDir : Type := mkLocalDir {
  ld_path : string;
  ld_meta : result string FileMeta;
  ld_canonical : result string string;
  ld_entries : result string (list (result string DirEntry));
}.

Definition has_parent_dir (path : string) : bool :=
  existsb (λ c, bool_decide (c = bytes "..")) (components path).2.

(** [Path::starts_with], by components. *)
Fixpoint components_prefix (p l : list (list ascii)) : bool :=
  match p, l with
  | [], _ => true
  | a :: p, b :: l => bool_decide (a = b) && components_prefix p l
  | _ :: _, [] => false
  end.
Definition path_starts_with (path root : string) : bool :=
  Bool.eqb (components path).1 (components root).1
  && components_prefix (components root).2 (components path).2.

(** [extension() == Some("toml")]. *)
Definition is_toml (path : string) : bool :=
  match last (components path).2 with
  | Some name =>
      ends_with ".toml" (String.string_of_list_ascii name) && negb (bool_decide (name = bytes ".toml"))
  | None => false
  end.

Definition validate_manifest_directory (d : LocalDir) : result ManifestError unit :=
  let? _ := fail_if (negb (is_absolute (ld_path d)) || has_parent_dir (ld_path d))
              (UnsafePath "manifest directory must be absolute without traversal") in
  let? meta := map_err ManifestIo (ld_meta d) in
  let? _ := fail_if (is_symlink meta) (UnsafePath "manifest directory must not be a symlink") in
  let? _ := fail_if (negb (is_dir meta)) (UnsafePath "manifest path is not a directory") in
  fail_if (negb (Z.land (permissions meta) 63 =? 0))
    (UnsafePath "manifest directory must be owner-only").

Definition validate_manifest_file (root : result string string) (e : DirEntry)
    : result ManifestError unit :=
  let? _ := fail_if (has_parent_dir (de_path e)) (UnsafePath "manifest path traversal rejected") in
  let? meta := map_err ManifestIo (de_meta e) in
  let? _ := fail_if (is_symlink meta) (UnsafePath "manifest file must not be a symlink") in
  let? _ := fail_if (negb (is_file meta)) (UnsafePath "manifest path is not a regular file") in
  let? _ := fail_if (negb (Z.land (permissions meta) 91 =? 0))
              (UnsafePath "manifest file must not be group/other writable or executable") in
  let? canonical := map_err ManifestIo (de_canonical e) in
  let? root := map_err ManifestIo root in
  fail_if (negb (path_starts_with canonical root)) (UnsafePath "manifest escaped local directory").

Section Loading.
Context `{Rfc3339} `{RegexBuild} `{TomlDecode} `{Sha256Hex}.

Definition content_digest (content : string) : string := sha256_hex (byte_list content).

Definition load_bundled (by_id : ManifestRegistry) (entry : string * string * string)
    : result ManifestError ManifestRegistry :=
  let '(id, content, expected) := entry in
  let digest := content_digest content in
  let? _ := fail_if (negb (String.eqb digest expected)) (HashMismatch id) in
  let? m := parse_and_validate content in
  let? _ := fail_if (negb (String.eqb (mf_id m) id))
              (Invalid ("bundled id mismatch: file " +:+ id +:+ " declares " +:+ mf_id m)) in
  Ok (<[mf_id m := mkLoaded m Bundled digest None]> by_id).

Definition load_local (root : result string string) (s : ManifestRegistry * list OverrideAudit)
    (entry : result string DirEntry) : result ManifestError (ManifestRegistry * list OverrideAudit) :=
  let '(by_id, overrides) := s in
  let? e := map_err ManifestIo entry in
  if negb (is_toml (de_path e)) then Ok s
  else
    let? _ := validate_manifest_file root e in
    let? content := map_err ManifestIo (de_content e) in
    let? m := parse_and_validate content in
    let overrides :=
      match by_id !! mf_id m with
      | Some _ => overrides ++ [mkOverride (mf_id m) true (de_path e)]
      | None => overrides
      end in
    Ok (<[mf_id m := mkLoaded m LocalOverride (content_digest content) (Some (de_path e))]> by_id, overrides).

Fixpoint try_fold {S A} (f : S → A → result ManifestError S) (s : S) (l : list A) : result ManifestError S :=
  match l with [] => Ok s | x :: l => let? s := f s x in try_fold f s l end.

(** [bundled] are the embedded manifests with their pinned digests. *)
Definition load_manifests (bundled : list (string * string * string)) (local_dir : option LocalDir)
    (include_bundled : bool) : result ManifestError ManifestLoadReport :=
  let? by_id := if include_bundled then try_fold load_bundled ∅ bundled else Ok ∅ in
  let? s :=
    match local_dir with
    | None => Ok (by_id, [])
    | Some d =>
        let? _ := validate_manifest_directory d in
        let? entries := map_err ManifestIo (ld_entries d) in
        try_fold (load_local (ld_canonical d)) (by_id, []) entries
    end in
  Ok (mkReport (btree_values s.1) s.2 s.1).
End Loading.

(** ** Listings *)
Definition basenames (m : ProviderManifest) : list string :=
  pm_pattern <$> List.filter (λ p, bool_decide (pm_kind p = ExecutableBasename)) (process_matchers m).

Definition process_match_basenames (r : ManifestRegistry) : list string :=
  foldl (λ names n, if bool_decide (n ∈ names) then names else names ++ [n]) []
    (mbind (basenames ∘ lm_manifest) (btree_values r)).

Record ProviderStatus : Type := mkStatus {
  ps_id : string;
  ps_aliases : list string;
  ps_tier : SupportTier;
  ps_readiness : ProviderReadiness;
  executable_present : bool;
  local_override : bool;
  ps_manifest_version : string;
}.

Definition readiness (t : SupportTier) (present : bool) : ProviderReadiness :=
  if bool_decide (t = Tier.Disabled) then Readiness.Disabled
  else if negb present then Readiness.Absent
  else
    match t with
    | Tier.Structured => Readiness.Tested
    | Tier.DeterministicTerminal => Readiness.Probed
    | Tier.PlannerAssisted | Tier.ObservationOnly => Readiness.ObservationOnly
    | Tier.Disabled => Readiness.Disabled
    end.

Definition provider_status (present : string → bool) (l : LoadedManifest) : ProviderStatus :=
  let m := lm_manifest l in
  let here := existsb present (basenames m) in
  mkStatus (mf_id m) (aliases m) (support_tier m) (readiness (support_tier m) here) here
    (match lm_source l with LocalOverride => true | Bundled => false end) (manifest_version m).

Definition provider_listing (r : ManifestRegistry) (present : string → bool) : list ProviderStatus :=
  provider_status present <$> btree_values r.

(** ** Recipes *)

(** The snake_case names of serde. *)
Definition category_slug (c : EventCategory) : string :=
  match c with
  | Category.Working => "working"
  | Category.Idle => "idle"
  | Category.WaitingForModel => "waiting_for_model"
  | Category.WaitingForTool => "waiting_for_tool"
  | Category.WaitingForUser => "waiting_for_user"
  | Category.PermissionPrompt => "permission_prompt"
  | Category.QuestionPrompt => "question_prompt"
  | Category.UsageLimit => "usage_limit"
  | Category.SessionLimit => "session_limit"
  | Category.WeeklyLimit => "weekly_limit"
  | Category.ModelCreditExhausted => "model_credit_exhausted"
  | Category.TransientOverload => "transient_overload"
  | Category.CapacityBlock => "capacity_block"
  | Category.AuthenticationFailure => "authentication_failure"
  | Category.BillingFailure => "billing_failure"
  | Category.InvalidRequest => "invalid_request"
  | Category.ModelUnavailable => "model_unavailable"
  | Category.SafetyBlock => "safety_block"
  | Category.PausedGoal => "paused_goal"
  | Category.BlockedGoal => "blocked_goal"
  | Category.ContextLimit => "context_limit"
  | Category.TerminalFailure => "terminal_failure"
  | Category.Crashed => "crashed"
  | Category.Terminated => "terminated"
  | Category.UnknownBlocked => "unknown_blocked"
  | Category.Recovered => "recovered"
  | Category.HumanIntervention => "human_intervention"
  end.

Definition map_precondition (p : TemplatePrecondition) : Condition :=
  match tp_kind p with
  | TargetIdentityPre => mkCondition "TARGET_IDENTITY_MATCHES" None
  | ProcessAlive => mkCondition "PROCESS_ALIVE" None
  | ComposerEmpty => mkCondition "COMPOSER_EMPTY" None
  | MenuStable => mkCondition "MENU_STABLE" None
  | EventCategoryPre => mkCondition "EVENT_CATEGORY_IS" (VString <$> tp_value p)
  | GoalState => mkCondition "GOAL_STATE_IS" (VString <$> tp_value p)
  | NoHumanIntervention => mkCondition "NO_HUMAN_INTERVENTION" None
  end.

Definition template_kind (r : RecoveryRecipe) (t : TemplateAction) : option ActionKind :=
  match ta_type t with
  | Template.WaitBackoff => Some (WaitDuration (default 60 (ta_seconds t)))
  | Template.SendFixedText => SendText <$> ta_text t
  | Template.SendFixedKeys => Some (SendKeys (ta_keys t))
  | Template.Notify => Some (Notify "info" (default (rr_id r) (ta_text t)))
  | Template.HumanRequired => Some (Escalate "human_required")
  | Template.CheckAgentState => Some (CheckStatus (mkStatusCheck "AGENT_STATE" None))
  | Template.CheckGoalState => Some (CheckStatus (mkStatusCheck "GOAL_STATE" None))
  | Template.WaitParsedReset => None
  end.

Definition recipe_to_action (r : RecoveryRecipe) (fingerprint : string) : option Action :=
  template ← head (rr_actions r);
  k ← template_kind r template;
  Some (push_preconditions
          (action_new ("manifest." +:+ rr_id r) k ("manifest recovery " +:+ rr_id r) fingerprint 30)
          (map_precondition <$> rr_preconditions r)).

(** [ManifestRecipes::from_registry]: id, aliases and basenames, later entries win. *)
Definition source_names (m : ProviderManifest) : list string := mf_id m :: aliases m ++ basenames m.

Definition recipes_from_registry (r : ManifestRegistry) : gmap string LoadedManifest :=
  foldl (λ by_source l, foldl (λ by_source n, <[n := l]> by_source) by_source (source_names (lm_manifest l)))
    ∅ (btree_values r).

Definition inert (c : EffectiveCapability) : bool :=
  match c with
  | Capability.ObservationOnly | Capability.Disabled | Capability.PlannerAssisted => true
  | _ => false
  end.

Definition manifest_action_for `{Rfc3339} (by_source : gmap string LoadedManifest) (w : WatcherState)
    : option Action :=
  event ← last_observation w;
  loaded ← by_source !! source_id (source event);
  let m := lm_manifest loaded in
  if inert (effective_capability m (meta_str (metadata event) "agent_version")) then None
  else
    recipe ← List.find (λ r, existsb (λ c, String.eqb c (category_slug (category event)))
                                 (event_categories r)) (deterministic_recoveries m);
    action ← recipe_to_action recipe (evidence_fingerprint event);
    match authorize action safe with Ok _ => Some action | Err _ => None end.

(** ** What a validated manifest may contain *)
Lemma each_Ok {E A} (f : A → result E unit) l :
  each f l = Ok tt → ∀ x, x ∈ l → f x = Ok tt.
Proof.
  induction l as [|y l IH]; cbn; [by intros _ x ?%elem_of_nil|].
  intros ([] & Hy & Hl)%rbind_Ok x [->|Hx]%elem_of_cons; [done|by apply IH].
Qed.

(** A command that cannot be a shell, leave its directory, or disable approvals. *)
Record harmless_command (c : CommandSpec) : Prop := {
  hc_shell : command_basename c ∉ FORBIDDEN_SHELLS;
  hc_traversal : contains ".." (cs_executable c) = false;
  hc_args : ∀ a, a ∈ cs_args c → forbidden_argument a = false ∧ len a ≤ 512;
  hc_bounds : 1 ≤ cs_timeout_seconds c ≤ 300 ∧ 1 ≤ cs_max_output_bytes c ≤ 10000000
              ∧ Z.of_nat (length (cs_args c)) ≤ 32;
}.

Lemma validate_command_spec_Ok c : validate_command_spec c = Ok tt → harmless_command c.
Proof.
  unfold validate_command_spec. intros H.
  do 5 (apply rbind_Ok in H as ([] & ?%fail_if_Ok & H)).
  apply rbind_Ok in H as ([] & Ha & H). apply rbind_Ok in H as ([] & ?%fail_if_Ok & H).
  apply fail_if_Ok in H. rewrite !negb_false_iff, !andb_true_iff, !Z.leb_le in *.
  rewrite !orb_false_iff, !Z.ltb_ge in *. split; [|done| |done].
  - intros Hin%one_of_spec. congruence.
  - intros a Hin. apply (each_Ok _ _ Ha) in Hin. unfold validate_argument in Hin.
    apply rbind_Ok in Hin as ([] & Hl%fail_if_Ok & Hf%fail_if_Ok). apply Z.ltb_ge in Hl. done.
Qed.

(** A declared action the compiled policy would also allow. *)
Definition allowed_template (a : TemplateAction) : Prop :=
  match ta_type a with
  | Template.SendFixedText => ∃ t, ta_text a = Some t ∧ is_safe_send_text t = true
  | Template.SendFixedKeys => ta_keys a ≠ [] ∧ ∀ k, k ∈ ta_keys a → k ∈ allowed_keys
  | Template.WaitBackoff => ∃ s, ta_seconds a = Some s ∧ 1 ≤ s ≤ 86400
  | Template.Notify => ∃ t, ta_text a = Some t ∧ t ≠ "" ∧ len t ≤ 512
  | _ => True
  end.

Lemma validate_template_action_Ok a : validate_template_action a = Ok tt → allowed_template a.
Proof.
  unfold validate_template_action, allowed_template.
  destruct (ta_type a); try done; intros H%fail_if_Ok.
  - rewrite negb_false_iff, andb_true_iff, !Z.leb_le in H.
    destruct (ta_seconds a) as [s|]; cbn in *; [eauto|lia].
  - apply orb_false_iff in H as [He Hs]. apply negb_false_iff in Hs.
    destruct (ta_text a) as [t|]; cbn in *; [eauto|done].
  - apply orb_false_iff in H as [He%bool_decide_eq_false Hk]. split; [done|].
    apply negb_false_iff in Hk. intros k Hin. rewrite forallb_elem in Hk.
    apply Hk in Hin as Hin'. apply one_of_spec in Hin'. unfold manifest_keys, allowed_keys in *. set_solver.
  - rewrite !orb_false_iff, Z.ltb_ge in H. destruct H as [[He Hl] _].
    destruct (ta_text a) as [t|]; cbn in *; [|done]. exists t. split; [done|]. split; [|done].
    by intros ->.
Qed.

(** A manifest that validates cannot weaken the compiled policy: every command it
    names is no shell or interpreter, stays in its directory, is bounded and passes no
    approval bypass; its planners are isolated, without tools and without automatic
    approval; unknown providers are never independent; its declared inputs are in the
    compiled allowlists, and a passive manifest declares none. *)
Theorem validated_manifest_within_policy `{Rfc3339} `{RegexBuild} m :
  validate_manifest m = Ok tt →
  (∀ p, version_probe m = Some p → harmless_command p)
  ∧ (∀ r, r ∈ planner_recipes m →
       harmless_command (pr_command r) ∧ requires_isolated_cwd r = true ∧ tools_disabled r = true
       ∧ auto_approval_disabled r = true ∧ (enabled_by_default r = true → schema_enforced r = true))
  ∧ unknown_is_independent (provider_resolution m) = false
  ∧ (∀ r a, r ∈ deterministic_recoveries m → a ∈ rr_actions r →
       allowed_template a ∧ rr_preconditions r ≠ [] ∧ 1 ≤ rr_max_attempts r ≤ 10
       ∧ (passive_tier (support_tier m) = true → input_type (ta_type a) = false)).
Proof.
  unfold validate_manifest. intros Hm.
  do 8 apply rbind_Ok in Hm as ([] & _ & Hm). apply rbind_Ok in Hm as ([] & Hprobe & Hm).
  apply rbind_Ok in Hm as ([] & Hind%fail_if_Ok & Hm). apply rbind_Ok in Hm as ([] & _ & Hm).
  apply rbind_Ok in Hm as ([] & Hpassive%fail_if_Ok & Hm).
  apply rbind_Ok in Hm as ([] & Hrec & Hplan).
  split; [|split; [|split; [done|]]].
  - intros p Hp. rewrite Hp in Hprobe. by apply validate_command_spec_Ok.
  - intros r Hr. apply (each_Ok _ _ Hplan) in Hr. unfold validate_planner_recipe in Hr.
    apply rbind_Ok in Hr as ([] & _ & Hr).
    apply rbind_Ok in Hr as ([] & Hc%validate_command_spec_Ok & Hr).
    do 2 apply rbind_Ok in Hr as ([] & ?%fail_if_Ok & Hr). apply fail_if_Ok in Hr.
    rewrite orb_false_iff, !negb_false_iff in *. destruct_and!. split_and!; try done.
    intros He. rewrite He in Hr. by destruct (schema_enforced r).
  - intros r a Hr Ha. pose proof (each_Ok _ _ Hrec _ Hr) as Hv. unfold validate_recovery_recipe in Hv.
    do 2 apply rbind_Ok in Hv as ([] & _ & Hv). apply rbind_Ok in Hv as ([] & Hp%fail_if_Ok & Hv).
    apply rbind_Ok in Hv as ([] & Hb%fail_if_Ok & Hv).
    apply orb_false_iff in Hp as [Hp%bool_decide_eq_false _].
    rewrite negb_false_iff, andb_true_iff, !Z.leb_le in Hb.
    split; [by apply validate_template_action_Ok, (each_Ok _ _ Hv)|]. split_and!; try done; try lia.
    intros Hpt. rewrite Hpt in Hpassive. cbn [andb] in Hpassive.
    apply not_true_iff_false. intros Hi. apply not_true_iff_false in Hpassive. apply Hpassive.
    apply existsb_exists. exists r. rewrite <- list_elem_of_In. split; [done|].
    apply existsb_exists. exists a. by rewrite <- list_elem_of_In.
Qed.

(** Each action made from a recovery carries a precondition that the check of the
    recipe refuses. *)
Lemma manifest_action_denied `{Rfc3339} by_source w : manifest_action_for by_source w = None.
Proof.
  destruct (manifest_action_for by_source w) as [a|] eqn:E; [exfalso|done].
  unfold manifest_action_for in E. apply bind_Some in E as (e & _ & E).
  apply bind_Some in E as (l & _ & E). destruct (inert _); [done|].
  apply bind_Some in E as (r & _ & E). apply bind_Some in E as (a' & Ha & E).
  destruct (authorize a' safe) as [[]|] eqn:Eauth; [|done].
  pose proof (auth_pre _ _ (authorize_sound _ _ Eauth)) as Hpre.
  unfold recipe_to_action in Ha. apply bind_Some in Ha as (t & _ & Ha).
  apply bind_Some in Ha as (k & _ & [= <-]).
  specialize (Hpre _ ltac:(left)). by inversion Hpre.
Qed.

(** The recipes of manifests never propose an action.  Every action made from a
    recovery is bound to the evidence fingerprint, but it is checked against
    [PolicyContext::safe], which has no fingerprint, so the policy denies each of them
    and all declared recoveries are dead. *)
Theorem manifest_recipes_never_act `{Rfc3339} by_source w : manifest_action_for by_source w = None.
Proof. apply manifest_action_denied. Qed.

(** ** Loading *)
Section Loaded.
Context `{Rfc3339} `{RegexBuild} `{TomlDecode} `{Sha256Hex}.

Lemma parse_and_validate_Ok content m :
  parse_and_validate content = Ok m → toml_from_str content = Ok m ∧ validate_manifest m = Ok tt.
Proof.
  unfold parse_and_validate. destruct (toml_from_str content) as [m'|e]; [|done].
  intros ([] & Hv & [= ->])%rbind_Ok. done.
Qed.

(** Where a loaded manifest comes from. *)
Definition pinned (bundled : list (string * string * string)) (l : LoadedManifest) : Prop :=
  lm_source l = Bundled ∧ lm_path l = None
  ∧ ∃ content, (mf_id (lm_manifest l), content, content_sha256 l) ∈ bundled
      ∧ content_sha256 l = content_digest content ∧ toml_from_str content = Ok (lm_manifest l).

Definition from_directory (d : LocalDir) (entries : list (result string DirEntry)) (l : LoadedManifest) : Prop :=
  lm_source l = LocalOverride ∧ validate_manifest_directory d = Ok tt
  ∧ ∃ e content, Ok e ∈ entries ∧ is_toml (de_path e) = true ∧ validate_manifest_file (ld_canonical d) e = Ok tt
      ∧ de_content e = Ok content ∧ lm_path l = Some (de_path e)
      ∧ content_sha256 l = content_digest content ∧ toml_from_str content = Ok (lm_manifest l).

Definition registry_ok (P : LoadedManifest → Prop) (r : ManifestRegistry) : Prop :=
  ∀ id l, r !! id = Some l → mf_id (lm_manifest l) = id ∧ validate_manifest (lm_manifest l) = Ok tt ∧ P l.

Lemma registry_ok_insert (P : LoadedManifest → Prop) r l :
  registry_ok P r → validate_manifest (lm_manifest l) = Ok tt → P l →
  registry_ok P (<[mf_id (lm_manifest l) := l]> r).
Proof. intros Hr Hv Hp id l' [[<- <-]|[_ Hl]]%lookup_insert_Some; [done|by apply Hr]. Qed.

Lemma load_bundled_Ok (P : LoadedManifest → Prop) all bundled r r' :
  bundled ⊆ all → (∀ l, pinned all l → P l) → registry_ok P r → try_fold load_bundled r bundled = Ok r' →
  registry_ok P r'.
Proof.
  intros Hsub HP. revert r Hsub. induction bundled as [|[[id content] expected] bundled IH];
    intros r Hsub Hr; cbn [try_fold]; [by intros [= <-]|].
  intros (r1 & Hx & Hy)%rbind_Ok. apply (IH r1); [set_solver| |done]. clear IH Hy.
  unfold load_bundled in Hx. apply rbind_Ok in Hx as ([] & Hd%fail_if_Ok & Hx).
  apply rbind_Ok in Hx as (m & [Ht Hv]%parse_and_validate_Ok & Hx).
  apply rbind_Ok in Hx as ([] & Hid%fail_if_Ok & [= <-]).
  apply negb_false_iff, String.eqb_eq in Hd, Hid. subst id.
  apply (registry_ok_insert P r (mkLoaded m Bundled _ None)); [done|done|].
  apply HP. unfold pinned. cbn. split; [done|]. split; [done|]. exists content.
  split; [|done]. rewrite Hd. set_solver.
Qed.

Lemma load_local_Ok (P : LoadedManifest → Prop) d all entries r ov r' ov' :
  validate_manifest_directory d = Ok tt → entries ⊆ all → (∀ l, from_directory d all l → P l) →
  registry_ok P r → try_fold (load_local (ld_canonical d)) (r, ov) entries = Ok (r', ov') →
  registry_ok P r'.
Proof.
  intros Hdir. revert r ov. induction entries as [|entry entries IH]; intros r ov Hsub HP Hr; cbn [try_fold];
    [by intros [= <- <-]|].
  intros ([r1 ov1] & Hx & Hy)%rbind_Ok. apply (IH r1 ov1); [set_solver|done| |done]. clear IH Hy.
  unfold load_local in Hx. apply rbind_Ok in Hx as (e & He & Hx). apply map_err_Ok in He as ->.
  destruct (is_toml (de_path e)) eqn:Et; cbn [negb] in Hx; [|by injection Hx as <- <-].
  apply rbind_Ok in Hx as ([] & Hf & Hx). apply rbind_Ok in Hx as (content & Hc & Hx).
  apply map_err_Ok in Hc. apply rbind_Ok in Hx as (m & [Ht Hv]%parse_and_validate_Ok & [= <- _]).
  apply (registry_ok_insert P r (mkLoaded m LocalOverride (content_digest content) (Some (de_path e))));
    [done|done|].
  apply HP. unfold from_directory. cbn. split; [done|]. split; [done|]. exists e, content.
  split; [set_solver|]. done.
Qed.

(** Loading fails closed.  When manifests load, every one of them has validated, is
    filed under its own id, and is either an embedded text whose digest is the pinned one
    or a regular file of the checked directory, not writable or executable by others;
    any mismatch, unsafe file or invalid manifest fails the whole load. *)
Theorem loaded_manifests_trusted bundled local include report :
  load_manifests bundled local include = Ok report →
  rp_loaded report = btree_values (rp_registry report)
  ∧ registry_ok (λ l, pinned bundled l
      ∨ ∃ d entries, local = Some d ∧ ld_entries d = Ok entries ∧ from_directory d entries l)
      (rp_registry report).
Proof.
  unfold load_manifests. intros (by_id & Hb & Hz)%rbind_Ok.
  apply rbind_Ok in Hz as ([r ov] & Hl & [= <-]). split; [done|]. cbn [rp_registry fst].
  set (P := λ l, pinned bundled l ∨ _).
  assert (registry_ok P by_id) as Hby.
  { destruct include; [|injection Hb as <-; intros ? ? ?; by rewrite lookup_empty in *].
    apply (load_bundled_Ok P bundled bundled ∅ by_id); [done|by left| |done].
    intros ? ? ?. by rewrite lookup_empty in *. }
  destruct local as [d|]; [|by injection Hl as <- _].
  apply rbind_Ok in Hl as ([] & Hd & Hl). apply rbind_Ok in Hl as (entries & He & Hl).
  apply map_err_Ok in He.
  apply (load_local_Ok P d entries entries by_id [] r ov); [done|done| |done|done].
  intros l Hl'. right. eauto.
Qed.
End Loaded.

(** ** Versions *)
Definition version_lt (a b : Version) : Prop :=
  let '(a1, a2, a3) := a in
  let '(b1, b2, b3) := b in
  a1 < b1 ∨ a1 = b1 ∧ (a2 < b2 ∨ a2 = b2 ∧ a3 < b3).

Lemma version_ltb_lt a b : version_ltb a b = true ↔ version_lt a b.
Proof.
  destruct a as [[a1 a2] a3], b as [[b1 b2] b3]. unfold version_ltb, version_lt.
  rewrite !orb_true_iff, !andb_true_iff, !orb_true_iff, !andb_true_iff, !Z.ltb_lt, !Z.eqb_eq. done.
Qed.

(** A version known to lie in the half-open range. *)
Definition supported (range : VersionRange) (version : option string) : Prop :=
  ∃ v p, version = Some v ∧ parse_version v = Some p
    ∧ (∀ s, minimum range = Some s → ∃ q, parse_version s = Some q ∧ ¬ version_lt p q)
    ∧ (∀ s, maximum_exclusive range = Some s → ∃ q, parse_version s = Some q ∧ version_lt p q).

Lemma version_in_range_true v range : version_in_range v range = Some true ↔ supported range (Some v).
Proof.
  unfold version_in_range, supported. split.
  - intros (p & Hp & H)%bind_Some. apply bind_Some in H as (below & Hb & H).
    destruct below; [done|]. apply bind_Some in H as (above & Ha & [= Ha']).
    exists v, p. split; [done|]. split; [done|]. split; intros s Hs; rewrite Hs in *.
    + apply fmap_Some in Hb as (q & Hq & Hlt). exists q. split; [done|].
      rewrite <- version_ltb_lt, <- Hlt. done.
    + apply fmap_Some in Ha as (q & Hq & ->). exists q. split; [done|].
      apply version_ltb_lt. by destruct (version_ltb p q).
  - intros (v' & p & [= <-] & Hp & Hmin & Hmax). rewrite Hp. cbn [mbind option_bind].
    assert ((match minimum range with
             | Some min => (λ m, version_ltb p m) <$> parse_version min
             | None => Some false end) = Some false) as ->.
    { destruct (minimum range) as [s|]; [|done]. destruct (Hmin s eq_refl) as (q & -> & Hn).
      cbn. f_equal. apply not_true_iff_false. by rewrite version_ltb_lt. }
    cbn [mbind option_bind].
    assert ((match maximum_exclusive range with
             | Some max => (λ m, negb (version_ltb p m)) <$> parse_version max
             | None => Some false end) = Some false) as ->; [|done].
    destruct (maximum_exclusive range) as [s|]; [|done]. destruct (Hmax s eq_refl) as (q & -> & Hn).
    cbn. apply version_ltb_lt in Hn. by rewrite Hn.
Qed.

(** Deterministic recipes act only for a version known to be supported, or when the
    manifest has no range or opts out of the check; the tier is never raised. *)
Lemma effective_capability_spec m version :
  effective_capability m version = base_capability (support_tier m)
  ∨ (∃ range, version_range m = Some range ∧ ¬ supported range version
      ∧ unknown_version_policy range ≠ Some Unknown.AllowExactRules
      ∧ inert (effective_capability m version) = true).
Proof.
  unfold effective_capability. destruct (version_range m) as [range|]; [|by left].
  destruct (version ≫= _) as [[]|] eqn:E; [by left|..];
    (assert (¬ supported range version) as Hn;
      [intros Hs; destruct version as [v|]; [|by destruct Hs as (? & ? & ? & _)];
       apply version_in_range_true in Hs; cbn in E; congruence|];
     destruct (unknown_version_policy range) as [[]|] eqn:Ep; cbn;
       [right; exists range; split_and!; naive_solver..| |]; try (by left);
       right; exists range; split_and!; naive_solver).
Qed.

(** ** Concrete inputs *)
Definition toy_rfc : Rfc3339 := λ _, Some 0.
Definition toy_regex : RegexBuild := λ _, Ok tt.
Definition toy_digest : Sha256Hex := λ _, "aa".

Definition pi_manifest : ProviderManifest :=
  mkManifest "1.0" "pi" "1" "2026-07-12T00:00:00Z" None None None Tier.DeterministicTerminal ["pi-cli"]
    (Some (mkRange (Some "1.2") None None)) [mkMatcher ExecutableBasename "pi" 60 false]
    (Some (mkCommand "pi" ["--version"] 5 4096)) (mkResolution UnknownMode None [] [] false) [] [] [] []
    [mkRecipe "wait" ["usage_limit"] [mkTemplatePrecondition ProcessAlive None]
       [mkTemplateAction Template.SendFixedText (Some "continue") [] None] 3 300 true] [] [].

Definition toy_toml : TomlDecode := λ s, if String.eqb s "pi" then Ok pi_manifest else Err "unknown field".

Lemma validated_manifest_within_policy_witness :
  validate_manifest (H := toy_rfc) (H0 := toy_regex) pi_manifest = Ok tt
  ∧ ∀ p, version_probe pi_manifest = Some p → harmless_command p.
Proof.
  split; [vm_compute; reflexivity|].
  refine (proj1 (validated_manifest_within_policy (H := toy_rfc) (H0 := toy_regex) pi_manifest _)).
  vm_compute. reflexivity.
Defined.

Lemma loaded_manifests_trusted_witness :
  ∃ report, load_manifests (H := toy_rfc) (H0 := toy_regex) (H1 := toy_toml) (H2 := toy_digest)
    [("pi", "pi", "aa")] None true = Ok report
    ∧ rp_loaded report = btree_values (rp_registry report).
Proof.
  eexists. split; [vm_compute; reflexivity|].
  refine (proj1 (loaded_manifests_trusted (H := toy_rfc) (H0 := toy_regex) (H1 := toy_toml)
    (H2 := toy_digest) [("pi", "pi", "aa")] None true _ _)).
  vm_compute. reflexivity.
Defined.
