(* ===== verification/Codex.v ===== *)
(** * The Codex adapter (src/src/agents/codex.rs)

    Goal snapshots and their classification, the structured sources they are read from,
    the events and the recipes, and the composition of all recipe providers that the
    daemon runs with.  Reading files and databases is an answer of the environment. *)
From stdpp Require Import pretty.
From S2P Require Import Prelude Json Text ParseInt Action Event Identity StateMachine State Screen.
From S2P Require Import Policy Process Observe Registry Runtime ResetTime Hooks Claude Manifest.
From Stdlib Require Import Ascii Floats.SpecFloat.

Local Open Scope Z_scope.

Definition GOAL_RESUME : string := "/goal resume".
Definition DEFAULT_BACKOFF_CAP_SECONDS : Z := 300.

Module Plan.
Inductive CodexRecoveryPlan : Type := NoPlan | WaitThenGoalResume | HumanRequired.
#[global] Instance CodexRecoveryPlan_eq_dec : EqDecision CodexRecoveryPlan.
Proof. solve_decision. Defined.
End Plan.
Abbreviation CodexRecoveryPlan := Plan.CodexRecoveryPlan.

Definition as_fixture_action (p : CodexRecoveryPlan) : string :=
  match p with
  | Plan.NoPlan => "none"
  | Plan.WaitThenGoalResume => "wait_then_goal_resume"
  | Plan.HumanRequired => "human_required"
  end.

Definition from_fixture_action (value : string) : option CodexRecoveryPlan :=
  if String.eqb value "none" then Some Plan.NoPlan
  else if String.eqb value "wait_then_goal_resume" then Some Plan.WaitThenGoalResume
  else if String.eqb value "human_required" then Some Plan.HumanRequired
  else None.

Record CodexGoalSnapshot : Type := mkSnapshot {
  gs_thread_id : string;
  goal_status : option string;
  goal_text : option string;
  runtime_type : option string;
  active_flags : list string;
  last_error_category : option string;
  last_error_terminal : bool;
  screen_tail : option string;
}.

Record CodexFixtureRecord : Type := mkFixture {
  fixture : string;
  fx_snapshot : CodexGoalSnapshot;
  expected_action : CodexRecoveryPlan;
}.

Inductive ProbedCodexSource : Type :=
| LocalState (snapshot : CodexGoalSnapshot)
| AppServer (snapshot : CodexGoalSnapshot) (path : string)
| Rollout (path thread_id : string).

(** ** Classification *)
Definition normalize_status (value : string) : string := to_ascii_lowercase (trim_string value).

Definition awaits_approval (s : CodexGoalSnapshot) : bool :=
  existsb (λ f, String.eqb (normalize_status f) "waitingonapproval") (active_flags s)
  || match runtime_type s with
     | Some v => String.eqb (normalize_status v) "waitingonapproval"
     | None => false
     end.

Definition capacity_errors : list string := ["capacity_block"; "capacity"; "overloaded"; "model_capacity"].

Definition classify_goal_snapshot (s : CodexGoalSnapshot) : CodexRecoveryPlan :=
  match normalize_status <$> goal_status s with
  | None => Plan.NoPlan
  | Some status =>
      if one_of ["active"; "pursuing"; "completed"; "cancelled"; "canceled"] status then Plan.NoPlan
      else if negb (one_of ["blocked"; "paused"] status) then Plan.NoPlan
      else if awaits_approval s then Plan.HumanRequired
      else
        match normalize_status <$> last_error_category s with
        | Some c => if one_of capacity_errors c then Plan.WaitThenGoalResume else Plan.HumanRequired
        | None => Plan.HumanRequired
        end
  end.

(** ** Snapshots as JSON *)
Definition as_bool (v : Value) : option bool := match v with VBool b => Some b | _ => None end.

(** [outer.and_then(|v| v.get(k))]. *)
Definition inner (outer : option Value) (k : string) : option Value := outer ≫= get_field k.

Definition snapshot_from_value (v : Value) : option CodexGoalSnapshot :=
  let thread := default "" (get_field "thread_id" v ≫= as_str) in
  if is_empty thread then None
  else
    let goal := get_field "goal" v in
    let runtime := get_field "runtime_status" v in
    let error := get_field "last_error" v in
    Some (mkSnapshot thread
      (inner goal "status" ≫= as_str)
      (inner goal "text" ≫= as_str)
      (inner runtime "type" ≫= as_str)
      (match inner runtime "active_flags" ≫= as_array with Some flags => omap as_str flags | None => [] end)
      (inner error "category" ≫= as_str)
      (default false (inner error "terminal" ≫= as_bool))
      (get_field "screen_tail" v ≫= as_str)).

Definition normalize_structured_source (v : Value) (k : SourceKind) : option CodexGoalSnapshot :=
  match k with
  | Source.TypedApi | Source.StructuredLog | Source.Hook => snapshot_from_value v
  | Source.ScreenDetection => None
  | _ =>
      s ← snapshot_from_value v;
      match goal_status s with Some _ => Some s | None => None end
  end.

(** The fields that are present, in key order. *)
Definition present (fields : list (string * option Value)) : Fields :=
  omap (λ '(k, o), pair k <$> o) fields.

Definition structured_value_from_snapshot (s : CodexGoalSnapshot) : Value :=
  let goal := VObject (present [("status", VString <$> goal_status s); ("text", VString <$> goal_text s)]) in
  let runtime := VObject (present [("active_flags", Some (VArray (VString <$> active_flags s)));
                                   ("type", VString <$> runtime_type s)]) in
  let error :=
    if bool_decide (is_Some (last_error_category s)) || last_error_terminal s
    then Some (VObject (present [("category", VString <$> last_error_category s);
                                 ("terminal", Some (VBool (last_error_terminal s)))]))
    else None in
  VObject (present [("goal", Some goal); ("last_error", error); ("runtime_status", Some runtime);
                    ("screen_tail", VString <$> screen_tail s); ("thread_id", Some (VString (gs_thread_id s)))]).

Definition capacity_backoff_seconds (attempt entropy cap : Z) : Z :=
  let ceiling := Z.min (saturating_mul u64_max (Z.shiftl 1 (Z.min attempt 10)) 5) (Z.max cap 1) in
  entropy mod (saturating_add u64_max ceiling 1).

(** ** The environment *)

(** serde_json's parser, and its encoding of a snapshot. *)
Class CodexJson : Type := {
  json_from_str : string → option Value;
  snapshot_bytes : CodexGoalSnapshot → list Z;
}.

Record CodexFacts : Type := mkCodexFacts {
  observe_bound_codex_state : WatcherState → option CodexGoalSnapshot;
  codex_cwd_matches : Z → string → bool;
  owner_only_bound_regular : string → string → option string;
  (** [fs::read]: the length, the JSON value and the UTF-8 text of a file. *)
  file_json : string → option (Z * option Value);
  file_text : string → option (Z * option (list Z));
  bind_rollout : string → option CodexRolloutBinding;
  codex_now : DateTime;
}.

#[global] Instance CodexRolloutBinding_eq_dec : EqDecision CodexRolloutBinding.
Proof. solve_decision. Defined.

(** serde's object of a binding, and its strict decoding. *)
Definition binding_to_value (b : CodexRolloutBinding) : Value :=
  VObject [("device", VNumber (PosInt (rb_device b))); ("inode", VNumber (PosInt (rb_inode b)));
           ("mtime_secs", number_of (rb_mtime_secs b)); ("size", VNumber (PosInt (rb_size b)))].

Definition binding_from_value (v : Value) : option CodexRolloutBinding :=
  fs ← as_object v;
  if negb (forallb (λ f, one_of ["device"; "inode"; "mtime_secs"; "size"] f.1) fs) then None
  else
    d ← field "device" fs ≫= as_u64;
    i ← field "inode" fs ≫= as_u64;
    s ← field "size" fs ≫= as_u64;
    t ← field "mtime_secs" fs ≫= as_i64;
    Some (mkRolloutBinding d i s t).

Definition f64_nine_tenths : f64 := S754_finite false 8106479329266893 (-53).

Section Events.
Context `{Rfc3339Text} `{Sha256Hex} `{TargetHash} `{CodexJson}.

Definition goal_outcome (s : CodexGoalSnapshot) : option (EventCategory * PolicyHint * bool) :=
  match classify_goal_snapshot s with
  | Plan.NoPlan =>
      status ← normalize_status <$> goal_status s;
      if one_of ["active"; "pursuing"] status then Some (Category.Working, Hint.ObserveOnly, false)
      else if one_of ["completed"; "cancelled"; "canceled"] status
      then Some (Category.Idle, Hint.ObserveOnly, false)
      else None
  | Plan.WaitThenGoalResume => Some (Category.CapacityBlock, Hint.WaitAllowed, true)
  | Plan.HumanRequired => Some (Category.BlockedGoal, Hint.HumanRequired, true)
  end.

Definition put_opt (k : string) (o : option Value) (e : Event) : Event :=
  match o with Some v => put_meta k v e | None => e end.

Definition structured_goal_event (facts : CodexFacts) (w : WatcherState) (s : CodexGoalSnapshot)
    (k : SourceKind) : option Event :=
  outcome ← goal_outcome s;
  let '(cat, hint, term) := outcome in
  event ← ok (event_new ("codex-goal-" +:+ ws_id w) (to_rfc3339 (codex_now facts)) (ws_id w)
                (Runtime.target_identity_hash (target w)) (event_source_new k "codex" "goal_status")
                cat (if bool_decide (k = Source.TypedApi) then f64_one else f64_nine_tenths) term
                (fingerprint "codex_goal" (gs_thread_id s) (snapshot_bytes s))
                "Codex durable goal status" hint);
  let event := set_session (Some (gs_thread_id s)) event in
  let event := put_meta "codex_thread_id" (VString (gs_thread_id s)) event in
  let event := put_opt "goal_state" (VString ∘ normalize_status <$> goal_status s) event in
  let event := put_opt "codex_goal_text" (VString <$> goal_text s) event in
  let event :=
    if bool_decide (classify_goal_snapshot s = Plan.WaitThenGoalResume)
    then put_meta "codex_capacity_block" (VBool true) event else event in
  Some (put_opt "codex_error_category" (VString <$> last_error_category s) event).

(** The last snapshot of the thread; [None] on a line that is not JSON. *)
Fixpoint scan_rollout (thread : string) (matched : option CodexGoalSnapshot) (lines : list (list Z))
    : option (option CodexGoalSnapshot) :=
  match lines with
  | [] => Some matched
  | line :: lines =>
      let line := trim line in
      match line with
      | [] => scan_rollout thread matched lines
      | _ =>
          v ← json_from_str (string_of_bytes (encode_utf8 line));
          match normalize_structured_source v Source.StructuredLog with
          | None => scan_rollout thread matched lines
          | Some s =>
              scan_rollout thread (if String.eqb (gs_thread_id s) thread then Some s else matched) lines
          end
      end
  end.

Definition truncated (text : list Z) : bool :=
  match last text with Some c => negb (c =? 10) | None => false end.

(** Whether the rollout was replaced since the previous observation of it. *)
Definition rotated (w : WatcherState) (path : string) (b : CodexRolloutBinding) : bool :=
  match last_observation w with
  | None => false
  | Some previous =>
      if negb (opt_str_eqb (meta_str (metadata previous) "codex_rollout_path") (Some path)) then false
      else
        match metadata previous !! "codex_rollout_binding" ≫= binding_from_value with
        | Some b' => negb (bool_decide (b' = b))
        | None => true
        end
  end.

Definition correlated_rollout_event (facts : CodexFacts) (w : WatcherState) (path thread : string)
    : option Event :=
  if is_empty thread then None
  else
    binding ← bind_rollout facts path;
    if rotated w path binding then None
    else
      file ← file_text facts path;
      let '(size, text) := file in
      if 1048576 <? size then None
      else
        text ← text;
        if truncated text then None
        else
          matched ← scan_rollout thread None (str_lines text);
          snapshot ← matched;
          event ← structured_goal_event facts w snapshot Source.StructuredLog;
          Some (put_meta "codex_rollout_binding" (binding_to_value binding)
                  (put_meta "codex_rollout_path" (VString path) event)).

Definition app_server_source (facts : CodexFacts) (r : CodexSessionReference) : option ProbedCodexSource :=
  path ← app_server_state_path r;
  _ ← owner_only_bound_regular facts path (codex_process_cwd r);
  file ← file_json facts path;
  let '(size, value) := file in
  if 1048576 <? size then None
  else
    v ← value;
    s ← normalize_structured_source v Source.TypedApi;
    if String.eqb (gs_thread_id s) (thread_id r) then Some (AppServer s path) else None.

Definition probe_structured_source (facts : CodexFacts) (w : WatcherState) : option ProbedCodexSource :=
  match observe_bound_codex_state facts w with
  | Some s => Some (LocalState s)
  | None =>
      r ← codex_session w;
      let process := target_process (target w) in
      if negb (start_time process =? codex_process_start_time r)
         || negb (opt_str_eqb (current_target_session (target w)) (codex_target_session r))
         || negb (codex_cwd_matches facts (pid process) (codex_process_cwd r))
      then None
      else
        match app_server_source facts r with
        | Some source => Some source
        | None =>
            binding ← rollout_binding r;
            path ← owner_only_bound_regular facts (rollout_path r) (codex_process_cwd r);
            if bool_decide (bind_rollout facts path = Some binding)
            then Some (Rollout path (thread_id r)) else None
        end
  end.

Definition capacity_observation (e : Event) : bool :=
  String.eqb (source_id (source e)) "codex" && category_eqb (category e) Category.CapacityBlock
  && bool_decide (policy_hint e = Hint.WaitAllowed) && meta_true (metadata e) "codex_capacity_block".

Definition goal_held (e : Event) : bool :=
  match meta_str (metadata e) "goal_state" with Some g => one_of ["blocked"; "paused"] g | None => false end.

Definition goal_resumed (w : WatcherState) (now : DateTime) (previous : Event) : Event :=
  let fp := fingerprint "codex_resume" (evidence_fingerprint previous) (byte_list (to_rfc3339 now)) in
  let event :=
    mkEvent (schema_version previous) ("codex-resume-" +:+ ws_id w) (to_rfc3339 now)
      (monotonic_sequence previous) (watcher_id previous) (Event.target_identity_hash previous)
      (agent_id previous) (session_id previous) (provider_family previous) (source previous)
      Category.WaitingForModel (confidence previous) false fp
      "Codex capacity backoff elapsed; goal resume revalidation candidate" (redacted_evidence previous)
      (reset previous) Hint.DeterministicActionAllowed (supersedes_event_id previous)
      (metadata previous) in
  put_meta "codex_resume_session" (VString fp) (put_meta "codex_resume" (VBool true) event).

Definition codex_resume_candidate_event (w : WatcherState) (now : DateTime) : option Event :=
  if negb (waiting (lifecycle w)) then None
  else
    previous ← last_observation w;
    if negb (capacity_observation previous) || negb (goal_held previous) then None
    else Some (goal_resumed w now previous).

(** The observation without a resume candidate. *)
Definition observe_source (facts : CodexFacts) (w : WatcherState) (source : ProbedCodexSource) : option Event :=
  match source with
  | LocalState s | AppServer s _ => structured_goal_event facts w s Source.TypedApi
  | Rollout path thread => correlated_rollout_event facts w path thread
  end.

(** The sources are probed again when the rollout gives no event; both probes see the
    same files here. *)
Definition observe_codex_event (facts : CodexFacts) (w : WatcherState) (now : DateTime) : option Event :=
  let fallback := probe_structured_source facts w ≫= observe_source facts w in
  match codex_resume_candidate_event w now with
  | None => fallback
  | Some candidate =>
      match probe_structured_source facts w with
      | None => Some candidate
      | Some (LocalState s | AppServer s _) =>
          if bool_decide (classify_goal_snapshot s = Plan.WaitThenGoalResume) then Some candidate
          else structured_goal_event facts w s Source.TypedApi
      | Some (Rollout path thread) =>
          match correlated_rollout_event facts w path thread with
          | Some event =>
              if category_eqb (category event) Category.CapacityBlock then Some candidate else Some event
          | None => fallback
          end
      end
  end.

Definition trusted_goal_progress_event (w : WatcherState) (baseline : Event) (structured : Value)
    (at_ : string) : option Event :=
  s ← match normalize_structured_source structured Source.TypedApi with
      | Some s => Some s
      | None => normalize_structured_source structured Source.StructuredLog
      end;
  status ← normalize_status <$> goal_status s;
  if negb (one_of ["active"; "pursuing"] status) then None
  else
    t ← datetime_of at_;
    t0 ← datetime_of (observed_at baseline);
    if instant t <=? instant t0 then None
    else
      session ← match meta_str (metadata baseline) "codex_resume_session" with
                | Some v => Some v
                | None => meta_str (metadata baseline) "codex_thread_id"
                end;
      event ← ok (event_new ("codex-progress-" +:+ ws_id w) at_ (ws_id w)
                    (Event.target_identity_hash baseline)
                    (event_source_new Source.TypedApi "codex" "post_resume_progress")
                    Category.Working f64_one false
                    (fingerprint "codex_progress" session (snapshot_bytes s))
                    "Codex durable goal active/pursuing after resume" Hint.ObserveOnly);
      Some (put_meta "codex_thread_id"
              (default (VString (gs_thread_id s)) (metadata baseline !! "codex_thread_id"))
              (put_meta "codex_resume_session" (VString session)
                 (put_meta "codex_post_resume_progress" (VBool true)
                    (put_meta "goal_state" (VString status) event)))).
End Events.

Definition parse_fixture_record `{CodexJson} (line : string) : option CodexFixtureRecord :=
  v ← json_from_str line;
  name ← get_field "fixture" v ≫= as_str;
  expected ← (get_field "expected_action" v ≫= as_str) ≫= from_fixture_action;
  s ← snapshot_from_value v;
  Some (mkFixture name s expected).

(** ** Recipes *)
Definition codex_hash64 (value : string) : Z :=
  foldl (λ h b, (Z.lxor h (byte_val b) * 1099511628211) mod 2 ^ 64) 14695981039346656037 (bytes value).

Definition capacity_wait (e : Event) (rev cap : Z) : Action :=
  let seconds := Z.max 1 (capacity_backoff_seconds (rev mod 2 ^ 32) (codex_hash64 (evidence_fingerprint e)) cap) in
  set_outcomes
    (action_new "codex.capacity_backoff_wait" (WaitDuration seconds)
       "transient Codex capacity block with durable blocked goal" (evidence_fingerprint e) 30)
    [mkCondition "WAIT_STATE_RECORDED" None].

Definition goal_resume_action (e : Event) (resume_command : string) : option Action :=
  goal_state ← meta_str (metadata e) "goal_state";
  if negb (one_of ["blocked"; "paused"] goal_state) then None
  else
    Some (set_outcomes
      (push_preconditions
         (submit_text "codex.goal_resume_once" resume_command
            "durable Codex goal blocked after capacity backoff; composer revalidated"
            (evidence_fingerprint e))
         [mkCondition "PROCESS_ALIVE" None; mkCondition "NO_HUMAN_INTERVENTION" None;
          mkCondition "GOAL_STATE_IS" (Some (VString goal_state))])
      [mkCondition "GOAL_ACTIVE_OR_PURSUING" None]).

Definition goal_resume_observation (e : Event) : bool :=
  category_eqb (category e) Category.WaitingForModel
  && bool_decide (policy_hint e = Hint.DeterministicActionAllowed) && meta_true (metadata e) "codex_resume".

(** [CodexRecipes] with its default command and cap. *)
Definition codex_action_for (w : WatcherState) : option Action :=
  e ← last_observation w;
  if negb (String.eqb (source_id (source e)) "codex") then builtin_action_for w
  else if category_eqb (category e) Category.CapacityBlock
          && bool_decide (policy_hint e = Hint.WaitAllowed) && meta_true (metadata e) "codex_capacity_block"
  then Some (capacity_wait e (revision w) DEFAULT_BACKOFF_CAP_SECONDS)
  else if goal_resume_observation e then
    if opt_str_eqb (meta_str (metadata e) "codex_resume_sent_fingerprint") (Some (evidence_fingerprint e))
    then None
    else goal_resume_action e GOAL_RESUME
  else if bool_decide (policy_hint e = Hint.HumanRequired) then None
  else builtin_action_for w.

Definition claimed_by_codex (e : Event) : bool :=
  String.eqb (source_id (source e)) "codex" || starts_with "codex" (source_id (source e))
  || bool_decide (is_Some (metadata e !! "codex_capacity_block"))
  || bool_decide (is_Some (metadata e !! "codex_resume")).

(** [CompositeRecipes], the provider of the daemon. *)
Definition composite_action_for `{Rfc3339Text} (manifests : gmap string LoadedManifest) (w : WatcherState)
    : option Action :=
  e ← last_observation w;
  if claimed_by_codex e then codex_action_for w
  else
    match claude_action_for w with
    | Some a => Some a
    | None =>
        match codex_action_for w with
        | Some a => Some a
        | None => manifest_action_for manifests w
        end
    end.

(** ** Snapshots round-trip *)
Lemma omap_as_str (l : list string) : omap as_str (VString <$> l) = l.
Proof. induction l as [|s l IH]; [done|]. cbn. by rewrite IH. Qed.

(** The nested JSON that is rebuilt for verification reads back as the snapshot. *)
Lemma snapshot_roundtrip s :
  gs_thread_id s ≠ "" → snapshot_from_value (structured_value_from_snapshot s) = Some s.
Proof.
  destruct s as [th st tx ty fl cat term tail]. cbn [gs_thread_id]. intros Hth.
  unfold snapshot_from_value, structured_value_from_snapshot. cbn.
  apply String.eqb_neq in Hth.
  destruct st, tx, ty, cat, term, tail; cbn; unfold is_empty; rewrite Hth, omap_as_str; done.
Qed.

(** ** Rollout events *)
Section Rollouts.
Context `{Rfc3339Text} `{Sha256Hex} `{TargetHash} `{CodexJson}.

(** An event read from a rollout file cannot be read back from disk.  Its metadata
    holds the file binding as a JSON object, while event validation admits scalars only;
    the registry persists the event unvalidated, and the decoder refuses it, so the state
    file with the watcher is unreadable at the next start. *)
Theorem rollout_event_unreadable facts w path thread e :
  correlated_rollout_event facts w path thread = Some e →
  exceeds_bounds e = true ∧ event_from_wire e ≠ Ok e.
Proof.
  unfold correlated_rollout_event. destruct (is_empty thread); [done|].
  intros (b & _ & Hx)%bind_Some. destruct (rotated w path b); [done|].
  apply bind_Some in Hx as ([size text] & _ & Hx). destruct (1048576 <? size); [done|].
  apply bind_Some in Hx as (t & _ & Hx). destruct (truncated t); [done|].
  apply bind_Some in Hx as (matched & _ & Hx). apply bind_Some in Hx as (s & _ & Hx).
  apply bind_Some in Hx as (e0 & _ & [= <-]).
  assert (exceeds_bounds (put_meta "codex_rollout_binding" (binding_to_value b)
            (put_meta "codex_rollout_path" (VString path) e0)) = true) as Hb.
  { unfold exceeds_bounds. rewrite !orb_true_iff. right. apply existsb_exists.
    exists (binding_to_value b). split; [|done]. apply list_elem_of_In, elem_of_btree_values.
    exists "codex_rollout_binding". cbn. by rewrite lookup_insert_eq. }
  split; [done|]. intros Hw. unfold event_from_wire in Hw. apply rbind_Ok in Hw as (u & Hv & _).
  unfold event_validate in Hv. do 7 apply rbind_Ok in Hv as ([] & _ & Hv).
  apply rbind_Ok in Hv as ([] & Hv%fail_if_Ok & _). congruence.
Qed.
End Rollouts.

(** ** Resuming a goal *)
Section Resuming.
Context `{Rfc3339Text} `{Sha256Hex}.

(** A resume candidate says that the back-off elapsed, but the deadline of the wait is
    not consulted: it is made at any time while the watcher waits. *)
Lemma goal_resume_ignores_deadline w now until why e :
  lifecycle w = Lifecycle.Waiting until why → last_observation w = Some e →
  capacity_observation e = true → goal_held e = true →
  codex_resume_candidate_event w now = Some (goal_resumed w now e).
Proof.
  intros Hl He Hc Hg. unfold codex_resume_candidate_event. rewrite Hl, He. cbn. by rewrite Hc, Hg.
Qed.

Lemma goal_resume_ignores_deadline_witness :
  let e := put_meta "goal_state" (VString "blocked") (put_meta "codex_capacity_block" (VBool true)
    (mkEvent "1.0" "e" "t" None "w1" "h" None None None (event_source_new Source.TypedApi "codex" "goal_status")
       Category.CapacityBlock f64_one true "fp" "s" None None Hint.WaitAllowed None ∅)) in
  let w := toy_watcher (Lifecycle.Waiting 300000 "recovery wait scheduled") (Some e) in
  codex_resume_candidate_event w (mkDateTime 1 0 0) = Some (goal_resumed w (mkDateTime 1 0 0) e).
Proof. intros e w. by apply (goal_resume_ignores_deadline w _ 300000 "recovery wait scheduled"). Defined.
End Resuming.

(** ** All recipes together *)
Lemma capacity_wait_bound e rev : ∃ s, kind (capacity_wait e rev DEFAULT_BACKOFF_CAP_SECONDS) = WaitDuration s ∧ 1 ≤ s ≤ 300.
Proof.
  eexists. split; [reflexivity|].
  pose proof (overload_backoff_bound (rev mod 2 ^ 32) (hash64 (evidence_fingerprint e)) 300) as Hb.
  pose proof (hash64_nonneg (evidence_fingerprint e)). pose proof (Z.mod_pos_bound rev (2 ^ 32)).
  change (capacity_backoff_seconds ?a ?b ?c) with (overload_backoff_seconds a b c).
  change (codex_hash64 ?s) with (hash64 s). unfold DEFAULT_BACKOFF_CAP_SECONDS. lia.
Qed.

Lemma builtin_action_spec w a :
  builtin_action_for w = Some a →
  kind a = WaitDuration 60 ∧ ∃ e, last_observation w = Some e ∧ policy_hint e = Hint.WaitAllowed.
Proof.
  unfold builtin_action_for. destruct (last_observation w) as [e|]; [|done].
  destruct (bool_decide (policy_hint e = Hint.WaitAllowed)) eqn:Eh; cbn [negb orb]; [|done].
  destruct (negb _); [done|]. intros [= <-]. split; [done|]. exists e. split; [done|].
  by apply bool_decide_eq_true in Eh.
Qed.

(** The observation of an elapsed capacity wait whose goal is still held. *)
Definition goal_resume_allowed (e : Event) : Prop :=
  source_id (source e) = "codex" ∧ category e = Category.WaitingForModel
  ∧ policy_hint e = Hint.DeterministicActionAllowed ∧ metadata e !! "codex_resume" = Some (VBool true)
  ∧ meta_str (metadata e) "codex_resume_sent_fingerprint" ≠ Some (evidence_fingerprint e).

Definition goal_guards (e : Event) (goal : string) : list Condition :=
  [mkCondition "EVIDENCE_FINGERPRINT_MATCHES" (Some (VString (evidence_fingerprint e)));
   mkCondition "TARGET_IDENTITY_MATCHES" None; mkCondition "COMPOSER_EMPTY" None;
   mkCondition "PROCESS_ALIVE" None; mkCondition "NO_HUMAN_INTERVENTION" None;
   mkCondition "GOAL_STATE_IS" (Some (VString goal))].

(** What the Codex recipes may propose. *)
Definition codex_proposal (e : Event) (a : Action) : Prop :=
  match kind a with
  | WaitDuration s => 1 ≤ s ≤ 300
  | SubmitText text => text = GOAL_RESUME ∧ goal_resume_allowed e
      ∧ ∃ goal, (goal = "blocked" ∨ goal = "paused") ∧ meta_str (metadata e) "goal_state" = Some goal
          ∧ preconditions a = goal_guards e goal
  | _ => False
  end.

Lemma codex_recipes_conservative w a :
  codex_action_for w = Some a →
  ∃ e, last_observation w = Some e ∧ policy_hint e ≠ Hint.HumanRequired
    ∧ codex_proposal e a.
Proof.
  unfold codex_action_for. intros (e & He & Hx)%bind_Some. exists e. split; [done|].
  assert (builtin_action_for w = Some a → policy_hint e ≠ Hint.HumanRequired ∧ codex_proposal e a)
    as Hbuiltin.
  { unfold codex_proposal. intros (-> & e' & He' & Hh)%builtin_action_spec. rewrite He in He'. injection He' as <-.
    split; [congruence|lia]. }
  destruct (String.eqb_spec (source_id (source e)) "codex") as [Hs|]; cbn [negb] in Hx; [|by apply Hbuiltin].
  destruct (_ && _ && _) eqn:Ec in Hx.
  { apply andb_true_iff in Ec as [Ec _]. apply andb_true_iff in Ec as [_ Eh%bool_decide_eq_true].
    injection Hx as <-. unfold codex_proposal.
    destruct (capacity_wait_bound e (revision w)) as (s & -> & Hs').
    split; [congruence|done]. }
  destruct (goal_resume_observation e) eqn:Er.
  { unfold goal_resume_observation in Er. apply andb_true_iff in Er as [Er Em%meta_true_spec].
    apply andb_true_iff in Er as [Ecat%bool_decide_eq_true Eh%bool_decide_eq_true].
    destruct (opt_str_eqb _ _) eqn:Es in Hx; [done|]. apply bool_decide_eq_false in Es.
    unfold goal_resume_action in Hx. apply bind_Some in Hx as (goal & Hgoal & Hx).
    destruct (one_of ["blocked"; "paused"] goal) eqn:Eg; cbn [negb] in Hx; [|done]. injection Hx as <-.
    split; [congruence|]. unfold codex_proposal. cbn. split; [done|]. split; [done|]. exists goal. split; [|done].
    apply one_of_spec in Eg. set_solver. }
  destruct (bool_decide _) in Hx; [done|]. by apply Hbuiltin.
Qed.

(** Whatever was observed last, the recipes the daemon runs with, Claude's, Codex's
    and those of every manifest together, propose only a wait of at most 300 seconds, the
    wait for a correlated reset, a trusted menu selection, the fixed Claude resume text,
    or the submission of the goal resume command; each kind of input needs its own
    trusted observation, carries the guards for it and is bound to the evidence
    fingerprint, and a goal resume is not proposed again once it was sent. *)
Theorem recipes_conservative `{Rfc3339Text} manifests w a :
  composite_action_for manifests w = Some a →
  ∃ e, last_observation w = Some e
    ∧ match kind a with
      | WaitDuration s => 1 ≤ s ≤ 300
      | WaitUntil _ => from_claude_hook e = true ∧ limit_category (category e) = true
                       ∧ policy_hint e = Hint.WaitAllowed
      | SendKeys keys => menu_observation e ∧ preconditions a = menu_guards e
                         ∧ ∃ m, keys = menu_keys m ∧ -128 ≤ moves m ≤ 127
      | SendText text => resume_observation e ∧ text = DEFAULT_RESUME
                         ∧ ∃ session, preconditions a = resume_guards e session
      | SubmitText text => text = GOAL_RESUME ∧ goal_resume_allowed e
          ∧ ∃ goal, (goal = "blocked" ∨ goal = "paused") ∧ meta_str (metadata e) "goal_state" = Some goal
              ∧ preconditions a = goal_guards e goal
      | _ => False
      end.
Proof.
  unfold composite_action_for. intros (e & He & Hx)%bind_Some. exists e. split; [done|].
  assert (codex_action_for w = Some a → codex_proposal e a) as Hcodex.
  { intros (e' & He' & _ & Hk)%codex_recipes_conservative. rewrite He in He'. by injection He' as <-. }
  destruct (claimed_by_codex e); [by apply Hcodex in Hx; unfold codex_proposal in Hx; destruct (kind a)|].
  destruct (claude_action_for w) as [a'|] eqn:Ea.
  - injection Hx as ->. apply claude_recipes_conservative in Ea as (e' & He' & _ & Hk).
    rewrite He in He'. injection He' as <-. by destruct (kind a).
  - destruct (codex_action_for w) as [a'|]; [|by rewrite manifest_action_denied in Hx].
    injection Hx as ->. specialize (Hcodex eq_refl). unfold codex_proposal in Hcodex. by destruct (kind a).
Qed.

Lemma recipes_conservative_witness :
  ∃ e a, menu_event = Some e
    ∧ composite_action_for (H := toy_text) ∅ (toy_watcher Lifecycle.Observing (Some e)) = Some a
    ∧ preconditions a = menu_guards e.
Proof.
  destruct menu_event as [e|] eqn:E; [|by vm_compute in E].
  destruct (composite_action_for (H := toy_text) ∅ (toy_watcher Lifecycle.Observing (Some e))) as [a|] eqn:Ea;
    [|vm_compute in E; injection E as <-; by vm_compute in Ea].
  exists e, a. split; [done|]. split; [done|].
  destruct (recipes_conservative (H := toy_text) _ _ _ Ea) as (e' & [= <-] & Hk).
  assert (kind a = SendKeys ["DOWN"; "ENTER"]) as Hkind
    by (vm_compute in E; injection E as <-; vm_compute in Ea; by injection Ea as <-).
  rewrite Hkind in Hk. exact (proj1 (proj2 Hk)).
Defined.

(** ** A concrete rollout *)
Definition toy_goal : CodexGoalSnapshot :=
  mkSnapshot "t1" (Some "blocked") None None [] (Some "overloaded") true None.
Definition toy_codex_json : CodexJson := {|
  json_from_str s := if String.eqb s "line" then Some (structured_value_from_snapshot toy_goal) else None;
  snapshot_bytes _ := [] |}.
Definition toy_rollout_facts : CodexFacts :=
  mkCodexFacts (λ _, None) (λ _ _, true) (λ p _, Some p) (λ _, None)
    (λ _, Some (5, Some (chars "line" ++ [10]))) (λ _, Some (mkRolloutBinding 1 2 5 0)) (mkDateTime 1000 0 0).

Definition rollout_event : option Event :=
  correlated_rollout_event (H := toy_text) (H0 := toy_sha) (H1 := toy_target_hash) (H2 := toy_codex_json)
    toy_rollout_facts (toy_watcher Lifecycle.Observing None) "/r" "t1".

Lemma rollout_event_unreadable_witness :
  ∃ e, rollout_event = Some e ∧ category e = Category.CapacityBlock
    ∧ event_from_wire (rfc := rfc_instant (H := toy_text)) e ≠ Ok e.
Proof.
  destruct rollout_event as [e|] eqn:E; [|by vm_compute in E].
  exists e. split; [done|]. split; [vm_compute in E; by injection E as <-|].
  exact (proj2 (rollout_event_unreadable (H := toy_text) (H0 := toy_sha) (H1 := toy_target_hash)
    (H2 := toy_codex_json) toy_rollout_facts _ _ _ e E)).
Defined.
