(* ===== verification/Utf8.v ===== *)
(** * UTF-8 validation

    [std::str::from_utf8] with the position and kind of its error, and
    [str::is_char_boundary]: what it accepts is exactly the encodings of sequences of
    scalar values, and a cut inside an encoding is an unexpected end of input. *)
From S2P Require Import Prelude Text Screen.
From Stdlib Require Import Ascii.

Local Open Scope Z_scope.

Definition is_cont (b : Z) : bool := in_range 128 191 b.

(** The second byte that may follow a lead byte of three or four bytes. *)
Definition second_ok (a b : Z) : bool :=
  if a =? 224 then in_range 160 191 b
  else if a =? 237 then in_range 128 159 b
  else if a =? 240 then in_range 144 191 b
  else if a =? 244 then in_range 128 143 b
  else is_cont b.

(** The sequence at the head of the input: its length, or the error with the length of
    the invalid part ([None] at an unexpected end of input). *)
Inductive Head : Type := HChar (w : nat) | HBad (error_len : option nat).

Definition cont_at (k : nat) (l : list Z) (next : Head) : Head :=
  match l !! k with
  | None => HBad None
  | Some b => if is_cont b then next else HBad (Some k)
  end.

Definition head_of (l : list Z) : Head :=
  match l with
  | [] => HBad None
  | a :: _ =>
      if a <? 128 then HChar 1
      else if in_range 194 223 a then cont_at 1 l (HChar 2)
      else if in_range 224 244 a then
        match l !! 1%nat with
        | None => HBad None
        | Some b =>
            if negb (second_ok a b) then HBad (Some 1%nat)
            else cont_at 2 l (if a <? 240 then HChar 3 else cont_at 3 l (HChar 4))
        end
      else HBad (Some 1%nat)
  end.

Inductive Utf8 : Type := Utf8Ok | Utf8Error (valid_up_to : nat) (error_len : option nat).

Fixpoint utf8_scan (skip pos : nat) (l : list Z) : Utf8 :=
  match l with
  | [] => Utf8Ok
  | _ :: l' =>
      match skip with
      | S k => utf8_scan k (S pos) l'
      | O =>
          match head_of l with
          | HChar w => utf8_scan (pred w) (S pos) l'
          | HBad e => Utf8Error pos e
          end
      end
  end.

Definition from_utf8 (l : list Z) : Utf8 := utf8_scan 0 0 l.
Definition utf8_ok (l : list Z) : bool := match from_utf8 l with Utf8Ok => true | _ => false end.

(** [String::from_utf8_lossy]: each invalid part becomes U+FFFD. *)
Definition REPLACEMENT : list Z := [239; 191; 189].

Fixpoint lossy_scan (keep drop : nat) (l : list Z) : list Z :=
  match l with
  | [] => []
  | b :: l' =>
      match keep, drop with
      | S k, _ => b :: lossy_scan k 0 l'
      | O, S d => lossy_scan 0 d l'
      | O, O =>
          match head_of l with
          | HChar w => b :: lossy_scan (pred w) 0 l'
          | HBad (Some n) => REPLACEMENT ++ lossy_scan 0 (pred n) l'
          | HBad None => REPLACEMENT
          end
      end
  end.

Definition from_utf8_lossy (l : list Z) : list Z := lossy_scan 0 0 l.

(** [str::is_char_boundary] of a valid string. *)
Definition is_char_boundary (l : list Z) (i : nat) : bool :=
  match l !! i with
  | Some b => (i =? 0)%nat || negb (is_cont b)
  | None => (i =? 0)%nat || (i =? length l)%nat
  end.

(** ** Scalar values *)
Definition scalar (c : Z) : Prop := 0 ≤ c ≤ 1114111 ∧ ¬ 55296 ≤ c ≤ 57343.

Lemma encode_char_cases c :
  scalar c →
  (encode_char c = [c] ∧ c < 128)
  ∨ ∃ a rest, encode_char c = a :: rest ∧ 194 ≤ a ≤ 244 ∧ Forall (λ b, 128 ≤ b ≤ 191) rest
      ∧ (length rest = (if (a <? 224)%Z then 1 else if (a <? 240)%Z then 2 else 3)%nat)
      ∧ (∀ b, rest !! 0%nat = Some b → second_ok a b = true).
Proof.
  intros [Hc Hs]. unfold encode_char.
  destruct (Z.ltb_spec c 128); [by left|right].
  destruct (Z.ltb_spec c 2048); [|destruct (Z.ltb_spec c 65536)].
  - eexists _, _. split; [done|]. split; [dm_lia|]. split; [repeat constructor; dm_lia|].
    split; [by replace (_ <? 224) with true by (symmetry; apply Z.ltb_lt; dm_lia)|].
    intros b [= <-]. unfold second_ok, is_cont.
    rewrite !(proj2 (Z.eqb_neq (192 + c / 64) _)) by dm_lia. apply in_range_spec. dm_lia.
  - eexists _, _. split; [done|]. split; [dm_lia|]. split; [repeat constructor; dm_lia|].
    split; [replace (_ <? 224) with false by (symmetry; apply Z.ltb_ge; dm_lia);
            by replace (_ <? 240) with true by (symmetry; apply Z.ltb_lt; dm_lia)|].
    intros b [= <-]. unfold second_ok, is_cont.
    destruct (Z.eqb_spec (224 + c / 4096) 224); [apply in_range_spec; dm_lia|].
    destruct (Z.eqb_spec (224 + c / 4096) 237); [apply in_range_spec; dm_lia|].
    rewrite !(proj2 (Z.eqb_neq (224 + c / 4096) _)) by dm_lia. apply in_range_spec. dm_lia.
  - eexists _, _. split; [done|]. split; [dm_lia|]. split; [repeat constructor; dm_lia|].
    split; [replace (_ <? 224) with false by (symmetry; apply Z.ltb_ge; dm_lia);
            by replace (_ <? 240) with false by (symmetry; apply Z.ltb_ge; dm_lia)|].
    intros b [= <-]. unfold second_ok, is_cont.
    rewrite !(proj2 (Z.eqb_neq (240 + c / 262144) 224)), !(proj2 (Z.eqb_neq (240 + c / 262144) 237))
      by dm_lia.
    destruct (Z.eqb_spec (240 + c / 262144) 240); [apply in_range_spec; dm_lia|].
    destruct (Z.eqb_spec (240 + c / 262144) 244); apply in_range_spec; dm_lia.
Qed.

Lemma encode_char_size c : (1 ≤ length (encode_char c) ≤ 4)%nat.
Proof. unfold encode_char. repeat case_bool; cbn; lia. Qed.

Lemma cont_at_In k l next b : l !! k = Some b → 128 ≤ b ≤ 191 → cont_at k l next = next.
Proof. intros Hk Hb. unfold cont_at. rewrite Hk. unfold is_cont. by rewrite (proj2 (in_range_spec 128 191 b)). Qed.

Lemma head_of_char c l :
  scalar c → head_of (encode_char c ++ l) = HChar (length (encode_char c)).
Proof.
  intros Hs. destruct (encode_char_cases c Hs) as [[-> Hc]|(a & rest & -> & Ha & Hr & Hl & H2)].
  - cbn. by rewrite (proj2 (Z.ltb_lt c 128)).
  - unfold head_of. cbn [app length]. rewrite Hl.
    rewrite (proj2 (Z.ltb_ge a 128)) by lia. destruct (Z.ltb_spec a 224).
    + destruct rest as [|b [|]]; try done. rewrite (proj2 (in_range_spec 194 223 a)) by lia.
      apply Forall_cons in Hr as [Hb _]. by apply (cont_at_In _ _ _ b).
    + rewrite (proj2 (in_range_false 194 223 a)), (proj2 (in_range_spec 224 244 a)) by lia.
      destruct rest as [|b rest]; [by destruct (a <? 240)|]. cbn [lookup list_lookup app].
      rewrite (H2 b) by done. cbn [negb]. destruct rest as [|b2 rest]; [by destruct (a <? 240)|].
      apply Forall_cons in Hr as [_ Hr]. apply Forall_cons in Hr as [Hb2 Hr].
      rewrite (cont_at_In 2 _ _ b2) by done. destruct (Z.ltb_spec a 240); [done|].
      destruct rest as [|b3 [|]]; try done. apply Forall_cons in Hr as [Hb3 _].
      by apply (cont_at_In 3 _ _ b3).
Qed.

(** A proper prefix of an encoding is an unexpected end of input. *)
Lemma head_of_cut c k :
  scalar c → (0 < k < length (encode_char c))%nat → head_of (take k (encode_char c)) = HBad None.
Proof.
  intros Hs Hk. destruct (encode_char_cases c Hs) as [[E Hc]|(a & rest & E & Ha & Hr & Hl & H2)];
    rewrite E in *; cbn [length] in Hk; [lia|].
  destruct k as [|k]; [lia|]. cbn [take]. unfold head_of.
  rewrite (proj2 (Z.ltb_ge a 128)) by lia. rewrite Hl in Hk. destruct (Z.ltb_spec a 224).
  - assert (k = 0)%nat as -> by lia. by rewrite (proj2 (in_range_spec 194 223 a)) by lia.
  - rewrite (proj2 (in_range_false 194 223 a)), (proj2 (in_range_spec 224 244 a)) by lia.
    destruct k as [|k]; [done|]. destruct rest as [|b rest]; [by destruct (a <? 240)|].
    cbn [lookup list_lookup take]. rewrite (H2 b) by done. cbn [negb].
    destruct k as [|k]; [done|]. destruct rest as [|b2 rest]; [by destruct (a <? 240)|].
    apply Forall_cons in Hr as [_ Hr]. apply Forall_cons in Hr as [Hb2 Hr]. cbn [take].
    rewrite (cont_at_In 2 _ _ b2) by done.
    destruct (Z.ltb_spec a 240); [lia|]. by assert (k = 0)%nat as -> by lia.
Qed.

Lemma utf8_scan_skip p pos l :
  utf8_scan (length p) pos (p ++ l) = utf8_scan 0 (pos + length p) l.
Proof.
  revert pos. induction p as [|b p IH]; intros pos; cbn [length app]; [by rewrite Nat.add_0_r|].
  cbn [utf8_scan]. rewrite IH. f_equal. lia.
Qed.

Lemma utf8_scan_char c pos l :
  scalar c → utf8_scan 0 pos (encode_char c ++ l) = utf8_scan 0 (pos + length (encode_char c)) l.
Proof.
  intros Hs. pose proof (head_of_char c l Hs) as Hh. pose proof (encode_char_size c) as Hlen.
  destruct (encode_char c) as [|a p] eqn:E; [cbn in Hlen; lia|].
  cbn [app utf8_scan] in Hh |- *. rewrite Hh. cbn [length pred].
  rewrite utf8_scan_skip. f_equal. lia.
Qed.

Lemma utf8_scan_chars cs pos l :
  Forall scalar cs → utf8_scan 0 pos (encode_utf8 cs ++ l) = utf8_scan 0 (pos + length (encode_utf8 cs)) l.
Proof.
  intros Hs. revert pos. induction Hs as [|c cs Hc _ IH]; intros pos.
  - cbn. by rewrite Nat.add_0_r.
  - change (encode_utf8 (c :: cs)) with (encode_char c ++ encode_utf8 cs).
    rewrite <- app_assoc, utf8_scan_char, IH, length_app by done. f_equal. lia.
Qed.

(** Text is accepted, and text cut inside a character is rejected at that character as
    an unexpected end. *)
Lemma from_utf8_encode cs : Forall scalar cs → from_utf8 (encode_utf8 cs) = Utf8Ok.
Proof.
  intros Hs. unfold from_utf8. rewrite <- (app_nil_r (encode_utf8 cs)).
  by rewrite utf8_scan_chars.
Qed.

Lemma from_utf8_cut cs c k :
  Forall scalar cs → scalar c → (0 < k < length (encode_char c))%nat →
  from_utf8 (encode_utf8 cs ++ take k (encode_char c)) = Utf8Error (length (encode_utf8 cs)) None.
Proof.
  intros Hs Hc Hk. unfold from_utf8. rewrite utf8_scan_chars by done.
  pose proof (head_of_cut c k Hc Hk) as Hh.
  destruct (take k (encode_char c)) as [|a p] eqn:E.
  { apply (f_equal length) in E. rewrite length_take in E. cbn in E. lia. }
  cbn [utf8_scan]. by rewrite Hh.
Qed.

Ltac second_cases b :=
  repeat match goal with |- context [Z.eqb ?x ?y] => destruct (Z.eqb_spec x y) end; try lia;
  intros Eb%in_range_spec; rewrite (proj2 (in_range_spec 128 191 b)) by lia; cbn; lia.

Lemma head_of_sequence l w :
  Forall (λ b, 0 ≤ b) l → head_of l = HChar w →
  ∃ c l', scalar c ∧ l = encode_char c ++ l' ∧ w = length (encode_char c).
Proof.
  intros Hpos. destruct l as [|a l]; [done|]. cbn [head_of]. apply Forall_cons in Hpos as [Ha _].
  destruct (Z.ltb_spec a 128).
  { intros [= <-]. exists a, l. unfold scalar, encode_char. rewrite (proj2 (Z.ltb_lt a 128)) by done.
    split; [lia|done]. }
  assert (∀ p l', utf8_sequence_ok p = true → a :: l = p ++ l' → w = length p →
            ∃ c l', scalar c ∧ a :: l = encode_char c ++ l' ∧ w = length (encode_char c)) as Hseq.
  { intros p l' (c & -> & Hc & Hsc)%utf8_sequence_char -> ->. exists c, l'. unfold scalar. split; [lia|done]. }
  unfold cont_at, is_cont. destruct (in_range 194 223 a) eqn:E2.
  { destruct l as [|b l]; cbn; [done|]. destruct (in_range 128 191 b) eqn:Eb; [|done]. intros [= <-].
    apply (Hseq [a; b] l); [cbn; by rewrite E2, Eb|done..]. }
  destruct (in_range 224 244 a) eqn:E3; [|done]. apply in_range_spec in E3.
  destruct l as [|b l]; cbn; [done|]. destruct (second_ok a b) eqn:Eb; cbn; [|done].
  destruct l as [|b2 l]; cbn; [done|]. destruct (in_range 128 191 b2) eqn:Eb2; [|done].
  unfold second_ok, is_cont in Eb. destruct (Z.ltb_spec a 240).
  - intros [= <-]. apply (Hseq [a; b; b2] l); [|done..]. cbn. rewrite Eb2.
    rewrite (proj2 (in_range_spec 224 239 a)) by lia. revert Eb.
    second_cases b.
  - destruct l as [|b3 l]; cbn; [done|]. destruct (in_range 128 191 b3) eqn:Eb3; [|done].
    intros [= <-]. apply (Hseq [a; b; b2; b3] l); [|done..]. cbn. rewrite Eb2, Eb3.
    rewrite (proj2 (in_range_spec 240 244 a)) by lia. revert Eb.
    second_cases b.
Qed.

(** What the scan accepts is the encoding of scalar values; where it stops, the part
    before is one. *)
Lemma from_utf8_prefix l n :
  Forall (λ b, 0 ≤ b) l → (length l ≤ n)%nat → ∀ pos,
  match utf8_scan 0 pos l with
  | Utf8Ok => ∃ cs, Forall scalar cs ∧ l = encode_utf8 cs
  | Utf8Error v _ => ∃ cs rest, Forall scalar cs ∧ l = encode_utf8 cs ++ rest
                       ∧ v = (pos + length (encode_utf8 cs))%nat
  end.
Proof.
  revert l. induction n as [|n IH]; intros l Hpos Hn pos.
  { destruct l; [|cbn in Hn; lia]. by exists []. }
  destruct (decide (l = [])) as [->|Hne]; [by exists []|].
  destruct (head_of l) as [w|e] eqn:Eh.
  - destruct (head_of_sequence l w Hpos Eh) as (c & l' & Hc & -> & ->).
    apply Forall_app in Hpos as [_ Hpos]. rewrite length_app in Hn.
    pose proof (encode_char_size c). rewrite utf8_scan_char by done.
    specialize (IH l' Hpos ltac:(lia) (pos + length (encode_char c))%nat).
    destruct (utf8_scan 0 _ l') as [|v e].
    + destruct IH as (cs & Hcs & ->). exists (c :: cs). split; [by constructor|done].
    + destruct IH as (cs & rest & Hcs & -> & ->). exists (c :: cs), rest.
      split; [by constructor|]. change (encode_utf8 (c :: cs)) with (encode_char c ++ encode_utf8 cs).
      rewrite <- app_assoc, length_app. split; [done|lia].
  - assert (utf8_scan 0 pos l = Utf8Error pos e) as ->.
    { destruct l as [|a l]; [done|]. cbn [utf8_scan]. by rewrite Eh. }
    exists [], l. cbn. split; [constructor|]. split; [done|lia].
Qed.

Lemma from_utf8_Ok l :
  Forall (λ b, 0 ≤ b) l → from_utf8 l = Utf8Ok ↔ ∃ cs, Forall scalar cs ∧ l = encode_utf8 cs.
Proof.
  intros Hpos. split.
  - intros H. pose proof (from_utf8_prefix l _ Hpos (le_n _) 0) as Hp.
    unfold from_utf8 in H. by rewrite H in Hp.
  - intros (cs & Hcs & ->). by apply from_utf8_encode.
Qed.

(** ** Strings and their bytes *)
Lemma string_of_byte_list s : string_of_bytes (byte_list s) = s.
Proof.
  unfold string_of_bytes, byte_list, bytes. induction s as [|a s IH]; [done|].
  cbn in *. f_equal; [|done]. unfold byte_val. by rewrite N2Z.id, ascii_N_embedding.
Qed.

Lemma byte_list_of_string l : Forall (λ b, 0 ≤ b ≤ 255) l → byte_list (string_of_bytes l) = l.
Proof.
  unfold string_of_bytes, byte_list, bytes. rewrite String.list_ascii_of_string_of_list_ascii.
  induction 1 as [|b l Hb _ IH]; [done|]. cbn in *. f_equal; [|done].
  unfold byte_val. rewrite N_ascii_embedding by lia. lia.
Qed.

Lemma byte_list_bytes s : Forall (λ b, 0 ≤ b ≤ 255) (byte_list s).
Proof.
  unfold byte_list. apply Forall_fmap, Forall_true. intros a. unfold byte_val; cbn.
  pose proof (N_ascii_bounded a). lia.
Qed.

(** [str::split] at an ASCII character, and joining with it. *)
Fixpoint split_on (sep : Z) (l : list Z) : list (list Z) :=
  match l with
  | [] => [[]]
  | b :: l =>
      if b =? sep then [] :: split_on sep l
      else match split_on sep l with [] => [[b]] | p :: ps => (b :: p) :: ps end
  end.

Fixpoint join_with (sep : list Z) (ps : list (list Z)) : list Z :=
  match ps with
  | [] => []
  | [p] => p
  | p :: ps => p ++ sep ++ join_with sep ps
  end.

Lemma split_on_nonempty sep l : split_on sep l ≠ [].
Proof. destruct l as [|b l]; cbn; [done|]. case_bool; [done|]. by destruct (split_on sep l). Qed.

Lemma split_on_app sep p l :
  sep ∉ p → split_on sep (p ++ l) =
    match split_on sep l with [] => [p] | q :: qs => (p ++ q) :: qs end.
Proof.
  induction p as [|b p IH]; intros Hp; cbn.
  - pose proof (split_on_nonempty sep l). by destruct (split_on sep l).
  - rewrite (proj2 (Z.eqb_neq b sep)) by set_solver. rewrite IH by set_solver.
    by destruct (split_on sep l).
Qed.

Lemma split_on_none sep p : sep ∉ p → split_on sep p = [p].
Proof. intros Hp. rewrite <- (app_nil_r p) at 1. rewrite split_on_app by done. cbn. by rewrite app_nil_r. Qed.

(** A separator that occurs in no field makes the split unique. *)
Lemma split_join sep ps :
  ps ≠ [] → Forall (λ p, sep ∉ p) ps → split_on sep (join_with [sep] ps) = ps.
Proof.
  intros Hne Hps. induction Hps as [|p ps Hp Hps IH]; [done|].
  destruct ps as [|q ps]; [by apply split_on_none|].
  change (join_with [sep] (p :: q :: ps)) with (p ++ sep :: join_with [sep] (q :: ps)).
  rewrite split_on_app by done. cbn [split_on]. rewrite Z.eqb_refl, IH by done.
  by rewrite app_nil_r.
Qed.

(** A JSONL file. *)
Definition records_bytes (records : list (list Z)) : list Z := concat ((λ r, r ++ [10]) <$> records).

Lemma records_bytes_cons r rs : records_bytes (r :: rs) = r ++ 10 :: records_bytes rs.
Proof. unfold records_bytes. cbn. by rewrite <- app_assoc. Qed.

Lemma records_bytes_app rs rs' : records_bytes (rs ++ rs') = records_bytes rs ++ records_bytes rs'.
Proof. unfold records_bytes. by rewrite fmap_app, concat_app. Qed.

(** The records come back, and the text after them is split as on its own. *)
Lemma split_records rs l :
  Forall (λ r, 10 ∉ r) rs → split_on 10 (records_bytes rs ++ l) = rs ++ split_on 10 l.
Proof.
  induction 1 as [|r rs Hr _ IH]; [done|]. rewrite records_bytes_cons, <- app_assoc.
  cbn [app]. rewrite split_on_app by done. cbn [split_on]. by rewrite Z.eqb_refl, app_nil_r, IH.
Qed.

(** Decoding well-formed text lossily changes nothing. *)
Lemma lossy_skip p l : lossy_scan (length p) 0 (p ++ l) = p ++ lossy_scan 0 0 l.
Proof. induction p as [|b p IH]; [done|]. cbn [length app lossy_scan]. by rewrite IH. Qed.

Lemma lossy_chars cs l :
  Forall scalar cs → from_utf8_lossy (encode_utf8 cs ++ l) = encode_utf8 cs ++ from_utf8_lossy l.
Proof.
  unfold from_utf8_lossy. induction 1 as [|c cs Hc _ IH]; [done|].
  change (encode_utf8 (c :: cs)) with (encode_char c ++ encode_utf8 cs). rewrite <- !app_assoc.
  pose proof (head_of_char c (encode_utf8 cs ++ l) Hc) as Hh. pose proof (encode_char_size c) as Hlen.
  destruct (encode_char c) as [|a p] eqn:E; [cbn in Hlen; lia|].
  cbn [app lossy_scan] in Hh |- *. rewrite Hh. cbn [length pred]. by rewrite lossy_skip, IH.
Qed.

(** Byte sequences that are well-formed text. *)
Definition is_text (l : list Z) : Prop := ∃ cs, Forall scalar cs ∧ l = encode_utf8 cs.

Lemma text_app l l' : is_text l → is_text l' → is_text (l ++ l').
Proof.
  intros (cs & Hcs & ->) (cs' & Hcs' & ->). exists (cs ++ cs').
  split; [by apply Forall_app|]. unfold encode_utf8. by rewrite bind_app.
Qed.

Lemma text_of_ok l : Forall (λ b, 0 ≤ b) l → utf8_ok l = true → is_text l.
Proof.
  intros Hpos Hok. unfold utf8_ok in Hok. destruct (from_utf8 l) eqn:E; [|done]. by apply from_utf8_Ok.
Qed.

Lemma text_lossy l : is_text l → from_utf8_lossy l = l.
Proof.
  intros (cs & Hcs & ->). rewrite <- (app_nil_r (encode_utf8 cs)) at 1.
  by rewrite lossy_chars, app_nil_r.
Qed.

Lemma text_ok l : is_text l → utf8_ok l = true.
Proof. intros (cs & Hcs & ->). unfold utf8_ok. by rewrite from_utf8_encode. Qed.

Lemma ascii_encoded l : Forall (λ b, 0 ≤ b < 128) l → Forall scalar l ∧ encode_utf8 l = l.
Proof.
  induction 1 as [|b l Hb _ [IHs IHe]]; [by split|]. split.
  - constructor; [unfold scalar; lia|done].
  - change (encode_utf8 (b :: l)) with (encode_char b ++ encode_utf8 l). rewrite IHe.
    unfold encode_char. by rewrite (proj2 (Z.ltb_lt b 128)) by lia.
Qed.

Lemma text_ascii l : Forall (λ b, 0 ≤ b < 128) l → is_text l.
Proof. intros [Hs He]%ascii_encoded. by exists l. Qed.
