(* ===== verification/Mux.v ===== *)
(** * The multiplexer interface (src/src/mux/mod.rs)

    The [Multiplexer] trait: its data, its errors and its operations as programs over
    the system calls of a driver; and the multiplexer that the actuator of
    src/src/recovery/actuator.rs drives, which is a driver bound to one identity. *)
From S2P Require Import Prelude Text Utf8 Action Event Identity Process Actuator Effects Runtime.
From stdpp Require Import pretty.

Local Open Scope Z_scope.

#[global] Instance MuxIdentity_eq_dec : EqDecision MuxIdentity.
Proof. solve_decision. Defined.

Record PaneInfo : Type := mkPaneInfo {
  pn_identity : MuxIdentity;
  pn_server_id : string;
  pn_session_name : string;
  pn_window_name : string;
  pn_window_index : Z;
  pn_pane_index : Z;
  pn_pane_title : string;
  pn_current_command : string;
  pn_current_path : string;
  pn_dead : bool;
  pn_dead_status : option Z;
  pn_started_at : option Z;
  pn_dead_at : option Z;
}.

(** [mux::Capture]. *)
Record PaneCapture : Type := mkCapture {
  cp_text : list Z;
  cp_bytes : nat;
  cp_truncated : bool;
  cp_elapsed : Z;
}.

Definition empty_capture : PaneCapture := mkCapture [] 0 false 0.

Module MuxErr.
Inductive MuxError : Type :=
| InvalidSelector (m : string)
| Timeout
| Command (m : string)
| Malformed (m : string)
| IdentityChanged (m : string)
| InvalidUtf8
| Protocol (m : string)
| IncompatibleProtocol (m : string)
| UnsafeSocket (m : string)
| CommandOutcomeUnknown (m : string).
End MuxErr.
Abbreviation MuxError := MuxErr.MuxError.

(** [Display for MuxError]. *)
Definition mux_error_display (e : MuxError) : string :=
  match e with
  | MuxErr.InvalidSelector m => "invalid tmux selector: " +:+ m
  | MuxErr.Timeout => "tmux command timed out"
  | MuxErr.Command m => "tmux command failed: " +:+ m
  | MuxErr.Malformed m => "malformed tmux metadata: " +:+ m
  | MuxErr.IdentityChanged m => "target identity changed: " +:+ m
  | MuxErr.InvalidUtf8 => "captured output is not valid UTF-8"
  | MuxErr.Protocol m => "Herdr protocol error: " +:+ m
  | MuxErr.IncompatibleProtocol m => "incompatible Herdr protocol: " +:+ m
  | MuxErr.UnsafeSocket m => "unsafe Herdr socket: " +:+ m
  | MuxErr.CommandOutcomeUnknown m => "multiplexer command outcome is unknown: " +:+ m
  end.

(** [Display for ProcessError]. *)
Definition process_error_display (e : ProcessError) : string :=
  match e with
  | Process.Disappeared p => "process " +:+ pretty p +:+ " disappeared during inspection"
  | Process.Malformed p reason =>
      "malformed process metadata for PID " +:+ pretty p +:+ ": " +:+ reason
  | Process.Inspection m => "process inspection failed: " +:+ m
  | Process.IncompleteEnumeration m => "process enumeration was incomplete: " +:+ m
  | Process.Ambiguous cs =>
      "agent process discovery is ambiguous ([" +:+ String.concat ", " (pretty <$> cs)
      +:+ "]); run `watchme doctor` for pane and process evidence"
  | Process.NoConfidentCandidate _ =>
      "no agent process has sufficient correlated evidence; invoke through `!watchme` and run `watchme doctor`"
  end.

Definition composer_debug (s : ComposerState) : string :=
  match s with
  | Composer.Safe => "Safe" | Composer.Unsafe => "Unsafe"
  | Composer.Unknown => "Unknown" | Composer.Stale => "Stale"
  end.

(** [str::escape_default] of one character. *)
Definition hex_digit (d : Z) : Z := if d <? 10 then 48 + d else 87 + d.

Fixpoint hex_digits (fuel : nat) (c : Z) : list Z :=
  match fuel with
  | O => []
  | S f => (if c <? 16 then [] else hex_digits f (c / 16)) ++ [hex_digit (c mod 16)]
  end.

Definition escape_char (c : Z) : list Z :=
  if c =? 9 then [92; 116]
  else if c =? 13 then [92; 114]
  else if c =? 10 then [92; 110]
  else if (c =? 39) || (c =? 34) || (c =? 92) then [92; c]
  else if in_range 32 126 c then [c]
  else [92; 117; 123] ++ hex_digits 6 c ++ [125].

Definition escape_default (s : string) : string := string_of_bytes (mbind escape_char (chars s)).

(** [value.chars().any(char::is_control)]. *)
Definition has_control (s : string) : bool := existsb is_control (chars s).

(** ** Programs that may fail *)
Definition prog_try {Op} {An : Op → Type} {E A B} (c : Prog An (result E A))
    (k : A → Prog An (result E B)) : Prog An (result E B) :=
  bind c (λ r, match r with Ok a => k a | Err e => Ret (Err e) end).
Notation "'try!' x ':=' c 'in' k" := (prog_try c (λ x, k))
  (at level 10, x name, c at level 100, k at level 200) : watch_scope.

Definition lift {Op} {An : Op → Type} {A} (r : A) : Prog An A := Ret r.

(** The trait; [observe] of the composer guard is among the operations of the driver. *)
Record Multiplexer {Op : Type} (An : Op → Type) : Type := mkMultiplexer {
  mx_current_target : Prog An (result MuxError MuxIdentity);
  mx_pane_info : MuxIdentity → Prog An (result MuxError PaneInfo);
  mx_validate : MuxIdentity → Prog An (result MuxError unit);
  mx_capture_tail : MuxIdentity → Z → Z → Prog An (result MuxError PaneCapture);
  mx_send_literal : MuxIdentity → string → Prog An (result MuxError unit);
  mx_submit_literal : MuxIdentity → string → Prog An (result MuxError unit);
  mx_send_key : MuxIdentity → SymbolicKey → Prog An (result MuxError unit);
}.
Arguments mkMultiplexer {Op An}.
Arguments mx_current_target {Op An}. Arguments mx_pane_info {Op An}. Arguments mx_validate {Op An}.
Arguments mx_capture_tail {Op An}. Arguments mx_send_literal {Op An}.
Arguments mx_submit_literal {Op An}. Arguments mx_send_key {Op An}.

(** [Multiplexer::submit_literal] when a driver does not override it. *)
Definition default_submit_literal {Op} {An : Op → Type} (_ : MuxIdentity) (_ : string)
    : Prog An (result MuxError unit) :=
  Ret (Err (MuxErr.Command "atomic text submission is unsupported")).

(** ** The driver as the actuator's multiplexer

    Each operation runs the driver's program against the operating system [h] and
    appends the conversation to a log; errors are passed on as their text. *)
Section Bound.
Context {Op : Type} {An : Op → Type} {W : Type} (h : ∀ o, W → W * An o).

Fixpoint run_logged {A} (p : Prog An A) (s : W * list (Ev An)) : (W * list (Ev An)) * A :=
  match p with
  | Ret a => (s, a)
  | Vis o k => let '(w, x) := h o s.1 in run_logged (k x) (w, s.2 ++ [existT o x])
  end.

Definition displayed {S A} (r : S * result MuxError A) : S * result string A :=
  (r.1, map_err mux_error_display r.2).

Definition bound_mux (m : Multiplexer An) (i : MuxIdentity) : Mux (W * list (Ev An)) :=
  {| Actuator.validate_identity := λ s, displayed (run_logged (mx_validate m i) s);
     Actuator.send_literal := λ t s, displayed (run_logged (mx_send_literal m i t) s);
     Actuator.submit_literal := λ t s, displayed (run_logged (mx_submit_literal m i t) s);
     Actuator.send_key := λ k s, displayed (run_logged (mx_send_key m i k) s);
     Actuator.capture_tail := λ n b s,
       let '(s, r) := displayed (run_logged (mx_capture_tail m i n b) s) in
       (s, let? c := r in Ok (string_of_bytes (cp_text c))) |}.

Lemma run_logged_traces {A} (p : Prog An A) w log w' log' r :
  run_logged p (w, log) = ((w', log'), r) → ∃ tr, log' = log ++ tr ∧ traces p tr r.
Proof.
  revert w log. induction p as [a|o k IH]; intros w log; cbn.
  - intros [= <- <- <-]. exists []. by rewrite app_nil_r.
  - destruct (h o w) as [w1 x]. cbn. intros (tr & -> & Htr)%IH.
    exists (existT o x :: tr). rewrite <- app_assoc. eauto.
Qed.

(** ** A property of conversations that calls preserve

    [P] holds of the log of every execution when it holds of the conversations of each
    operation and of their concatenations. *)
Section Log.
Context (m : Multiplexer An) (i : MuxIdentity) (P : list (Ev An) → Prop).
Context (P_nil : P []) (P_app : ∀ l1 l2, P l1 → P l2 → P (l1 ++ l2)).
Context (P_validate : ∀ tr r, traces (mx_validate m i) tr r → P tr).
Context (P_literal : ∀ t tr r, traces (mx_send_literal m i t) tr r → P tr).
Context (P_submit : ∀ t tr r, traces (mx_submit_literal m i t) tr r → P tr).
Context (P_key : ∀ k tr r, traces (mx_send_key m i k) tr r → P tr).
Context (P_capture : ∀ n b tr r, traces (mx_capture_tail m i n b) tr r → P tr).

Lemma logged_P {A} (p : Prog An (result MuxError A)) s s' r :
  (∀ tr r, traces p tr r → P tr) → displayed (run_logged p s) = (s', r) → P s.2 → P s'.2.
Proof.
  intros Hp. unfold displayed. destruct s as [w log].
  destruct (run_logged p (w, log)) as [[w' log'] r'] eqn:E. intros [= <- <-] HP. cbn in *.
  apply run_logged_traces in E as (tr & -> & Htr). eauto.
Qed.

Lemma send_keys_P keys s s' r :
  send_keys (bound_mux m i) keys s = Some (s', r) → P s.2 → P s'.2.
Proof.
  revert s. induction keys as [|key keys IH]; intros s; cbn [send_keys]; [by intros [= <- <-]|].
  intros (k & _ & H)%bind_Some HP. cbn [bound_mux Actuator.send_key] in H.
  destruct (displayed _) as [s1 r1] eqn:E. pose proof (logged_P _ _ _ _ (P_key k) E HP) as H1.
  destruct r1; [by eapply IH|]. by injection H as <- <-.
Qed.

(** Executing an action on the bound driver preserves the property. *)
Lemma mux_execute_P `{Rfc3339} src a s s' r :
  mux_execute (bound_mux m i) src a s = Some (s', r) → P s.2 → P s'.2.
Proof.
  unfold mux_execute. destruct (validate_action a); [|by intros [= <- <-]].
  cbn [bound_mux Actuator.validate_identity Actuator.send_literal Actuator.submit_literal
       Actuator.capture_tail].
  destruct (displayed (run_logged (mx_validate m i) s)) as [s1 r1] eqn:E1. intros Hx HP.
  pose proof (logged_P _ _ _ _ P_validate E1 HP) as H1. clear E1.
  destruct r1; [|by injection Hx as <- <-].
  destruct (kind a); try (by injection Hx as <- <-).
  - case_bool_in Hx; [by injection Hx as <- <-|].
    destruct (displayed _) as [s2 r2] eqn:E2. injection Hx as <- <-.
    by eapply logged_P; [apply P_capture|exact E2|].
  - destruct (displayed _) as [s2 r2] eqn:E2. injection Hx as <- <-.
    by eapply logged_P; [apply P_literal|exact E2|].
  - destruct (displayed _) as [s2 r2] eqn:E2. injection Hx as <- <-.
    by eapply logged_P; [apply P_submit|exact E2|].
  - by eapply send_keys_P.
Qed.
End Log.
End Bound.

(** ** Conversations of programs that may fail *)
Lemma traces_try {Op} {An : Op → Type} {E A B} (c : Prog An (result E A))
    (k : A → Prog An (result E B)) tr r :
  traces (prog_try c k) tr r ↔
    (∃ e, r = Err e ∧ traces c tr (Err e))
    ∨ ∃ tr1 tr2 a, tr = tr1 ++ tr2 ∧ traces c tr1 (Ok a) ∧ traces (k a) tr2 r.
Proof.
  unfold prog_try. rewrite traces_bind. split.
  - intros (tr1 & tr2 & [a|e] & -> & H1 & H2); [right; eauto 8|].
    destruct H2 as [-> ->]. left. exists e. by rewrite app_nil_r.
  - intros [(e & -> & H)|(tr1 & tr2 & a & -> & H1 & H2)].
    + exists tr, [], (Err e). by rewrite app_nil_r.
    + exists tr1, tr2, (Ok a). done.
Qed.

Lemma traces_try_Ok {Op} {An : Op → Type} {E A B} (c : Prog An (result E A))
    (k : A → Prog An (result E B)) tr b :
  traces (prog_try c k) tr (Ok b) →
  ∃ tr1 tr2 a, tr = tr1 ++ tr2 ∧ traces c tr1 (Ok a) ∧ traces (k a) tr2 (Ok b).
Proof. rewrite traces_try. by intros [(e & ? & _)|?]. Qed.

Lemma traces_call {Op} {An : Op → Type} (o : Op) tr (x : An o) :
  traces (call o) tr x ↔ tr = [existT o x].
Proof. cbn. split; [by intros (? & ? & -> & -> & ->)|]. intros ->. eauto. Qed.

(** [respects P p]: every conversation of [p] has [P], a property closed under
    concatenation. *)
Section Respects.
Context {Op : Type} {An : Op → Type} (P : list (Ev An) → Prop).
Context (P_nil : P []) (P_app : ∀ l1 l2, P l1 → P l2 → P (l1 ++ l2)).

Definition respects {A} (p : Prog An A) : Prop := ∀ tr r, traces p tr r → P tr.

Lemma respects_ret {A} (a : A) : respects (Ret a).
Proof. by intros tr r [-> _]. Qed.

Lemma respects_bind {A B} (p : Prog An A) (f : A → Prog An B) :
  respects p → (∀ a, respects (f a)) → respects (bind p f).
Proof.
  intros Hp Hf tr r (tr1 & tr2 & a & -> & H1 & H2)%traces_bind.
  apply P_app; [by eapply Hp|by eapply Hf].
Qed.

Lemma respects_try {E A B} (p : Prog An (result E A)) (f : A → Prog An (result E B)) :
  respects p → (∀ a, respects (f a)) → respects (prog_try p f).
Proof. intros Hp Hf. apply respects_bind; [done|]. intros [a|e]; [done|apply respects_ret]. Qed.

Lemma respects_call (o : Op) : (∀ x, P [existT o x]) → respects (call o).
Proof. intros Ho tr r ->%traces_call. done. Qed.
End Respects.

(** ** Logs in which each event is backed by what came before it *)
Section Backed.
Context {Op : Type} {An : Op → Type} (J : list (Ev An) → Ev An → Prop).

Definition backed (log : list (Ev An)) : Prop := ∀ l1 e l2, log = l1 ++ e :: l2 → J l1 e.

Lemma backed_nil : backed [].
Proof. intros l1 e l2 H. by destruct l1. Qed.

Lemma backed_app l1 l2 :
  (∀ l0 l e, J l e → J (l0 ++ l) e) → backed l1 → backed l2 → backed (l1 ++ l2).
Proof.
  intros Hext H1 H2 p e q Heq. apply app_eq_inv in Heq as [(k & -> & Hk)|(k & -> & Hk)].
  - destruct k as [|e' k]; simplify_eq/=; [|by eapply H1].
    rewrite <- (app_nil_r p). apply Hext. by eapply H2.
  - apply Hext. by eapply H2.
Qed.

Lemma backed_all l : (∀ l1 e, e ∈ l → J l1 e) → backed l.
Proof. intros H l1 e l2 ->. apply H. set_solver. Qed.

Lemma backed_snoc l e l2 :
  backed l → J l e → (∀ l1 x, x ∈ l2 → J l1 x) → backed (l ++ e :: l2).
Proof.
  intros Hl He Hl2 p x q Heq. apply app_eq_inv in Heq as [(k & -> & Hk)|(k & -> & Hk)].
  - destruct k as [|x' k]; simplify_eq/=; [by rewrite app_nil_r in He|by eapply Hl].
  - destruct k as [|x' k]; simplify_eq/=; [by rewrite app_nil_r|]. apply Hl2. set_solver.
Qed.
End Backed.
