(* ===== verification/Linux.v ===== *)
(** * The Linux process inspector (src/src/process/linux.rs)

    Parsing of [/proc/<pid>/stat] and [/proc/<pid>/status], terminal device names, the
    inspection of a process with its double read against PID reuse, and enumeration. *)
From S2P Require Import Prelude Text Utf8 ParseInt Identity Process Effects Runtime Mux.
From stdpp Require Import pretty.

Local Open Scope Z_scope.

Definition MAX_PROC_FILE_BYTES : Z := 64 * 1024.
Definition MAX_PROC_ENTRIES : nat := 32 * 1024.

Record ParsedProcStat : Type := mkStat {
  ps_parent_pid : Z;
  ps_process_group_id : Z;
  ps_session_leader_id : Z;
  ps_tty : option string;
  ps_start_time : Z;
}.

Definition malformed (p : Z) (reason : string) : ProcessError := Process.Malformed p reason.

Definition bounded_utf8 (p : Z) (l : list Z) : result ProcessError (list Z) :=
  if MAX_PROC_FILE_BYTES <? Z.of_nat (length l) then Err (malformed p "proc field exceeds size limit")
  else if utf8_ok l then Ok l else Err (malformed p "proc field is not UTF-8").

(** [&input[input.rfind(") ")? + 2..]]. *)
Fixpoint after_close (l : list Z) : option (list Z) :=
  match l with
  | [] => None
  | b :: l' =>
      match after_close l' with
      | Some r => Some r
      | None => if b =? 41 then match l' with 32 :: r => Some r | _ => None end else None
      end
  end.

Definition is_ws (b : Z) : bool := (b =? 9) || (b =? 10) || (b =? 12) || (b =? 13) || (b =? 32).

(** [str::split_ascii_whitespace]. *)
Fixpoint words_from (cur : list Z) (l : list Z) : list (list Z) :=
  match l with
  | [] => if bool_decide (cur = []) then [] else [reverse cur]
  | b :: l =>
      if is_ws b then (if bool_decide (cur = []) then [] else [reverse cur]) ++ words_from [] l
      else words_from (b :: cur) l
  end.
Definition words (l : list Z) : list (list Z) := words_from [] l.

Definition word_at (ws : list (list Z)) (i : nat) : string := string_of_bytes (default [] (ws !! i)).

Definition parse_field (p : Z) (parse : string → option Z) (value name : string)
    : result ProcessError Z :=
  ok_or (parse value) (malformed p ("invalid " +:+ name)).

(** The encoding of [makedev]: twelve and twenty bits of the major number, eight and
    twenty-four of the minor. *)
Definition dev_major (device : Z) : Z :=
  Z.lor (Z.land (Z.shiftr device 8) 4095) (Z.land (Z.shiftr device 32) 4294963200).
Definition dev_minor (device : Z) : Z :=
  Z.lor (Z.land device 255) (Z.land (Z.shiftr device 12) 4294967040).

Definition canonical_device (device : Z) : string :=
  "dev:" +:+ pretty (dev_major device) +:+ ":" +:+ pretty (dev_minor device).

Definition canonical_tty (device : Z) : option string :=
  if 0 <? device then Some (canonical_device device) else None.

(** [fs::metadata(path).rdev()] is given. *)
Definition canonical_tty_path (rdev : result string Z) : result ProcessError string :=
  let? d := map_err Process.Inspection rdev in Ok (canonical_device d).

Definition parse_proc_stat (p : Z) (l : list Z) : result ProcessError ParsedProcStat :=
  let? input := bounded_utf8 p l in
  let? tail := ok_or (after_close input) (malformed p "missing command terminator") in
  let fields := words tail in
  let? _ := fail_if (length fields <=? 19)%nat (malformed p "truncated stat fields") in
  let? parent := parse_field p (parse_unsigned u32_max) (word_at fields 1) "parent PID" in
  let? group := parse_field p (parse_unsigned u32_max) (word_at fields 2) "process group" in
  let? leader := parse_field p (parse_unsigned u32_max) (word_at fields 3) "session leader" in
  let? tty := parse_field p (parse_signed i64_max) (word_at fields 4) "controlling tty" in
  let? start := parse_field p (parse_unsigned u64_max) (word_at fields 19) "start time" in
  Ok (mkStat parent group leader (canonical_tty tty) start).

(** [str::lines]: the last line may lack its newline, a carriage return before a newline
    is dropped. *)
Definition strip_cr (l : list Z) : list Z :=
  match reverse l with 13 :: r => reverse r | _ => l end.

Definition str_lines (l : list Z) : list (list Z) :=
  match reverse (split_on 10 l) with
  | [] => []
  | final :: init => (strip_cr <$> reverse init) ++ (if bool_decide (final = []) then [] else [final])
  end.

Fixpoint strip_bytes (p l : list Z) : option (list Z) :=
  match p, l with
  | [], _ => Some l
  | x :: p, y :: l => if x =? y then strip_bytes p l else None
  | _ :: _, [] => None
  end.

Definition parse_status_uid (p : Z) (l : list Z) : result ProcessError Z :=
  let? input := bounded_utf8 p l in
  let? value := ok_or (line ← head (omap (strip_bytes (byte_list "Uid:")) (str_lines input));
                       head (words line))
                  (malformed p "missing real UID") in
  parse_field p (parse_unsigned u32_max) (string_of_bytes value) "real UID".

(** ** Reading processes *)
Inductive ReadError : Type := NotFound | ReadFailed (m : string).

Inductive ProcOp : Type := PRead (path : string) | PLink (path : string) | PDir.
Definition ProcAns (o : ProcOp) : Type :=
  match o with
  | PRead _ => result ReadError (list Z)
  | PLink _ => option string
  | PDir => result string (list (result string string))
  end.
Abbreviation ProcProg := (Prog ProcAns).
Definition pcall (o : ProcOp) : ProcProg (ProcAns o) := call o.

(** The loop of [processes_on_tty], over the inspection of one process. *)
Section OnTty.
Context {Op : Type} {An : Op → Type} (inspection : Z → Prog An (result ProcessError ProcessRecord)).

Fixpoint read_on_tty (tty : string) (pids : list Z) : Prog An (result ProcessError (list ProcessRecord)) :=
  match pids with
  | [] => Ret (Ok [])
  | p :: pids =>
      let! found := inspection p in
      match found with
      | Ok r =>
          try! rest := read_on_tty tty pids in
          Ret (Ok (if opt_str_eqb (pr_tty r) (Some tty) then r :: rest else rest))
      | Err (Process.Disappeared _) => read_on_tty tty pids
      | Err e => Ret (Err e)
      end
  end.
End OnTty.

Section Inspector.
Context `{Sha256Hex} (proc_root : string).

Definition proc_file (p : Z) (name : string) : string :=
  proc_root +:+ "/" +:+ pretty p +:+ "/" +:+ name.

(** The first [MAX_PROC_FILE_BYTES + 1] bytes are read. *)
Definition read_bounded (path : string) (p : Z) : ProcProg (result ProcessError (list Z)) :=
  let! content := pcall (PRead path) in
  Ret (let? l := map_err (λ e, match e with
                               | NotFound => Process.Disappeared p
                               | ReadFailed m => Process.Inspection m
                               end) content in
       let l := take (Z.to_nat (MAX_PROC_FILE_BYTES + 1)) l in
       if MAX_PROC_FILE_BYTES <? Z.of_nat (length l)
       then Err (malformed p "proc file exceeds size limit") else Ok l).

Definition read_process (p : Z) : ProcProg (result ProcessError ProcessRecord) :=
  try! stat := read_bounded (proc_file p "stat") p in
  try! parsed := lift (parse_proc_stat p stat) in
  try! status := read_bounded (proc_file p "status") p in
  try! uid := lift (parse_status_uid p status) in
  let! executable := pcall (PLink (proc_file p "exe")) in
  let! cmdline := read_bounded (proc_file p "cmdline") p in
  let argv_digest := match cmdline with
                     | Ok (b :: l) => Some (sha256_hex (b :: l))
                     | _ => None
                     end in
  try! final_stat := read_bounded (proc_file p "stat") p in
  try! final := lift (parse_proc_stat p final_stat) in
  Ret (if negb (ps_start_time final =? ps_start_time parsed) then Err (Process.Disappeared p)
       else Ok (mkProcess p (ps_parent_pid parsed) (ps_start_time parsed) executable argv_digest
                  (Some uid) (Some (ps_process_group_id parsed)) (Some (ps_session_leader_id parsed))
                  (ps_tty parsed))).

Fixpoint collect_from (index : nat) (names : list (result string string))
    : result ProcessError (list Z) :=
  match names with
  | [] => Ok []
  | name :: names =>
      if (MAX_PROC_ENTRIES <=? index)%nat
      then Err (Process.IncompleteEnumeration "proc entry limit 32768 exceeded")
      else
        let? n := map_err (λ e, Process.IncompleteEnumeration
                                  ("proc directory entry failed: " +:+ e)) name in
        let? rest := collect_from (S index) names in
        Ok (match parse_unsigned u32_max n with Some p => p :: rest | None => rest end)
  end.
Definition collect_proc_pid_names := collect_from 0.

Definition linux_processes_on_tty (tty : string) : ProcProg (result ProcessError (list ProcessRecord)) :=
  let! entries := pcall PDir in
  try! names := lift (map_err Process.Inspection entries) in
  try! pids := lift (collect_proc_pid_names names) in
  read_on_tty read_process tty pids.
End Inspector.

(** ** The command name cannot forge fields *)
Lemma after_close_none l : 41 ∉ l → after_close l = None.
Proof.
  induction l as [|b l IH]; intros Hn; [done|]. cbn. rewrite IH by set_solver.
  by rewrite (proj2 (Z.eqb_neq b 41)) by set_solver.
Qed.

Lemma after_close_last pre t : 41 ∉ t → after_close (pre ++ 41 :: 32 :: t) = Some t.
Proof.
  intros Hn. induction pre as [|b pre IH]; cbn [app].
  - cbn. rewrite (after_close_none t Hn). done.
  - cbn. cbn in IH. by rewrite IH.
Qed.

Definition is_word (w : list Z) : Prop := w ≠ [] ∧ Forall (λ b, is_ws b = false) w.

Lemma words_from_word cur w l :
  Forall (λ b, is_ws b = false) w → words_from cur (w ++ l) = words_from (reverse w ++ cur) l.
Proof.
  revert cur. induction w as [|b w IH]; intros cur Hw; [done|].
  apply Forall_cons in Hw as [Hb Hw]. cbn [app words_from]. rewrite Hb, IH by done.
  by rewrite reverse_cons, <- app_assoc.
Qed.

Lemma words_cons w b l : is_word w → is_ws b = true → words (w ++ b :: l) = w :: words l.
Proof.
  intros [Hne Hw] Hb. unfold words. rewrite words_from_word, app_nil_r by done.
  cbn [words_from]. rewrite Hb, bool_decide_eq_false_2, reverse_involutive; [done|].
  intros He. apply Hne. by rewrite <- (reverse_involutive w), He.
Qed.

Lemma words_join ws : Forall is_word ws → words (join_with [32] ws ++ [10]) = ws.
Proof.
  induction 1 as [|w ws Hw Hws IH]; [done|]. destruct ws as [|w' ws].
  - cbn [join_with]. by rewrite words_cons.
  - change (join_with [32] (w :: w' :: ws)) with (w ++ 32 :: join_with [32] (w' :: ws)).
    rewrite <- app_assoc. cbn [app]. by rewrite words_cons, IH.
Qed.

(** The line the kernel prints: the name in parentheses, then the fields. *)
Definition kernel_stat (p : Z) (comm : list Z) (fields : list (list Z)) : list Z :=
  (byte_list (pretty p) ++ [32; 40] ++ comm) ++ [41; 32] ++ join_with [32] fields ++ [10].

(** ** Device names *)
Ltac mask_bits :=
  rewrite Z.ldiff_spec, !Z.testbit_ones_nonneg by lia;
  repeat match goal with |- context [Z.ltb ?a ?b] => destruct (Z.ltb_spec a b) end; try lia; cbn;
  rewrite ?andb_true_r, ?andb_false_r, ?orb_false_r; reflexivity.

Lemma dev_major_bit d n : 0 ≤ n →
  Z.testbit (dev_major d) n
  = if n <? 12 then Z.testbit d (n + 8) else if n <? 32 then Z.testbit d (n + 32) else false.
Proof.
  intros Hn. unfold dev_major. rewrite Z.lor_spec, !Z.land_spec, !Z.shiftr_spec by lia.
  change 4095 with (Z.ones 12). change 4294963200 with (Z.ldiff (Z.ones 32) (Z.ones 12)). mask_bits.
Qed.

Lemma dev_minor_bit d n : 0 ≤ n →
  Z.testbit (dev_minor d) n
  = if n <? 8 then Z.testbit d n else if n <? 32 then Z.testbit d (n + 12) else false.
Proof.
  intros Hn. unfold dev_minor. rewrite Z.lor_spec, !Z.land_spec, !Z.shiftr_spec by lia.
  change 255 with (Z.ones 8). change 4294967040 with (Z.ldiff (Z.ones 32) (Z.ones 8)). mask_bits.
Qed.

(** The bits of a device are the bits of its numbers. *)
Lemma device_bit d n : 0 ≤ n < 64 →
  Z.testbit d n = if n <? 8 then Z.testbit (dev_minor d) n
                  else if n <? 20 then Z.testbit (dev_major d) (n - 8)
                  else if n <? 44 then Z.testbit (dev_minor d) (n - 12)
                  else Z.testbit (dev_major d) (n - 32).
Proof.
  intros Hn.
  destruct (Z.ltb_spec n 8); [|destruct (Z.ltb_spec n 20); [|destruct (Z.ltb_spec n 44)]];
    rewrite ?dev_minor_bit, ?dev_major_bit by lia;
    repeat match goal with |- context [Z.ltb ?a ?b] => destruct (Z.ltb_spec a b); try lia end;
    f_equal; lia.
Qed.

Lemma device_numbers_inj d d' :
  0 ≤ d ≤ u64_max → 0 ≤ d' ≤ u64_max → dev_major d = dev_major d' → dev_minor d = dev_minor d' → d = d'.
Proof.
  unfold u64_max. intros H H' Hma Hmi. apply Z.bits_inj'. intros n Hn.
  destruct (Z.lt_ge_cases n 64).
  - by rewrite (device_bit d n), (device_bit d' n), Hma, Hmi by lia.
  - rewrite <- (Z.mod_small d (2 ^ 64)), <- (Z.mod_small d' (2 ^ 64)) by lia.
    by rewrite !Z.mod_pow2_bits_high by lia.
Qed.

Lemma byte_list_app a b : byte_list (a +:+ b) = byte_list a ++ byte_list b.
Proof.
  induction a as [|c a IH]; [done|]. change (byte_val c :: byte_list (a +:+ b) = byte_val c :: byte_list a ++ byte_list b).
  by rewrite IH.
Qed.

Lemma pretty_N_go_digits (x : N) s :
  Forall (λ b, 48 ≤ b ≤ 57) (byte_list s) → Forall (λ b, 48 ≤ b ≤ 57) (byte_list (pretty_N_go x s)).
Proof.
  revert s. induction (N.lt_wf_0 x) as [x _ IH]; intros s Hs.
  destruct (decide (0 < x)%N) as [Hx|Hx].
  - rewrite pretty_N_go_step by done. apply IH; [apply N.div_lt; lia|]. constructor; [|done].
    pose proof (digit_val_pretty (x `mod` 10) ltac:(apply N.mod_lt; lia)) as Hd.
    unfold digit_val, is_ascii_digit in Hd. cbn. destruct (_ && _) eqn:E; [|done].
    apply andb_true_iff in E as [?%Z.leb_le ?%Z.leb_le]. lia.
  - assert (x = 0%N) as -> by lia. by rewrite pretty_N_go_0.
Qed.

Lemma pretty_digits z : 0 ≤ z → Forall (λ b, 48 ≤ b ≤ 57) (byte_list (pretty z)).
Proof.
  intros Hz. assert (pretty z = pretty (Z.to_N z)) as ->.
  { unfold pretty at 1. destruct z as [|p|p]; [done|done|lia]. }
  unfold pretty, pretty_N. case_decide.
  { change (byte_list "0") with [48]. apply Forall_singleton. lia. }
  apply pretty_N_go_digits. constructor.
Qed.

Lemma pretty_inj_nonneg a b : 0 ≤ a → 0 ≤ b → pretty a = pretty b → a = b.
Proof.
  intros Ha Hb He. pose proof (proj1 (decimal_pretty a Ha)) as H1.
  pose proof (proj1 (decimal_pretty b Hb)) as H2. rewrite He in H1. congruence.
Qed.

Lemma dev_major_nonneg d : 0 ≤ d → 0 ≤ dev_major d.
Proof.
  intros. unfold dev_major. apply Z.lor_nonneg. split; apply Z.land_nonneg; right; lia.
Qed.
Lemma dev_minor_nonneg d : 0 ≤ d → 0 ≤ dev_minor d.
Proof.
  intros. unfold dev_minor. apply Z.lor_nonneg. split; apply Z.land_nonneg; right; lia.
Qed.

Lemma digits_no_colon l : Forall (λ b, 48 ≤ b ≤ 57) l → 58 ∉ l.
Proof. intros Hl Hin. rewrite Forall_forall in Hl. specialize (Hl _ Hin). lia. Qed.

Lemma device_name_split d :
  0 ≤ d →
  split_on 58 (byte_list (canonical_device d))
  = [byte_list "dev"; byte_list (pretty (dev_major d)); byte_list (pretty (dev_minor d))].
Proof.
  intros Hd. unfold canonical_device. rewrite !byte_list_app.
  change (byte_list "dev:") with (byte_list "dev" ++ [58]). rewrite <- app_assoc.
  apply (split_join 58 [byte_list "dev"; byte_list (pretty (dev_major d));
                        byte_list (pretty (dev_minor d))]); [done|].
  apply Forall_cons; split; [by apply (bool_decide_unpack _); vm_compute|].
  repeat (apply Forall_cons; split); [..|by apply Forall_nil]; apply digits_no_colon, pretty_digits;
    auto using dev_major_nonneg, dev_minor_nonneg.
Qed.

(** The name of a device determines it. *)
Lemma canonical_device_inj d d' :
  0 ≤ d ≤ u64_max → 0 ≤ d' ≤ u64_max → canonical_device d = canonical_device d' → d = d'.
Proof.
  intros Hd Hd' He. pose proof (device_name_split d ltac:(lia)) as H.
  rewrite He, device_name_split in H by lia. injection H as Hma Hmi.
  apply (f_equal string_of_bytes) in Hma, Hmi. rewrite !string_of_byte_list in Hma, Hmi.
  apply pretty_inj_nonneg in Hma, Hmi; auto using dev_major_nonneg, dev_minor_nonneg with lia;
    try (apply dev_major_nonneg || apply dev_minor_nonneg; lia).
  symmetry in Hma, Hmi. by apply device_numbers_inj.
Qed.

(** ** The kernel's line, parsed *)

(** The fields after the command name: state, parent, group, session, terminal, fourteen
    others, the start time and the rest. *)
Definition stat_fields (state : list Z) (parent group leader tty : Z) (mid : list (list Z))
    (start : Z) (rest : list (list Z)) : list (list Z) :=
  [state; byte_list (pretty parent); byte_list (pretty group); byte_list (pretty leader);
   byte_list (pretty tty)] ++ mid ++ byte_list (pretty start) :: rest.

Definition stat_word (w : list Z) : Prop := is_word w ∧ 41 ∉ w.

Lemma pretty_word z : 0 ≤ z → stat_word (byte_list (pretty z)).
Proof.
  intros Hz. pose proof (pretty_digits z Hz) as Hd. split; [split|].
  - intros He. apply (f_equal string_of_bytes) in He. rewrite string_of_byte_list in He.
    by destruct (decimal_pretty z Hz).
  - eapply Forall_impl; [done|]. cbn. intros b Hb. unfold is_ws.
    repeat match goal with |- context [Z.eqb b ?a] => destruct (Z.eqb_spec b a); [lia|] end. done.
  - intros Hin. rewrite Forall_forall in Hd. specialize (Hd _ Hin). lia.
Qed.

Lemma not_in_join c ws : c ≠ 32 → c ≠ 10 → Forall (λ w, c ∉ w) ws → c ∉ join_with [32] ws ++ [10].
Proof.
  intros H32 H10. induction 1 as [|w ws Hw Hws IH]; [set_solver|]. destruct ws as [|w' ws].
  - cbn [join_with]. set_solver.
  - change (join_with [32] (w :: w' :: ws)) with (w ++ 32 :: join_with [32] (w' :: ws)). set_solver.
Qed.

Lemma words_kernel_stat p comm fields :
  Forall stat_word fields → words <$> after_close (kernel_stat p comm fields) = Some fields.
Proof.
  intros Hw. unfold kernel_stat. cbn [app]. rewrite after_close_last.
  - cbn. by rewrite words_join by (eapply Forall_impl; [done|]; by intros ? []).
  - apply not_in_join; [done..|]. eapply Forall_impl; [done|]. by intros ? [].
Qed.

Lemma word_at_pretty ws i (z : Z) : ws !! i = Some (byte_list (pretty z)) → word_at ws i = pretty z.
Proof. intros Hi. unfold word_at. rewrite Hi. apply string_of_byte_list. Qed.

Lemma parse_field_pretty p m z name ws i :
  0 ≤ z ≤ m → ws !! i = Some (byte_list (pretty z)) →
  parse_field p (parse_unsigned m) (word_at ws i) name = Ok z.
Proof.
  intros Hz Hi. unfold parse_field. by rewrite (word_at_pretty ws i z Hi), parse_unsigned_pretty.
Qed.

Lemma parse_signed_pretty m z : 0 ≤ z ≤ m → parse_signed m (pretty z) = Some z.
Proof.
  intros Hz. pose proof (parse_unsigned_pretty m z Hz) as H. revert H.
  unfold parse_signed, parse_unsigned. pose proof (pretty_digits z ltac:(lia)) as Hd.
  destruct (pretty z) as [|c s]; [done|]. apply Forall_cons in Hd as [Hc _].
  assert (∀ v, within 0 m v = Some z → within (- m - 1) m v = Some z) as Hwi.
  { intros v [-> Hv]%within_Some. unfold within.
    by rewrite (proj2 (Z.leb_le (- m - 1) v)), (proj2 (Z.leb_le v m)) by lia. }
  destruct c as [[] [] [] [] [] [] [] []]; try (exfalso; vm_compute in Hc; intuition congruence);
    intros (v & Hv & H)%bind_Some; apply bind_Some; exists v; auto.
Qed.

(** C21: Parsing the kernel's [/proc/<pid>/stat] line inverts its printing.  The parent,
    the group, the session, the terminal and the start time read are the ones the kernel
    printed, whatever text the command name is - parentheses, blanks, newlines, a forged
    tail of fields.  A line beyond the size limit, and a line that is not UTF-8 because its
    command name is not, are refused as malformed, whatever else they hold. *)
Theorem proc_stat_roundtrip p comm state parent group leader tty mid start rest :
  let line := kernel_stat p comm (stat_fields state parent group leader tty mid start rest) in
  0 ≤ parent ≤ u32_max → 0 ≤ group ≤ u32_max → 0 ≤ leader ≤ u32_max → 0 ≤ tty ≤ i64_max →
  0 ≤ start ≤ u64_max → length mid = 14%nat → Forall stat_word (state :: mid ++ rest) →
  parse_proc_stat p line
  = if 65536 <? Z.of_nat (length line) then Err (malformed p "proc field exceeds size limit")
    else if utf8_ok line then Ok (mkStat parent group leader (canonical_tty tty) start)
    else Err (malformed p "proc field is not UTF-8").
Proof.
  intros line Hp Hg Hl Ht Hs Hm Hw.
  apply Forall_cons in Hw as [Hst [Hmid Hrest]%Forall_app].
  assert (Forall stat_word (stat_fields state parent group leader tty mid start rest)) as Hall.
  { unfold stat_fields. repeat (apply Forall_cons; split); try done; try (apply pretty_word; lia).
    apply Forall_app; split; [done|]. apply Forall_cons; split; [apply pretty_word; lia|done]. }
  pose proof (words_kernel_stat p comm _ Hall) as Hwords. fold line in Hwords.
  unfold parse_proc_stat, bounded_utf8. change MAX_PROC_FILE_BYTES with 65536.
  destruct (_ <? _); [done|]. destruct (utf8_ok line); [|done]. cbn [rbind].
  destruct (after_close line) as [tail|]; [|done]. injection Hwords as Hwords. cbn [ok_or rbind].
  rewrite Hwords. set (fields := stat_fields _ _ _ _ _ _ _ _) in *.
  assert (fields !! 19%nat = Some (byte_list (pretty start))) as H19.
  { unfold fields, stat_fields. rewrite lookup_app_r by (cbn; lia). rewrite lookup_app_r by (cbn; lia).
    cbn. by rewrite Hm. }
  rewrite (proj2 (Nat.leb_gt _ _)) by (apply lookup_lt_Some in H19; lia). cbn [fail_if rbind].
  rewrite !(parse_field_pretty p u32_max parent "parent PID" fields 1),
    (parse_field_pretty p u32_max group "process group" fields 2),
    (parse_field_pretty p u32_max leader "session leader" fields 3) by done. cbn [rbind].
  rewrite (parse_field_pretty p u64_max start "start time" fields 19) by done.
  unfold parse_field. rewrite (word_at_pretty fields 4 tty) by done. by rewrite parse_signed_pretty.
Qed.

(** A process renamed to imitate the fields of another, and one whose name is a lone
    continuation byte. *)
Lemma proc_stat_roundtrip_witness :
  let fields := stat_fields (byte_list "R") 7 9 9 34816 (replicate 14 (byte_list "0")) 5150 [] in
  parse_proc_stat 42 (kernel_stat 42 (byte_list "x) S 1 1 1 0 ") fields)
  = Ok (mkStat 7 9 9 (Some "dev:136:0") 5150)
  ∧ parse_proc_stat 42 (kernel_stat 42 [128] fields)
    = Err (malformed 42 "proc field is not UTF-8").
Proof.
  intros fields. split.
  - refine (eq_trans (proc_stat_roundtrip 42 (byte_list "x) S 1 1 1 0 ") (byte_list "R") 7 9 9 34816
      (replicate 14 (byte_list "0")) 5150 [] _ _ _ _ _ _ _) _); try (vm_compute; intuition congruence).
    unfold stat_word, is_word. apply (bool_decide_unpack _). by vm_compute.
  - refine (eq_trans (proc_stat_roundtrip 42 [128] (byte_list "R") 7 9 9 34816
      (replicate 14 (byte_list "0")) 5150 [] _ _ _ _ _ _ _) _); try (vm_compute; intuition congruence).
    unfold stat_word, is_word. apply (bool_decide_unpack _). by vm_compute.
Defined.

(** ** Inspections *)

(** What the enumeration makes of the outcomes of the single inspections. *)
Definition on_tty (tty : string) (outcome : result ProcessError ProcessRecord) : option ProcessRecord :=
  match outcome with
  | Ok r => if opt_str_eqb (pr_tty r) (Some tty) then Some r else None
  | Err _ => None
  end.
Definition gone (outcome : result ProcessError ProcessRecord) : Prop :=
  match outcome with Ok _ | Err (Process.Disappeared _) => True | Err _ => False end.

Lemma read_on_tty_traces {Op} {An : Op → Type} (inspection : Z → Prog An (result ProcessError ProcessRecord))
    tty pids tr l :
  traces (read_on_tty inspection tty pids) tr (Ok l) →
  ∃ outcomes, Forall2 (λ p o, ∃ tr', traces (inspection p) tr' o) pids outcomes
    ∧ Forall gone outcomes ∧ l = omap (on_tty tty) outcomes.
Proof.
  revert tr l. induction pids as [|p pids IH]; intros tr l; cbn [read_on_tty].
  { intros [-> [= ->]]. by exists []. }
  intros (tr1 & tr2 & o & -> & H1 & H2)%traces_bind.
  assert (∃ tail tr', traces (read_on_tty inspection tty pids) tr' (Ok tail) ∧ gone o
            ∧ l = match on_tty tty o with Some r => r :: tail | None => tail end)
    as (tail & tr' & Ht & Hg & ->).
  { destruct o as [r|e].
    - apply traces_try in H2 as [(? & ? & _)|(tra & trb & tail & -> & Ht & [-> [= ->]])]; [done|].
      exists tail, tra. cbn. by destruct (opt_str_eqb _ _).
    - destruct e; try by destruct H2. by exists l, tr2. }
  destruct (IH _ _ Ht) as (os & Hos & Hgs & ->). exists (o :: os).
  split; [constructor; eauto|]. split; [by constructor|]. done.
Qed.

Section Inspections.
Context `{Sha256Hex} (root : string).

Lemma read_bounded_traces path p tr r :
  traces (read_bounded path p) tr r → ∃ x, tr = [existT (PRead path) x]
    ∧ ∀ l, r = Ok l → ∃ l', x = Ok l' ∧ l = take (Z.to_nat (MAX_PROC_FILE_BYTES + 1)) l'.
Proof.
  unfold read_bounded. rewrite traces_bind. intros (tr1 & tr2 & x & -> & ->%traces_call & [-> ->]).
  exists x. split; [done|]. intros l. destruct x as [l'|]; [|done]. cbn [map_err rbind].
  case_bool; [done|]. intros [= <-]. eauto.
Qed.

(** An inspection that succeeds describes one process: the first and the last thing it
    reads is the process's own [stat], both parse, and both carry the start time of the
    record, so the identifier was not reused while the user, the executable and the
    arguments were read in between; the record's parent, group, session and terminal are
    those of the first line. *)
Theorem inspection_stable p tr r :
  traces (read_process root p) tr (Ok r) →
  ∃ first last mid s f, tr = existT (PRead (proc_file root p "stat")) (Ok first) :: mid
      ++ [existT (PRead (proc_file root p "stat")) (Ok last)]
    ∧ parse_proc_stat p (take (Z.to_nat (MAX_PROC_FILE_BYTES + 1)) first) = Ok s
    ∧ parse_proc_stat p (take (Z.to_nat (MAX_PROC_FILE_BYTES + 1)) last) = Ok f
    ∧ ps_start_time f = ps_start_time s
    ∧ pr_pid r = p ∧ pr_start_time r = ps_start_time s ∧ pr_parent_pid r = ps_parent_pid s
    ∧ pr_process_group_id r = Some (ps_process_group_id s)
    ∧ pr_session_leader_id r = Some (ps_session_leader_id s) ∧ pr_tty r = ps_tty s.
Proof.
  unfold read_process.
  intros [(? & ? & _)|(tr1 & tr2 & stat & -> & (x1 & -> & H1)%read_bounded_traces & Hk)]%traces_try; [done|].
  destruct (H1 _ eq_refl) as (first & -> & ->). clear H1.
  apply traces_try in Hk as [(? & ? & _)|(tra & tr3 & s & -> & [-> Hs] & Hk)]; [done|].
  apply traces_try in Hk as [(? & ? & _)|(trb & tr4 & status & -> & _ & Hk)]; [done|].
  apply traces_try in Hk as [(? & ? & _)|(trc & tr5 & u & -> & _ & Hk)]; [done|].
  apply traces_bind in Hk as (trd & tr6 & exe & -> & _ & Hk).
  apply traces_bind in Hk as (tre & tr7 & cmd & -> & _ & Hk).
  apply traces_try in Hk as [(? & ? & _)|(trf & tr8 & final & -> & (x2 & -> & H2)%read_bounded_traces & Hk)]; [done|].
  destruct (H2 _ eq_refl) as (last & -> & ->). clear H2.
  apply traces_try in Hk as [(? & ? & _)|(trg & tr9 & f & -> & [-> Hf] & [-> Hk])]; [done|].
  destruct (Z.eqb_spec (ps_start_time f) (ps_start_time s)); cbn in Hk; [|done]. injection Hk as ->.
  exists first, last, (trb ++ trc ++ trd ++ tre), s, f.
  rewrite !app_nil_r, <- !app_assoc. done.
Qed.

(** When the enumeration of a terminal's processes succeeds it left nothing out: every
    numeric entry of the process directory was inspected once, each inspection succeeded or
    found the process gone, and the result is exactly the inspected processes whose
    terminal is the given one, in directory order. *)
Theorem tty_enumeration_complete tty tr l :
  traces (linux_processes_on_tty root tty) tr (Ok l) →
  ∃ names pids outcomes tr', tr = existT PDir (Ok names) :: tr'
    ∧ collect_proc_pid_names names = Ok pids
    ∧ Forall2 (λ p o, ∃ tr', traces (read_process root p) tr' o) pids outcomes
    ∧ Forall gone outcomes ∧ l = omap (on_tty tty) outcomes.
Proof.
  unfold linux_processes_on_tty.
  intros (tr1 & tr2 & x & -> & ->%traces_call & Hk)%traces_bind.
  apply traces_try in Hk as [(? & ? & _)|(tra & trb & names & -> & [-> Hn] & Hk)]; [done|].
  apply traces_try in Hk as [(? & ? & _)|(trc & trd & pids & -> & [-> Hp] & Hk)]; [done|].
  destruct x as [names'|]; [|done]. injection Hn as <-.
  destruct (read_on_tty_traces _ _ _ _ _ Hk) as (os & ?). by exists names, pids, os, trd.
Qed.
End Inspections.

(** ** A process directory with an agent, a shell and a process that has just exited *)
Definition demo_stat (p : Z) (comm : string) (tty : Z) : list Z :=
  kernel_stat p (byte_list comm)
    (stat_fields (byte_list "S") 7 9 9 tty (replicate 14 (byte_list "0")) (1000 + p) []).

Definition demo_proc (o : ProcOp) (s : unit) : unit * ProcAns o :=
  (s, match o return ProcAns o with
      | PRead path =>
          if one_of ["/proc/10/stat"] path then Ok (demo_stat 10 "sh" 34816)
          else if one_of ["/proc/42/stat"] path then Ok (demo_stat 42 "x) S 1 1 1 0 " 34817)
          else if one_of ["/proc/10/status"; "/proc/42/status"] path
          then Ok (byte_list "Name:" ++ [10] ++ byte_list "Uid: 1000 1000 1000 1000" ++ [10])
          else if one_of ["/proc/10/cmdline"; "/proc/42/cmdline"] path then Ok (byte_list "claude")
          else Err NotFound
      | PLink path => Some "/usr/bin/claude"
      | PDir => Ok [Ok "self"; Ok "10"; Ok "11"; Ok "42"]
      end).

Definition demo_record : ProcessRecord :=
  mkProcess 42 7 1042 (Some "/usr/bin/claude") (Some "claude") (Some 1000) (Some 9) (Some 9)
    (Some "dev:136:1").

Lemma inspection_stable_witness :
  let sha : Sha256Hex := λ l, string_of_bytes l in
  let run := converse demo_proc (read_process "/proc" 42) tt in
  run.2 = Ok demo_record
  ∧ ∃ first last mid, run.1 = existT (PRead "/proc/42/stat") (Ok first) :: mid
        ++ [existT (PRead "/proc/42/stat") (Ok last)].
Proof.
  intros sha run. assert (run.2 = Ok demo_record) as E by (vm_compute; reflexivity).
  split; [exact E|].
  pose proof (converse_traces demo_proc (read_process "/proc" 42) tt) as Ht. fold run in Ht.
  rewrite E in Ht.
  destruct (inspection_stable "/proc" 42 run.1 demo_record Ht) as (first & last & mid & s & f & Htr & _).
  exists first, last, mid. exact Htr.
Defined.

Lemma tty_enumeration_complete_witness :
  let sha : Sha256Hex := λ l, string_of_bytes l in
  let run := converse demo_proc (linux_processes_on_tty "/proc" "dev:136:1") tt in
  run.2 = Ok [demo_record]
  ∧ ∃ outcomes, Forall gone outcomes ∧ [demo_record] = omap (on_tty "dev:136:1") outcomes.
Proof.
  intros sha run. assert (run.2 = Ok [demo_record]) as E by (vm_compute; reflexivity).
  split; [exact E|].
  pose proof (converse_traces demo_proc (linux_processes_on_tty "/proc" "dev:136:1") tt) as Ht.
  fold run in Ht. rewrite E in Ht.
  destruct (tty_enumeration_complete "/proc" "dev:136:1" run.1 [demo_record] Ht)
    as (names & pids & os & tr' & _ & _ & _ & Hg & Hl).
  exists os. exact (conj Hg Hl).
Defined.
