(* ===== verification/Tmux.v ===== *)
(** * The tmux driver (src/src/mux/tmux.rs)

    Selectors, the command lines of the driver, the metadata record of
    [display-message] with its octal escapes, bounded child processes, truncation of
    captures, and the operations of the [Multiplexer] trait as programs over the [tmux]
    executable, the process inspector and the composer guard. *)
From S2P Require Import Prelude Text Utf8 ParseInt Action Event Identity Process Actuator Effects.
From S2P Require Import Runtime Mux.
From stdpp Require Import pretty.

Local Open Scope Z_scope.

Definition FIELD_SEPARATOR : Z := 31.
Definition OUTPUT_LIMIT : Z := 256 * 1024.
Definition UTF8_BOUNDARY_LOOKAHEAD : Z := 3.
Definition OUTPUT_OVERFLOW_SENTINEL : Z := 1.
Definition i32_max : Z := 2147483647.

Definition metadata_formats : list string :=
  ["#{socket_path}"; "#{session_id}"; "#{session_name}"; "#{window_id}"; "#{window_name}";
   "#{window_index}"; "#{pane_id}"; "#{pane_index}"; "#{pane_tty}"; "#{pane_pid}";
   "#{pane_current_command}"; "#{pane_current_path}"; "#{pane_dead}"; "#{pane_dead_status}";
   "#{pane_start_time}"; "#{pane_dead_time}"].

Definition METADATA_FORMAT : string :=
  string_of_bytes (join_with [FIELD_SEPARATOR] (byte_list <$> metadata_formats)).

(** ** Selectors and servers *)
Record TmuxSelector : Type := mkTmuxSelector { selector_str : string }.

Definition selector_parse (value : string) : result MuxError TmuxSelector :=
  if is_empty value || starts_with "-" value || has_control value
  then Err (MuxErr.InvalidSelector (escape_default value))
  else Ok (mkTmuxSelector value).

Inductive Server : Type := DefaultServer | SocketName (name : string) | SocketPath (path : string).

Record Tmux : Type := mkTmux { tx_server : Server; tx_timeout : Z }.

Definition tmux_name (k : SymbolicKey) : string :=
  match k with
  | KEnter => "Enter" | KEscape => "Escape" | KUp => "Up" | KDown => "Down"
  | KLeft => "Left" | KRight => "Right" | KTab => "Tab" | KBackspace => "BSpace"
  end.

Definition server_args (t : Tmux) : list string :=
  match tx_server t with
  | DefaultServer => []
  | SocketName name => ["-L"; name]
  | SocketPath path => ["-S"; path]
  end.

Definition validate_argument (value : string) : result MuxError unit :=
  fail_if (existsb (λ c, (c =? 0) || (c =? 10) || (c =? 13)) (chars value))
    (MuxErr.InvalidSelector (escape_default value)).

Definition validate_literal (value : string) : result MuxError unit :=
  fail_if (has_control value)
    (MuxErr.InvalidSelector "literal text contains a control character").

(** The [TMUX] variable is [socket,pid,session]. *)
Definition from_environment (var : option string) (timeout : Z) : result MuxError Tmux :=
  let? tmux := ok_or var (MuxErr.Command "TMUX is not set") in
  let socket := string_of_bytes (default [] (head (split_on 44 (byte_list tmux)))) in
  let? _ := fail_if (is_empty socket) (MuxErr.Malformed "TMUX has no socket path") in
  let? _ := validate_argument socket in
  Ok (mkTmux (SocketPath socket) timeout).

Definition for_socket_name (name : string) (timeout : Z) : Tmux := mkTmux (SocketName name) timeout.
Definition for_socket_path (path : string) (timeout : Z) : Tmux := mkTmux (SocketPath path) timeout.
Definition default_server (timeout : Z) : Tmux := mkTmux DefaultServer timeout.

(** ** Command lines *)
Definition query_arguments (target : string) : list string :=
  ["display-message"; "-p"; "-t"; target; METADATA_FORMAT].
Definition capture_arguments (pane start_line : string) : list string :=
  ["capture-pane"; "-p"; "-J"; "-S"; start_line; "-t"; pane].
Definition literal_arguments (pane text : string) : list string :=
  ["send-keys"; "-t"; pane; "-l"; "--"; text].
Definition symbolic_arguments (pane : string) (key : SymbolicKey) : list string :=
  ["send-keys"; "-t"; pane; tmux_name key].

(** ** Escapes of [display-message] *)
Definition is_octal (b : Z) : bool := in_range 48 55 b.

(** [out.push(code as u8)] unless the code exceeds a byte. *)
Definition emit (code : Z) (rest : result MuxError (list Z)) : result MuxError (list Z) :=
  if 255 <? code then Err (MuxErr.Malformed "tmux octal escape out of byte range")
  else let? out := rest in Ok (code :: out).

(** [(code << 3) | (digit - '0')] on [u16]. *)
Definition octal_step (code digit : Z) : Z := Z.lor (Z.shiftl code 3) (digit - 48).

Fixpoint decode_bytes (l : list Z) : result MuxError (list Z) :=
  match l with
  | [] => Ok []
  | b :: l1 =>
      if negb (b =? 92) then emit b (decode_bytes l1)
      else
        match l1 with
        | [] => Ok [b]
        | next :: l2 =>
            if next =? 92 then emit 92 (decode_bytes l2)
            else if negb (is_octal next) then emit b (decode_bytes l1)
            else
              let c1 := octal_step 0 next in
              match l2 with
              | [] => emit c1 (Ok [])
              | d2 :: l3 =>
                  if negb (is_octal d2) then emit c1 (decode_bytes l2)
                  else
                    let c2 := octal_step c1 d2 in
                    match l3 with
                    | [] => emit c2 (Ok [])
                    | d3 :: l4 =>
                        if negb (is_octal d3) then emit c2 (decode_bytes l3)
                        else emit (octal_step c2 d3) (decode_bytes l4)
                    end
              end
        end
  end.

Definition decode_tmux_display_escapes (value : list Z) : result MuxError (list Z) :=
  let? out := decode_bytes value in
  if utf8_ok out then Ok out else Err MuxErr.InvalidUtf8.

(** ** Metadata *)
Definition field_at (fields : list (list Z)) (i : nat) : string :=
  string_of_bytes (default [] (fields !! i)).

Definition number_field (fields : list (list Z)) (i : nat) (name : string) : result MuxError Z :=
  ok_or (parse_unsigned u32_max (field_at fields i)) (MuxErr.Malformed ("invalid " +:+ name)).

Definition optional_field (parse : string → option Z) (fields : list (list Z)) (i : nat)
    : result MuxError (option Z) :=
  let f := field_at fields i in
  if is_empty f then Ok None
  else
    let? v := ok_or (parse f)
                (MuxErr.Malformed ("invalid optional numeric field " +:+ pretty (Z.of_nat i))) in
    Ok (Some v).
Definition optional_i32 := optional_field (parse_signed i32_max).
Definition optional_u64 := optional_field (parse_unsigned u64_max).

Fixpoint require_fields (fields : list (list Z)) (idxs : list nat) : result MuxError unit :=
  match idxs with
  | [] => Ok tt
  | i :: idxs =>
      if is_empty (field_at fields i)
      then Err (MuxErr.Malformed ("required field " +:+ pretty (Z.of_nat i) +:+ " is empty"))
      else require_fields fields idxs
  end.

Definition dead_marker (s : string) : result MuxError bool :=
  if String.eqb s "0" then Ok false
  else if String.eqb s "1" then Ok true
  else Err (MuxErr.Malformed "pane dead marker must be 0 or 1").

(** What [parse_metadata] checks before it inspects the process: the fields, the dead
    marker and the PID. *)
Definition metadata_fields (value : list Z) : result MuxError (list (list Z) * bool * Z) :=
  let? decoded := decode_tmux_display_escapes value in
  let fields := split_on FIELD_SEPARATOR decoded in
  let? _ := fail_if (negb (length fields =? 16)%nat)
              (MuxErr.Malformed ("expected 16 fields, got " +:+ pretty (Z.of_nat (length fields)))) in
  let? _ := require_fields fields [0; 1; 3; 6; 8]%nat in
  let? dead := dead_marker (field_at fields 12) in
  let? p := number_field fields 9 "pane PID" in
  Ok (fields, dead, p).

Definition metadata_identity (fields : list (list Z)) (process : ProcessIdentity) : MuxIdentity :=
  mkMuxIdentity "tmux" (field_at fields 0) (field_at fields 0) (field_at fields 1)
    (field_at fields 3) (field_at fields 6) (field_at fields 8) process.

Definition metadata_info (fields : list (list Z)) (dead : bool) (process : ProcessIdentity)
    : result MuxError PaneInfo :=
  let? window_index := number_field fields 5 "window index" in
  let? pane_index := number_field fields 7 "pane index" in
  let? dead_status := optional_i32 fields 13 in
  let? started_at := optional_u64 fields 14 in
  let? dead_at := optional_u64 fields 15 in
  Ok (mkPaneInfo (metadata_identity fields process) (field_at fields 0) (field_at fields 2)
        (field_at fields 4) window_index pane_index (field_at fields 4) (field_at fields 10)
        (field_at fields 11) dead dead_status started_at dead_at).

(** ** Captures *)

(** Walk back to a character boundary. *)
Fixpoint floor_boundary (l : list Z) (i : nat) : nat :=
  if is_char_boundary l i then i else match i with O => O | S i => floor_boundary l i end.

Definition truncate_capture (output : list Z) (max_bytes : nat)
    : result MuxError (list Z * nat * bool) :=
  let? valid := match from_utf8 output with
                | Utf8Ok => Ok output
                | Utf8Error v None =>
                    if (max_bytes <=? v)%nat && (max_bytes <? length output)%nat
                    then Ok (take v output) else Err MuxErr.InvalidUtf8
                | Utf8Error _ (Some _) => Err MuxErr.InvalidUtf8
                end in
  let? _ := fail_if (negb (utf8_ok valid)) MuxErr.InvalidUtf8 in
  let boundary := floor_boundary valid (Nat.min (length valid) max_bytes) in
  Ok (take boundary valid, boundary, (max_bytes <? length output)%nat).

(** ** Bounded child processes *)

(** The reader thread of one pipe: the reads up to end of file, an error ends it. *)
Fixpoint read_stream (limit : Z) (acc : list Z) (reads : list (result string (list Z)))
    : result string (list Z) :=
  match reads with
  | [] => Ok acc
  | Err e :: _ => Err e
  | Ok chunk :: reads =>
      let acc' :=
        if Z.of_nat (length acc) <=? limit then
          let remaining := saturating_sub (saturating_add u64_max limit OUTPUT_OVERFLOW_SENTINEL)
                             (Z.of_nat (length acc)) in
          acc ++ take (Z.to_nat (Z.min (Z.of_nat (length chunk)) remaining)) chunk
        else acc in
      read_stream limit acc' reads
  end.

(** One round of the wait loop: [try_wait], then the time since the start. *)
Record Poll : Type := mkPoll { pl_status : result string (option bool); pl_elapsed : Z }.

Inductive WaitOutcome : Type := Exited (success : bool) | WaitFailed (m : string) | TimedOut.

Fixpoint wait_loop (fuel : nat) (timeout : Z) (polls : nat → Poll) (i : nat) : option WaitOutcome :=
  match fuel with
  | O => None
  | S fuel =>
      match pl_status (polls i) with
      | Ok (Some success) => Some (Exited success)
      | Err e => Some (WaitFailed e)
      | Ok None =>
          if timeout <=? pl_elapsed (polls i) then Some TimedOut
          else wait_loop fuel timeout polls (S i)
      end
  end.

(** A child: whether it was spawned, how its waits go, what its pipes deliver. *)
Record Child : Type := mkChild {
  ch_spawned : result string unit;
  ch_polls : nat → Poll;
  ch_stdout : list (result string (list Z));
  ch_stderr : list (result string (list Z));
}.

(** [String::from_utf8_lossy(&error).trim()]. *)
Definition lossy_trimmed (l : list Z) : string :=
  string_of_bytes (encode_utf8 (trim (decode_utf8 (from_utf8_lossy l)))).

Definition run_bounded (fuel : nat) (c : Child) (timeout limit : Z)
    : option (result MuxError (list Z)) :=
  match ch_spawned c with
  | Err e => Some (Err (MuxErr.Command e))
  | Ok _ =>
      status ← wait_loop fuel timeout (ch_polls c) 0;
      Some match status with
      | WaitFailed e => Err (MuxErr.Command e)
      | TimedOut => Err MuxErr.Timeout
      | Exited success =>
          let? output := map_err (λ e, MuxErr.Command ("stdout read failed: " +:+ e))
                           (read_stream limit [] (ch_stdout c)) in
          let? error := map_err (λ e, MuxErr.Command ("stderr read failed: " +:+ e))
                          (read_stream limit [] (ch_stderr c)) in
          let? _ := fail_if (negb success) (MuxErr.Command (lossy_trimmed error)) in
          Ok output
      end
  end.

(** ** The operations of the driver *)
Inductive TmuxOp : Type :=
| TRun (args : list string) (limit : Z)
| TInspect (p : Z)
| TObserve (i : MuxIdentity)
| TVar (name : string)
| TElapsed.

Definition TmuxAns (o : TmuxOp) : Type :=
  match o with
  | TRun _ _ => result MuxError (list Z)
  | TInspect _ => result ProcessError ProcessRecord
  | TObserve _ => result MuxError ComposerState
  | TVar _ => option string
  | TElapsed => Z
  end.

Abbreviation TmuxProg := (Prog TmuxAns).
Definition tcall (o : TmuxOp) : TmuxProg (TmuxAns o) := call o.

(** [Debug] of a process identity, which only occurs in error texts. *)
Class DebugText : Type := debug_process : ProcessIdentity → string.

Section Driver.
Context `{DebugText} (t : Tmux).

Definition run (args : list string) (limit : Z) : TmuxProg (result MuxError (list Z)) :=
  tcall (TRun (server_args t ++ args) limit).

Definition parse_metadata (value : list Z) : TmuxProg (result MuxError PaneInfo) :=
  match metadata_fields value with
  | Err e => Ret (Err e)
  | Ok (fields, dead, p) =>
      let! inspected := tcall (TInspect p) in
      Ret (let? r := map_err (λ e, MuxErr.IdentityChanged (process_error_display e)) inspected in
           metadata_info fields dead (record_identity r))
  end.

(** [str::trim_end]. *)
Definition trim_end (l : list Z) : list Z :=
  encode_utf8 (reverse (trim_start (reverse (decode_utf8 l)))).

Definition query (target : string) : TmuxProg (result MuxError PaneInfo) :=
  try! _ := lift (validate_argument target) in
  try! output := run (query_arguments target) OUTPUT_LIMIT in
  if utf8_ok output then parse_metadata (trim_end output) else Ret (Err MuxErr.InvalidUtf8).

Definition query_identity (target : string) : TmuxProg (result MuxError MuxIdentity) :=
  try! info := query target in Ret (Ok (pn_identity info)).

Definition current_target : TmuxProg (result MuxError MuxIdentity) :=
  let! var := tcall (TVar "TMUX_PANE") in
  try! pane := lift (ok_or var (MuxErr.Command "TMUX_PANE is not set")) in
  query_identity pane.

Definition resolve_selector (s : TmuxSelector) : TmuxProg (result MuxError MuxIdentity) :=
  query_identity (selector_str s).

Definition pane_info (i : MuxIdentity) : TmuxProg (result MuxError PaneInfo) := query (mi_pane_id i).

Definition process_matches (expected actual : ProcessIdentity) : bool :=
  bool_decide (expected = actual).

Definition identity_matches (actual expected : MuxIdentity) : bool :=
  String.eqb (mi_provider actual) (mi_provider expected)
  && String.eqb (mi_server actual) (mi_server expected)
  && String.eqb (mi_session_id actual) (mi_session_id expected)
  && String.eqb (mi_window_id actual) (mi_window_id expected)
  && String.eqb (mi_pane_id actual) (mi_pane_id expected)
  && String.eqb (mi_tty actual) (mi_tty expected)
  && process_matches (mi_process expected) (mi_process actual).

Definition validate_identity (expected : MuxIdentity) : TmuxProg (result MuxError unit) :=
  let! found := query_identity (mi_pane_id expected) in
  Ret (let? actual := map_err (λ e, MuxErr.IdentityChanged
             ("pane " +:+ mi_pane_id expected +:+ " is no longer the recorded target: "
              +:+ mux_error_display e)) found in
       if identity_matches actual expected then Ok tt
       else Err (MuxErr.IdentityChanged
              ("expected pane " +:+ mi_pane_id expected +:+ " process "
               +:+ debug_process (mi_process expected) +:+ ", found pane " +:+ mi_pane_id actual
               +:+ " process " +:+ debug_process (mi_process actual)))).

Definition require_safe (i : MuxIdentity) : TmuxProg (result MuxError unit) :=
  try! state := tcall (TObserve i) in
  Ret (match state with
       | Composer.Safe => Ok tt
       | s => Err (MuxErr.IdentityChanged ("composer safety is " +:+ composer_debug s))
       end).

Definition capture_tail (i : MuxIdentity) (lines max_bytes : Z)
    : TmuxProg (result MuxError PaneCapture) :=
  try! _ := validate_identity i in
  if (lines =? 0) || (max_bytes =? 0) then Ret (Ok empty_capture)
  else
    try! output := run (capture_arguments (mi_pane_id i) ("-" +:+ pretty lines))
                     (saturating_add u64_max max_bytes UTF8_BOUNDARY_LOOKAHEAD) in
    try! _ := validate_identity i in
    match truncate_capture output (Z.to_nat max_bytes) with
    | Err e => Ret (Err e)
    | Ok (text, n, truncated) =>
        let! elapsed := tcall TElapsed in
        Ret (Ok (mkCapture text n truncated elapsed))
    end.

(** Two validations around the composer guard, then the one command. *)
Definition send (i : MuxIdentity) (args : list string) : TmuxProg (result MuxError unit) :=
  try! _ := validate_identity i in
  try! _ := require_safe i in
  try! _ := validate_identity i in
  try! _ := run args OUTPUT_LIMIT in
  Ret (Ok tt).

Definition send_literal (i : MuxIdentity) (text : string) : TmuxProg (result MuxError unit) :=
  try! _ := lift (validate_literal text) in
  send i (literal_arguments (mi_pane_id i) text).

Definition send_key (i : MuxIdentity) (key : SymbolicKey) : TmuxProg (result MuxError unit) :=
  send i (symbolic_arguments (mi_pane_id i) key).

Definition tmux : Multiplexer TmuxAns :=
  mkMultiplexer current_target pane_info validate_identity capture_tail send_literal
    default_submit_literal send_key.
End Driver.

(** ** Conversations *)
Section Conversations.
Context `{DebugText} (t : Tmux).

(** A conversation in which the pane was found to be the recorded target. *)
Definition attests (i : MuxIdentity) (tr : list (Ev TmuxAns)) : Prop :=
  traces (validate_identity t i) tr (Ok tt).

(** A [tmux] invocation whose command is [send-keys]. *)
Definition is_input (e : Ev TmuxAns) : Prop :=
  ∃ rest limit x, e = existT (TRun (server_args t ++ "send-keys" :: rest) limit) x.

Lemma run_not_input args limit x :
  head args ≠ Some "send-keys" → ¬ is_input (existT (TRun (server_args t ++ args) limit) x).
Proof.
  intros Hne (rest & lim & y & He). apply (f_equal (@projT1 _ _)) in He. cbn in He.
  injection He as Ha _. apply app_inv_head in Ha. subst args. done.
Qed.

Lemma parse_metadata_traces value tr r :
  traces (parse_metadata value) tr r →
  (tr = [] ∧ ∃ e, r = Err e)
  ∨ ∃ fields dead p x, metadata_fields value = Ok (fields, dead, p) ∧ tr = [existT (TInspect p) x]
      ∧ (∀ info, r = Ok info → ∃ rec, x = Ok rec
            ∧ metadata_info fields dead (record_identity rec) = Ok info).
Proof.
  unfold parse_metadata. destruct (metadata_fields value) as [[[fields dead] p]|e].
  - intros (tr1 & tr2 & x & -> & ->%traces_call & [-> ->])%traces_bind. right.
    exists fields, dead, p, x. split; [done|]. split; [done|].
    intros info (rec & Hx & Hi)%rbind_Ok. apply map_err_Ok in Hx. eauto.
  - intros [-> ->]. eauto.
Qed.

Lemma run_traces args limit tr r :
  traces (run t args limit) tr r ↔ tr = [existT (TRun (server_args t ++ args) limit) r].
Proof. exact (traces_call (TRun (server_args t ++ args) limit) tr r). Qed.

Lemma query_traces target tr r :
  traces (query t target) tr r →
  (tr = [] ∧ ∃ e, r = Err e)
  ∨ ∃ out tr', tr = existT (TRun (server_args t ++ query_arguments target) OUTPUT_LIMIT) out :: tr'
      ∧ ((tr' = [] ∧ ∃ e, r = Err e)
         ∨ ∃ o, out = Ok o ∧ utf8_ok o = true ∧ traces (parse_metadata (trim_end o)) tr' r).
Proof.
  unfold query. rewrite traces_try. intros [(e & -> & [-> _])|(tr1 & tr2 & [] & -> & [-> _] & Hr)];
    [left; eauto|].
  rewrite traces_try in Hr. right. destruct Hr as [(e & -> & H1)|(tr3 & tr4 & o & -> & H1 & Hr)];
    apply run_traces in H1 as ->.
  - exists (Err e), []. split; [done|]. left; eauto.
  - exists (Ok o), tr4. split; [done|]. destruct (utf8_ok o) eqn:E; [right; eauto|].
    destruct Hr as [-> ->]. left; eauto.
Qed.

Lemma query_no_input target tr r e : traces (query t target) tr r → e ∈ tr → ¬ is_input e.
Proof.
  intros [[-> _]|(out & tr' & -> & Hr)]%query_traces; [by intros ?%elem_of_nil|].
  intros [->|He]%elem_of_cons; [by apply run_not_input|].
  destruct Hr as [[-> _]|(o & _ & _ & [[-> _]|(f & d & p & x & _ & -> & _)]%parse_metadata_traces)];
    [by apply elem_of_nil in He..|].
  apply list_elem_of_singleton in He as ->. by intros (? & ? & ? & ?).
Qed.

Lemma validate_traces i tr r :
  traces (validate_identity t i) tr r → ∃ r', traces (query_identity t (mi_pane_id i)) tr r'
    ∧ (r = Ok tt → ∃ actual, r' = Ok actual ∧ identity_matches actual i = true).
Proof.
  unfold validate_identity. intros (tr1 & tr2 & r' & -> & H1 & [-> ->])%traces_bind.
  rewrite app_nil_r. exists r'. split; [done|]. intros (actual & Ha & Hm)%rbind_Ok.
  apply map_err_Ok in Ha. exists actual. case_bool_in Hm; done.
Qed.

Lemma query_identity_traces target tr r :
  traces (query_identity t target) tr r → ∃ r', traces (query t target) tr r'
    ∧ (∀ i, r = Ok i → ∃ info, r' = Ok info ∧ pn_identity info = i).
Proof.
  unfold query_identity. rewrite traces_try.
  intros [(e & -> & H1)|(tr1 & tr2 & info & -> & H1 & [-> ->])].
  - exists (Err e). done.
  - exists (Ok info). rewrite app_nil_r. split; [done|]. intros i [= <-]. eauto.
Qed.

Lemma validate_no_input i tr r e : traces (validate_identity t i) tr r → e ∈ tr → ¬ is_input e.
Proof.
  intros (r' & (r'' & Hq & _)%query_identity_traces & _)%validate_traces. by eapply query_no_input.
Qed.

(** What an attestation consists of: one [display-message] on the recorded pane and one
    inspection of the process it names, whose identity is the recorded one. *)
Definition pane_found (i : MuxIdentity) (tr : list (Ev TmuxAns)) : Prop :=
  ∃ out fields dead p rec,
    tr = [existT (TRun (server_args t ++ query_arguments (mi_pane_id i)) OUTPUT_LIMIT) (Ok out);
          existT (TInspect p) (Ok rec)]
    ∧ metadata_fields (trim_end out) = Ok (fields, dead, p)
    ∧ record_identity rec = mi_process i
    ∧ field_at fields 0 = mi_server i ∧ field_at fields 1 = mi_session_id i
    ∧ field_at fields 3 = mi_window_id i ∧ field_at fields 6 = mi_pane_id i
    ∧ field_at fields 8 = mi_tty i ∧ mi_provider i = "tmux".

Lemma attests_spec i tr : attests i tr → pane_found i tr.
Proof.
  intros (r' & Hq & Hm)%validate_traces. destruct (Hm eq_refl) as (actual & -> & Ha).
  apply query_identity_traces in Hq as (r'' & Hq & Hi).
  destruct (Hi actual eq_refl) as (info & -> & <-).
  apply query_traces in Hq as [[_ [e He]]|(out & tr' & -> & [[_ [e He]]|(o & -> & _ & Hp)])];
    [done..|].
  apply parse_metadata_traces in Hp as [[_ [e He]]|(fields & dead & p & x & Hf & -> & Hx)]; [done|].
  destruct (Hx info eq_refl) as (rec & -> & Hinfo). exists o, fields, dead, p, rec.
  split; [done|]. split; [done|]. unfold identity_matches, process_matches in Ha.
  unfold metadata_info in Hinfo. inv_watch. done.
Qed.

Lemma observe_traces i tr r : traces (tcall (TObserve i)) tr r ↔ tr = [existT (TObserve i) r].
Proof. exact (traces_call (TObserve i) tr r). Qed.

Lemma require_safe_traces i tr r :
  traces (require_safe i) tr r → ∃ x, tr = [existT (TObserve i) x]
    ∧ (r = Ok tt → x = Ok Composer.Safe).
Proof.
  unfold require_safe. rewrite traces_try.
  intros [(e & -> & H1)|(tr1 & tr2 & s & -> & H1 & [-> ->])];
    apply observe_traces in H1 as ->; eexists; (split; [done|]); [done|].
  by destruct s.
Qed.

(** The whole conversation of an input operation: nothing was sent and it failed, or
    the target was attested, the composer found safe, the target attested again, and
    then the command ran, whose answer is the result. *)
Lemma send_traces i args tr r :
  traces (send t i args) tr r →
  (∃ e, r = Err e ∧ ∀ x, x ∈ tr → ¬ is_input x)
  ∨ ∃ seg1 seg2 out, attests i seg1 ∧ attests i seg2
      ∧ tr = seg1 ++ [existT (TObserve i) (Ok Composer.Safe)] ++ seg2
             ++ [existT (TRun (server_args t ++ args) OUTPUT_LIMIT) out]
      ∧ (r = Ok tt ↔ ∃ o, out = Ok o).
Proof.
  unfold send. rewrite traces_try.
  intros [(e & -> & H1)|(seg1 & tr1 & [] & -> & Hs1 & Hr)];
    [left; eauto using validate_no_input|].
  assert (∀ s r', traces (require_safe i) s r' → ∀ x, x ∈ s → ¬ is_input x) as Hno.
  { intros s r' (x & -> & _)%require_safe_traces y ->%list_elem_of_singleton. by intros (? & ? & ? & ?). }
  rewrite traces_try in Hr. destruct Hr as [(e & -> & H2)|(tr2 & tr3 & [] & -> & H2 & Hr)].
  { left. exists e. split; [done|]. intros x [Hx|Hx]%elem_of_app; eauto using validate_no_input. }
  pose proof (Hno _ _ H2) as Hno2.
  apply require_safe_traces in H2 as (x & -> & Hx). rewrite (Hx eq_refl) in *.
  rewrite traces_try in Hr. destruct Hr as [(e & -> & H3)|(seg2 & tr4 & [] & -> & Hs2 & Hr)].
  { left. exists e. split; [done|]. intros y Hy. rewrite !elem_of_app in Hy.
    destruct Hy as [?|[?|?]]; eauto using validate_no_input. }
  rewrite traces_try in Hr. right. destruct Hr as [(e & -> & H4)|(tr5 & tr6 & o & -> & H4 & [-> ->])];
    apply run_traces in H4 as ->; eexists seg1, seg2, _; (split; [done|]); (split; [done|]).
  - split; [done|]. split; [done|]. by intros (? & ?).
  - rewrite ?app_nil_r. split; [done|]. split; [eauto|done].
Qed.

Lemma capture_no_input i n b tr r :
  traces (capture_tail t i n b) tr r → ∀ x, x ∈ tr → ¬ is_input x.
Proof.
  unfold capture_tail. rewrite traces_try.
  intros [(e & -> & H1)|(tr1 & tr2 & [] & -> & H1 & Hr)] x; [by eapply validate_no_input|].
  rewrite elem_of_app. intros [Hx|Hx]; [by eapply validate_no_input|]. revert Hx.
  destruct (_ || _); [destruct Hr as [-> _]; by intros ?%elem_of_nil|].
  rewrite traces_try in Hr. destruct Hr as [(e & -> & ->%run_traces)|(tr3 & tr4 & o & -> & ->%run_traces & Hr)].
  { intros ->%list_elem_of_singleton. by apply run_not_input. }
  rewrite elem_of_app. intros [->%list_elem_of_singleton|Hx]; [by apply run_not_input|]. revert Hx.
  rewrite traces_try in Hr. destruct Hr as [(e & -> & H2)|(tr5 & tr6 & [] & -> & H2 & Hr)];
    [by eapply validate_no_input|].
  rewrite elem_of_app. intros [Hx|Hx]; [by eapply validate_no_input|]. revert Hx.
  destruct (truncate_capture _ _) as [[[text m] tc]|e]; [|destruct Hr as [-> _]; by intros ?%elem_of_nil].
  destruct Hr as (y & tr' & -> & [-> _]). intros ->%list_elem_of_singleton. by intros (? & ? & ? & ?).
Qed.

(** Every input in a log went to the recorded pane, right after two attestations of the
    recorded identity around a safe composer. *)
Definition input_backed (i : MuxIdentity) (l1 : list (Ev TmuxAns)) (e : Ev TmuxAns) : Prop :=
  is_input e →
  ∃ l0 seg1 seg2, l1 = l0 ++ seg1 ++ [existT (TObserve i) (Ok Composer.Safe)] ++ seg2
    ∧ pane_found i seg1 ∧ pane_found i seg2
    ∧ ∃ args limit x, e = existT (TRun (server_args t ++ args) limit) x
        ∧ ((∃ text, args = literal_arguments (mi_pane_id i) text ∧ has_control text = false)
           ∨ ∃ key, args = symbolic_arguments (mi_pane_id i) key).

Definition justified (i : MuxIdentity) : list (Ev TmuxAns) → Prop := backed (input_backed i).

Lemma justified_none i tr : (∀ x, x ∈ tr → ¬ is_input x) → justified i tr.
Proof. intros Hn. apply backed_all. intros l1 e He Hi. by destruct (Hn e). Qed.

Lemma justified_app i l1 l2 : justified i l1 → justified i l2 → justified i (l1 ++ l2).
Proof.
  apply backed_app. intros l0 l e Hj He. destruct (Hj He) as (k & s1 & s2 & -> & ?).
  exists (l0 ++ k), s1, s2. by rewrite <- app_assoc.
Qed.

Lemma send_justified i args tr r :
  ((∃ text, args = literal_arguments (mi_pane_id i) text ∧ has_control text = false)
   ∨ ∃ key, args = symbolic_arguments (mi_pane_id i) key) →
  traces (send t i args) tr r → justified i tr.
Proof.
  intros Hargs [(e & -> & Hn)|(seg1 & seg2 & out & Hs1 & Hs2 & -> & _)]%send_traces;
    [by apply justified_none|].
  rewrite !app_assoc. apply backed_snoc; [|intros _|by intros ? ? ?%elem_of_nil].
  - apply justified_none. intros x Hx. rewrite !elem_of_app in Hx. destruct Hx as [[Hx|Hx]|Hx];
      [exact (validate_no_input i _ _ _ Hs1 Hx)| |exact (validate_no_input i _ _ _ Hs2 Hx)].
    apply list_elem_of_singleton in Hx as ->. by intros (? & ? & ? & ?).
  - exists [], seg1, seg2. rewrite <- !app_assoc. eauto 10 using attests_spec.
Qed.

(** The operations of the driver. *)
Lemma validate_justified i tr r : traces (validate_identity t i) tr r → justified i tr.
Proof. intros Htr. apply justified_none. intros x. exact (validate_no_input i tr r x Htr). Qed.

Lemma literal_justified i text tr r : traces (send_literal t i text) tr r → justified i tr.
Proof.
  unfold send_literal. rewrite traces_try.
  intros [(e & -> & [-> _])|(tr1 & tr2 & [] & -> & [-> Hl] & Htr)].
  - apply justified_none. by intros x ?%elem_of_nil.
  - eapply send_justified; [left|exact Htr]. exists text. split; [done|].
    symmetry in Hl. unfold validate_literal in Hl. by apply fail_if_Ok in Hl.
Qed.

Lemma key_justified i k tr r : traces (send_key t i k) tr r → justified i tr.
Proof. intros Htr. eapply send_justified; [|exact Htr]. right. by exists k. Qed.

Lemma capture_justified i n b tr r : traces (capture_tail t i n b) tr r → justified i tr.
Proof. intros Htr. apply justified_none. exact (capture_no_input i n b tr r Htr). Qed.

Lemma justified_nil i : justified i [].
Proof. apply backed_nil. Qed.
End Conversations.

(** ** Captures of well-formed text *)

(** The longest prefix of characters that fits in [n] bytes. *)
Fixpoint fit (n : nat) (cs : list Z) : list Z :=
  match cs with
  | [] => []
  | c :: cs =>
      let w := length (encode_char c) in
      if (w <=? n)%nat then c :: fit (n - w) cs else []
  end.

Lemma encode_cons c cs : encode_utf8 (c :: cs) = encode_char c ++ encode_utf8 cs.
Proof. done. Qed.

Lemma encode_app cs ds : encode_utf8 (cs ++ ds) = encode_utf8 cs ++ encode_utf8 ds.
Proof. unfold encode_utf8. apply bind_app. Qed.

Lemma fit_spec n cs :
  ∃ rest, cs = fit n cs ++ rest ∧ (length (encode_utf8 (fit n cs)) ≤ n)%nat
    ∧ (∀ c, head rest = Some c → (n - length (encode_utf8 (fit n cs)) < length (encode_char c))%nat).
Proof.
  revert n. induction cs as [|c cs IH]; intros n; cbn [fit].
  - exists []. split; [done|]. split; [cbn; lia|done].
  - destruct (Nat.leb_spec (length (encode_char c)) n) as [Hw|Hw].
    + destruct (IH (n - length (encode_char c))%nat) as (rest & Hcs & Hlen & Hhd).
      exists rest. rewrite encode_cons, length_app. cbn [app]. rewrite <- Hcs.
      split; [done|]. split; [lia|]. intros c' Hc'. specialize (Hhd c' Hc'). lia.
    + exists (c :: cs). split; [done|]. split; [cbn; lia|]. intros c' [= <-]. cbn. lia.
Qed.

Lemma fit_fit n m cs : (n ≤ m)%nat → fit n (fit m cs) = fit n cs.
Proof.
  revert n m. induction cs as [|c cs IH]; intros n m Hnm; cbn [fit]; [done|].
  destruct (Nat.leb_spec (length (encode_char c)) m); cbn [fit].
  - destruct (Nat.leb_spec (length (encode_char c)) n); [|done]. rewrite IH by lia. done.
  - destruct (Nat.leb_spec (length (encode_char c)) n); [lia|done].
Qed.

Lemma fit_all n cs : (length (encode_utf8 cs) ≤ n)%nat → fit n cs = cs.
Proof.
  revert n. induction cs as [|c cs IH]; intros n; cbn [fit]; [done|].
  rewrite encode_cons, length_app. intros Hn.
  rewrite (proj2 (Nat.leb_le _ _)) by lia. by rewrite IH by lia.
Qed.

Lemma encode_char_lookup c j b :
  scalar c → encode_char c !! j = Some b → is_cont b = negb (j =? 0)%nat.
Proof.
  intros Hs. destruct (encode_char_cases c Hs) as [[-> Hc]|(a & rest & -> & Ha & Hr & _)].
  - destruct j as [|j]; [|done]. intros [= <-]. apply in_range_false. lia.
  - destruct j as [|j]; cbn.
    + intros [= <-]. apply in_range_false. lia.
    + intros Hb. apply in_range_spec. exact (proj1 (Forall_lookup _ _) Hr j b Hb).
Qed.

Lemma floor_boundary_spec l m n :
  (m ≤ n)%nat → is_char_boundary l m = true →
  (∀ j, (m < j ≤ n)%nat → is_char_boundary l j = false) → floor_boundary l n = m.
Proof.
  intros Hmn Hm. induction n as [|n IH]; intros Hj; cbn [floor_boundary].
  - assert (m = 0)%nat as -> by lia. by rewrite Hm.
  - destruct (decide (m = S n)) as [->|Hne]; [by rewrite Hm|].
    rewrite Hj by lia. apply IH; [lia|]. intros j ?. apply Hj. lia.
Qed.

(** The loop that walks back stops at the longest prefix that fits. *)
Lemma floor_boundary_fit cs n :
  Forall scalar cs → (n ≤ length (encode_utf8 cs))%nat →
  floor_boundary (encode_utf8 cs) n = length (encode_utf8 (fit n cs)).
Proof.
  intros Hs Hn. destruct (fit_spec n cs) as (rest & Hcs & Hlen & Hhd).
  set (m := length (encode_utf8 (fit n cs))) in *.
  assert (encode_utf8 cs = encode_utf8 (fit n cs) ++ encode_utf8 rest) as Henc
    by (rewrite <- encode_app; by f_equal).
  apply floor_boundary_spec; [done| |].
  - unfold is_char_boundary. rewrite Henc, lookup_app_r, Nat.sub_diag by done.
    destruct rest as [|c rest]; cbn [lookup].
    + rewrite length_app. cbn. apply orb_true_iff. right. apply Nat.eqb_eq. unfold m. lia.
    + rewrite encode_cons. pose proof (encode_char_size c) as Hw.
      rewrite lookup_app_l by lia. destruct (encode_char c !! 0%nat) as [b|] eqn:Eb.
      * rewrite (encode_char_lookup c 0 b); [by rewrite orb_true_r| |done].
        rewrite Hcs in Hs. apply Forall_app in Hs as [_ Hs]. by apply Forall_cons in Hs as [? _].
      * apply lookup_ge_None in Eb. lia.
  - intros j Hj. unfold is_char_boundary. rewrite Henc, lookup_app_r by (fold m; lia). fold m.
    destruct rest as [|c rest].
    { rewrite Henc, length_app in Hn. cbn in Hn. fold m in Hn. lia. }
    specialize (Hhd c eq_refl). rewrite encode_cons, lookup_app_l by lia.
    destruct (lookup_lt_is_Some_2 (encode_char c) (j - m)) as [b Eb]; [lia|]. rewrite Eb.
    rewrite (encode_char_lookup c (j - m) b); [|rewrite Hcs in Hs; apply Forall_app in Hs as [_ Hs];
      by apply Forall_cons in Hs as [? _]|done].
    rewrite (proj2 (Nat.eqb_neq j 0)), (proj2 (Nat.eqb_neq (j - m) 0)) by lia. done.
Qed.

Lemma take_grow {A} N (acc chunk rest : list A) :
  (length acc ≤ N)%nat →
  take N ((acc ++ take (Nat.min (length chunk) (N - length acc)) chunk) ++ rest)
  = take N (acc ++ chunk ++ rest).
Proof.
  intros Ha. destruct (Nat.le_ge_cases (length chunk) (N - length acc)) as [Hc|Hc].
  - rewrite Nat.min_l, firstn_all by done. by rewrite app_assoc.
  - rewrite Nat.min_r, app_assoc by done. rewrite !(take_app_le _ rest) by (rewrite length_app, ?length_take; lia).
    rewrite !take_app, take_take. do 2 f_equal. lia.
Qed.

(** Whatever the sizes of the reads, the thread keeps the first [limit + 1] bytes. *)
Lemma read_stream_spec limit acc chunks :
  0 ≤ limit < u64_max → Z.of_nat (length acc) ≤ limit + 1 →
  read_stream limit acc (Ok <$> chunks) = Ok (take (Z.to_nat (limit + 1)) (acc ++ concat chunks)).
Proof.
  intros Hl. revert acc. induction chunks as [|chunk chunks IH]; intros acc Hacc;
    cbn [fmap list_fmap read_stream concat].
  - rewrite app_nil_r, take_ge by lia. done.
  - unfold saturating_add, saturating_sub, OUTPUT_OVERFLOW_SENTINEL.
    destruct (Z.leb_spec (Z.of_nat (length acc)) limit) as [Hle|Hgt].
    + rewrite (Z.min_r u64_max) by lia.
      replace (Z.to_nat (Z.min (Z.of_nat (length chunk)) (Z.max 0 (limit + 1 - Z.of_nat (length acc)))))
        with (Nat.min (length chunk) (Z.to_nat (limit + 1) - length acc)) by lia.
      rewrite IH by (rewrite length_app, length_take; lia). f_equal. apply take_grow. lia.
    + rewrite IH by lia. rewrite !take_app.
      replace (Z.to_nat (limit + 1) - length acc)%nat with 0%nat by lia. by rewrite !take_0.
Qed.

(** A cut of well-formed text keeps whole characters and at most a part of the next. *)
Lemma take_encode n cs :
  Forall scalar cs → (n < length (encode_utf8 cs))%nat →
  ∃ c k, scalar c ∧ (k < length (encode_char c))%nat
    ∧ take n (encode_utf8 cs) = encode_utf8 (fit n cs) ++ take k (encode_char c)
    ∧ n = (length (encode_utf8 (fit n cs)) + k)%nat.
Proof.
  intros Hs Hn. destruct (fit_spec n cs) as (rest & Hcs & Hlen & Hhd).
  assert (encode_utf8 cs = encode_utf8 (fit n cs) ++ encode_utf8 rest) as Henc
    by (rewrite <- encode_app; by f_equal).
  destruct rest as [|c rest].
  { rewrite Henc, length_app in Hn. cbn in Hn. lia. }
  exists c, (n - length (encode_utf8 (fit n cs)))%nat. specialize (Hhd c eq_refl).
  assert (scalar c) as Hc.
  { rewrite Hcs in Hs. apply Forall_app in Hs as [_ Hs]. by apply Forall_cons in Hs as [? _]. }
  split; [done|]. split; [done|]. split; [|lia].
  rewrite Henc at 1. rewrite take_app, (take_ge (encode_utf8 _)) by done. f_equal.
  rewrite encode_cons, take_app_le by lia. done.
Qed.

Lemma truncate_valid cs max_bytes total :
  Forall scalar cs →
  let b := floor_boundary (encode_utf8 cs) (Nat.min (length (encode_utf8 cs)) max_bytes) in
  (take b (encode_utf8 cs), b, total)
  = (encode_utf8 (fit max_bytes cs), length (encode_utf8 (fit max_bytes cs)), total : bool).
Proof.
  intros Hs. cbn zeta. rewrite floor_boundary_fit by (done || lia).
  assert (fit (Nat.min (length (encode_utf8 cs)) max_bytes) cs = fit max_bytes cs) as ->.
  { destruct (Nat.le_ge_cases max_bytes (length (encode_utf8 cs))); [by rewrite Nat.min_r|]. rewrite Nat.min_l, !fit_all by lia. done. }
  do 2 f_equal. destruct (fit_spec max_bytes cs) as (rest & Hcs & _).
  rewrite Hcs at 2. rewrite encode_app. apply take_app_length.
Qed.

Lemma truncate_text cs max_bytes total :
  Forall scalar cs → (max_bytes + 4 ≤ total)%nat →
  truncate_capture (take total (encode_utf8 cs)) max_bytes
  = Ok (encode_utf8 (fit max_bytes cs), length (encode_utf8 (fit max_bytes cs)),
        (max_bytes <? length (encode_utf8 cs))%nat).
Proof.
  intros Hs Ht. destruct (Nat.le_gt_cases (length (encode_utf8 cs)) total) as [Hle|Hgt].
  - rewrite take_ge by done. unfold truncate_capture, utf8_ok. rewrite from_utf8_encode by done.
    cbn [rbind]. rewrite from_utf8_encode by done. cbn [negb fail_if rbind]. f_equal.
    by apply truncate_valid.
  - destruct (take_encode total cs Hs Hgt) as (c & k & Hc & Hk & Heq & Hn).
    pose proof (encode_char_size c). set (cs1 := fit total cs) in *.
    assert (Forall scalar cs1) as Hs1.
    { destruct (fit_spec total cs) as (rest & Hcs & _). rewrite Hcs in Hs.
      by apply Forall_app in Hs as [? _]. }
    assert (fit max_bytes cs1 = fit max_bytes cs) as Hfit by (apply fit_fit; lia).
    assert (length (take total (encode_utf8 cs)) = total) as Hlen by (rewrite length_take; lia).
    assert ((max_bytes <? length (encode_utf8 cs))%nat = true) as -> by (apply Nat.ltb_lt; lia).
    unfold truncate_capture. rewrite Hlen, (proj2 (Nat.ltb_lt max_bytes total)) by lia.
    rewrite Heq. rewrite <- Hfit. destruct k as [|k].
    + cbn [take]. rewrite app_nil_r. unfold utf8_ok. rewrite from_utf8_encode by done. cbn [rbind].
      rewrite from_utf8_encode by done. cbn [negb fail_if rbind]. f_equal. by apply truncate_valid.
    + rewrite from_utf8_cut by (done || lia). rewrite (proj2 (Nat.leb_le max_bytes _)) by lia.
      cbn [andb rbind]. rewrite take_app_length. unfold utf8_ok. rewrite from_utf8_encode by done.
      cbn [negb fail_if rbind]. f_equal. by apply truncate_valid.
Qed.

(** ** Escaped metadata *)

(** How tmux prints one byte: a backslash doubled, a control byte in octal. *)
Definition escape_byte (b : Z) : list Z :=
  if b =? 92 then [92; 92]
  else if (b <? 32) || (b =? 127) then [92; 48 + b / 64; 48 + b / 8 mod 8; 48 + b mod 8]
  else [b].

Definition escape_metadata (l : list Z) : list Z := mbind escape_byte l.

Lemma emit_byte b r : 0 ≤ b ≤ 255 → emit b r = let? out := r in Ok (b :: out).
Proof. intros Hb. unfold emit. by rewrite (proj2 (Z.ltb_ge 255 b)) by lia. Qed.

Lemma octal_step_add code d : 48 ≤ d ≤ 55 → octal_step code d = code * 8 + (d - 48).
Proof.
  intros Hd. unfold octal_step. rewrite <- Z.shiftl_mul_pow2 with (n := 3) by lia.
  rewrite <- Z.add_lor_land.
  enough (Z.land (Z.shiftl code 3) (d - 48) = 0) as -> by lia.
  apply Z.bits_inj'. intros n Hn. rewrite Z.land_spec, Z.bits_0.
  destruct (Z.lt_ge_cases n 3); [by rewrite Z.shiftl_spec_low|].
  rewrite <- (Z.mod_small (d - 48) (2 ^ 3)) by lia. rewrite Z.mod_pow2_bits_high by lia.
  by rewrite andb_false_r.
Qed.

Lemma decode_plain b l : 0 ≤ b ≤ 255 → b ≠ 92 →
  decode_bytes (b :: l) = let? out := decode_bytes l in Ok (b :: out).
Proof. intros Hb Hne. cbn [decode_bytes]. rewrite (proj2 (Z.eqb_neq b 92)) by done. by apply emit_byte. Qed.

Lemma decode_octal b l : 0 ≤ b ≤ 255 →
  decode_bytes ([92; 48 + b / 64; 48 + b / 8 mod 8; 48 + b mod 8] ++ l)
  = let? out := decode_bytes l in Ok (b :: out).
Proof.
  intros Hb. cbn [app decode_bytes]. rewrite Z.eqb_refl. cbn [negb].
  rewrite (proj2 (Z.eqb_neq (48 + b / 64) 92)) by dm_lia. unfold is_octal.
  rewrite !(proj2 (in_range_spec 48 55 _)) by dm_lia. cbn [negb].
  rewrite !octal_step_add by dm_lia. rewrite emit_byte by dm_lia.
  by replace (((0 * 8 + (48 + b / 64 - 48)) * 8 + (48 + b / 8 mod 8 - 48)) * 8 + (48 + b mod 8 - 48))
    with b by dm_lia.
Qed.

Lemma decode_escape_byte b l : 0 ≤ b ≤ 255 →
  decode_bytes (escape_byte b ++ l) = let? out := decode_bytes l in Ok (b :: out).
Proof.
  intros Hb. unfold escape_byte. destruct (Z.eqb_spec b 92) as [->|Hne].
  - cbn [app decode_bytes]. rewrite Z.eqb_refl. cbn [negb]. by apply emit_byte.
  - case_bool; [by apply decode_octal|]. cbn [app]. by apply decode_plain.
Qed.

(** Decoding inverts the escapes, for every byte. *)
Lemma decode_escape l : Forall (λ b, 0 ≤ b ≤ 255) l → decode_bytes (escape_metadata l) = Ok l.
Proof.
  induction 1 as [|b l Hb _ IH]; [done|].
  change (escape_metadata (b :: l)) with (escape_byte b ++ escape_metadata l).
  by rewrite decode_escape_byte, IH.
Qed.

Lemma decode_raw l : Forall (λ b, 0 ≤ b ≤ 255) l → 92 ∉ l → decode_bytes l = Ok l.
Proof.
  induction 1 as [|b l Hb _ IH]; [done|]. intros Hn. rewrite decode_plain by set_solver.
  by rewrite IH by set_solver.
Qed.

Lemma require_fields_Ok fields idxs :
  (∀ i, i ∈ idxs → field_at fields i ≠ "") → require_fields fields idxs = Ok tt.
Proof.
  induction idxs as [|i idxs IH]; intros Hi; cbn; [done|].
  destruct (is_empty (field_at fields i)) eqn:E; [apply is_empty_spec in E; set_solver|].
  apply IH. set_solver.
Qed.

Lemma string_of_bytes_nonempty l : l ≠ [] → string_of_bytes l ≠ "".
Proof. by destruct l. Qed.

Definition well_formed_fields (fs : list (list Z)) (dead : bool) (p : Z) : Prop :=
  length fs = 16%nat ∧ Forall (λ f, 31 ∉ f) fs
  ∧ Forall (λ b, 0 ≤ b ≤ 255) (join_with [FIELD_SEPARATOR] fs)
  ∧ utf8_ok (join_with [FIELD_SEPARATOR] fs) = true
  ∧ (∀ i, i ∈ [0; 1; 3; 6; 8]%nat → fs !! i ≠ Some [])
  ∧ fs !! 12%nat = Some [if dead then 49 else 48]
  ∧ fs !! 9%nat = Some (byte_list (pretty p)) ∧ 0 ≤ p ≤ u32_max.

Lemma metadata_fields_of_decoded v fs dead p :
  well_formed_fields fs dead p →
  decode_bytes v = Ok (join_with [FIELD_SEPARATOR] fs) → metadata_fields v = Ok (fs, dead, p).
Proof.
  intros (Hlen & Hsep & _ & Hu & Hreq & H12 & H9 & Hp) Hd.
  unfold metadata_fields, decode_tmux_display_escapes. rewrite Hd. cbn [rbind]. rewrite Hu. cbn [rbind].
  assert (split_on FIELD_SEPARATOR (join_with [FIELD_SEPARATOR] fs) = fs) as ->.
  { apply split_join; [by intros ->|done]. }
  rewrite Hlen. cbn [Nat.eqb negb fail_if rbind].
  rewrite require_fields_Ok.
  2:{ intros i Hi. unfold field_at. destruct (lookup_lt_is_Some_2 fs i) as [f Hf].
      { rewrite Hlen. rewrite !elem_of_cons, elem_of_nil in Hi. lia. }
      rewrite Hf. apply string_of_bytes_nonempty. intros Hn. apply (Hreq i Hi). rewrite Hf. by f_equal. }
  cbn [rbind].
  assert (dead_marker (field_at fs 12) = Ok dead) as ->.
  { unfold field_at. rewrite H12. by destruct dead. }
  assert (field_at fs 9 = pretty p) as H9'.
  { unfold field_at. rewrite H9. apply string_of_byte_list. }
  cbn [rbind]. unfold number_field. by rewrite H9', parse_unsigned_pretty.
Qed.

(** ** Termination of the wait loop *)
Definition FIVE_MS : Z := 5000000.

(** Each round sleeps 5 ms, so the loop ends within [timeout / 5 ms + 1] rounds. *)
Lemma wait_loop_returns fuel timeout polls i :
  (∀ j, FIVE_MS * Z.of_nat j ≤ pl_elapsed (polls j)) → (0 < fuel)%nat →
  timeout ≤ FIVE_MS * Z.of_nat (i + fuel - 1) → is_Some (wait_loop fuel timeout polls i).
Proof.
  intros Hsleep. revert i. induction fuel as [|fuel IH]; intros i Hpos Hf; [lia|]. cbn [wait_loop].
  destruct (pl_status (polls i)) as [[]|]; [by eexists| |by eexists].
  destruct (Z.leb_spec timeout (pl_elapsed (polls i))); [by eexists|].
  specialize (Hsleep i). destruct fuel as [|fuel].
  - exfalso. replace (i + 1 - 1)%nat with i in Hf by lia. lia.
  - apply IH; [lia|]. by replace (S i + S fuel - 1)%nat with (i + S (S fuel) - 1)%nat by lia.
Qed.

(** What each end of the wait says of the round it ended at: [try_wait] is asked first, so
    that a child that has exited is never reported as timed out. *)
Definition ends_wait (timeout : Z) (p : Poll) (o : WaitOutcome) : Prop :=
  match o with
  | Exited success => pl_status p = Ok (Some success)
  | WaitFailed e => pl_status p = Err e
  | TimedOut => pl_status p = Ok None ∧ timeout ≤ pl_elapsed p
  end.

(** The loop ends at the first round that ends the wait. *)
Lemma wait_loop_rounds fuel timeout polls i o :
  wait_loop fuel timeout polls i = Some o →
  ∃ k, (i ≤ k)%nat ∧ ends_wait timeout (polls k) o
    ∧ ∀ j, (i ≤ j < k)%nat → pl_status (polls j) = Ok None ∧ pl_elapsed (polls j) < timeout.
Proof.
  revert i. induction fuel as [|fuel IH]; intros i; cbn [wait_loop]; [done|].
  destruct (pl_status (polls i)) as [[b|]|e] eqn:E;
    [intros [= <-]; exists i; split; [done|]; split; [done|lia]| |intros [= <-]; exists i; split; [done|]; split; [done|lia]].
  destruct (Z.leb_spec timeout (pl_elapsed (polls i))) as [Hle|Hlt].
  { intros [= <-]. exists i. split; [done|]. split; [done|lia]. }
  intros (k & Hik & He & Hj)%IH. exists k. split; [lia|]. split; [done|]. intros j Hij.
  destruct (decide (j = i)) as [->|]; [done|]. apply Hj. lia.
Qed.

(** ** Properties *)

(** Whatever action the actuator executes on a tmux target, and whatever tmux, the
    process inspector and the composer guard answer, every [send-keys] it runs goes to
    the recorded pane, carries a control-free literal or one symbolic key, and comes
    right after two [display-message] queries that found the recorded server, session,
    window, pane, terminal and process, with a safe composer in between. *)
Theorem tmux_input_guarded `{Rfc3339} `{DebugText} {W} (h : ∀ o, W → W * TmuxAns o)
    t i src a w w' log r :
  mux_execute (bound_mux h (tmux t) i) src a (w, []) = Some ((w', log), r) → justified t i log.
Proof.
  intros Hx. change log with ((w', log).2).
  refine (mux_execute_P h (tmux t) i (justified t i) _ _ _ _ _ _ src a _ _ r Hx _).
  - apply justified_app.
  - apply validate_justified.
  - apply literal_justified.
  - intros text tr r' [-> _]. apply justified_nil.
  - apply key_justified.
  - apply capture_justified.
  - apply justified_nil.
Qed.

(** A tmux server with one live pane, whose process is 4242. *)
Definition demo_fields : list (list Z) :=
  byte_list <$> ["/tmp/tmux-1000/default"; "$1"; "work"; "@2"; "win"; "3"; "%4"; "5"; "/dev/pts/1";
                 "4242"; "node"; "/home/user"; "0"; ""; ""; ""].
Definition demo_record : ProcessRecord :=
  mkProcess 4242 1 99 (Some "/usr/bin/node") None (Some 1000) (Some 4242) (Some 4242)
    (Some "dev:136:1").
Definition demo_identity : MuxIdentity := metadata_identity demo_fields (record_identity demo_record).
Definition demo_tmux : Tmux := for_socket_path "/tmp/tmux-1000/default" (from_secs 2).

Definition demo_world (o : TmuxOp) (w : unit) : unit * TmuxAns o :=
  (w, match o return TmuxAns o with
      | TRun args _ =>
          if existsb (String.eqb "display-message") args
          then Ok (escape_metadata (join_with [FIELD_SEPARATOR] demo_fields) ++ [10]) else Ok []
      | TInspect _ => Ok demo_record
      | TObserve _ => Ok Composer.Safe
      | TVar _ => Some "%4"
      | TElapsed => 0
      end).

Lemma tmux_input_guarded_witness :
  let rfc : Rfc3339 := λ _, None in
  let dbg : DebugText := λ _, "" in
  let src := event_source_new Source.ScreenDetection "tmux" "generic_tail" in
  match mux_execute (bound_mux demo_world (tmux demo_tmux) demo_identity) src keys_action (tt, []) with
  | Some ((_, log), r) =>
      length log = 14%nat ∧ r = Ok Committed ∧ justified demo_tmux demo_identity log
  | None => False
  end.
Proof.
  intros rfc dbg src.
  destruct (mux_execute _ _ _ _) as [[[w log] r]|] eqn:E; [|vm_compute in E; discriminate].
  split; [|split].
  - vm_compute in E. injection E as <- <- <-. reflexivity.
  - vm_compute in E. by injection E as <- <- <-.
  - exact (tmux_input_guarded demo_world demo_tmux demo_identity src keys_action tt w log r E).
Defined.

(** A capture of well-formed text is exact: however tmux's output arrives in chunks,
    the bounded reader with its lookahead and the truncation together return the longest
    prefix of whole characters that fits in the requested bytes, say whether something
    was cut, and never reject the text for being cut inside a character. *)
Theorem tmux_capture_exact fuel child timeout max_bytes chunks cs out :
  Forall scalar cs → concat chunks = encode_utf8 cs → ch_stdout child = Ok <$> chunks →
  0 < max_bytes → max_bytes + UTF8_BOUNDARY_LOOKAHEAD < u64_max →
  run_bounded fuel child timeout (saturating_add u64_max max_bytes UTF8_BOUNDARY_LOOKAHEAD)
    = Some (Ok out) →
  truncate_capture out (Z.to_nat max_bytes)
  = Ok (encode_utf8 (fit (Z.to_nat max_bytes) cs), length (encode_utf8 (fit (Z.to_nat max_bytes) cs)),
        (Z.to_nat max_bytes <? length (encode_utf8 cs))%nat).
Proof.
  intros Hs Hc Hout Hm Hw Hrun.
  assert (saturating_add u64_max max_bytes UTF8_BOUNDARY_LOOKAHEAD = max_bytes + 3) as Hsat
    by (unfold saturating_add, UTF8_BOUNDARY_LOOKAHEAD in *; lia).
  unfold UTF8_BOUNDARY_LOOKAHEAD in Hw. rewrite Hsat in Hrun.
  unfold run_bounded in Hrun. destruct (ch_spawned child); [|done].
  apply bind_Some in Hrun as ([success|e|] & _ & Hrun); [|done..]. injection Hrun as Hrun.
  rewrite Hout, read_stream_spec in Hrun by (cbn; lia). cbn [map_err rbind app] in Hrun.
  apply rbind_Ok in Hrun as (err & _ & Hrun). apply rbind_Ok in Hrun as (u & _ & [= <-]).
  rewrite Hc. apply truncate_text; [done|lia].
Qed.

Definition demo_child : Child :=
  mkChild (Ok tt) (λ _, mkPoll (Ok (Some true)) 0)
    [Ok [97; 206]; Ok [187; 240; 159]; Ok [152; 128; 122]] [].

Lemma tmux_capture_exact_witness :
  run_bounded 1 demo_child (from_secs 2) (saturating_add u64_max 4 UTF8_BOUNDARY_LOOKAHEAD)
    = Some (Ok [97; 206; 187; 240; 159; 152; 128; 122])
  ∧ truncate_capture [97; 206; 187; 240; 159; 152; 128; 122] 4 = Ok ([97; 206; 187], 3%nat, true).
Proof.
  split; [reflexivity|].
  refine (tmux_capture_exact 1 demo_child (from_secs 2) 4
            [[97; 206]; [187; 240; 159]; [152; 128; 122]] [97; 955; 128512; 122] _ _ _ _ _ _ _);
    [|reflexivity|reflexivity|lia|reflexivity|reflexivity].
  repeat constructor; unfold scalar; lia.
Defined.

(** The metadata record of a pane round-trips: sixteen fields, whatever bytes they
    hold beside the separator, are recovered exactly from the octal-escaped output of
    older tmux versions, and from the raw output of newer ones when no field has a
    backslash. *)
Theorem tmux_metadata_roundtrip fs dead p :
  well_formed_fields fs dead p →
  metadata_fields (escape_metadata (join_with [FIELD_SEPARATOR] fs)) = Ok (fs, dead, p)
  ∧ (92 ∉ join_with [FIELD_SEPARATOR] fs →
     metadata_fields (join_with [FIELD_SEPARATOR] fs) = Ok (fs, dead, p)).
Proof.
  intros Hw. split; [|intros Hn]; apply metadata_fields_of_decoded; try done;
    destruct Hw as (_ & _ & Hb & _); [by apply decode_escape|by apply decode_raw].
Qed.

Lemma demo_fields_well_formed : well_formed_fields demo_fields false 4242.
Proof.
  split; [reflexivity|]. split; [refine (bool_decide_unpack _ _); vm_compute; exact I|].
  split; [refine (bool_decide_unpack _ _); vm_compute; exact I|]. split; [vm_compute; reflexivity|].
  split; [apply Forall_forall; repeat constructor; vm_compute; discriminate|].
  split; [reflexivity|]. split; [vm_compute; reflexivity|]. unfold u32_max; lia.
Qed.

Lemma tmux_metadata_roundtrip_witness :
  metadata_fields (escape_metadata (join_with [FIELD_SEPARATOR] demo_fields))
  = Ok (demo_fields, false, 4242).
Proof. exact (proj1 (tmux_metadata_roundtrip demo_fields false 4242 demo_fields_well_formed)). Defined.

(** A tmux command always returns: as each round of the wait loop sleeps five
    milliseconds, the loop ends within [timeout / 5 ms + 1] rounds, with the exit of the
    child, a wait error or a timeout. *)
Theorem run_bounded_terminates fuel child timeout limit :
  (∀ j, FIVE_MS * Z.of_nat j ≤ pl_elapsed (ch_polls child j)) → (0 < fuel)%nat →
  timeout ≤ FIVE_MS * Z.of_nat (fuel - 1) → is_Some (run_bounded fuel child timeout limit).
Proof.
  intros Hs Hf Ht. unfold run_bounded. destruct (ch_spawned child); [|by eexists].
  destruct (wait_loop_returns fuel timeout (ch_polls child) 0 Hs Hf Ht) as [o ->]. by eexists.
Qed.

Lemma run_bounded_terminates_witness :
  run_bounded 401 (mkChild (Ok tt) (λ j, mkPoll (Ok None) (FIVE_MS * Z.of_nat j)) [] [])
    (from_secs 2) OUTPUT_LIMIT = Some (Err MuxErr.Timeout)
  ∧ is_Some (run_bounded 401 (mkChild (Ok tt) (λ j, mkPoll (Ok None) (FIVE_MS * Z.of_nat j)) [] [])
               (from_secs 2) OUTPUT_LIMIT).
Proof.
  split; [vm_compute; reflexivity|]. apply run_bounded_terminates.
  - intros j. cbn. lia.
  - lia.
  - vm_compute. discriminate.
Defined.
