(* ===== verification/Serde.v ===== *)
(** * Derived decoders

    What [#[derive(Deserialize)]] does with a JSON object: each field of the struct at
    most once, required fields present, [Option] fields absent or null, unknown fields
    refused under [deny_unknown_fields] and ignored otherwise.  An object lists its
    members in the order of the text, repetitions included. *)
From S2P Require Import Prelude Json.

Local Open Scope Z_scope.

Definition Members : Type := list (string * Value).

Definition members (v : Value) : option Members :=
  match v with VObject fs => Some fs | _ => None end.

Definition named (k : string) (fs : Members) : list Value :=
  snd <$> filter (λ f, f.1 = k) fs.

(** A required field. *)
Definition req {A} (k : string) (dec : Value → option A) (fs : Members) : option A :=
  match named k fs with [v] => dec v | _ => None end.

(** A field of type [Option<A>]. *)
Definition opt {A} (k : string) (dec : Value → option A) (fs : Members) : option (option A) :=
  match named k fs with
  | [] | [VNull] => Some None
  | [v] => Some <$> dec v
  | _ => None
  end.

(** A field with [#[serde(default)]]. *)
Definition dflt {A} (k : string) (dec : Value → option A) (d : A) (fs : Members) : option A :=
  match named k fs with [] => Some d | [v] => dec v | _ => None end.

Definition deny_unknown (known : list string) (fs : Members) : option unit :=
  if forallb (λ f, one_of known f.1) fs then Some tt else None.

Definition dec_string (v : Value) : option string := as_str v.
Definition dec_bool (v : Value) : option bool := match v with VBool b => Some b | _ => None end.

(** An unsigned integer with greatest value [m]. *)
Definition dec_uint (m : Z) (v : Value) : option Z :=
  match v with VNumber (PosInt z) => if (0 <=? z) && (z <=? m) then Some z else None | _ => None end.

Definition dec_list {A} (dec : Value → option A) (v : Value) : option (list A) :=
  match v with VArray l => mapM dec l | _ => None end.

Lemma req_Some {A} k (dec : Value → option A) fs a :
  req k dec fs = Some a → ∃ v, named k fs = [v] ∧ dec v = Some a.
Proof. unfold req. destruct (named k fs) as [|v [|]]; try done. eauto. Qed.

Lemma dec_uint_bounds m v z : dec_uint m v = Some z → 0 ≤ z ≤ m.
Proof.
  destruct v as [| | [z'| |] | | |]; cbn; try done. case_bool; [|done]. intros [= <-].
  apply andb_true_iff in Heqb as [?%Z.leb_le ?%Z.leb_le]. lia.
Qed.
