(* ===== verification/Herdr.v ===== *)
(** * The Herdr driver over the bridge (src/src/mux/herdr/mod.rs, src/src/mux/herdr/bridge.rs)

    The socket and its owner, one exchange of a request and a response under a
    deadline, the bridge protocol with its response contract, and the operations of the
    [Multiplexer] trait.  Programs are over the system calls; an awaited call is ready
    with its answer or finds the deadline expired. *)
From S2P Require Import Prelude Text Utf8 Json Serde Action Event Identity Process Actuator Effects.
From S2P Require Import Runtime Mux Hooks.
From stdpp Require Import pretty.

Local Open Scope Z_scope.

Definition HERDR_PROTOCOL : string := "watchme.herdr".
Definition HERDR_SCHEMA_VERSION : Z := 1.
Definition MAX_RESPONSE_BYTES : Z := 256 * 1024.
Definition MAX_REQUEST_BYTES : Z := 256 * 1024.
Definition HERDR_MAX_CAPTURE_LINES : Z := 10000.
Definition HERDR_MAX_CAPTURE_BYTES : Z := 128 * 1024.

Record HerdrContext : Type := mkHerdrContext {
  hc_socket_path : string;
  hc_workspace_id : string;
  hc_tab_id : string;
  hc_pane_id : string;
  hc_wire_protocol : HerdrWireProtocol;
}.

#[global] Instance HerdrContext_eq_dec : EqDecision HerdrContext.
Proof. solve_decision. Defined.

Definition validate_context (name value : string) : result MuxError unit :=
  fail_if (is_empty value || has_control value) (MuxErr.Protocol ("invalid " +:+ name)).

Definition context_value (name : string) (value : option string) : result MuxError string :=
  let? v := ok_or value (MuxErr.Command (name +:+ " is not set")) in
  let? _ := validate_context name v in
  Ok v.

Definition context_from_values (value : string → option string) : result MuxError HerdrContext :=
  let required name := context_value name (value name) in
  let? socket_path := required "HERDR_SOCKET_PATH" in
  let? workspace_id := required "HERDR_WORKSPACE_ID" in
  let? tab_id := required "HERDR_TAB_ID" in
  let? pane_id := required "HERDR_PANE_ID" in
  Ok (mkHerdrContext socket_path workspace_id tab_id pane_id Auto).

(** ** Sockets *)
Record SocketMetadata : Type := mkSocketMetadata { sm_uid : Z; sm_mode : Z; sm_is_socket : bool }.

Definition validate_for_uid (m : SocketMetadata) (expected_uid : Z) : result MuxError unit :=
  let? _ := fail_if (negb (sm_is_socket m)) (MuxErr.UnsafeSocket "path is not a Unix socket") in
  let? _ := fail_if (negb (sm_uid m =? expected_uid))
              (MuxErr.UnsafeSocket "socket is not owned by the current user") in
  fail_if (negb (Z.land (sm_mode m) 18 =? 0))
    (MuxErr.UnsafeSocket "socket is writable by group or others").

Record SocketIdentity : Type := mkSocketIdentity {
  si_device : Z; si_inode : Z; si_canonical_path : string }.

Record ConnectedSocketEvidence : Type := mkEvidence {
  ev_path_device : Z;
  ev_path_inode : Z;
  ev_peer_uid : result string Z;
}.

Definition evidence_validate (e : ConnectedSocketEvidence) (device inode expected_uid : Z)
    : result MuxError unit :=
  let? _ := fail_if (negb (ev_path_device e =? device) || negb (ev_path_inode e =? inode))
              (MuxErr.UnsafeSocket "socket identity changed while connecting") in
  let? peer := map_err (λ m, MuxErr.UnsafeSocket ("peer credential query failed: " +:+ m))
                 (ev_peer_uid e) in
  fail_if (negb (peer =? expected_uid))
    (MuxErr.UnsafeSocket "connected Herdr peer has a different UID").

(** [std::io::Error]: whether its kind is [TimedOut] or [WouldBlock], and its text. *)
Record IoError : Type := mkIoError { io_timeout : bool; io_text : string }.

Definition map_io (e : IoError) : MuxError :=
  if io_timeout e then MuxErr.Timeout else MuxErr.Command (io_text e).

(** [fs::symlink_metadata] of the socket path. *)
Record SocketStat : Type := mkSocketStat {
  st_symlink : bool; st_device : Z; st_inode : Z; st_meta : SocketMetadata }.

Inductive Await (A : Type) : Type := Ready (a : A) | Expired.
Arguments Ready {A} a. Arguments Expired {A}.

(** ** System calls *)
Inductive HerdrOp : Type :=
| HStat (path : string)
| HCanonicalize (path : string)
| HInRuntime
| HBuildRuntime
| HNextId
| HRemaining
| HElapsed
| HConnect (path : string)
| HEvidence (path : string)
| HWrite (bytes : list Z)
| HRead
| HInspect (p : Z)
| HDevice (path : string)
| HObserve (i : MuxIdentity).

Definition HerdrAns (o : HerdrOp) : Type :=
  match o with
  | HStat _ => result string SocketStat
  | HCanonicalize _ => result string string
  | HInRuntime => bool
  | HBuildRuntime => result string unit
  | HNextId => option Z
  | HRemaining => bool
  | HElapsed => Z
  | HConnect _ | HWrite _ => Await (result IoError unit)
  | HEvidence _ => ConnectedSocketEvidence
  | HRead => Await (result IoError Z)
  | HInspect _ => result ProcessError ProcessRecord
  | HDevice _ => result string Z
  | HObserve _ => result MuxError ComposerState
  end.

Abbreviation HerdrProg := (Prog HerdrAns).
Definition hcall (o : HerdrOp) : HerdrProg (HerdrAns o) := call o.

(** serde_json: the bytes of a request, the members of a response, its error texts. *)
Class HerdrJson : Type := {
  json_to_vec : Value → result string (list Z);
  json_from_slice : list Z → result string Value;
  shape_error : Value → string;
}.

(** The process: its effective user, its PID and the nonce of its request IDs. *)
Record HerdrEnv : Type := mkHerdrEnv { he_euid : Z; he_pid : Z; he_nonce : Z }.

Record Herdr : Type := mkHerdr { hd_context : HerdrContext; hd_timeout : Z }.

Section Exchange.
Context `{HerdrJson} (env : HerdrEnv).

Definition validate_socket (path : string) : HerdrProg (result MuxError SocketIdentity) :=
  try! _ := lift (fail_if (negb (is_absolute path)) (MuxErr.UnsafeSocket "path is not absolute")) in
  let! stat := hcall (HStat path) in
  try! m := lift (map_err MuxErr.UnsafeSocket stat) in
  try! _ := lift (fail_if (st_symlink m)
                    (MuxErr.UnsafeSocket "socket path contains a symlink or alias")) in
  let! canonical := hcall (HCanonicalize path) in
  Ret (let? c := map_err MuxErr.UnsafeSocket canonical in
       let? _ := validate_for_uid (st_meta m) (he_euid env) in
       Ok (mkSocketIdentity (st_device m) (st_inode m) c)).

Definition herdr_new (c : HerdrContext) (timeout : Z) : HerdrProg (result MuxError Herdr) :=
  try! _ := lift (fail_if (timeout =? 0) (MuxErr.Protocol "timeout must be non-zero")) in
  try! s := validate_socket (hc_socket_path c) in
  Ret (Ok (mkHerdr (mkHerdrContext (si_canonical_path s) (hc_workspace_id c) (hc_tab_id c)
                      (hc_pane_id c) (hc_wire_protocol c)) timeout)).

Context (hd : Herdr).

Definition committed_response_error (outcome_unknown : bool) (message : string) : MuxError :=
  if outcome_unknown then MuxErr.CommandOutcomeUnknown message else MuxErr.Protocol message.

(** The reads of the response, up to a newline or one byte too many. *)
Fixpoint read_loop (fuel : nat) (outcome_unknown : bool) (acc : list Z)
    : HerdrProg (Await (result MuxError (list Z))) :=
  match fuel with
  | O => Ret (Ready (Ok acc))
  | S fuel =>
      let! byte := hcall HRead in
      match byte with
      | Expired => Ret Expired
      | Ready (Err e) =>
          Ret (Ready (Err (if outcome_unknown then MuxErr.CommandOutcomeUnknown (io_text e)
                           else map_io e)))
      | Ready (Ok b) =>
          let acc := acc ++ [b] in
          if (MAX_RESPONSE_BYTES <? Z.of_nat (length acc)) || (b =? 10)
          then Ret (Ready (Ok acc)) else read_loop fuel outcome_unknown acc
      end
  end.

Definition READ_FUEL : nat := Z.to_nat (MAX_RESPONSE_BYTES + 1).

(** The future under the timeout, with the flag that the request was written. *)
Definition exchange_future (s : SocketIdentity) (encoded : list Z) (outcome_unknown : bool)
    : HerdrProg (bool * Await (result MuxError (list Z))) :=
  let path := hc_socket_path (hd_context hd) in
  let! connected := hcall (HConnect path) in
  match connected with
  | Expired => Ret (false, Expired)
  | Ready (Err e) => Ret (false, Ready (Err (map_io e)))
  | Ready (Ok _) =>
      let! evidence := hcall (HEvidence path) in
      match evidence_validate evidence (si_device s) (si_inode s) (he_euid env) with
      | Err e => Ret (false, Ready (Err e))
      | Ok _ =>
          let! written := hcall (HWrite encoded) in
          match written with
          | Expired => Ret (false, Expired)
          | Ready (Err e) => Ret (false, Ready (Err (map_io e)))
          | Ready (Ok _) =>
              let! response := read_loop READ_FUEL outcome_unknown [] in
              Ret (true, response)
          end
      end
  end.

Definition exchange_with_commit_state (encoded : list Z) (outcome_unknown : bool)
    : HerdrProg (result MuxError (list Z)) :=
  try! s := validate_socket (hc_socket_path (hd_context hd)) in
  let! remaining := hcall HRemaining in
  if negb remaining then Ret (Err MuxErr.Timeout)
  else
    let! outcome := exchange_future s encoded outcome_unknown in
    match outcome with
    | (committed, Expired) =>
        Ret (Err (if outcome_unknown && committed
                  then MuxErr.CommandOutcomeUnknown "timed out awaiting acknowledgement"
                  else MuxErr.Timeout))
    | (_, Ready (Err e)) => Ret (Err e)
    | (_, Ready (Ok response)) =>
        if MAX_RESPONSE_BYTES <? Z.of_nat (length response)
        then Ret (Err (committed_response_error outcome_unknown "response exceeds byte limit"))
        else if negb (bool_decide (last response = Some 10))
        then Ret (Err (committed_response_error outcome_unknown "response is not newline terminated"))
        else
          let! elapsed := hcall HElapsed in
          if hd_timeout hd <=? elapsed
          then Ret (Err (if outcome_unknown
                         then MuxErr.CommandOutcomeUnknown "acknowledgement exceeded deadline"
                         else MuxErr.Timeout))
          else Ret (Ok response)
    end.

Definition exchange_async (encoded : list Z) : HerdrProg (result MuxError (list Z)) :=
  exchange_with_commit_state encoded false.
Definition exchange_committing_async (encoded : list Z) : HerdrProg (result MuxError (list Z)) :=
  exchange_with_commit_state encoded true.

(** ** Requests *)
Definition next_request_id : HerdrProg (result MuxError string) :=
  let! sequence := hcall HNextId in
  Ret (let? n := ok_or sequence (MuxErr.Protocol "request ID space exhausted") in
       Ok ("watchme-" +:+ pretty (he_pid env) +:+ "-" +:+ pretty (he_nonce env) +:+ "-" +:+ pretty n)).

(** The bytes of a request with the newline that ends it. *)
Definition encode_request (request : Value) : result MuxError (list Z) :=
  let? encoded := map_err MuxErr.Protocol (json_to_vec request) in
  let? _ := fail_if (MAX_REQUEST_BYTES <=? Z.of_nat (length encoded))
              (MuxErr.Protocol "request exceeds byte limit") in
  Ok (encoded ++ [10]).

(** A synchronous call runs its future on a fresh single-threaded runtime. *)
Definition block_on {A} (p : HerdrProg (result MuxError A)) : HerdrProg (result MuxError A) :=
  let! nested := hcall HInRuntime in
  if (nested : bool)
  then Ret (Err (MuxErr.Command
    "synchronous Herdr request cannot run inside a Tokio runtime; use the async API"))
  else
    let! built := hcall HBuildRuntime in
    try! _ := lift (map_err MuxErr.Command built) in
    p.

(** ** The bridge *)
Record Response (T : Type) : Type := mkResponse {
  rp_schema_version : Z;
  rp_protocol : string;
  rp_request_id : string;
  rp_method : string;
  rp_ok : bool;
  rp_result : option T;
  rp_error : option string;
}.
Arguments mkResponse {T}. Arguments rp_schema_version {T}. Arguments rp_protocol {T}.
Arguments rp_request_id {T}. Arguments rp_method {T}. Arguments rp_ok {T}.
Arguments rp_result {T}. Arguments rp_error {T}.

Definition dec_response {T} (dec : Value → option T) (v : Value) : option (Response T) :=
  fs ← members v;
  _ ← deny_unknown ["schema_version"; "protocol"; "request_id"; "method"; "ok"; "result"; "error"] fs;
  version ← req "schema_version" (dec_uint u16_max) fs;
  protocol ← req "protocol" dec_string fs;
  request_id ← req "request_id" dec_string fs;
  method ← req "method" dec_string fs;
  ok ← req "ok" dec_bool fs;
  result ← opt "result" dec fs;
  error ← opt "error" dec_string fs;
  Some (mkResponse version protocol request_id method ok result error).

Definition get_member (k : string) (fs : Members) : option Value := last (named k fs).
Definition is_string (o : option Value) : bool :=
  match o with Some (VString _) => true | _ => false end.

Definition is_native_value (v : Value) : bool :=
  match v with
  | VObject fs =>
      is_string (get_member "id" fs)
      && match get_member "result" fs, get_member "error" fs with
         | Some r, None => match r with VNull => false | _ => true end
         | None, Some (VObject e) => is_string (get_member "code" e) && is_string (get_member "message" e)
         | _, _ => false
         end
  | _ => false
  end.

Definition is_native_response (bytes : list Z) : bool :=
  match json_from_slice bytes with Ok v => is_native_value v | Err _ => false end.

Definition decode_bridge {T} (dec : Value → option T) (bytes : list Z) : result MuxError (Response T) :=
  match (let? v := json_from_slice bytes in ok_or (dec_response dec v) (shape_error v)) with
  | Ok r => Ok r
  | Err e =>
      if is_native_response bytes
      then Err (MuxErr.IncompatibleProtocol
             "native Herdr socket API does not implement the watchme.herdr bridge")
      else Err (MuxErr.Protocol ("malformed response: " +:+ e))
  end.

Definition check_response {T} (r : Response T) (request_id method : string) : result MuxError T :=
  let? _ := fail_if (negb (rp_schema_version r =? HERDR_SCHEMA_VERSION)
                     || negb (String.eqb (rp_protocol r) HERDR_PROTOCOL)
                     || negb (String.eqb (rp_request_id r) request_id)
                     || negb (String.eqb (rp_method r) method))
              (MuxErr.Protocol "response contract or request ID mismatch") in
  if rp_ok r then
    let? _ := fail_if (bool_decide (is_Some (rp_error r)))
                (MuxErr.Protocol "successful response must omit error") in
    ok_or (rp_result r) (MuxErr.Protocol "successful response must contain non-null result")
  else
    let? _ := fail_if (match rp_result r with Some _ => true | None => false end)
                (MuxErr.Protocol "failed response must omit result") in
    let? e := ok_or (rp_error r) (MuxErr.Protocol "failed response must contain non-null error") in
    Err (MuxErr.Protocol e).

Definition bridge_request (request_id method : string) (params : Value) : Value :=
  VObject [("schema_version", VNumber (PosInt HERDR_SCHEMA_VERSION));
           ("protocol", VString HERDR_PROTOCOL); ("request_id", VString request_id);
           ("method", VString method); ("params", params)].

Definition call_async {T} (dec : Value → option T) (method : string) (params : Value)
    : HerdrProg (result MuxError T) :=
  try! request_id := next_request_id in
  try! encoded := lift (encode_request (bridge_request request_id method params)) in
  try! bytes := exchange_async encoded in
  try! response := lift (decode_bridge dec bytes) in
  let! elapsed := hcall HElapsed in
  if hd_timeout hd <=? elapsed then Ret (Err MuxErr.Timeout)
  else Ret (check_response response request_id method).

Definition bridge_call {T} (dec : Value → option T) (method : string) (params : Value)
    : HerdrProg (result MuxError T) :=
  block_on (call_async dec method params).

(** ** Panes *)
Definition target_fields : Members :=
  let c := hd_context hd in
  [("workspace_id", VString (hc_workspace_id c)); ("tab_id", VString (hc_tab_id c));
   ("pane_id", VString (hc_pane_id c))].
Definition target_params : Value := VObject target_fields.

Definition WireProcess : Type := ProcessIdentity.

Definition dec_wire_process (v : Value) : option WireProcess :=
  fs ← members v;
  _ ← deny_unknown ["pid"; "start_time"; "executable"; "argv_digest"; "uid"; "process_group_id";
                    "session_leader_id"; "tty"; "parent_digest"] fs;
  p ← req "pid" (dec_uint u32_max) fs;
  start ← req "start_time" (dec_uint u64_max) fs;
  executable ← opt "executable" dec_string fs;
  argv_digest ← opt "argv_digest" dec_string fs;
  uid ← opt "uid" (dec_uint u32_max) fs;
  group ← opt "process_group_id" (dec_uint u32_max) fs;
  leader ← opt "session_leader_id" (dec_uint u32_max) fs;
  tty ← opt "tty" dec_string fs;
  parent_digest ← opt "parent_digest" dec_string fs;
  Some (mkProcessIdentity PROCESS_IDENTITY_SCHEMA_VERSION p start executable argv_digest uid group
          leader tty parent_digest).

Record WirePane : Type := mkWirePane {
  wp_server_id : string;
  wp_workspace_id : string;
  wp_workspace_name : string;
  wp_tab_id : string;
  wp_tab_title : string;
  wp_tab_index : Z;
  wp_pane_id : string;
  wp_pane_title : string;
  wp_pane_index : Z;
  wp_tty : string;
  wp_current_command : string;
  wp_current_path : string;
  wp_process : WireProcess;
}.

Definition dec_wire_pane (v : Value) : option WirePane :=
  fs ← members v;
  _ ← deny_unknown ["server_id"; "workspace_id"; "workspace_name"; "tab_id"; "tab_title"; "tab_index";
                    "pane_id"; "pane_title"; "pane_index"; "tty"; "current_command"; "current_path";
                    "process"] fs;
  server_id ← req "server_id" dec_string fs;
  workspace_id ← req "workspace_id" dec_string fs;
  workspace_name ← req "workspace_name" dec_string fs;
  tab_id ← req "tab_id" dec_string fs;
  tab_title ← req "tab_title" dec_string fs;
  tab_index ← req "tab_index" (dec_uint u32_max) fs;
  pane_id ← req "pane_id" dec_string fs;
  pane_title ← req "pane_title" dec_string fs;
  pane_index ← req "pane_index" (dec_uint u32_max) fs;
  tty ← req "tty" dec_string fs;
  command ← req "current_command" dec_string fs;
  path ← req "current_path" dec_string fs;
  process ← req "process" dec_wire_process fs;
  Some (mkWirePane server_id workspace_id workspace_name tab_id tab_title tab_index pane_id pane_title
          pane_index tty command path process).

Definition map_pane (p : WirePane) : PaneInfo :=
  mkPaneInfo
    (mkMuxIdentity "herdr" (wp_server_id p) (hc_socket_path (hd_context hd)) (wp_workspace_id p)
       (wp_tab_id p) (wp_pane_id p) (wp_tty p) (wp_process p))
    (wp_server_id p) (wp_workspace_name p) (wp_tab_title p) (wp_tab_index p) (wp_pane_index p)
    (wp_pane_title p) (wp_current_command p) (wp_current_path p) false None None None.

Definition pane (method : string) : HerdrProg (result MuxError PaneInfo) :=
  try! p := bridge_call dec_wire_pane method target_params in Ret (Ok (map_pane p)).
Definition pane_async (method : string) : HerdrProg (result MuxError PaneInfo) :=
  try! p := call_async dec_wire_pane method target_params in Ret (Ok (map_pane p)).

Definition herdr_current_target : HerdrProg (result MuxError MuxIdentity) :=
  try! p := pane "pane_info" in Ret (Ok (pn_identity p)).
Definition current_target_async : HerdrProg (result MuxError MuxIdentity) :=
  try! p := pane_async "pane_info" in Ret (Ok (pn_identity p)).

Definition herdr_require_safe (i : MuxIdentity) : HerdrProg (result MuxError unit) :=
  try! state := hcall (HObserve i) in
  Ret (match state with
       | Composer.Safe => Ok tt
       | s => Err (MuxErr.IdentityChanged ("composer safety is " +:+ composer_debug s))
       end).

Definition herdr_validate_literal (value : string) : result MuxError unit :=
  fail_if (has_control value) (MuxErr.InvalidSelector "literal contains a control character").

Definition key_name (k : SymbolicKey) : string :=
  match k with
  | KEnter => "Enter" | KEscape => "Escape" | KUp => "Up" | KDown => "Down"
  | KLeft => "Left" | KRight => "Right" | KTab => "Tab" | KBackspace => "Backspace"
  end.
End Exchange.
