(* ===== verification/HerdrNative.v ===== *)
(** * The native Herdr protocol and the driver's operations
      (src/src/mux/herdr/native.rs, src/src/mux/herdr/mod.rs)

    Protocol 16 of Herdr's own socket, the identity it attests for a process, input
    whose outcome is unknown once it was written, and the [Multiplexer] operations,
    which choose between the bridge and the native protocol. *)
From S2P Require Import Prelude Text Utf8 Json Serde Action Event Identity Process Actuator Effects.
From S2P Require Import Runtime Mux Linux Hooks Services Herdr.
From stdpp Require Import pretty.

Local Open Scope Z_scope.

Definition PROTOCOL : Z := 16.

Record NativePane : Type := mkNativePane {
  np_pane_id : string;
  np_workspace_id : string;
  np_tab_id : string;
  np_revision : Z;
}.

Record ProcessInfo : Type := mkProcessInfo {
  pf_pane_id : string;
  pf_tty : option string;
  pf_foreground : list Z;
}.

Record ReadResult : Type := mkReadResult {
  rr_pane_id : string;
  rr_workspace_id : string;
  rr_tab_id : string;
  rr_source : string;
  rr_format : string;
  rr_text : string;
  rr_revision : Z;
  rr_truncated : bool;
}.

Module Native.
Inductive ResultValue : Type :=
| Pong (version : string) (protocol : Z)
| PaneCurrent (pane : NativePane)
| PaneProcessInfo (process_info : ProcessInfo)
| PaneRead (read : ReadResult)
| Acknowledged.
End Native.
Abbreviation ResultValue := Native.ResultValue.

Definition dec_native_pane (v : Value) : option NativePane :=
  fs ← members v;
  pane_id ← req "pane_id" dec_string fs;
  workspace_id ← req "workspace_id" dec_string fs;
  tab_id ← req "tab_id" dec_string fs;
  revision ← req "revision" (dec_uint u64_max) fs;
  Some (mkNativePane pane_id workspace_id tab_id revision).

Definition dec_foreground (v : Value) : option Z :=
  fs ← members v; req "pid" (dec_uint u32_max) fs.

Definition dec_process_info (v : Value) : option ProcessInfo :=
  fs ← members v;
  pane_id ← req "pane_id" dec_string fs;
  tty ← opt "tty" dec_string fs;
  foreground ← dflt "foreground_processes" (dec_list dec_foreground) [] fs;
  Some (mkProcessInfo pane_id tty foreground).

Definition dec_read_result (v : Value) : option ReadResult :=
  fs ← members v;
  pane_id ← req "pane_id" dec_string fs;
  workspace_id ← req "workspace_id" dec_string fs;
  tab_id ← req "tab_id" dec_string fs;
  source ← req "source" dec_string fs;
  format ← req "format" dec_string fs;
  text ← req "text" dec_string fs;
  revision ← req "revision" (dec_uint u64_max) fs;
  truncated ← req "truncated" dec_bool fs;
  Some (mkReadResult pane_id workspace_id tab_id source format text revision truncated).

(** The tag [type] in snake case selects the variant. *)
Definition dec_result_value (v : Value) : option ResultValue :=
  fs ← members v;
  tag ← req "type" dec_string fs;
  if String.eqb tag "pong" then
    version ← req "version" dec_string fs;
    protocol ← req "protocol" (dec_uint u32_max) fs;
    Some (Native.Pong version protocol)
  else if String.eqb tag "pane_current" then Native.PaneCurrent <$> req "pane" dec_native_pane fs
  else if String.eqb tag "pane_process_info" then
    Native.PaneProcessInfo <$> req "process_info" dec_process_info fs
  else if String.eqb tag "pane_read" then Native.PaneRead <$> req "read" dec_read_result fs
  else if String.eqb tag "ok" then Some Native.Acknowledged
  else None.

Definition dec_success (v : Value) : option (string * ResultValue) :=
  fs ← members v;
  _ ← deny_unknown ["id"; "result"] fs;
  id ← req "id" dec_string fs;
  result ← req "result" dec_result_value fs;
  Some (id, result).

Definition dec_error_body (v : Value) : option (string * string) :=
  fs ← members v;
  _ ← deny_unknown ["code"; "message"] fs;
  code ← req "code" dec_string fs;
  message ← req "message" dec_string fs;
  Some (code, message).

Definition dec_failure (v : Value) : option (string * (string * string)) :=
  fs ← members v;
  _ ← deny_unknown ["id"; "error"] fs;
  id ← req "id" dec_string fs;
  error ← req "error" dec_error_body fs;
  Some (id, error).

(** [Debug] of a request ID and of an identity, which only occur in error texts. *)
Class DebugId : Type := debug_id : string → string.
Class DebugIdentity : Type := debug_identity : MuxIdentity → string.

Definition native_request (id method : string) (params : Value) : Value :=
  VObject [("id", VString id); ("method", VString method); ("params", params)].

Definition normalized_tty (tty : string) : string :=
  default tty (Services.strip_prefix "/dev/" tty).

Section Native.
Context `{HerdrJson} `{DebugId} (env : HerdrEnv) (hd : Herdr).

Definition decode (bytes : list Z) (id : string) : result string ResultValue :=
  match json_from_slice bytes with
  | Err e => Err ("malformed native response: " +:+ e)
  | Ok v =>
      match dec_success v with
      | Some (sid, value) =>
          if negb (String.eqb sid id)
          then Err ("native response ID mismatch: expected " +:+ debug_id id +:+ ", got "
                    +:+ debug_id sid)
          else Ok value
      | None =>
          match dec_failure v with
          | None => Err ("malformed native response: " +:+ shape_error v)
          | Some (fid, (code, message)) =>
              if negb (String.eqb fid id)
              then Err ("native error response ID mismatch: expected " +:+ debug_id id +:+ ", got "
                        +:+ debug_id fid)
              else Err (code +:+ ": " +:+ message)
          end
      end
  end.

Definition call_native_async (method : string) (params : Value)
    : HerdrProg (result MuxError ResultValue) :=
  try! request_id := next_request_id env in
  try! encoded := lift (encode_request (native_request request_id method params)) in
  try! bytes := exchange_async env hd encoded in
  Ret (map_err MuxErr.Protocol (decode bytes request_id)).

Definition call_native_committing_async (method : string) (params : Value)
    : HerdrProg (result MuxError ResultValue) :=
  try! request_id := next_request_id env in
  try! encoded := lift (encode_request (native_request request_id method params)) in
  try! bytes := exchange_committing_async env hd encoded in
  Ret (map_err MuxErr.CommandOutcomeUnknown (decode bytes request_id)).

Definition call_native (method : string) (params : Value) : HerdrProg (result MuxError ResultValue) :=
  block_on (call_native_async method params).
Definition call_native_committing (method : string) (params : Value)
    : HerdrProg (result MuxError ResultValue) :=
  block_on (call_native_committing_async method params).

(** ** The identity a pane has for a process *)
Definition revalidate_process_identity (expected : ProcessIdentity)
    : HerdrProg (result MuxError unit) :=
  let! observed := hcall (HInspect (pid expected)) in
  Ret (let? o := map_err (λ e, MuxErr.IdentityChanged
              ("could not revalidate process identity: " +:+ process_error_display e)) observed in
       fail_if (negb (pr_pid o =? pid expected) || negb (pr_start_time o =? start_time expected))
         (MuxErr.IdentityChanged
            "registered process identity changed during native Herdr resolution")).

Definition canonical_tty_of (tty : string) : HerdrProg (option string) :=
  if starts_with "/dev/" tty then
    let! rdev := hcall (HDevice tty) in
    Ret (match rdev with Ok d => Some (canonical_device d) | Err _ => None end)
  else Ret None.

Definition native_tty_matches (expected observed : string) : HerdrProg bool :=
  if String.eqb (normalized_tty expected) (normalized_tty observed) then Ret true
  else
    let! e := canonical_tty_of expected in
    if opt_str_eqb e (Some observed) then Ret true
    else
      let! o := canonical_tty_of observed in
      Ret (opt_str_eqb o (Some expected)).

Definition json_str (k v : string) : Value := VObject [(k, VString v)].

(** A call whose result has to be of one variant. *)
Definition expect {A} (c : HerdrProg (result MuxError ResultValue)) (pick : ResultValue → option A)
    (m : string) : HerdrProg (result MuxError A) :=
  try! v := c in Ret (ok_or (pick v) (MuxErr.Protocol m)).

Definition pick_pong (v : ResultValue) : option (string * Z) :=
  match v with Native.Pong version protocol => Some (version, protocol) | _ => None end.
Definition pick_pane (v : ResultValue) : option NativePane :=
  match v with Native.PaneCurrent p => Some p | _ => None end.
Definition pick_process_info (v : ResultValue) : option ProcessInfo :=
  match v with Native.PaneProcessInfo p => Some p | _ => None end.
Definition pick_read (v : ResultValue) : option ReadResult :=
  match v with Native.PaneRead r => Some r | _ => None end.

Definition context_matches (p : NativePane) : bool :=
  let c := hd_context hd in
  String.eqb (np_workspace_id p) (hc_workspace_id c) && String.eqb (np_tab_id p) (hc_tab_id c)
  && String.eqb (np_pane_id p) (hc_pane_id c).

Definition native_target_snapshot_async (expected : ProcessIdentity)
    : HerdrProg (result MuxError (MuxIdentity * Z)) :=
  let c := hd_context hd in
  try! socket := validate_socket env (hc_socket_path c) in
  try! pong := expect (call_native_async "ping" (VObject [])) pick_pong
                 "native ping returned wrong result type" in
  let version := pong.1 in let protocol := pong.2 in
  try! _ := lift (fail_if (negb (protocol =? PROTOCOL)) (MuxErr.IncompatibleProtocol
              ("native Herdr protocol " +:+ pretty protocol +:+ " is unsupported"))) in
  try! p := expect (call_native_async "pane.current" (json_str "caller_pane_id" (hc_pane_id c)))
              pick_pane "native pane.current returned wrong result type" in
  try! _ := lift (fail_if (negb (context_matches p)) (MuxErr.IdentityChanged
              "native Herdr pane context differs from registration context")) in
  try! info := expect (call_native_async "pane.process_info" (json_str "pane_id" (hc_pane_id c)))
                 pick_process_info "native pane.process_info returned wrong result type" in
  try! _ := lift (fail_if (negb (String.eqb (pf_pane_id info) (hc_pane_id c))
                           || negb (existsb (Z.eqb (pid expected)) (pf_foreground info)))
              (MuxErr.IdentityChanged "native Herdr pane does not contain the registered process")) in
  try! expected_tty := lift (ok_or (tty expected)
              (MuxErr.IdentityChanged "resolved process has no controlling TTY")) in
  let! same := match pf_tty info with
               | None => Ret true
               | Some observed => native_tty_matches expected_tty observed
               end in
  try! _ := lift (fail_if (negb same) (MuxErr.IdentityChanged
              "native Herdr pane TTY differs from the registered process")) in
  try! _ := revalidate_process_identity expected in
  Ret (Ok (mkMuxIdentity "herdr"
             ("native-" +:+ version +:+ "-protocol-" +:+ pretty protocol +:+ "-"
              +:+ pretty (si_device socket) +:+ "-" +:+ pretty (si_inode socket))
             (hc_socket_path c) (np_workspace_id p) (np_tab_id p) (np_pane_id p) expected_tty expected,
           np_revision p)).

Definition native_target_snapshot (expected : ProcessIdentity)
    : HerdrProg (result MuxError (MuxIdentity * Z)) :=
  block_on (native_target_snapshot_async expected).

Definition native_target (expected : ProcessIdentity) : HerdrProg (result MuxError MuxIdentity) :=
  try! s := native_target_snapshot expected in Ret (Ok s.1).
Definition native_target_async (expected : ProcessIdentity) : HerdrProg (result MuxError MuxIdentity) :=
  try! s := native_target_snapshot_async expected in Ret (Ok s.1).

(** The bridge's pane, or the native one where the bridge is not spoken. *)
Definition bridge_or_native (bridge native : HerdrProg (result MuxError MuxIdentity))
    (expected : ProcessIdentity) : HerdrProg (result MuxError MuxIdentity) :=
  if bool_decide (hc_wire_protocol (hd_context hd) = Native16) then native
  else
    let! found := bridge in
    match found with
    | Ok i =>
        Ret (if (pid (mi_process i) =? pid expected) && (start_time (mi_process i) =? start_time expected)
             then Ok i
             else Err (MuxErr.IdentityChanged "bridge pane process differs from resolved process"))
    | Err (MuxErr.IncompatibleProtocol m) =>
        if bool_decide (hc_wire_protocol (hd_context hd) = Auto) then native
        else Ret (Err (MuxErr.IncompatibleProtocol m))
    | Err e => Ret (Err e)
    end.

Definition current_target_for_process (expected : ProcessIdentity)
    : HerdrProg (result MuxError MuxIdentity) :=
  bridge_or_native (herdr_current_target env hd) (native_target expected) expected.

Definition current_target_for_process_async (expected : ProcessIdentity)
    : HerdrProg (result MuxError MuxIdentity) :=
  bridge_or_native (current_target_async env hd) (native_target_async expected) expected.

Definition validate_native_identity_at_revision (expected : MuxIdentity)
    : HerdrProg (result MuxError Z) :=
  try! s := native_target_snapshot (mi_process expected) in
  Ret (if bool_decide (s.1 = expected) then Ok s.2
       else Err (MuxErr.IdentityChanged "native Herdr target identity changed")).

Definition validate_native_identity (expected : MuxIdentity) : HerdrProg (result MuxError unit) :=
  try! _ := validate_native_identity_at_revision expected in Ret (Ok tt).

(** ** Reads and input *)
Definition read_contract (r : ReadResult) (max_bytes : Z) : bool :=
  let c := hd_context hd in
  String.eqb (rr_pane_id r) (hc_pane_id c) && String.eqb (rr_workspace_id r) (hc_workspace_id c)
  && String.eqb (rr_tab_id r) (hc_tab_id c) && String.eqb (rr_source r) "recent_unwrapped"
  && String.eqb (rr_format r) "plain" && (len (rr_text r) <=? max_bytes).

Definition capture_native (i : MuxIdentity) (lines max_bytes : Z)
    : HerdrProg (result MuxError PaneCapture) :=
  try! actual := current_target_for_process (mi_process i) in
  try! _ := lift (fail_if (negb (bool_decide (actual = i))) (MuxErr.IdentityChanged
              "native Herdr target changed before pane read")) in
  try! read := expect (call_native "pane.read"
                 (VObject [("pane_id", VString (hc_pane_id (hd_context hd)));
                           ("source", VString "recent_unwrapped");
                           ("lines", VNumber (PosInt lines)); ("strip_ansi", VBool true)]))
                 pick_read "native pane.read returned wrong result type" in
  try! _ := lift (fail_if (negb (read_contract read max_bytes)) (MuxErr.Protocol
              "native pane.read violated response contract")) in
  let! elapsed := hcall HElapsed in
  Ret (Ok (mkCapture (byte_list (rr_text read)) (String.length (rr_text read)) (rr_truncated read)
             elapsed)).

Definition submit_params (text : string) : Value :=
  VObject [("pane_id", VString (hc_pane_id (hd_context hd))); ("text", VString text);
           ("keys", VArray [VString "Enter"])].

(** What comes before the input request. *)
Definition submit_checks (i : MuxIdentity) (text : string) : HerdrProg (result MuxError unit) :=
  try! _ := lift (herdr_validate_literal text) in
  try! revision := validate_native_identity_at_revision i in
  try! _ := herdr_require_safe i in
  try! confirmed := validate_native_identity_at_revision i in
  try! _ := lift (fail_if (negb (confirmed =? revision)) (MuxErr.IdentityChanged
              "native Herdr pane revision changed before input dispatch")) in
  herdr_require_safe i.

Definition submit_native (i : MuxIdentity) (text : string) : HerdrProg (result MuxError unit) :=
  try! _ := submit_checks i text in
  try! ack := call_native_committing "pane.send_input" (submit_params text) in
  Ret (match ack with
       | Native.Acknowledged => Ok tt
       | _ => Err (MuxErr.CommandOutcomeUnknown
                "native pane.send_input returned an unexpected acknowledgement")
       end).
End Native.

(** ** The operations of the trait *)
Record AgentSession : Type := mkAgentSession {
  as_session_id : string; as_agent : string; as_process_id : Z }.
Record AgentEvent : Type := mkAgentEvent { ae_sequence : Z; ae_kind : string }.
Record AgentStateEvents : Type := mkAgentStateEvents { ase_state : string; ase_events : list AgentEvent }.

Definition dec_agent_session (v : Value) : option AgentSession :=
  fs ← members v;
  _ ← deny_unknown ["session_id"; "agent"; "process_id"] fs;
  session_id ← req "session_id" dec_string fs;
  agent ← req "agent" dec_string fs;
  process_id ← req "process_id" (dec_uint u32_max) fs;
  Some (mkAgentSession session_id agent process_id).

Definition dec_agent_event (v : Value) : option AgentEvent :=
  fs ← members v;
  _ ← deny_unknown ["sequence"; "kind"] fs;
  sequence ← req "sequence" (dec_uint u64_max) fs;
  kind ← req "kind" dec_string fs;
  Some (mkAgentEvent sequence kind).

Definition dec_agent_state_events (v : Value) : option AgentStateEvents :=
  fs ← members v;
  _ ← deny_unknown ["state"; "events"] fs;
  state ← req "state" dec_string fs;
  events ← req "events" (dec_list dec_agent_event) fs;
  Some (mkAgentStateEvents state events).

(** The result of [pane_read]. *)
Definition dec_pane_text (v : Value) : option (string * Z * bool) :=
  fs ← members v;
  _ ← deny_unknown ["text"; "bytes"; "truncated"] fs;
  text ← req "text" dec_string fs;
  n ← req "bytes" (dec_uint u64_max) fs;
  truncated ← req "truncated" dec_bool fs;
  Some (text, n, truncated).

(** A result with a single boolean field. *)
Definition dec_flag (name : string) (v : Value) : option bool :=
  fs ← members v; _ ← deny_unknown [name] fs; req name dec_bool fs.

Section Driver.
Context `{HerdrJson} `{DebugId} `{DebugIdentity} (env : HerdrEnv) (hd : Herdr).

Definition herdr_validate_identity (expected : MuxIdentity) : HerdrProg (result MuxError unit) :=
  if bool_decide (hc_wire_protocol (hd_context hd) = Native16)
  then validate_native_identity env hd expected
  else
    try! p := pane env hd "pane_info" in
    Ret (if bool_decide (pn_identity p = expected) then Ok tt
         else Err (MuxErr.IdentityChanged
                ("expected " +:+ debug_identity expected +:+ ", found "
                 +:+ debug_identity (pn_identity p)))).

Definition herdr_resolve_selector (s : HerdrContext) : HerdrProg (result MuxError MuxIdentity) :=
  if negb (bool_decide (s = hd_context hd))
  then Ret (Err (MuxErr.IdentityChanged "selector differs from inherited Herdr context"))
  else herdr_current_target env hd.

Definition herdr_pane_info (i : MuxIdentity) : HerdrProg (result MuxError PaneInfo) :=
  try! _ := herdr_validate_identity i in pane env hd "process_info".

Definition params_with (extra : Members) : Value := VObject (target_fields hd ++ extra).

Definition read_params (lines max_bytes : Z) : Value :=
  params_with [("max_lines", VNumber (PosInt lines)); ("max_bytes", VNumber (PosInt max_bytes));
               ("recent_unwrapped", VBool true); ("detect_state", VBool true)].

Definition pane_text_contract (r : string * Z * bool) (max_bytes : Z) : result MuxError unit :=
  fail_if ((max_bytes <? r.1.2) || negb (len r.1.1 =? r.1.2))
    (MuxErr.Protocol "pane read violated byte contract").

Definition captured (r : string * Z * bool) (elapsed : Z) : PaneCapture :=
  mkCapture (byte_list r.1.1) (Z.to_nat r.1.2) r.2 elapsed.

Definition herdr_capture_tail (i : MuxIdentity) (lines max_bytes : Z)
    : HerdrProg (result MuxError PaneCapture) :=
  if (lines =? 0) || (max_bytes =? 0) then Ret (Ok empty_capture)
  else if (HERDR_MAX_CAPTURE_LINES <? lines) || (HERDR_MAX_CAPTURE_BYTES <? max_bytes)
  then Ret (Err (MuxErr.Protocol "pane read bounds exceeded"))
  else if bool_decide (hc_wire_protocol (hd_context hd) = Native16)
  then capture_native env hd i lines max_bytes
  else
    try! _ := herdr_validate_identity i in
    try! r := bridge_call env hd dec_pane_text "pane_read" (read_params lines max_bytes) in
    try! _ := lift (pane_text_contract r max_bytes) in
    try! _ := herdr_validate_identity i in
    let! elapsed := hcall HElapsed in
    Ret (Ok (captured r elapsed)).

Definition target_unchanged_async (expected : MuxIdentity) : HerdrProg (result MuxError unit) :=
  try! actual := current_target_async env hd in
  Ret (fail_if (negb (bool_decide (actual = expected)))
         (MuxErr.IdentityChanged "Herdr target changed")).

Definition capture_tail_async (expected : MuxIdentity) (lines max_bytes : Z)
    : HerdrProg (result MuxError PaneCapture) :=
  if (lines =? 0) || (HERDR_MAX_CAPTURE_LINES <? lines) || (max_bytes =? 0)
     || (HERDR_MAX_CAPTURE_BYTES <? max_bytes)
  then Ret (Err (MuxErr.Protocol "pane read bounds exceeded"))
  else
    try! _ := target_unchanged_async expected in
    try! r := call_async env hd dec_pane_text "pane_read" (read_params lines max_bytes) in
    try! _ := lift (pane_text_contract r max_bytes) in
    try! _ := target_unchanged_async expected in
    let! elapsed := hcall HElapsed in
    Ret (Ok (captured r elapsed)).

Definition events_params (after max_events : Z) : Value :=
  params_with [("after", VNumber (PosInt after)); ("max_events", VNumber (PosInt max_events))].

Definition events_bound (max_events : Z) : result MuxError unit :=
  fail_if ((max_events =? 0) || (1000 <? max_events)) (MuxErr.Protocol "max_events is out of bounds").

Definition agent_session (i : MuxIdentity) : HerdrProg (result MuxError AgentSession) :=
  try! _ := herdr_validate_identity i in
  bridge_call env hd dec_agent_session "agent_session" (target_params hd).

Definition agent_state_events (i : MuxIdentity) (after max_events : Z)
    : HerdrProg (result MuxError AgentStateEvents) :=
  try! _ := herdr_validate_identity i in
  try! _ := lift (events_bound max_events) in
  bridge_call env hd dec_agent_state_events "agent_state_events" (events_params after max_events).

Definition agent_state_events_async (expected : MuxIdentity) (after max_events : Z)
    : HerdrProg (result MuxError AgentStateEvents) :=
  try! _ := lift (events_bound max_events) in
  try! _ := target_unchanged_async expected in
  call_async env hd dec_agent_state_events "agent_state_events" (events_params after max_events).

Definition herdr_notify (i : MuxIdentity) (title body : string) : HerdrProg (result MuxError bool) :=
  try! _ := herdr_validate_identity i in
  try! _ := lift (herdr_validate_literal title) in
  try! _ := lift (herdr_validate_literal body) in
  bridge_call env hd (dec_flag "delivered") "notification"
    (params_with [("title", VString title); ("body", VString body)]).

(** Two validations, each followed by the composer guard, then the request, then both
    again. *)
Definition bridge_input (i : MuxIdentity) (method : string) (extra : Members) (refused : string)
    : HerdrProg (result MuxError unit) :=
  try! _ := herdr_validate_identity i in
  try! _ := herdr_require_safe i in
  try! _ := herdr_validate_identity i in
  try! _ := herdr_require_safe i in
  try! accepted := bridge_call env hd (dec_flag "accepted") method (params_with extra) in
  try! _ := lift (fail_if (negb accepted) (MuxErr.Protocol refused)) in
  try! _ := herdr_validate_identity i in
  herdr_require_safe i.

Definition herdr_send_literal (i : MuxIdentity) (text : string) : HerdrProg (result MuxError unit) :=
  try! _ := lift (herdr_validate_literal text) in
  bridge_input i "send_text" [("text", VString text)] "Herdr refused literal input".

Definition herdr_send_key (i : MuxIdentity) (key : SymbolicKey) : HerdrProg (result MuxError unit) :=
  bridge_input i "send_keys" [("keys", VArray [VString (key_name key)])]
    "Herdr refused symbolic input".

Definition herdr_submit_literal (i : MuxIdentity) (text : string) : HerdrProg (result MuxError unit) :=
  if negb (bool_decide (hc_wire_protocol (hd_context hd) = Native16))
  then Ret (Err (MuxErr.Command "atomic text submission requires native Herdr"))
  else submit_native env hd i text.

Definition herdr : Multiplexer HerdrAns :=
  mkMultiplexer (herdr_current_target env hd) herdr_pane_info herdr_validate_identity
    herdr_capture_tail herdr_send_literal herdr_submit_literal herdr_send_key.
End Driver.
