(* ===== verification/HerdrSafety.v ===== *)
(** * Properties of the Herdr driver (src/src/mux/herdr)

    Nothing is written to a socket that was not verified, native input is never
    reported as a clean failure once it was written, and it is written only to an
    attested pane with a safe composer. *)
From S2P Require Import Prelude Text Utf8 Json Serde Action Event Identity Process Actuator Effects.
From S2P Require Import Runtime Mux Hooks Services Herdr HerdrNative.
From stdpp Require Import pretty.

Local Open Scope Z_scope.

Definition is_write (e : Ev HerdrAns) : Prop := ∃ bs x, e = existT (HWrite bs) x.

Definition unknown_outcome (e : MuxError) : Prop :=
  match e with MuxErr.CommandOutcomeUnknown _ => True | _ => False end.

Lemma hcall_traces o tr (x : HerdrAns o) : traces (hcall o) tr x ↔ tr = [existT o x].
Proof. apply traces_call. Qed.

(** Peel the next call off a conversation. *)
Ltac next_call H :=
  let x := fresh "x" in
  apply traces_bind in H as (? & ? & x & -> & ->%hcall_traces & H).

Section Sockets.
Context (env : HerdrEnv).

Definition owned_socket (path : string) (m : SocketStat) : Prop :=
  is_absolute path = true ∧ st_symlink m = false ∧ validate_for_uid (st_meta m) (he_euid env) = Ok tt.

(** The calls that verify a socket before a request is written to it. *)
Definition verification (path : string) (m : SocketStat) (c : string) (ev : ConnectedSocketEvidence)
    : list (Ev HerdrAns) :=
  [existT (HStat path) (Ok m); existT (HCanonicalize path) (Ok c); existT HRemaining true;
   existT (HConnect path) (Ready (Ok tt)); existT (HEvidence path) ev].

Lemma validate_socket_traces path tr r :
  traces (validate_socket env path) tr r →
  (∀ e, e ∈ tr → ¬ is_write e)
  ∧ (∀ e, r = Err e → ¬ unknown_outcome e)
  ∧ (∀ s, r = Ok s → ∃ m c, tr = [existT (HStat path) (Ok m); existT (HCanonicalize path) (Ok c)]
        ∧ owned_socket path m ∧ s = mkSocketIdentity (st_device m) (st_inode m) c).
Proof.
  unfold validate_socket. destruct (is_absolute path) eqn:Ha; cbn.
  2:{ intros [-> ->]. split; [by intros e ?%elem_of_nil|]. split; [by intros e [= <-] []|done]. }
  intros ([m|e] & tr1 & -> & Hr); cbn in Hr.
  2:{ destruct Hr as [-> ->]. split; [by intros e' ->%list_elem_of_singleton (? & ? & ?)|].
      split; [by intros e' [= <-] []|done]. }
  destruct (st_symlink m) eqn:Es; cbn in Hr.
  { destruct Hr as [-> ->]. split; [by intros e' ->%list_elem_of_singleton (? & ? & ?)|].
    split; [by intros e' [= <-] []|done]. }
  destruct Hr as (c & tr2 & -> & -> & ->). split.
  { intros e He. rewrite !elem_of_cons, elem_of_nil in He. destruct He as [->|[->|[]]];
      by intros (? & ? & ?). }
  destruct c as [c|e]; cbn; [|split; [by intros e' [= <-] []|done]].
  destruct (validate_for_uid (st_meta m) (he_euid env)) as [[]|e] eqn:Ev; cbn.
  - split; [done|]. intros s [= <-]. exists m, c. done.
  - split; [|done]. intros e' [= <-]. revert Ev. unfold validate_for_uid, fail_if.
    repeat case_bool; cbn; intros [= <-]; by intros [].
Qed.

Lemma read_loop_traces fuel oc acc tr r :
  traces (read_loop fuel oc acc) tr r →
  (∀ e, e ∈ tr → ¬ is_write e)
  ∧ (∀ e, r = Ready (Err e) → if oc then unknown_outcome e else ¬ unknown_outcome e).
Proof.
  revert acc tr. induction fuel as [|fuel IH]; intros acc tr; cbn.
  { intros [-> ->]. split; [by intros e ?%elem_of_nil|done]. }
  intros ([[b|e]|] & tr1 & -> & Hr).
  - assert ((∀ e, e ∈ tr1 → ¬ is_write e)
            ∧ (∀ e, r = Ready (Err e) → if oc then unknown_outcome e else ¬ unknown_outcome e)) as [Hw He].
    { case_bool_in Hr; [destruct Hr as [-> ->]; split; [by intros e ?%elem_of_nil|done]|by eapply IH]. }
    split; [|done]. intros e [->|Hin]%elem_of_cons; [by intros (? & ? & ?)|by apply Hw].
  - destruct Hr as [-> ->]. split; [by intros e' ->%list_elem_of_singleton (? & ? & ?)|].
    intros e' [= <-]. destruct oc; [done|]. unfold map_io. by destruct (io_timeout e); intros [].
  - destruct Hr as [-> ->]. split; [by intros e' ->%list_elem_of_singleton (? & ? & ?)|done].
Qed.

Lemma evidence_error e d i u err : evidence_validate e d i u = Err err → ¬ unknown_outcome err.
Proof.
  unfold evidence_validate, fail_if. case_bool; cbn; [by intros [= <-] []|].
  destruct (ev_peer_uid e); cbn; [|by intros [= <-] []]. case_bool; cbn; [by intros [= <-] []|done].
Qed.

Context (hd : Herdr).
Abbreviation path := (hc_socket_path (hd_context hd)).

(** The future under the timeout: no write and no commitment, or the socket was
    verified, the request written, and the flag says whether the write completed. *)
Lemma exchange_future_traces s bytes oc tr c v :
  traces (exchange_future env hd s bytes oc) tr (c, v) →
  ((∀ e, e ∈ tr → ¬ is_write e) ∧ c = false ∧ ∀ r, v = Ready r → ∃ e, r = Err e ∧ ¬ unknown_outcome e)
  ∨ ∃ ev x rest, tr = [existT (HConnect path) (Ready (Ok tt)); existT (HEvidence path) ev]
                      ++ existT (HWrite bytes) x :: rest
      ∧ (∀ e, e ∈ rest → ¬ is_write e)
      ∧ evidence_validate ev (si_device s) (si_inode s) (he_euid env) = Ok tt
      ∧ (x = Ready (Ok tt) ↔ c = true)
      ∧ (∀ e, v = Ready (Err e) → unknown_outcome e ↔ c = true ∧ oc = true)
      ∧ (∀ b, v = Ready (Ok b) → c = true).
Proof.
  unfold exchange_future. cbn.
  intros ([[[]|e]|] & tr1 & -> & Hr).
  2:{ destruct Hr as [-> [= -> ->]]. left. split; [by intros e' ->%list_elem_of_singleton (? & ? & ?)|].
      split; [done|]. intros r [= <-]. eexists. split; [done|]. unfold map_io. by destruct (io_timeout e); intros []. }
  2:{ destruct Hr as [-> [= -> ->]]. left. split; [by intros e' ->%list_elem_of_singleton (? & ? & ?)|done]. }
  destruct Hr as (ev & tr2 & -> & Hr).
  destruct (evidence_validate ev (si_device s) (si_inode s) (he_euid env)) as [[]|e] eqn:Ev.
  2:{ destruct Hr as [-> [= -> ->]]. left. split.
      - intros e' He'. rewrite !elem_of_cons, elem_of_nil in He'.
        destruct He' as [->|[->|[]]]; by intros (? & ? & ?).
      - split; [done|]. intros r [= <-]. eauto using evidence_error. }
  destruct Hr as (x & tr3 & -> & Hr). right. exists ev, x, tr3. split; [done|].
  destruct x as [[[]|e]|].
  - apply traces_bind in Hr as (tr4 & tr5 & v' & -> & Hv & [-> [= -> ->]]).
    apply read_loop_traces in Hv as [Hw He]. rewrite app_nil_r. split; [done|]. split; [done|].
    split; [done|]. split; [|done]. intros e ->. specialize (He e eq_refl).
    destruct oc; split; naive_solver.
  - destruct Hr as [-> [= -> ->]]. split; [by intros e' ?%elem_of_nil|]. split; [done|].
    split; [done|]. split; [|done]. intros e' [= <-]. unfold map_io.
    destruct (io_timeout e); split; (by intros [] || by intros [??]).
  - destruct Hr as [-> [= -> ->]]. split; [by intros e' ?%elem_of_nil|done].
Qed.

(** One exchange: it failed before writing, or it verified the socket, wrote the request
    once, and, when failures after the write are to be reported as unknown, exactly the
    failures after a completed write are. *)
Lemma exchange_traces bytes oc tr r :
  traces (exchange_with_commit_state env hd bytes oc) tr r →
  ((∀ e, e ∈ tr → ¬ is_write e) ∧ ∃ e, r = Err e ∧ ¬ unknown_outcome e)
  ∨ ∃ m c ev x rest, tr = verification path m c ev ++ existT (HWrite bytes) x :: rest
      ∧ (∀ e, e ∈ rest → ¬ is_write e) ∧ owned_socket path m
      ∧ evidence_validate ev (st_device m) (st_inode m) (he_euid env) = Ok tt
      ∧ (∀ e, r = Err e → unknown_outcome e ↔ x = Ready (Ok tt) ∧ oc = true)
      ∧ (∀ b, r = Ok b → x = Ready (Ok tt)).
Proof.
  unfold exchange_with_commit_state. rewrite traces_try.
  intros [(e & -> & (Hw & He & _)%validate_socket_traces)|(tr1 & tr2 & s & -> & Hv & Hr)].
  { left. split; [done|]. exists e. eauto. }
  apply validate_socket_traces in Hv as (_ & _ & Hs).
  destruct (Hs s eq_refl) as (m & c & -> & Hown & ->). clear Hs.
  apply traces_bind in Hr as (tr3 & tr3' & rem & -> & ->%hcall_traces & Hr).
  destruct rem; cbn [negb] in Hr.
  2:{ destruct Hr as [-> ->]. left. split.
      - intros e He. cbn in He. rewrite !elem_of_cons, elem_of_nil in He.
        destruct He as [->|[->|[->|[]]]]; by intros (? & ? & ?).
      - eexists. split; [done|]. by intros []. }
  apply traces_bind in Hr as (tr4 & tr5 & [cm v] & -> & Hf & Hr).
  assert (∀ e, e ∈ tr5 → ¬ is_write e) as Hw5.
  { intros e He. destruct v as [[b|e']|]; [|by destruct Hr as [-> _]; apply elem_of_nil in He..].
    destruct (MAX_RESPONSE_BYTES <? _); [by destruct Hr as [-> _]; apply elem_of_nil in He|].
    destruct (negb _); [by destruct Hr as [-> _]; apply elem_of_nil in He|].
    apply traces_bind in Hr as (tr6 & tr7 & el & -> & ->%hcall_traces & Hr).
    destruct (_ <=? _); destruct Hr as [-> _]; rewrite app_nil_r in He;
      apply list_elem_of_singleton in He as ->; by intros (? & ? & ?). }
  apply exchange_future_traces in Hf as [(Hw & -> & Hv)|(ev & x & rest & -> & Hw & Hev & Hc & He & Hok)].
  - left. split.
    + intros e Hin. cbn in Hin. rewrite !elem_of_cons, elem_of_app in Hin.
      destruct Hin as [->|[->|[->|[Hin|Hin]]]]; [by intros (? & ? & ?)..|by apply Hw|by apply Hw5].
    + destruct v as [v|]; [|destruct Hr as [_ ->]; eexists; split; [done|]; destruct oc; by intros []].
      destruct (Hv v eq_refl) as (e & -> & He). destruct Hr as [_ ->]. eauto.
  - right. exists m, c, ev, x, (rest ++ tr5).
    split; [done|]. split.
    { intros e [Hin|Hin]%elem_of_app; [by apply Hw|by apply Hw5]. }
    split; [done|]. split; [done|]. setoid_rewrite Hc. clear Hw5 Hw. destruct v as [[b|e]|].
    + rewrite (Hok b eq_refl). split; [|done]. intros e. unfold committed_response_error in Hr.
      destruct (MAX_RESPONSE_BYTES <? _);
        [destruct Hr as [_ ->]; intros [= <-]; destruct oc; naive_solver|].
      destruct (negb _); [destruct Hr as [_ ->]; intros [= <-]; destruct oc; naive_solver|].
      apply traces_bind in Hr as (tr6 & tr7 & el & _ & _ & Hr).
      destruct (_ <=? _); destruct Hr as [_ ->]; [|done].
      intros [= <-]. destruct oc; naive_solver.
    + destruct Hr as [_ ->]. split; [|done]. intros e' [= <-]. by apply He.
    + destruct Hr as [_ ->]. split; [|done]. intros e' [= <-]. destruct oc, cm; naive_solver.
Qed.
End Sockets.

(** ** Writes go to verified sockets *)
Section Writes.
Context `{HerdrJson} `{DebugId} `{DebugIdentity} (env : HerdrEnv).

(** What the checks establish: an absolute path that is no link, a socket of the user that
    nobody else may write, the same device and inode after connecting, a peer of the user. *)
Definition socket_verified (path : string) (m : SocketStat) (ev : ConnectedSocketEvidence) : Prop :=
  is_absolute path = true ∧ st_symlink m = false ∧ sm_is_socket (st_meta m) = true
  ∧ sm_uid (st_meta m) = he_euid env ∧ Z.land (sm_mode (st_meta m)) 18 = 0
  ∧ ev_path_device ev = st_device m ∧ ev_path_inode ev = st_inode m
  ∧ ev_peer_uid ev = Ok (he_euid env).

Lemma checks_verify path m ev :
  owned_socket env path m → evidence_validate ev (st_device m) (st_inode m) (he_euid env) = Ok tt →
  socket_verified path m ev.
Proof.
  unfold owned_socket, validate_for_uid, evidence_validate. intros (Ha & Hl & Hm) He.
  inv_watch. destruct (ev_peer_uid ev) as [u|] eqn:Hu; [|done]. inv_watch. subst.
  unfold socket_verified. auto 10.
Qed.

Definition write_backed (l1 : list (Ev HerdrAns)) (e : Ev HerdrAns) : Prop :=
  is_write e → ∃ l0 path m c ev, l1 = l0 ++ verification path m c ev ∧ socket_verified path m ev.

Definition verified_writes : list (Ev HerdrAns) → Prop := backed write_backed.

Lemma verified_nil : verified_writes [].
Proof. apply backed_nil. Qed.

Lemma verified_app l1 l2 : verified_writes l1 → verified_writes l2 → verified_writes (l1 ++ l2).
Proof.
  apply backed_app. intros l0 l e Hj He. destruct (Hj He) as (k & path & m & c & ev & -> & ?).
  exists (l0 ++ k), path, m, c, ev. by rewrite <- app_assoc.
Qed.

Lemma verified_none tr : (∀ e, e ∈ tr → ¬ is_write e) → verified_writes tr.
Proof. intros Hn. apply backed_all. intros l1 e He Hw. by destruct (Hn e). Qed.

Abbreviation ok := (respects verified_writes).

Lemma ok_ret {A} (a : A) : ok (Ret a).
Proof. apply respects_ret, verified_nil. Qed.
Lemma ok_lift {A} (a : A) : ok (lift a).
Proof. apply ok_ret. Qed.
Lemma ok_bind {A B} (p : HerdrProg A) (f : A → HerdrProg B) : ok p → (∀ a, ok (f a)) → ok (bind p f).
Proof. apply respects_bind, verified_app. Qed.
Lemma ok_try {E A B} (p : HerdrProg (result E A)) (f : A → HerdrProg (result E B)) :
  ok p → (∀ a, ok (f a)) → ok (prog_try p f).
Proof. apply respects_try; [apply verified_nil|apply verified_app]. Qed.
Lemma ok_call o : (∀ bs, o ≠ HWrite bs) → ok (hcall o).
Proof.
  intros Ho. apply respects_call. intros x. apply verified_none.
  intros e ->%list_elem_of_singleton (bs & y & Heq).
  apply (f_equal (@projT1 _ _)) in Heq. by eapply Ho.
Qed.

Lemma ok_socket path : ok (validate_socket env path).
Proof. intros tr r (Hn & _)%validate_socket_traces. by apply verified_none. Qed.

Lemma ok_exchange hd bytes oc : ok (exchange_with_commit_state env hd bytes oc).
Proof.
  intros tr r [(Hn & _)|(m & c & ev & x & rest & -> & Hrest & Hown & Hev & _)]%exchange_traces;
    [by apply verified_none|].
  apply backed_snoc.
  - apply verified_none. intros e He. unfold verification in He.
    rewrite !elem_of_cons, elem_of_nil in He.
    destruct He as [->|[->|[->|[->|[->|[]]]]]]; by intros (? & ? & ?).
  - intros _. exists [], (hc_socket_path (hd_context hd)), m, c, ev. auto using checks_verify.
  - intros l1 e He Hw. by destruct (Hrest e).
Qed.

Create HintDb herdr.
Hint Resolve ok_ret ok_lift ok_bind ok_try ok_socket ok_exchange : herdr.
Hint Extern 1 (@respects _ _ _ _ (hcall ?o)) => refine (ok_call o _); discriminate : herdr.
Hint Extern 2 (ok (if ?b then _ else _)) => destruct b : herdr.
Hint Extern 2 (ok (match ?x with _ => _ end)) => destruct x : herdr.
Hint Extern 3 (∀ _, ok _) => intros ? : herdr.
Ltac ok_auto := auto 40 with herdr.

Lemma ok_id : ok (next_request_id env).
Proof. unfold next_request_id. ok_auto. Qed.
Lemma ok_block {A} (p : HerdrProg (result MuxError A)) : ok p → ok (block_on p).
Proof. intros. unfold block_on. ok_auto. Qed.
Hint Resolve ok_id ok_block : herdr.

Context (hd : Herdr).

Lemma ok_call_async {T} (dec : Value → option T) m p : ok (call_async env hd dec m p).
Proof. unfold call_async, exchange_async. ok_auto. Qed.
Hint Resolve ok_call_async : herdr.
Lemma ok_bridge {T} (dec : Value → option T) m p : ok (bridge_call env hd dec m p).
Proof. unfold bridge_call. ok_auto. Qed.
Hint Resolve ok_bridge : herdr.
Lemma ok_pane m : ok (pane env hd m).
Proof. unfold pane. ok_auto. Qed.
Hint Resolve ok_pane : herdr.
Lemma ok_current : ok (herdr_current_target env hd).
Proof. unfold herdr_current_target. ok_auto. Qed.
Lemma ok_safe i : ok (herdr_require_safe i).
Proof. unfold herdr_require_safe. ok_auto. Qed.
Lemma ok_native m p : ok (call_native_async env hd m p).
Proof. unfold call_native_async, exchange_async. ok_auto. Qed.
Lemma ok_committing m p : ok (call_native_committing_async env hd m p).
Proof. unfold call_native_committing_async, exchange_committing_async. ok_auto. Qed.
Hint Resolve ok_current ok_safe ok_native ok_committing : herdr.
Lemma ok_expect {A} c (pick : ResultValue → option A) m : ok c → ok (expect c pick m).
Proof. intros. unfold expect. ok_auto. Qed.
Lemma ok_tty a b : ok (native_tty_matches a b).
Proof. unfold native_tty_matches, canonical_tty_of. ok_auto. Qed.
Lemma ok_revalidate e : ok (revalidate_process_identity e).
Proof. unfold revalidate_process_identity. ok_auto. Qed.
Hint Resolve ok_expect ok_tty ok_revalidate : herdr.
Lemma ok_snapshot e : ok (native_target_snapshot env hd e).
Proof. unfold native_target_snapshot. apply ok_block. unfold native_target_snapshot_async. ok_auto. Qed.
Hint Resolve ok_snapshot : herdr.
Lemma ok_at_revision i : ok (validate_native_identity_at_revision env hd i).
Proof. unfold validate_native_identity_at_revision. ok_auto. Qed.
Hint Resolve ok_at_revision : herdr.
Lemma ok_validate i : ok (herdr_validate_identity env hd i).
Proof. unfold herdr_validate_identity, validate_native_identity. ok_auto. Qed.
Hint Resolve ok_validate : herdr.
Lemma ok_input i m x s : ok (bridge_input env hd i m x s).
Proof. unfold bridge_input. ok_auto. Qed.
Lemma ok_checks i t : ok (submit_checks env hd i t).
Proof. unfold submit_checks. ok_auto. Qed.
Hint Resolve ok_input ok_checks : herdr.
Lemma ok_submit i t : ok (herdr_submit_literal env hd i t).
Proof. unfold herdr_submit_literal, submit_native, call_native_committing. ok_auto. Qed.
Lemma ok_key i k : ok (herdr_send_key env hd i k).
Proof. unfold herdr_send_key. ok_auto. Qed.
Lemma ok_literal i t : ok (herdr_send_literal env hd i t).
Proof. unfold herdr_send_literal. ok_auto. Qed.
Lemma ok_capture i n b : ok (herdr_capture_tail env hd i n b).
Proof.
  unfold herdr_capture_tail, capture_native, current_target_for_process, bridge_or_native, native_target,
    call_native. ok_auto.
Qed.
End Writes.

(** ** Native input *)
Section Submit.
Context `{HerdrJson} `{DebugId} (env : HerdrEnv) (hd : Herdr).

(** A conversation in which the native protocol attested the identity at a revision. *)
Definition native_attests (i : MuxIdentity) (revision : Z) (tr : list (Ev HerdrAns)) : Prop :=
  traces (validate_native_identity_at_revision env hd i) tr (Ok revision).

Lemma block_on_Ok {A} (p : HerdrProg (result MuxError A)) tr a :
  traces (block_on p) tr (Ok a) → ∃ tr1 tr2, tr = tr1 ++ tr2 ∧ traces p tr2 (Ok a).
Proof.
  unfold block_on. intros H1. next_call H1. destruct x; [by destruct H1|].
  next_call H1. apply traces_try in H1 as [(e & ? & _)|(tr1 & tr2 & [] & -> & [-> _] & Hp)]; [done|].
  by exists [existT HInRuntime false; existT HBuildRuntime x], tr2.
Qed.

Lemma try_Ok {A B} (p : HerdrProg (result MuxError A)) (f : A → HerdrProg (result MuxError B)) tr b :
  traces (prog_try p f) tr (Ok b) →
  ∃ tr1 tr2 a, tr = tr1 ++ tr2 ∧ traces p tr1 (Ok a) ∧ traces (f a) tr2 (Ok b).
Proof. rewrite traces_try. by intros [(e & ? & _)|?]. Qed.

Lemma lift_fail_Ok b (e : MuxError) tr u :
  traces (lift (fail_if b e) : HerdrProg (result MuxError unit)) tr (Ok u) → tr = [] ∧ b = false.
Proof. intros [-> Hb]. split; [done|]. symmetry in Hb. by apply fail_if_Ok in Hb. Qed.

Lemma safe_Ok i tr u :
  traces (herdr_require_safe i) tr (Ok u) → tr = [existT (HObserve i) (Ok Composer.Safe)].
Proof.
  intros (t1 & t2 & s & -> & ->%(hcall_traces (HObserve i)) & [-> Hs])%try_Ok. by destruct s.
Qed.

(** What an attestation consists of: the process was inspected and is the recorded one,
    and the pane the server reported is the one of the driver's context. *)
Lemma native_attests_spec i revision tr :
  native_attests i revision tr →
  (∃ o, existT (HInspect (pid (mi_process i))) (Ok o) ∈ tr
     ∧ pr_pid o = pid (mi_process i) ∧ pr_start_time o = start_time (mi_process i))
  ∧ mi_server i = hc_socket_path (hd_context hd)
  ∧ mi_session_id i = hc_workspace_id (hd_context hd)
  ∧ mi_window_id i = hc_tab_id (hd_context hd) ∧ mi_pane_id i = hc_pane_id (hd_context hd)
  ∧ tty (mi_process i) = Some (mi_tty i).
Proof.
  intros (tr1 & tr2 & [i' rev'] & -> & (t1 & t2 & -> & Hs)%block_on_Ok & [-> Hr])%try_Ok.
  case_bool_in Hr; [|done]. apply bool_decide_eq_true in Heqb. cbn [fst] in Heqb. subst i'. clear Hr.
  apply try_Ok in Hs as (a1 & a2 & socket & -> & _ & Hs).
  apply try_Ok in Hs as (a3 & a4 & pong & -> & _ & Hs).
  apply try_Ok in Hs as (a5 & a6 & [] & -> & _ & Hs).
  apply try_Ok in Hs as (a7 & a8 & p & -> & _ & Hs).
  apply try_Ok in Hs as (a9 & b1 & [] & -> & [-> Hctx]%lift_fail_Ok & Hs).
  apply try_Ok in Hs as (b2 & b3 & info & -> & _ & Hs).
  apply try_Ok in Hs as (b4 & b5 & [] & -> & _ & Hs).
  apply try_Ok in Hs as (b6 & b7 & tt0 & -> & [_ Htty] & Hs).
  apply traces_bind in Hs as (b8 & b9 & same & -> & _ & Hs).
  apply try_Ok in Hs as (c1 & c2 & [] & -> & _ & Hs).
  apply try_Ok in Hs as (c3 & c4 & [] & -> & Hv & [-> [= -> _]]).
  unfold revalidate_process_identity in Hv. next_call Hv. destruct Hv as [-> Hv].
  symmetry in Hv, Htty. apply rbind_Ok in Hv as (o & Ho%map_err_Ok & Hv). apply ok_or_Ok in Htty.
  unfold context_matches in Hctx. subst x. inv_watch. cbn. split; [|done].
  exists o. split; [|done]. set_solver.
Qed.

Definition write_answer (e : Ev HerdrAns) : option (Await (result IoError unit)) :=
  match e with
  | existT o x =>
      match o return HerdrAns o → option (Await (result IoError unit)) with
      | HWrite _ => λ x, Some x
      | _ => λ _, None
      end x
  end.

(** The input request was written completely. *)
Definition written (tr : list (Ev HerdrAns)) : Prop :=
  ∃ bs, existT (HWrite bs) (Ready (Ok tt)) ∈ tr.

Lemma not_written tr : (∀ e, e ∈ tr → ¬ is_write e) → ¬ written tr.
Proof. intros Hn [bs Hb]. apply (Hn _ Hb). by eexists _, _. Qed.

Lemma written_once m c ev bytes x rest path :
  (∀ e, e ∈ rest → ¬ is_write e) →
  written (verification path m c ev ++ existT (HWrite bytes) x :: rest) ↔ x = Ready (Ok tt).
Proof.
  intros Hn. split.
  - intros [bs Hb]. apply elem_of_app in Hb as [Hb|Hb].
    + unfold verification in Hb. rewrite !elem_of_cons, elem_of_nil in Hb. by destruct_or! Hb.
    + apply elem_of_cons in Hb as [Hb|Hb]; [|destruct (Hn _ Hb); by eexists _, _].
      apply (f_equal write_answer) in Hb. by injection Hb.
  - intros ->. exists bytes. set_solver.
Qed.

Lemma written_app tr1 tr2 :
  (∀ e, e ∈ tr1 → ¬ is_write e) → written (tr1 ++ tr2) ↔ written tr2.
Proof.
  intros Hn. unfold written. setoid_rewrite elem_of_app. split; [|naive_solver].
  intros (bs & [Hb|Hb]); [destruct (Hn _ Hb); by eexists _, _|eauto].
Qed.

(** A program that writes nothing and fails cleanly. *)
Definition quiet {A} (p : HerdrProg (result MuxError A)) : Prop :=
  ∀ tr r, traces p tr r →
    (∀ e, e ∈ tr → ¬ is_write e) ∧ (∀ e, r = Err e → ¬ unknown_outcome e).

(** A program that fails cleanly when its request was not written, and otherwise
    succeeds or says that the outcome is unknown. *)
Definition settles {A} (p : HerdrProg (result MuxError A)) : Prop :=
  ∀ tr r, traces p tr r →
    (written tr ∧ ∀ e, r = Err e → unknown_outcome e)
    ∨ (¬ written tr ∧ ∃ e, r = Err e ∧ ¬ unknown_outcome e).

Lemma settles_fail {A} e : ¬ unknown_outcome e → settles (Ret (Err e) : HerdrProg (result MuxError A)).
Proof. intros He tr r [-> ->]. right. split; [by intros [bs ?%elem_of_nil]|eauto]. Qed.

Lemma settles_call {A} o (f : HerdrAns o → HerdrProg (result MuxError A)) :
  (∀ bs, o ≠ HWrite bs) → (∀ x, settles (f x)) → settles (bind (hcall o) f).
Proof.
  intros Ho Hf tr r Hr. next_call Hr. apply Hf in Hr. rewrite written_app; [done|].
  intros e ->%list_elem_of_singleton (bs & y & Heq). apply (f_equal (@projT1 _ _)) in Heq.
  by eapply Ho.
Qed.

Lemma settles_try {A B} (p : HerdrProg (result MuxError A)) (f : A → HerdrProg (result MuxError B)) :
  quiet p → (∀ a, settles (f a)) → settles (prog_try p f).
Proof.
  intros Hp Hf tr r [(e & -> & [Hn He]%Hp)|(tr1 & tr2 & a & -> & [Hn _]%Hp & Hr)]%traces_try.
  - right. split; [by apply not_written|eauto].
  - rewrite written_app by done. by apply Hf in Hr.
Qed.

Lemma quiet_lift {A} (r : result MuxError A) :
  (∀ e, r = Err e → ¬ unknown_outcome e) → quiet (lift r).
Proof. intros Hr tr r' [-> ->]. split; [by intros e ?%elem_of_nil|done]. Qed.

Lemma quiet_id : quiet (next_request_id env).
Proof.
  intros tr r Hr. next_call Hr. destruct Hr as [-> ->]. split.
  - rewrite app_nil_r. by intros e ->%list_elem_of_singleton (? & ? & ?).
  - destruct x; cbn; intros e; [done|]. by intros [= <-] [].
Qed.

Lemma quiet_encode v : ∀ e, encode_request v = Err e → ¬ unknown_outcome e.
Proof.
  intros e. unfold encode_request, fail_if. destruct (json_to_vec v); cbn; [|by intros [= <-] []].
  case_bool; cbn; [by intros [= <-] []|done].
Qed.

Lemma await_done (x : Await (result IoError unit)) : x = Ready (Ok tt) ∨ x ≠ Ready (Ok tt).
Proof. destruct x as [[[]|]|]; [by left|by right..]. Qed.

Lemma settles_committing m p : settles (call_native_committing env hd m p).
Proof.
  unfold call_native_committing, block_on. apply settles_call; [done|]. intros [].
  { apply settles_fail. by intros []. }
  apply settles_call; [done|]. intros built. apply settles_try.
  { apply quiet_lift. intros e'. destruct built; [done|]. by intros [= <-] []. }
  intros _. unfold call_native_committing_async. apply settles_try; [apply quiet_id|]. intros id.
  apply settles_try; [apply quiet_lift, quiet_encode|]. intros bytes tr r.
  intros [(e & -> & Hx)|(tr1 & tr2 & b & -> & Hx & [-> ->])]%traces_try;
    apply exchange_traces in Hx as [(Hn & e' & [= <-] & He)
      |(m' & c & ev & x & rest & -> & Hn & _ & _ & He & Hok)]; try done.
  - right. split; [by apply not_written|eauto].
  - rewrite written_once by done. specialize (He e eq_refl).
    destruct (await_done x) as [->|Hne].
    + left. split; [done|]. intros e' [= <-]. tauto.
    + right. split; [done|]. exists e. split; [done|]. tauto.
  - left. rewrite app_nil_r, written_once by done. split; [by eapply Hok|].
    intros e He'. destruct (decode b id); [done|]. injection He' as <-. exact I.
Qed.
End Submit.

(** ** Properties *)

(** C4: Whatever action the actuator executes on a Herdr target and whatever the system
    answers, every write goes to a connection whose socket was, immediately before, found
    at an absolute path that is no symlink, owned by the user and writable by nobody else,
    with the same device and inode after connecting and a peer of the same user. *)
Theorem herdr_writes_verified `{Rfc3339} `{HerdrJson} `{DebugId} `{DebugIdentity}
    {W} (h : ∀ o, W → W * HerdrAns o) env hd i src a w w' log r :
  mux_execute (bound_mux h (herdr env hd) i) src a (w, []) = Some ((w', log), r) →
  verified_writes env log.
Proof.
  intros Hx. change log with ((w', log).2).
  refine (mux_execute_P h (herdr env hd) i (verified_writes env) (verified_app env)
            (ok_validate env hd i) (ok_literal env hd i) (ok_submit env hd i) (ok_key env hd i)
            (ok_capture env hd i) src a _ _ r Hx (verified_nil env)).
Qed.

(** A native Herdr server: it answers the request whose method has [n] characters. *)
Definition demo_process : ProcessIdentity :=
  mkProcessIdentity 1 4242 99 None None (Some 1000) None None (Some "pts/1") None.
Definition demo_request_id : string := "watchme-7-9-1".
Definition reply (fields : Members) : Value :=
  VObject [("id", VString demo_request_id); ("result", VObject fields)].

Definition demo_reply (n : Z) : Value :=
  if n =? 4 then reply [("type", VString "pong"); ("version", VString "1.2");
                        ("protocol", VNumber (PosInt 16))]
  else if n =? 12 then
    reply [("type", VString "pane_current");
           ("pane", VObject [("pane_id", VString "p1"); ("workspace_id", VString "w1");
                             ("tab_id", VString "t1"); ("revision", VNumber (PosInt 5))])]
  else if n =? 17 then
    reply [("type", VString "pane_process_info");
           ("process_info", VObject [("pane_id", VString "p1"); ("tty", VString "/dev/pts/1");
              ("foreground_processes", VArray [VObject [("pid", VNumber (PosInt 4242))]])])]
  else reply [("type", VString "ok")].

#[local] Instance demo_json : HerdrJson :=
  {| json_to_vec := λ v, Ok [match v with
                             | VObject [_; (_, VString m); _] => len m
                             | _ => 0 end];
     json_from_slice := λ bs, match bs with n :: _ => Ok (demo_reply n) | [] => Err "empty" end;
     shape_error := λ _, "shape" |}.

Definition demo_server (o : HerdrOp) (w : list Z) : list Z * HerdrAns o :=
  match o return list Z * HerdrAns o with
  | HStat _ => (w, Ok (mkSocketStat false 8 77 (mkSocketMetadata 1000 49536 true)))
  | HCanonicalize p => (w, Ok p)
  | HInRuntime => (w, false)
  | HBuildRuntime => (w, Ok tt)
  | HNextId => (w, Some 1)
  | HRemaining => (w, true)
  | HElapsed => (w, 0)
  | HConnect _ => (w, Ready (Ok tt))
  | HEvidence _ => (w, mkEvidence 8 77 (Ok 1000))
  | HWrite bs => (bs, Ready (Ok tt))
  | HRead => (tail w, Ready (Ok (default 10 (head w))))
  | HInspect _ => (w, Ok (mkProcess 4242 1 99 None None (Some 1000) None None (Some "pts/1")))
  | HDevice _ => (w, Err "none")
  | HObserve _ => (w, Ok Composer.Safe)
  end.

Definition demo_env : HerdrEnv := mkHerdrEnv 1000 7 9.
Definition demo_herdr : Herdr :=
  mkHerdr (mkHerdrContext "/run/herdr.sock" "w1" "t1" "p1" Native16) (from_secs 2).
Definition demo_target : MuxIdentity :=
  mkMuxIdentity "herdr" "native-1.2-protocol-16-8-77" "/run/herdr.sock" "w1" "t1" "p1" "pts/1"
    demo_process.

Definition submit_action : Action :=
  set_outcomes (push_preconditions (action_new "resume" (SubmitText "/goal resume") "why" "f" 30) [])
    [mkCondition "AGENT_WORKING" None].

Lemma herdr_writes_verified_witness :
  let rfc : Rfc3339 := λ _, None in
  let dbg : DebugId := λ s, s in
  let dbi : DebugIdentity := λ _, "" in
  let src := event_source_new Source.TypedApi "codex" "goal_status" in
  match mux_execute (bound_mux demo_server (herdr demo_env demo_herdr) demo_target) src submit_action
          ([], []) with
  | Some ((_, log), r) => r = Ok Committed ∧ verified_writes demo_env log
  | None => False
  end.
Proof.
  intros rfc dbg dbi src.
  destruct (mux_execute _ _ _ _) as [[[w log] r]|] eqn:E; [|vm_compute in E; discriminate].
  split.
  - vm_compute in E. by injection E as <- <- <-.
  - exact (herdr_writes_verified demo_server demo_env demo_herdr demo_target src submit_action
             [] w log r E).
Defined.

(** Native text submission is never misreported.  Either a check failed and no input
    request was made, or the pane was attested twice at one revision with a safe composer
    after each, the text has no control character, and the request was made: if it was
    written the call succeeds or says the outcome is unknown, and if it was not written
    the call fails with an error that does not. *)
Theorem native_submit_outcome `{HerdrJson} `{DebugId} env hd i text tr r :
  traces (submit_native env hd i text) tr r →
  (∃ e, r = Err e ∧ traces (submit_checks env hd i text) tr (Err e))
  ∨ ∃ rev seg1 seg2 seg3,
      tr = seg1 ++ [existT (HObserve i) (Ok Composer.Safe)] ++ seg2
           ++ [existT (HObserve i) (Ok Composer.Safe)] ++ seg3
      ∧ has_control text = false
      ∧ native_attests env hd i rev seg1 ∧ native_attests env hd i rev seg2
      ∧ (∃ r0, traces (call_native_committing env hd "pane.send_input" (submit_params hd text)) seg3 r0)
      ∧ (written seg3 → ∀ e, r = Err e → unknown_outcome e)
      ∧ (¬ written seg3 → ∃ e, r = Err e ∧ ¬ unknown_outcome e).
Proof.
  intros [(e & -> & Hc)|(tr1 & tr2 & [] & -> & Hc & Hr)]%traces_try; [left; eauto|right].
  apply try_Ok in Hc as (t1 & t2 & [] & -> & [-> Hlit] & Hc).
  apply try_Ok in Hc as (seg1 & t3 & rev & -> & H1 & Hc).
  apply try_Ok in Hc as (t4 & t5 & [] & -> & Hs1 & Hc).
  apply try_Ok in Hc as (seg2 & t6 & rev' & -> & H2 & Hc).
  apply try_Ok in Hc as (t7 & t8 & [] & -> & [-> Hrev]%lift_fail_Ok & Hs2).
  apply safe_Ok in Hs1 as ->. apply safe_Ok in Hs2 as ->.
  apply negb_false_iff, Z.eqb_eq in Hrev as ->.
  exists rev, seg1, seg2, tr2. split; [by rewrite <- !app_assoc|].
  split; [symmetry in Hlit; by apply fail_if_Ok in Hlit|]. split; [done|]. split; [done|].
  apply traces_try in Hr as [(e & -> & Hr)|(t9 & t10 & ack & -> & Hr & [-> ->])].
  - split; [by exists (Err e)|]. apply settles_committing in Hr as [[Hw He]|[Hw (e' & [= <-] & He)]].
    + split; [|done]. intros _ e' [= <-]. by apply He.
    + split; [done|]. eauto.
  - rewrite app_nil_r in *. split; [by exists (Ok ack)|].
    apply settles_committing in Hr as [[Hw He]|[Hw (e' & ? & He)]]; [|done].
    split; [|done]. intros _ e. destruct ack; [by intros [= <-]..|done].
Qed.

Lemma native_submit_outcome_witness :
  let dbg : DebugId := λ s, s in
  let run := converse demo_server (submit_native demo_env demo_herdr demo_target "/goal resume") [] in
  run.2 = Ok tt
  ∧ ((∃ e, run.2 = Err e
        ∧ traces (submit_checks demo_env demo_herdr demo_target "/goal resume") run.1 (Err e))
     ∨ ∃ rev seg1 seg2 seg3,
      run.1 = seg1 ++ [existT (HObserve demo_target) (Ok Composer.Safe)] ++ seg2
           ++ [existT (HObserve demo_target) (Ok Composer.Safe)] ++ seg3
      ∧ has_control "/goal resume" = false
      ∧ native_attests demo_env demo_herdr demo_target rev seg1
      ∧ native_attests demo_env demo_herdr demo_target rev seg2
      ∧ (∃ r0, traces (call_native_committing demo_env demo_herdr "pane.send_input"
                         (submit_params demo_herdr "/goal resume")) seg3 r0)
      ∧ (written seg3 → ∀ e, run.2 = Err e → unknown_outcome e)
      ∧ (¬ written seg3 → ∃ e, run.2 = Err e ∧ ¬ unknown_outcome e)).
Proof.
  intros dbg run. split; [vm_compute; reflexivity|].
  apply (native_submit_outcome demo_env demo_herdr demo_target "/goal resume").
  apply converse_traces.
Defined.
