(* ===== verification/Host.v ===== *)
(** * The host as the attachment and Codex readers see it

    Environment variables, paths, file metadata, bounded reads and SQLite answers are
    operations with arbitrary answers; an I/O error is [None] where the code drops it with
    [.ok()].  Paths are their text. *)
From S2P Require Import Prelude Json Text Utf8 Identity Process Effects Runtime Mux.
From S2P Require Import Hooks Manifest Linux.
From Stdlib Require Import Ascii.

Local Open Scope Z_scope.

Record Meta : Type := mkMeta {
  hm_is_file : bool;
  hm_is_dir : bool;
  hm_dev : Z;
  hm_ino : Z;
  hm_uid : Z;
  hm_mode : Z;
}.

Inductive HostOp : Type :=
| OEnv (name : string)
| OCanonical (path : string)
| OStat (path : string)
| OLstat (path : string)
| OOpenStat (path : string)
| OLink (path : string)
| ODir (path : string)
| ORead (path : string) (limit : option Z)
| OLen (path : string)
| OReadAt (path : string) (count offset : Z)
| OUid
| OEuid
| OInspect (pid : Z)
| ODatabase (path : string)
| OExists (path thread : string)
| OColumns (path table : string)
| OGoal (path thread : string).

(** [OOpenStat] is [File::open(path)?.metadata()], [OLen] its length; [ORead] the bytes of
    the file, cut at the limit; [OReadAt] one [read_at] of an open file; [ODatabase] opening
    read-only and setting [query_only]; [OExists], [OColumns] and [OGoal] the three
    statements. *)
Definition HostAns (o : HostOp) : Type :=
  match o with
  | OEnv _ | OCanonical _ | OLink _ => option string
  | OStat _ | OLstat _ | OOpenStat _ => option Meta
  | ODir _ => option (list (option string))
  | ORead _ _ | OReadAt _ _ _ => option (list Z)
  | OLen _ => option Z
  | OUid | OEuid => Z
  | OInspect _ => option ProcessRecord
  | ODatabase _ => bool
  | OExists _ _ => option bool
  | OColumns _ _ => option (list string)
  | OGoal _ _ => option (string * Z)
  end.
Abbreviation HostProg := (Prog HostAns).
Definition ocall (o : HostOp) : HostProg (HostAns o) := call o.

(** ** Programs that may give up *)
Definition prog_some {Op} {An : Op → Type} {A B} (c : Prog An (option A))
    (k : A → Prog An (option B)) : Prog An (option B) :=
  bind c (λ o, match o with Some a => k a | None => Ret None end).

Definition require {Op} {An : Op → Type} (b : bool) : Prog An (option unit) :=
  Ret (if b then Some tt else None).

Notation "'some!' x ':=' c 'in' k" := (prog_some c (λ x, k))
  (at level 10, x name, c at level 100, k at level 200) : watch_scope.

Lemma traces_some {Op} {An : Op → Type} {A B} (c : Prog An (option A))
    (k : A → Prog An (option B)) tr r :
  traces (prog_some c k) tr (Some r) ↔
    ∃ tr1 tr2 a, tr = tr1 ++ tr2 ∧ traces c tr1 (Some a) ∧ traces (k a) tr2 (Some r).
Proof.
  unfold prog_some. rewrite traces_bind. split.
  - intros (tr1 & tr2 & [a|] & -> & H1 & H2); [eauto 8|]. by destruct H2.
  - intros (tr1 & tr2 & a & -> & H1 & H2). exists tr1, tr2, (Some a). done.
Qed.

Lemma traces_require {Op} {An : Op → Type} b tr u :
  traces (require (An := An) b) tr (Some u) ↔ tr = [] ∧ b = true.
Proof. unfold require. cbn. destruct b, u; naive_solver. Qed.

(** The first element on which the program says yes; it is not run on the later ones. *)
Fixpoint any_prog {Op} {An : Op → Type} {A} (p : A → Prog An bool) (l : list A) : Prog An bool :=
  match l with
  | [] => Ret false
  | x :: l => let! b := p x in if b then Ret true else any_prog p l
  end.

Lemma any_prog_true {Op} {An : Op → Type} {A} (p : A → Prog An bool) l tr :
  traces (any_prog p l) tr true →
  ∃ x tr1 tr2, x ∈ l ∧ tr = tr1 ++ tr2 ∧ ∃ tr3 tr4, tr2 = tr3 ++ tr4 ∧ traces (p x) tr3 true.
Proof.
  revert tr. induction l as [|x l IH]; intros tr; cbn [any_prog]; [by intros []|].
  intros (tr1 & tr2 & b & -> & H1 & H2)%traces_bind. destruct b.
  - exists x, [], (tr1 ++ tr2). split; [set_solver|]. split; [done|]. by exists tr1, tr2.
  - destruct (IH _ H2) as (y & tr3 & tr4 & Hy & -> & Hrest). exists y, (tr1 ++ tr3), tr4.
    split; [set_solver|]. split; [by rewrite app_assoc|done].
Qed.

(** ** Path helpers *)

(** [Path::join] of a relative component. *)
Definition join_path (base rel : string) : string :=
  if ends_with "/" base then base +:+ rel else base +:+ "/" +:+ rel.

(** [Path::file_name]: the last component unless it is the parent directory. *)
Definition file_name (path : string) : option string :=
  match last (components path).2 with
  | Some name => if bool_decide (name = bytes "..") then None else Some (String.string_of_list_ascii name)
  | None => None
  end.

(** [extension() == Some("jsonl")]. *)
Definition is_jsonl (path : string) : bool :=
  match file_name path with
  | Some name => ends_with ".jsonl" name && negb (String.eqb name ".jsonl")
  | None => false
  end.

(** serde_json on the bytes of one record. *)
Class JsonParse : Type := parse_json : list Z → option Value.

(** [value.pointer("/a/b")] through objects. *)
Fixpoint pointer (path : list string) (v : Value) : option Value :=
  match path with
  | [] => Some v
  | k :: path => get_field k v ≫= pointer path
  end.

Definition str_at (path : list string) (v : Value) : option string := pointer path v ≫= as_str.

(** The lines of a reader, each an error when it is not UTF-8. *)
Definition reader_lines (l : list Z) : list (option (list Z)) :=
  (λ line, if utf8_ok line then Some line else None) <$> str_lines l.

Lemma traces_ocall o tr x : traces (ocall o) tr x ↔ tr = [existT o x].
Proof. apply traces_call. Qed.
