(* ===== verification/CodexState.v ===== *)
(** * Durable Codex state (src/src/agents/codex_state.rs)

    What the daemon reads of a bound Codex session: the revalidation of the process and of
    the three bound files, the goal in its database, and whether the last finished turn of
    the rollout failed for capacity. *)
From S2P Require Import Prelude Json Text Utf8 Identity State Process Registry.
From S2P Require Import Effects Runtime Mux.
From S2P Require Import Hooks Claude Codex Linux Host.
From stdpp Require Import pretty.

Local Open Scope Z_scope.

Definition MAX_ROLLOUT_TAIL_BYTES : Z := 1024 * 1024.
Definition MAX_ROLLOUT_RECORD_BYTES : Z := 256 * 1024.
Definition CAPACITY_MESSAGE : string :=
  "Selected model is at capacity. Please try a different model.".

(** ** Revalidation *)
Section Reader.
Context `{JsonParse} (linux : bool).

Definition process_cwd_matches (p : Z) (expected : string) : HostProg bool :=
  if linux then
    let! actual := ocall (OCanonical ("/proc/" +:+ pretty p +:+ "/cwd")) in
    match actual with
    | None => Ret false
    | Some actual =>
        let! expected := ocall (OCanonical expected) in
        Ret (match expected with Some e => path_eqb actual e | None => false end)
    end
  else
    let! path := ocall (OCanonical expected) in
    match path with
    | None => Ret false
    | Some path =>
        let! m := ocall (OStat path) in
        Ret (match m with Some m => hm_is_dir m | None => false end)
    end.

Definition revalidate_target (w : WatcherState) (r : CodexSessionReference)
    : HostProg (option unit) :=
  let process := target_process (target w) in
  if negb (start_time process =? codex_process_start_time r)
     || negb (opt_str_eqb (current_target_session (target w)) (codex_target_session r))
  then Ret None
  else
    some! observed := ocall (OInspect (pid process)) in
    if negb (pr_start_time observed =? start_time process) || negb (pr_pid observed =? pid process)
    then Ret None
    else let! b := process_cwd_matches (pid process) (codex_process_cwd r) in require b.

Definition file_unchanged (b : CodexBoundFile) (canonical : string) (m : Meta) (euid : Z) : bool :=
  path_eqb canonical (canonical_path b) && hm_is_file m && (hm_dev m =? device b)
  && (hm_ino m =? inode b) && (hm_uid m =? owner_uid b) && (owner_uid b =? euid)
  && (Z.land (hm_mode m) 2 =? 0).

Definition revalidate_file (b : CodexBoundFile) : HostProg (option unit) :=
  some! canonical := ocall (OCanonical (canonical_path b)) in
  some! m := ocall (OStat canonical) in
  let! euid := ocall OEuid in
  require (file_unchanged b canonical m euid).

(** ** Databases *)
Definition open_database (b : CodexBoundFile) : HostProg (option unit) :=
  some! _ := revalidate_file b in
  let! opened := ocall (ODatabase (canonical_path b)) in
  if opened then revalidate_file b else Ret None.

Definition thread_exists (b : CodexBoundFile) (thread : string) : HostProg bool :=
  let! connection := open_database b in
  match connection with
  | None => Ret false
  | Some _ =>
      let! columns := ocall (OColumns (canonical_path b) "threads") in
      match columns with
      | None => Ret false
      | Some columns =>
          if one_of columns "id"
          then let! found := ocall (OExists (canonical_path b) thread) in Ret (default false found)
          else Ret false
      end
  end.

Definition goal_columns : list string := ["thread_id"; "status"; "updated_at_ms"].

Definition read_goal (b : CodexBoundFile) (thread : string) : HostProg (option (string * Z)) :=
  some! _ := open_database b in
  some! columns := ocall (OColumns (canonical_path b) "thread_goals") in
  if forallb (one_of columns) goal_columns then ocall (OGoal (canonical_path b) thread)
  else Ret None.

(** ** The rollout *)

(** [while read < bytes.len()]; each round reads at least one byte. *)
Fixpoint read_exact (fuel : nat) (path : string) (size offset : Z) (got : list Z)
    : HostProg (option (list Z)) :=
  if Z.of_nat (length got) <? size then
    match fuel with
    | O => Ret None
    | S fuel =>
        let count := size - Z.of_nat (length got) in
        some! chunk := ocall (OReadAt path count (offset + Z.of_nat (length got))) in
        let chunk := take (Z.to_nat count) chunk in
        match chunk with
        | [] => Ret None
        | _ => read_exact fuel path size offset (got ++ chunk)
        end
    end
  else Ret (Some got).

(** [bytes.iter().position(newline)] and [drain(..=newline)]. *)
Fixpoint after_newline (l : list Z) : option (list Z) :=
  match l with
  | [] => None
  | b :: l => if b =? 10 then Some l else after_newline l
  end.

Definition ends_with_newline (l : list Z) : bool :=
  match last l with Some b => b =? 10 | None => false end.

(** The whole records of a tail read from [offset]. *)
Definition whole_records (offset : Z) (l : list Z) : option (list Z) :=
  if negb (bool_decide (l = [])) && negb (ends_with_newline l) then None
  else if 0 <? offset then after_newline l
  else Some l.

Definition read_rollout_tail (b : CodexBoundFile) : HostProg (option (list Z)) :=
  some! _ := revalidate_file b in
  some! length := ocall (OLen (canonical_path b)) in
  let offset := saturating_sub length MAX_ROLLOUT_TAIL_BYTES in
  let size := length - offset in
  some! l := read_exact (Z.to_nat size) (canonical_path b) size offset [] in
  some! _ := revalidate_file b in
  Ret (whole_records offset l).

Definition assistant_has_exact_capacity_message (v : Value) : bool :=
  match pointer ["payload"; "content"] v ≫= as_array with
  | Some parts =>
      existsb (λ part, opt_str_eqb (str_at ["type"] part) (Some "output_text")
                       && opt_str_eqb (str_at ["text"] part) (Some CAPACITY_MESSAGE)) parts
  | None => false
  end.

(** The loop's variables. *)
Record TurnScan : Type := mkScan {
  current_turn : option string;
  capacity_turn : option string;
  terminal_capacity : bool;
}.

Definition scan_start : TurnScan := mkScan None None false.

Definition scan_event_msg (s : TurnScan) (v : Value) : TurnScan :=
  let turn := str_at ["payload"; "turn_id"] v in
  let msg := str_at ["payload"; "type"] v in
  if opt_str_eqb msg (Some "task_started") then mkScan turn None false
  else if opt_str_eqb msg (Some "task_complete")
  then mkScan None (capacity_turn s)
         (bool_decide (is_Some turn) && opt_str_eqb turn (capacity_turn s))
  else s.

Definition scan_response_item (s : TurnScan) (v : Value) : TurnScan :=
  let role := str_at ["payload"; "role"] v in
  if opt_str_eqb role (Some "user") then mkScan (current_turn s) None false
  else if opt_str_eqb role (Some "assistant") && assistant_has_exact_capacity_message v
  then mkScan (current_turn s) (current_turn s) (terminal_capacity s)
  else s.

Definition scan_record (s : TurnScan) (v : Value) : TurnScan :=
  let kind := str_at ["type"] v in
  if opt_str_eqb kind (Some "event_msg") then scan_event_msg s v
  else if opt_str_eqb kind (Some "response_item") then scan_response_item s v
  else s.

Fixpoint scan_lines (s : TurnScan) (lines : list (list Z)) : option bool :=
  match lines with
  | [] => Some (terminal_capacity s)
  | line :: lines =>
      if MAX_ROLLOUT_RECORD_BYTES <? Z.of_nat (length line) then None
      else v ← parse_json line; scan_lines (scan_record s v) lines
  end.

Definition rollout_lines (l : list Z) : list (list Z) :=
  List.filter (λ line, negb (bool_decide (line = []))) (split_on 10 l).

Definition capacity_of_tail (l : list Z) : option bool := scan_lines scan_start (rollout_lines l).

Definition latest_terminal_turn_has_capacity (b : CodexBoundFile) : HostProg (option bool) :=
  some! l := read_rollout_tail b in Ret (capacity_of_tail l).

(** ** The observation *)
Definition bound_snapshot (thread status : string) (capacity : bool) : CodexGoalSnapshot :=
  let blocked := String.eqb (normalize_status status) "blocked" && capacity in
  mkSnapshot thread (Some status) None None []
    (if blocked then Some "capacity_block" else None) blocked None.

Definition observe_bound_codex_state (w : WatcherState) : HostProg (option CodexGoalSnapshot) :=
  match codex_session w with
  | None => Ret None
  | Some r =>
      match structured_state r with
      | None => Ret None
      | Some state =>
          some! _ := revalidate_target w r in
          some! _ := revalidate_file (rollout state) in
          some! _ := revalidate_file (thread_db state) in
          some! _ := revalidate_file (goals_db state) in
          let! found := thread_exists (thread_db state) (thread_id r) in
          if negb found then Ret None
          else
            some! goal := read_goal (goals_db state) (thread_id r) in
            some! capacity := latest_terminal_turn_has_capacity (rollout state) in
            Ret (Some (bound_snapshot (thread_id r) goal.1 capacity))
      end
  end.
End Reader.

(** ** Turns *)
Inductive TurnEvent : Type :=
| Started (turn : option string)
| Completed (turn : option string)
| UserMessage
| CapacityReply
| OtherReply
| Irrelevant.

Definition classify_record (v : Value) : TurnEvent :=
  let says path text := opt_str_eqb (str_at path v) (Some text) in
  if says ["type"] "event_msg" then
    if says ["payload"; "type"] "task_started" then Started (str_at ["payload"; "turn_id"] v)
    else if says ["payload"; "type"] "task_complete" then Completed (str_at ["payload"; "turn_id"] v)
    else Irrelevant
  else if says ["type"] "response_item" then
    if says ["payload"; "role"] "user" then UserMessage
    else if says ["payload"; "role"] "assistant"
    then if assistant_has_exact_capacity_message v then CapacityReply else OtherReply
    else Irrelevant
  else Irrelevant.

Definition turn_step (s : TurnScan) (e : TurnEvent) : TurnScan :=
  match e with
  | Started turn => mkScan turn None false
  | Completed turn =>
      mkScan None (capacity_turn s)
        (bool_decide (is_Some turn) && opt_str_eqb turn (capacity_turn s))
  | UserMessage => mkScan (current_turn s) None false
  | CapacityReply => mkScan (current_turn s) (current_turn s) (terminal_capacity s)
  | OtherReply | Irrelevant => s
  end.

Definition turns (l : list TurnEvent) : TurnScan := foldl turn_step scan_start l.

Lemma scan_record_step s v : scan_record s v = turn_step s (classify_record v).
Proof.
  unfold scan_record, classify_record, scan_event_msg, scan_response_item.
  repeat match goal with |- context [opt_str_eqb ?o (Some ?t)] => destruct (opt_str_eqb o (Some t)) end;
    try done. by destruct (assistant_has_exact_capacity_message v).
Qed.

Lemma scan_lines_turns `{JsonParse} lines s :
  scan_lines s lines =
    if existsb (λ l, MAX_ROLLOUT_RECORD_BYTES <? Z.of_nat (length l)) lines then None
    else vs ← mapM parse_json lines;
         Some (terminal_capacity (foldl turn_step s (classify_record <$> vs))).
Proof.
  revert s. induction lines as [|line lines IH]; intros s; [done|]. cbn [scan_lines existsb mapM].
  destruct (_ <? _); [done|]. cbn [orb].
  destruct (parse_json line) as [v|] eqn:Ev; cbn; [|by destruct (existsb _ _)].
  rewrite IH, scan_record_step. destruct (existsb _ _); [done|]. by destruct (mapM parse_json lines).
Qed.

(** The last event that writes a variable decides its value. *)
Section LastWriter.
Context {X : Type} (get : TurnScan → X) (writes : TurnEvent → bool).
Context (frame : ∀ s e, writes e = false → get (turn_step s e) = get s).

Definition quiet (l : list TurnEvent) : Prop := Forall (λ e, writes e = false) l.

Lemma frame_all s l : quiet l → get (foldl turn_step s l) = get s.
Proof.
  revert s. induction l as [|e l IH]; intros s Hq; [done|]. apply Forall_cons in Hq as [He Hq].
  cbn. by rewrite IH, frame.
Qed.

Lemma last_writer l :
  (quiet l ∧ get (turns l) = get scan_start)
  ∨ ∃ l1 e l2, l = l1 ++ e :: l2 ∧ writes e = true ∧ quiet l2
      ∧ get (turns l) = get (turn_step (turns l1) e).
Proof.
  induction l as [|e l IH] using rev_ind; [left; split; [by constructor|done]|].
  unfold turns. rewrite foldl_app. cbn. destruct (writes e) eqn:He.
  - right. exists l, e, []. split; [done|]. split; [done|]. by split; [constructor|].
  - rewrite frame by done. destruct IH as [[Hq Hg]|(l1 & e' & l2 & -> & He' & Hq & Hg)].
    + left. split; [|done]. by apply Forall_app_2, Forall_singleton.
    + right. exists l1, e', (l2 ++ [e]). rewrite <- app_assoc. split; [done|]. split; [done|].
      split; [by apply Forall_app_2, Forall_singleton|done].
Qed.

Lemma writer_decides l1 e l2 : quiet l2 → get (turns (l1 ++ e :: l2)) = get (turn_step (turns l1) e).
Proof. intros Hq. unfold turns. rewrite foldl_app. cbn. by apply frame_all. Qed.
End LastWriter.

Definition ends_turn (e : TurnEvent) : bool :=
  match e with Started _ | Completed _ => true | _ => false end.
Definition writes_capacity (e : TurnEvent) : bool :=
  match e with Started _ | UserMessage | CapacityReply => true | _ => false end.
Definition writes_terminal (e : TurnEvent) : bool :=
  match e with Started _ | Completed _ | UserMessage => true | _ => false end.

Lemma current_frame s e : ends_turn e = false → current_turn (turn_step s e) = current_turn s.
Proof. by destruct e. Qed.
Lemma capacity_frame s e : writes_capacity e = false → capacity_turn (turn_step s e) = capacity_turn s.
Proof. by destruct e. Qed.
Lemma terminal_frame s e : writes_terminal e = false → terminal_capacity (turn_step s e) = terminal_capacity s.
Proof. by destruct e. Qed.

Lemma current_turn_spec l t :
  current_turn (turns l) = Some t ↔
    ∃ l1 l2, l = l1 ++ Started (Some t) :: l2 ∧ quiet ends_turn l2.
Proof.
  split.
  - destruct (last_writer current_turn ends_turn current_frame l)
      as [[_ ->]|(l1 & e & l2 & -> & He & Hq & ->)]; [done|].
    destruct e; cbn; intros Hg; try done. subst. eauto.
  - intros (l1 & l2 & -> & Hq). by rewrite (writer_decides current_turn ends_turn current_frame).
Qed.

Lemma capacity_turn_spec l t :
  capacity_turn (turns l) = Some t ↔
    ∃ l1 l2, l = l1 ++ CapacityReply :: l2 ∧ quiet writes_capacity l2 ∧ current_turn (turns l1) = Some t.
Proof.
  split.
  - destruct (last_writer capacity_turn writes_capacity capacity_frame l)
      as [[_ ->]|(l1 & e & l2 & -> & He & Hq & ->)]; [done|].
    destruct e; cbn; intros Hg; try done. eauto.
  - intros (l1 & l2 & -> & Hq & Hc).
    by rewrite (writer_decides capacity_turn writes_capacity capacity_frame).
Qed.

Lemma terminal_capacity_spec l :
  terminal_capacity (turns l) = true ↔
    ∃ l1 t l2, l = l1 ++ Completed (Some t) :: l2 ∧ quiet writes_terminal l2
      ∧ capacity_turn (turns l1) = Some t.
Proof.
  split.
  - destruct (last_writer terminal_capacity writes_terminal terminal_frame l)
      as [[_ ->]|(l1 & e & l2 & -> & He & Hq & ->)]; [done|].
    destruct e as [|[t|]| | | |]; cbn; intros Hg; try done.
    exists l1, t, l2. split; [done|]. split; [done|].
    by apply bool_decide_eq_true in Hg.
  - intros (l1 & t & l2 & -> & Hq & Hc).
    rewrite (writer_decides terminal_capacity writes_terminal terminal_frame) by done. cbn.
    rewrite Hc. by apply bool_decide_eq_true.
Qed.

(** The rollout's last turn failed for capacity: it was started, some reply of the assistant
    within it was the capacity message and no user message follows that reply, it completed
    under the same identifier, and no turn, no completion and no user message follows.
    Other replies may stand anywhere, also between the message and the completion. *)
Definition failed_for_capacity (l : list TurnEvent) : Prop :=
  ∃ l1 t l2 l3 l4,
    l = l1 ++ Started (Some t) :: l2 ++ CapacityReply :: l3 ++ Completed (Some t) :: l4
    ∧ quiet ends_turn l2 ∧ quiet writes_capacity l3 ∧ quiet writes_terminal l4.

Lemma terminal_capacity_grammar l : terminal_capacity (turns l) = true ↔ failed_for_capacity l.
Proof.
  rewrite terminal_capacity_spec. unfold failed_for_capacity. split.
  - intros (l' & t & l4 & -> & H4 & (l'' & l3 & -> & H3 & (l1 & l2 & -> & H2)%current_turn_spec)%capacity_turn_spec).
    exists l1, t, l2, l3, l4. split; [|done]. by rewrite <- !app_assoc; cbn; rewrite <- ?app_assoc.
  - intros (l1 & t & l2 & l3 & l4 & -> & H2 & H3 & H4).
    exists ((l1 ++ Started (Some t) :: l2) ++ CapacityReply :: l3), t, l4.
    split; [by rewrite <- !app_assoc; cbn; rewrite <- ?app_assoc|]. split; [done|].
    apply capacity_turn_spec. exists (l1 ++ Started (Some t) :: l2), l3. split; [done|]. split; [done|].
    apply current_turn_spec. eauto.
Qed.

(** ** The tail of a rollout *)

Lemma after_newline_skip r l : 10 ∉ r → after_newline (r ++ 10 :: l) = Some l.
Proof.
  induction r as [|b r IH]; intros Hr; cbn; [done|].
  by rewrite (proj2 (Z.eqb_neq b 10)), IH by set_solver.
Qed.

Lemma records_end records : records ≠ [] → last (records_bytes records) = Some 10.
Proof.
  induction records as [|r records IH]; [done|]. intros _. rewrite records_bytes_cons.
  destruct records as [|r' records]; [by rewrite last_app_cons|].
  rewrite last_app_cons, last_cons, IH by done. done.
Qed.

(** The record in which a cut falls is the one that is dropped. *)
Lemma after_newline_records records n :
  Forall (λ r, 10 ∉ r) records → (n < length (records_bytes records))%nat →
  ∃ k, (k < length records)%nat
    ∧ after_newline (drop n (records_bytes records)) = Some (records_bytes (drop (S k) records))
    ∧ (length (records_bytes (take k records)) ≤ n < length (records_bytes (take (S k) records)))%nat.
Proof.
  intros Hr. revert n. induction Hr as [|r records Hr Hrs IH]; intros n Hn; [cbn in Hn; lia|].
  rewrite records_bytes_cons in *. rewrite length_app in Hn. cbn in Hn.
  destruct (decide (n ≤ length r)%nat) as [Hle|Hgt].
  - exists 0%nat. split; [cbn; lia|]. split.
    + rewrite drop_app_le by done. cbn [drop]. rewrite drop_0. apply after_newline_skip.
      intros Hin. apply Hr. rewrite <- (take_drop n r). set_solver.
    + cbn [take]. rewrite take_0, records_bytes_cons, length_app. cbn. lia.
  - destruct (IH (n - S (length r))%nat ltac:(lia)) as (k & Hk & He & Hb). exists (S k).
    split; [cbn; lia|]. split.
    + rewrite drop_app_ge by lia. replace (n - length r)%nat with (S (n - S (length r))) by lia.
      exact He.
    + cbn [take]. rewrite !records_bytes_cons, !length_app. cbn. lia.
Qed.

(** The answers about the file at [path] are those of a file with this content; a read may
    return fewer bytes than asked for. *)
Definition served (path : string) (file : list Z) (e : Ev HostAns) : Prop :=
  match e with
  | existT (OLen p) (Some n) => p = path → n = Z.of_nat (length file)
  | existT (OReadAt p count off) (Some chunk) =>
      p = path → chunk `prefix_of` drop (Z.to_nat off) file
  | _ => True
  end.
Definition serves (path : string) (file : list Z) : list (Ev HostAns) → Prop := Forall (served path file).

Lemma serves_app path file tr1 tr2 :
  serves path file (tr1 ++ tr2) → serves path file tr1 ∧ serves path file tr2.
Proof. apply Forall_app. Qed.

Lemma read_exact_spec fuel path file size offset got tr r :
  0 ≤ offset → serves path file tr → Z.of_nat (length got) ≤ size →
  traces (read_exact fuel path size offset got) tr (Some r) →
  Z.of_nat (length r) = size
  ∧ ∃ more, r = got ++ more ∧ more `prefix_of` drop (Z.to_nat offset + length got) file.
Proof.
  revert got tr. induction fuel as [|fuel IH]; intros got tr Ho Hs Hl; cbn [read_exact];
    (destruct (Z.ltb_spec (Z.of_nat (length got)) size);
     [|intros [-> [= ->]]; split; [lia|]; exists []; rewrite app_nil_r; split; [done|apply prefix_nil]]).
  { by intros [_ ?]. }
  intros (tr1 & tr2 & chunk & -> & ->%traces_ocall & Ht)%traces_some.
  apply serves_app in Hs as [Hs1 Hs2]. apply (proj1 (Forall_singleton _ _)) in Hs1. specialize (Hs1 eq_refl).
  set (c := take _ chunk) in Ht. assert (c `prefix_of` chunk) as Hc.
  { exists (drop (Z.to_nat (size - Z.of_nat (length got))) chunk). unfold c. by rewrite take_drop. }
  assert (length c ≤ Z.to_nat (size - Z.of_nat (length got)))%nat as Hlc.
  { unfold c. rewrite length_take. lia. }
  clearbody c. destruct c as [|b c]; [by destruct Ht|].
  apply IH in Ht as (Hlen & more & -> & Hm); [|done|done|rewrite length_app; cbn in *; lia].
  split; [done|]. exists ((b :: c) ++ more). split; [by rewrite app_assoc|].
  destruct Hs1 as [rest1 Hs1], Hc as [rest2 Hc], Hm as [rest3 Hm].
  replace (Z.to_nat (offset + Z.of_nat (length got))) with (Z.to_nat offset + length got)%nat in Hs1 by lia.
  exists rest3. rewrite <- app_assoc, <- Hm.
  rewrite length_app, Nat.add_assoc, <- (drop_drop file (length (b :: c))).
  rewrite Hs1, Hc, <- !app_assoc. by rewrite drop_app_length.
Qed.

(** A conversation in which the file was found unchanged. *)
Definition attests_file (b : CodexBoundFile) (tr : list (Ev HostAns)) : Prop :=
  traces (revalidate_file b) tr (Some tt).

Lemma read_tail_inv b tr r :
  traces (read_rollout_tail b) tr (Some r) →
  ∃ tr1 n mid tr2 l, tr = tr1 ++ existT (OLen (canonical_path b)) (Some n) :: mid ++ tr2
    ∧ attests_file b tr1 ∧ attests_file b tr2
    ∧ let offset := saturating_sub n MAX_ROLLOUT_TAIL_BYTES in
      traces (read_exact (Z.to_nat (n - offset)) (canonical_path b) (n - offset) offset []) mid (Some l)
      ∧ whole_records offset l = Some r.
Proof.
  unfold read_rollout_tail.
  intros (tr1 & tr' & [] & -> & H1 & (tr2 & tr'' & n & -> & ->%traces_ocall & Hr)%traces_some)%traces_some.
  apply traces_some in Hr as (mid & tr3 & l & -> & Hm & (tr4 & tr5 & [] & -> & H4 & [-> Hw])%traces_some).
  exists tr1, n, mid, tr4, l. rewrite app_nil_r. done.
Qed.

(** The tail of a rollout is made of whole records and of all the recent ones: of a file
    whose records end in newlines, served by reads that may be short, the reader returns
    the records from some position on, at most a megabyte of them, the file was found to
    be the bound one before and after the read, and a record is left out only when it
    starts before the last megabyte or exactly there. *)
Theorem rollout_tail_exact b records tr r :
  Forall (λ x, 10 ∉ x) records → serves (canonical_path b) (records_bytes records) tr →
  traces (read_rollout_tail b) tr (Some r) →
  (∃ tr1 mid tr2, tr = tr1 ++ mid ++ tr2 ∧ attests_file b tr1 ∧ attests_file b tr2)
  ∧ Z.of_nat (length r) ≤ MAX_ROLLOUT_TAIL_BYTES
  ∧ ∃ k, r = records_bytes (drop k records)
      ∧ (k ≤ length records)%nat
      ∧ ((0 < k)%nat → Z.of_nat (length (records_bytes (take (k - 1) records)))
                 ≤ Z.of_nat (length (records_bytes records)) - MAX_ROLLOUT_TAIL_BYTES).
Proof.
  intros Hrec Hs (tr1 & n & mid & tr2 & l & -> & H1 & H2 & Hm & Hw)%read_tail_inv.
  split. { exists tr1, (existT (OLen (canonical_path b)) (Some n) :: mid), tr2. done. }
  set (file := records_bytes records) in *.
  assert (n = Z.of_nat (length file)) as ->.
  { pose proof (proj2 (serves_app _ _ _ _ Hs)) as Hn. apply Forall_cons in Hn as [Hn _]. by apply Hn. }
  assert (serves (canonical_path b) file mid) as Hsm.
  { apply serves_app in Hs as [_ Hs]. rewrite app_comm_cons in Hs. apply serves_app in Hs as [Hs _].
    by apply (serves_app _ _ [_]) in Hs as [_ ?]. }
  unfold saturating_sub, MAX_ROLLOUT_TAIL_BYTES in *.
  set (offset := Z.max 0 (Z.of_nat (length file) - 1024 * 1024)) in *.
  apply (read_exact_spec _ _ file) in Hm as (Hlen & more & -> & Hp); [|unfold offset; lia|done|cbn; unfold offset; lia].
  cbn [app length] in *. rewrite Nat.add_0_r in Hp.
  assert (more = drop (Z.to_nat offset) file) as ->.
  { destruct Hp as [rest Hp]. assert (length rest = 0%nat) as Hz.
    { apply (f_equal length) in Hp. rewrite length_app, length_drop in Hp. unfold offset in *. lia. }
    apply nil_length_inv in Hz as ->. by rewrite app_nil_r in Hp. }
  unfold whole_records in Hw. destruct (_ && _); [done|]. destruct (Z.ltb_spec 0 offset) as [Hpos|Hneg].
  - destruct (after_newline_records records (Z.to_nat offset) Hrec) as (k & Hk & He & Hb).
    { fold file. unfold offset in *. lia. }
    fold file in He. rewrite Hw in He. injection He as ->. split.
    + assert (length (records_bytes records) = length (records_bytes (take (S k) records))
                + length (records_bytes (drop (S k) records)))%nat as Hsum.
      { rewrite <- (take_drop (S k) records) at 1. unfold records_bytes.
        by rewrite fmap_app, concat_app, length_app. }
      fold file in Hsum. unfold offset in *. lia.
    + exists (S k). split; [done|]. split; [lia|]. intros _. cbn [Nat.sub]. rewrite Nat.sub_0_r.
      unfold offset in *. fold file. lia.
  - injection Hw as <-. assert (Z.to_nat offset = 0%nat) as Hz by lia. rewrite Hz, drop_0 in *.
    split; [unfold offset in *; lia|]. exists 0%nat. split; [done|]. split; [lia|]. lia.
Qed.

(** ** What an observation rests on *)
Lemma rollout_lines_records records :
  Forall (λ x, 10 ∉ x) records →
  rollout_lines (records_bytes records) = List.filter (λ l, negb (bool_decide (l = []))) records.
Proof.
  unfold rollout_lines. induction 1 as [|r records Hr Hrs IH]; [done|]. rewrite records_bytes_cons.
  rewrite split_on_app by done. cbn [split_on]. rewrite Z.eqb_refl, app_nil_r. cbn [List.filter].
  by rewrite IH.
Qed.

(** The events of a list of records, when each is small and is JSON. *)
Definition turn_events `{JsonParse} (records : list (list Z)) : option (list TurnEvent) :=
  let lines := List.filter (λ l, negb (bool_decide (l = []))) records in
  if existsb (λ l, MAX_ROLLOUT_RECORD_BYTES <? Z.of_nat (length l)) lines then None
  else fmap classify_record <$> mapM parse_json lines.

Lemma capacity_of_records `{JsonParse} records :
  Forall (λ x, 10 ∉ x) records →
  capacity_of_tail (records_bytes records) = terminal_capacity ∘ turns <$> turn_events records.
Proof.
  intros Hr. unfold capacity_of_tail, turn_events. rewrite rollout_lines_records, scan_lines_turns by done.
  destruct (existsb _ _); [done|]. by destruct (mapM parse_json _).
Qed.

(** What a record says about the turns, in the words of the format. *)
Definition capacity_reply (v : Value) : Prop :=
  ∃ parts part, pointer ["payload"; "content"] v = Some (VArray parts) ∧ part ∈ parts
    ∧ str_at ["type"] part = Some "output_text"
    ∧ str_at ["text"] part = Some "Selected model is at capacity. Please try a different model.".

Inductive record_means (v : Value) : TurnEvent → Prop :=
| means_started : str_at ["type"] v = Some "event_msg" →
    str_at ["payload"; "type"] v = Some "task_started" →
    record_means v (Started (str_at ["payload"; "turn_id"] v))
| means_completed : str_at ["type"] v = Some "event_msg" →
    str_at ["payload"; "type"] v = Some "task_complete" →
    record_means v (Completed (str_at ["payload"; "turn_id"] v))
| means_other_message : str_at ["type"] v = Some "event_msg" →
    str_at ["payload"; "type"] v ≠ Some "task_started" →
    str_at ["payload"; "type"] v ≠ Some "task_complete" → record_means v Irrelevant
| means_user : str_at ["type"] v = Some "response_item" →
    str_at ["payload"; "role"] v = Some "user" → record_means v UserMessage
| means_capacity : str_at ["type"] v = Some "response_item" →
    str_at ["payload"; "role"] v = Some "assistant" → capacity_reply v →
    record_means v CapacityReply
| means_reply : str_at ["type"] v = Some "response_item" →
    str_at ["payload"; "role"] v = Some "assistant" → ¬ capacity_reply v →
    record_means v OtherReply
| means_other_item : str_at ["type"] v = Some "response_item" →
    str_at ["payload"; "role"] v ≠ Some "user" →
    str_at ["payload"; "role"] v ≠ Some "assistant" → record_means v Irrelevant
| means_other : str_at ["type"] v ≠ Some "event_msg" →
    str_at ["type"] v ≠ Some "response_item" → record_means v Irrelevant.

Lemma capacity_reply_iff v : assistant_has_exact_capacity_message v = true ↔ capacity_reply v.
Proof.
  unfold assistant_has_exact_capacity_message, capacity_reply.
  destruct (pointer ["payload"; "content"] v) as [x|]; cbn [mbind option_bind];
    [|split; [done|by intros (? & ? & ? & _)]].
  destruct x as [| | | |parts|]; cbn [as_array]; try (split; [done|by intros (? & ? & ? & _)]).
  rewrite existsb_elem. split.
  - intros (part & Hin & Hp). apply andb_true_iff in Hp as [H1%opt_str_eqb_iff H2%opt_str_eqb_iff].
    by exists parts, part.
  - intros (parts' & part & [= <-] & Hin & H1 & H2). exists part. split; [done|].
    apply andb_true_iff. by rewrite !opt_str_eqb_iff.
Qed.

Lemma record_means_iff v e : record_means v e ↔ e = classify_record v.
Proof.
  assert (∀ o t, (opt_str_eqb o (Some t) = true ∧ o = Some t)
                 ∨ (opt_str_eqb o (Some t) = false ∧ o ≠ Some t)) as Hcase.
  { intros o t. destruct (opt_str_eqb o (Some t)) eqn:E; [left|right]; (split; [done|]).
    - by apply opt_str_eqb_iff.
    - intros Ht. apply opt_str_eqb_iff in Ht. congruence. }
  pose proof (capacity_reply_iff v) as Hcap. unfold classify_record. split.
  - destruct 1 as [Ht Hp|Ht Hp|Ht Hp Hp'|Ht Hp|Ht Hp Hc|Ht Hp Hc|Ht Hp Hp'|Ht Ht'];
      repeat match goal with
      | |- context [opt_str_eqb ?o (Some ?t)] =>
          destruct (Hcase o t) as [[-> ?]|[-> ?]]; try congruence
      end; try done.
    + by rewrite (proj2 Hcap Hc).
    + destruct (assistant_has_exact_capacity_message v); [by destruct Hc; apply Hcap|done].
  - intros ->. repeat match goal with
      | |- context [opt_str_eqb ?o (Some ?t)] => destruct (Hcase o t) as [[-> ?]|[-> ?]]
      end; try by constructor.
    destruct (assistant_has_exact_capacity_message v) eqn:E; constructor; try done; [by apply Hcap|].
    intros Hc%Hcap. congruence.
Qed.

(** The lines that are not empty parse, each within 256 KiB, to values of these events. *)
Definition rollout_says `{JsonParse} (records : list (list Z)) (es : list TurnEvent) : Prop :=
  Forall2 (λ line e, Z.of_nat (length line) ≤ 262144 ∧ ∃ v, parse_json line = Some v ∧ record_means v e)
    (List.filter (λ l, negb (bool_decide (l = []))) records) es.

Lemma turn_events_says `{JsonParse} records es :
  turn_events records = Some es ↔ rollout_says records es.
Proof.
  unfold turn_events, rollout_says. change MAX_ROLLOUT_RECORD_BYTES with 262144.
  set (lines := List.filter _ records). clearbody lines. revert es.
  induction lines as [|line lines IH]; intros es.
  { cbn. split; [intros [= <-]; constructor|by inversion 1]. }
  cbn [existsb mapM]. destruct (Z.ltb_spec 262144 (Z.of_nat (length line))) as [Hl|Hl]; cbn [orb].
  { split; [done|]. inversion 1 as [|? e ? es' [? _]]; subst. lia. }
  destruct (parse_json line) as [v|] eqn:Ev; cbn [mbind option_bind].
  2: { split; [by destruct (existsb _ _)|]. inversion 1 as [|? e ? es' [_ (v & ? & _)]]; congruence. }
  specialize (IH (tail es)). destruct (existsb _ _).
  { split; [done|]. inversion 1 as [|? e ? es' _ Hes]; subst. by apply IH in Hes. }
  destruct (mapM parse_json lines) as [vs|]; cbn [mbind option_bind fmap option_fmap option_map] in *.
  - split.
    + intros [= <-]. cbn [tail fmap list_fmap] in *. constructor; [|by apply IH].
      split; [done|]. exists v. split; [done|]. by apply record_means_iff.
    + inversion 1 as [|? e ? es' [_ (v' & Hv & He%record_means_iff)] Hes]; subst. cbn [tail] in IH.
      apply IH in Hes. by simplify_eq.
  - split; [done|]. inversion 1 as [|? e ? es' _ Hes]; subst. cbn [tail] in IH. by apply IH in Hes.
Qed.

(** C27: The capacity verdict of a rollout is exactly the verdict of its turns.  When its
    records are JSON and within the size limit, each says one thing about the turns, and the
    verdict is [true] iff the last turn to complete was started under the identifier it
    completed under, the assistant's exact capacity message stands in it after its last user
    message, and no turn, completion or user message follows; that the message be the last
    reply of the turn is not asked for.  A record that is too long or not JSON gives no
    verdict. *)
Theorem capacity_verdict_exact `{JsonParse} records :
  Forall (λ x, 10 ∉ x) records →
  (∀ es, rollout_says records es →
     ∃ v, capacity_of_tail (records_bytes records) = Some v ∧ (v = true ↔ failed_for_capacity es))
  ∧ ((∀ es, ¬ rollout_says records es) → capacity_of_tail (records_bytes records) = None).
Proof.
  intros Hr. rewrite capacity_of_records by done. split.
  - intros es ->%turn_events_says. cbn. eexists. split; [done|]. apply terminal_capacity_grammar.
  - intros Hno. destruct (turn_events records) as [es|] eqn:E; [|done].
    destruct (Hno es). by apply turn_events_says.
Qed.

(** A turn that went on after the capacity message and completed with another reply still
    has the verdict. *)
Theorem capacity_outlives_later_replies t :
  failed_for_capacity [Started (Some t); CapacityReply; OtherReply; Completed (Some t)].
Proof.
  exists [], t, [], [OtherReply], []. split; [done|].
  split; [constructor|]. split; [by constructor|constructor].
Qed.

Lemma revalidate_target_Some linux w r tr :
  traces (revalidate_target linux w r) tr (Some tt) →
  start_time (target_process (target w)) = codex_process_start_time r
  ∧ current_target_session (target w) = codex_target_session r
  ∧ ∃ observed, existT (OInspect (pid (target_process (target w)))) (Some observed) ∈ tr
      ∧ pr_pid observed = pid (target_process (target w))
      ∧ pr_start_time observed = start_time (target_process (target w)).
Proof.
  unfold revalidate_target. destruct (Z.eqb_spec (start_time (target_process (target w))) (codex_process_start_time r));
    [|by intros []]. destruct (opt_str_eqb _ _) eqn:Es; [|by intros []]. apply bool_decide_eq_true in Es.
  cbn [negb orb]. intros (tr1 & tr2 & o & -> & ->%traces_ocall & Hk)%traces_some.
  split; [done|]. split; [done|]. exists o.
  destruct (Z.eqb_spec (pr_start_time o) (start_time (target_process (target w)))); [|by destruct Hk].
  destruct (Z.eqb_spec (pr_pid o) (pid (target_process (target w)))); [|by destruct Hk].
  split; [set_solver|done].
Qed.

Lemma thread_exists_true b thread tr :
  traces (thread_exists b thread) tr true → existT (OExists (canonical_path b) thread) (Some true) ∈ tr.
Proof.
  unfold thread_exists. intros (tr1 & tr2 & [[]|] & -> & _ & Hk)%traces_bind; [|by destruct Hk].
  apply traces_bind in Hk as (tr3 & tr4 & [columns|] & -> & _ & Hk); [|by destruct Hk].
  destruct (one_of columns "id"); [|by destruct Hk].
  apply traces_bind in Hk as (tr5 & tr6 & [[]|] & -> & ->%traces_ocall & [-> Hk]); try done. set_solver.
Qed.

Lemma read_goal_Some b thread tr g :
  traces (read_goal b thread) tr (Some g) → existT (OGoal (canonical_path b) thread) (Some g) ∈ tr.
Proof.
  unfold read_goal.
  intros (tr1 & tr2 & [] & -> & _ & (tr3 & tr4 & columns & -> & _ & Hk)%traces_some)%traces_some.
  destruct (forallb _ _); [|by destruct Hk]. apply traces_ocall in Hk as ->. set_solver.
Qed.

(** A Codex observation is correlated end to end.  When one is made, the session was
    bound to this very process (same start time, same multiplexer session, and the running
    process still has that start time), the thread exists in the bound thread database, the
    status is the one the bound goals database holds for the thread, all three files were
    revalidated, and the observation is a terminal capacity block exactly when that status
    is [blocked] and the tail of the bound rollout says so. *)
Theorem codex_observation_correlated `{JsonParse} linux w tr s :
  traces (observe_bound_codex_state linux w) tr (Some s) →
  ∃ r st observed goal capacity tr1 mid tr2 l,
    codex_session w = Some r ∧ structured_state r = Some st
    ∧ codex_process_start_time r = start_time (target_process (target w))
    ∧ codex_target_session r = current_target_session (target w)
    ∧ existT (OInspect (pid (target_process (target w)))) (Some observed) ∈ tr
    ∧ pr_start_time observed = start_time (target_process (target w))
    ∧ Forall (λ b, ∃ a m c, tr = a ++ m ++ c ∧ attests_file b m)
        [rollout st; thread_db st; goals_db st]
    ∧ existT (OExists (canonical_path (thread_db st)) (thread_id r)) (Some true) ∈ tr
    ∧ existT (OGoal (canonical_path (goals_db st)) (thread_id r)) (Some goal) ∈ tr
    ∧ tr = tr1 ++ mid ++ tr2 ∧ traces (read_rollout_tail (rollout st)) mid (Some l)
    ∧ capacity_of_tail l = Some capacity
    ∧ gs_thread_id s = thread_id r ∧ goal_status s = Some goal.1
    ∧ (last_error_terminal s = true ↔ normalize_status goal.1 = "blocked" ∧ capacity = true)
    ∧ (last_error_category s = Some "capacity_block" ↔ last_error_terminal s = true).
Proof.
  unfold observe_bound_codex_state. destruct (codex_session w) as [r|]; [|by intros []].
  destruct (structured_state r) as [st|] eqn:Est; [|by intros []].
  intros (t1 & t' & [] & -> & (Hst & Hse & o & Ho & _ & Hos)%revalidate_target_Some & Hk)%traces_some.
  apply traces_some in Hk as (t2 & t'' & [] & -> & H2 & Hk).
  apply traces_some in Hk as (t3 & t''' & [] & -> & H3 & Hk).
  apply traces_some in Hk as (t4 & t5 & [] & -> & H4 & Hk).
  apply traces_bind in Hk as (t6 & t7 & found & -> & Ht & Hk). destruct found; [|by destruct Hk].
  apply thread_exists_true in Ht.
  apply traces_some in Hk as (t8 & t9 & goal & -> & Hg%read_goal_Some & Hk).
  apply traces_some in Hk as (t10 & t11 & cap & -> & Hc & [-> [= ->]]).
  apply traces_some in Hc as (t12 & t13 & l & -> & Hl & [-> Hcap]).
  exists r, st, o, goal, cap, (t1 ++ t2 ++ t3 ++ t4 ++ t6 ++ t8), t12, [], l.
  split; [done|]. split; [done|]. split; [done|]. split; [done|]. split; [set_solver|]. split; [done|].
  split.
  { repeat (apply Forall_cons; split); [..|by apply Forall_nil].
    - exists t1, t2. eexists. done.
    - exists (t1 ++ t2), t3. eexists. split; [apply app_assoc|exact H3].
    - exists ((t1 ++ t2) ++ t3), t4. eexists.
      split; [rewrite (app_assoc t1), (app_assoc (t1 ++ t2)); reflexivity|exact H4]. }
  split; [set_solver|]. split; [set_solver|]. split; [by rewrite !app_nil_r, <- !app_assoc|].
  split; [exact Hl|]. split; [by symmetry|]. split; [reflexivity|]. split; [reflexivity|]. cbn.
  destruct (String.eqb_spec (normalize_status goal.1) "blocked"), cap; cbn; naive_solver.
Qed.

(** ** A session whose last turn failed for capacity *)
Definition demo_msg (type id : string) : Value :=
  VObject [("payload", VObject [("turn_id", VString id); ("type", VString type)]); ("type", VString "event_msg")].
Definition demo_capacity_reply : Value :=
  VObject [("payload", VObject [
              ("content", VArray [VObject [("text", VString CAPACITY_MESSAGE); ("type", VString "output_text")]]);
              ("role", VString "assistant")]);
           ("type", VString "response_item")].

Definition demo_parse : JsonParse := λ l,
  match l with
  | [115] => Some (demo_msg "task_started" "one")
  | [97] => Some demo_capacity_reply
  | [99] => Some (demo_msg "task_complete" "one")
  | _ => None
  end.

Definition demo_records : list (list Z) := [[115]; [97]; [99]].
Definition demo_bound (path : string) (ino : Z) : CodexBoundFile := mkBoundFile path 8 ino 1000.

(** The rollout is read two bytes at a time. *)
Definition demo_host (o : HostOp) (s : unit) : unit * HostAns o :=
  (s, match o return HostAns o with
      | OCanonical path => Some (if String.eqb path "/proc/42/cwd" then "/work" else path)
      | OStat path =>
          Some (mkMeta true false 8
                  (if String.eqb path "/c/rollout" then 1 else if String.eqb path "/c/state_1.sqlite" then 2 else 3)
                  1000 384)
      | OEuid | OUid => 1000
      | OLen _ => Some 6
      | OReadAt _ _ off => Some (take 2 (drop (Z.to_nat off) (records_bytes demo_records)))
      | OInspect p => Some (mkProcess p 1 77 None None None None None None)
      | ODatabase _ => true
      | OColumns _ table =>
          Some (if String.eqb table "threads" then ["id"] else ["status"; "thread_id"; "updated_at_ms"])
      | OExists _ _ => Some true
      | OGoal _ _ => Some (" Blocked", 12)
      | OEnv _ | OLink _ => None
      | OLstat _ | OOpenStat _ => None
      | ODir _ => None
      | ORead _ _ => None
      end).

Definition demo_codex_ref : CodexSessionReference :=
  mkCodexRef "thr_1" "/c/rollout" 77 "/work" None None None
    (Some (mkStructuredRef (demo_bound "/c/rollout" 1) (demo_bound "/c/state_1.sqlite" 2)
             (demo_bound "/c/goals_1.sqlite" 3))).

Definition demo_codex_watcher : WatcherState :=
  set_codex (watcher_new "w" (TProcess (process_identity_new 42 77)) Lifecycle.Observing 0 0)
    (Some demo_codex_ref).

Lemma rollout_tail_exact_witness :
  ∃ tr, traces (read_rollout_tail (demo_bound "/c/rollout" 1)) tr (Some (records_bytes demo_records))
    ∧ ∃ k, records_bytes demo_records = records_bytes (drop k demo_records).
Proof.
  set (run := converse demo_host (read_rollout_tail (demo_bound "/c/rollout" 1)) tt).
  pose proof (converse_traces demo_host (read_rollout_tail (demo_bound "/c/rollout" 1)) tt) as Ht.
  change (converse _ _ _) with run in Ht.
  assert (run.2 = Some (records_bytes demo_records)) as E by (vm_compute; reflexivity).
  rewrite E in Ht. exists run.1. split; [exact Ht|].
  destruct (rollout_tail_exact (demo_bound "/c/rollout" 1) demo_records run.1 (records_bytes demo_records))
    as (_ & _ & k & Hk & _).
  - apply (bool_decide_unpack _). by vm_compute.
  - vm_compute. repeat (apply Forall_cons; split); try apply Forall_nil; cbn; try done; by eexists.
  - exact Ht.
  - exists k. exact Hk.
Defined.

Lemma capacity_verdict_exact_witness :
  let parse : JsonParse := demo_parse in
  capacity_of_tail (records_bytes demo_records) = Some true
  ∧ failed_for_capacity [Started (Some "one"); CapacityReply; Completed (Some "one")].
Proof.
  intros parse. destruct (capacity_verdict_exact demo_records) as [Hv _].
  { apply (bool_decide_unpack _). by vm_compute. }
  destruct (Hv [Started (Some "one"); CapacityReply; Completed (Some "one")]) as (v & Hc & Hf).
  { apply turn_events_says. vm_compute. reflexivity. }
  assert (capacity_of_tail (records_bytes demo_records) = Some true) as E by (vm_compute; reflexivity).
  split; [exact E|]. apply Hf. rewrite E in Hc. congruence.
Defined.

Lemma codex_observation_correlated_witness :
  let parse : JsonParse := demo_parse in
  let run := converse demo_host (observe_bound_codex_state true demo_codex_watcher) tt in
  run.2 = Some (bound_snapshot "thr_1" " Blocked" true)
  ∧ ∃ goal, existT (OGoal "/c/goals_1.sqlite" "thr_1") (Some goal) ∈ run.1 ∧ goal.1 = " Blocked".
Proof.
  intros parse run.
  assert (run.2 = Some (bound_snapshot "thr_1" " Blocked" true)) as E by (vm_compute; reflexivity).
  split; [exact E|].
  pose proof (converse_traces demo_host (observe_bound_codex_state true demo_codex_watcher) tt) as Ht.
  change (converse _ _ _) with run in Ht. rewrite E in Ht.
  destruct (codex_observation_correlated true demo_codex_watcher run.1 _ Ht)
    as (r & st & o & goal & cap & tr1 & mid & tr2 & l & Hr & Hst & _ & _ & _ & _ & _ & _ & Hg & _ & _ & _ & _ & Hs & _).
  injection Hr as <-. injection Hst as <-. exists goal. split; [exact Hg|]. by injection Hs.
Defined.
