(* ===== verification/Attach.v ===== *)
(** * Session attachment at registration
      (src/src/claude_attachment.rs, src/src/codex_attachment.rs)

    Which Claude or Codex session a watcher is bound to: only files the resolved process
    holds open, or values the environment supplies explicitly on macOS. *)
From S2P Require Import Prelude Json Text Utf8 ParseInt Identity State Process Registry.
From S2P Require Import Effects Runtime Mux.
From S2P Require Import Hooks Claude Codex Manifest Linux Host CodexState.
From stdpp Require Import pretty.

From stdpp Require Import gmap strings.
From Stdlib Require Import Ascii.

Local Open Scope Z_scope.

Definition MAX_CMDLINE_BYTES : Z := 64 * 1024.
Definition OWNER_ONLY : Z := 63.

Definition proc_path (root : string) (p : Z) (name : string) : string :=
  join_path root (pretty p +:+ "/" +:+ name).

(** [filter_map(Result::ok)] over a directory that may not be readable. *)
Definition dir_entries (path : string) : HostProg (option (list string)) :=
  let! entries := ocall (ODir path) in 
  Ret (match entries with Some l => Some (omap (λ e, e) l) | None => None end).

(** ** Claude *)
Section Claude.
Context `{JsonParse} (linux : bool).

Definition claude_marker_path : HostProg string :=
  let! explicit := ocall (OEnv "WATCHME_CLAUDE_MARKER_PATH") in
  match explicit with
  | Some path => Ret path
  | None =>
      let! state := ocall (OEnv "XDG_STATE_HOME") in
      match state with
      | Some state => Ret (join_path state "watchme/claude-stop-failure.jsonl")
      | None =>
          let! home := ocall (OEnv "HOME") in
          Ret (join_path (match home with
                          | Some home => join_path home ".local/state"
                          | None => "/nonexistent"
                          end) "watchme/claude-stop-failure.jsonl")
      end
  end.

Definition owner_private_regular (path : string) : HostProg bool :=
  let! m := ocall (OLstat path) in
  match m with
  | None => Ret false
  | Some m =>
      if hm_is_file m
      then let! uid := ocall OUid in Ret ((hm_uid m =? uid) && (Z.land (hm_mode m) OWNER_ONLY =? 0))
      else Ret false
  end.

(** [entries.any(|entry| lookup(entry) == Some(expected))]. *)
Definition any_entry (dir : string) (lookup : string → HostOp) (expected : string)
    (answer : ∀ e, HostAns (lookup e) → option string) : HostProg bool :=
  let! entries := dir_entries dir in
  match entries with
  | None => Ret false
  | Some entries =>
      any_prog (λ e, let! found := ocall (lookup e) in
                     Ret (match answer e found with Some p => path_eqb p expected | None => false end))
        entries
  end.

Definition linux_open_transcript_matches (p : Z) (transcript : string) : HostProg bool :=
  let! expected := ocall (OCanonical transcript) in
  match expected with
  | None => Ret false
  | Some expected => any_entry (proc_path "/proc" p "fd") OCanonical expected (λ _ r, r)
  end.

Definition valid_claude_transcript (root path : string) : HostProg bool :=
  if path_starts_with path root && is_jsonl path then owner_private_regular path else Ret false.

Definition session_of_line (line : option (list Z)) : option string :=
  l ← line;
  v ← parse_json l;
  session ← match get_field "sessionId" v with Some s => Some s | None => get_field "session_id" v end
              ≫= as_str;
  if is_empty session || (256 <? len session) || has_control session then None else Some session.

Definition transcript_session_id (path : string) : HostProg (option string) :=
  some! content := ocall (ORead path None) in
  Ret (head (omap session_of_line (take 64 (reader_lines content)))).

Fixpoint transcript_candidates (root : string) (entries : list string)
    : HostProg (list (string * string)) :=
  match entries with
  | [] => Ret []
  | entry :: entries =>
      let! path := ocall (OCanonical entry) in
      match path with
      | None => transcript_candidates root entries
      | Some path =>
          let! valid := valid_claude_transcript root path in
          if negb valid then transcript_candidates root entries
          else
            let! session := transcript_session_id path in
            let! rest := transcript_candidates root entries in
            Ret (match session with Some s => (s, path) :: rest | None => rest end)
      end
  end.

(** [sort(); dedup(); (len() == 1)]: the one element up to repetition. *)
Definition sole {A} `{EqDecision A} (l : list A) : option A :=
  match remove_dups l with [x] => Some x | _ => None end.

Definition discover_linux_open_transcript_at (proc_root home : string) (p : Z)
    : HostProg (option (string * string)) :=
  some! root := ocall (OCanonical (join_path home ".claude/projects")) in
  some! entries := dir_entries (proc_path proc_root p "fd") in
  let! candidates := transcript_candidates root entries in
  Ret (sole candidates).

Definition discover_linux_open_transcript (p : Z) : HostProg (option (string * string)) :=
  if linux then
    some! home := ocall (OEnv "HOME") in discover_linux_open_transcript_at "/proc" home p
  else Ret None.

(** [CLAUDE_SESSION_ID] and [CLAUDE_TRANSCRIPT_PATH], or the transcript held open. *)
Definition claude_candidate (p : Z) : HostProg (option (string * string)) :=
  let! session := ocall (OEnv "CLAUDE_SESSION_ID") in
  let! transcript := ocall (OEnv "CLAUDE_TRANSCRIPT_PATH") in
  match session, transcript with
  | Some session, Some transcript =>
      if linux then
        let! b := linux_open_transcript_matches p transcript in
        Ret (if b then Some (session, transcript) else None)
      else Ret (Some (session, transcript))
  | _, _ => discover_linux_open_transcript p
  end.

(** [checked_file] of src/src/hooks/claude.rs for a private file. *)
Definition checked_private_file (path : string) : HostProg (option Meta) :=
  some! m := ocall (OLstat path) in
  if negb (hm_is_file m) || negb (Z.land (hm_mode m) OWNER_ONLY =? 0) then Ret None
  else let! uid := ocall OUid in Ret (if hm_uid m =? uid then Some m else None).

(** [hooks::claude::bind_transcript]. *)
Definition bind_transcript (path : string) : HostProg (option TranscriptBinding) :=
  some! m := checked_private_file path in
  some! opened := ocall (OOpenStat path) in
  if negb (hm_dev opened =? hm_dev m) || negb (hm_ino opened =? hm_ino m) then Ret None
  else some! canonical := ocall (OCanonical path) in
       Ret (Some (mkTranscriptBinding canonical (hm_dev m) (hm_ino m))).

Definition canonical_regular (path : string) : HostProg (option string) :=
  some! path := ocall (OCanonical path) in
  some! m := ocall (OStat path) in
  Ret (if hm_is_file m then Some path else None).

(** Where the process works, when it holds the transcript open. *)
Definition linux_claude_cwd (p : Z) (transcript : string) : HostProg (option string) :=
  let! opened := any_entry (proc_path "/proc" p "fd") OLink transcript (λ _ r, r) in
  let! cwd := ocall (OLink (proc_path "/proc" p "cwd")) in
  Ret (if opened then cwd else None).

Definition env_number (name : string) (max : Z) : HostProg (option Z) :=
  some! value := ocall (OEnv name) in Ret (parse_unsigned max value).

Definition macos_claude_cwd (i : ProcessIdentity) (transcript : string) : HostProg (option string) :=
  let! supplied_pid := env_number "WATCHME_CLAUDE_PROCESS_PID" u32_max in
  let! supplied_start := env_number "WATCHME_CLAUDE_PROCESS_START_TIME" u64_max in
  let! cwd := (some! value := ocall (OEnv "WATCHME_CLAUDE_PROCESS_CWD") in ocall (OCanonical value)) in
  match supplied_pid, supplied_start, cwd with
  | Some supplied_pid, Some supplied_start, Some cwd =>
      if negb (supplied_pid =? pid i) || negb (supplied_start =? start_time i) then Ret None
      else
        some! m := ocall (OStat cwd) in
        if negb (hm_is_dir m) || negb (path_starts_with transcript cwd) then Ret None
        else let! b := owner_private_regular transcript in Ret (if b then Some cwd else None)
  | _, _, _ => Ret None
  end.

Definition claude_reference (i : ProcessIdentity) (t : TargetIdentity)
    : HostProg (option ClaudeSessionReference) :=
  let! marker := claude_marker_path in
  some! candidate := claude_candidate (pid i) in
  some! transcript := canonical_regular candidate.2 in
  some! binding := bind_transcript transcript in
  if negb (is_absolute marker) then Ret None
  else
    some! cwd := if linux then linux_claude_cwd (pid i) transcript
                 else macos_claude_cwd i transcript in
    Ret (Some (mkClaudeRef candidate.1 transcript marker (start_time i) cwd
                 (current_target_session t) (Some binding))).

(** An attachment that is refused, or that the watcher rejects, leaves it as it was. *)
Definition attach_process_correlated_claude_session (w : WatcherState) : HostProg WatcherState :=
  let! r := claude_reference (target_process (target w)) (target w) in
  Ret (match r with
       | Some r => match set_claude_session w r with Ok w' => w' | Err _ => w end
       | None => w
       end).
End Claude.

(** ** Codex *)
Section Codex.
Context `{JsonParse} (linux : bool).

Definition EXPLICIT_VALUE_NAMES : list string :=
  ["WATCHME_CODEX_THREAD_ID"; "WATCHME_CODEX_PROCESS_PID"; "WATCHME_CODEX_PROCESS_START_TIME";
   "WATCHME_CODEX_PROCESS_CWD"; "WATCHME_CODEX_ROLLOUT_PATH"; "WATCHME_CODEX_THREAD_DB_PATH";
   "WATCHME_CODEX_GOALS_DB_PATH"].

Definition thread_byte (b : ascii) : bool :=
  is_ascii_alphanumeric b || existsb (λ c, byte_val b =? c) (byte_list "-_.:").

Definition valid_thread_id (thread : string) : bool :=
  negb (is_empty thread) && (len thread <=? 256) && forallb thread_byte (bytes thread).

Definition canonical_directory (value : string) : HostProg (option string) :=
  some! canonical := ocall (OCanonical value) in
  some! m := ocall (OStat canonical) in
  Ret (if hm_is_dir m then Some canonical else None).

Definition bind_safe_file (path : string) : HostProg (option CodexBoundFile) :=
  some! canonical := ocall (OCanonical path) in
  some! m := ocall (OStat canonical) in
  if negb (hm_is_file m) then Ret None
  else
    let! euid := ocall OEuid in
    Ret (if (hm_uid m =? euid) && (Z.land (hm_mode m) 2 =? 0)
         then Some (mkBoundFile canonical (hm_dev m) (hm_ino m) (hm_uid m)) else None).

(** The first line, newline included, of the first 64 KiB; [read_line] fails when it is not
    UTF-8. *)
Fixpoint first_line (l : list Z) : list Z :=
  match l with
  | [] => []
  | b :: l => if b =? 10 then [b] else b :: first_line l
  end.

Definition is_session_meta (thread : string) (line : list Z) : bool :=
  match parse_json line with
  | Some v => opt_str_eqb (str_at ["type"] v) (Some "session_meta")
              && opt_str_eqb (str_at ["payload"; "id"] v) (Some thread)
  | None => false
  end.

Definition rollout_matches_thread (path name thread : string) : HostProg bool :=
  if contains thread name then Ret true
  else
    let! content := ocall (ORead path (Some (64 * 1024))) in
    Ret (match content with
         | Some content =>
             let line := first_line (take (Z.to_nat (64 * 1024)) content) in
             utf8_ok line && is_session_meta thread line
         | None => false
         end).

Definition thread_db_matches (path thread : string) : HostProg bool :=
  let! opened := ocall (ODatabase path) in
  if opened then let! found := ocall (OExists path thread) in Ret (default false found)
  else Ret false.

Definition goals_db_matches (path : string) : HostProg bool :=
  let! opened := ocall (ODatabase path) in
  if opened then
    let! columns := ocall (OColumns path "thread_goals") in
    Ret (match columns with
         | Some columns => forallb (one_of columns) goal_columns
         | None => false
         end)
  else Ret false.

(** [pair[0] == "resume"] over [windows(2)]. *)
Fixpoint resumed (arguments : list (list Z)) : list string :=
  match arguments with
  | a :: ((b :: _) as rest) =>
      (if bool_decide (a = byte_list "resume") && valid_thread_id (string_of_bytes b)
       then [string_of_bytes b] else []) ++ resumed rest
  | _ => []
  end.

Definition resume_of_cmdline (l : list Z) : option string :=
  if bool_decide (l = []) || (MAX_CMDLINE_BYTES <? Z.of_nat (length l)) then None
  else if negb (bool_decide (last l = Some 0)) then None
  else
    let arguments := split_on 0 (take (length l - 1) l) in
    if forallb utf8_ok arguments
    then match resumed arguments with [thread] => Some thread | _ => None end
    else None.

Definition resume_thread_id (root : string) (p : Z) : HostProg (option string) :=
  some! l := ocall (ORead (proc_path root p "cmdline") (Some (MAX_CMDLINE_BYTES + 1))) in
  Ret (resume_of_cmdline (take (Z.to_nat (MAX_CMDLINE_BYTES + 1)) l)).

Definition push_unique (files : list CodexBoundFile) (c : CodexBoundFile) : list CodexBoundFile :=
  if existsb (λ f, (device f =? device c) && (inode f =? inode c)) files then files
  else files ++ [c].

(** The three lists the directory is sorted into. *)
Record OpenState : Type := mkOpen {
  op_rollouts : list CodexBoundFile;
  op_thread_dbs : list CodexBoundFile;
  op_goals_dbs : list CodexBoundFile;
}.

Definition classify_open (thread path name : string) (b : CodexBoundFile) (s : OpenState)
    : HostProg OpenState :=
  let! is_rollout := if contains "rollout" name then rollout_matches_thread path name thread
                     else Ret false in
  if is_rollout : bool
  then Ret (mkOpen (push_unique (op_rollouts s) b) (op_thread_dbs s) (op_goals_dbs s))
  else
    let! is_thread_db := if starts_with "state_" name && ends_with ".sqlite" name
                         then thread_db_matches path thread else Ret false in
    if is_thread_db : bool
    then Ret (mkOpen (op_rollouts s) (push_unique (op_thread_dbs s) b) (op_goals_dbs s))
    else
      let! is_goals_db := if starts_with "goals_" name && ends_with ".sqlite" name
                          then goals_db_matches path else Ret false in
      Ret (if is_goals_db : bool
           then mkOpen (op_rollouts s) (op_thread_dbs s) (push_unique (op_goals_dbs s) b)
           else s).

(** One entry of the loop. *)
Definition scan_entry (thread entry : string) (s : OpenState) : HostProg OpenState :=
  let! path := ocall (OCanonical entry) in
  match path with
  | None => Ret s
  | Some path =>
      let! bound := bind_safe_file path in
      match bound, file_name path with
      | Some bound, Some name => classify_open thread path name bound s
      | _, _ => Ret s
      end
  end.

Fixpoint scan_entries (thread : string) (entries : list (option string)) (s : OpenState)
    : HostProg OpenState :=
  match entries with
  | [] => Ret s
  | None :: entries => scan_entries thread entries s
  | Some entry :: entries => let! s := scan_entry thread entry s in scan_entries thread entries s
  end.

Definition exact_state (s : OpenState) : option CodexStructuredStateReference :=
  match op_rollouts s, op_thread_dbs s, op_goals_dbs s with
  | [r], [t], [g] => Some (mkStructuredRef r t g)
  | _, _, _ => None
  end.

Definition discover_exact_open_state (root : string) (p : Z) (thread : string)
    : HostProg (option CodexStructuredStateReference) :=
  some! entries := ocall (ODir (proc_path root p "fd")) in
  let! s := scan_entries thread (take 4096 entries) (mkOpen [] [] []) in
  Ret (exact_state s).

Definition codex_context_session (t : TargetIdentity) : option string :=
  match observation_context t with
  | Some (CtxTmux _ _ session_id _ _ _) => Some session_id
  | Some (CtxHerdr _ _ workspace_id _ _ _ _) => Some workspace_id
  | None => None
  end.

Definition codex_reference (thread : string) (st : CodexStructuredStateReference) (cwd : string)
    (t : TargetIdentity) : CodexSessionReference :=
  mkCodexRef thread (canonical_path (rollout st)) (start_time (target_process t)) cwd
    (codex_context_session t) None None (Some st).

Definition store_codex (w : WatcherState) (r : CodexSessionReference) : WatcherState :=
  match set_codex_session w r with Ok w' => w' | Err _ => w end.

Definition codex_open_reference (root : string) (herdr_session : option string) (t : TargetIdentity)
    : HostProg (option CodexSessionReference) :=
  let p := pid (target_process t) in
  some! thread := resume_thread_id root p in
  if match herdr_session with Some s => negb (String.eqb s thread) | None => false end then Ret None
  else
    some! st := discover_exact_open_state root p thread in
    some! cwd := ocall (OCanonical (proc_path root p "cwd")) in
    Ret (Some (codex_reference thread st cwd t)).

Definition store_if (w : WatcherState) (c : HostProg (option CodexSessionReference))
    : HostProg WatcherState :=
  let! r := c in Ret (match r with Some r => store_codex w r | None => w end).

Definition attach_process_correlated_codex_session_at (root : string) (herdr_session : option string)
    (w : WatcherState) : HostProg WatcherState :=
  store_if w (codex_open_reference root herdr_session (target w)).

(** [values] is the map of the explicit variables. *)
Definition explicit_value (values : gmap string string) (name : string) : string :=
  default "" (values !! name).

Definition explicit_reference (values : gmap string string) (t : TargetIdentity)
    : HostProg (option CodexSessionReference) :=
  let value := explicit_value values in
  let thread := value "WATCHME_CODEX_THREAD_ID" in
  if negb (forallb (λ name, negb (is_empty (value name))) EXPLICIT_VALUE_NAMES) then Ret None
  else
    match parse_unsigned u32_max (value "WATCHME_CODEX_PROCESS_PID"),
          parse_unsigned u64_max (value "WATCHME_CODEX_PROCESS_START_TIME") with
    | Some p, Some start =>
        if negb (p =? pid (target_process t)) || negb (start =? start_time (target_process t))
           || negb (valid_thread_id thread)
        then Ret None
        else
          some! cwd := canonical_directory (value "WATCHME_CODEX_PROCESS_CWD") in
          some! r := bind_safe_file (value "WATCHME_CODEX_ROLLOUT_PATH") in
          some! d := bind_safe_file (value "WATCHME_CODEX_THREAD_DB_PATH") in
          some! g := bind_safe_file (value "WATCHME_CODEX_GOALS_DB_PATH") in
          let! b := rollout_matches_thread (canonical_path r)
                      (default "" (file_name (canonical_path r))) thread in
          if negb b then Ret None
          else
            let! b := thread_db_matches (canonical_path d) thread in
            if negb b then Ret None
            else
              let! b := goals_db_matches (canonical_path g) in
              Ret (if b then Some (codex_reference thread (mkStructuredRef r d g) cwd t) else None)
    | _, _ => Ret None
    end.

Definition attach_explicit_codex_session_from_values (values : gmap string string) (w : WatcherState)
    : HostProg WatcherState :=
  store_if w (explicit_reference values (target w)).

Fixpoint explicit_values (names : list string) : HostProg (gmap string string) :=
  match names with
  | [] => Ret ∅
  | name :: names =>
      let! value := ocall (OEnv name) in
      let! rest := explicit_values names in
      Ret (match value with Some v => <[name := v]> rest | None => rest end)
  end.

Definition attach_process_correlated_codex_session (w : WatcherState) (herdr_session : option string)
    : HostProg WatcherState :=
  if linux then attach_process_correlated_codex_session_at "/proc" herdr_session w
  else
    let! values := explicit_values EXPLICIT_VALUE_NAMES in
    if match herdr_session with
       | Some s => opt_str_eqb (values !! "WATCHME_CODEX_THREAD_ID") (Some s)
       | None => true
       end
    then attach_explicit_codex_session_from_values values w else Ret w.
End Codex.

(** ** Claude attachments, proved *)
Section ClaudeSafety.
Context `{JsonParse}.

Lemma sole_spec {A} `{EqDecision A} (l : list A) x : sole l = Some x ↔ l ≠ [] ∧ ∀ y, y ∈ l → y = x.
Proof.
  unfold sole. pose proof (NoDup_remove_dups l) as Hnd.
  assert (∀ y, y ∈ remove_dups l ↔ y ∈ l) as Hin by (intros y; apply elem_of_remove_dups).
  destruct (remove_dups l) as [|a [|b rest]] eqn:E.
  - split; [done|]. intros [Hne Hall]. destruct l as [|y l]; [done|].
    exfalso. apply (not_elem_of_nil y), Hin. set_solver.
  - split.
    + intros [= ->]. split; [intros ->; done|]. intros y Hy%Hin. set_solver.
    + intros [_ Hall]. f_equal. apply Hall, Hin. set_solver.
  - split; [done|]. intros [_ Hall].
    apply NoDup_cons in Hnd as [Hn _]. exfalso. apply Hn.
    rewrite (Hall a), (Hall b) by (apply Hin; set_solver). set_solver.
Qed.

Lemma any_entry_true dir lookup expected answer tr :
  traces (any_entry dir lookup expected answer) tr true →
  ∃ entries e found p, existT (ODir dir) (Some entries) ∈ tr ∧ Some e ∈ entries
    ∧ existT (lookup e) found ∈ tr ∧ answer e found = Some p ∧ path_eqb p expected = true.
Proof.
  unfold any_entry, dir_entries.
  intros (tr1 & tr2 & o & -> & (tr3 & tr4 & entries & -> & ->%traces_ocall & [-> ->])%traces_bind & Hk)%traces_bind.
  destruct entries as [entries|]; [|by destruct Hk].
  apply any_prog_true in Hk as (e & tra & trb & He & -> & trc & trd & -> & Hk).
  apply traces_bind in Hk as (tre & trf & found & -> & ->%traces_ocall & [-> Hb]).
  destruct (answer e found) as [p|] eqn:Ea; [|done].
  apply list_elem_of_omap in He as (o & Ho & ->).
  exists entries, e, found, p. split; [set_solver|]. split; [done|]. split; [set_solver|].
  split; [done|]. by symmetry.
Qed.

Lemma linux_cwd_Some p transcript tr cwd :
  traces (linux_claude_cwd p transcript) tr (Some cwd) →
  (∃ entries e q, existT (ODir (proc_path "/proc" p "fd")) (Some entries) ∈ tr ∧ Some e ∈ entries
     ∧ existT (OLink e) (Some q) ∈ tr ∧ path_eqb q transcript = true)
  ∧ existT (OLink (proc_path "/proc" p "cwd")) (Some cwd) ∈ tr.
Proof.
  unfold linux_claude_cwd. intros (tr1 & tr2 & opened & -> & Ho & Hk)%traces_bind.
  apply traces_bind in Hk as (tr3 & tr4 & c & -> & ->%traces_ocall & [-> Hc]).
  destruct opened; [|done]. subst c. apply any_entry_true in Ho as (es & e & found & q & ? & ? & ? & Hq & ?).
  cbn in Hq. subst found. split; [|set_solver]. exists es, e, q. set_solver.
Qed.

Lemma bind_transcript_Some path tr b :
  traces (bind_transcript path) tr (Some b) →
  ∃ m opened uid, existT (OLstat path) (Some m) ∈ tr ∧ existT (OOpenStat path) (Some opened) ∈ tr
    ∧ existT OUid uid ∈ tr
    ∧ hm_is_file m = true ∧ Z.land (hm_mode m) OWNER_ONLY = 0 ∧ hm_uid m = uid
    ∧ tb_device b = hm_dev m ∧ tb_inode b = hm_ino m ∧ hm_dev opened = hm_dev m ∧ hm_ino opened = hm_ino m.
Proof.
  unfold bind_transcript, checked_private_file.
  intros (tr1 & tr2 & m & -> & (tr3 & tr4 & m' & -> & ->%traces_ocall & Hm)%traces_some & Hk)%traces_some.
  destruct (hm_is_file m') eqn:Ef; [|by destruct Hm].
  destruct (Z.eqb_spec (Z.land (hm_mode m') OWNER_ONLY) 0); [|by destruct Hm]. cbn [negb orb] in Hm.
  apply traces_bind in Hm as (tr5 & tr6 & u & -> & ->%traces_ocall & [-> Hu]).
  destruct (Z.eqb_spec (hm_uid m') u); [|done]. injection Hu as ->.
  apply traces_some in Hk as (tr7 & tr8 & opened & -> & ->%traces_ocall & Hk).
  destruct (Z.eqb_spec (hm_dev opened) (hm_dev m')); [|by destruct Hk].
  destruct (Z.eqb_spec (hm_ino opened) (hm_ino m')); [|by destruct Hk]. cbn [negb orb] in Hk.
  apply traces_some in Hk as (tr9 & tr10 & c & -> & _ & [-> [= ->]]).
  exists m', opened, u. set_solver.
Qed.

(** A Claude session is attached on Linux only when the resolved process itself holds the
    transcript open: one of its descriptors links to it; the transcript is a regular file,
    private to the user, opened as the file that was checked; the recorded start time,
    working directory and multiplexer session are the process's own, and the marker path is
    absolute.  In every other case the watcher is left exactly as it was. *)
Theorem claude_attachment_correlated w tr w' :
  traces (attach_process_correlated_claude_session true w) tr w' →
  w' = w
  ∨ ∃ r b m opened uid entries e q,
      let p := pid (target_process (target w)) in
      w' = set_claude w (Some r) ∧ transcript_binding r = Some b
      ∧ claude_process_start_time r = start_time (target_process (target w))
      ∧ claude_target_session r = current_target_session (target w)
      ∧ is_absolute (marker_path r) = true
      ∧ existT (OLink (proc_path "/proc" p "cwd")) (Some (claude_process_cwd r)) ∈ tr
      ∧ existT (ODir (proc_path "/proc" p "fd")) (Some entries) ∈ tr ∧ Some e ∈ entries
      ∧ existT (OLink e) (Some q) ∈ tr ∧ path_eqb q (transcript_path r) = true
      ∧ existT (OLstat (transcript_path r)) (Some m) ∈ tr
      ∧ existT (OOpenStat (transcript_path r)) (Some opened) ∈ tr ∧ existT OUid uid ∈ tr
      ∧ hm_is_file m = true ∧ Z.land (hm_mode m) OWNER_ONLY = 0 ∧ hm_uid m = uid
      ∧ tb_device b = hm_dev m ∧ tb_inode b = hm_ino m
      ∧ hm_dev opened = hm_dev m ∧ hm_ino opened = hm_ino m.
Proof.
  unfold attach_process_correlated_claude_session.
  intros (tr1 & tr2 & [r|] & -> & Hr & [-> ->])%traces_bind; [|by left].
  destruct (set_claude_session w r) as [w''|] eqn:Es; [|by left]. right.
  unfold claude_reference in Hr. apply traces_bind in Hr as (t1 & t2 & marker & -> & _ & Hr).
  apply traces_some in Hr as (t3 & t4 & c & -> & _ & Hr).
  apply traces_some in Hr as (t5 & t6 & transcript & -> & _ & Hr).
  apply traces_some in Hr as (t7 & t8 & b & -> & Hb%bind_transcript_Some & Hr).
  destruct (is_absolute marker) eqn:Em; [|by destruct Hr]. cbn [negb] in Hr.
  apply traces_some in Hr as (t9 & t10 & cwd & -> & Hc%linux_cwd_Some & [-> [= ->]]).
  destruct Hb as (m & opened & uid & Hm1 & Hm2 & Hm3 & Hm).
  destruct Hc as [(es & e & q & He1 & He2 & He3 & He4) Hcwd].
  exists (mkClaudeRef c.1 transcript marker (start_time (target_process (target w))) cwd
            (current_target_session (target w)) (Some b)), b, m, opened, uid, es, e, q.
  cbn [transcript_binding claude_process_start_time claude_target_session marker_path transcript_path
       claude_process_cwd].
  assert (w'' = set_claude w (Some (mkClaudeRef c.1 transcript marker (start_time (target_process (target w))) cwd
            (current_target_session (target w)) (Some b)))) as ->.
  { unfold set_claude_session in Es. destruct (_ || _); [done|]. by injection Es as <-. }
  repeat (split; [first [done|set_solver +Hm1 Hm2 Hm3 He1 He3 Hcwd]|]). apply Hm.
Qed.
End ClaudeSafety.

(** ** Codex attachments, proved *)
Inductive Role : Type := RoleRollout | RoleThreadDb | RoleGoalsDb.

#[global] Instance Role_eq_dec : EqDecision Role.
Proof. solve_decision. Defined.

Section CodexSafety.
Context `{JsonParse}.

(** What one descriptor contributes. *)
Definition name_role (thread path name : string) : HostProg (option Role) :=
  let! is_rollout := if contains "rollout" name then rollout_matches_thread path name thread
                     else Ret false in
  if is_rollout : bool then Ret (Some RoleRollout)
  else
    let! is_thread_db := if starts_with "state_" name && ends_with ".sqlite" name
                         then thread_db_matches path thread else Ret false in
    if is_thread_db : bool then Ret (Some RoleThreadDb)
    else
      let! is_goals_db := if starts_with "goals_" name && ends_with ".sqlite" name
                          then goals_db_matches path else Ret false in
      Ret (if is_goals_db : bool then Some RoleGoalsDb else None).

Definition entry_verdict (thread entry : string) : HostProg (option (Role * CodexBoundFile)) :=
  some! path := ocall (OCanonical entry) in
  let! bound := bind_safe_file path in
  match bound, file_name path with
  | Some bound, Some name =>
      let! role := name_role thread path name in
      Ret (match role with Some role => Some (role, bound) | None => None end)
  | _, _ => Ret None
  end.

Definition of_role (role : Role) (s : OpenState) : list CodexBoundFile :=
  match role with
  | RoleRollout => op_rollouts s
  | RoleThreadDb => op_thread_dbs s
  | RoleGoalsDb => op_goals_dbs s
  end.

Definition record_verdict (s : OpenState) (v : option (Role * CodexBoundFile)) : OpenState :=
  match v with
  | Some (RoleRollout, b) => mkOpen (push_unique (op_rollouts s) b) (op_thread_dbs s) (op_goals_dbs s)
  | Some (RoleThreadDb, b) => mkOpen (op_rollouts s) (push_unique (op_thread_dbs s) b) (op_goals_dbs s)
  | Some (RoleGoalsDb, b) => mkOpen (op_rollouts s) (op_thread_dbs s) (push_unique (op_goals_dbs s) b)
  | None => s
  end.

Lemma classify_open_traces thread path name b s tr s' :
  traces (classify_open thread path name b s) tr s' →
  ∃ role, traces (name_role thread path name) tr role
    ∧ s' = record_verdict s (match role with Some role => Some (role, b) | None => None end).
Proof.
  unfold classify_open, name_role. setoid_rewrite traces_bind.
  intros (tr1 & tr2 & b1 & -> & H1 & Hk). destruct b1.
  { destruct Hk as [-> ->]. exists (Some RoleRollout). split; [|done]. by exists tr1, [], true. }
  apply traces_bind in Hk as (tr3 & tr4 & b2 & -> & H2 & Hk). destruct b2.
  { destruct Hk as [-> ->]. exists (Some RoleThreadDb). split; [|done].
    exists tr1, (tr3 ++ []), false. split; [done|]. split; [done|].
    apply traces_bind. by exists tr3, [], true. }
  apply traces_bind in Hk as (tr5 & tr6 & b3 & -> & H3 & [-> ->]).
  exists (if b3 then Some RoleGoalsDb else None). split; [|by destruct b3].
  exists tr1, (tr3 ++ tr5 ++ []), false. split; [done|]. split; [done|].
  apply traces_bind. exists tr3, (tr5 ++ []), false. split; [done|]. split; [done|].
  apply traces_bind. by exists tr5, [], b3.
Qed.

Lemma scan_entry_traces thread e s tr s' :
  traces (scan_entry thread e s) tr s' →
  ∃ v, traces (entry_verdict thread e) tr v ∧ s' = record_verdict s v.
Proof.
  unfold scan_entry, entry_verdict, prog_some. setoid_rewrite traces_bind.
  intros (tr1 & tr2 & [path|] & -> & H1 & Hk); [|destruct Hk as [-> ->]; exists None; split; [by exists tr1, [], None|done]].
  apply traces_bind in Hk as (tr3 & tr4 & bound & -> & H2 & Hk).
  assert (∃ v, traces (match bound, file_name path with
      | Some bound, Some name =>
          bind (name_role thread path name)
            (λ role, Ret (match role with Some role => Some (role, bound) | None => None end))
      | _, _ => Ret None end) tr4 v ∧ s' = record_verdict s v) as (v & Hv & ->).
  { destruct bound as [b|]; [|destruct Hk as [-> ->]; by exists None].
    destruct (file_name path) as [name|]; [|destruct Hk as [-> ->]; by exists None].
    apply classify_open_traces in Hk as (role & Hr & ->). eexists. split; [|done].
    apply traces_bind. exists tr4, [], role. by rewrite app_nil_r. }
  exists v. split; [|done]. exists tr1, (tr3 ++ tr4), (Some path). split; [done|]. split; [done|].
  apply traces_bind. by exists tr3, tr4, bound.
Qed.

(** The loop folds the verdicts of the entries it could list. *)
Lemma scan_entries_traces thread entries s tr s' :
  traces (scan_entries thread entries s) tr s' →
  ∃ vs, Forall2 (λ e v, ∃ tr1 tr2 tr3, tr = tr1 ++ tr2 ++ tr3 ∧ traces (entry_verdict thread e) tr2 v)
          (omap (λ e, e) entries) vs
    ∧ s' = foldl record_verdict s vs.
Proof.
  revert s tr. induction entries as [|[e|] entries IH]; intros s tr; cbn [scan_entries].
  - intros [-> ->]. exists []. split; [constructor|done].
  - intros (tr1 & tr2 & s1 & -> & (v & Hv & ->)%scan_entry_traces & (vs & Hvs & ->)%IH)%traces_bind.
    exists (v :: vs). split; [|done]. constructor; [by exists [], tr1, tr2|].
    eapply Forall2_impl; [exact Hvs|]. intros e' v' (ta & tb & tc & -> & Ht).
    exists (tr1 ++ ta), tb, tc. by rewrite <- app_assoc.
  - apply IH.
Qed.

Definition same_file (a b : CodexBoundFile) : Prop := device a = device b ∧ inode a = inode b.

Lemma push_unique_covers fs c f :
  (∃ g, g ∈ fs ∧ same_file g f) ∨ c = f → ∃ g, g ∈ push_unique fs c ∧ same_file g f.
Proof.
  unfold push_unique. destruct (existsb _ fs) eqn:E.
  - intros [?| ->]; [done|]. apply existsb_exists in E as (g & Hg & [Hd Hi]%andb_true_iff).
    apply list_elem_of_In in Hg. exists g. split; [done|]. split; by apply Z.eqb_eq.
  - intros [(g & Hg & Hs)| ->]; [exists g; set_solver|]. exists f. split; [set_solver|by split].
Qed.

Lemma push_unique_in fs c f : f ∈ push_unique fs c → f ∈ fs ∨ f = c.
Proof. unfold push_unique. destruct (existsb _ fs); set_solver. Qed.

Lemma of_role_record role s v :
  of_role role (record_verdict s v)
  = match v with
    | Some (role', b) => if decide (role = role') then push_unique (of_role role s) b else of_role role s
    | None => of_role role s
    end.
Proof. by destruct v as [[[] b]|], role. Qed.

Lemma verdicts_covered role vs s f :
  (∃ g, g ∈ of_role role s ∧ same_file g f) ∨ Some (role, f) ∈ vs →
  ∃ g, g ∈ of_role role (foldl record_verdict s vs) ∧ same_file g f.
Proof.
  revert s. induction vs as [|v vs IH]; intros s Hf; cbn; [by destruct Hf as [?|?%not_elem_of_nil]|].
  apply IH. rewrite elem_of_cons in Hf. rewrite of_role_record.
  destruct Hf as [Hg|[<-|Hin]]; [left|left|by right].
  - destruct v as [[role' b]|]; [|done]. destruct (decide _); [|done]. apply push_unique_covers. by left.
  - rewrite decide_True by done. apply push_unique_covers. by right.
Qed.

Lemma verdicts_only role vs s g :
  g ∈ of_role role (foldl record_verdict s vs) → g ∈ of_role role s ∨ Some (role, g) ∈ vs.
Proof.
  revert s. induction vs as [|v vs IH]; intros s; cbn; [by left|]. intros [Hg|Hg]%IH; [|set_solver].
  rewrite of_role_record in Hg. destruct v as [[role' b]|]; [|by left]. destruct (decide _) as [->|]; [|by left].
  apply push_unique_in in Hg as [?| ->]; set_solver.
Qed.

Lemma bind_safe_file_Some path tr b :
  traces (bind_safe_file path) tr (Some b) →
  ∃ m uid, existT (OCanonical path) (Some (canonical_path b)) ∈ tr
    ∧ existT (OStat (canonical_path b)) (Some m) ∈ tr ∧ existT OEuid uid ∈ tr
    ∧ hm_is_file m = true ∧ hm_uid m = uid ∧ Z.land (hm_mode m) 2 = 0
    ∧ device b = hm_dev m ∧ inode b = hm_ino m ∧ owner_uid b = uid.
Proof.
  unfold bind_safe_file.
  intros (tr1 & tr2 & c & -> & ->%traces_ocall & (tr3 & tr4 & m & -> & ->%traces_ocall & Hk)%traces_some)%traces_some.
  destruct (hm_is_file m) eqn:Ef; [|by destruct Hk]. cbn [negb] in Hk.
  apply traces_bind in Hk as (tr5 & tr6 & u & -> & ->%traces_ocall & [-> Hb]).
  destruct (Z.eqb_spec (hm_uid m) u) as [Hu|]; [|done].
  destruct (Z.eqb_spec (Z.land (hm_mode m) 2) 0); [|done]. cbn [andb] in Hb. injection Hb as ->.
  exists m, u. cbn [canonical_path device inode owner_uid].
  split; [set_solver|]. split; [set_solver|]. split; [set_solver|]. done.
Qed.

Lemma entry_verdict_bound thread e tr role b :
  traces (entry_verdict thread e) tr (Some (role, b)) →
  ∃ m uid, existT (OStat (canonical_path b)) (Some m) ∈ tr ∧ existT OEuid uid ∈ tr
    ∧ hm_is_file m = true ∧ hm_uid m = uid ∧ Z.land (hm_mode m) 2 = 0
    ∧ device b = hm_dev m ∧ inode b = hm_ino m ∧ owner_uid b = uid.
Proof.
  unfold entry_verdict. intros (tr1 & tr2 & path & -> & _ & Hk)%traces_some.
  apply traces_bind in Hk as (tr3 & tr4 & [b'|] & -> & Hb & Hk); [|by destruct Hk].
  destruct (file_name path) as [name|]; [|by destruct Hk].
  apply traces_bind in Hk as (tr5 & tr6 & [role'|] & -> & _ & [-> [= -> ->]]).
  apply bind_safe_file_Some in Hb as (m & uid & _ & H1 & H2 & Hm).
  exists m, uid. split; [set_solver|]. split; [set_solver|]. done.
Qed.

Lemma exact_state_Some s st :
  exact_state s = Some st →
  op_rollouts s = [rollout st] ∧ op_thread_dbs s = [thread_db st] ∧ op_goals_dbs s = [goals_db st].
Proof.
  unfold exact_state. destruct (op_rollouts s) as [|? []], (op_thread_dbs s) as [|? []],
    (op_goals_dbs s) as [|? []]; try done. by intros [= <-].
Qed.

Definition role_file (st : CodexStructuredStateReference) (role : Role) : CodexBoundFile :=
  match role with
  | RoleRollout => rollout st
  | RoleThreadDb => thread_db st
  | RoleGoalsDb => goals_db st
  end.

Lemma codex_open_reference_Some root herdr t tr r :
  traces (codex_open_reference root herdr t) tr (Some r) →
  ∃ thread st cwd cmdline entries s t1 t2 t3,
    let p := pid (target_process t) in
    r = codex_reference thread st cwd t ∧ tr = t1 ++ t2 ++ t3
    ∧ existT (ORead (proc_path root p "cmdline") (Some (MAX_CMDLINE_BYTES + 1))) (Some cmdline) ∈ t1
    ∧ resume_of_cmdline (take (Z.to_nat (MAX_CMDLINE_BYTES + 1)) cmdline) = Some thread
    ∧ (∀ s, herdr = Some s → s = thread)
    ∧ existT (OCanonical (proc_path root p "cwd")) (Some cwd) ∈ t3
    ∧ existT (ODir (proc_path root p "fd")) (Some entries) ∈ t1
    ∧ traces (scan_entries thread (take 4096 entries) (mkOpen [] [] [])) t2 s
    ∧ exact_state s = Some st.
Proof.
  unfold codex_open_reference, resume_thread_id, discover_exact_open_state.
  intros (t1 & t2 & thread & -> & Hres & Hr)%traces_some.
  apply traces_some in Hres as (t3 & t4 & cmdline & -> & ->%traces_ocall & [-> Hres]).
  destruct (match herdr with Some s => negb (String.eqb s thread) | None => false end) eqn:Eh;
    [by destruct Hr|].
  apply traces_some in Hr as (t5 & t6 & st & -> & Hst & Hr).
  apply traces_some in Hst as (t7 & t8 & entries & -> & ->%traces_ocall & Hst).
  apply traces_bind in Hst as (t9 & t10 & s & -> & Hs & [-> Hex]).
  apply traces_some in Hr as (t11 & t12 & cwd & -> & ->%traces_ocall & [-> [= ->]]).
  eexists thread, st, cwd, cmdline, entries, s, [_; _], t9, [_]. cbn zeta. split; [done|].
  split; [cbn; by rewrite <- app_assoc|]. split; [set_solver|]. split; [by symmetry|]. split.
  { intros x ->. by destruct (String.eqb_spec x thread). }
  split; [set_solver|]. split; [set_solver|]. done.
Qed.

(** The one file of each role, among the verdicts that were folded. *)
Lemma exact_state_verdicts vs st role :
  exact_state (foldl record_verdict (mkOpen [] [] []) vs) = Some st →
  Some (role, role_file st role) ∈ vs
  ∧ ∀ b, Some (role, b) ∈ vs → same_file (role_file st role) b.
Proof.
  intros (Hx1 & Hx2 & Hx3)%exact_state_Some.
  assert (of_role role (foldl record_verdict (mkOpen [] [] []) vs) = [role_file st role]) as Hrole
    by (by destruct role).
  split.
  - destruct (verdicts_only role vs (mkOpen [] [] []) (role_file st role)) as [Hno|?]; [| |done].
    + rewrite Hrole. set_solver.
    + destruct role; by apply not_elem_of_nil in Hno.
  - intros b Hb. destruct (verdicts_covered role vs (mkOpen [] [] []) b (or_intror Hb)) as (g & Hg & Hsame).
    rewrite Hrole in Hg. by apply list_elem_of_singleton in Hg as ->.
Qed.

(** A Codex session is attached on Linux only when it is the one the process was resumed
    with and its files are unambiguous.  The thread is the sole valid argument of a
    [resume] on the process's command line, and the Herdr session when one is given; among
    the first 4096 descriptors of the process the rollout, the thread database and the
    goals database are each the one file, by device and inode, that plays its part; each is
    a regular file of the user's that others cannot write; start time, directory and
    multiplexer session are the process's own.  Otherwise the watcher is left as it was. *)
Theorem codex_attachment_exact root herdr w tr w' :
  traces (attach_process_correlated_codex_session_at root herdr w) tr w' →
  w' = w
  ∨ ∃ thread st cwd cmdline entries vs,
      let p := pid (target_process (target w)) in
      w' = set_codex w (Some (codex_reference thread st cwd (target w)))
      ∧ existT (ORead (proc_path root p "cmdline") (Some (MAX_CMDLINE_BYTES + 1))) (Some cmdline) ∈ tr
      ∧ resume_of_cmdline (take (Z.to_nat (MAX_CMDLINE_BYTES + 1)) cmdline) = Some thread
      ∧ (∀ s, herdr = Some s → s = thread)
      ∧ existT (OCanonical (proc_path root p "cwd")) (Some cwd) ∈ tr
      ∧ existT (ODir (proc_path root p "fd")) (Some entries) ∈ tr
      ∧ Forall2 (λ e v, ∃ tr1 tr2 tr3, tr = tr1 ++ tr2 ++ tr3 ∧ traces (entry_verdict thread e) tr2 v)
          (omap (λ e, e) (take 4096 entries)) vs
      ∧ ∀ role, Some (role, role_file st role) ∈ vs
          ∧ (∀ b, Some (role, b) ∈ vs → same_file (role_file st role) b)
          ∧ ∃ m uid, existT (OStat (canonical_path (role_file st role))) (Some m) ∈ tr
              ∧ existT OEuid uid ∈ tr ∧ hm_is_file m = true ∧ hm_uid m = uid
              ∧ Z.land (hm_mode m) 2 = 0
              ∧ device (role_file st role) = hm_dev m ∧ inode (role_file st role) = hm_ino m.
Proof.
  unfold attach_process_correlated_codex_session_at, store_if, store_codex.
  intros (tra & trb & [r|] & -> & Hr & [-> ->])%traces_bind; [|by left].
  destruct (set_codex_session w r) as [w''|] eqn:Es; [|by left]. right.
  assert (w'' = set_codex w (Some r)) as ->.
  { unfold set_codex_session in Es. destruct (_ || _); [done|]. by injection Es as <-. }
  apply codex_open_reference_Some in Hr as
    (thread & st & cwd & cmdline & entries & s & t1 & t2 & t3 & -> & -> & H1 & Hres & Hh & H2 & H3 & Hs & Hex).
  apply scan_entries_traces in Hs as (vs & Hvs & ->).
  exists thread, st, cwd, cmdline, entries, vs. split; [done|]. split; [set_solver +H1|].
  split; [done|]. split; [done|]. split; [set_solver +H2|]. split; [set_solver +H3|]. split.
  { eapply Forall2_impl; [exact Hvs|]. intros e v (ta & tb & tc & -> & Hv).
    exists (t1 ++ ta), tb, (tc ++ t3). split; [|exact Hv]. by rewrite app_nil_r, <- !app_assoc. }
  intros role. destruct (exact_state_verdicts vs st role Hex) as [Hin Hall].
  split; [exact Hin|]. split; [exact Hall|]. apply list_elem_of_lookup in Hin as [i Hi].
  destruct (Forall2_lookup_r _ _ _ _ _ Hvs Hi) as (e & _ & ta & tb & tc & -> & Hv).
  apply entry_verdict_bound in Hv as (m & uid & Hm1 & Hm2 & Hm3 & Hm4 & Hm5 & Hm6 & Hm7 & _).
  exists m, uid. split; [set_solver +Hm1|]. split; [set_solver +Hm2|]. done.
Qed.
End CodexSafety.

(** ** An agent that holds its files open *)
Definition demo_fd_target (e : string) : string :=
  if String.eqb e "/proc/42/fd/3" then "/c/rollout-thr_1.jsonl"
  else if String.eqb e "/proc/42/fd/4" then "/c/state_1.sqlite"
  else if String.eqb e "/proc/42/fd/5" then "/c/goals_1.sqlite"
  else if String.eqb e "/proc/42/fd/6" then "/h/.claude/projects/p/t.jsonl"
  else if String.eqb e "/proc/42/cwd" then "/work"
  else e.

Definition demo_inode (path : string) : Z := Z.of_nat (String.length path).

Definition demo_agent (o : HostOp) (s : unit) : unit * HostAns o :=
  (s, match o return HostAns o with
      | OEnv name => if String.eqb name "HOME" then Some "/h" else None
      | OCanonical path => Some (demo_fd_target path)
      | OStat path | OLstat path | OOpenStat path =>
          Some (mkMeta true false 8 (demo_inode path) 1000 384)
      | OLink path => Some (demo_fd_target path)
      | ODir _ => Some [Some "/proc/42/fd/3"; None; Some "/proc/42/fd/4"; Some "/proc/42/fd/5";
                        Some "/proc/42/fd/6"; Some "/proc/42/fd/3"]
      | ORead path _ =>
          if ends_with "cmdline" path
          then Some (byte_list "codex" ++ [0] ++ byte_list "resume" ++ [0] ++ byte_list "thr_1" ++ [0])
          else Some [123; 10]
      | OUid | OEuid => 1000
      | ODatabase _ => true
      | OExists _ _ => Some true
      | OColumns _ _ => Some goal_columns
      | OLen _ => None
      | OReadAt _ _ _ => None
      | OInspect _ => None
      | OGoal _ _ => None
      end).

Definition demo_session_line : JsonParse := λ l,
  match l with 123 :: _ => Some (VObject [("sessionId", VString "sess-1")]) | _ => None end.

Definition demo_unattached : WatcherState :=
  watcher_new "w" (TProcess (process_identity_new 42 77)) Lifecycle.Registered 0 0.

Definition demo_claude_ref : ClaudeSessionReference :=
  mkClaudeRef "sess-1" "/h/.claude/projects/p/t.jsonl"
    "/h/.local/state/watchme/claude-stop-failure.jsonl" 77 "/work" None
    (Some (mkTranscriptBinding "/h/.claude/projects/p/t.jsonl" 8 29)).

Lemma claude_attachment_correlated_witness :
  let parse : JsonParse := demo_session_line in
  let run := converse demo_agent (attach_process_correlated_claude_session true demo_unattached) tt in
  run.2 = set_claude demo_unattached (Some demo_claude_ref)
  ∧ (run.2 = demo_unattached ∨ ∃ entries e q,
       existT (ODir "/proc/42/fd") (Some entries) ∈ run.1 ∧ Some e ∈ entries
       ∧ existT (OLink e) (Some q) ∈ run.1).
Proof.
  intros parse run. split; [vm_compute; reflexivity|].
  pose proof (converse_traces demo_agent (attach_process_correlated_claude_session true demo_unattached) tt) as Ht.
  change (converse _ _ _) with run in Ht.
  destruct (claude_attachment_correlated demo_unattached run.1 run.2 Ht)
    as [Hs|(r & b & m & opened & uid & es & e & q & _ & _ & _ & _ & _ & _ & Hd & He & Hl & _)];
    [by left|]. right. exists es, e, q. split; [exact Hd|]. split; [exact He|exact Hl].
Defined.

Definition demo_open_state : CodexStructuredStateReference :=
  mkStructuredRef (mkBoundFile "/c/rollout-thr_1.jsonl" 8 22 1000)
    (mkBoundFile "/c/state_1.sqlite" 8 17 1000) (mkBoundFile "/c/goals_1.sqlite" 8 17 1000).

Lemma codex_attachment_exact_witness :
  let parse : JsonParse := demo_session_line in
  let run := converse demo_agent (attach_process_correlated_codex_session_at "/proc" None demo_unattached) tt in
  run.2 = set_codex demo_unattached
            (Some (codex_reference "thr_1" demo_open_state "/work" (target demo_unattached)))
  ∧ (run.2 = demo_unattached ∨ ∃ thread cmdline,
       resume_of_cmdline (take (Z.to_nat (MAX_CMDLINE_BYTES + 1)) cmdline) = Some thread
       ∧ existT (ORead "/proc/42/cmdline" (Some (MAX_CMDLINE_BYTES + 1))) (Some cmdline) ∈ run.1).
Proof.
  intros parse run. split; [vm_compute; reflexivity|].
  pose proof (converse_traces demo_agent
    (attach_process_correlated_codex_session_at "/proc" None demo_unattached) tt) as Ht.
  change (converse _ _ _) with run in Ht.
  destruct (codex_attachment_exact "/proc" None demo_unattached run.1 run.2 Ht)
    as [Hs|(thread & st & cwd & cmdline & es & vs & _ & Hc & Hr & _)]; [by left|].
  right. exists thread, cmdline. split; [exact Hr|exact Hc].
Defined.
