(* ===== verification/Registration.v ===== *)
(** * Registration (src/src/registration_context.rs)

    How [watchme] run from an agent finds the process and the pane it will watch, and
    builds the watcher that is sent to the daemon. *)
From S2P Require Import Planner.
From S2P Require Import Prelude Json Text Utf8 Identity State Process Registry.
From S2P Require Import Effects Runtime Mux Actuator.
From S2P Require Import Services Linux Tmux Herdr HerdrNative.
From S2P Require Import Hooks Claude Codex Host CodexState Attach.
From stdpp Require Import pretty.
From Stdlib Require Import Ascii.

Local Open Scope Z_scope.

Definition error_code (e : WatchmeError) : string :=
  match e with
  | Planner.UnsupportedContext _ => "unsupported_context"
  | Planner.Configuration _ => "configuration"
  | Planner.TargetTerminated _ => "target_terminated"
  | Planner.RetryableIntegration _ => "retryable_integration"
  | Planner.PolicyDenied _ => "policy_denied"
  | Planner.HumanRequired _ => "human_required"
  | Planner.CapabilityUnavailable _ => "capability_unavailable"
  end.

Definition unsupported_context : WatchmeError :=
  Planner.UnsupportedContext
    "invoke WatchMe normally as !watchme from a supported coding-agent session; run `watchme doctor` for diagnostics".

(** ** Conversations with the host, tmux and Herdr *)
Inductive RegOp : Type := RHost (o : HostOp) | RTmux (o : TmuxOp) | RHerdr (o : HerdrOp) | RNow.
Definition RegAns (o : RegOp) : Type :=
  match o with
  | RHost o => HostAns o
  | RTmux o => TmuxAns o
  | RHerdr o => HerdrAns o
  | RNow => Z
  end.
Abbreviation RegProg := (Prog RegAns).
Definition rcall (o : RegOp) : RegProg (RegAns o) := call o.

Fixpoint on_host {A} (p : HostProg A) : RegProg A :=
  match p with Ret a => Ret a | Vis o k => @Vis RegOp RegAns A (RHost o) (λ x, on_host (k x)) end.
Fixpoint on_tmux {A} (p : TmuxProg A) : RegProg A :=
  match p with Ret a => Ret a | Vis o k => @Vis RegOp RegAns A (RTmux o) (λ x, on_tmux (k x)) end.
Fixpoint on_herdr {A} (p : HerdrProg A) : RegProg A :=
  match p with Ret a => Ret a | Vis o k => @Vis RegOp RegAns A (RHerdr o) (λ x, on_herdr (k x)) end.

Definition herdr_variables : list string :=
  ["HERDR_SOCKET_PATH"; "HERDR_WORKSPACE_ID"; "HERDR_TAB_ID"; "HERDR_PANE_ID"].

Definition normalize_tty (t : string) : string := default t (Services.strip_prefix "/dev/" t).

Section Registration.
Context `{Sha256Hex} `{JsonParse} `{HerdrJson} `{DebugId} (linux : bool) (env : HerdrEnv).

Definition var_set (name : string) : HostProg bool :=
  let! v := ocall (OEnv name) in Ret (bool_decide (is_Some v)).

Definition has_herdr_environment : HostProg bool := any_prog var_set herdr_variables.

(** Both attachments, in the order of the three registrations. *)
Definition attach_sessions (w : WatcherState) : RegProg WatcherState :=
  let! w := on_host (attach_process_correlated_claude_session linux w) in
  on_host (attach_process_correlated_codex_session linux w None).

Definition registered (id : string) (t : TargetIdentity) : RegProg WatcherState :=
  let! now := rcall RNow in
  attach_sessions (watcher_new id t Lifecycle.Registered 0 now).

Definition id_suffix (i : ProcessIdentity) : string := pretty (pid i) +:+ "-" +:+ pretty (start_time i).

Definition process_registration (r : ResolvedProcess) : RegProg WatcherState :=
  registered ("process-" +:+ id_suffix (rs_identity r)) (TProcess (rs_identity r)).

Definition herdr_context_from_environment : HostProg (result MuxError HerdrContext) :=
  let! socket := ocall (OEnv "HERDR_SOCKET_PATH") in
  let! workspace := ocall (OEnv "HERDR_WORKSPACE_ID") in
  let! tab := ocall (OEnv "HERDR_TAB_ID") in
  let! pane := ocall (OEnv "HERDR_PANE_ID") in
  Ret (context_from_values (λ name,
         if String.eqb name "HERDR_SOCKET_PATH" then socket
         else if String.eqb name "HERDR_WORKSPACE_ID" then workspace
         else if String.eqb name "HERDR_TAB_ID" then tab else pane)).

Definition tty_text (i : ProcessIdentity) : string := default "" (tty i).

Definition herdr_registration (r : ResolvedProcess) : RegProg (result MuxError WatcherState) :=
  let i := rs_identity r in
  try! context := on_host herdr_context_from_environment in
  try! hd := on_herdr (herdr_new env context (from_secs 2)) in
  try! pane := on_herdr (current_target_for_process env hd i) in
  if negb (bool_decide (mi_process pane = i))
     || negb (String.eqb (normalize_tty (mi_tty pane)) (normalize_tty (tty_text i)))
  then Ret (Err (MuxErr.IdentityChanged
              "agent ancestor and Herdr pane process/TTY identities do not match"))
  else
    let protocol := if contains "-protocol-16-" (mi_server_instance pane) then Native16 else BridgeV1 in
    let! w := registered ("herdr-" +:+ mi_pane_id pane +:+ "-" +:+ id_suffix i)
                (target_herdr (mi_server pane) (mi_server_instance pane) (mi_session_id pane)
                   (mi_window_id pane) (mi_pane_id pane) (mi_tty pane) i protocol) in
    Ret (Ok w).

Definition unsupported {A} (r : result MuxError A) : result WatchmeError A :=
  map_err (λ e, Planner.UnsupportedContext (mux_error_display e)) r.

(** [trim_start_matches('%')]. *)
Fixpoint trim_percent (s : string) : string :=
  match s with String "%" s => trim_percent s | _ => s end.

Definition tmux_registration (r : ResolvedProcess) : RegProg (result WatchmeError WatcherState) :=
  let i := rs_identity r in
  let! var := on_host (ocall (OEnv "TMUX")) in
  try! t := lift (unsupported (from_environment var (from_secs 2))) in
  let! pane := on_tmux (current_target t) in
  try! pane := lift (unsupported pane) in
  if negb (String.eqb (normalize_tty (tty_text i)) (normalize_tty (tty_text (mi_process pane))))
  then Ret (Err (Planner.UnsupportedContext
              "agent process and tmux pane TTY identities do not match"))
  else
    let! w := registered ("tmux-" +:+ trim_percent (mi_pane_id pane) +:+ "-" +:+ id_suffix i)
                (target_tmux (mi_server pane) (mi_server_instance pane) (mi_session_id pane)
                   (mi_window_id pane) (mi_pane_id pane) (mi_tty pane) i None) in
    Ret (Ok w).

Definition current_hints (current : ProcessRecord) : CandidateHints :=
  let group_evidence (v : option Z) := if bool_decide (is_Some (pr_tty current)) then v else None in
  mkHints (pr_tty current) (group_evidence (pr_process_group_id current))
    (group_evidence (pr_session_leader_id current)) (pr_uid current) None.

Definition resolve_current (insp : ProcessInspector) (names : list string) (current_pid : Z)
    : result WatchmeError ResolvedProcess :=
  let? current := map_err (λ _, unsupported_context) (inspect insp current_pid) in
  map_err (λ e, Planner.UnsupportedContext (process_error_display e))
    (resolve names insp current_pid (current_hints current)).

Definition detect_current (insp : ProcessInspector) (names : list string) (current_pid : Z)
    : RegProg (result WatchmeError WatcherState) :=
  try! r := lift (resolve_current insp names current_pid) in
  let! herdr := on_host has_herdr_environment in
  if herdr : bool then
    let! w := herdr_registration r in
    match w with
    | Ok w => Ret (Ok w)
    | Err (MuxErr.IncompatibleProtocol _) => let! w := process_registration r in Ret (Ok w)
    | Err e => Ret (unsupported (Err e))
    end
  else
    let! tmux := on_host (any_prog var_set ["TMUX"; "TMUX_PANE"]) in
    if tmux : bool then tmux_registration r
    else let! w := process_registration r in Ret (Ok w).
End Registration.

(** ** What is registered *)
Lemma traces_on_host {A} (p : HostProg A) tr r :
  traces (on_host p) tr r → ∃ tr0, traces p tr0 r.
Proof.
  revert tr. induction p as [a|o k IH]; intros tr; cbn; [intros [-> ->]; by exists []|].
  intros (x & tr' & -> & (tr0 & Ht)%IH). exists (existT o x :: tr0). eauto.
Qed.

(** An attachment writes its own session reference and nothing else. *)
Lemma attach_claude_frame `{JsonParse} linux w tr w' :
  traces (attach_process_correlated_claude_session linux w) tr w' → ∃ c, w' = set_claude w c.
Proof.
  assert (w = set_claude w (claude_session w)) as Hw by (by destruct w).
  unfold attach_process_correlated_claude_session.
  intros (tr1 & tr2 & [r|] & -> & _ & [_ ->])%traces_bind; [|eauto].
  unfold set_claude_session. destruct (_ || _); eauto.
Qed.

Lemma store_if_frame w c tr w' : traces (store_if w c) tr w' → ∃ c, w' = set_codex w c.
Proof.
  assert (w = set_codex w (codex_session w)) as Hw by (by destruct w).
  unfold store_if, store_codex. intros (tr1 & tr2 & [r|] & -> & _ & [_ ->])%traces_bind; [|eauto].
  unfold set_codex_session. destruct (_ || _); eauto.
Qed.

Lemma attach_codex_frame `{JsonParse} linux w h tr w' :
  traces (attach_process_correlated_codex_session linux w h) tr w' → ∃ c, w' = set_codex w c.
Proof.
  assert (w = set_codex w (codex_session w)) as Hw by (by destruct w).
  unfold attach_process_correlated_codex_session. destruct linux; [apply store_if_frame|].
  intros (tr1 & tr2 & vs & -> & _ & Hk)%traces_bind.
  destruct (match h with Some _ => _ | None => _ end); [by eapply store_if_frame|].
  destruct Hk as [_ ->]. eauto.
Qed.

Section Registered.
Context `{Sha256Hex} `{JsonParse} `{HerdrJson} `{DebugId} (linux : bool) (env : HerdrEnv).

(** A fresh watcher for the target, but for the two session references. *)
Definition fresh_for (w : WatcherState) (id : string) (t : TargetIdentity) : Prop :=
  ∃ now c x, w = set_codex (set_claude (watcher_new id t Lifecycle.Registered 0 now) c) x.

Lemma registered_fresh id t tr w : traces (registered linux id t) tr w → fresh_for w id t.
Proof.
  unfold registered, attach_sessions.
  intros (tr1 & tr2 & now & -> & _ & (tr3 & tr4 & w1 & -> & Hcl & Hco)%traces_bind)%traces_bind.
  apply traces_on_host in Hcl as [tr5 (c & ->)%attach_claude_frame].
  apply traces_on_host in Hco as [tr6 (x & ->)%attach_codex_frame]. by exists now, c, x.
Qed.

(** The target a registration chose: the resolved process, alone or in a pane. *)
Definition chosen_target (i : ProcessIdentity) (t : TargetIdentity) : Prop :=
  t = TProcess i
  ∨ (∃ p pr, mi_process p = i ∧ normalize_tty (mi_tty p) = normalize_tty (tty_text i)
       ∧ t = target_herdr (mi_server p) (mi_server_instance p) (mi_session_id p) (mi_window_id p)
               (mi_pane_id p) (mi_tty p) i pr)
  ∨ ∃ p, normalize_tty (tty_text i) = normalize_tty (tty_text (mi_process p))
       ∧ t = target_tmux (mi_server p) (mi_server_instance p) (mi_session_id p) (mi_window_id p)
               (mi_pane_id p) (mi_tty p) i None.

Lemma herdr_registration_target r tr w :
  traces (herdr_registration linux env r) tr (Ok w) →
  ∃ id t, fresh_for w id t ∧ chosen_target (rs_identity r) t.
Proof.
  unfold herdr_registration.
  intros [(? & ? & _)|(tr1 & tr2 & c & -> & _ & Hk)]%traces_try; [done|].
  apply traces_try in Hk as [(? & ? & _)|(tr3 & tr4 & hd & -> & _ & Hk)]; [done|].
  apply traces_try in Hk as [(? & ? & _)|(tr5 & tr6 & pane & -> & _ & Hk)]; [done|].
  case_bool_decide as Hp; [|by destruct Hk].
  destruct (String.eqb_spec (normalize_tty (mi_tty pane)) (normalize_tty (tty_text (rs_identity r))));
    [|by destruct Hk]. cbn [negb orb] in Hk.
  apply traces_bind in Hk as (tr7 & tr8 & w' & -> & Hw%registered_fresh & [-> [= <-]]).
  eexists _, _. split; [exact Hw|]. right. left. eexists pane, _. done.
Qed.

Lemma tmux_registration_target r tr w :
  traces (tmux_registration linux r) tr (Ok w) →
  ∃ id t, fresh_for w id t ∧ chosen_target (rs_identity r) t.
Proof.
  unfold tmux_registration. intros (tr1 & tr2 & var & -> & _ & Hk)%traces_bind.
  apply traces_try in Hk as [(? & ? & _)|(tr3 & tr4 & t & -> & _ & Hk)]; [done|].
  apply traces_bind in Hk as (tr5 & tr6 & found & -> & _ & Hk).
  apply traces_try in Hk as [(? & ? & _)|(tr7 & tr8 & pane & -> & _ & Hk)]; [done|].
  destruct (String.eqb_spec (normalize_tty (tty_text (rs_identity r))) (normalize_tty (tty_text (mi_process pane))));
    [|by destruct Hk]. cbn [negb] in Hk.
  apply traces_bind in Hk as (tr9 & tr10 & w' & -> & Hw%registered_fresh & [-> [= <-]]).
  eexists _, _. split; [exact Hw|]. right. right. by exists pane.
Qed.

Lemma process_registration_target r tr w :
  traces (process_registration linux r) tr w →
  ∃ id t, fresh_for w id t ∧ chosen_target (rs_identity r) t.
Proof. intros Hw%registered_fresh. eexists _, _. split; [exact Hw|]. by left. Qed.

Lemma detect_current_target insp names p tr w :
  traces (detect_current linux env insp names p) tr (Ok w) →
  ∃ r id t, resolve_current insp names p = Ok r ∧ fresh_for w id t ∧ chosen_target (rs_identity r) t.
Proof.
  unfold detect_current.
  intros [(? & ? & _)|(tr1 & tr2 & r & -> & [-> Hr] & Hk)]%traces_try; [done|].
  exists r. enough (∃ id t, fresh_for w id t ∧ chosen_target (rs_identity r) t) as (id & t & ?)
    by (exists id, t; by rewrite <- Hr).
  apply traces_bind in Hk as (tr3 & tr4 & herdr & -> & _ & Hk). destruct herdr.
  - apply traces_bind in Hk as (tr5 & tr6 & found & -> & Hf & Hk). destruct found as [w'|e].
    + destruct Hk as [-> [= ->]]. by eapply herdr_registration_target.
    + destruct e; try by destruct Hk.
      apply traces_bind in Hk as (tr7 & tr8 & w' & -> & Hw & [-> [= ->]]).
      by eapply process_registration_target.
  - apply traces_bind in Hk as (tr5 & tr6 & tmux & -> & _ & Hk). destruct tmux.
    + by eapply tmux_registration_target.
    + apply traces_bind in Hk as (tr7 & tr8 & w' & -> & Hw & [-> [= ->]]).
      by eapply process_registration_target.
Qed.
End Registered.

Lemma ancestry_from_grows insp n p found : found ≠ [] → ancestry_from insp n p found ≠ [].
Proof.
  revert p found. induction n as [|n IH]; intros p found Hf; cbn; [done|].
  destruct (inspect insp p) as [rec|]; [|done].
  assert (found ++ [rec] ≠ []) by (by destruct found).
  destruct (ancestry_cut _ _); [done|]. by apply IH.
Qed.

Lemma ancestry_from_head insp n p rec :
  inspect insp p = Ok rec → ancestry_from insp (S n) p [] ≠ [].
Proof.
  intros Hi. cbn [ancestry_from app]. rewrite Hi.
  destruct (ancestry_cut _ _); [done|]. by apply ancestry_from_grows.
Qed.

Lemma resolve_current_digest `{Sha256Hex} insp names p r :
  resolve_current insp names p = Ok r → is_Some (parent_digest (rs_identity r)).
Proof.
  unfold resolve_current. intros (current & Hc & Hr)%rbind_Ok. apply map_err_Ok in Hc, Hr.
  unfold resolve in Hr. apply rbind_Ok in Hr as (cs & _ & (sel & _ & Hr)%rbind_Ok).
  assert (ancestry insp p ≠ []) as Hne.
  { by apply (ancestry_from_head insp 63 p current). }
  destruct (ancestry insp p); [done|]. injection Hr as <-. cbn. by eexists.
Qed.

(** Registration binds a watcher to the process that was resolved and to nothing else:
    the target's process is the resolved identity, the watcher is new - registered, revision
    zero, no recovery, no observation - its pane, if it has one, is complete and refers to
    the same process, and it never needs revalidation before use. *)
Theorem registration_faithful `{Sha256Hex} `{JsonParse} `{HerdrJson} `{DebugId}
    linux env insp names p tr w :
  traces (detect_current linux env insp names p) tr (Ok w) →
  ∃ r, resolve_current insp names p = Ok r ∧ target_process (target w) = rs_identity r
    ∧ lifecycle w = Lifecycle.Registered ∧ revision w = 0 ∧ recovery w = None
    ∧ last_observation w = None ∧ needs_revalidation (target w) = false
    ∧ ∃ o, watcher_mux_identity w = Ok o ∧ ∀ i, o = Some i → mi_process i = rs_identity r.
Proof.
  intros (r & id & t & Hr & (now & c & x & ->) & Ht)%detect_current_target. exists r.
  destruct Ht as [->|[(pane & pr & Hp & Htty & ->)|(pane & Htty & ->)]].
  - repeat (split; [done|]). exists None. by split.
  - repeat (split; [done|]). unfold watcher_mux_identity. cbn. rewrite !String.eqb_refl. cbn.
    eexists. split; [done|]. by intros i [= <-].
  - repeat (split; [done|]). unfold watcher_mux_identity. cbn. rewrite !String.eqb_refl. cbn.
    eexists. split; [done|]. by intros i [= <-].
Qed.

(** C22: What the code does to a watcher registered in tmux: it can never act.  The resolved
    identity carries the digest of its ancestry, the driver compares it as a whole with the
    identity it reads from the process, which carries none, and so no conversation of
    [validate_identity] succeeds and no [send-keys] is ever issued for that target. *)
Theorem tmux_registration_never_validates `{Sha256Hex} `{JsonParse} `{DebugText} `{HerdrJson} `{DebugId}
    linux env insp names p tr w i t tr' :
  traces (detect_current linux env insp names p) tr (Ok w) →
  watcher_mux_identity w = Ok (Some i) → mi_provider i = "tmux" →
  ¬ traces (validate_identity t i) tr' (Ok tt)
  ∧ ∀ args r, traces (send t i args) tr' r → (∃ e, r = Err e) ∧ ∀ x, x ∈ tr' → ¬ is_input t x.
Proof.
  intros (r & id & tg & Hr%resolve_current_digest & (now & c & x & ->) & Ht)%detect_current_target Hi Hprov.
  assert (is_Some (parent_digest (mi_process i))) as Hd.
  { destruct Ht as [->|[(pane & pr & Hp & Htty & ->)|(pane & Htty & ->)]]; [done|..];
      unfold watcher_mux_identity in Hi; cbn in Hi; rewrite !String.eqb_refl in Hi; cbn in Hi;
      injection Hi as <-; done. }
  assert (∀ seg, ¬ attests t i seg) as Hno.
  { intros seg (out & fields & dead & q & rec & _ & _ & Hrec & _)%attests_spec.
    rewrite <- Hrec in Hd. by destruct Hd. }
  split; [apply Hno|]. intros args r' [(e & -> & Hin)|(seg1 & ? & ? & Ha & _)]%send_traces; [eauto|].
  by destruct (Hno seg1).
Qed.

(** ** A Claude process in a tmux pane *)
Definition demo_claude_process : ProcessRecord :=
  mkProcess 4242 1 99 (Some "/usr/bin/claude") None (Some 1000) (Some 4242) (Some 4242)
    (Some "dev:136:1").
Definition demo_shell : ProcessRecord :=
  mkProcess 500 4242 120 (Some "/usr/bin/watchme") None (Some 1000) (Some 4242) (Some 4242)
    (Some "dev:136:1").
Definition demo_inspector : ProcessInspector := {|
  inspect := λ p, if p =? 500 then Ok demo_shell
                  else if p =? 4242 then Ok demo_claude_process else Err (Process.Disappeared p);
  processes_on_tty := λ _, Ok []
|}.

Definition demo_terminal (o : RegOp) (s : unit) : unit * RegAns o :=
  (s, match o return RegAns o with
      | RHost o => match o return HostAns o with
                   | OEnv name => if String.eqb name "TMUX" then Some "/tmp/tmux-1000/default,7,0" else None
                   | OUid | OEuid => 1000
                   | ODatabase _ => false
                   | OCanonical _ | OLink _ => None
                   | OStat _ | OLstat _ | OOpenStat _ => None
                   | ODir _ => None
                   | ORead _ _ | OReadAt _ _ _ => None
                   | OLen _ => None
                   | OInspect _ => None
                   | OExists _ _ => None
                   | OColumns _ _ => None
                   | OGoal _ _ => None
                   end
      | RTmux o => match o return TmuxAns o with
                   | TInspect _ => Ok demo_claude_process
                   | o => snd (demo_world o tt)
                   end
      | RHerdr o => match o return HerdrAns o with
                    | HStat _ | HCanonicalize _ => Err "none"
                    | HInRuntime => false
                    | HBuildRuntime => Err "none"
                    | HNextId => None
                    | HRemaining => false
                    | HElapsed => 0
                    | HConnect _ | HWrite _ => Expired
                    | HEvidence _ => mkEvidence 0 0 (Err "none")
                    | HRead => Expired
                    | HInspect p => Err (Process.Disappeared p)
                    | HDevice _ => Err "none"
                    | HObserve _ => Err MuxErr.Timeout
                    end
      | RNow => 1000
      end).

Definition demo_detect : RegProg (result WatchmeError WatcherState) :=
  @detect_current (λ _, "digest") (λ _, None)
    (Build_HerdrJson (λ _, Err "") (λ _, Err "") (λ _, "")) (λ s, s) true (mkHerdrEnv 1000 7 1)
    demo_inspector [] 500.

Definition demo_registered : WatcherState :=
  watcher_new "tmux-4-4242-99"
    (target_tmux "/tmp/tmux-1000/default" "/tmp/tmux-1000/default" "$1" "@2" "%4" "/dev/pts/1"
       (set_parent_digest (record_identity demo_claude_process) (Some "digest")) None)
    Lifecycle.Registered 0 1000.

Lemma registration_faithful_witness :
  (converse demo_terminal demo_detect tt).2 = Ok demo_registered
  ∧ ∃ i, watcher_mux_identity demo_registered = Ok (Some i) ∧ pid (mi_process i) = 4242.
Proof.
  assert ((converse demo_terminal demo_detect tt).2 = Ok demo_registered) as E by (vm_compute; reflexivity).
  split; [exact E|]. pose proof (converse_traces demo_terminal demo_detect tt) as Ht. rewrite E in Ht.
  destruct (@registration_faithful _ _ _ _ _ _ _ _ _ _ _ Ht)
    as (r & _ & Hp & _ & _ & _ & _ & _ & o & Ho & Hi).
  injection Ho as <-. eexists. split; [reflexivity|]. rewrite (Hi _ eq_refl), <- Hp. reflexivity.
Defined.

Lemma tmux_registration_never_validates_witness :
  (converse demo_terminal demo_detect tt).2 = Ok demo_registered
  ∧ ∃ i, watcher_mux_identity demo_registered = Ok (Some i)
      ∧ ∀ tr', ¬ @traces TmuxOp TmuxAns _ (@validate_identity (λ _, "") demo_tmux i) tr' (Ok tt).
Proof.
  assert ((converse demo_terminal demo_detect tt).2 = Ok demo_registered) as E by (vm_compute; reflexivity).
  split; [exact E|]. pose proof (converse_traces demo_terminal demo_detect tt) as Ht. rewrite E in Ht.
  eexists. split; [reflexivity|]. intros tr'.
  apply (@tmux_registration_never_validates _ _ _ _ _ _ _ _ _ _ _ _ _ demo_tmux tr' Ht); reflexivity.
Defined.
