(* ===== verification/Config.v ===== *)
(** * Configuration (src/src/config.rs)

    Layers of TOML are merged, decoded with defaults and version-checked; for display the
    configuration is encoded, secret-like values are masked and the result is decoded
    again.  TOML text is parsed by the toml crate, a parameter; tables are association
    lists, whose order is never observed. *)
From S2P Require Import Prelude Text Planner Services.
From stdpp Require Import gmap strings.
From Stdlib Require Import Ascii.

Local Open Scope Z_scope.

Definition SUPPORTED_CONFIG_VERSION : Z := 1.
Definition REDACTED : string := "[redacted]".

(** [toml::Value]. *)
#[warnings="-register-all"]
Inductive TValue : Type :=
| TString (s : string)
| TInteger (z : Z)
| TFloat (text : string)
| TBoolean (b : bool)
| TDatetime (text : string)
| TArray (l : list TValue)
| TTable (fs : list (string * TValue)).

Section TValueInd.
Context (P : TValue → Prop).
Context (Hstring : ∀ s, P (TString s)) (Hinteger : ∀ z, P (TInteger z)) (Hfloat : ∀ t, P (TFloat t)).
Context (Hboolean : ∀ b, P (TBoolean b)) (Hdatetime : ∀ t, P (TDatetime t)).
Context (Harray : ∀ l, Forall P l → P (TArray l)).
Context (Htable : ∀ fs, Forall (λ kv, P kv.2) fs → P (TTable fs)).

Fixpoint TValue_ind' (v : TValue) : P v :=
  match v with
  | TString s => Hstring s
  | TInteger z => Hinteger z
  | TFloat t => Hfloat t
  | TBoolean b => Hboolean b
  | TDatetime t => Hdatetime t
  | TArray l =>
      Harray l ((fix go l : Forall P l :=
                   match l with
                   | [] => List.Forall_nil P
                   | v :: l => List.Forall_cons _ v l (TValue_ind' v) (go l)
                   end) l)
  | TTable fs =>
      Htable fs ((fix go fs : Forall (λ kv, P kv.2) fs :=
                    match fs with
                    | [] => List.Forall_nil _
                    | (k, v) :: fs => List.Forall_cons _ (k, v) fs (TValue_ind' v) (go fs)
                    end) fs)
  end.
End TValueInd.

Definition Table : Type := list (string * TValue).

Fixpoint entry (k : string) (fs : Table) : option TValue :=
  match fs with
  | [] => None
  | (k', v) :: fs => if String.eqb k k' then Some v else entry k fs
  end.

Fixpoint set_entry (k : string) (v : TValue) (fs : Table) : Table :=
  match fs with
  | [] => [(k, v)]
  | (k', v') :: fs => if String.eqb k k' then (k, v) :: fs else (k', v') :: set_entry k v fs
  end.

(** ** Merging *)
Fixpoint merge (base overlay : TValue) {struct overlay} : TValue :=
  match base, overlay with
  | TTable b, TTable o =>
      TTable ((fix go (b o : Table) : Table :=
                 match o with
                 | [] => b
                 | (key, value) :: o =>
                     go (match entry key b with
                         | Some existing => set_entry key (merge existing value) b
                         | None => set_entry key value b
                         end) o
                 end) b o)
  | _, _ => overlay
  end.

(** ** The records *)
Record DaemonConfig : Type := mkDaemonConfig {
  idle_grace_seconds : Z;
  stay_resident : bool;
  max_watchers : Z;
  socket_request_timeout_seconds : Z;
}.

Record ObservationConfig : Type := mkObservationConfig {
  poll_interval_seconds : Z;
  poll_jitter_seconds : Z;
  screen_confirm_samples : Z;
  max_screen_lines : Z;
  max_screen_bytes : Z;
  max_structured_record_bytes : Z;
  max_json_depth : Z;
  adapter_error_backoff_seconds : list Z;
}.

Record LifecycleConfig : Type := mkLifecycleConfig {
  reexec_grace_seconds : Z;
  relaunch_dead_agent : bool;
  stop_on_ambiguous_identity : bool;
}.

Record RecoveryRateLimitsConfig : Type := mkRateLimits {
  rl_enabled : bool;
  select_wait_option_by_label : bool;
  reset_margin_seconds : Z;
  allow_low_confidence_fallback_wait : bool;
  fallback_wait_seconds : Z;
  max_resume_attempts_per_limit : Z;
  resume_text : string;
}.

Record RecoveryOverloadConfig : Type := mkOverload {
  ov_enabled : bool;
  backoff_seconds : list Z;
  jitter_mode : string;
  max_total_wait_seconds : Z;
  respect_native_retries : bool;
}.

Record RecoveryCodexGoalConfig : Type := mkCodexGoal {
  cg_enabled : bool;
  resume_command : string;
  cg_max_attempts_per_fingerprint : Z;
  cooldown_seconds : Z;
  require_structured_goal_when_available : bool;
}.

Record RecoveryConfig : Type := mkRecoveryConfig {
  rc_enabled : bool;
  max_attempts_per_fingerprint : Z;
  max_attempts_per_session_per_day : Z;
  default_action_timeout_seconds : Z;
  require_empty_composer_for_text : bool;
  cancel_on_human_intervention : bool;
  verify_every_action : bool;
  rate_limits : RecoveryRateLimitsConfig;
  overload : RecoveryOverloadConfig;
  codex_goal : RecoveryCodexGoalConfig;
}.

Record SecurityConfig : Type := mkSecurity {
  telemetry : bool;
  raw_evidence_persistence : bool;
  allow_remote_manifest_updates : bool;
  allow_project_config : bool;
  require_owner_only_paths : bool;
  reject_symlinks_for_state : bool;
  minimal_child_environment : bool;
  extra_secret_names : list string;
}.

Record RetentionConfig : Type := mkRetention {
  events_days : Z;
  audit_days : Z;
  snapshots_days : Z;
  max_log_bytes : Z;
  max_snapshot_files : Z;
}.

Record ManifestsConfig : Type := mkManifests {
  mn_bundled : bool;
  local_directory : string;
  remote_updates : bool;
  strict_unknown_versions : bool;
}.

Record AgentConfig : Type := mkAgentConfig {
  ag_enabled : bool;
  deterministic_recovery : bool;
  ai_planning : bool;
}.

Record Config : Type := mkConfig {
  config_version : Z;
  daemon : DaemonConfig;
  observation : ObservationConfig;
  lifecycle : LifecycleConfig;
  recovery : RecoveryConfig;
  planning : PlanningConfig;
  security : SecurityConfig;
  retention : RetentionConfig;
  notifications : NotificationsConfig;
  manifests : ManifestsConfig;
  agents : gmap string AgentConfig;
}.

(** ** Defaults *)
Definition daemon_default : DaemonConfig := mkDaemonConfig 30 false 128 5.
Definition observation_default : ObservationConfig :=
  mkObservationConfig 60 5 2 120 30000 262144 64 [5; 15; 60; 300].
Definition lifecycle_default : LifecycleConfig := mkLifecycleConfig 3 false true.
Definition rate_limits_default : RecoveryRateLimitsConfig :=
  mkRateLimits true true 75 false 18000 2 "Continue exactly where you left off.".
Definition overload_default : RecoveryOverloadConfig :=
  mkOverload true [30; 60; 120; 240; 300] "full" 7200 true.
Definition codex_goal_default : RecoveryCodexGoalConfig := mkCodexGoal true "/goal resume" 3 300 true.
Definition recovery_default : RecoveryConfig :=
  mkRecoveryConfig true 3 8 120 true true true rate_limits_default overload_default codex_goal_default.
Definition planner_default : PlannerConfig := mkPlannerConfig false "" "unknown" "" "".

Definition planner_entry (enabled : bool) (executable family : string) : PlannerConfig :=
  mkPlannerConfig enabled executable family "" "".
Definition default_planners : gmap string PlannerConfig :=
  list_to_map [("codex", planner_entry true "codex" "openai");
               ("claude", planner_entry true "claude" "anthropic");
               ("hermes", planner_entry true "hermes" "unknown");
               ("opencode", planner_entry true "opencode" "unknown");
               ("pi", planner_entry false "pi" "unknown");
               ("kimi", planner_entry false "kimi" "moonshot");
               ("openhands", planner_entry false "openhands" "unknown");
               ("grok", planner_entry false "grok-build" "xai")].
Definition planning_default : PlanningConfig :=
  mkPlanning true 1 false 4 1 90 100000 50000 false false false
    ["codex"; "claude"; "hermes"; "opencode"; "pi"] default_planners.
Definition security_default : SecurityConfig := mkSecurity false false false false true true true [].
Definition retention_default : RetentionConfig := mkRetention 14 30 3 10485760 100.
Definition notifications_default : NotificationsConfig := mkNotifications true true true true true false.
Definition manifests_default : ManifestsConfig := mkManifests true "~/.config/watchme/manifests" false true.
Definition agent_default : AgentConfig := mkAgentConfig true false true.
Definition default_agents : gmap string AgentConfig :=
  list_to_map [("claude", mkAgentConfig true true true); ("codex", mkAgentConfig true true true);
               ("opencode", mkAgentConfig true false true); ("pi", mkAgentConfig true false true);
               ("hermes", mkAgentConfig true false true); ("kimi", mkAgentConfig true false false);
               ("grok", mkAgentConfig true false false); ("openhands", mkAgentConfig true false false)].
Definition config_default : Config :=
  mkConfig SUPPORTED_CONFIG_VERSION daemon_default observation_default lifecycle_default
    recovery_default planning_default security_default retention_default notifications_default
    manifests_default default_agents.

(** ** Decoding: [#[serde(default, deny_unknown_fields)]] on every record *)
Abbreviation Decoded := (result string).

Definition type_error {A} : Decoded A := Err "invalid type".

Definition dec_bool (v : TValue) : Decoded bool :=
  match v with TBoolean b => Ok b | _ => type_error end.
Definition dec_uint (max : Z) (v : TValue) : Decoded Z :=
  match v with
  | TInteger z => if (0 <=? z) && (z <=? max) then Ok z else Err "integer out of range"
  | _ => type_error
  end.
Definition dec_string (v : TValue) : Decoded string :=
  match v with TString s => Ok s | _ => type_error end.

Fixpoint all_ok {A B} (dec : A → Decoded B) (l : list A) : Decoded (list B) :=
  match l with
  | [] => Ok []
  | x :: l => let? y := dec x in let? ys := all_ok dec l in Ok (y :: ys)
  end.

Definition dec_list {A} (dec : TValue → Decoded A) (v : TValue) : Decoded (list A) :=
  match v with TArray l => all_ok dec l | _ => type_error end.
(** The keys of a table are distinct. *)
Definition dec_map {A} (dec : TValue → Decoded A) (v : TValue) : Decoded (gmap string A) :=
  match v with
  | TTable fs => let? l := all_ok (λ kv, let? a := dec kv.2 in Ok (kv.1, a)) fs in Ok (list_to_map l)
  | _ => type_error
  end.

(** The fields of a record, once no key is unknown. *)
Definition known_fields (names : list string) (v : TValue) : Decoded Table :=
  match v with
  | TTable fs => if forallb (λ kv, one_of names kv.1) fs then Ok fs else Err "unknown field"
  | _ => type_error
  end.
Definition dfield {A} (k : string) (dec : TValue → Decoded A) (default : A) (fs : Table) : Decoded A :=
  match entry k fs with Some v => dec v | None => Ok default end.

Definition dec_daemon (v : TValue) : Decoded DaemonConfig :=
  let d := daemon_default in
  let? fs := known_fields ["idle_grace_seconds"; "stay_resident"; "max_watchers";
                           "socket_request_timeout_seconds"] v in
  let? a := dfield "idle_grace_seconds" (dec_uint u64_max) (idle_grace_seconds d) fs in
  let? b := dfield "stay_resident" dec_bool (stay_resident d) fs in
  let? c := dfield "max_watchers" (dec_uint u32_max) (max_watchers d) fs in
  let? e := dfield "socket_request_timeout_seconds" (dec_uint u64_max)
              (socket_request_timeout_seconds d) fs in
  Ok (mkDaemonConfig a b c e).

Definition dec_observation (v : TValue) : Decoded ObservationConfig :=
  let d := observation_default in
  let? fs := known_fields ["poll_interval_seconds"; "poll_jitter_seconds"; "screen_confirm_samples";
                           "max_screen_lines"; "max_screen_bytes"; "max_structured_record_bytes";
                           "max_json_depth"; "adapter_error_backoff_seconds"] v in
  let? a := dfield "poll_interval_seconds" (dec_uint u64_max) (poll_interval_seconds d) fs in
  let? b := dfield "poll_jitter_seconds" (dec_uint u64_max) (poll_jitter_seconds d) fs in
  let? c := dfield "screen_confirm_samples" (dec_uint u32_max) (screen_confirm_samples d) fs in
  let? e := dfield "max_screen_lines" (dec_uint u32_max) (max_screen_lines d) fs in
  let? f := dfield "max_screen_bytes" (dec_uint u32_max) (max_screen_bytes d) fs in
  let? g := dfield "max_structured_record_bytes" (dec_uint u32_max) (max_structured_record_bytes d) fs in
  let? h := dfield "max_json_depth" (dec_uint u32_max) (max_json_depth d) fs in
  let? i := dfield "adapter_error_backoff_seconds" (dec_list (dec_uint u64_max))
              (adapter_error_backoff_seconds d) fs in
  Ok (mkObservationConfig a b c e f g h i).

Definition dec_lifecycle (v : TValue) : Decoded LifecycleConfig :=
  let d := lifecycle_default in
  let? fs := known_fields ["reexec_grace_seconds"; "relaunch_dead_agent"; "stop_on_ambiguous_identity"] v in
  let? a := dfield "reexec_grace_seconds" (dec_uint u64_max) (reexec_grace_seconds d) fs in
  let? b := dfield "relaunch_dead_agent" dec_bool (relaunch_dead_agent d) fs in
  let? c := dfield "stop_on_ambiguous_identity" dec_bool (stop_on_ambiguous_identity d) fs in
  Ok (mkLifecycleConfig a b c).

Definition dec_rate_limits (v : TValue) : Decoded RecoveryRateLimitsConfig :=
  let d := rate_limits_default in
  let? fs := known_fields ["enabled"; "select_wait_option_by_label"; "reset_margin_seconds";
                           "allow_low_confidence_fallback_wait"; "fallback_wait_seconds";
                           "max_resume_attempts_per_limit"; "resume_text"] v in
  let? a := dfield "enabled" dec_bool (rl_enabled d) fs in
  let? b := dfield "select_wait_option_by_label" dec_bool (select_wait_option_by_label d) fs in
  let? c := dfield "reset_margin_seconds" (dec_uint u64_max) (reset_margin_seconds d) fs in
  let? e := dfield "allow_low_confidence_fallback_wait" dec_bool (allow_low_confidence_fallback_wait d) fs in
  let? f := dfield "fallback_wait_seconds" (dec_uint u64_max) (fallback_wait_seconds d) fs in
  let? g := dfield "max_resume_attempts_per_limit" (dec_uint u32_max) (max_resume_attempts_per_limit d) fs in
  let? h := dfield "resume_text" dec_string (resume_text d) fs in
  Ok (mkRateLimits a b c e f g h).

Definition dec_overload (v : TValue) : Decoded RecoveryOverloadConfig :=
  let d := overload_default in
  let? fs := known_fields ["enabled"; "backoff_seconds"; "jitter_mode"; "max_total_wait_seconds";
                           "respect_native_retries"] v in
  let? a := dfield "enabled" dec_bool (ov_enabled d) fs in
  let? b := dfield "backoff_seconds" (dec_list (dec_uint u64_max)) (backoff_seconds d) fs in
  let? c := dfield "jitter_mode" dec_string (jitter_mode d) fs in
  let? e := dfield "max_total_wait_seconds" (dec_uint u64_max) (max_total_wait_seconds d) fs in
  let? f := dfield "respect_native_retries" dec_bool (respect_native_retries d) fs in
  Ok (mkOverload a b c e f).

Definition dec_codex_goal (v : TValue) : Decoded RecoveryCodexGoalConfig :=
  let d := codex_goal_default in
  let? fs := known_fields ["enabled"; "resume_command"; "max_attempts_per_fingerprint";
                           "cooldown_seconds"; "require_structured_goal_when_available"] v in
  let? a := dfield "enabled" dec_bool (cg_enabled d) fs in
  let? b := dfield "resume_command" dec_string (resume_command d) fs in
  let? c := dfield "max_attempts_per_fingerprint" (dec_uint u32_max) (cg_max_attempts_per_fingerprint d) fs in
  let? e := dfield "cooldown_seconds" (dec_uint u64_max) (cooldown_seconds d) fs in
  let? f := dfield "require_structured_goal_when_available" dec_bool
              (require_structured_goal_when_available d) fs in
  Ok (mkCodexGoal a b c e f).

Definition dec_recovery (v : TValue) : Decoded RecoveryConfig :=
  let d := recovery_default in
  let? fs := known_fields ["enabled"; "max_attempts_per_fingerprint"; "max_attempts_per_session_per_day";
                           "default_action_timeout_seconds"; "require_empty_composer_for_text";
                           "cancel_on_human_intervention"; "verify_every_action"; "rate_limits";
                           "overload"; "codex_goal"] v in
  let? a := dfield "enabled" dec_bool (rc_enabled d) fs in
  let? b := dfield "max_attempts_per_fingerprint" (dec_uint u32_max) (max_attempts_per_fingerprint d) fs in
  let? c := dfield "max_attempts_per_session_per_day" (dec_uint u32_max)
              (max_attempts_per_session_per_day d) fs in
  let? e := dfield "default_action_timeout_seconds" (dec_uint u64_max) (default_action_timeout_seconds d) fs in
  let? f := dfield "require_empty_composer_for_text" dec_bool (require_empty_composer_for_text d) fs in
  let? g := dfield "cancel_on_human_intervention" dec_bool (cancel_on_human_intervention d) fs in
  let? h := dfield "verify_every_action" dec_bool (verify_every_action d) fs in
  let? i := dfield "rate_limits" dec_rate_limits (rate_limits d) fs in
  let? j := dfield "overload" dec_overload (overload d) fs in
  let? k := dfield "codex_goal" dec_codex_goal (codex_goal d) fs in
  Ok (mkRecoveryConfig a b c e f g h i j k).

Definition dec_planner (v : TValue) : Decoded PlannerConfig :=
  let d := planner_default in
  let? fs := known_fields ["enabled"; "executable"; "provider_family"; "provider"; "model"] v in
  let? a := dfield "enabled" dec_bool (pc_enabled d) fs in
  let? b := dfield "executable" dec_string (pc_executable d) fs in
  let? c := dfield "provider_family" dec_string (pc_provider_family d) fs in
  let? e := dfield "provider" dec_string (pc_provider d) fs in
  let? f := dfield "model" dec_string (pc_model d) fs in
  Ok (mkPlannerConfig a b c e f).

Definition dec_planning (v : TValue) : Decoded PlanningConfig :=
  let d := planning_default in
  let? fs := known_fields ["enabled"; "max_calls_per_event"; "allow_independent_second_opinion";
                           "max_calls_per_session_per_day"; "max_concurrent_calls"; "timeout_seconds";
                           "max_output_bytes"; "max_snapshot_bytes"; "allow_unknown_provider_family";
                           "allow_repository_context"; "allow_network"; "planner_priority"; "planners"] v in
  let? a := dfield "enabled" dec_bool (enabled d) fs in
  let? b := dfield "max_calls_per_event" (dec_uint u32_max) (max_calls_per_event d) fs in
  let? c := dfield "allow_independent_second_opinion" dec_bool (allow_independent_second_opinion d) fs in
  let? e := dfield "max_calls_per_session_per_day" (dec_uint u32_max) (max_calls_per_session_per_day d) fs in
  let? f := dfield "max_concurrent_calls" (dec_uint u32_max) (max_concurrent_calls d) fs in
  let? g := dfield "timeout_seconds" (dec_uint u64_max) (planning_timeout_seconds d) fs in
  let? h := dfield "max_output_bytes" (dec_uint u32_max) (max_output_bytes d) fs in
  let? i := dfield "max_snapshot_bytes" (dec_uint u32_max) (max_snapshot_bytes d) fs in
  let? j := dfield "allow_unknown_provider_family" dec_bool (allow_unknown_provider_family d) fs in
  let? k := dfield "allow_repository_context" dec_bool (allow_repository_context d) fs in
  let? l := dfield "allow_network" dec_bool (allow_network d) fs in
  let? m := dfield "planner_priority" (dec_list dec_string) (planner_priority d) fs in
  let? n := dfield "planners" (dec_map dec_planner) (planners d) fs in
  Ok (mkPlanning a b c e f g h i j k l m n).

Definition dec_security (v : TValue) : Decoded SecurityConfig :=
  let d := security_default in
  let? fs := known_fields ["telemetry"; "raw_evidence_persistence"; "allow_remote_manifest_updates";
                           "allow_project_config"; "require_owner_only_paths"; "reject_symlinks_for_state";
                           "minimal_child_environment"; "extra_secret_names"] v in
  let? a := dfield "telemetry" dec_bool (telemetry d) fs in
  let? b := dfield "raw_evidence_persistence" dec_bool (raw_evidence_persistence d) fs in
  let? c := dfield "allow_remote_manifest_updates" dec_bool (allow_remote_manifest_updates d) fs in
  let? e := dfield "allow_project_config" dec_bool (allow_project_config d) fs in
  let? f := dfield "require_owner_only_paths" dec_bool (require_owner_only_paths d) fs in
  let? g := dfield "reject_symlinks_for_state" dec_bool (reject_symlinks_for_state d) fs in
  let? h := dfield "minimal_child_environment" dec_bool (minimal_child_environment d) fs in
  let? i := dfield "extra_secret_names" (dec_list dec_string) (extra_secret_names d) fs in
  Ok (mkSecurity a b c e f g h i).

Definition dec_retention (v : TValue) : Decoded RetentionConfig :=
  let d := retention_default in
  let? fs := known_fields ["events_days"; "audit_days"; "snapshots_days"; "max_log_bytes";
                           "max_snapshot_files"] v in
  let? a := dfield "events_days" (dec_uint u32_max) (events_days d) fs in
  let? b := dfield "audit_days" (dec_uint u32_max) (audit_days d) fs in
  let? c := dfield "snapshots_days" (dec_uint u32_max) (snapshots_days d) fs in
  let? e := dfield "max_log_bytes" (dec_uint u64_max) (max_log_bytes d) fs in
  let? f := dfield "max_snapshot_files" (dec_uint u32_max) (max_snapshot_files d) fs in
  Ok (mkRetention a b c e f).

Definition dec_notifications (v : TValue) : Decoded NotificationsConfig :=
  let d := notifications_default in
  let? fs := known_fields ["herdr"; "desktop"; "stderr"; "notify_on_recovery"; "notify_on_human_required";
                           "notify_on_target_exit"] v in
  let? a := dfield "herdr" dec_bool (cfg_herdr d) fs in
  let? b := dfield "desktop" dec_bool (cfg_desktop d) fs in
  let? c := dfield "stderr" dec_bool (cfg_stderr d) fs in
  let? e := dfield "notify_on_recovery" dec_bool (notify_on_recovery d) fs in
  let? f := dfield "notify_on_human_required" dec_bool (notify_on_human_required d) fs in
  let? g := dfield "notify_on_target_exit" dec_bool (notify_on_target_exit d) fs in
  Ok (mkNotifications a b c e f g).

Definition dec_manifests (v : TValue) : Decoded ManifestsConfig :=
  let d := manifests_default in
  let? fs := known_fields ["bundled"; "local_directory"; "remote_updates"; "strict_unknown_versions"] v in
  let? a := dfield "bundled" dec_bool (mn_bundled d) fs in
  let? b := dfield "local_directory" dec_string (local_directory d) fs in
  let? c := dfield "remote_updates" dec_bool (remote_updates d) fs in
  let? e := dfield "strict_unknown_versions" dec_bool (strict_unknown_versions d) fs in
  Ok (mkManifests a b c e).

Definition dec_agent (v : TValue) : Decoded AgentConfig :=
  let d := agent_default in
  let? fs := known_fields ["enabled"; "deterministic_recovery"; "ai_planning"] v in
  let? a := dfield "enabled" dec_bool (ag_enabled d) fs in
  let? b := dfield "deterministic_recovery" dec_bool (deterministic_recovery d) fs in
  let? c := dfield "ai_planning" dec_bool (ai_planning d) fs in
  Ok (mkAgentConfig a b c).

Definition dec_config (v : TValue) : Decoded Config :=
  let d := config_default in
  let? fs := known_fields ["config_version"; "daemon"; "observation"; "lifecycle"; "recovery"; "planning";
                           "security"; "retention"; "notifications"; "manifests"; "agents"] v in
  let? a := dfield "config_version" (dec_uint u32_max) (config_version d) fs in
  let? b := dfield "daemon" dec_daemon (daemon d) fs in
  let? c := dfield "observation" dec_observation (observation d) fs in
  let? e := dfield "lifecycle" dec_lifecycle (lifecycle d) fs in
  let? f := dfield "recovery" dec_recovery (recovery d) fs in
  let? g := dfield "planning" dec_planning (planning d) fs in
  let? h := dfield "security" dec_security (security d) fs in
  let? i := dfield "retention" dec_retention (retention d) fs in
  let? j := dfield "notifications" dec_notifications (notifications d) fs in
  let? k := dfield "manifests" dec_manifests (manifests d) fs in
  let? l := dfield "agents" (dec_map dec_agent) (agents d) fs in
  Ok (mkConfig a b c e f g h i j k l).

(** ** Encoding: [toml::Value::try_from] *)
Definition enc_list {A} (enc : A → TValue) (l : list A) : TValue := TArray (enc <$> l).
Definition enc_map {A} (enc : A → TValue) (m : gmap string A) : TValue :=
  TTable ((λ kv, (kv.1, enc kv.2)) <$> map_to_list m).

Definition enc_daemon (c : DaemonConfig) : TValue :=
  TTable [("idle_grace_seconds", TInteger (idle_grace_seconds c));
          ("stay_resident", TBoolean (stay_resident c));
          ("max_watchers", TInteger (max_watchers c));
          ("socket_request_timeout_seconds", TInteger (socket_request_timeout_seconds c))].
Definition enc_observation (c : ObservationConfig) : TValue :=
  TTable [("poll_interval_seconds", TInteger (poll_interval_seconds c));
          ("poll_jitter_seconds", TInteger (poll_jitter_seconds c));
          ("screen_confirm_samples", TInteger (screen_confirm_samples c));
          ("max_screen_lines", TInteger (max_screen_lines c));
          ("max_screen_bytes", TInteger (max_screen_bytes c));
          ("max_structured_record_bytes", TInteger (max_structured_record_bytes c));
          ("max_json_depth", TInteger (max_json_depth c));
          ("adapter_error_backoff_seconds", enc_list TInteger (adapter_error_backoff_seconds c))].
Definition enc_lifecycle (c : LifecycleConfig) : TValue :=
  TTable [("reexec_grace_seconds", TInteger (reexec_grace_seconds c));
          ("relaunch_dead_agent", TBoolean (relaunch_dead_agent c));
          ("stop_on_ambiguous_identity", TBoolean (stop_on_ambiguous_identity c))].
Definition enc_rate_limits (c : RecoveryRateLimitsConfig) : TValue :=
  TTable [("enabled", TBoolean (rl_enabled c));
          ("select_wait_option_by_label", TBoolean (select_wait_option_by_label c));
          ("reset_margin_seconds", TInteger (reset_margin_seconds c));
          ("allow_low_confidence_fallback_wait", TBoolean (allow_low_confidence_fallback_wait c));
          ("fallback_wait_seconds", TInteger (fallback_wait_seconds c));
          ("max_resume_attempts_per_limit", TInteger (max_resume_attempts_per_limit c));
          ("resume_text", TString (resume_text c))].
Definition enc_overload (c : RecoveryOverloadConfig) : TValue :=
  TTable [("enabled", TBoolean (ov_enabled c));
          ("backoff_seconds", enc_list TInteger (backoff_seconds c));
          ("jitter_mode", TString (jitter_mode c));
          ("max_total_wait_seconds", TInteger (max_total_wait_seconds c));
          ("respect_native_retries", TBoolean (respect_native_retries c))].
Definition enc_codex_goal (c : RecoveryCodexGoalConfig) : TValue :=
  TTable [("enabled", TBoolean (cg_enabled c));
          ("resume_command", TString (resume_command c));
          ("max_attempts_per_fingerprint", TInteger (cg_max_attempts_per_fingerprint c));
          ("cooldown_seconds", TInteger (cooldown_seconds c));
          ("require_structured_goal_when_available", TBoolean (require_structured_goal_when_available c))].
Definition enc_recovery (c : RecoveryConfig) : TValue :=
  TTable [("enabled", TBoolean (rc_enabled c));
          ("max_attempts_per_fingerprint", TInteger (max_attempts_per_fingerprint c));
          ("max_attempts_per_session_per_day", TInteger (max_attempts_per_session_per_day c));
          ("default_action_timeout_seconds", TInteger (default_action_timeout_seconds c));
          ("require_empty_composer_for_text", TBoolean (require_empty_composer_for_text c));
          ("cancel_on_human_intervention", TBoolean (cancel_on_human_intervention c));
          ("verify_every_action", TBoolean (verify_every_action c));
          ("rate_limits", enc_rate_limits (rate_limits c));
          ("overload", enc_overload (overload c));
          ("codex_goal", enc_codex_goal (codex_goal c))].
Definition enc_planner (c : PlannerConfig) : TValue :=
  TTable [("enabled", TBoolean (pc_enabled c));
          ("executable", TString (pc_executable c));
          ("provider_family", TString (pc_provider_family c));
          ("provider", TString (pc_provider c));
          ("model", TString (pc_model c))].
Definition enc_planning (c : PlanningConfig) : TValue :=
  TTable [("enabled", TBoolean (enabled c));
          ("max_calls_per_event", TInteger (max_calls_per_event c));
          ("allow_independent_second_opinion", TBoolean (allow_independent_second_opinion c));
          ("max_calls_per_session_per_day", TInteger (max_calls_per_session_per_day c));
          ("max_concurrent_calls", TInteger (max_concurrent_calls c));
          ("timeout_seconds", TInteger (planning_timeout_seconds c));
          ("max_output_bytes", TInteger (max_output_bytes c));
          ("max_snapshot_bytes", TInteger (max_snapshot_bytes c));
          ("allow_unknown_provider_family", TBoolean (allow_unknown_provider_family c));
          ("allow_repository_context", TBoolean (allow_repository_context c));
          ("allow_network", TBoolean (allow_network c));
          ("planner_priority", enc_list TString (planner_priority c));
          ("planners", enc_map enc_planner (planners c))].
Definition enc_security (c : SecurityConfig) : TValue :=
  TTable [("telemetry", TBoolean (telemetry c));
          ("raw_evidence_persistence", TBoolean (raw_evidence_persistence c));
          ("allow_remote_manifest_updates", TBoolean (allow_remote_manifest_updates c));
          ("allow_project_config", TBoolean (allow_project_config c));
          ("require_owner_only_paths", TBoolean (require_owner_only_paths c));
          ("reject_symlinks_for_state", TBoolean (reject_symlinks_for_state c));
          ("minimal_child_environment", TBoolean (minimal_child_environment c));
          ("extra_secret_names", enc_list TString (extra_secret_names c))].
Definition enc_retention (c : RetentionConfig) : TValue :=
  TTable [("events_days", TInteger (events_days c));
          ("audit_days", TInteger (audit_days c));
          ("snapshots_days", TInteger (snapshots_days c));
          ("max_log_bytes", TInteger (max_log_bytes c));
          ("max_snapshot_files", TInteger (max_snapshot_files c))].
Definition enc_notifications (c : NotificationsConfig) : TValue :=
  TTable [("herdr", TBoolean (cfg_herdr c));
          ("desktop", TBoolean (cfg_desktop c));
          ("stderr", TBoolean (cfg_stderr c));
          ("notify_on_recovery", TBoolean (notify_on_recovery c));
          ("notify_on_human_required", TBoolean (notify_on_human_required c));
          ("notify_on_target_exit", TBoolean (notify_on_target_exit c))].
Definition enc_manifests (c : ManifestsConfig) : TValue :=
  TTable [("bundled", TBoolean (mn_bundled c));
          ("local_directory", TString (local_directory c));
          ("remote_updates", TBoolean (remote_updates c));
          ("strict_unknown_versions", TBoolean (strict_unknown_versions c))].
Definition enc_agent (c : AgentConfig) : TValue :=
  TTable [("enabled", TBoolean (ag_enabled c));
          ("deterministic_recovery", TBoolean (deterministic_recovery c));
          ("ai_planning", TBoolean (ai_planning c))].
Definition enc_config (c : Config) : TValue :=
  TTable [("config_version", TInteger (config_version c));
          ("daemon", enc_daemon (daemon c));
          ("observation", enc_observation (observation c));
          ("lifecycle", enc_lifecycle (lifecycle c));
          ("recovery", enc_recovery (recovery c));
          ("planning", enc_planning (planning c));
          ("security", enc_security (security c));
          ("retention", enc_retention (retention c));
          ("notifications", enc_notifications (notifications c));
          ("manifests", enc_manifests (manifests c));
          ("agents", enc_map enc_agent (agents c))].

(** Every integer is an [i64], which TOML can hold. *)
Fixpoint fits (v : TValue) : bool :=
  match v with
  | TInteger z => z <=? i64_max
  | TArray l => (fix go l := match l with [] => true | v :: l => fits v && go l end) l
  | TTable fs => (fix go fs := match fs with [] => true | (_, v) :: fs => fits v && go fs end) fs
  | _ => true
  end.

Definition toml_try_from (c : Config) : Decoded TValue :=
  if fits (enc_config c) then Ok (enc_config c) else Err "u64 value was too large".

(** ** Redaction *)
Definition MARKERS : list string :=
  ["token"; "secret"; "password"; "credential"; "api_key"; "apikey"; "authorization"; "auth_header"].

Definition is_secret_like_key (key : string) (extra : list string) : bool :=
  let lower := to_ascii_lowercase key in
  existsb (λ marker, contains marker lower) MARKERS
  || existsb (λ name, String.eqb (to_ascii_lowercase name) lower) extra.

Definition mask_string (v : TValue) : TValue := match v with TString _ => TString REDACTED | v => v end.

(** The value of a secret-like key. *)
Definition mask (v : TValue) : TValue :=
  match v with
  | TString _ => TString REDACTED
  | TArray items => TArray (mask_string <$> items)
  | v => v
  end.

Fixpoint redact_value (extra : list string) (v : TValue) : TValue :=
  match v with
  | TTable fs =>
      TTable ((fix go (fs : Table) : Table :=
                 match fs with
                 | [] => []
                 | (k, child) :: fs =>
                     (k, if String.eqb k "extra_secret_names" then child
                         else if is_secret_like_key k extra then mask child
                         else redact_value extra child) :: go fs
                 end) fs)
  | TArray items =>
      TArray ((fix go (l : list TValue) : list TValue :=
                 match l with [] => [] | v :: l => redact_value extra v :: go l end) items)
  | v => v
  end.

(** [None] where an [expect] fails. *)
Definition redacted_for_display (c : Config) : option Config :=
  match toml_try_from c with
  | Err _ => None
  | Ok v =>
      match dec_config (redact_value (extra_secret_names (security c)) v) with
      | Ok c => Some c
      | Err _ => None
      end
  end.

Definition render_redacted_toml (to_string_pretty : Config → option string) (c : Config) : option string :=
  redacted ← redacted_for_display c;
  body ← to_string_pretty redacted;
  Some ("# redacted configuration" +:+ String (ascii_of_N 10) body).

(** ** Loading *)
Inductive ConfigError : Type :=
| ReadConfig (path source : string)
| Invalid (m : string)
| UnsupportedVersion (v : Z)
| NotATable.

(** [symlink_metadata] of a layer and the text of its file. *)
Inductive LayerStat : Type := Missing | StatFailed (m : string) | Symlink | Present.
Record Layer : Type := mkLayer {
  ly_path : string;
  ly_stat : LayerStat;
  ly_text : result string string;
}.

Class TomlParse : Type := toml_parse : string → result string TValue.

Section Loading.
Context `{TomlParse}.

Fixpoint merge_layers (merged : TValue) (layers : list Layer) : result ConfigError TValue :=
  match layers with
  | [] => Ok merged
  | l :: layers =>
      match ly_stat l with
      | Symlink => Err (ReadConfig (ly_path l) "configuration path must not be a symlink")
      | Missing => merge_layers merged layers
      | StatFailed m => Err (ReadConfig (ly_path l) m)
      | Present =>
          let? source := map_err (ReadConfig (ly_path l)) (ly_text l) in
          let? layer := map_err Invalid (toml_parse source) in
          merge_layers (merge merged layer) layers
      end
  end.

Definition validate_config (c : Config) : result ConfigError Config :=
  if negb (config_version c =? SUPPORTED_CONFIG_VERSION) then Err (UnsupportedVersion (config_version c))
  else Ok c.

Definition load_layers (layers : list Layer) : result ConfigError Config :=
  let? merged := merge_layers (TTable []) layers in
  let? c := map_err Invalid (dec_config merged) in
  validate_config c.
End Loading.

(** ** Merging, proved *)
Fixpoint well_formed (v : TValue) : Prop :=
  match v with
  | TTable fs =>
      NoDup fs.*1 ∧ (fix go fs := match fs with [] => True | (_, v) :: fs => well_formed v ∧ go fs end) fs
  | _ => True
  end.

Definition is_table (v : TValue) : bool := match v with TTable _ => true | _ => false end.

Fixpoint at_path (p : list string) (v : TValue) : option TValue :=
  match p with
  | [] => Some v
  | k :: p => match v with TTable fs => entry k fs ≫= at_path p | _ => None end
  end.

(** The setting at a path: a value that is not a table. *)
Definition leaf_at (p : list string) (v : TValue) : option TValue :=
  match at_path p v with Some v => if is_table v then None else Some v | None => None end.

(** What a layer says of a path: nothing, or the setting it leaves there. *)
Fixpoint says (p : list string) (o : TValue) : option (option TValue) :=
  match p, o with
  | [], TTable _ => Some None
  | [], o => Some (Some o)
  | k :: p, TTable fs => match entry k fs with Some v => says p v | None => None end
  | _ :: _, _ => Some None
  end.

Lemma entry_set k k' v fs : entry k (set_entry k' v fs) = if String.eqb k k' then Some v else entry k fs.
Proof.
  induction fs as [|[k0 v0] fs IH]; cbn; [done|]. destruct (String.eqb_spec k' k0) as [->|]; cbn.
  - by destruct (String.eqb k k0).
  - rewrite IH. destruct (String.eqb_spec k k0) as [->|]; [|done].
    by rewrite (proj2 (String.eqb_neq k0 k')).
Qed.

Lemma entry_None k fs : k ∉ fs.*1 → entry k fs = None.
Proof.
  induction fs as [|[k0 v0] fs IH]; cbn; [done|]. intros Hn.
  rewrite (proj2 (String.eqb_neq k k0)), IH by set_solver. done.
Qed.

Definition merge_entry (base : option TValue) (v : TValue) : TValue :=
  match base with Some x => merge x v | None => v end.

Lemma entry_merge b o k :
  NoDup o.*1 →
  match merge (TTable b) (TTable o) with
  | TTable fs => entry k fs = match entry k o with Some v => Some (merge_entry (entry k b) v) | None => entry k b end
  | _ => False
  end.
Proof.
  cbn [merge]. revert b. induction o as [|[k0 v0] o IH]; intros b Hnd; [done|].
  apply NoDup_cons in Hnd as [Hni Hnd]. rewrite IH by done. cbn [entry].
  destruct (String.eqb_spec k k0) as [->|Hne].
  - rewrite entry_None by done. destruct (entry k0 b) as [x|] eqn:E; rewrite entry_set, String.eqb_refl; done.
  - assert (entry k (match entry k0 b with Some existing => set_entry k0 (merge existing v0) b
                                       | None => set_entry k0 v0 b end) = entry k b) as ->.
    { destruct (entry k0 b); rewrite entry_set; by rewrite (proj2 (String.eqb_neq k k0)). }
    done.
Qed.

Lemma well_formed_entry fs k v : well_formed (TTable fs) → entry k fs = Some v → well_formed v.
Proof.
  cbn. intros [_ Hw]. induction fs as [|[k0 v0] fs IH]; cbn in *; [done|]. destruct Hw as [Hv Hw].
  destruct (String.eqb k k0); [by intros [= <-]|]. by apply IH.
Qed.

Lemma says_own p o : match says p o with Some r => leaf_at p o = r | None => leaf_at p o = None end.
Proof.
  revert o. induction p as [|k p IH]; intros o; [by destruct o|].
  destruct o; try done. cbn. unfold leaf_at. cbn. destruct (entry k fs) as [v|]; [apply IH|done].
Qed.

Lemma merge_leaf p b o :
  well_formed o → leaf_at p (merge b o) = default (leaf_at p b) (says p o).
Proof.
  revert b o. induction p as [|k p IH]; intros b o Hw.
  - destruct o; by destruct b.
  - pose proof (says_own (k :: p) o) as Hown.
    destruct o; try (destruct b; done).
    destruct b; try (cbn [merge]; cbn [says] in *; destruct (entry k fs) as [v|];
                     [destruct (says p v); cbn; done|done]).
    pose proof (entry_merge fs0 fs k (proj1 Hw)) as He.
    destruct (merge (TTable fs0) (TTable fs)) as [| | | | | |m]; try done.
    unfold leaf_at. cbn [at_path says]. rewrite He. clear He.
    destruct (entry k fs) as [v|] eqn:Ev; [|done]. cbn [mbind option_bind].
    pose proof (well_formed_entry fs k v Hw Ev) as Hv. destruct (entry k fs0) as [x|]; cbn [merge_entry mbind option_bind].
    + exact (IH x v Hv).
    + pose proof (says_own p v) as Hs. destruct (says p v) as [r|]; exact Hs.
Qed.

(** The last layer that says anything of a setting decides it.  Over well-formed layers,
    the merged value at a path is what the last layer with an opinion on the path leaves
    there - its own value, or nothing when it puts a scalar above or a table in its place -
    and the value of the layers before when none has an opinion. *)
Theorem merged_setting p layers base :
  Forall well_formed layers →
  leaf_at p (foldl merge base layers)
  = default (leaf_at p base) (head (omap (says p) (reverse layers))).
Proof.
  revert base. induction layers as [|o layers IH] using rev_ind; intros base Hw; [done|].
  apply Forall_app in Hw as [Hw Ho]. apply Forall_cons in Ho as [Ho _]. rewrite foldl_app. cbn [foldl].
  rewrite merge_leaf, reverse_snoc by done. csimpl.
  destruct (says p o) as [r|]; [done|]. by apply IH.
Qed.

(** ** Decoders that encoding and masking respect *)

(** Two values that differ in the text of strings only. *)
#[warnings="-register-all"]
Inductive same_shape : TValue → TValue → Prop :=
| shape_string s s' : same_shape (TString s) (TString s')
| shape_integer z : same_shape (TInteger z) (TInteger z)
| shape_float t : same_shape (TFloat t) (TFloat t)
| shape_boolean b : same_shape (TBoolean b) (TBoolean b)
| shape_datetime t : same_shape (TDatetime t) (TDatetime t)
| shape_array l l' : Forall2 same_shape l l' → same_shape (TArray l) (TArray l')
| shape_table fs fs' :
    Forall2 (λ a b, a.1 = b.1 ∧ same_shape a.2 b.2) fs fs' → same_shape (TTable fs) (TTable fs').

Definition accepts {A} (dec : TValue → Decoded A) (v : TValue) : Prop := ∃ a, dec v = Ok a.

(** A decoded value encodes to something that fits TOML and decodes to the same value; the
    decoder looks at strings only to copy them. *)
Class Coded {A} (dec : TValue → Decoded A) (enc : A → TValue) : Prop := {
  coded_stable v a : fits v = true → dec v = Ok a → dec (enc a) = Ok a ∧ fits (enc a) = true;
  coded_tolerant v w : same_shape v w → accepts dec v → accepts dec w;
}.

Lemma shape_entry k fs fs' :
  Forall2 (λ a b, a.1 = b.1 ∧ same_shape a.2 b.2) fs fs' →
  match entry k fs, entry k fs' with
  | Some v, Some w => same_shape v w
  | None, None => True
  | _, _ => False
  end.
Proof.
  induction 1 as [|[k1 v1] [k2 v2] fs fs' [Hk Hs] _ IH]; cbn in *; [done|]. subst k2.
  by destruct (String.eqb k k1).
Qed.

Lemma shape_known names fs fs' :
  Forall2 (λ a b, a.1 = b.1 ∧ same_shape a.2 b.2) fs fs' →
  forallb (λ kv, one_of names kv.1) fs = forallb (λ kv, one_of names kv.1) fs'.
Proof.
  induction 1 as [|[k1 v1] [k2 v2] fs fs' [Hk Hs] _ IH]; cbn in *; [done|]. subst k2. by rewrite IH.
Qed.

Lemma fits_entry fs k v : fits (TTable fs) = true → entry k fs = Some v → fits v = true.
Proof.
  cbn. induction fs as [|[k0 v0] fs IH]; cbn; [done|]. intros [Hv Hf]%andb_true_iff.
  destruct (String.eqb k k0); [by intros [= <-]|by apply IH].
Qed.

(** *** Fields *)
Lemma dfield_stable {A} (dec : TValue → Decoded A) enc `{!Coded dec enc} k d fs a :
  fits (TTable fs) = true → (dec (enc d) = Ok d ∧ fits (enc d) = true) →
  dfield k dec d fs = Ok a → dec (enc a) = Ok a ∧ fits (enc a) = true.
Proof.
  unfold dfield. intros Hf Hd. destruct (entry k fs) as [v|] eqn:E; [|by intros [= <-]].
  apply coded_stable. by eapply fits_entry.
Qed.

Lemma dfield_tolerant {A} (dec : TValue → Decoded A) enc `{!Coded dec enc} k d fs fs' a :
  Forall2 (λ a b, a.1 = b.1 ∧ same_shape a.2 b.2) fs fs' → dfield k dec d fs = Ok a →
  ∃ b, dfield k dec d fs' = Ok b.
Proof.
  intros Hs%(shape_entry k). unfold dfield.
  destruct (entry k fs) as [v|], (entry k fs') as [w|]; try done; [|eauto].
  intros Ha. by apply (coded_tolerant v w Hs); exists a.
Qed.

(** *** Values *)
#[export] Instance Coded_bool : Coded dec_bool TBoolean.
Proof.
  split.
  - intros [] a _ Ha; try done.
  - intros v w Hs [a Ha]. destruct Hs; try done. by exists b.
Qed.

#[export] Instance Coded_uint max : Coded (dec_uint max) TInteger.
Proof.
  split.
  - intros [] a Hf Ha; try done. cbn in *. destruct (_ && _) eqn:E; [|done]. injection Ha as <-.
    by rewrite E.
  - intros v w Hs [a Ha]. destruct Hs; try done. by exists a.
Qed.

#[export] Instance Coded_string : Coded dec_string TString.
Proof.
  split.
  - intros [] a _ Ha; try done.
  - intros v w Hs [a Ha]. destruct Hs; try done. by eexists.
Qed.

#[export] Instance Coded_list {A} (dec : TValue → Decoded A) enc `{!Coded dec enc} :
  Coded (dec_list dec) (enc_list enc).
Proof.
  split.
  - intros [] a Hf Ha; try done. cbn in *. revert a Ha. induction l as [|v l IH]; cbn in *; intros a Ha.
    { by injection Ha as <-. }
    apply andb_true_iff in Hf as [Hv Hf]. apply rbind_Ok in Ha as (x & Hx & (xs & Hxs & [= <-])%rbind_Ok).
    destruct (coded_stable v x Hv Hx) as [Hdx Hfx]. destruct (IH Hf xs Hxs) as [Hds Hfs].
    unfold enc_list in *. csimpl. cbn [all_ok fits]. rewrite Hdx. cbn [rbind]. rewrite Hds, Hfx. done.
  - intros v w Hs [a Ha]. destruct Hs as [| | | | |l l' Hl|]; try done. unfold accepts. cbn in *.
    revert a Ha. induction Hl as [|v w l l' Hv Hl IH]; intros a Ha; [by eexists|]. cbn in *.
    apply rbind_Ok in Ha as (x & Hx & (xs & Hxs & _)%rbind_Ok).
    destruct (coded_tolerant v w Hv (ex_intro _ x Hx)) as [y ->]. destruct (IH xs Hxs) as [ys ->]. by eexists.
Qed.

Lemma all_ok_entries {A} (dec : TValue → Decoded A) enc (l : list (string * A)) :
  (∀ k a, (k, a) ∈ l → dec (enc a) = Ok a) →
  all_ok (λ kv, let? a := dec kv.2 in Ok (kv.1, a)) ((λ kv, (kv.1, enc kv.2)) <$> l) = Ok l.
Proof.
  induction l as [|[k a] l IH]; intros Hd; [done|]. cbn. rewrite (Hd k a) by set_solver. cbn.
  rewrite IH; [done|]. intros k' a' Hin. apply (Hd k'). set_solver.
Qed.

Lemma fits_entries {A} (enc : A → TValue) (l : list (string * A)) :
  (∀ k a, (k, a) ∈ l → fits (enc a) = true) → fits (TTable ((λ kv, (kv.1, enc kv.2)) <$> l)) = true.
Proof.
  cbn. induction l as [|[k a] l IH]; intros Hd; [done|]. cbn. rewrite (Hd k a) by set_solver.
  apply IH. intros k' a' Hin. apply (Hd k'). set_solver.
Qed.

#[export] Instance Coded_map {A} (dec : TValue → Decoded A) enc `{!Coded dec enc} :
  Coded (dec_map dec) (enc_map enc).
Proof.
  split.
  - intros [| | | | | |fs] m Hf Hm; try done. cbn [dec_map] in Hm. apply rbind_Ok in Hm as (l & Hl & [= <-]).
    assert (∀ k a, (k, a) ∈ l → dec (enc a) = Ok a ∧ fits (enc a) = true) as Hall.
    { cbn in Hf. revert l Hl. induction fs as [|[k0 v0] fs IH]; intros l Hl k a Hin.
      - injection Hl as <-. by apply not_elem_of_nil in Hin.
      - cbn in Hl. apply andb_true_iff in Hf as [Hv Hf].
        apply rbind_Ok in Hl as (x & (x' & Hx & [= <-])%rbind_Ok & (xs & Hxs & [= <-])%rbind_Ok).
        apply elem_of_cons in Hin as [[= -> ->]|Hin]; [by eapply coded_stable|by eapply IH]. }
    assert (∀ k a, (k, a) ∈ map_to_list (list_to_map l : gmap string A) → dec (enc a) = Ok a ∧ fits (enc a) = true)
      as Hmap.
    { intros k a Hin. apply elem_of_map_to_list, elem_of_list_to_map_2 in Hin. by apply (Hall k). }
    unfold enc_map. split; [|apply fits_entries; intros k a Hin; by apply (Hmap k)].
    cbn [dec_map]. rewrite all_ok_entries by (intros k a Hin; by apply (Hmap k)). cbn.
    by rewrite list_to_map_to_list.
  - intros v w Hs [a Ha]. destruct Hs as [| | | | | |fs fs' Hl]; try done. unfold accepts. cbn [dec_map] in *.
    apply rbind_Ok in Ha as (l & Hl' & _).
    enough (∃ l', all_ok (λ kv, let? a := dec kv.2 in Ok (kv.1, a)) fs' = Ok l') as [l' ->] by (by eexists).
    revert l Hl'. induction Hl as [|[k v] [k' w] fs fs' [Hk Hv] Hl IH]; intros l Hl'; [by eexists|]. cbn in *.
    apply rbind_Ok in Hl' as (x & (x' & Hx & _)%rbind_Ok & (xs & Hxs & _)%rbind_Ok).
    destruct (coded_tolerant v w Hv (ex_intro _ x' Hx)) as [y ->]. destruct (IH xs Hxs) as [ys ->]. by eexists.
Qed.

(** *** Records *)
Lemma fits_table fs : fits (TTable fs) = forallb (λ kv, fits kv.2) fs.
Proof. cbn. induction fs as [|[k v] fs IH]; [done|]. cbn. by rewrite IH. Qed.

#[local] Arguments dec_bool : simpl never.
#[local] Arguments dec_uint : simpl never.
#[local] Arguments dec_string : simpl never.
#[local] Arguments dec_list : simpl never.
#[local] Arguments dec_map : simpl never.
#[local] Arguments enc_list : simpl never.
#[local] Arguments enc_map : simpl never.
#[local] Arguments fits : simpl never.

(** Each field of a record is stable; the encoder lists exactly the known fields. *)
Ltac record_stable :=
  let v := fresh "v" in let a := fresh "a" in let Hf := fresh "Hf" in let Ha := fresh "Ha" in
  intros v a Hf Ha; destruct v as [| | | | | |fs]; try discriminate Ha;
  cbn beta iota zeta delta [known_fields] in Ha;
  destruct (forallb _ fs); [cbn [rbind] in Ha|discriminate Ha];
  repeat match type of Ha with
  | rbind (dfield ?k ?dec ?d ?fs) _ = Ok _ =>
      let x := fresh "x" in let Hx := fresh "Hx" in
      apply rbind_Ok in Ha as (x & Hx & Ha);
      let H1 := fresh "H1" in let H2 := fresh "H2" in
      destruct (dfield_stable dec _ k d fs x Hf ltac:(split; vm_compute; reflexivity) Hx) as [H1 H2];
      clear Hx
  end;
  injection Ha as <-.

Ltac by_fields :=
  repeat match goal with
  | H : ?dec ?e = Ok ?x |- context [?dec ?e] => rewrite H; cbn [rbind]
  | H : fits ?x = true |- context [fits ?x] => rewrite H
  end.

Ltac record_coded :=
  split;
  [ record_stable; split;
    [ cbn; by_fields; reflexivity | rewrite fits_table; cbn; by_fields; reflexivity ]
  | let v := fresh "v" in let w := fresh "w" in let Hs := fresh "Hs" in
    intros v w Hs [a Ha]; destruct Hs as [| | | | | |fs fs' Hs]; try discriminate Ha;
    unfold accepts; cbn beta iota zeta delta [known_fields] in *;
    rewrite <- (shape_known _ fs fs' Hs); destruct (forallb _ fs); [cbn [rbind] in *|discriminate Ha];
    repeat match type of Ha with
    | rbind (dfield ?k ?dec ?d ?fs) _ = Ok _ =>
        let x := fresh "x" in let Hx := fresh "Hx" in
        apply rbind_Ok in Ha as (x & Hx & Ha);
        destruct (dfield_tolerant dec _ k d fs fs' x Hs Hx) as [? ->]; cbn [rbind]; clear Hx
    end;
    eexists; reflexivity ].

#[export] Instance Coded_daemon : Coded dec_daemon enc_daemon.
Proof. unfold dec_daemon, enc_daemon. record_coded. Qed.
#[local] Arguments dec_daemon : simpl never.
#[local] Arguments enc_daemon : simpl never.
#[export] Instance Coded_observation : Coded dec_observation enc_observation.
Proof. unfold dec_observation, enc_observation. record_coded. Qed.
#[local] Arguments dec_observation : simpl never.
#[local] Arguments enc_observation : simpl never.
#[export] Instance Coded_lifecycle : Coded dec_lifecycle enc_lifecycle.
Proof. unfold dec_lifecycle, enc_lifecycle. record_coded. Qed.
#[local] Arguments dec_lifecycle : simpl never.
#[local] Arguments enc_lifecycle : simpl never.
#[export] Instance Coded_rate_limits : Coded dec_rate_limits enc_rate_limits.
Proof. unfold dec_rate_limits, enc_rate_limits. record_coded. Qed.
#[local] Arguments dec_rate_limits : simpl never.
#[local] Arguments enc_rate_limits : simpl never.
#[export] Instance Coded_overload : Coded dec_overload enc_overload.
Proof. unfold dec_overload, enc_overload. record_coded. Qed.
#[local] Arguments dec_overload : simpl never.
#[local] Arguments enc_overload : simpl never.
#[export] Instance Coded_codex_goal : Coded dec_codex_goal enc_codex_goal.
Proof. unfold dec_codex_goal, enc_codex_goal. record_coded. Qed.
#[local] Arguments dec_codex_goal : simpl never.
#[local] Arguments enc_codex_goal : simpl never.
#[export] Instance Coded_recovery : Coded dec_recovery enc_recovery.
Proof. unfold dec_recovery, enc_recovery. record_coded. Qed.
#[local] Arguments dec_recovery : simpl never.
#[local] Arguments enc_recovery : simpl never.
#[export] Instance Coded_planner : Coded dec_planner enc_planner.
Proof. unfold dec_planner, enc_planner. record_coded. Qed.
#[local] Arguments dec_planner : simpl never.
#[local] Arguments enc_planner : simpl never.
#[export] Instance Coded_planning : Coded dec_planning enc_planning.
Proof. unfold dec_planning, enc_planning. record_coded. Qed.
#[local] Arguments dec_planning : simpl never.
#[local] Arguments enc_planning : simpl never.
#[export] Instance Coded_security : Coded dec_security enc_security.
Proof. unfold dec_security, enc_security. record_coded. Qed.
#[local] Arguments dec_security : simpl never.
#[local] Arguments enc_security : simpl never.
#[export] Instance Coded_retention : Coded dec_retention enc_retention.
Proof. unfold dec_retention, enc_retention. record_coded. Qed.
#[local] Arguments dec_retention : simpl never.
#[local] Arguments enc_retention : simpl never.
#[export] Instance Coded_notifications : Coded dec_notifications enc_notifications.
Proof. unfold dec_notifications, enc_notifications. record_coded. Qed.
#[local] Arguments dec_notifications : simpl never.
#[local] Arguments enc_notifications : simpl never.
#[export] Instance Coded_manifests : Coded dec_manifests enc_manifests.
Proof. unfold dec_manifests, enc_manifests. record_coded. Qed.
#[local] Arguments dec_manifests : simpl never.
#[local] Arguments enc_manifests : simpl never.
#[export] Instance Coded_agent : Coded dec_agent enc_agent.
Proof. unfold dec_agent, enc_agent. record_coded. Qed.
#[local] Arguments dec_agent : simpl never.
#[local] Arguments enc_agent : simpl never.
#[export] Instance Coded_config : Coded dec_config enc_config.
Proof. unfold dec_config, enc_config. record_coded. Qed.

(** ** Redaction, proved *)
Lemma same_shape_refl v : same_shape v v.
Proof.
  induction v using TValue_ind'; constructor.
  - by apply Forall_Forall2_diag.
  - apply Forall_Forall2_diag. eapply Forall_impl; [done|]. by split.
Qed.

Lemma mask_shape v : same_shape v (mask v).
Proof.
  destruct v; try apply same_shape_refl; cbn; [constructor|]. constructor.
  induction l as [|x l IH]; constructor; [|done]. destruct x; try apply same_shape_refl. constructor.
Qed.

Definition redact_entry (extra : list string) (k : string) (child : TValue) : TValue :=
  if String.eqb k "extra_secret_names" then child
  else if is_secret_like_key k extra then mask child else redact_value extra child.

Lemma redact_table extra fs :
  redact_value extra (TTable fs) = TTable ((λ kv, (kv.1, redact_entry extra kv.1 kv.2)) <$> fs).
Proof. cbn. f_equal. induction fs as [|[k v] fs IH]; [done|]. csimpl. by f_equal. Qed.

Lemma redact_array extra l : redact_value extra (TArray l) = TArray (redact_value extra <$> l).
Proof. reflexivity. Qed.

Lemma redact_shape extra v : same_shape v (redact_value extra v).
Proof.
  induction v as [| | | | |l IH|fs IH] using TValue_ind'; try solve [constructor].
  - rewrite redact_array. constructor. induction IH; constructor; done.
  - rewrite redact_table. constructor. induction IH as [|[k v] fs Hv _ IHf]; constructor; [|done].
    split; [done|]. cbn in *. unfold redact_entry.
    destruct (String.eqb k _); [apply same_shape_refl|].
    destruct (is_secret_like_key k extra); [apply mask_shape|done].
Qed.

Lemma entry_redact extra k fs :
  entry k ((λ kv, (kv.1, redact_entry extra kv.1 kv.2)) <$> fs) = redact_entry extra k <$> entry k fs.
Proof.
  induction fs as [|[k0 v] fs IH]; [done|]. csimpl. cbn [entry fst snd].
  destruct (String.eqb_spec k k0) as [->|]; [done|exact IH].
Qed.

(** The settings the display hides: those whose own key is secret-like, in tables whose keys
    are not, outside the list of names. *)
Fixpoint masked (extra : list string) (p : list string) : bool :=
  match p with
  | [] => false
  | k :: p =>
      negb (String.eqb k "extra_secret_names")
      && (if is_secret_like_key k extra then bool_decide (p = []) else masked extra p)
  end.

Lemma mask_leaf v p : p ≠ [] → leaf_at p (mask v) = leaf_at p v.
Proof. destruct p, v; done. Qed.

(** The display hides the secret-like settings and changes nothing else: a string becomes
    [[redacted]] exactly when its own key is secret-like and the tables around it are not
    under a secret-like key, an array under such a key has its strings replaced, and every
    other string is shown as it is. *)
Theorem redaction_exact extra v p :
  (∀ s, leaf_at p v = Some (TString s) →
     leaf_at p (redact_value extra v) = Some (TString (if masked extra p then REDACTED else s)))
  ∧ (∀ l, leaf_at p v = Some (TArray l) → masked extra p = true →
     leaf_at p (redact_value extra v) = Some (TArray (mask_string <$> l))).
Proof.
  revert v. induction p as [|k p IH]; intros v.
  { split; [|done]. intros s Hs. unfold leaf_at in *. cbn in *. by destruct v. }
  destruct v as [| | | | |l|fs]; try (split; intros ? Hs; discriminate Hs). rewrite redact_table.
  unfold leaf_at. cbn [at_path]. rewrite entry_redact.
  destruct (entry k fs) as [child|]; [|split; done]. cbn [mbind option_bind fmap option_fmap option_map].
  unfold redact_entry. cbn [masked].
  destruct (String.eqb k "extra_secret_names") eqn:Ek; cbn [negb andb]; [done|].
  destruct (is_secret_like_key k extra) eqn:Es; [|exact (IH child)].
  destruct p as [|k' p].
  - rewrite bool_decide_eq_true_2 by done. cbn [at_path].
    split; intros ? Hs; destruct child; try discriminate Hs; by injection Hs as ->.
  - rewrite bool_decide_eq_false_2 by done. split; [|done]. intros s Hs.
    change (leaf_at (k' :: p) (mask child) = Some (TString s)). by rewrite mask_leaf.
Qed.

(** Displaying a loaded configuration never fails.  A configuration decoded from a TOML
    document encodes to one that TOML can hold, decodes back to itself, and still decodes
    after redaction, whatever the extra secret names are. *)
Theorem display_total v c :
  fits v = true → dec_config v = Ok c →
  dec_config (enc_config c) = Ok c ∧ toml_try_from c = Ok (enc_config c)
  ∧ ∃ c', redacted_for_display c = Some c'.
Proof.
  intros Hf Hd. destruct (coded_stable v c Hf Hd) as [Hr Hfe]. split; [exact Hr|].
  unfold toml_try_from, redacted_for_display, toml_try_from. rewrite Hfe. split; [done|].
  destruct (coded_tolerant _ _ (redact_shape (extra_secret_names (security c)) (enc_config c))
              (ex_intro _ c Hr)) as [c' ->]. by exists c'.
Qed.

(** Loading.  Missing layers are skipped and the others are merged in order; a layer that
    is a symbolic link, cannot be read or is not TOML makes loading fail; a configuration
    is returned only if its version is supported; without layers it is the default. *)
Theorem load_layers_spec `{TomlParse} layers :
  (∀ c, load_layers layers = Ok c →
     config_version c = SUPPORTED_CONFIG_VERSION
     ∧ Forall (λ l, ly_stat l = Missing ∨ ly_stat l = Present ∧ is_ok (ly_text l) = true) layers
     ∧ ∃ vs, Forall2 (λ l v, ∃ text, ly_text l = Ok text ∧ toml_parse text = Ok v)
               (List.filter (λ l, match ly_stat l with Present => true | _ => false end) layers) vs
         ∧ dec_config (foldl merge (TTable []) vs) = Ok c)
  ∧ ((∀ l, l ∈ layers → ly_stat l = Missing) → load_layers layers = Ok config_default).
Proof.
  assert (∀ merged out, merge_layers merged layers = Ok out →
    Forall (λ l, ly_stat l = Missing ∨ ly_stat l = Present ∧ is_ok (ly_text l) = true) layers
    ∧ ∃ vs, Forall2 (λ l v, ∃ text, ly_text l = Ok text ∧ toml_parse text = Ok v)
        (List.filter (λ l, match ly_stat l with Present => true | _ => false end) layers) vs
      ∧ foldl merge merged vs = out) as Hm.
  { induction layers as [|l layers IH]; intros merged out; cbn [merge_layers List.filter].
    - intros [= ->]. split; [constructor|]. exists []. split; [constructor|done].
    - destruct (ly_stat l) eqn:El; try done.
      + intros Ho. destruct (IH _ _ Ho) as [Hall Hvs]. split; [|done]. constructor; [by left|done].
      + intros (text & Ht & (v & Hv & Ho)%rbind_Ok)%rbind_Ok. apply map_err_Ok in Ht, Hv.
        destruct (IH _ _ Ho) as [Hall (vs & Hvs & <-)]. split.
        * constructor; [right; by rewrite Ht|done].
        * exists (v :: vs). split; [constructor; eauto|done]. }
  unfold load_layers. split.
  - intros c (merged & (Hall & vs & Hvs & <-)%Hm & (c' & Hc%map_err_Ok & Hv)%rbind_Ok)%rbind_Ok.
    unfold validate_config in Hv. destruct (Z.eqb_spec (config_version c') SUPPORTED_CONFIG_VERSION); [|done].
    cbn in Hv. injection Hv as ->. split; [done|]. split; [done|]. by exists vs.
  - intros Hmiss. assert (∀ merged, merge_layers merged layers = Ok merged) as ->.
    { clear Hm. induction layers as [|l layers IH]; intros merged; [done|]. cbn.
      rewrite (Hmiss l) by set_solver. apply IH. intros l' Hl'. apply Hmiss. set_solver. }
    vm_compute. reflexivity.
Qed.

(** ** A user's file, with a token among the planners *)
Definition demo_layer_base : TValue :=
  TTable [("daemon", TTable [("max_watchers", TInteger 8); ("stay_resident", TBoolean true)])].
Definition demo_layer_user : TValue :=
  TTable [("daemon", TTable [("max_watchers", TInteger 16)]);
          ("security", TTable [("extra_secret_names", TArray [TString "model"])]);
          ("planning", TTable [("planners", TTable [("codex", TTable [("model", TString "sk-live")])])])].

Lemma demo_layers_well_formed : Forall well_formed [demo_layer_base; demo_layer_user].
Proof.
  assert (∀ l : list string, bool_decide (NoDup l) = true → NoDup l) as Hnd
    by (intros l Hl; by apply bool_decide_eq_true in Hl).
  repeat (apply Forall_cons; split); [..|by apply Forall_nil]; cbn; repeat split;
    apply Hnd; vm_compute; reflexivity.
Qed.

Lemma merged_setting_witness :
  leaf_at ["daemon"; "max_watchers"] (foldl merge (TTable []) [demo_layer_base; demo_layer_user])
  = Some (TInteger 16)
  ∧ leaf_at ["daemon"; "stay_resident"] (foldl merge (TTable []) [demo_layer_base; demo_layer_user])
    = Some (TBoolean true).
Proof.
  split; [rewrite (merged_setting ["daemon"; "max_watchers"]) by exact demo_layers_well_formed
         |rewrite (merged_setting ["daemon"; "stay_resident"]) by exact demo_layers_well_formed];
    vm_compute; reflexivity.
Defined.

Lemma redaction_exact_witness :
  leaf_at ["planning"; "planners"; "codex"; "model"] (redact_value ["model"] demo_layer_user)
  = Some (TString "[redacted]").
Proof.
  apply (proj1 (redaction_exact ["model"] demo_layer_user ["planning"; "planners"; "codex"; "model"]) "sk-live").
  reflexivity.
Defined.

Definition demo_config : Config :=
  match dec_config (merge demo_layer_base demo_layer_user) with Ok c => c | Err _ => config_default end.

Lemma display_total_witness :
  max_watchers (daemon demo_config) = 16 ∧ ∃ c', redacted_for_display demo_config = Some c'.
Proof.
  split; [vm_compute; reflexivity|].
  refine (proj2 (proj2 (display_total (merge demo_layer_base demo_layer_user) demo_config _ _)));
    vm_compute; reflexivity.
Defined.

Definition demo_toml : TomlParse := λ s,
  if String.eqb s "base" then Ok demo_layer_base else if String.eqb s "user" then Ok demo_layer_user
  else Err "not TOML".

Lemma load_layers_spec_witness :
  let parse : TomlParse := demo_toml in
  let layers := [mkLayer "/etc/watchme.toml" Missing (Err "absent"); mkLayer "a" Present (Ok "base");
                 mkLayer "b" Present (Ok "user")] in
  load_layers layers = Ok demo_config ∧ config_version demo_config = SUPPORTED_CONFIG_VERSION
  ∧ load_layers [mkLayer "a" Missing (Err "absent")] = Ok config_default.
Proof.
  intros parse layers. assert (load_layers layers = Ok demo_config) as E by (vm_compute; reflexivity).
  split; [exact E|]. split; [exact (proj1 (proj1 (load_layers_spec layers) demo_config E))|].
  apply (proj2 (load_layers_spec [mkLayer "a" Missing (Err "absent")])).
  intros l Hl. apply list_elem_of_singleton in Hl as ->. reflexivity.
Defined.
