(* ===== verification/AuditLog.v ===== *)
(** * The audit log (src/src/audit.rs)

    An append-only JSONL file: events are redacted when written and when read, retention
    rewrites the file within its limits, [logs --follow] reads it from an offset, and the
    decision chains of recoveries are recovered from it.  The file is its bytes; serde_json
    on one event is a parameter. *)
From S2P Require Import Planner Redact.
From S2P Require Import Process Config Linux Action Registry.
From S2P Require Import Prelude Json Text Utf8 Event Identity State.
From stdpp Require Import pretty.
From Stdlib Require Import Ascii.

Local Open Scope Z_scope.

Definition AUDIT_SCHEMA_VERSION : string := "1.0".
Definition NANOS : Z := 1000000000.

Record AuditEvent : Type := mkAudit {
  ae_schema_version : string;
  recorded_at : string;
  ae_watcher_id : option string;
  ae_kind : string;
  ae_detector : option string;
  ae_evidence : option string;
  ae_state : option string;
  ae_policy_decision : option string;
  ae_attempted_action : option string;
  ae_verification : option string;
  ae_message : string;
}.

Record DecisionChain : Type := mkChain {
  dc_watcher_id : string;
  dc_detector : string;
  dc_evidence : string;
  dc_state : string;
  dc_policy_decision : string;
  dc_attempted_action : string;
  dc_verification : string;
}.

#[global] Instance AuditEvent_eq_dec : EqDecision AuditEvent.
Proof. solve_decision. Defined.
#[global] Instance DecisionChain_eq_dec : EqDecision DecisionChain.
Proof. solve_decision. Defined.

Inductive DecisionPhase : Type := PolicyAllow | PolicyDeny | ActionBegin | ActionVerify | ActionCancel.

Definition phase_str (p : DecisionPhase) : string :=
  match p with
  | PolicyAllow => "policy_allow"
  | PolicyDeny => "policy_deny"
  | ActionBegin => "action_begin"
  | ActionVerify => "action_verify"
  | ActionCancel => "action_cancel"
  end.

(** [{phase:?}] and [{:?}] of a source kind. *)
Definition phase_debug (p : DecisionPhase) : string :=
  match p with
  | PolicyAllow => "PolicyAllow"
  | PolicyDeny => "PolicyDeny"
  | ActionBegin => "ActionBegin"
  | ActionVerify => "ActionVerify"
  | ActionCancel => "ActionCancel"
  end.
Definition source_debug (k : SourceKind) : string :=
  match k with
  | Source.TypedApi => "TypedApi"
  | Source.Hook => "Hook"
  | Source.StructuredLog => "StructuredLog"
  | Source.ProcessMetadata => "ProcessMetadata"
  | Source.HerdrAgentState => "HerdrAgentState"
  | Source.ScreenDetection => "ScreenDetection"
  | Source.Planner => "Planner"
  | Source.Internal => "Internal"
  end.

Record RetentionPolicy : Type := mkPolicy {
  rp_events_days : Z;
  rp_audit_days : Z;
  rp_max_log_bytes : Z;
}.

Definition policy_of_config (c : RetentionConfig) : RetentionPolicy :=
  mkPolicy (events_days c) (audit_days c) (max_log_bytes c).

(** serde_json on one event. *)
Class AuditCodec : Type := {
  encode_event : AuditEvent → result string (list Z);
  decode_event : list Z → option AuditEvent;
}.

(** The log file, [None] when it does not exist, and the bytes that can still be written
    before the device fails ([None]: enough). *)
Abbreviation LogFile := (option (list Z)).

Definition write_all (room : option nat) (l : list Z) : list Z * result string unit :=
  match room with
  | Some n => if (length l <=? n)%nat then (l, Ok tt) else (take n l, Err "write failed")
  | None => (l, Ok tt)
  end.

Section Log.
Context `{RegexCrate} `{AuditCodec} `{Rfc3339}.

Definition redact1 (text : string) : string := (redact_text [] text).1.

Definition redact_event (e : AuditEvent) : AuditEvent :=
  mkAudit (ae_schema_version e) (recorded_at e) (ae_watcher_id e) (ae_kind e)
    (redact1 <$> ae_detector e) (redact1 <$> ae_evidence e) (ae_state e)
    (redact1 <$> ae_policy_decision e) (redact1 <$> ae_attempted_action e)
    (redact1 <$> ae_verification e) (redact1 (ae_message e)).

(** [parse_rfc3339]: a [SystemTime] of whole seconds, in nanoseconds. *)
Definition audit_time (value : string) : option Z :=
  match parse_from_rfc3339 value with
  | Some t => Some (Z.max (t / NANOS) 0 * NANOS)
  | None => None
  end.

(** [AuditLog::append]. *)
Definition append (opened : result string unit) (room : option nat) (e : AuditEvent) (f : LogFile)
    : LogFile * result string unit :=
  match encode_event (redact_event e) with
  | Err m => (f, Err m)
  | Ok l =>
      match opened with
      | Err m => (f, Err m)
      | Ok _ => let '(written, r) := write_all room (l ++ [10]) in (Some (default [] f ++ written), r)
      end
  end.

Definition blank (line : list Z) : bool := bool_decide (trim (decode_utf8 line) = []).

Definition event_of_line (line : list Z) : option AuditEvent :=
  if blank line then None else redact_event <$> decode_event line.

(** [reader.lines()]: a line that is not UTF-8 ends the reading with an error. *)
Definition read_all (f : LogFile) : result string (list AuditEvent) :=
  match f with
  | None => Ok []
  | Some l =>
      if forallb utf8_ok (str_lines l) then Ok (omap event_of_line (str_lines l))
      else Err "stream did not contain valid UTF-8"
  end.

(** ** Retention *)
Definition encoded_size (es : list AuditEvent) : Z :=
  foldr (λ e n, match encode_event e with Ok l => Z.of_nat (length l) + 1 | Err _ => 0 end + n) 0 es.

(** [while encoded_size(&kept) > max && !kept.is_empty() { kept.remove(0) }]. *)
Fixpoint drop_oldest (max : Z) (kept : list AuditEvent) : list AuditEvent :=
  match kept with
  | [] => []
  | e :: rest => if max <? encoded_size kept then drop_oldest max rest else kept
  end.

Definition recent (cutoff : Z) (e : AuditEvent) : bool :=
  match audit_time (recorded_at e) with Some stamp => cutoff <=? stamp | None => true end.

Definition retained (p : RetentionPolicy) (now : Z) (es : list AuditEvent) : list AuditEvent :=
  let cutoff_days := Z.max (rp_audit_days p) (rp_events_days p) in
  let cutoff := now - saturating_mul u64_max cutoff_days 86400 * NANOS in
  drop_oldest (rp_max_log_bytes p) (redact_event <$> List.filter (recent cutoff) es).

(** One line after the other into the truncated file. *)
Fixpoint rewrite_events (room : option nat) (es : list AuditEvent) (f : list Z)
    : list Z * result string unit :=
  match es with
  | [] => (f, Ok tt)
  | e :: es =>
      match encode_event e with
      | Err m => (f, Err m)
      | Ok l =>
          match write_all room (l ++ [10]) with
          | (written, Ok _) =>
              rewrite_events (match room with Some n => Some (n - length written)%nat | None => None end)
                es (f ++ written)
          | (written, Err m) => (f ++ written, Err m)
          end
      end
  end.

(** [AuditLog::apply_retention]; [clock] is the current time. *)
Definition apply_retention (p : RetentionPolicy) (now_text : string) (clock : Z)
    (opened : result string unit) (room : option nat) (f : LogFile) : LogFile * result string unit :=
  let now := default clock (audit_time now_text) in
  match read_all f with
  | Err m => (f, Err m)
  | Ok es =>
      match opened with
      | Err m => (f, Err m)
      | Ok _ => let '(l, r) := rewrite_events room (retained p now es) [] in (Some l, r)
      end
  end.

(** ** Reading *)
Definition for_watcher (id : option string) (e : AuditEvent) : bool :=
  match id with Some id => opt_str_eqb (ae_watcher_id e) (Some id) | None => true end.

Definition read_lines (id : option string) (max_lines : nat) (f : LogFile)
    : result string (list AuditEvent) :=
  let? es := read_all f in
  let es := List.filter (for_watcher id) es in
  Ok (redact_event <$> drop (length es - max_lines) es).

(** The events, and the offset to continue from. *)
Definition follow_from (offset : Z) (id : option string) (max_bytes : nat) (f : LogFile)
    : result string (list AuditEvent * Z) :=
  match f with
  | None => Err "No such file or directory"
  | Some l =>
      let start := Z.min offset (Z.of_nat (length l)) in
      let buf := take max_bytes (drop (Z.to_nat start) l) in
      let es := omap event_of_line (str_lines (from_utf8_lossy buf)) in
      Ok (List.filter (for_watcher id) es, start + Z.of_nat (length buf))
  end.

(** ** Decision chains *)
Definition chain_event (now_text : string) (c : DecisionChain) : AuditEvent :=
  mkAudit AUDIT_SCHEMA_VERSION now_text (Some (dc_watcher_id c)) "decision" (Some (dc_detector c))
    (Some (dc_evidence c)) (Some (dc_state c)) (Some (dc_policy_decision c))
    (Some (dc_attempted_action c)) (Some (dc_verification c)) "decision chain".

Definition append_decision (opened : result string unit) (room : option nat) (now_text : string)
    (c : DecisionChain) (f : LogFile) : LogFile * result string unit :=
  append opened room (chain_event now_text c) f.

Definition lifecycle_label (l : WatcherLifecycle) : string :=
  match l with
  | Lifecycle.Registered => "REGISTERED"
  | Lifecycle.Observing => "OBSERVING"
  | Lifecycle.Paused => "PAUSED"
  | Lifecycle.Recovering _ => "RECOVERING"
  | Lifecycle.Waiting _ _ => "WAITING"
  | Lifecycle.HumanRequired _ => "HUMAN_REQUIRED"
  | Lifecycle.TargetTerminated => "TARGET_TERMINATED"
  | Lifecycle.Stopped _ => "STOPPED"
  end.

Definition source_kind_label (k : SourceKind) : string :=
  match k with
  | Source.ScreenDetection => "screen_detection"
  | Source.StructuredLog => "structured_log"
  | Source.Hook => "hook"
  | Source.TypedApi => "typed_api"
  | Source.HerdrAgentState => "herdr_agent_state"
  | Source.ProcessMetadata => "process_metadata"
  | Source.Planner => "planner"
  | Source.Internal => "internal"
  end.

Definition decision_chain_from_watcher (w : WatcherState) (phase : DecisionPhase)
    (policy_decision attempted_action verification : string) : DecisionChain :=
  let event := last_observation w in
  mkChain (ws_id w)
    (to_ascii_lowercase (match event with Some e => source_debug (source_kind (source e)) | None => "none" end))
    (match event with
     | Some e => to_ascii_lowercase (category_debug (category e)) +:+ ":" +:+ evidence_fingerprint e
     | None => "none"
     end)
    (phase_debug phase +:+ ":" +:+ lifecycle_label (lifecycle w))
    policy_decision attempted_action verification.

Definition LIFECYCLE_MESSAGES : list string :=
  ["watcher registered"; "watcher already registered"; "watcher promoted"; "watcher resumed";
   "watcher paused"; "capacity wait scheduled"; "human handoff"; "watcher stopped";
   "target terminated"].

Definition lifecycle_event (now_text : string) (w : WatcherState) (message : string) : AuditEvent :=
  mkAudit AUDIT_SCHEMA_VERSION now_text (Some (ws_id w)) "lifecycle" None None
    (Some (to_ascii_lowercase (lifecycle_label (lifecycle w)))) None None None
    (if one_of LIFECYCLE_MESSAGES message then message else "watcher lifecycle changed").

Definition record_lifecycle (opened : result string unit) (room : option nat) (now_text : string)
    (w : WatcherState) (message : string) (f : LogFile) : LogFile * result string unit :=
  append opened room (lifecycle_event now_text w message) f.

Definition explain_decision (chains : list DecisionChain) (id : option string)
    : result string DecisionChain :=
  let selected :=
    match id with
    | Some id => head (List.filter (λ c, String.eqb (dc_watcher_id c) id) (reverse chains))
    | None => last chains
    end in
  ok_or selected "no watcher decision chain found in audit".

Definition chain_of_event (e : AuditEvent) : option DecisionChain :=
  if negb (String.eqb (ae_kind e) "decision") then None
  else
    id ← ae_watcher_id e;
    Some (mkChain id (default "unknown" (ae_detector e)) (default "none" (ae_evidence e))
            (default "unknown" (ae_state e)) (default "unknown" (ae_policy_decision e))
            (default "none" (ae_attempted_action e)) (default "none" (ae_verification e))).

Definition MAX_CHAIN_EVENTS : Z := 10000.

Definition load_decision_chains (f : LogFile) : result string (list DecisionChain) :=
  let? es := read_lines None (Z.to_nat MAX_CHAIN_EVENTS) f in Ok (omap chain_of_event es).
End Log.

(** ** Snapshots *)
Section Snapshots.
Context `{RegexCrate} `{AuditCodec} `{Rfc3339} `{SnapshotEncoder} `{Sha256Hex}.
Context (target_json : TargetIdentity → list Z) (snapshot_json : RedactedSnapshot → result string (list Z)).

Definition snapshot_observation (e : Event) : SnapshotObservation :=
  mkSnapObs (event_id e) (to_ascii_lowercase (category_debug (category e)))
    (source_kind_label (source_kind (source e))) (confidence e) (summary e) (observed_at e).

Fixpoint zeros (n : nat) : string := match n with O => "" | S n => "0" +:+ zeros n end.

Definition watcher_snapshot_input (now_text : string) (w : WatcherState) : SnapshotBuildInput :=
  let event := last_observation w in
  let '(mux_kind, pane_id, process) :=
    match target w with
    | TProcess p => ("process", "none", p)
    | TMultiplexer provider _ pane p _ _ _ _ => (provider, pane, p)
    end in
  mkSnapInput ("snap-" +:+ ws_id w) now_text (ws_id w) (lifecycle_label (lifecycle w))
    (match event with Some e => evidence_fingerprint e | None => zeros 64 end)
    mux_kind pane_id (pid process) (pretty (start_time process)) (sha256_hex (target_json (target w)))
    (event ≫= agent_id) (event ≫= provider_family) (default "unknown" (event ≫= provider_family))
    (summary <$> event)
    (match event with Some e => [snapshot_observation e] | None => [] end)
    ["WAIT_DURATION"; "CAPTURE"; "CHECK_STATUS"; "NOTIFY"; "NOOP"] 50000 [].

Definition watchme_display (e : WatchmeError) : string :=
  match e with
  | UnsupportedContext m => "unsupported context: " +:+ m
  | Configuration m => "configuration error: " +:+ m
  | TargetTerminated m => "target terminated: " +:+ m
  | RetryableIntegration m => "retryable integration failure: " +:+ m
  | PolicyDenied m => "policy denied: " +:+ m
  | HumanRequired m => "human action required: " +:+ m
  | CapabilityUnavailable m => "capability unavailable: " +:+ m
  end.

(** [None] is a panic. *)
Definition build_watcher_snapshot (now_text : string) (w : WatcherState)
    : option (result WatchmeError RedactedSnapshot) :=
  build_redacted_snapshot (watcher_snapshot_input now_text w).

(** The snapshot directory by file name, and what the system calls answered. *)
Abbreviation SnapshotDir := (gmap string (list Z)).
Record SnapshotIo : Type := mkSnapIo {
  io_mkdir : result string unit;
  io_room : option nat;
  io_rename : result string unit;
}.

Definition persist_watcher_snapshot (io : SnapshotIo) (now_text : string) (w : WatcherState) (d : SnapshotDir)
    : option (SnapshotDir * result string unit) :=
  match io_mkdir io with
  | Err m => Some (d, Err m)
  | Ok _ =>
      built ← build_watcher_snapshot now_text w;
      Some match built with
           | Err e => (d, Err (watchme_display e))
           | Ok s =>
               match snapshot_json s with
               | Err m => (d, Err m)
               | Ok encoded =>
                   let tmp := ws_id w +:+ ".json.tmp" in
                   let '(written, r) := write_all (io_room io) encoded in
                   let d := <[tmp := written]> d in
                   match r with
                   | Err m => (d, Err m)
                   | Ok _ =>
                       match io_rename io with
                       | Err m => (d, Err m)
                       | Ok _ => (<[ws_id w +:+ ".json" := written]> (delete tmp d), Ok tt)
                       end
                   end
               end
           end
  end.

(** [record_recovery_decision]: the log is written first, and stays written when the
    snapshot fails. *)
Definition record_recovery_decision (opened : result string unit) (room : option nat) (io : SnapshotIo)
    (now_text : string) (w : WatcherState) (phase : DecisionPhase)
    (policy_decision attempted_action verification : string) (f : LogFile) (d : SnapshotDir)
    : option (LogFile * SnapshotDir * result string unit) :=
  let chain := decision_chain_from_watcher w phase policy_decision attempted_action verification in
  match append_decision opened room now_text chain f with
  | (f, Err m) => Some (f, d, Err m)
  | (f, Ok _) => '(d, r) ← persist_watcher_snapshot io now_text w d; Some (f, d, r)
  end.
End Snapshots.

(** ** Lines *)
Lemma str_lines_records rs l :
  Forall (λ r, 10 ∉ r) rs → str_lines (records_bytes rs ++ l) = (strip_cr <$> rs) ++ str_lines l.
Proof.
  intros Hr. unfold str_lines. rewrite split_records, reverse_app by done.
  pose proof (split_on_nonempty 10 l) as Hne.
  destruct (reverse (split_on 10 l)) as [|final init] eqn:E.
  { apply (f_equal reverse) in E. rewrite reverse_involutive in E. done. }
  cbn [app]. rewrite reverse_app, reverse_involutive, fmap_app. by rewrite app_assoc.
Qed.

Lemma str_lines_all rs : Forall (λ r, 10 ∉ r) rs → str_lines (records_bytes rs) = strip_cr <$> rs.
Proof. intros Hr. rewrite <- (app_nil_r (records_bytes rs)), str_lines_records by done. apply app_nil_r. Qed.

Lemma strip_cr_none l : 13 ∉ l → strip_cr l = l.
Proof.
  intros Hn. unfold strip_cr. destruct (reverse l) as [|x r] eqn:E; [done|].
  assert (x ∈ l) as Hx by (apply elem_of_reverse; rewrite E; set_solver).
  destruct (Z.eq_dec x 13) as [->|]; [done|]. repeat (case_match; try done).
Qed.

Lemma str_lines_partial r : 10 ∉ r → str_lines r = if bool_decide (r = []) then [] else [r].
Proof. intros Hr. unfold str_lines. rewrite split_on_none by done. done. Qed.

(** What serde_json guarantees of a record: one line of text that decodes to it. *)
Class AuditCodecLaws `{AuditCodec} : Prop := {
  encode_decode e l : encode_event e = Ok l → decode_event l = Some e;
  encode_text e l : encode_event e = Ok l → Forall (λ b, 0 ≤ b) l ∧ utf8_ok l = true;
  encode_line e l : encode_event e = Ok l → (10 ∉ l) ∧ (13 ∉ l) ∧ blank l = false;
}.

Section AuditSafety.
Context `{RegexCrate} `{AuditCodec} `{!AuditCodecLaws} `{Rfc3339}.

(** A file that holds exactly these events. *)
Definition holds (es : list AuditEvent) (l : list Z) : Prop :=
  ∃ rs, Forall2 (λ e r, encode_event e = Ok r) es rs ∧ l = records_bytes rs.

Lemma encoded_records es rs :
  Forall2 (λ e r, encode_event e = Ok r) es rs →
  Forall (λ r, 10 ∉ r) rs ∧ (strip_cr <$> rs) = rs ∧ forallb utf8_ok rs = true
  ∧ omap event_of_line rs = (redact_event <$> es)
  ∧ Z.of_nat (length (records_bytes rs)) = encoded_size es.
Proof.
  induction 1 as [|e r es rs Hr _ (IH1 & IH2 & IH3 & IH4 & IH5)]; [done|].
  destruct (encode_line e r Hr) as (Hn & Hc & Hb). split; [by constructor|]. split.
  { csimpl. by rewrite IH2, strip_cr_none. }
  split; [cbn; by rewrite (proj2 (encode_text e r Hr))|]. split.
  - csimpl. unfold event_of_line at 1. rewrite Hb, (encode_decode e r Hr). cbn. by rewrite IH4.
  - rewrite records_bytes_cons, length_app. cbn [length encoded_size foldr]. rewrite Hr.
    fold (encoded_size es). lia.
Qed.

Lemma holds_read es l : holds es l → read_all (Some l) = Ok (redact_event <$> es).
Proof.
  intros (rs & (Hn & Hc & Hu & Ho & _)%encoded_records & ->). unfold read_all.
  by rewrite str_lines_all, Hc, Hu, Ho.
Qed.

Lemma holds_size es l : holds es l → Z.of_nat (length l) = encoded_size es.
Proof. intros (rs & (_ & _ & _ & _ & Hs)%encoded_records & ->). done. Qed.

Lemma holds_app es1 es2 l1 l2 : holds es1 l1 → holds es2 l2 → holds (es1 ++ es2) (l1 ++ l2).
Proof.
  intros (rs1 & H1' & ->) (rs2 & H2' & ->). exists (rs1 ++ rs2).
  split; [by apply Forall2_app|]. by rewrite records_bytes_app.
Qed.

Lemma rewrite_holds room es f f' :
  rewrite_events room es f = (f', Ok tt) → ∃ l, f' = f ++ l ∧ holds es l.
Proof.
  revert room f. induction es as [|e es IH]; intros room f; cbn [rewrite_events].
  - intros [= <-]. exists []. rewrite app_nil_r. split; [done|]. exists []. by split.
  - destruct (encode_event e) as [l|] eqn:Ee; [|done].
    destruct (write_all room (l ++ [10])) as [written [[]|]] eqn:Ew; [|done].
    assert (written = l ++ [10]) as ->.
    { unfold write_all in Ew. destruct room as [n|]; [|by injection Ew]. destruct (_ <=? _)%nat; [|done].
      by injection Ew. }
    intros (l' & -> & rs & Hrs & ->)%IH. exists (records_bytes (l :: rs)).
    split; [rewrite records_bytes_cons, <- !app_assoc; done|]. exists (l :: rs). split; [|done].
    by constructor.
Qed.

(** *** Retention *)
Lemma drop_oldest_spec max es :
  ∃ n, drop_oldest max es = drop n es ∧ (n ≤ length es)%nat
    ∧ (encoded_size (drop n es) ≤ max ∨ drop n es = [])
    ∧ ∀ m, (m < n)%nat → max < encoded_size (drop m es).
Proof.
  induction es as [|e es (n & IH1 & IH2 & IH3 & IH4)].
  - exists 0%nat. split; [done|]. split; [done|]. split; [by right|]. lia.
  - cbn [drop_oldest]. destruct (Z.ltb_spec max (encoded_size (e :: es))).
    + exists (S n). split; [done|]. split; [cbn; lia|]. split; [done|].
      intros [|m] Hm; [done|]. cbn [drop]. apply IH4. lia.
    + exists 0%nat. split; [done|]. split; [lia|]. split; [by left|]. lia.
Qed.

(** C20: Retention leaves a log within its limits and drops only what it must.  When it
    succeeds the file consists of whole redacted events, at most [max_log_bytes] of them
    in bytes; they are the newest of the events that are recent or carry no readable date,
    and keeping one event more would have exceeded the limit. *)
Theorem retention_bounded p now_text clock opened room f f' :
  0 ≤ rp_max_log_bytes p →
  apply_retention p now_text clock opened room f = (f', Ok tt) →
  ∃ es l n,
    let cutoff := default clock (audit_time now_text)
                  - saturating_mul u64_max (Z.max (rp_audit_days p) (rp_events_days p)) 86400 * NANOS in
    let candidates := redact_event <$> List.filter (recent cutoff) es in
    read_all f = Ok es ∧ f' = Some l ∧ holds (drop n candidates) l
    ∧ Z.of_nat (length l) ≤ rp_max_log_bytes p
    ∧ ∀ m, (m < n)%nat → rp_max_log_bytes p < encoded_size (drop m candidates).
Proof.
  intros Hmax. unfold apply_retention. destruct (read_all f) as [es|] eqn:Er; [|done].
  destruct opened as [[]|]; [|done].
  destruct (rewrite_events room _ []) as [l r] eqn:Ew. intros [= <- ->].
  apply rewrite_holds in Ew as (l' & -> & Hl). unfold retained in Hl.
  destruct (drop_oldest_spec (rp_max_log_bytes p)
    (redact_event <$> List.filter (recent (default clock (audit_time now_text)
       - saturating_mul u64_max (Z.max (rp_audit_days p) (rp_events_days p)) 86400 * NANOS)) es))
    as (n & Hd & _ & Hfit & Hmin).
  exists es, l', n. cbn zeta. split; [done|]. split; [done|]. rewrite Hd in Hl. split; [done|].
  split; [|done]. rewrite (holds_size _ _ Hl). destruct Hfit as [?|Hnil]; [done|]. by rewrite Hnil.
Qed.

(** *** Appending and following *)
Lemma append_holds opened room e f f' :
  append opened room e f = (f', Ok tt) → ∃ l, f' = Some (default [] f ++ l) ∧ holds [redact_event e] l.
Proof.
  unfold append. destruct (encode_event (redact_event e)) as [l|] eqn:Ee; [|done].
  destruct opened; [|done]. destruct (write_all room (l ++ [10])) as [written r] eqn:Ew. intros [= <- ->].
  exists (l ++ [10]). split.
  - unfold write_all in Ew. destruct room as [n|]; [|by injection Ew as <-].
    destruct (_ <=? _)%nat; [|done]. by injection Ew as <-.
  - exists [l]. split; [by repeat constructor|]. unfold records_bytes. cbn. by rewrite app_nil_r.
Qed.

Lemma holds_is_text es l : holds es l → is_text l.
Proof.
  intros (rs & Hrs & ->). induction Hrs as [|e r es rs Hr _ IH]; [by exists []|].
  rewrite records_bytes_cons. change (r ++ 10 :: records_bytes rs) with (r ++ [10] ++ records_bytes rs).
  destruct (encode_text e r Hr) as [Hpos Hok].
  repeat apply text_app; [by apply text_of_ok|apply text_ascii; constructor; [lia|constructor]|done].
Qed.

Lemma holds_lines es l t :
  holds es l → omap event_of_line (str_lines (l ++ t)) = (redact_event <$> es) ++ omap event_of_line (str_lines t).
Proof.
  intros (rs & (Hn & Hc & _ & Ho & _)%encoded_records & ->).
  rewrite str_lines_records, Hc, omap_app, Ho by done. done.
Qed.

(** The events of a buffer of text that the file holds from an offset on. *)
Lemma follow_text pre buf post id max_bytes :
  is_text buf → (length buf = max_bytes ∨ (length buf ≤ max_bytes)%nat ∧ post = []) →
  follow_from (Z.of_nat (length pre)) id max_bytes (Some (pre ++ buf ++ post))
  = Ok (List.filter (for_watcher id) (omap event_of_line (str_lines buf)),
        Z.of_nat (length pre + length buf)).
Proof.
  intros Hb Hm. unfold follow_from. rewrite length_app. cbn zeta.
  rewrite Z.min_l, Nat2Z.id, drop_app_length by lia.
  assert (take max_bytes (buf ++ post) = buf) as ->.
  { destruct Hm as [<-|[Hm ->]]; [apply take_app_length|]. rewrite app_nil_r. by apply take_ge. }
  rewrite text_lossy by done. f_equal. f_equal. lia.
Qed.

(** Following the log is incremental and exact when the backlog fits.  Of a file that
    holds some events and then others, following from the end of the first with a limit
    that covers the second returns exactly the second events, redacted and filtered by
    watcher, and the offset of the new end of the file. *)
Theorem follow_incremental es1 es2 l1 l2 id max_bytes :
  holds es1 l1 → holds es2 l2 → (length l2 ≤ max_bytes)%nat →
  follow_from (Z.of_nat (length l1)) id max_bytes (Some (l1 ++ l2))
  = Ok (List.filter (for_watcher id) (redact_event <$> es2), Z.of_nat (length (l1 ++ l2))).
Proof.
  intros Hl1 Hl2 Hm. rewrite <- (app_nil_r l2) at 1.
  rewrite follow_text by (eauto using holds_is_text). rewrite <- (app_nil_r l2) at 1.
  by rewrite (holds_lines es2), length_app, app_nil_r.
Qed.

(** A record none of whose proper parts is itself a record. *)
Definition atomic_record (r : list Z) : Prop :=
  Forall (λ b, 0 ≤ b < 128) r ∧ (10 ∉ r) ∧ (13 ∉ r)
  ∧ ∀ k, (0 < k < length r)%nat → decode_event (take k r) = None ∧ decode_event (drop k r) = None.

Lemma event_of_part r k t :
  atomic_record r → (0 < k < length r)%nat →
  omap event_of_line (str_lines (take k r)) = []
  ∧ omap event_of_line (str_lines (drop k r ++ [10] ++ t)) = omap event_of_line (str_lines t).
Proof.
  intros (_ & Hn & Hc & Hk) Hb. destruct (Hk k Hb) as [Ht Hd].
  rewrite <- (take_drop k r) in Hn, Hc. split.
  - rewrite str_lines_partial by set_solver. destruct (bool_decide _); [done|]. csimpl.
    unfold event_of_line. rewrite Ht. by destruct (blank _).
  - assert (drop k r ++ [10] ++ t = records_bytes [drop k r] ++ t) as ->
      by (by rewrite records_bytes_cons, <- app_assoc).
    rewrite str_lines_records by (repeat constructor; set_solver). csimpl.
    rewrite strip_cr_none by set_solver. unfold event_of_line at 1. rewrite Hd. by destruct (blank _).
Qed.

(** What following does to a record at the limit: it loses it.  When the limit falls
    inside a record, the records before it are returned, the offset moves into the middle
    of it, and the next call sees its tail, which is no record, and the records after it;
    neither call returns it. *)
Theorem follow_drops_straddling_record es1 es2 l1 l2 r k :
  holds es1 l1 → holds es2 l2 → atomic_record r → (0 < k < length r)%nat →
  (length r + length l2 < length l1 + 2 * k)%nat →
  let max_bytes := (length l1 + k)%nat in
  let file := Some (l1 ++ (r ++ [10]) ++ l2) in
  follow_from 0 None max_bytes file = Ok (redact_event <$> es1, Z.of_nat max_bytes)
  ∧ follow_from (Z.of_nat max_bytes) None max_bytes file
    = Ok (redact_event <$> es2, Z.of_nat (length (l1 ++ (r ++ [10]) ++ l2))).
Proof.
  intros Hl1 Hl2 Hr Hk Hfit max_bytes file.
  assert (∀ es, List.filter (for_watcher None) es = es) as Hall.
  { induction es as [|e es IH]; [done|]. cbn. by rewrite IH. }
  assert (is_text (take k r) ∧ is_text (drop k r)) as [Htt Htd].
  { destruct Hr as (Hascii & _). rewrite <- (take_drop k r) in Hascii.
    apply Forall_app in Hascii as [??]. by split; apply text_ascii. }
  assert (l1 ++ (r ++ [10]) ++ l2 = (l1 ++ take k r) ++ drop k r ++ [10] ++ l2) as Hfile
    by (rewrite <- (take_drop k r) at 1; by rewrite <- !app_assoc).
  assert (length (l1 ++ take k r) = max_bytes) as Hlen by (rewrite length_app, length_take; lia).
  unfold file. rewrite Hfile. split.
  - assert (is_text (l1 ++ take k r)) as Ht by (apply text_app; [by eapply holds_is_text|done]).
    etransitivity; [exact (follow_text [] (l1 ++ take k r) (drop k r ++ [10] ++ l2) None max_bytes Ht
                             (or_introl Hlen))|]. cbn [length Nat.add].
    rewrite Hall, (holds_lines es1), (proj1 (event_of_part r k [] Hr Hk)), app_nil_r by done.
    by rewrite Hlen.
  - rewrite <- Hlen at 1. rewrite <- (app_nil_r (drop k r ++ [10] ++ l2)) at 1.
    rewrite follow_text.
    + rewrite Hall, (proj2 (event_of_part r k l2 Hr Hk)). rewrite <- (app_nil_r l2) at 1.
      rewrite (holds_lines es2), app_nil_r by done. by rewrite <- length_app.
    + repeat apply text_app; [done|apply text_ascii; constructor; [lia|constructor]|by eapply holds_is_text].
    + right. split; [|done]. rewrite !length_app, length_drop. cbn [length]. lia.
Qed.

(** *** Explaining *)
Lemma explain_spec chains id c :
  explain_decision chains (Some id) = Ok c ↔
    ∃ l1 l2, chains = l1 ++ c :: l2 ∧ dc_watcher_id c = id ∧ Forall (λ d, dc_watcher_id d ≠ id) l2.
Proof.
  unfold explain_decision. induction chains as [|d chains IH] using rev_ind.
  { split; [done|]. intros ([] & ? & ? & _); done. }
  rewrite reverse_snoc. cbn [List.filter]. destruct (String.eqb_spec (dc_watcher_id d) id) as [Hd|Hd].
  - cbn [head ok_or]. split.
    + intros [= ->]. exists chains, []. split; [done|]. split; [done|constructor].
    + intros (l1 & l2 & He & Hc & Hl2). destruct l2 as [|d' l2 _] using rev_ind.
      * apply app_inj_tail in He as [_ ->]. done.
      * rewrite app_comm_cons, app_assoc in He. apply app_inj_tail in He as [_ ->].
        apply Forall_app in Hl2 as [_ Hl2]. by apply Forall_cons in Hl2 as [? _].
  - rewrite IH. split.
    + intros (l1 & l2 & -> & Hc & Hl2). exists l1, (l2 ++ [d]). rewrite <- app_assoc.
      split; [done|]. split; [done|]. apply Forall_app; split; [done|]. by repeat constructor.
    + intros (l1 & l2 & He & Hc & Hl2). destruct l2 as [|d' l2 _] using rev_ind.
      * apply app_inj_tail in He as [_ ->]. done.
      * rewrite app_comm_cons, app_assoc in He. apply app_inj_tail in He as [-> ->].
        exists l1, l2. apply Forall_app in Hl2 as [Hl2 _]. done.
Qed.

(** A recorded decision is the one that is explained.  When a decision has been appended
    to a log that holds events, fewer than the reader's limit, explaining its watcher
    returns that decision: the watcher, the phase and the state as recorded, the texts
    redacted when written, when loaded and when listed. *)
Theorem recorded_decision_explained opened room now_text c es l f' :
  holds es l → Z.of_nat (length es) < MAX_CHAIN_EVENTS →
  append_decision opened room now_text c (Some l) = (f', Ok tt) →
  let shown := redact1 ∘ redact1 ∘ redact1 in
  (let? chains := load_decision_chains f' in explain_decision chains (Some (dc_watcher_id c)))
  = Ok (mkChain (dc_watcher_id c) (shown (dc_detector c)) (shown (dc_evidence c)) (dc_state c)
          (shown (dc_policy_decision c)) (shown (dc_attempted_action c)) (shown (dc_verification c))).
Proof.
  intros Hl Hlen (l' & -> & Hl')%append_holds shown. cbn [default from_option id].
  pose proof (holds_read _ _ (holds_app _ _ _ _ Hl Hl')) as Hr.
  unfold load_decision_chains, read_lines. rewrite Hr. cbn [rbind].
  assert (∀ es, List.filter (for_watcher None) es = es) as Hall.
  { induction es0 as [|e es0 IH]; [done|]. cbn. by rewrite IH. }
  rewrite Hall. unfold MAX_CHAIN_EVENTS in *. rewrite length_fmap, length_app. cbn [length].
  replace (length es + 1 - Z.to_nat 10000)%nat with 0%nat by lia. rewrite drop_0.
  rewrite !fmap_app, omap_app. cbn. apply (proj2 (explain_spec _ _ _)).
  eexists _, []. split; [reflexivity|]. split; [done|constructor].
Qed.
End AuditSafety.

(** ** A log of two events *)
Definition demo_event (text : string) : AuditEvent :=
  mkAudit "1.0" text (Some "w") "decision" None None None None None None "m".
Definition demo_chain : DecisionChain := mkChain "w" "hook" "x:f" "PolicyAllow:OBSERVING" "allow" "NOOP" "ok".
Definition demo_log_events : list AuditEvent :=
  [demo_event "a"; demo_event "b"; chain_event "now" demo_chain].

#[local] Instance demo_codec : AuditCodec := {
  encode_event e :=
    if decide (e = demo_event "a") then Ok [123; 97; 125]
    else if decide (e = demo_event "b") then Ok [123; 98; 125]
    else if decide (e = chain_event "now" demo_chain) then Ok [123; 99; 125] else Err "unknown";
  decode_event l :=
    if decide (l = [123; 97; 125]) then Some (demo_event "a")
    else if decide (l = [123; 98; 125]) then Some (demo_event "b")
    else if decide (l = [123; 99; 125]) then Some (chain_event "now" demo_chain) else None }.

Lemma demo_encoded e l :
  encode_event e = Ok l →
  (e = demo_event "a" ∧ l = [123; 97; 125]) ∨ (e = demo_event "b" ∧ l = [123; 98; 125])
  ∨ (e = chain_event "now" demo_chain ∧ l = [123; 99; 125]).
Proof.
  unfold encode_event, demo_codec.
  destruct (decide (e = demo_event "a")); [intros [= <-]; by left|].
  destruct (decide (e = demo_event "b")); [intros [= <-]; by right; left|].
  destruct (decide (e = chain_event "now" demo_chain)); [intros [= <-]; by right; right|done].
Qed.

#[local] Instance demo_codec_laws : AuditCodecLaws.
Proof.
  split; intros e l He; destruct (demo_encoded e l He) as [[-> ->]|[[-> ->]|[-> ->]]];
    first [reflexivity | split; [repeat constructor; lia|reflexivity]
          | split; [|split]; [apply (bool_decide_unpack _); by vm_compute..|reflexivity]].
Qed.

#[local] Instance demo_regex : RegexCrate := {
  re_count _ _ := 0%nat; re_replace_all _ text _ := text; re_segments _ text := [(false, text)];
  re_escape s := s }.
#[local] Instance demo_rfc : Rfc3339 := λ _, None.

Lemma demo_holds e l : encode_event e = Ok l → holds [e] (records_bytes [l]).
Proof. intros He. exists [l]. split; [by repeat constructor|done]. Qed.

Lemma retention_bounded_witness :
  let file := records_bytes [[123; 97; 125]; [123; 98; 125]] in
  apply_retention (mkPolicy 14 30 5) "x" 0 (Ok tt) None (Some file)
  = (Some (records_bytes [[123; 98; 125]]), Ok tt)
  ∧ ∃ es l, read_all (Some file) = Ok es ∧ Some (records_bytes [[123; 98; 125]]) = Some l
      ∧ Z.of_nat (length l) ≤ 5.
Proof.
  intros file.
  assert (apply_retention (mkPolicy 14 30 5) "x" 0 (Ok tt) None (Some file)
          = (Some (records_bytes [[123; 98; 125]]), Ok tt)) as E by (vm_compute; reflexivity).
  split; [exact E|].
  destruct (retention_bounded (mkPolicy 14 30 5) "x" 0 (Ok tt) None (Some file) _ ltac:(cbn; lia) E)
    as (es & l & n & Hr & Hf & _ & Hlen & _).
  exists es, l. split; [exact Hr|]. split; [exact Hf|exact Hlen].
Defined.

Lemma follow_incremental_witness :
  follow_from 4 (Some "w") 64 (Some (records_bytes [[123; 97; 125]] ++ records_bytes [[123; 98; 125]]))
  = Ok ([demo_event "b"], 8).
Proof.
  exact (follow_incremental [demo_event "a"] [demo_event "b"] (records_bytes [[123; 97; 125]])
           (records_bytes [[123; 98; 125]]) (Some "w") 64
           (demo_holds (demo_event "a") [123; 97; 125] eq_refl)
           (demo_holds (demo_event "b") [123; 98; 125] eq_refl) ltac:(cbn; lia)).
Defined.

Lemma demo_holds_nil : holds [] [].
Proof. exists []. split; [constructor|reflexivity]. Qed.

Lemma demo_atomic : atomic_record [123; 98; 125].
Proof.
  split; [repeat constructor; lia|]. split; [apply (bool_decide_unpack _); by vm_compute|].
  split; [apply (bool_decide_unpack _); by vm_compute|]. intros k Hk. cbn in Hk.
  by assert (k = 1 ∨ k = 2)%nat as [->| ->] by lia.
Qed.

Lemma follow_drops_straddling_record_witness :
  let file := Some (records_bytes [[123; 97; 125]] ++ ([123; 98; 125] ++ [10]) ++ []) in
  follow_from 0 None 6 file = Ok ([demo_event "a"], 6)
  ∧ follow_from 6 None 6 file = Ok ([], 8).
Proof.
  exact (follow_drops_straddling_record [demo_event "a"] [] (records_bytes [[123; 97; 125]]) []
           [123; 98; 125] 2 (demo_holds (demo_event "a") [123; 97; 125] eq_refl)
           demo_holds_nil demo_atomic ltac:(cbn; lia) ltac:(cbn; lia)).
Defined.

Lemma recorded_decision_explained_witness :
  let file := records_bytes [[123; 97; 125]] in
  let f' := Some (file ++ records_bytes [[123; 99; 125]]) in
  (let? chains := load_decision_chains f' in explain_decision chains (Some "w")) = Ok demo_chain.
Proof.
  intros file f'.
  exact (recorded_decision_explained (Ok tt) None "now" demo_chain [demo_event "a"] file f'
           (demo_holds (demo_event "a") [123; 97; 125] eq_refl) ltac:(vm_compute; reflexivity)
           ltac:(vm_compute; reflexivity)).
Defined.
