(* ===== verification/ComposerText.v ===== *)
(** * The composer of Codex (src/src/daemon/codex_composer.rs)

    What the recent text of a Codex pane says about its composer: empty, in use, or not
    to be seen.  The text is a list of code points. *)
From S2P Require Import Prelude Text Screen Runtime Claude.

Local Open Scope Z_scope.

(** The prompt marker, U+203A, and the separator of the footer, a middle dot in spaces. *)
Definition PROMPT : Z := 8250.
Definition SEPARATOR : list Z := [32; 183; 32].

Definition EMPTY_PLACEHOLDERS : list string :=
  ["Explain this codebase"; "Summarize recent commits"; "Implement {feature}";
   "Find and fix a bug in @filename"; "Write tests for @filename";
   "Improve documentation in @filename"; "Run /review on my current changes";
   "Use /skills to list available skills"; "Check recently modified functions for compatibility";
   "How many files have been modified?"; "Will this algorithm scale well?"].

(** [Iterator::rposition]. *)
Fixpoint rposition {A} (p : A → bool) (l : list A) : option nat :=
  match l with
  | [] => None
  | x :: l =>
      match rposition p l with
      | Some n => Some (S n)
      | None => if p x then Some O else None
      end
  end.

(** [str::matches(..).count()]: the occurrences that do not overlap, [skip] characters
    after the start of the text. *)
Fixpoint count_matches (needle : list Z) (skip : nat) (l : list Z) : nat :=
  match l with
  | [] => O
  | _ :: rest =>
      match skip with
      | S k => count_matches needle k rest
      | O => if prefix_of needle l then S (count_matches needle (length needle - 1) rest)
             else count_matches needle O rest
      end
  end.

Definition blank_line (l : list Z) : bool := match trim l with [] => true | _ => false end.

Definition shows_prompt (l : list Z) : bool := prefix_of [PROMPT] (trim_start l).

(** What the prompt line holds behind the marker. *)
Definition prompt_text (l : list Z) : list Z := trim (drop 1 (trim_start l)).

Definition looks_like_codex_footer (footer : list Z) : bool :=
  (2 <=? count_matches SEPARATOR 0 footer)%nat
  && contains_any footer ["Context "; "Goal blocked"; "Pursuing goal"].

Definition empty_prompt (prompt : list Z) : bool :=
  match prompt with [] => true | _ => existsb (λ p, bool_decide (chars p = prompt)) EMPTY_PLACEHOLDERS end.

Definition state_from_recent (text : list Z) : ComposerState :=
  let lines := str_lines text in
  match rposition shows_prompt lines with
  | None => Composer.Unknown
  | Some prompt_index =>
      let prompt := prompt_text (default [] (lines !! prompt_index)) in
      let after := drop (S prompt_index) lines in
      match rposition (λ l, negb (blank_line l)) after with
      | None => Composer.Unknown
      | Some footer_index =>
          let footer := trim (default [] (after !! footer_index)) in
          let has_only_spacing_before_footer := forallb blank_line (take footer_index after) in
          if negb has_only_spacing_before_footer || negb (looks_like_codex_footer footer)
          then Composer.Unsafe
          else if empty_prompt prompt then Composer.Safe else Composer.Unsafe
      end
  end.

(** ** The last element that satisfies a test *)
Lemma rposition_none {A} (p : A → bool) l : rposition p l = None ↔ Forall (λ x, p x = false) l.
Proof.
  induction l as [|x l IH]; cbn; [split; [constructor|done]|]. rewrite Forall_cons, <- IH.
  destruct (rposition p l); [naive_solver|]. destruct (p x); naive_solver.
Qed.

Lemma rposition_some {A} (p : A → bool) l n :
  rposition p l = Some n ↔
  ∃ above x below, l = above ++ x :: below ∧ length above = n ∧ p x = true
    ∧ Forall (λ y, p y = false) below.
Proof.
  revert n. induction l as [|x l IH]; intros n; cbn.
  { split; [done|]. by intros ([] & y & b & ? & _). }
  destruct (rposition p l) as [m|] eqn:E.
  - split.
    + intros [= <-]. destruct (proj1 (IH m) eq_refl) as (a & y & b & -> & <- & ?).
      by exists (x :: a), y, b.
    + intros ([|z a] & y & b & Heq & <- & Hp & Hb); simplify_eq/=.
      * apply rposition_none in Hb. congruence.
      * f_equal. enough (Some m = Some (length a)) by congruence. apply IH. eauto 10.
  - apply rposition_none in E. split.
    + destruct (p x) eqn:Ex; [|done]. intros [= <-]. by exists [], x, l.
    + intros ([|z a] & y & b & Heq & <- & Hp & Hb); simplify_eq/=; [by rewrite Hp|].
      apply Forall_app in E as [_ [Hy _]%Forall_cons]. congruence.
Qed.

(** ** What a verdict says of the text *)

(** The region of the composer: the prompt line, what follows it up to the footer, the
    footer, and blank lines below it; no other prompt follows. *)
Definition composer_region (text prompt : list Z) (gap : list (list Z)) (footer : list Z) : Prop :=
  ∃ above below, str_lines text = above ++ prompt :: gap ++ footer :: below
    ∧ shows_prompt prompt = true
    ∧ Forall (λ l, shows_prompt l = false) (gap ++ footer :: below)
    ∧ blank_line footer = false ∧ Forall (λ l, blank_line l = true) below.

Lemma composer_region_rposition text prompt gap footer :
  composer_region text prompt gap footer ↔
  ∃ i j, rposition shows_prompt (str_lines text) = Some i
    ∧ rposition (λ l, negb (blank_line l)) (drop (S i) (str_lines text)) = Some j
    ∧ str_lines text !! i = Some prompt
    ∧ drop (S i) (str_lines text) !! j = Some footer
    ∧ gap = take j (drop (S i) (str_lines text)).
Proof.
  split.
  - intros (above & below & E & Hp & Hnp & Hf & Hb). rewrite E. exists (length above), (length gap).
    assert (drop (S (length above)) (above ++ prompt :: gap ++ footer :: below) = gap ++ footer :: below)
      as Hd by (rewrite (cons_middle prompt), app_assoc; apply drop_app_length'; rewrite length_app; cbn; lia).
    rewrite Hd. split; [apply rposition_some; eauto 10|]. split.
    { apply rposition_some. exists gap, footer, below. rewrite Hf. split; [done|]. split; [done|].
      split; [done|]. eapply Forall_impl; [exact Hb|]. by intros ? ->. }
    rewrite !list_lookup_middle by done. split; [done|]. split; [done|]. by rewrite take_app_length.
  - intros (i & j & Hi & Hj & Hp & Hf & ->).
    apply rposition_some in Hi as (above & p & after & E & <- & Hsp & Hna). rewrite E in *.
    assert (drop (S (length above)) (above ++ p :: after) = after) as Hd
      by (rewrite (cons_middle p), app_assoc; apply drop_app_length'; rewrite length_app; cbn; lia).
    rewrite Hd in *. rewrite list_lookup_middle in Hp by done. simplify_eq.
    apply rposition_some in Hj as (gap & f & below & -> & <- & Hnb & Hb).
    rewrite list_lookup_middle in Hf by done. simplify_eq. rewrite take_app_length.
    exists above, below. split; [done|]. split; [done|]. split; [done|].
    split; [by destruct (blank_line footer)|]. eapply Forall_impl; [exact Hb|]. cbn. intros l. by destruct (blank_line l).
Qed.

(** The verdict of the composer reader, for every text: safe exactly when the last
    prompt line holds nothing or a known placeholder and is followed, apart from spacing,
    by one line that has the form of the status footer; unknown exactly when there is no
    prompt or nothing below it; and unsafe in every other case. *)
Theorem composer_verdict_exact (text : list Z) :
  (state_from_recent text = Composer.Safe ↔
     ∃ prompt gap footer, composer_region text prompt gap footer
       ∧ Forall (λ l, blank_line l = true) gap ∧ looks_like_codex_footer (trim footer) = true
       ∧ empty_prompt (prompt_text prompt) = true)
  ∧ (state_from_recent text = Composer.Unknown ↔ ¬ ∃ prompt gap footer, composer_region text prompt gap footer)
  ∧ state_from_recent text ≠ Composer.Stale.
Proof.
  setoid_rewrite composer_region_rposition. unfold state_from_recent.
  destruct (rposition shows_prompt (str_lines text)) as [i|] eqn:Ei;
    [|split; [|split]; [split; [done|by intros (?&?&?&(?&?&?&_)&_)]|split; [by intros _ (?&?&?&?&?&?&_)|done]|done]].
  destruct (rposition _ (drop (S i) _)) as [j|] eqn:Ej;
    [|split; [|split]; [split; [done|]; intros (?&?&?&(i'&j'&Hi&Hj&_)&_); congruence
                       |split; [|done]; intros _ (?&?&?&i'&j'&Hi&Hj&_); congruence|done]].
  pose proof (proj1 (rposition_some _ _ _) Ei) as (above & p & after & E & <- & _).
  pose proof (proj1 (rposition_some _ _ _) Ej) as (gap & f & below & Ed & <- & _).
  rewrite Ed, E, !list_lookup_middle, take_app_length by done. cbn [default from_option id].
  assert (∃ prompt gap' footer i' j', Some (length above) = Some i' ∧
    rposition (λ l, negb (blank_line l)) (drop (S i') (above ++ p :: after)) = Some j'
    ∧ (above ++ p :: after) !! i' = Some prompt ∧ drop (S i') (above ++ p :: after) !! j' = Some footer
    ∧ gap' = take j' (drop (S i') (above ++ p :: after))) as Hex.
  { exists p, gap, f, (length above), (length gap). rewrite <- E, Ej, Ed, E, !list_lookup_middle, take_app_length by done.
    done. }
  split; [|split]; [|split; [|by intros Hn; destruct (Hn Hex)]|];
    [|repeat case_bool; done|repeat case_bool; done].
  split.
  - intros Hs. exists p, gap, f. split.
    { exists (length above), (length gap). rewrite <- E, Ej, Ed, E, !list_lookup_middle, take_app_length by done. done. }
    case_bool_in Hs; [done|]. case_bool_in Hs; [|done]. inv_watch.
    split; [|done]. apply Forall_forall. intros l Hl. auto.
  - intros (q & g & f' & (i' & j' & [= <-] & Hj & Hp & Hf & ->) & Hg & Hl & He).
    rewrite <- E, Ej in Hj. rewrite <- E, Ed in Hf. rewrite <- E, Ed in Hg. injection Hj as <-.
    rewrite list_lookup_middle in Hp, Hf by done. rewrite take_app_length in Hg.
    injection Hp as <-. injection Hf as <-. unfold id. rewrite Hl, He.
    replace (forallb blank_line gap) with true; [done|].
    symmetry. apply forallb_forall. intros l Hin. rewrite Forall_forall in Hg. apply Hg. by apply list_elem_of_In.
Qed.

(** A prompt with a placeholder above a footer, and one with a draft. *)
Definition demo_footer : list Z := chars "  gpt high " ++ [183] ++ chars " ~/src " ++ [183] ++ chars " Context 29% used".
Definition demo_composer (draft : string) : list Z :=
  chars "Goal blocked" ++ [10; PROMPT; 32] ++ chars draft ++ [10; 10] ++ demo_footer ++ [10].

Example composer_placeholder_safe : state_from_recent (demo_composer "Implement {feature}") = Composer.Safe.
Proof. vm_compute. reflexivity. Qed.
Example composer_draft_unsafe : state_from_recent (demo_composer "keep my draft") = Composer.Unsafe.
Proof. vm_compute. reflexivity. Qed.
