(* ===== verification/Target.v ===== *)
(** * The watched target (the target functions of src/src/daemon/mod.rs and
      src/src/daemon/recovery_runtime.rs)

    What the recovery runtime asks of a target, on the tmux and Herdr drivers: to
    validate it, to capture it, to look at its composer, to execute an action on it and
    to prove progress after an input.  The composer guard of a driver is itself a capture
    with a driver, so the drivers are linked: a program over one set of calls is
    interpreted in a program over another. *)
From S2P Require Import Prelude Text Utf8 Json Serde Action Event Identity StateMachine State Policy.
From S2P Require Import Screen Process Actuator Effects Registry Runtime Observe ResetTime Mux Tmux Herdr.
From S2P Require Import HerdrNative HerdrSafety Hooks Claude Codex ComposerText.
From stdpp Require Import pretty.

Local Open Scope Z_scope.

(** ** Linking *)
Section Link.
Context {Op Op' : Type} {An : Op → Type} {An' : Op' → Type} (h : ∀ o, Prog An' (An o)).

Fixpoint interp {A} (p : Prog An A) : Prog An' A :=
  match p with
  | Ret a => Ret a
  | Vis o k => bind (h o) (λ x, interp (k x))
  end.

(** [expands tr tr']: the conversation [tr], with each call replaced by the conversation
    of its implementation. *)
Fixpoint expands (tr : list (Ev An)) (tr' : list (Ev An')) : Prop :=
  match tr with
  | [] => tr' = []
  | existT o x :: tr => ∃ seg rest, tr' = seg ++ rest ∧ traces (h o) seg x ∧ expands tr rest
  end.

Definition link_mux (m : Multiplexer An) : Multiplexer An' :=
  mkMultiplexer (interp (mx_current_target m)) (λ i, interp (mx_pane_info m i))
    (λ i, interp (mx_validate m i)) (λ i n b, interp (mx_capture_tail m i n b))
    (λ i t, interp (mx_send_literal m i t)) (λ i t, interp (mx_submit_literal m i t))
    (λ i k, interp (mx_send_key m i k)).
End Link.

(** ** Calls *)
Inductive TgtOp : Type :=
| GTmux (o : TmuxOp)
| GHerdr (o : HerdrOp)
| GCodex (w : WatcherState)
| GNow.

Definition TgtAns (o : TgtOp) : Type :=
  match o with
  | GTmux o => TmuxAns o
  | GHerdr o => HerdrAns o
  | GCodex _ => CodexFacts
  | GNow => string
  end.

Abbreviation TgtProg := (Prog TgtAns).
Definition gcall (o : TgtOp) : TgtProg (TgtAns o) := call o.

Definition on_tmux {A} (p : TmuxProg A) : TgtProg A := interp (λ o, gcall (GTmux o)) p.
Definition on_herdr {A} (p : HerdrProg A) : TgtProg A := interp (λ o, gcall (GHerdr o)) p.

Definition boundary_of (c : TmuxChrome) : TrustedScreenBoundary :=
  mkBoundary (Identity.adapter c) (chrome_version c) (Identity.first_live_line c).

Definition TWO_SECONDS : Z := from_secs 2.

Section Target.
Context `{HerdrJson} `{DebugText} `{DebugId} `{DebugIdentity} (env : HerdrEnv).

(** The driver of a target's context. *)
Definition stored_context (socket workspace tab pane : string) (p : HerdrWireProtocol) : HerdrContext :=
  mkHerdrContext socket workspace tab pane p.

Definition missing_context : MuxError := MuxErr.IdentityChanged "missing concrete multiplexer context".

Definition validate_mux_target (w : WatcherState) (i : MuxIdentity) : TgtProg (result MuxError unit) :=
  match observation_context (target w) with
  | Some (CtxTmux socket_path _ _ _ _ _) =>
      on_tmux (Tmux.validate_identity (for_socket_path socket_path TWO_SECONDS) i)
  | Some (CtxHerdr socket_path _ workspace_id tab_id pane_id _ protocol) =>
      on_herdr (try! hd := herdr_new env (stored_context socket_path workspace_id tab_id pane_id protocol)
                             TWO_SECONDS in
                herdr_validate_identity env hd i)
  | None => Ret (Err missing_context)
  end.

Definition capture_mux_target (w : WatcherState) (i : MuxIdentity) (lines bytes : Z)
    : TgtProg (result MuxError PaneCapture) :=
  match observation_context (target w) with
  | Some (CtxTmux socket_path _ _ _ _ _) =>
      on_tmux (Tmux.capture_tail (for_socket_path socket_path TWO_SECONDS) i lines bytes)
  | Some (CtxHerdr socket_path _ workspace_id tab_id pane_id _ protocol) =>
      on_herdr (try! hd := herdr_new env (stored_context socket_path workspace_id tab_id pane_id protocol)
                             TWO_SECONDS in
                herdr_capture_tail env hd i lines bytes)
  | None => Ret (Err missing_context)
  end.

(** ** The composer *)
Definition native_codex (w : WatcherState) : bool :=
  bool_decide (is_Some (codex_session w))
  && match observation_context (target w) with
     | Some (CtxHerdr _ _ _ _ _ _ Native16) => true
     | _ => false
     end.

(** The last line of a capture, or no line at all, is blank. *)
Definition last_line_blank (text : list Z) : bool :=
  match last (str_lines text) with None => true | Some l => blank_line l end.

Definition composer_of_capture (w : WatcherState) (c : PaneCapture) : ComposerState :=
  let text := decode_utf8 (cp_text c) in
  if native_codex w then state_from_recent text
  else if last_line_blank text then Composer.Safe else Composer.Unsafe.

(** [RuntimeComposerSafety::observe]. *)
Definition composer_observe (w : WatcherState) (i : MuxIdentity) : TgtProg (result MuxError ComposerState) :=
  try! c := capture_mux_target w i (if native_codex w then 12 else 3)
              (if native_codex w then 4096 else 1024) in
  Ret (Ok (composer_of_capture w c)).

(** The drivers with the composer guard in place. *)
Definition guarded_tmux (w : WatcherState) (o : TmuxOp) : TgtProg (TmuxAns o) :=
  match o return TgtProg (TmuxAns o) with
  | TObserve i => composer_observe w i
  | o => gcall (GTmux o)
  end.
Definition guarded_herdr (w : WatcherState) (o : HerdrOp) : TgtProg (HerdrAns o) :=
  match o return TgtProg (HerdrAns o) with
  | HObserve i => composer_observe w i
  | o => gcall (GHerdr o)
  end.

(** ** Actions *)
Section Execute.
Context `{Rfc3339} {W : Type} (h : ∀ o, W → W * TgtAns o).

Abbreviation TgtState := (W * list (Ev TgtAns))%type.

(** [None] is a panic of the actuator. *)
Definition execute_mux_action (w : WatcherState) (a : Action) (s : TgtState)
    : option (TgtState * result ExecutionError ExecutionOutput) :=
  match last_observation w with
  | None => Some (s, Err (Unsafe "mux action requires a current observation source"))
  | Some event =>
      match watcher_mux_identity w with
      | Err m => Some (s, Err (Integration m))
      | Ok None => Some (s, Err (Unsafe "input or capture requires a multiplexer target"))
      | Ok (Some i) =>
          match observation_context (target w) with
          | Some (CtxTmux socket_path _ _ _ _ _) =>
              mux_execute (bound_mux h (link_mux (guarded_tmux w)
                                          (tmux (for_socket_path socket_path TWO_SECONDS))) i)
                (source event) a s
          | Some (CtxHerdr socket_path _ workspace_id tab_id pane_id _ protocol) =>
              let '(s, r) := run_logged h (on_herdr (herdr_new env
                               (stored_context socket_path workspace_id tab_id pane_id protocol)
                               TWO_SECONDS)) s in
              match r with
              | Err e => Some (s, Err (Integration (mux_error_display e)))
              | Ok hd =>
                  mux_execute (bound_mux h (link_mux (guarded_herdr w) (herdr env hd)) i)
                    (source event) a s
              end
          | None => Some (s, Err (Unsafe "missing concrete multiplexer context"))
          end
      end
  end.
End Execute.

(** ** Captures *)

(** serde_json's text of the events. *)
Context (events_json : AgentStateEvents → result string string).

Definition capture_herdr_structured_state (w : WatcherState) (i : MuxIdentity) (max_events : Z)
    : TgtProg (result ExecutionError ExecutionOutput) :=
  match observation_context (target w) with
  | Some (CtxHerdr socket_path _ workspace_id tab_id pane_id _ protocol) =>
      try! event := lift (ok_or (last_observation w) (Unsafe "missing current observation")) in
      try! _ := lift (fail_if (negb (bool_decide (source_kind (source event) = Source.HerdrAgentState))
                               || negb (String.eqb (source_id (source event)) "herdr")
                               || negb (String.eqb (rule_or_field (source event)) "typed_pane_state"))
                  (Unsafe "structured state source is not Herdr typed state")) in
      let! state := on_herdr
        (try! hd := herdr_new env (stored_context socket_path workspace_id tab_id pane_id protocol)
                      TWO_SECONDS in
         agent_state_events env hd i (herdr_after_sequence (observation_schedule w)) max_events) in
      Ret (let? state := map_err (λ e, Integration (mux_error_display e)) state in
           let? text := map_err Integration (events_json state) in Ok (Captured text))
  | _ => Ret (Err (Unsafe "structured state requires a Herdr target"))
  end.

(** [execute_capture]. *)
Definition capture_target (w : WatcherState) (src : string) (max_lines : Z)
    : TgtProg (result ExecutionError ExecutionOutput) :=
  if negb (capture_source_matches w src)
  then Ret (Err (Unsafe "capture source does not match current adapter observation"))
  else
    match watcher_mux_identity w with
    | Err m => Ret (Err (Integration m))
    | Ok None => Ret (Err (Unsafe "capture requires a multiplexer target"))
    | Ok (Some i) =>
        if String.eqb src "structured_state" then capture_herdr_structured_state w i max_lines
        else
          let! c := capture_mux_target w i max_lines 32768 in
          Ret (let? c := map_err (λ e, Integration (mux_error_display e)) c in
               Ok (Captured (string_of_bytes (cp_text c))))
    end.

(** ** Progress after an input *)
Section Progress.
Context `{Rfc3339Text} `{Sha256Hex} `{CodexJson} `{TargetHash}.

Definition live_tail (w : WatcherState) (clean : list Z) : option (list Z) :=
  match observation_context (target w) with
  | Some (CtxTmux _ _ _ _ _ _) =>
      chrome ← tmux_chrome (target w);
      actionable_bottom (trusted_tmux_screen clean (boundary_of chrome)) 40
  | Some (CtxHerdr _ _ _ _ _ _ _) => Some clean
  | None => None
  end.

Definition fresh_claude_progress (w : WatcherState) (baseline : Event) : TgtProg (option Event) :=
  if negb (meta_true (metadata baseline) "claude_resume") then Ret None
  else
    match watcher_mux_identity w with
    | Ok (Some i) =>
        let! validated := validate_mux_target w i in
        match validated with
        | Err _ => Ret None
        | Ok _ =>
            let! captured := capture_mux_target w i 40 16384 in
            match captured with
            | Err _ => Ret None
            | Ok c =>
                match live_tail w (sanitize_terminal (cp_text c) (Z.to_nat 16384) 40) with
                | None => Ret None
                | Some tail =>
                    let! now := gcall GNow in
                    Ret (trusted_resume_progress_event w baseline tail now)
                end
            end
        end
    | _ => Ret None
    end.

(** The structured state that proves progress of a goal. *)
Definition progress_value (facts : CodexFacts) (w : WatcherState) (s : ProbedCodexSource) : option Value :=
  match s with
  | LocalState snapshot | AppServer snapshot _ => Some (structured_value_from_snapshot snapshot)
  | Rollout path thread =>
      event ← correlated_rollout_event facts w path thread;
      thread ← meta_str (metadata event) "codex_thread_id";
      status ← meta_str (metadata event) "goal_state";
      Some (VObject [("thread_id", VString thread); ("goal", VObject [("status", VString status)]);
                     ("runtime_status", VObject [("type", VString "active"); ("active_flags", VArray [])])])
  end.

Definition fresh_codex_progress (w : WatcherState) (baseline : Event) : TgtProg (option Event) :=
  if negb (meta_true (metadata baseline) "codex_resume") then Ret None
  else
    let! facts := gcall (GCodex w) in
    match probe_structured_source facts w ≫= progress_value facts w with
    | None => Ret None
    | Some structured =>
        let! now := gcall GNow in
        Ret (trusted_goal_progress_event w baseline structured now)
    end.
End Progress.
End Target.

(** ** Linked conversations *)
Section Linked.
Context {Op Op' : Type} {An : Op → Type} {An' : Op' → Type} (h : ∀ o, Prog An' (An o)).

Lemma linked_traces {A} (p : Prog An A) tr r :
  traces (interp h p) tr r ↔ ∃ tr0, traces p tr0 r ∧ expands h tr0 tr.
Proof.
  revert tr. induction p as [a|o k IH]; intros tr; cbn.
  - split; [by intros [-> ->]; exists []|]. by intros (tr0 & [-> ->] & ->).
  - rewrite traces_bind. setoid_rewrite IH. split.
    + intros (seg & tr2 & x & -> & Hs & tr0 & Hk & He). exists (existT o x :: tr0). cbn. eauto 10.
    + intros (tr0 & (x & tr1 & -> & Hk) & seg & rest & -> & Hs & He). eauto 10.
Qed.

Lemma expands_app l1 l2 tr :
  expands h (l1 ++ l2) tr ↔ ∃ t1 t2, tr = t1 ++ t2 ∧ expands h l1 t1 ∧ expands h l2 t2.
Proof.
  revert tr. induction l1 as [|[o x] l1 IH]; intros tr; cbn.
  - split; [by intros He; exists [], tr|]. by intros (t1 & t2 & -> & -> & ?).
  - setoid_rewrite IH. split.
    + intros (seg & rest & -> & Hs & t1 & t2 & -> & H1 & H2). exists (seg ++ t1), t2.
      rewrite <- app_assoc. eauto 10.
    + intros (t1 & t2 & -> & (seg & rest & -> & Hs & H1) & H2). exists seg, (rest ++ t2).
      rewrite <- app_assoc. eauto 10.
Qed.

(** The call whose implementation made an event. *)
Lemma expands_split tr0 l1 e l2 :
  expands h tr0 (l1 ++ e :: l2) →
  ∃ a o x b t1 s1 s2, tr0 = a ++ existT o x :: b ∧ expands h a t1
    ∧ traces (h o) (s1 ++ e :: s2) x ∧ l1 = t1 ++ s1.
Proof.
  revert l1. induction tr0 as [|[o x] tr0 IH]; intros l1; cbn; [by destruct l1|].
  intros (seg & rest & Heq & Hs & He). apply app_eq_inv in Heq as [(k & -> & Hk)|(k & -> & Hk)].
  - destruct (IH k) as (a & o' & x' & b & t1 & s1 & s2 & -> & Ha & Ht & ->); [by rewrite <- Hk|].
    exists (existT o x :: a), o', x', b, (seg ++ t1), s1, s2. cbn. rewrite app_assoc. eauto 10.
  - destruct k as [|e' k]; simplify_eq/=.
    + destruct (IH []) as (a & o' & x' & b & t1 & s1 & s2 & -> & Ha & Ht & [-> ->]%eq_sym%app_nil); [done|].
      exists (existT o x :: a), o', x', b, l1, [], s2. rewrite !app_nil_r in *. cbn.
      split; [done|]. split; [|done]. exists l1, []. by rewrite app_nil_r.
    + exists [], o, x, tr0, [], l1, k. done.
Qed.
End Linked.

(** ** Tmux targets *)
Definition lift_tmux (e : Ev TmuxAns) : Ev TgtAns :=
  match e with existT o x => existT (P := TgtAns) (GTmux o) x end.

Definition observes (e : Ev TmuxAns) : Prop := ∃ i x, e = existT (TObserve i) x.

Section TmuxTarget.
Context `{HerdrJson} `{DebugText} `{DebugId} `{DebugIdentity} (env : HerdrEnv).

Lemma on_tmux_traces {A} (p : TmuxProg A) tr r :
  traces (on_tmux p) tr r ↔ ∃ tr0, traces p tr0 r ∧ tr = lift_tmux <$> tr0.
Proof.
  unfold on_tmux. rewrite linked_traces.
  assert (∀ tr0 tr, expands (λ o, gcall (GTmux o)) tr0 tr ↔ tr = lift_tmux <$> tr0) as He.
  { clear. induction tr0 as [|[o x] tr0 IH]; intros tr; cbn; [done|]. setoid_rewrite IH. split.
    - by intros (seg & rest & -> & (y & ? & -> & -> & ->) & ->).
    - intros ->. exists [existT (GTmux o) x], (lift_tmux <$> tr0). eauto 10. }
  by setoid_rewrite He.
Qed.

Lemma guarded_other w o seg (x : TmuxAns o) :
  (∀ i, o ≠ TObserve i) → traces (guarded_tmux env w o) seg x → seg = [existT (GTmux o) x].
Proof.
  intros Hne Hs. apply traces_call. destruct o; try exact Hs. by destruct (Hne i).
Qed.

(** A conversation without a composer observation is the same conversation. *)
Lemma guarded_quiet w tr0 tr :
  (∀ e, e ∈ tr0 → ¬ observes e) → expands (guarded_tmux env w) tr0 tr → tr = lift_tmux <$> tr0.
Proof.
  revert tr. induction tr0 as [|[o x] tr0 IH]; intros tr Hno; cbn; [done|].
  intros (seg & rest & -> & Hs & He). rewrite (IH rest) by (set_solver || done).
  apply guarded_other in Hs as ->; [done|]. intros i ->. apply (Hno (existT (TObserve i) x)); [set_solver|].
  by eexists _, _.
Qed.

Lemma found_quiet t i tr : pane_found t i tr → ∀ e, e ∈ tr → ¬ observes e.
Proof.
  intros (out & fields & dead & p & rec & -> & _) e He.
  rewrite !elem_of_cons, elem_of_nil in He. destruct He as [->|[->|[]]]; by intros (? & ? & ?).
Qed.

Context (w : WatcherState) (socket inst sess win pane tty : string).
Context (Hctx : observation_context (target w) = Some (CtxTmux socket inst sess win pane tty)).
Let t := for_socket_path socket TWO_SECONDS.

(** The last line of the pane was blank when it was captured. *)
Definition blank_composer (i : MuxIdentity) (tr : list (Ev TmuxAns)) : Prop :=
  ∃ c, traces (Tmux.capture_tail t i 3 1024) tr (Ok c)
    ∧ last_line_blank (decode_utf8 (cp_text c)) = true.

Lemma composer_tmux_traces i tr r :
  traces (composer_observe env w i) tr r →
  ∃ tr0 c, tr = lift_tmux <$> tr0 ∧ traces (Tmux.capture_tail t i 3 1024) tr0 c
    ∧ (r = Ok Composer.Safe → blank_composer i tr0).
Proof.
  unfold composer_observe, capture_mux_target, native_codex. rewrite Hctx, andb_false_r.
  rewrite traces_try. intros [(e & -> & Hc)|(tr1 & tr2 & c & -> & Hc & [-> ->])];
    apply on_tmux_traces in Hc as (tr0 & Hc & ->); exists tr0.
  - exists (Err e). done.
  - exists (Ok c). rewrite app_nil_r. split; [done|]. split; [done|]. intros [= Hs]. exists c.
    split; [done|]. revert Hs. unfold composer_of_capture, native_codex. rewrite Hctx, andb_false_r.
    by case_bool.
Qed.

(** An input to the pane of the target, and what comes right before it. *)
Definition target_input (e : Ev TgtAns) : Prop := ∃ e0, e = lift_tmux e0 ∧ is_input t e0.

Definition target_backed (i : MuxIdentity) (l1 : list (Ev TgtAns)) (e : Ev TgtAns) : Prop :=
  target_input e →
  ∃ l0 seg1 comp seg2, l1 = l0 ++ (lift_tmux <$> seg1 ++ comp ++ seg2)
    ∧ pane_found t i seg1 ∧ blank_composer i comp ∧ pane_found t i seg2
    ∧ ∃ args limit x, e = existT (P := TgtAns) (GTmux (TRun (server_args t ++ args) limit)) x
        ∧ ((∃ text, args = literal_arguments (mi_pane_id i) text ∧ has_control text = false)
           ∨ ∃ key, args = symbolic_arguments (mi_pane_id i) key).

Lemma lift_tmux_inj e e' : lift_tmux e = lift_tmux e' → e = e'.
Proof.
  destruct e as [o x], e' as [o' x']. cbn. intros Heq.
  assert (o = o') as -> by (apply (f_equal (@projT1 _ _)) in Heq; by injection Heq).
  pose (down := λ e : Ev TgtAns, match e with
    | existT o x => match o return TgtAns o → option (Ev TmuxAns) with
                    | GTmux o => λ x, Some (existT o x) | _ => λ _, None end x end).
  apply (f_equal down) in Heq. by injection Heq.
Qed.

Lemma justified_linked i tr0 tr :
  justified t i tr0 → expands (guarded_tmux env w) tr0 tr → backed (target_backed i) tr.
Proof.
  intros Hj He l1 e l2 -> (e0 & -> & Hin).
  apply expands_split in He as (a & o & x & b & t1 & s1 & s2 & -> & Ha & Hs & ->).
  assert ((∃ j, o = TObserve j) ∨ ∀ j, o ≠ TObserve j) as [[j ->]|Hno] by (destruct o; eauto).
  { cbn in Hs. apply composer_tmux_traces in Hs as (tr1 & c & Heq & Hc & _). exfalso.
    assert (lift_tmux e0 ∈ lift_tmux <$> tr1) as (e1 & ->%lift_tmux_inj & He1)%list_elem_of_fmap
      by (rewrite <- Heq; set_solver).
    by apply (capture_no_input _ _ _ _ _ _ Hc e1). }
  apply guarded_other in Hs; [|done].
  destruct s1 as [|? s1]; [|by destruct s1]. injection Hs as Heq _. change (existT (GTmux o) x) with (lift_tmux (existT o x)) in Heq.
  apply lift_tmux_inj in Heq as ->. rewrite app_nil_r.
  destruct (Hj a (existT o x) b eq_refl Hin) as (l0 & seg1 & seg2 & -> & Hat1 & Hat2 & args & limit & y & -> & Hargs).
  apply expands_app in Ha as (k0 & k1 & -> & _ & Ha).
  apply expands_app in Ha as (k2 & k3 & -> & Hk2 & Ha).
  apply expands_app in Ha as (k4 & k5 & -> & (comp & ? & -> & Hcomp & ->) & Hk5).
  rewrite app_nil_r. apply guarded_quiet in Hk2 as ->; [|by eapply found_quiet].
  apply guarded_quiet in Hk5 as ->; [|by eapply found_quiet].
  cbn in Hcomp. apply composer_tmux_traces in Hcomp as (tr1 & c & -> & _ & Hb).
  exists k0, seg1, tr1, seg2. rewrite !fmap_app. eauto 20.
Qed.
End TmuxTarget.

(** C3: Whatever action is executed on a watcher with a tmux target, every input that
    reaches tmux goes to the pane recorded for the watcher, carries a control-free literal
    or one symbolic key, and is preceded immediately by two attestations of the recorded
    server, session, window, pane, terminal and process, between which a capture of the
    very same pane ended in a blank line. *)
Theorem mux_action_composer_checked `{HerdrJson} `{DebugText} `{DebugId} `{DebugIdentity} `{Rfc3339}
    env {W} (h : ∀ o, W → W * TgtAns o) w a s s' log r socket inst sess win pane tty :
  observation_context (target w) = Some (CtxTmux socket inst sess win pane tty) →
  execute_mux_action env h w a (s, []) = Some ((s', log), r) →
  log = [] ∨ ∃ i, watcher_mux_identity w = Ok (Some i) ∧ backed (target_backed socket i) log.
Proof.
  intros Hctx. unfold execute_mux_action. rewrite Hctx.
  destruct (last_observation w) as [event|]; [|intros [= _ <- _]; by left].
  destruct (watcher_mux_identity w) as [[i|]|m]; [|intros [= _ <- _]; by left..].
  intros Hx. right. exists i. split; [done|]. change log with ((s', log).2).
  refine (mux_execute_P h _ i _ _ _ _ _ _ _ (source event) a _ _ r Hx _).
  - intros l1 l2. apply backed_app. intros l0 l e Hb He.
    destruct (Hb He) as (k & s1 & c & s2 & -> & ?). exists (l0 ++ k), s1, c, s2. by rewrite <- app_assoc.
  - intros tr r' (tr0 & Htr & He)%linked_traces.
    eapply justified_linked; [exact Hctx|eapply validate_justified, Htr|exact He].
  - intros text tr r' (tr0 & Htr & He)%linked_traces.
    eapply justified_linked; [exact Hctx|eapply literal_justified, Htr|exact He].
  - intros text tr r' [-> _]. apply backed_nil.
  - intros k tr r' (tr0 & Htr & He)%linked_traces.
    eapply justified_linked; [exact Hctx|eapply key_justified, Htr|exact He].
  - intros n b tr r' (tr0 & Htr & He)%linked_traces.
    eapply justified_linked; [exact Hctx|eapply capture_justified, Htr|exact He].
  - apply backed_nil.
Qed.

(** ** What the composer check looks at *)
Lemma fit_exact cs ds : fit (length (encode_utf8 cs)) (cs ++ ds) = cs.
Proof.
  induction cs as [|c cs IH]; cbn [app fit].
  - destruct ds as [|d ds]; cbn [fit]; [done|]. unfold encode_char. by repeat case_bool.
  - rewrite encode_cons, length_app, (proj2 (Nat.leb_le _ _)) by lia. f_equal.
    by replace (_ + _ - _)%nat with (length (encode_utf8 cs)) by lia.
Qed.

(** C31: The composer check of a tmux target does not see the composer of a pane that shows
    more than 1024 bytes.  The capture keeps the first 1024 bytes, so when these end in a
    blank line the verdict is Safe, whatever the rest of the pane shows, a draft in its
    last line included. *)
Theorem composer_overlooks_draft `{HerdrJson} `{DebugText} `{DebugId} `{DebugIdentity} env w i
    socket inst sess win pane tty seg1 seg2 (cs draft : list Z) (elapsed : Z) :
  let t := for_socket_path socket TWO_SECONDS in
  observation_context (target w) = Some (CtxTmux socket inst sess win pane tty) →
  attests t i seg1 → attests t i seg2 →
  Forall scalar (cs ++ draft) → length (encode_utf8 cs) = 1024%nat → last_line_blank cs = true →
  traces (composer_observe env w i)
    (lift_tmux <$> seg1 ++ [existT (TRun (server_args t ++ capture_arguments (mi_pane_id i) "-3") 1027)
                              (Ok (take 1028 (encode_utf8 (cs ++ draft))))]
                   ++ seg2 ++ [existT TElapsed elapsed])
    (Ok Composer.Safe).
Proof.
  intros t Hctx H1' H2' Hs Hlen Hblank.
  unfold composer_observe, capture_mux_target, native_codex. rewrite Hctx, andb_false_r.
  rewrite traces_try. right.
  pose (c := mkCapture (encode_utf8 cs) 1024 (1024 <? length (encode_utf8 (cs ++ draft)))%nat elapsed).
  eexists _, [], c. rewrite app_nil_r. split; [done|]. split.
  - apply on_tmux_traces. eexists. split; [|done]. unfold Tmux.capture_tail.
    apply traces_try. right. eexists seg1, _, tt. split; [done|]. split; [done|]. cbn [Z.eqb orb].
    apply traces_try. right. eexists [_], _, _. split; [done|]. split; [by apply run_traces|].
    apply traces_try. right. eexists seg2, _, tt. split; [done|]. split; [done|].
    replace (Z.to_nat 1024) with 1024%nat by lia.
    rewrite truncate_text, <- Hlen, fit_exact by (done || lia). rewrite Hlen. cbn. eauto.
  - split; [done|]. unfold composer_of_capture, native_codex. rewrite Hctx, andb_false_r. cbn [cp_text c].
    rewrite decode_encode_utf8 by (apply Forall_app in Hs as [Hs _]; eapply Forall_impl; [exact Hs|]; by intros ? [? _]). by rewrite Hblank.
Qed.

(** A watcher of the pane of Tmux's demonstration server. *)
Definition demo_tmux_target : TargetIdentity :=
  target_tmux "/tmp/tmux-1000/default" "/tmp/tmux-1000/default" "$1" "@2" "%4" "/dev/pts/1"
    (record_identity Tmux.demo_record) None.
Definition demo_observation : Event :=
  mkEvent EVENT_SCHEMA_VERSION "obs" "2026-01-01T00:00:00Z" None "w" "" None None None
    (event_source_new Source.ScreenDetection "tmux" "generic_tail") Category.Idle f64_one false "" "" None
    None Hint.ObserveOnly None ∅.
Definition demo_tmux_watcher : WatcherState :=
  set_observation (watcher_new "w" demo_tmux_target Lifecycle.Observing 0 0) (Some demo_observation).

Definition demo_codex_facts : CodexFacts :=
  mkCodexFacts (λ _, None) (λ _ _, false) (λ _ _, None) (λ _, None) (λ _, None) (λ _, None) (mkDateTime 0 0 0).

(** Only tmux is there to answer. *)
Definition demo_target_world (o : TgtOp) (w : unit) : unit * TgtAns o :=
  (w, match o return TgtAns o with
      | GTmux o => (Tmux.demo_world o tt).2
      | GHerdr o => match o return HerdrAns o with
                    | HStat _ | HCanonicalize _ | HBuildRuntime | HDevice _ => Err ""
                    | HInRuntime | HRemaining => false
                    | HNextId => None
                    | HElapsed => 0
                    | HConnect _ | HWrite _ | HRead => Expired
                    | HEvidence _ => mkEvidence 0 0 (Err "")
                    | HInspect p => Err (Process.Disappeared p)
                    | HObserve _ => Ok Composer.Unknown
                    end
      | GCodex _ => demo_codex_facts
      | GNow => ""
      end).

#[local] Instance demo_herdr_json : HerdrJson :=
  {| json_to_vec := λ _, Err ""; json_from_slice := λ _, Err ""; shape_error := λ _, "" |}.
#[local] Instance demo_debug : DebugText := λ _, "".
#[local] Instance demo_debug_id : DebugId := λ _, "".
#[local] Instance demo_debug_identity : DebugIdentity := λ _, "".
Definition demo_env : HerdrEnv := mkHerdrEnv 1000 1 1.

Lemma mux_action_composer_checked_witness :
  let rfc : Rfc3339 := λ _, None in
  match execute_mux_action demo_env demo_target_world demo_tmux_watcher keys_action (tt, []) with
  | Some ((_, log), r) =>
      length log = 24%nat ∧ r = Ok Committed
      ∧ (log = [] ∨ ∃ i, watcher_mux_identity demo_tmux_watcher = Ok (Some i)
           ∧ backed (target_backed "/tmp/tmux-1000/default" i) log)
  | None => False
  end.
Proof.
  intros rfc.
  destruct (execute_mux_action _ _ _ _ _) as [[[s log] r]|] eqn:E; [|vm_compute in E; discriminate].
  split; [|split].
  - vm_compute in E. injection E as <- <- <-. reflexivity.
  - vm_compute in E. by injection E as <- <- <-.
  - exact (mux_action_composer_checked demo_env demo_target_world demo_tmux_watcher keys_action tt s log r
             _ _ _ _ _ _ eq_refl E).
Defined.

Definition demo_attestation : list (Ev TmuxAns) :=
  (converse Tmux.demo_world (Tmux.validate_identity demo_tmux demo_identity) tt).1.

Lemma demo_attests : attests demo_tmux demo_identity demo_attestation.
Proof.
  pose proof (converse_traces Tmux.demo_world (Tmux.validate_identity demo_tmux demo_identity) tt) as Ht.
  assert ((converse Tmux.demo_world (Tmux.validate_identity demo_tmux demo_identity) tt).2 = Ok tt) as E
    by (vm_compute; reflexivity).
  rewrite E in Ht. exact Ht.
Qed.

Lemma ascii_scalar l : forallb (in_range 0 127) l = true → Forall scalar l.
Proof.
  rewrite forallb_forall, Forall_forall. intros Hl c Hc.
  specialize (Hl c (proj1 (list_elem_of_In _ _) Hc)). apply in_range_spec in Hl. unfold scalar. lia.
Qed.

(** A screen of 1022 letters and an empty line, above an unsent draft. *)
Definition demo_screen : list Z := replicate (Z.to_nat 1022) 120 ++ [10; 10].

Lemma composer_overlooks_draft_witness :
  last_line_blank (demo_screen ++ chars "my unsent draft") = false
  ∧ ∃ tr, traces (composer_observe demo_env demo_tmux_watcher demo_identity) tr (Ok Composer.Safe).
Proof.
  split; [vm_compute; reflexivity|]. eexists.
  refine (composer_overlooks_draft demo_env demo_tmux_watcher demo_identity _ _ _ _ _ _
            demo_attestation demo_attestation demo_screen (chars "my unsent draft") 0 _ _ _ _ _ _).
  - reflexivity.
  - exact demo_attests.
  - exact demo_attests.
  - apply ascii_scalar. vm_compute. reflexivity.
  - vm_compute. reflexivity.
  - vm_compute. reflexivity.
Defined.
