(* ===== verification/Observers.v ===== *)
(** * The observer of the daemon (src/src/daemon/observer_runtime.rs and the events of
      src/src/daemon/observation.rs)

    One observation of a watcher: the hooks of Claude, the state of Codex, the typed
    state of a Herdr pane, or the generic look at a process or a tmux pane, in this
    order. *)
From S2P Require Import Prelude Text Utf8 Json Serde Action Event Identity StateMachine State Policy.
From S2P Require Import Screen Process Actuator Effects Registry Runtime Observe ResetTime Jobs Mux Tmux Herdr.
From S2P Require Import HerdrNative HerdrSafety Hooks Claude Codex ComposerText Target.
From stdpp Require Import pretty.
From Stdlib Require Import Floats.SpecFloat.

Local Open Scope Z_scope.

(** ** Calls *)
Inductive ObsOp : Type :=
| VTmux (o : TmuxOp)
| VHerdr (o : HerdrOp)
| VHook (w : WatcherState)
| VCodex (w : WatcherState)
| VInspect (p : Z)
| VNow
| VJoin.

(** The facts are read in a blocking task; the error is that of joining it. *)
Definition ObsAns (o : ObsOp) : Type :=
  match o with
  | VTmux o => TmuxAns o
  | VHerdr o => HerdrAns o
  | VHook _ => result string HookFacts
  | VCodex _ => result string CodexFacts
  | VInspect _ => result ProcessError ProcessRecord
  | VNow => DateTime
  | VJoin => result string unit
  end.

Abbreviation ObsProg := (Prog ObsAns).
Definition vcall (o : ObsOp) : ObsProg (ObsAns o) := call o.

Definition as_tmux {A} (p : TmuxProg (result MuxError A)) : ObsProg (result string A) :=
  let! r := interp (λ o, vcall (VTmux o)) p in Ret (map_err mux_error_display r).
Definition as_herdr {A} (p : HerdrProg (result MuxError A)) : ObsProg (result string A) :=
  let! r := interp (λ o, vcall (VHerdr o)) p in Ret (map_err mux_error_display r).

Definition f64_eight_tenths : f64 := S754_finite false 7205759403792794 (-53).
Definition f64_four_tenths : f64 := S754_finite false 7205759403792794 (-54).
Definition f64_two_tenths : f64 := S754_finite false 7205759403792794 (-55).

Definition no_observation : ObservationResult := mkObservationResult None None.
Definition observed_event (e : Event) : ObservationResult := mkObservationResult (Some e) None.

Definition CAPTURE_BYTES : Z := 32768.
Definition clean_screen (c : PaneCapture) : list Z :=
  sanitize_terminal (cp_text c) (Z.to_nat CAPTURE_BYTES) 80.

Section Observer.
Context `{Rfc3339Text} `{Chrono} `{Sha256Hex} `{TargetHash} `{CodexJson}.
Context `{HerdrJson} `{DebugText} `{DebugId} `{DebugIdentity} (env : HerdrEnv).
(** serde_json's bytes of the events. *)
Context (events_bytes : AgentStateEvents → result string (list Z)).

(** ** Events *)
Definition observation_id (w : WatcherState) : string := "obs-" +:+ ws_id w +:+ "-" +:+ pretty (revision w).

Definition observation_event (w : WatcherState) (kind : SourceKind) (src rule : string)
    (cat : EventCategory) (conf : f64) (evidence : list Z) : ObsProg (result string Event) :=
  let! observed := vcall VNow in
  Ret (event_new (observation_id w) (to_rfc3339 observed) (ws_id w)
         (Runtime.target_identity_hash (target w)) (event_source_new kind src rule) cat conf false
         (fingerprint src rule evidence) "bounded observation" Hint.ObserveOnly).

(** ** Herdr *)
Definition validate_observed_herdr_identity (actual : MuxIdentity) (p : ProcessIdentity)
    (context : MultiplexerContext) : result string unit :=
  match context with
  | CtxHerdr socket_path server_instance workspace_id tab_id pane_id _ _ =>
      fail_if (negb (pid (mi_process actual) =? pid p)
               || negb (start_time (mi_process actual) =? start_time p)
               || negb (String.eqb (mi_server actual) socket_path)
               || negb (String.eqb (mi_server_instance actual) server_instance)
               || negb (String.eqb (mi_session_id actual) workspace_id)
               || negb (String.eqb (mi_window_id actual) tab_id)
               || negb (String.eqb (mi_pane_id actual) pane_id)
               || negb (String.eqb (mi_tty actual) (default "" (tty p))))
        "target multiplexer identity changed"
  | CtxTmux _ _ _ _ _ _ => Err "missing Herdr observation context"
  end.

(** The largest sequence number. *)
Definition cursor_of (events : list AgentEvent) : option Z :=
  match ae_sequence <$> events with
  | [] => None
  | s :: rest => Some (foldl Z.max s rest)
  end.

Definition classification_of (s : AgentStateEvents) : option (EventCategory * bool) :=
  match ase_events s with
  | [] => None
  | events => classify_herdr_state (ase_state s) (existsb (λ e, String.eqb (ae_kind e) "terminal") events)
  end.

(** [event.terminal = terminal; event.monotonic_sequence = cursor]. *)
Definition herdr_event (e : Event) (term : bool) (cursor : option Z) : Event :=
  mkEvent (schema_version e) (event_id e) (observed_at e) cursor (watcher_id e)
    (Event.target_identity_hash e) (agent_id e) (session_id e) (provider_family e) (source e) (category e)
    (confidence e) term (evidence_fingerprint e) (summary e) (redacted_evidence e) (reset e)
    (policy_hint e) (supersedes_event_id e) (metadata e).

Definition herdr_evidence (hd : Herdr) (actual : MuxIdentity) (s : AgentStateEvents)
    : ObsProg (result string (list Z)) :=
  match ase_events s with
  | [] =>
      try! c := as_herdr (capture_tail_async env hd actual 80 CAPTURE_BYTES) in
      Ret (Ok (encode_utf8 (clean_screen c)))
  | _ => Ret (events_bytes s)
  end.

Definition observe_herdr (w : WatcherState) (p : ProcessIdentity) (context : MultiplexerContext)
    : ObsProg (result string ObservationResult) :=
  match context with
  | CtxTmux _ _ _ _ _ _ => Ret (Err "missing Herdr observation context")
  | CtxHerdr socket_path _ workspace_id tab_id pane_id _ protocol =>
      try! hd := as_herdr (herdr_new env (mkHerdrContext socket_path workspace_id tab_id pane_id protocol)
                             TWO_SECONDS) in
      if bool_decide (protocol = Native16) then
        try! actual := as_herdr (current_target_for_process_async env hd p) in
        try! _ := lift (validate_observed_herdr_identity actual p context) in
        Ret (Ok no_observation)
      else
        try! actual := as_herdr (current_target_async env hd) in
        try! _ := lift (validate_observed_herdr_identity actual p context) in
        try! state := as_herdr (agent_state_events_async env hd actual
                                  (herdr_after_sequence (observation_schedule w)) 64) in
        try! evidence := herdr_evidence hd actual state in
        let cursor := cursor_of (ase_events state) in
        match classification_of state with
        | None => Ret (Ok (mkObservationResult None cursor))
        | Some (cat, term) =>
            try! event := observation_event w Source.HerdrAgentState "herdr" "typed_pane_state" cat
                            f64_eight_tenths evidence in
            Ret (Ok (mkObservationResult (Some (herdr_event event term cursor)) cursor))
        end
  end.

(** ** Processes and tmux panes *)
Definition observe_process (w : WatcherState) (p : ProcessIdentity)
    : ObsProg (result string ObservationResult) :=
  let! inspected := vcall (VInspect (pid p)) in
  let alive := match inspected with Ok actual => pr_start_time actual =? start_time p | Err _ => false end in
  try! event := observation_event w Source.ProcessMetadata "process" "liveness"
                  (if alive then Category.Working else Category.Terminated) f64_one
                  (byte_list (if alive then "alive" else "dead")) in
  Ret (Ok (observed_event event)).

Definition tmux_context_matches (i : MuxIdentity) (context : MultiplexerContext) : bool :=
  match context with
  | CtxTmux socket_path server_instance session_id window_id pane_id tty =>
      String.eqb (mi_server i) socket_path && String.eqb (mi_server_instance i) server_instance
      && String.eqb (mi_session_id i) session_id && String.eqb (mi_window_id i) window_id
      && String.eqb (mi_pane_id i) pane_id && String.eqb (mi_tty i) tty
  | CtxHerdr _ _ _ _ _ _ _ => false
  end.

(** The trusted live screen of a capture; without chrome nothing is trusted. *)
Definition live_screen (chrome : option TmuxChrome) (clean : list Z) : LiveScreen :=
  match chrome with
  | None => mkScreen [] None false
  | Some c => trusted_tmux_screen clean (boundary_of c)
  end.

(** Two captures that agree on a wait menu. *)
Definition menu_of (t : Tmux) (w : WatcherState) (i : MuxIdentity) (chrome : option TmuxChrome)
    (actionable : option (list Z)) : ObsProg (result string (option Event)) :=
  match actionable with
  | None => Ret (Ok None)
  | Some first =>
      try! c := as_tmux (Tmux.capture_tail t i 80 CAPTURE_BYTES) in
      match actionable_bottom (live_screen chrome (clean_screen c)) 40 with
      | None => Ret (Ok None)
      | Some second =>
          let! observed := vcall VNow in
          Ret (Ok (trusted_menu_event observed w first second))
      end
  end.

(** The event of a blank screen. *)
Definition tail_event (w : WatcherState) (session : option string) (trusted : bool) (clean : list Z)
    : ObsProg (result string ObservationResult) :=
  let! observed := vcall VNow in
  match trim clean with
  | _ :: _ => Ret (Ok no_observation)
  | [] =>
      Ret (let? e := event_new (observation_id w) (to_rfc3339 observed) (ws_id w)
                       (Runtime.target_identity_hash (target w))
                       (event_source_new Source.ScreenDetection "tmux" "generic_tail") Category.Idle
                       (if trusted then f64_four_tenths else f64_two_tenths) false
                       (fingerprint "screen_detection" "generic_tail" (encode_utf8 clean))
                       "bounded generic observation" Hint.ObserveOnly in
           Ok (observed_event (set_session session e)))
  end.

Definition observe_tmux (w : WatcherState) (server pane : string) (p : ProcessIdentity)
    (session : option string) (context : MultiplexerContext) (chrome : option TmuxChrome)
    : ObsProg (result string ObservationResult) :=
  let t := for_socket_path server TWO_SECONDS in
  try! selector := lift (map_err mux_error_display (selector_parse pane)) in
  try! i := as_tmux (resolve_selector t selector) in
  try! _ := lift (fail_if (negb (pid (mi_process i) =? pid p)
                           || negb (start_time (mi_process i) =? start_time p))
              "target identity changed") in
  try! _ := lift (fail_if (negb (tmux_context_matches i context)) "target multiplexer identity changed") in
  try! c := as_tmux (Tmux.capture_tail t i 80 CAPTURE_BYTES) in
  let clean := clean_screen c in
  let actionable := actionable_bottom (live_screen chrome clean) 40 in
  try! menu := menu_of t w i chrome actionable in
  match menu with
  | Some event => Ret (Ok (observed_event event))
  | None => tail_event w session (bool_decide (is_Some actionable)) clean
  end.

Definition generic_observe (w : WatcherState) : ObsProg (result string ObservationResult) :=
  match target w with
  | TProcess p => observe_process w p
  | TMultiplexer provider server pane p session context chrome stale =>
      if negb (String.eqb provider "tmux") || stale then Ret (Ok no_observation)
      else
        match context with
        | Some (CtxTmux _ _ _ _ _ _ as c) => observe_tmux w server pane p session c chrome
        | _ => Ret (Ok no_observation)
        end
  end.

(** ** The observer *)
Definition hook_event_of (w : WatcherState) : ObsProg (result string (option Event)) :=
  try! facts := vcall (VHook w) in Ret (Ok (correlated_hook_event facts w)).

Definition codex_event_of (w : WatcherState) (now : DateTime) : ObsProg (result string (option Event)) :=
  try! facts := vcall (VCodex w) in Ret (Ok (observe_codex_event facts w now)).

(** The resume candidate, when the hook that caused the wait is still there. *)
Definition resume_event_of (w : WatcherState) (now : DateTime) : ObsProg (result string (option Event)) :=
  match resume_candidate_event w now with
  | None => Ret (Ok None)
  | Some candidate =>
      try! hook := hook_event_of w in
      Ret (Ok (match hook with Some _ => Some candidate | None => None end))
  end.

(** What is looked at when no adapter has an event. *)
Definition observe_target (w : WatcherState) : ObsProg (result string ObservationResult) :=
  match target w with
  | TMultiplexer _ _ _ p _ (Some (CtxHerdr _ _ _ _ _ _ _ as c)) _ _ => observe_herdr w p c
  | _ =>
      try! _ := vcall VJoin in
      generic_observe w
  end.

(** [GenericObserver::observe]. *)
Definition observe (w : WatcherState) : ObsProg (result string ObservationResult) :=
  let! now := vcall VNow in
  try! candidate := resume_event_of w now in
  match candidate with
  | Some e => Ret (Ok (observed_event e))
  | None =>
      try! hook := hook_event_of w in
      match hook with
      | Some e => Ret (Ok (observed_event e))
      | None =>
          try! codex := codex_event_of w now in
          match codex with
          | Some e => Ret (Ok (observed_event e))
          | None => observe_target w
          end
      end
  end.
End Observer.

(** ** What an observation is based on *)
Lemma vcall_traces o tr (x : ObsAns o) : traces (vcall o) tr x ↔ tr = [existT o x].
Proof. apply traces_call. Qed.

Lemma fail_if_lift_Ok {E} b (e : E) tr u :
  traces (lift (fail_if b e) : ObsProg (result E unit)) tr (Ok u) → tr = [] ∧ b = false.
Proof. intros [-> Hb]. split; [done|]. symmetry in Hb. by apply fail_if_Ok in Hb. Qed.

Section Based.
Context `{Rfc3339Text} `{Chrono} `{Sha256Hex} `{TargetHash} `{CodexJson}.
Context `{HerdrJson} `{DebugText} `{DebugId} `{DebugIdentity} (env : HerdrEnv).
Context (events_bytes : AgentStateEvents → result string (list Z)).

Lemma observed_fields id at_ watcher hash src cat conf term fp summ hint e :
  event_new id at_ watcher hash src cat conf term fp summ hint = Ok e →
  watcher_id e = watcher ∧ Event.target_identity_hash e = hash ∧ source e = src ∧ category e = cat
  ∧ policy_hint e = hint ∧ observed_at e = at_ ∧ evidence_fingerprint e = fp.
Proof. unfold event_new. intros (u & _ & [= <-])%rbind_Ok. done. Qed.

(** The event is about this watcher and its present target. *)
Definition about (w : WatcherState) (e : Event) : Prop :=
  watcher_id e = ws_id w ∧ Event.target_identity_hash e = Runtime.target_identity_hash (target w).

(** The event was made at an instant that was read, and is only to be observed. *)
Definition noted (w : WatcherState) (now : DateTime) (fp : string) (e : Event) : Prop :=
  about w e ∧ policy_hint e = Hint.ObserveOnly ∧ observed_at e = to_rfc3339 now
  ∧ evidence_fingerprint e = fp.

Lemma observation_event_traces w kind src rule cat conf evidence tr e :
  traces (observation_event w kind src rule cat conf evidence) tr (Ok e) →
  ∃ now, tr = [existT VNow now] ∧ noted w now (fingerprint src rule evidence) e ∧ category e = cat.
Proof.
  unfold observation_event. intros (tr1 & tr2 & now & -> & ->%(vcall_traces VNow) & [-> He])%traces_bind.
  symmetry in He. apply observed_fields in He as (? & ? & ? & ? & ? & ? & ?). by exists now.
Qed.

(** The conversation ends with an inspection and a look at the clock; the category is
    what the inspection found. *)
Definition process_backed (w : WatcherState) (p : ProcessIdentity) (tr : list (Ev ObsAns)) (e : Event) : Prop :=
  ∃ l x now, tr = l ++ [existT (VInspect (pid p)) x; existT VNow now]
    ∧ ((category e = Category.Working ∧ noted w now (fingerprint "process" "liveness" (byte_list "alive")) e
        ∧ (∃ r, x = Ok r ∧ pr_start_time r = start_time p))
       ∨ (category e = Category.Terminated
          ∧ noted w now (fingerprint "process" "liveness" (byte_list "dead")) e
          ∧ (∀ r, x = Ok r → pr_start_time r ≠ start_time p))).

Lemma observe_process_backed w p tr r e :
  traces (observe_process w p) tr (Ok r) → or_event r = Some e → process_backed w p tr e.
Proof.
  unfold observe_process. intros (tr1 & tr2 & x & -> & ->%(vcall_traces (VInspect (pid p))) & Hr)%traces_bind.
  apply traces_try_Ok in Hr as (tr3 & tr4 & e' & -> & (now & -> & Hn & Hc)%observation_event_traces & [-> [= ->]]).
  intros [= <-]. exists [], x, now. split; [done|]. rewrite Hc.
  destruct x as [rec|err]; [|by right]. destruct (Z.eqb_spec (pr_start_time rec) (start_time p)).
  - left. eauto.
  - right. split; [done|]. split; [done|]. by intros ? [= <-].
Qed.

(** The pane of a stored context. *)
Definition stored_herdr_pane (actual : MuxIdentity) (p : ProcessIdentity) (c : MultiplexerContext) : Prop :=
  match c with
  | CtxHerdr socket inst ws tab pane _ _ =>
      pid (mi_process actual) = pid p ∧ start_time (mi_process actual) = start_time p
      ∧ mi_server actual = socket ∧ mi_server_instance actual = inst ∧ mi_session_id actual = ws
      ∧ mi_window_id actual = tab ∧ mi_pane_id actual = pane ∧ mi_tty actual = default "" (tty p)
  | CtxTmux _ _ _ _ _ _ => False
  end.
Definition stored_tmux_pane (i : MuxIdentity) (c : MultiplexerContext) : Prop :=
  match c with
  | CtxTmux socket inst sess win pane t =>
      mi_server i = socket ∧ mi_server_instance i = inst ∧ mi_session_id i = sess
      ∧ mi_window_id i = win ∧ mi_pane_id i = pane ∧ mi_tty i = t
  | CtxHerdr _ _ _ _ _ _ _ => False
  end.

Lemma validate_observed_Ok actual p c u :
  validate_observed_herdr_identity actual p c = Ok u → stored_herdr_pane actual p c.
Proof.
  destruct c as [|socket inst ws tab pane t protocol]; [done|]. cbn. rewrite fail_if_Ok.
  rewrite !orb_false_iff, !negb_false_iff, !Z.eqb_eq, !String.eqb_eq. tauto.
Qed.
Lemma tmux_context_matches_true i c : tmux_context_matches i c = true → stored_tmux_pane i c.
Proof. destruct c; [|done]. cbn. rewrite !andb_true_iff, !String.eqb_eq. tauto. Qed.

(** The conversation ends with four parts: the server names the pane of the connection,
    which is the stored one; it gives the typed state of that pane, which is the category,
    the end and the last sequence number of the event; the evidence of the event is made;
    and the clock is read. *)
Definition herdr_backed (w : WatcherState) (p : ProcessIdentity) (c : MultiplexerContext)
    (tr : list (Ev ObsAns)) (r : ObservationResult) (e : Event) : Prop :=
  ∃ hd actual state evidence now l sa ss se,
    tr = l ++ sa ++ ss ++ se ++ [existT VNow now]
    ∧ traces (as_herdr (current_target_async env hd)) sa (Ok actual)
    ∧ stored_herdr_pane actual p c
    ∧ traces (as_herdr (agent_state_events_async env hd actual
                          (herdr_after_sequence (observation_schedule w)) 64)) ss (Ok state)
    ∧ classification_of state = Some (category e, terminal e)
    ∧ monotonic_sequence e = cursor_of (ase_events state)
    ∧ or_herdr_after_sequence r = cursor_of (ase_events state)
    ∧ traces (herdr_evidence env events_bytes hd actual state) se (Ok evidence)
    ∧ noted w now (fingerprint "herdr" "typed_pane_state" evidence) e.

Lemma observe_herdr_backed w p c tr r e :
  traces (observe_herdr env events_bytes w p c) tr (Ok r) → or_event r = Some e →
  herdr_backed w p c tr r e.
Proof.
  unfold observe_herdr. destruct c as [|socket inst ws tab pane t protocol]; [by intros [_ ?]|].
  intros (tr1 & tr2 & hd & -> & _ & Hr)%traces_try_Ok. destruct (bool_decide (protocol = Native16)).
  { apply traces_try_Ok in Hr as (? & ? & actual & _ & _ & Hr).
    apply traces_try_Ok in Hr as (? & ? & u & _ & _ & [_ [= ->]]). done. }
  apply traces_try_Ok in Hr as (tr3 & tr4 & actual & -> & Ha & Hr).
  apply traces_try_Ok in Hr as (tr5 & tr6 & [] & -> & [-> Hv] & Hr).
  apply traces_try_Ok in Hr as (tr7 & tr8 & state & -> & Hs & Hr).
  apply traces_try_Ok in Hr as (tr9 & tr10 & evidence & -> & Hev & Hr).
  destruct (classification_of state) as [[cat term]|] eqn:Ec; [|by destruct Hr as [_ [= ->]]].
  apply traces_try_Ok in Hr as (tr11 & tr12 & e' & -> & (now & -> & Hn & Hcat)%observation_event_traces & [-> [= ->]]).
  intros [= <-]. exists hd, actual, state, evidence, now, tr1, tr3, tr7, tr9.
  split; [done|]. split; [done|]. split; [symmetry in Hv; by eapply validate_observed_Ok|].
  split; [done|]. cbn. by rewrite Hcat, Ec.
Qed.

(** The conversation ends with the resolution of the pane, which is the stored one with
    the recorded process, a capture of it, and either a second capture of it and a look at
    the clock, when both captures show the same trusted wait menu, or, when the capture is
    blank, whatever the search for a menu read and a look at the clock. *)
Definition tmux_backed (w : WatcherState) (server pane : string) (p : ProcessIdentity)
    (c : MultiplexerContext) (chrome : option TmuxChrome) (tr : list (Ev ObsAns)) (e : Event) : Prop :=
  let t := for_socket_path server TWO_SECONDS in
  let screen c := actionable_bottom (live_screen chrome (clean_screen c)) 40 in
  ∃ selector i first now l sr s1 s2, selector_parse pane = Ok selector
    ∧ tr = l ++ sr ++ s1 ++ s2 ++ [existT VNow now]
    ∧ traces (as_tmux (resolve_selector t selector)) sr (Ok i)
    ∧ pid (mi_process i) = pid p ∧ start_time (mi_process i) = start_time p
    ∧ stored_tmux_pane i c
    ∧ traces (as_tmux (Tmux.capture_tail t i 80 CAPTURE_BYTES)) s1 (Ok first)
    ∧ ((∃ second text, traces (as_tmux (Tmux.capture_tail t i 80 CAPTURE_BYTES)) s2 (Ok second)
          ∧ screen first = Some text ∧ screen second = Some text ∧ about w e
          ∧ trusted_menu_event now w text text = Some e)
       ∨ (trim (clean_screen first) = [] ∧ category e = Category.Idle
          ∧ noted w now (fingerprint "screen_detection" "generic_tail" (encode_utf8 (clean_screen first))) e)).

Lemma trusted_menu_agrees now w a b e :
  trusted_menu_event now w a b = Some e → b = a ∧ about w e.
Proof.
  unfold trusted_menu_event. intros (menu & Hm & He)%bind_Some.
  apply bind_Some in He as (cat & _ & He). apply bind_Some in He as (e0 & He0 & [= <-]).
  apply labelled_wait_menu_spec in Hm as (-> & _). split; [done|].
  destruct (event_new _ _ _ _ _ _ _ _ _ _ _) as [e1|] eqn:E1; [|done]. injection He0 as <-.
  apply observed_fields in E1 as (? & ? & _). done.
Qed.

Lemma menu_of_traces t w i chrome actionable tr e :
  traces (menu_of t w i chrome actionable) tr (Ok (Some e)) →
  ∃ s2 now a c b, tr = s2 ++ [existT VNow now] ∧ actionable = Some a
    ∧ traces (as_tmux (Tmux.capture_tail t i 80 CAPTURE_BYTES)) s2 (Ok c)
    ∧ actionable_bottom (live_screen chrome (clean_screen c)) 40 = Some b
    ∧ trusted_menu_event now w a b = Some e.
Proof.
  unfold menu_of. destruct actionable as [a|]; [|by intros [_ ?]].
  intros (tr1 & tr2 & c & -> & Hc & Hr)%traces_try_Ok.
  destruct (actionable_bottom _ 40) as [b|] eqn:Eb; [|by destruct Hr as [_ ?]].
  apply traces_bind in Hr as (tr3 & tr4 & now & -> & ->%(vcall_traces VNow) & [-> [= He]]).
  exists tr1, now, a, c, b. by rewrite He.
Qed.

Lemma tail_event_traces w session trusted clean tr r e :
  traces (tail_event w session trusted clean) tr (Ok r) → or_event r = Some e →
  ∃ now, tr = [existT VNow now] ∧ trim clean = [] ∧ category e = Category.Idle
    ∧ noted w now (fingerprint "screen_detection" "generic_tail" (encode_utf8 clean)) e.
Proof.
  unfold tail_event. intros (tr1 & tr2 & now & -> & ->%(vcall_traces VNow) & Hr)%traces_bind.
  destruct (trim clean); [|by destruct Hr as [_ [= ->]]]. destruct Hr as [-> Hr]. symmetry in Hr.
  apply rbind_Ok in Hr as (e' & (? & ? & ? & ? & ? & ? & ?)%observed_fields & [= <-]).
  intros [= <-]. by exists now.
Qed.

Lemma observe_tmux_backed w server pane p session c chrome tr r e :
  traces (observe_tmux w server pane p session c chrome) tr (Ok r) → or_event r = Some e →
  tmux_backed w server pane p c chrome tr e.
Proof.
  unfold observe_tmux. cbv zeta. intros (tr1 & tr2 & selector & -> & [-> Hsel] & Hr)%traces_try_Ok.
  symmetry in Hsel. apply map_err_Ok in Hsel.
  apply traces_try_Ok in Hr as (tr3 & tr4 & i & -> & Hi & Hr).
  apply traces_try_Ok in Hr as (tr5 & tr6 & u & -> & [-> Hp]%fail_if_lift_Ok & Hr).
  apply traces_try_Ok in Hr as (tr7 & tr8 & u' & -> & [-> Hm]%fail_if_lift_Ok & Hr).
  apply traces_try_Ok in Hr as (tr9 & tr10 & first & -> & Hf & Hr).
  apply traces_try_Ok in Hr as (tr11 & tr12 & menu & -> & Hmenu & Hr). intros He. inv_watch.
  assert (stored_tmux_pane i c) as Hst
    by (apply tmux_context_matches_true; by destruct (tmux_context_matches i c)).
  destruct menu as [m|].
  - destruct Hr as [-> [= ->]]. cbn in He. injection He as <-.
    apply menu_of_traces in Hmenu as (s2 & now & a & second & b & -> & Ha & Hs & Hb & Ht).
    destruct (trusted_menu_agrees _ _ _ _ _ Ht) as [-> Hab].
    exists selector, i, first, now, [], tr3, tr9, s2. split; [done|].
    split; [by rewrite app_nil_r|]. repeat (split; [done|]). left. by exists second, a.
  - eapply tail_event_traces in Hr as (now & -> & Hb & Hc & Hn); [|done].
    exists selector, i, first, now, [], tr3, tr9, tr11. split; [done|]. split; [done|].
    repeat (split; [done|]). by right.
Qed.

(** What an event about the target itself is based on, for each kind of target. *)
Definition target_event_backed (w : WatcherState) (tr : list (Ev ObsAns)) (r : ObservationResult)
    (e : Event) : Prop :=
  match target w with
  | TProcess p => process_backed w p tr e
  | TMultiplexer provider server pane p _ (Some c) chrome stale =>
      match c with
      | CtxHerdr _ _ _ _ _ _ protocol => protocol ≠ Native16 ∧ herdr_backed w p c tr r e
      | CtxTmux _ _ _ _ _ _ =>
          provider = "tmux" ∧ stale = false ∧ tmux_backed w server pane p c chrome tr e
      end
  | TMultiplexer _ _ _ _ _ None _ _ => False
  end.

(** What any event of an observation is based on.  The clock is read first; then come the
    hook facts of a resume candidate, if there is one, the hook facts, the Codex facts and
    the target, as far as the observation goes. *)
Definition event_backed (w : WatcherState) (tr : list (Ev ObsAns)) (r : ObservationResult) (e : Event) : Prop :=
  ∃ now tr', tr = existT VNow now :: tr'
    ∧ ((∃ facts, tr' = [existT (VHook w) (Ok facts)]
          ∧ resume_candidate_event w now = Some e ∧ is_Some (correlated_hook_event facts w))
       ∨ (∃ l facts, tr' = l ++ [existT (VHook w) (Ok facts)] ∧ correlated_hook_event facts w = Some e)
       ∨ ∃ l hook codex rest,
           tr' = l ++ [existT (VHook w) (Ok hook); existT (VCodex w) (Ok codex)] ++ rest
           ∧ correlated_hook_event hook w = None
           ∧ (observe_codex_event codex w now = Some e ∧ rest = []
              ∨ observe_codex_event codex w now = None ∧ target_event_backed w rest r e)).

Lemma native_no_event w p socket inst ws tab pane t tr r :
  traces (observe_herdr env events_bytes w p (CtxHerdr socket inst ws tab pane t Native16)) tr (Ok r) →
  or_event r = None.
Proof.
  unfold observe_herdr. intros (tr1 & tr2 & hd & -> & _ & Hr)%traces_try_Ok. cbn [bool_decide] in Hr.
  rewrite bool_decide_true in Hr by done. apply traces_try_Ok in Hr as (? & ? & actual & _ & _ & Hr).
  by apply traces_try_Ok in Hr as (? & ? & u & _ & _ & [_ [= ->]]).
Qed.

(** Joining the blocking task comes before the look at a process or a pane. *)
Lemma process_backed_after w p l tr e : process_backed w p tr e → process_backed w p (l ++ tr) e.
Proof.
  intros (k & x & now & -> & Hx). exists (l ++ k), x, now. split; [by rewrite app_assoc|done].
Qed.

Lemma tmux_backed_after w server pane p c chrome l tr e :
  tmux_backed w server pane p c chrome tr e → tmux_backed w server pane p c chrome (l ++ tr) e.
Proof.
  intros (selector & i & first & now & k & sr & s1 & s2 & ? & -> & Hr).
  exists selector, i, first, now, (l ++ k), sr, s1, s2. split; [done|]. split; [by rewrite app_assoc|done].
Qed.

Lemma observe_target_backed w tr r e :
  traces (observe_target env events_bytes w) tr (Ok r) → or_event r = Some e → target_event_backed w tr r e.
Proof.
  unfold observe_target, target_event_backed, generic_observe.
  destruct (target w) as [p|provider server pane p session [c|] chrome stale].
  - intros (tr1 & tr2 & [] & -> & _ & Hr)%traces_try_Ok He.
    apply process_backed_after. by eapply observe_process_backed.
  - destruct c as [so inst ss wi pa ty|so inst ws tab pa ty protocol].
    + intros (tr1 & tr2 & [] & -> & _ & Hr)%traces_try_Ok He.
      case_bool_in Hr; [by destruct Hr as [_ [= ->]]|]. inv_watch. split; [done|]. split; [done|].
      apply tmux_backed_after. by eapply observe_tmux_backed.
    + intros Hr He. split; [|by eapply observe_herdr_backed]. intros ->.
      apply native_no_event in Hr. congruence.
  - intros (tr1 & tr2 & [] & -> & _ & Hr)%traces_try_Ok He.
    case_bool_in Hr; by destruct Hr as [_ [= ->]].
Qed.

Lemma hook_event_traces w tr o :
  traces (hook_event_of w) tr (Ok o) → ∃ facts, tr = [existT (VHook w) (Ok facts)] ∧ o = correlated_hook_event facts w.
Proof.
  unfold hook_event_of. intros (tr1 & tr2 & facts & -> & ->%(vcall_traces (VHook w)) & [-> [= ->]])%traces_try_Ok.
  by exists facts.
Qed.

Lemma codex_event_traces w now tr o :
  traces (codex_event_of w now) tr (Ok o) →
  ∃ facts, tr = [existT (VCodex w) (Ok facts)] ∧ o = observe_codex_event facts w now.
Proof.
  unfold codex_event_of. intros (tr1 & tr2 & facts & -> & ->%(vcall_traces (VCodex w)) & [-> [= ->]])%traces_try_Ok.
  by exists facts.
Qed.

Lemma resume_event_traces w now tr o :
  traces (resume_event_of w now) tr (Ok o) →
  ∀ e, o = Some e → resume_candidate_event w now = Some e
    ∧ ∃ facts, tr = [existT (VHook w) (Ok facts)] ∧ is_Some (correlated_hook_event facts w).
Proof.
  unfold resume_event_of. destruct (resume_candidate_event w now) as [c|]; [|by intros [_ [= ->]]].
  intros (tr1 & tr2 & hook & -> & (facts & -> & ->)%hook_event_traces & [-> [= ->]])%traces_try_Ok e.
  destruct (correlated_hook_event facts w) eqn:E; [|done]. intros [= <-]. split; [done|]. exists facts. eauto.
Qed.
End Based.

(** C26: An event that an observation of a watcher returns is always backed by what was
    read for it, at the instants that were read.  It is a resume candidate while the hook
    that caused the wait is still there; or the correlated hook event; or, when there is no
    hook event, the event of the Codex state; or, when there is neither, an event about the
    target itself, made from the last part of the conversation.  That event names the
    watcher and its present target and the instant read last; it says that a process works
    or has ended exactly as an inspection found its start time; for Herdr it is the typed
    state of the stored pane with the recorded process, with the last sequence number, and
    never comes from the native protocol; for tmux it is a wait menu that two captures of
    the stored pane, one after the other, both show, or the event of a blank capture. *)
Theorem observation_backed `{Rfc3339Text} `{Chrono} `{Sha256Hex} `{TargetHash} `{CodexJson} `{HerdrJson}
    `{DebugText} `{DebugId} `{DebugIdentity} env events_bytes w tr r e :
  traces (observe env events_bytes w) tr (Ok r) → or_event r = Some e →
  event_backed env events_bytes w tr r e.
Proof.
  unfold observe, event_backed. intros (tr1 & tr2 & now & -> & ->%(vcall_traces VNow) & Hr)%traces_bind He.
  exists now, tr2. split; [done|].
  apply traces_try_Ok in Hr as (tr3 & tr4 & candidate & -> & Hc & Hr). destruct candidate as [c|].
  { destruct (resume_event_traces _ _ _ _ Hc c eq_refl) as (Hres & facts & -> & Hh).
    destruct Hr as [-> [= ->]]. injection He as <-. left. by exists facts. }
  clear Hc. apply traces_try_Ok in Hr as (tr5 & tr6 & hook & -> & (facts & -> & ->)%hook_event_traces & Hr).
  right. destruct (correlated_hook_event facts w) as [h|] eqn:Eh.
  { destruct Hr as [-> [= ->]]. injection He as <-. left. exists tr3, facts. by rewrite app_nil_r. }
  apply traces_try_Ok in Hr as (tr7 & tr8 & cx & -> & (codex & -> & ->)%codex_event_traces & Hr).
  right. exists tr3, facts, codex, tr8. split; [done|]. split; [done|].
  destruct (observe_codex_event codex w now) as [x|].
  - destruct Hr as [-> [= ->]]. injection He as <-. by left.
  - right. split; [done|]. by eapply observe_target_backed.
Qed.

(** The demonstration server of Tmux, whose pane is blank. *)
Definition demo_obs_world (o : ObsOp) (w : unit) : unit * ObsAns o :=
  (w, match o return ObsAns o with
      | VTmux o => (Tmux.demo_world o tt).2
      | VHerdr o => (demo_target_world (GHerdr o) tt).2
      | VHook _ => Ok (mkFacts (λ _ _, false) (λ _ _ _, false) (λ _, Err "") (mkDateTime 1000 0 0))
      | VCodex _ => Ok demo_codex_facts
      | VInspect p => Err (Process.Disappeared p)
      | VNow => mkDateTime 1000 0 0
      | VJoin => Ok tt
      end).

Lemma observation_backed_witness :
  let _ : Rfc3339Text := toy_text in
  let _ : Chrono := seconds_of_day in
  let _ : Sha256Hex := toy_sha in
  let _ : TargetHash := toy_target_hash in
  let _ : CodexJson := toy_codex_json in
  let _ : HerdrJson := demo_herdr_json in
  let _ : DebugText := demo_debug in
  let _ : DebugId := demo_debug_id in
  let _ : DebugIdentity := demo_debug_identity in
  let run := converse demo_obs_world (observe demo_env (λ _, Err "") demo_tmux_watcher) tt in
  ∃ r e, run.2 = Ok r ∧ or_event r = Some e ∧ category e = Category.Idle
    ∧ event_backed demo_env (λ _, Err "") demo_tmux_watcher run.1 r e.
Proof.
  intros rfc ch sha th cj hj dt di did run.
  pose proof (converse_traces demo_obs_world (observe demo_env (λ _, Err "") demo_tmux_watcher) tt) as Ht.
  change (converse _ _ _) with run in Ht.
  assert (∃ r e, run.2 = Ok r ∧ or_event r = Some e ∧ category e = Category.Idle) as (r & e & E & He & Hc).
  { destruct (run.2) as [r|m] eqn:E; [|vm_compute in E; discriminate].
    destruct (or_event r) as [e|] eqn:Ee; [|vm_compute in E; injection E as <-; discriminate].
    exists r, e. split; [done|]. split; [done|]. vm_compute in E. injection E as <-. by injection Ee as <-. }
  rewrite E in Ht. exists r, e. split; [exact E|]. split; [exact He|]. split; [exact Hc|].
  exact (observation_backed demo_env (λ _, Err "") demo_tmux_watcher run.1 r e Ht He).
Defined.
