(* ===== verification/PlannerProcess.v ===== *)
(** * The planner process (src/src/planner/process.rs)

    One run of a planner executable: its environment, its input, the bounded readers of
    its output, the wait with a timeout, and the kills.  What the process does is given by
    what the system calls answer. *)
From S2P Require Import Prelude Text Utf8 Json Screen Actuator Planner Claude Mux Tmux.
From stdpp Require Import pretty.

Local Open Scope Z_scope.

Record PlannerProcessRequest : Type := mkPlannerRequest {
  rq_executable : string;
  rq_args : list string;
  rq_cwd : string;
  rq_stdin : list Z;
  rq_timeout : Z;
  rq_max_output_bytes : nat;
  rq_extra_env : gmap string string;
}.

Record PlannerProcessResult : Type := mkPlannerOutput { po_stdout : list Z; po_stderr : list Z }.

Definition minimal_child_environment (extra : list (string * string)) : gmap string string :=
  foldl (λ env kv, <[kv.1 := kv.2]> env) {[ "LANG" := "C"; "LC_ALL" := "C" ]} extra.

(** [read_capped]: each read is what [Read::read] answered; an empty one is the end. *)
Fixpoint read_capped_from (limit : nat) (result : list Z) (hit : bool)
    (reads : list (Prelude.result string (list Z))) : list Z * bool :=
  match reads with
  | [] | Ok [] :: _ => (result, hit)
  | Err _ :: _ => (result, true)
  | Ok chunk :: reads =>
      if (limit <=? length result)%nat then read_capped_from limit result true reads
      else
        let remaining := (limit - length result)%nat in
        let kept := take (Nat.min (length chunk) remaining) chunk in
        read_capped_from limit (result ++ kept) (hit || (remaining <? length chunk)%nat) reads
  end.

Definition read_capped (stream : option (list (result string (list Z)))) (limit : nat) : list Z * bool :=
  match stream with
  | None => ([], false)
  | Some reads => read_capped_from limit [] false reads
  end.

(** What is done to end a child. *)
Inductive Cleanup : Type := KillGroup | KillChild | WaitChild.
Definition kill_tree : list Cleanup := [KillGroup; KillChild; WaitChild].

(** The child as the calls show it: whether it was spawned; whether the write of its
    standard input returns, with any result; its waits; the reads of its pipes, [None]
    when the reader thread panicked. *)
Record PlannerChild : Type := mkPlannerChild {
  pc_spawned : result string unit;
  pc_stdin_returns : bool;
  pc_polls : nat → Poll;
  pc_stdout : option (list (result string (list Z)));
  pc_stderr : option (list (result string (list Z)));
}.

Definition joined (reads : option (list (result string (list Z)))) (limit : nat) : list Z * bool :=
  match reads with None => ([], true) | Some reads => read_capped (Some reads) limit end.

(** [None]: the run does not return, because the input is never taken or within [fuel]
    rounds of the wait loop. *)
Definition run_planner_process (fuel : nat) (c : PlannerChild) (request : PlannerProcessRequest)
    : option (list Cleanup * result Planner.ProcessError PlannerProcessResult) :=
  match pc_spawned c with
  | Err e => Some ([], Err (ProcOther e))
  | Ok _ =>
      if negb (pc_stdin_returns c) then None
      else
        outcome ← wait_loop fuel (rq_timeout request) (pc_polls c) 0;
        let '(stdout, out_hit) := joined (pc_stdout c) (rq_max_output_bytes request) in
        let '(stderr, err_hit) := joined (pc_stderr c) (rq_max_output_bytes request) in
        Some match outcome with
        | WaitFailed e => (kill_tree, Err (ProcOther e))
        | TimedOut => (kill_tree ++ [WaitChild], Err (ProcTimeout "planner process timed out"))
        | Exited _ =>
            if out_hit || err_hit
            then (kill_tree ++ [WaitChild], Err (ProcOutputLimit "planner output exceeded bound"))
            else ([], Ok (mkPlannerOutput stdout stderr))
        end
  end.

(** [verify_process_gone]; [pgrep] is the output of the command. *)
Definition verify_process_gone (executable : string) (pgrep : result string (list Z))
    : result Planner.ProcessError unit :=
  let? output := map_err (λ e, ProcOther ("pgrep failed: " +:+ e)) pgrep in
  let needle := chars executable in
  let survivors := List.filter (λ line, has needle line && negb (has (chars "pgrep") line))
                     (str_lines (decode_utf8 (from_utf8_lossy output))) in
  match survivors with
  | [] => Ok tt
  | _ => Err (ProcOther ("planner process still running after kill: "
                         +:+ string_of_bytes (encode_utf8 (join_with [59; 32] survivors))))
  end.

(** The request of [PlannerBroker::invoke_one]. *)
Definition planner_request (planning : PlanningConfig) (planner : ResolvedPlanner) (cwd : string)
    (stdin : list Z) : PlannerProcessRequest :=
  mkPlannerRequest (rp_executable planner) (rp_args planner) cwd stdin
    (from_secs (Z.max (planning_timeout_seconds planning) 1)) (Z.to_nat (max_output_bytes planning)) ∅.

(** ** The bounded reader *)
Lemma read_capped_spec limit result hit chunks :
  Forall (λ c, c ≠ []) chunks → (length result ≤ limit)%nat →
  read_capped_from limit result hit (Ok <$> chunks)
  = (take limit (result ++ concat chunks), hit || (limit <? length (result ++ concat chunks))%nat).
Proof.
  revert result hit. induction chunks as [|chunk chunks IH]; intros result hit Hne Hl; cbn [fmap list_fmap concat].
  - cbn [read_capped_from]. rewrite app_nil_r, firstn_all2 by lia. rewrite (proj2 (Nat.ltb_ge _ _)) by lia. by rewrite orb_false_r.
  - apply Forall_cons in Hne as [Hc Hne]. cbn [read_capped_from]. destruct chunk as [|b chunk]; [done|].
    remember (b :: chunk) as ch eqn:Ech. destruct (Nat.leb_spec limit (length result)) as [Hle|Hlt].
    + assert (0 < length ch)%nat as Hpos by (subst ch; cbn; lia).
      rewrite IH by done. rewrite !take_app_le by lia. rewrite !length_app.
      rewrite (proj2 (Nat.ltb_lt limit (length result + (length ch + length (concat chunks))))) by lia.
      by rewrite orb_true_r.
    + rewrite IH by (done || rewrite length_app, length_take; lia). rewrite app_assoc.
      destruct (Nat.ltb_spec (limit - length result) (length ch)) as [Hbig|Hsmall].
      * rewrite Nat.min_r by lia. rewrite orb_true_r. cbn [orb].
        assert (length (result ++ take (limit - length result) ch) = limit) as Hfull
          by (rewrite length_app, length_take; lia).
        rewrite take_app_le, firstn_all2 by lia.
        rewrite <- (app_assoc result ch), take_app_ge, take_app_le by lia.
        rewrite !length_app, (proj2 (Nat.ltb_lt _ (length result + (length ch + _)))) by lia.
        by rewrite orb_true_r.
      * rewrite Nat.min_l, (take_ge ch) by lia. by rewrite orb_false_r.
Qed.

Lemma joined_spec limit chunks :
  Forall (λ c, c ≠ []) chunks →
  joined (Some (Ok <$> chunks)) limit = (take limit (concat chunks), (limit <? length (concat chunks))%nat).
Proof. intros Hc. cbn [joined read_capped]. rewrite read_capped_spec; [done|done|cbn; lia]. Qed.

(** The environment of a planner has nothing of the daemon's. *)
Lemma planner_environment planning planner cwd stdin :
  minimal_child_environment (map_to_list (rq_extra_env (planner_request planning planner cwd stdin)))
  = {[ "LANG" := "C"; "LC_ALL" := "C" ]}.
Proof. cbn [planner_request rq_extra_env]. by rewrite map_to_list_empty. Qed.

(** C29: A planner run is bounded in time and in output.  When the child takes its input
    and its pipes end, the run returns.  It polls the child every five milliseconds, first
    for an exit and then for the deadline: the run ends at the first poll [k] at which the
    child has exited, or the poll fails, or the child is still running and the timeout has
    passed; at every earlier poll the child was running and the timeout had not passed.  If
    no round takes longer than [round], poll [k] happens less than [round] after the timeout.
    A child seen to have exited is never reported as timed out, however late the poll.  A
    timeout, and after an exit an output longer than the limit, is reported after killing
    the process group, the child, and reaping it; otherwise both outputs are returned
    complete, and nothing is killed. *)
Theorem planner_run_bounded fuel c request out err :
  pc_spawned c = Ok tt → pc_stdin_returns c = true →
  pc_stdout c = Some (Ok <$> out) → pc_stderr c = Some (Ok <$> err) →
  Forall (λ c, c ≠ []) (out ++ err) →
  (∀ j, FIVE_MS * Z.of_nat j ≤ pl_elapsed (pc_polls c j)) →
  (0 < fuel)%nat → rq_timeout request ≤ FIVE_MS * Z.of_nat (fuel - 1) →
  let limit := rq_max_output_bytes request in
  let status j := pl_status (pc_polls c j) in
  let elapsed j := pl_elapsed (pc_polls c j) in
  ∃ k result, run_planner_process fuel c request = Some result
    ∧ (∀ j, (j < k)%nat → status j = Ok None ∧ elapsed j < rq_timeout request)
    ∧ (∀ round, elapsed 0%nat < round → (∀ j, elapsed (S j) ≤ elapsed j + round) →
         0 ≤ rq_timeout request → elapsed k < rq_timeout request + round)
    ∧ match status k with
      | Err e => result = ([KillGroup; KillChild; WaitChild], Err (ProcOther e))
      | Ok None =>
          rq_timeout request ≤ elapsed k
          ∧ result = ([KillGroup; KillChild; WaitChild; WaitChild],
                      Err (ProcTimeout "planner process timed out"))
      | Ok (Some _) =>
          if bool_decide ((length (concat out) ≤ limit)%nat ∧ (length (concat err) ≤ limit)%nat)
          then result = ([], Ok (mkPlannerOutput (concat out) (concat err)))
          else result = ([KillGroup; KillChild; WaitChild; WaitChild],
                         Err (ProcOutputLimit "planner output exceeded bound"))
      end.
Proof.
  intros Hs Hin Hout Herr [Ho He]%Forall_app Hsleep Hf Ht limit status elapsed.
  destruct (wait_loop_returns fuel (rq_timeout request) (pc_polls c) 0 Hsleep Hf Ht) as [outcome Hw].
  unfold run_planner_process. rewrite Hs, Hin, Hw, Hout, Herr, !joined_spec by done. cbn [negb mbind option_bind].
  apply wait_loop_rounds in Hw as (k & _ & Hend & Hj). exists k. eexists. split; [done|].
  split; [intros j Hlt; apply Hj; lia|]. split.
  { intros round H0 Hround Hpos. destruct k as [|k]; [lia|].
    specialize (Hround k). destruct (Hj k) as [_ ?]; [lia|]. unfold elapsed in *. lia. }
  unfold status, elapsed. destruct outcome; cbn in Hend; [| |destruct Hend as [Hend ?]]; rewrite Hend; [|done..].
  fold limit. case_bool_decide as Hl.
  - rewrite !(proj2 (Nat.ltb_ge _ _)) by lia. cbn [orb]. by rewrite !firstn_all2 by lia.
  - destruct (Nat.ltb_spec limit (length (concat out))), (Nat.ltb_spec limit (length (concat err))); try done. lia.
Qed.

(** A child that answers in two reads and exits at the second poll. *)
Definition demo_planner_child : PlannerChild :=
  mkPlannerChild (Ok tt) true
    (λ j, mkPoll (Ok (if (1 <=? j)%nat then Some true else None)) (FIVE_MS * Z.of_nat j))
    (Some (Ok <$> [[123]; [125]])) (Some (Ok <$> [])).
Definition demo_planner_request : PlannerProcessRequest :=
  mkPlannerRequest "planner" [] "/tmp" [] (FIVE_MS * 4) 16 ∅.

(** One that is still running at every poll. *)
Definition stuck_planner_child : PlannerChild :=
  mkPlannerChild (Ok tt) true (λ j, mkPoll (Ok None) (FIVE_MS * Z.of_nat j))
    (Some (Ok <$> [])) (Some (Ok <$> [])).

Lemma planner_run_bounded_witness :
  run_planner_process 5 demo_planner_child demo_planner_request = Some ([], Ok (mkPlannerOutput [123; 125] []))
  ∧ ∃ k, pl_elapsed (pc_polls stuck_planner_child k) < FIVE_MS * 4 + FIVE_MS
    ∧ FIVE_MS * 4 ≤ pl_elapsed (pc_polls stuck_planner_child k)
    ∧ run_planner_process 5 stuck_planner_child demo_planner_request
      = Some ([KillGroup; KillChild; WaitChild; WaitChild], Err (ProcTimeout "planner process timed out")).
Proof.
  assert (Forall (λ c : list Z, c ≠ []) ([[123]; [125]] ++ [])) as Hne by (repeat constructor; done).
  assert (0 < 5)%nat as Hf by lia.
  assert (rq_timeout demo_planner_request ≤ FIVE_MS * Z.of_nat (5 - 1)) as Ht by (cbn; lia).
  split.
  - assert (∀ j, FIVE_MS * Z.of_nat j ≤ pl_elapsed (pc_polls demo_planner_child j)) as Hp by (intros j; cbn; lia).
    destruct (planner_run_bounded 5 demo_planner_child demo_planner_request [[123]; [125]] []
                eq_refl eq_refl eq_refl eq_refl Hne Hp Hf Ht) as (k & result & Hr & Hj & _ & Hend).
    rewrite Hr. destruct k as [|k]; [destruct Hend as [Hbad _]; vm_compute in Hbad; by destruct Hbad|].
    cbn in Hend. by rewrite Hend.
  - assert (∀ j, FIVE_MS * Z.of_nat j ≤ pl_elapsed (pc_polls stuck_planner_child j)) as Hp by (intros j; cbn; lia).
    destruct (planner_run_bounded 5 stuck_planner_child demo_planner_request [] []
                eq_refl eq_refl eq_refl eq_refl (Forall_nil_2 _) Hp Hf Ht) as (k & result & Hr & _ & Hb & He & ->).
    exists k. split; [|split; [exact He|exact Hr]].
    apply (Hb FIVE_MS); cbn; [unfold FIVE_MS; lia| |unfold FIVE_MS; lia]. intros j. lia.
Defined.
