(* ===== verification/Paths.v ===== *)
(** * The managed directories (src/src/paths.rs)

    Where configuration, state and runtime files live: the resolution of the three
    directories, their creation by a walk that never follows a link, and the checks of
    names and paths below them.  A path is the list of its components, as
    [Path::components] yields them, so repeated separators and [.] are not represented. *)
From S2P Require Import Prelude Text Utf8 Effects Actuator Runtime Mux.
From stdpp Require Import pretty.

Local Open Scope Z_scope.

(** ** Paths *)
Inductive Component : Type := RootDir | CurDir | ParentDir | Normal (name : string).

#[global] Instance Component_eq_dec : EqDecision Component.
Proof. solve_decision. Defined.

Abbreviation Path := (list Component).

(** [Path::components]: a [.] counts only at the start of a relative path. *)
Definition component_of (part : string) : option Component :=
  if is_empty part || String.eqb part "." then None
  else Some (if String.eqb part ".." then ParentDir else Normal part).

Definition components (s : string) : Path :=
  let parts := string_of_bytes <$> split_on 47 (byte_list s) in
  (if starts_with "/" s then [RootDir]
   else match parts with part :: _ => if String.eqb part "." then [CurDir] else [] | [] => [] end)
  ++ omap component_of parts.

Definition absolute (p : Path) : bool := match p with RootDir :: _ => true | _ => false end.

(** [Path::join]. *)
Definition join (p q : Path) : Path :=
  if absolute q then q else p ++ List.filter (λ c, negb (bool_decide (c = CurDir))) q.

Definition path_file_name (p : Path) : option string :=
  match last p with Some (Normal n) => Some n | _ => None end.

Definition parent (p : Path) : option Path :=
  match last p with None | Some RootDir => None | _ => Some (removelast p) end.

Definition require_absolute_clean (p : Path) : result string unit :=
  fail_if (negb (absolute p) || existsb (λ c, bool_decide (c = ParentDir)) p)
    "path must be absolute without traversal".

(** ** Calls *)
Inductive Lookup : Type := Found | NotFound | Failed (m : string).
Inductive Made : Type := Created | Existed | NotMade (m : string).
Inductive Leaf : Type := Symlink | Other | NoEntry | LeafError (m : string).

(** The flags of an open and of a look at an entry. *)
Inductive OFlag : Type := RDONLY | DIRECTORY | NOFOLLOW | CLOEXEC.
Inductive AtFlag : Type := SYMLINK_NOFOLLOW.

#[global] Instance OFlag_eq_dec : EqDecision OFlag.
Proof. solve_decision. Defined.

Definition DIRECTORY_FLAGS : list OFlag := [RDONLY; DIRECTORY; NOFOLLOW; CLOEXEC].

Inductive PathOp : Type :=
| PStat (p : Path)
| PCanonicalize (p : Path)
| POpenRoot (flags : list OFlag) (mode : Z)
| PMkdirat (fd : Z) (name : string) (mode : Z)
| POpenat (fd : Z) (name : string) (flags : list OFlag) (mode : Z)
| PFchmod (fd mode : Z)
| PFstat (fd : Z)
| PStatat (fd : Z) (name : string) (flags : list AtFlag).

Definition PathAns (o : PathOp) : Type :=
  match o with
  | PStat _ => Lookup
  | PCanonicalize _ => result string Path
  | POpenRoot _ _ | POpenat _ _ _ _ => result string Z
  | PMkdirat _ _ _ => Made
  | PFchmod _ _ => result string unit
  | PFstat _ => result string (Z * Z)
  | PStatat _ _ _ => Leaf
  end.

Abbreviation PathProg := (Prog PathAns).
Definition pathcall (o : PathOp) : PathProg (PathAns o) := call o.

(** ** Physical paths *)
Definition no_ancestor : string := "path has no existing ancestor to physicalize".

(** The longest existing ancestor of a reversed path, and the names below it, the
    deepest first. *)
Fixpoint existing_ancestor (rev_path : Path) (missing : list string)
    : PathProg (result string (Path * list string)) :=
  match rev_path with
  | [] => Ret (Err no_ancestor)
  | c :: rest =>
      let! found := pathcall (PStat (reverse rev_path)) in
      match found with
      | Found => Ret (Ok (reverse rev_path, missing))
      | NotFound =>
          match c with
          | Normal name => existing_ancestor rest (missing ++ [name])
          | _ => Ret (Err no_ancestor)
          end
      | Failed m => Ret (Err m)
      end
  end.

Definition physicalize_existing_prefix (p : Path) : PathProg (result string Path) :=
  try! _ := lift (require_absolute_clean p) in
  try! found := existing_ancestor (reverse p) [] in
  try! physical := pathcall (PCanonicalize found.1) in
  let full := physical ++ (Normal <$> reverse found.2) in
  try! _ := lift (require_absolute_clean full) in
  Ret (Ok full).

(** ** The directories *)
Record WatchmePaths : Type := mkPaths { config_dir : Path; state_dir : Path; runtime_dir : Path }.

Section Paths.
Context (euid : Z).

Definition runtime_fallback : Path := components ("/tmp/watchme-" +:+ pretty euid).

Definition physical_or (p : option Path) (fallback : Path) : PathProg (result string Path) :=
  match p with Some p => physicalize_existing_prefix p | None => Ret (Ok fallback) end.

Definition resolve (home : Path) (config_home state_home runtime : option Path)
    : PathProg (result string WatchmePaths) :=
  try! _ := lift (require_absolute_clean home) in
  try! _ := lift (require_absolute_clean (default home config_home)) in
  try! _ := lift (require_absolute_clean (default home state_home)) in
  try! _ := lift (match runtime with Some p => require_absolute_clean p | None => Ok tt end) in
  try! home := physicalize_existing_prefix home in
  try! config_root := physical_or config_home (join home [Normal ".config"]) in
  try! state_root := physical_or state_home (join home [Normal ".local"; Normal "state"]) in
  try! runtime := match runtime with
                  | Some p => try! r := physicalize_existing_prefix p in Ret (Ok (join r [Normal "watchme"]))
                  | None => physicalize_existing_prefix runtime_fallback
                  end in
  Ret (Ok (mkPaths (join config_root [Normal "watchme"]) (join state_root [Normal "watchme"]) runtime)).

(** Each directory is opened below the one before it, without following links. *)
Fixpoint open_chain (create : bool) (p : Path) (dir : Z) : PathProg (result string Z) :=
  match p with
  | [] => Ret (Ok dir)
  | RootDir :: p => open_chain create p dir
  | Normal name :: p =>
      try! _ := (if create then
                   let! made := pathcall (PMkdirat dir name 448) in
                   Ret (match made with Created | Existed => Ok tt | NotMade m => Err m end)
                 else Ret (Ok tt)) in
      try! next := pathcall (POpenat dir name DIRECTORY_FLAGS 0) in
      open_chain create p next
  | _ => Ret (Err "unsafe path component")
  end.

Definition open_directory_chain (p : Path) (create : bool) : PathProg (result string Z) :=
  try! _ := lift (require_absolute_clean p) in
  try! root := pathcall (POpenRoot DIRECTORY_FLAGS 0) in
  open_chain create p root.

Definition verify_owned_private (dir : Z) : PathProg (result string unit) :=
  try! st := pathcall (PFstat dir) in
  Ret (fail_if (negb (st.1 =? euid) || negb (Z.land st.2 63 =? 0)) "managed directory is not owner-only").

Definition create_one (p : Path) : PathProg (result string unit) :=
  try! dir := open_directory_chain p true in
  try! _ := pathcall (PFchmod dir 448) in
  verify_owned_private dir.

Definition create_owner_only (w : WatchmePaths) : PathProg (result string unit) :=
  try! _ := create_one (config_dir w) in
  try! _ := create_one (state_dir w) in
  create_one (runtime_dir w).

Definition state_file (w : WatchmePaths) (name : string) : result string Path :=
  match components name with
  | [Normal _] => Ok (join (state_dir w) (components name))
  | _ => Err "state filename must be a single safe component"
  end.

Definition validate_managed_path (p : Path) : PathProg (result string unit) :=
  try! _ := lift (require_absolute_clean p) in
  try! above := lift (ok_or (parent p) "managed path has no parent") in
  try! name := lift (ok_or (path_file_name p) "managed path has no leaf") in
  try! dir := open_directory_chain above false in
  let! leaf := pathcall (PStatat dir name [SYMLINK_NOFOLLOW]) in
  Ret (match leaf with
       | Symlink => Err "managed path leaf is a symlink"
       | Other | NoEntry => Ok tt
       | LeafError m => Err m
       end).
End Paths.

(** ** What the operations do *)
Lemma pathcall_traces o tr (x : PathAns o) : traces (pathcall o) tr x ↔ tr = [existT o x].
Proof. apply traces_call. Qed.

Definition clean (p : Path) : Prop := absolute p = true ∧ ParentDir ∉ p.

Lemma require_absolute_clean_Ok p : require_absolute_clean p = Ok tt ↔ clean p.
Proof.
  unfold require_absolute_clean, clean. rewrite fail_if_Ok, orb_false_iff, negb_false_iff, existsb_false_elem.
  split; intros [-> Hp]; (split; [done|]).
  - intros Hin. specialize (Hp _ Hin). by rewrite bool_decide_true in Hp.
  - intros c Hc. apply bool_decide_false. by intros ->.
Qed.

(** The names a walk goes through. *)
Definition names (p : Path) : list string := omap (λ c, match c with Normal n => Some n | _ => None end) p.

(** The conversation of a walk from one directory to another: each name is created with
    mode 0700 in the directory reached so far, or is already there, and is opened from it
    as a directory and not through a link. *)
Inductive walk : Z → list string → list (Ev PathAns) → Z → Prop :=
| walk_end dir : walk dir [] [] dir
| walk_step dir name names made flags next tr last :
    made = Created ∨ made = Existed → DIRECTORY ∈ flags → NOFOLLOW ∈ flags →
    walk next names tr last →
    walk dir (name :: names)
      (existT (PMkdirat dir name 448) made :: existT (POpenat dir name flags 0) (Ok next) :: tr)
      last.

(** What a name of a directory stands for, directories being known by their handles. *)
Inductive Entry : Type := RealDirectory (fd : Z) | Link (to : Path) | OtherFile.

(** [open(2)]: with [O_DIRECTORY] and [O_NOFOLLOW] it succeeds on a directory only, not on
    a link to one.  [entry] says what each name was when it was opened. *)
Definition opens_honestly (entry : Z → string → Entry) (tr : list (Ev PathAns)) : Prop :=
  ∀ fd name flags mode next, existT (POpenat fd name flags mode) (Ok next) ∈ tr →
    DIRECTORY ∈ flags → NOFOLLOW ∈ flags → entry fd name = RealDirectory next.

Lemma opens_honestly_part entry tr tr' : opens_honestly entry tr → tr' ⊆ tr → opens_honestly entry tr'.
Proof. unfold opens_honestly. naive_solver. Qed.

(** The directory reached through real directories only. *)
Inductive physical (entry : Z → string → Entry) : Z → list string → Z → Prop :=
| physical_here dir : physical entry dir [] dir
| physical_below dir name next names last :
    entry dir name = RealDirectory next → physical entry next names last →
    physical entry dir (name :: names) last.

Lemma walk_physical entry root ns tr last :
  walk root ns tr last → opens_honestly entry tr → physical entry root ns last.
Proof.
  induction 1 as [|dir name ns made flags next tr last _ Hd Hn _ IH]; intros Ho; [constructor|].
  econstructor; [eapply Ho; [|done|done]; right; left|]. apply IH.
  eapply opens_honestly_part; [exact Ho|]. set_solver.
Qed.

Lemma open_chain_walk p dir tr last :
  traces (open_chain true p dir) tr (Ok last) → walk dir (names p) tr last.
Proof.
  revert dir tr. induction p as [|[| | |name] p IH]; intros dir tr; cbn [open_chain names omap].
  - intros [-> [= <-]]. constructor.
  - apply IH.
  - by intros [_ ?].
  - by intros [_ ?].
  - intros (tr1 & tr2 & [] & -> & H1 & Hr)%traces_try_Ok.
    apply traces_bind in H1 as (t1 & t2 & made & -> & ->%(pathcall_traces (PMkdirat dir name 448)) & [-> Hm]).
    apply traces_try_Ok in Hr as (t3 & t4 & next & -> & ->%(pathcall_traces (POpenat dir name DIRECTORY_FLAGS 0)) & Hr).
    apply IH in Hr. cbn. constructor; [by destruct made; [left|right|]|set_solver|set_solver|done].
Qed.

(** ** Properties *)

(** A directory that was walked to without following a link, given mode 0700, and found
    to be owned by the user and closed to everybody else. *)
Definition made_private (euid : Z) (p : Path) (tr : list (Ev PathAns)) : Prop :=
  clean p ∧ ∃ l flags root steps dir mode l',
    tr = l ++ existT (POpenRoot flags 0) (Ok root) :: steps
           ++ [existT (PFchmod dir 448) (Ok tt); existT (PFstat dir) (Ok (euid, mode))] ++ l'
    ∧ walk root (names p) steps dir ∧ Z.land mode 63 = 0
    ∧ ∀ entry, opens_honestly entry tr → physical entry root (names p) dir.

Lemma create_one_private euid p tr : traces (create_one euid p) tr (Ok tt) → made_private euid p tr.
Proof.
  unfold create_one, open_directory_chain, verify_owned_private.
  intros (tr1 & tr2 & dir & -> & H1 & Hr)%traces_try_Ok.
  apply traces_try_Ok in H1 as (t1 & t2 & [] & -> & [-> Hc] & H1).
  apply traces_try_Ok in H1 as (t3 & t4 & root & -> & ->%(pathcall_traces (POpenRoot DIRECTORY_FLAGS 0)) & Hw%open_chain_walk).
  apply traces_try_Ok in Hr as (t5 & t6 & [] & -> & ->%(pathcall_traces (PFchmod dir 448)) & Hr).
  apply traces_try_Ok in Hr as (t7 & t8 & [uid mode] & -> & ->%(pathcall_traces (PFstat dir)) & [-> Hs]).
  symmetry in Hs, Hc. apply require_absolute_clean_Ok in Hc. cbn in Hs. inv_watch.
  split; [done|]. exists [], DIRECTORY_FLAGS, root, t4, dir, mode, [].
  split; [cbn; by rewrite <- ?app_assoc|]. split; [done|]. split; [done|]. intros entry Ho.
  eapply walk_physical; [done|]. eapply opens_honestly_part; [exact Ho|]. set_solver.
Qed.

Lemma made_private_app euid p l tr l' : made_private euid p tr → made_private euid p (l ++ tr ++ l').
Proof.
  intros [Hc (k & flags & root & steps & dir & mode & k' & -> & Hw & Hm & Hp)]. split; [done|].
  exists (l ++ k), flags, root, steps, dir, mode, (k' ++ l').
  split; [rewrite <- !app_assoc; cbn; by rewrite <- !app_assoc|]. split; [done|]. split; [done|].
  intros entry Ho. apply Hp. eapply opens_honestly_part; [exact Ho|]. set_solver.
Qed.

(** C19: When the creation of the managed directories succeeds, each of the configuration,
    state and runtime directories was reached from the root one name at a time, without a
    parent step, every name created with mode 0700 in the directory before it, or already
    there, and opened from it with [O_DIRECTORY] and [O_NOFOLLOW], so that on a host whose
    [open] honours these flags no name on the way was a link; then it was given mode 0700,
    and found to be owned by the effective user with no permission for anybody else. *)
Theorem managed_directories_private euid w tr :
  traces (create_owner_only euid w) tr (Ok tt) →
  Forall (λ p, made_private euid p tr) [config_dir w; state_dir w; runtime_dir w].
Proof.
  unfold create_owner_only. intros (tr1 & tr2 & [] & -> & H1%create_one_private & Hr)%traces_try_Ok.
  apply traces_try_Ok in Hr as (tr3 & tr4 & [] & -> & H2%create_one_private & H3%create_one_private).
  constructor; [|constructor; [|constructor; [|constructor]]].
  - apply (made_private_app euid _ [] _ (tr3 ++ tr4) H1).
  - apply (made_private_app euid _ tr1 _ tr4 H2).
  - pose proof (made_private_app euid _ (tr1 ++ tr3) _ [] H3) as Hp. rewrite app_nil_r, <- app_assoc in Hp. exact Hp.
Qed.

Lemma component_name part n :
  component_of part = Some (Normal n) → part = n ∧ n ≠ "" ∧ n ≠ "." ∧ n ≠ "..".
Proof.
  unfold component_of. destruct (is_empty part || _) eqn:E1; [done|].
  destruct (String.eqb_spec part "..") as [|Hd]; [done|]. intros [= <-].
  apply orb_false_iff in E1 as [E1 E2%String.eqb_neq]. split; [done|]. split; [by intros ->|done].
Qed.

(** A state file is one name directly in the state directory. *)
Lemma state_file_confined w name p :
  state_file w name = Ok p ↔ ∃ n, components name = [Normal n] ∧ p = state_dir w ++ [Normal n].
Proof.
  unfold state_file. destruct (components name) as [|[| | |n] [|]]; split; try done;
    try by intros (m & ? & _).
  - intros [= <-]. exists n. done.
  - intros (m & [= <-] & ->). done.
Qed.

(** The names that are not there yet, from the deepest up. *)
Fixpoint misses (existing : Path) (missing : list string) : list (Ev PathAns) :=
  match missing with
  | [] => []
  | name :: above =>
      existT (PStat (existing ++ (Normal <$> reverse (name :: above)))) NotFound :: misses existing above
  end.

Lemma existing_ancestor_traces rp missing tr existing missing' :
  traces (existing_ancestor rp missing) tr (Ok (existing, missing')) →
  ∃ new, missing' = missing ++ new ∧ reverse rp = existing ++ (Normal <$> reverse new)
    ∧ tr = misses existing new ++ [existT (PStat existing) Found].
Proof.
  revert missing tr. induction rp as [|c rp IH]; intros missing tr; cbn [existing_ancestor]; [by intros [_ ?]|].
  intros (tr1 & tr2 & found & -> & ->%(pathcall_traces (PStat (reverse (c :: rp)))) & Hr)%traces_bind.
  destruct found as [| |m]; [| |by destruct Hr].
  - destruct Hr as [-> [= <- <-]]. exists []. cbn. by rewrite !app_nil_r.
  - destruct c as [| | |name]; try by destruct Hr.
    apply IH in Hr as (new & -> & Hrev & ->). exists (name :: new).
    rewrite <- (app_assoc missing). split; [done|].
    assert (reverse (Normal name :: rp) = existing ++ (Normal <$> reverse (name :: new))) as E
      by (rewrite !reverse_cons, fmap_app, app_assoc, Hrev; done).
    split; [exact E|]. cbn [misses app]. by rewrite E.
Qed.

(** A physical path: the longest prefix that exists, canonical, and the rest unchanged. *)
Lemma physicalize_spec p tr full :
  traces (physicalize_existing_prefix p) tr (Ok full) →
  ∃ existing below physical, p = existing ++ (Normal <$> below)
    ∧ tr = misses existing (reverse below)
           ++ [existT (PStat existing) Found; existT (PCanonicalize existing) (Ok physical)]
    ∧ full = physical ++ (Normal <$> below) ∧ clean p ∧ clean full.
Proof.
  unfold physicalize_existing_prefix. intros (tr1 & tr2 & [] & -> & [-> Hc] & Hr)%traces_try_Ok.
  apply traces_try_Ok in Hr as (tr3 & tr4 & [existing missing] & -> & Hx & Hr).
  apply existing_ancestor_traces in Hx as (new & -> & Hrev & ->). cbn [fst snd app] in Hr.
  apply traces_try_Ok in Hr as (tr5 & tr6 & physical & -> & ->%(pathcall_traces (PCanonicalize existing)) & Hr).
  apply traces_try_Ok in Hr as (tr7 & tr8 & [] & -> & [-> Hf] & [-> [= ->]]).
  symmetry in Hc, Hf. apply require_absolute_clean_Ok in Hc, Hf. rewrite reverse_involutive in Hrev.
  exists existing, (reverse new), physical. rewrite reverse_involutive, <- app_assoc. done.
Qed.

(** That name is not empty and not a step of its own. *)
Lemma state_file_name w name p :
  state_file w name = Ok p → ∃ n, p = state_dir w ++ [Normal n] ∧ n ≠ "" ∧ n ≠ "." ∧ n ≠ "..".
Proof.
  intros (n & Hn & ->)%state_file_confined. exists n. split; [done|].
  assert (Normal n ∈ components name) as Hin by (rewrite Hn; set_solver).
  unfold components in Hin. apply elem_of_app in Hin as [Hin|Hin].
  - exfalso. destruct (starts_with "/" name); [set_solver|].
    destruct (string_of_bytes <$> _) as [|part parts]; [set_solver|]. destruct (String.eqb part "."); set_solver.
  - apply list_elem_of_omap in Hin as (part & _ & Hp). by apply component_name in Hp as (-> & ?).
Qed.

(** A host on which every directory is there and private. *)
Definition demo_path_world (o : PathOp) (w : unit) : unit * PathAns o :=
  (w, match o return PathAns o with
      | PStat _ => Found
      | PCanonicalize p => Ok p
      | POpenRoot _ _ => Ok 3
      | PMkdirat _ _ _ => Existed
      | POpenat fd _ _ _ => Ok (fd + 1)
      | PFchmod _ _ => Ok tt
      | PFstat _ => Ok (1000, 16832)
      | PStatat _ _ _ => NoEntry
      end).
Definition demo_paths : WatchmePaths :=
  mkPaths (components "/home/u/.config/watchme") (components "/home/u/.local/state/watchme")
    (components "/run/user/1000/watchme").

Lemma managed_directories_private_witness :
  let run := converse demo_path_world (create_owner_only 1000 demo_paths) tt in
  run.2 = Ok tt ∧ Forall (λ p, made_private 1000 p run.1) [config_dir demo_paths; state_dir demo_paths; runtime_dir demo_paths].
Proof.
  intros run. assert (run.2 = Ok tt) as E by (vm_compute; reflexivity). split; [exact E|].
  pose proof (converse_traces demo_path_world (create_owner_only 1000 demo_paths) tt) as Ht.
  change (converse _ _ _) with run in Ht. rewrite E in Ht.
  exact (managed_directories_private 1000 demo_paths run.1 Ht).
Defined.

Example traversal_refused : state_file demo_paths "../config" = Err "state filename must be a single safe component".
Proof. vm_compute. reflexivity. Qed.
