(* ===== verification/Macos.v ===== *)
(** * The macOS process inspector (src/src/process/macos.rs)

    Every [ps] record is verified between two equal start times of libproc.  The inspector
    is written over a source of start times and records; the source of the system is a
    program over libproc, [kill] and the [ps] command, and is linked to the inspector. *)
From S2P Require Import Prelude Text Utf8 ParseInt Identity Process Effects Runtime Mux Linux Tmux Target.
From stdpp Require Import pretty.

Local Open Scope Z_scope.

Definition MAX_PS_OUTPUT_BYTES : Z := 4 * 1024 * 1024.

(** ** Records of [ps] *)
Definition ps_tty_path (tty : string) : string :=
  if String.prefix "/" tty then tty else "/dev/" +:+ tty.

(** [parse(&mut fields, pid, name)], the [i]th field being the next one. *)
Definition ps_number (fields : list (list Z)) (i : nat) (p : Z) (name : string)
    : result ProcessError Z :=
  ok_or (w ← fields !! i; parse_unsigned u32_max (string_of_bytes w))
    (Process.Malformed p ("invalid " +:+ name)).

Definition ps_tty_field (fields : list (list Z)) (i : nat) : option string :=
  w ← fields !! i;
  if String.eqb (string_of_bytes w) "??" then None else Some (ps_tty_path (string_of_bytes w)).

Definition parse_ps_record (l : list Z) (start : Z) : result ProcessError ProcessRecord :=
  let? _ := fail_if (MAX_PS_OUTPUT_BYTES <? Z.of_nat (length l))
              (Process.Inspection "ps record exceeds size limit") in
  let? _ := fail_if (negb (utf8_ok l)) (Process.Inspection "ps returned non-UTF-8 metadata") in
  let fields := words l in
  let? p := ps_number fields 0 0 "pid" in
  let? parent := ps_number fields 1 p "parent pid" in
  let? group := ps_number fields 2 p "process group" in
  let? leader := ps_number fields 3 p "session" in
  let? uid := ps_number fields 4 p "uid" in
  let executable := string_of_bytes <$> fields !! 6%nat in
  Ok (mkProcess p parent start executable None (Some uid) (Some group) (Some leader)
        (ps_tty_field fields 5)).

(** ** The verified inspector *)

(** [MacProcessSource]. *)
Inductive MacOp : Type := MStart (p : Z) | MPs (p : Z) | MList.
Definition MacAns (o : MacOp) : Type :=
  match o with
  | MStart _ => result ProcessError Z
  | MPs _ => result ProcessError (list Z)
  | MList => result ProcessError (list Z)
  end.
Abbreviation MacProg := (Prog MacAns).
Definition mcall (o : MacOp) : MacProg (MacAns o) := call o.

(** The answer when [ps] failed: the start time is read again to tell a process that is
    gone from one that cannot be read. *)
Definition unreadable (p before : Z) (again : result ProcessError Z) : ProcessError :=
  match again with
  | Err (Process.Disappeared _) => Process.Disappeared p
  | Ok after =>
      if negb (after =? before) then Process.Disappeared p
      else Process.Inspection ("ps metadata command failed for PID " +:+ pretty p
                               +:+ " while identity remained stable")
  | Err e => e
  end.

Definition verified_record (p : Z) : MacProg (result ProcessError ProcessRecord) :=
  try! before := mcall (MStart p) in
  let! record := mcall (MPs p) in
  match record with
  | Err _ => let! again := mcall (MStart p) in Ret (Err (unreadable p before again))
  | Ok l =>
      if MAX_PS_OUTPUT_BYTES <? Z.of_nat (length l)
      then Ret (Err (Process.Inspection "ps output exceeds size limit"))
      else
        try! r := lift (parse_ps_record l before) in
        if negb (pr_pid r =? p) then Ret (Err (Process.Disappeared p))
        else
          try! after := mcall (MStart p) in
          Ret (if negb (after =? before) then Err (Process.Disappeared p) else Ok r)
  end.

Definition mac_processes_on_tty (tty : string) : MacProg (result ProcessError (list ProcessRecord)) :=
  try! pids := mcall MList in
  read_on_tty verified_record tty pids.

(** ** The bounded command *)

(** The child: whether it was spawned, its polls, and what its output pipe delivers to
    [take(limit + 1).read_to_end]: the bytes until the end, or an error. *)
Record PsChild : Type := mkPsChild {
  mc_spawned : result string unit;
  mc_polls : nat → Poll;
  mc_stdout : result string (list Z);
}.

Definition run_bounded_command (fuel : nat) (c : PsChild) (limit timeout : Z)
    : option (result ProcessError (list Z)) :=
  match mc_spawned c with
  | Err e => Some (Err (Process.Inspection e))
  | Ok _ =>
      outcome ← wait_loop fuel timeout (mc_polls c) 0;
      Some match outcome with
      | WaitFailed e => Err (Process.Inspection e)
      | TimedOut => Err (Process.Inspection "process command timed out")
      | Exited success =>
          let? l := map_err Process.Inspection (mc_stdout c) in
          let l := take (Z.to_nat (limit + 1)) l in
          if negb success || (limit <? Z.of_nat (length l))
          then Err (Process.Inspection "process command failed or exceeded output limit")
          else Ok l
      end
  end.

(** ** The source of the system *)
Inductive KillTest : Type := NoSuchProcess | Exists | NotPermitted | KillFailed.

Inductive SysOp : Type := SBsdInfo (p : Z) | SKill (p : Z) | SCommand (args : list string).
Definition SysAns (o : SysOp) : Type :=
  match o with
  | SBsdInfo _ => option (Z * Z)
  | SKill _ => KillTest
  | SCommand _ => result ProcessError (list Z)
  end.
Abbreviation SysProg := (Prog SysAns).
Definition syscall (o : SysOp) : SysProg (SysAns o) := call o.

(** [Pid::from_raw] of the number as an [i32] has no value only for zero. *)
Definition classify_libproc_failure (p : Z) : SysProg (result ProcessError Z) :=
  if p =? 0 then Ret (Err (Process.Disappeared p))
  else
    let! test := syscall (SKill p) in
    Ret (Err match test with
             | NoSuchProcess => Process.Disappeared p
             | Exists | NotPermitted =>
                 Process.Inspection ("libproc BSD info unavailable for existing PID " +:+ pretty p)
             | KillFailed =>
                 Process.Inspection ("libproc BSD info and PID existence checks failed for PID "
                                     +:+ pretty p)
             end).

Definition checked_mul (m a b : Z) : option Z := if a * b <=? m then Some (a * b) else None.

(** Seconds and microseconds as one [u64]. *)
Definition start_micros (p seconds micros : Z) : result ProcessError Z :=
  ok_or (s ← checked_mul u64_max seconds 1000000; checked_add u64_max s micros)
    (Process.Malformed p "process start timestamp overflow").

Definition system_start_time (p : Z) : SysProg (result ProcessError Z) :=
  let! info := syscall (SBsdInfo p) in
  match info with
  | Some (seconds, micros) => Ret (start_micros p seconds micros)
  | None => classify_libproc_failure p
  end.

Definition system_ps_record (p : Z) : SysProg (result ProcessError (list Z)) :=
  try! output := syscall (SCommand ["-p"; pretty p; "-o"; "pid=,ppid=,pgid=,sess=,uid=,tty=,comm="]) in
  Ret (match output with [] => Err (Process.Disappeared p) | _ :: _ => Ok output end).

Definition listed_pids (output : list Z) : list Z :=
  omap (λ w, parse_unsigned u32_max (string_of_bytes w)) (words (from_utf8_lossy output)).

Definition system_list_pids : SysProg (result ProcessError (list Z)) :=
  try! output := syscall (SCommand ["-axo"; "pid="]) in
  Ret (Ok (listed_pids output)).

Definition system_source (o : MacOp) : SysProg (MacAns o) :=
  match o with
  | MStart p => system_start_time p
  | MPs p => system_ps_record p
  | MList => system_list_pids
  end.

(** [MacOsProcessInspector]. *)
Definition mac_inspect (p : Z) : SysProg (result ProcessError ProcessRecord) :=
  interp system_source (verified_record p).
Definition mac_on_tty (tty : string) : SysProg (result ProcessError (list ProcessRecord)) :=
  interp system_source (mac_processes_on_tty tty).

(** ** The fields of [ps] *)

(** A line as [ps] pads it: each word after some blanks and before one separator. *)
Definition padded (columns : list (nat * list Z * Z)) : list Z :=
  concat ((λ c, replicate c.1.1 32 ++ c.1.2 ++ [c.2]) <$> columns).
Definition column (c : nat * list Z * Z) : Prop := is_word c.1.2 ∧ is_ws c.2 = true.

Lemma words_blank n l : words (replicate n 32 ++ l) = words l.
Proof. induction n as [|n IH]; [done|]. cbn [replicate app]. unfold words in *. cbn. exact IH. Qed.

Lemma words_padded columns : Forall column columns → words (padded columns) = (λ c, c.1.2) <$> columns.
Proof.
  unfold padded. induction 1 as [|[[n w] b] columns [Hw Hb] Hc IH]; [done|].
  cbn [fmap list_fmap concat fst snd] in *.
  rewrite <- !app_assoc, words_blank. cbn [app]. by rewrite words_cons, IH.
Qed.

Lemma ps_number_pretty fields i p name z :
  0 ≤ z ≤ u32_max → fields !! i = Some (byte_list (pretty z)) → ps_number fields i p name = Ok z.
Proof.
  intros Hz Hi. unfold ps_number. rewrite Hi. cbn.
  by rewrite string_of_byte_list, parse_unsigned_pretty.
Qed.

(** The record of a [ps] line is the process that [ps] printed, however the columns are
    padded; of a command path with blanks only the first word is kept, and a terminal
    printed as two question marks is none. *)
Theorem ps_record_roundtrip p parent group leader uid (tty comm : list Z) rest columns start :
  (λ c : nat * list Z * Z, c.1.2) <$> columns
  = [byte_list (pretty p); byte_list (pretty parent); byte_list (pretty group);
     byte_list (pretty leader); byte_list (pretty uid); tty; comm] ++ rest →
  Forall column columns →
  Forall (λ z, 0 ≤ z ≤ u32_max) [p; parent; group; leader; uid] →
  utf8_ok (padded columns) = true → Z.of_nat (length (padded columns)) ≤ MAX_PS_OUTPUT_BYTES →
  parse_ps_record (padded columns) start
  = Ok (mkProcess p parent start (Some (string_of_bytes comm)) None (Some uid) (Some group) (Some leader)
          (if String.eqb (string_of_bytes tty) "??" then None
           else Some (ps_tty_path (string_of_bytes tty)))).
Proof.
  intros Hw Hc Hz Hu Hl. rewrite !Forall_cons in Hz. destruct Hz as (Hp & Hpa & Hg & Hs & Hui & _).
  unfold parse_ps_record. rewrite (proj2 (Z.ltb_ge _ _)), Hu, words_padded, Hw by done. cbn [fail_if rbind negb].
  rewrite (ps_number_pretty _ 0 0 "pid" p) by done. cbn [rbind].
  rewrite (ps_number_pretty _ 1 p "parent pid" parent) by done. cbn [rbind].
  rewrite (ps_number_pretty _ 2 p "process group" group) by done. cbn [rbind].
  rewrite (ps_number_pretty _ 3 p "session" leader) by done. cbn [rbind].
  by rewrite (ps_number_pretty _ 4 p "uid" uid) by done.
Qed.

Lemma parse_ps_start l start r : parse_ps_record l start = Ok r → pr_start_time r = start.
Proof.
  unfold parse_ps_record.
  repeat match goal with |- context [rbind ?x] => destruct x; cbn [rbind]; [|done] end.
  by intros [= <-].
Qed.

(** ** Inspections *)
Lemma mcall_traces o tr (x : MacAns o) : traces (mcall o) tr x → tr = [existT o x].
Proof. apply traces_call. Qed.
Lemma syscall_traces o tr (x : SysAns o) : traces (syscall o) tr x → tr = [existT o x].
Proof. apply traces_call. Qed.
Lemma verified_record_Ok p tr r :
  traces (verified_record p) tr (Ok r) →
  ∃ l before, tr = [existT (MStart p) (Ok before); existT (MPs p) (Ok l); existT (MStart p) (Ok before)]
    ∧ parse_ps_record l before = Ok r ∧ pr_pid r = p.
Proof.
  unfold verified_record.
  intros [(? & ? & _)|(tr1 & tr2 & before & -> & Ht1%(mcall_traces (MStart p)) & Hk)]%traces_try; [done|]. subst tr1.
  apply traces_bind in Hk as (tr3 & tr4 & record & -> & Ht3%(mcall_traces (MPs p)) & Hk).
  subst tr3. destruct record as [l|e]; [|by apply traces_bind in Hk as (? & ? & ? & -> & _ & [_ ?])].
  destruct (MAX_PS_OUTPUT_BYTES <? _); [by destruct Hk|].
  apply traces_try in Hk as [(? & ? & _)|(tr5 & tr6 & r' & -> & [-> Hr] & Hk)]; [done|].
  destruct (Z.eqb_spec (pr_pid r') p) as [Hp|]; [|by destruct Hk]. cbn [negb] in Hk.
  apply traces_try in Hk as [(? & ? & _)|(tr7 & tr8 & after & -> & Ht7%(mcall_traces (MStart p)) & [-> Hk])]; [done|].
  subst tr7.
  destruct (Z.eqb_spec after before) as [Hab|]; [|done]. injection Hk as ->. exists l, before. by rewrite Hab.
Qed.

Lemma start_micros_Ok p s u z : start_micros p s u = Ok z → z = s * 1000000 + u ∧ z ≤ u64_max.
Proof.
  unfold start_micros, checked_mul, checked_add. case_bool; [|done]. cbn.
  destruct (Z.leb_spec (s * 1000000 + u) u64_max); [|done]. by intros [= <-].
Qed.

Lemma system_start_Ok p tr z :
  traces (system_start_time p) tr (Ok z) →
  ∃ s u, tr = [existT (SBsdInfo p) (Some (s, u))] ∧ start_micros p s u = Ok z.
Proof.
  unfold system_start_time, classify_libproc_failure.
  intros (tr1 & tr2 & x & -> & Hc%(syscall_traces (SBsdInfo p)) & Hk)%traces_bind.
  subst tr1. destruct x as [[s u]|].
  - destruct Hk as [-> Hk]. eauto.
  - destruct (p =? 0); [by destruct Hk|]. by apply traces_bind in Hk as (? & ? & ? & -> & _ & [_ ?]).
Qed.

(** The arguments [ps] is given for one process. *)
Definition ps_arguments (p : Z) : list string :=
  ["-p"; pretty p; "-o"; "pid=,ppid=,pgid=,sess=,uid=,tty=,comm="].

Lemma system_ps_Ok p tr l :
  traces (system_ps_record p) tr (Ok l) → tr = [existT (SCommand (ps_arguments p)) (Ok l)] ∧ l ≠ [].
Proof.
  unfold system_ps_record.
  intros [(? & ? & _)|(tr1 & tr2 & x & -> & Hc%(syscall_traces (SCommand (ps_arguments p))) & [-> Hk])]%traces_try; [done|].
  subst tr1. destruct x; [done|]. by injection Hk as ->.
Qed.

(** An inspection that succeeds on macOS makes three calls: libproc's start time, one [ps]
    of the process, and the start time again.  Both times are the start time of the record,
    in microseconds and without overflow, and the record is the parsed output and names the
    process asked for; so the identifier was not reused around the [ps]. *)
Theorem mac_inspection_stable p tr r :
  traces (mac_inspect p) tr (Ok r) →
  ∃ s u l s' u',
    tr = [existT (SBsdInfo p) (Some (s, u)); existT (SCommand (ps_arguments p)) (Ok l);
          existT (SBsdInfo p) (Some (s', u'))]
    ∧ pr_start_time r = s * 1000000 + u ∧ pr_start_time r = s' * 1000000 + u'
    ∧ pr_start_time r ≤ u64_max ∧ parse_ps_record l (pr_start_time r) = Ok r ∧ pr_pid r = p.
Proof.
  unfold mac_inspect. intros (tr0 & (l & z & -> & Hr & Hp)%verified_record_Ok & He)%linked_traces.
  destruct He as (seg1 & rest1 & -> & (s & u & -> & H1)%system_start_Ok
                  & seg2 & rest2 & -> & [-> _]%system_ps_Ok
                  & seg3 & rest3 & -> & (s' & u' & -> & H2)%system_start_Ok & ->).
  apply start_micros_Ok in H1 as [-> ?], H2 as [H2 _].
  pose proof (parse_ps_start _ _ _ Hr) as Hs. rewrite Hs. exists s, u, l, s', u'. auto 10.
Qed.

(** Enumeration on macOS inspects every listed process, fails when one of them can be
    neither read nor found gone, and otherwise returns exactly the ones on the terminal. *)
Theorem mac_enumeration_complete tty tr l :
  traces (mac_processes_on_tty tty) tr (Ok l) →
  ∃ pids outcomes tr', tr = existT MList (Ok pids) :: tr'
    ∧ Forall2 (λ p o, ∃ tr', traces (verified_record p) tr' o) pids outcomes
    ∧ Forall gone outcomes ∧ l = omap (on_tty tty) outcomes.
Proof.
  unfold mac_processes_on_tty.
  intros [(? & ? & _)|(tr1 & tr2 & pids & -> & Hc%(mcall_traces MList) & Hk)]%traces_try; [done|].
  subst tr1.
  destruct (read_on_tty_traces _ _ _ _ _ Hk) as (os & ?). by exists pids, os, tr2.
Qed.

(** The command returns, within one round more than its timeout has five-millisecond
    steps: output within the limit, complete, when it exited successfully, else an error. *)
Theorem run_bounded_command_returns fuel c limit timeout output :
  mc_spawned c = Ok tt → mc_stdout c = Ok output → 0 ≤ limit →
  (∀ j, FIVE_MS * Z.of_nat j ≤ pl_elapsed (mc_polls c j)) →
  (0 < fuel)%nat → timeout ≤ FIVE_MS * Z.of_nat (fuel - 1) →
  ∃ outcome, wait_loop fuel timeout (mc_polls c) 0 = Some outcome
    ∧ run_bounded_command fuel c limit timeout = Some
        match outcome with
        | Exited true =>
            if limit <? Z.of_nat (length output)
            then Err (Process.Inspection "process command failed or exceeded output limit")
            else Ok output
        | Exited false => Err (Process.Inspection "process command failed or exceeded output limit")
        | WaitFailed e => Err (Process.Inspection e)
        | TimedOut => Err (Process.Inspection "process command timed out")
        end.
Proof.
  intros Hs Ho Hl Hsleep Hf Ht.
  destruct (wait_loop_returns fuel timeout (mc_polls c) 0 Hsleep Hf Ht) as [outcome Hw].
  exists outcome. split; [done|]. unfold run_bounded_command. rewrite Hs, Hw, Ho. cbn.
  destruct outcome as [[]| |]; [|done..]. cbn [negb orb]. f_equal. rewrite length_take.
  destruct (Z.ltb_spec limit (Z.of_nat (length output))).
  - by rewrite (proj2 (Z.ltb_lt _ _)) by lia.
  - rewrite (proj2 (Z.ltb_ge _ _)) by lia. by rewrite take_ge by lia.
Qed.

(** ** A system with one process *)
Definition demo_columns : list (nat * list Z * Z) :=
  [(3%nat, byte_list "42", 32); (2%nat, byte_list "7", 32); (2%nat, byte_list "9", 32);
   (0%nat, byte_list "9", 32); (1%nat, byte_list "501", 32); (0%nat, byte_list "ttys001", 32);
   (0%nat, byte_list "/opt/bin/claude", 10)].

Definition demo_mac (o : SysOp) (s : unit) : unit * SysAns o :=
  (s, match o return SysAns o with
      | SBsdInfo _ => Some (1700000000, 42)
      | SKill _ => Exists
      | SCommand _ => Ok (padded demo_columns)
      end).

Definition demo_mac_record : ProcessRecord :=
  mkProcess 42 7 1700000000000042 (Some "/opt/bin/claude") None (Some 501) (Some 9) (Some 9)
    (Some "/dev/ttys001").

Lemma ps_record_roundtrip_witness :
  parse_ps_record (padded demo_columns) 1700000000000042 = Ok demo_mac_record.
Proof.
  refine (eq_trans (ps_record_roundtrip 42 7 9 9 501 (byte_list "ttys001") (byte_list "/opt/bin/claude") []
           demo_columns 1700000000000042 _ _ _ _ _) _).
  - vm_compute. reflexivity.
  - unfold column, is_word. apply (bool_decide_unpack _). by vm_compute.
  - apply (bool_decide_unpack _). by vm_compute.
  - vm_compute. reflexivity.
  - by apply (bool_decide_unpack _); vm_compute.
  - vm_compute. reflexivity.
Defined.

Lemma mac_inspection_stable_witness :
  let run := converse demo_mac (mac_inspect 42) tt in
  run.2 = Ok demo_mac_record ∧ pr_start_time demo_mac_record ≤ u64_max.
Proof.
  intros run. assert (run.2 = Ok demo_mac_record) as E by (vm_compute; reflexivity). split; [exact E|].
  pose proof (converse_traces demo_mac (mac_inspect 42) tt) as Ht. fold run in Ht. rewrite E in Ht.
  destruct (mac_inspection_stable 42 run.1 demo_mac_record Ht) as (s & u & l & s' & u' & _ & _ & _ & Hb & _).
  exact Hb.
Defined.
