(* ===== verification/DaemonClient.v ===== *)
(** * The daemon client (src/src/daemon_client.rs)

    One request to a running daemon, the start of a daemon with the wait until it answers,
    and the diagnostic made of what a failed daemon wrote. *)
From S2P Require Import Prelude Text Utf8 Screen State Effects Runtime Mux Linux Herdr Ipc Planner Target Paths.
From stdpp Require Import pretty.

Local Open Scope Z_scope.

(** Durations are nanoseconds. *)
Definition MILLIS : Z := 1000000.
Definition STARTUP_TIMEOUT : Z := 3000 * MILLIS.
Definition INITIAL_STARTUP_BACKOFF : Z := 20 * MILLIS.
Definition MAX_STARTUP_BACKOFF : Z := 200 * MILLIS.
Definition MAX_DIAGNOSTIC_BYTES : nat := 512.
Definition REQUEST_TIMEOUT : Z := 2000 * MILLIS.

(** ** The diagnostic *)
Definition DIAGNOSTIC_MARKERS : list string := ["token"; "secret"; "password"; "credential"; "api_key"].

(** [line.chars().filter(|c| !c.is_control())]. *)
Definition visible (line : list Z) : list Z :=
  encode_utf8 (List.filter (λ c, negb (is_control c)) (decode_utf8 line)).

Definition sanitized_line (line : list Z) : list Z :=
  let lower := to_ascii_lowercase (string_of_bytes line) in
  if existsb (λ marker, contains marker lower) DIAGNOSTIC_MARKERS then byte_list "[redacted]"
  else visible line.

(** [String::truncate], which panics inside a character. *)
Definition truncate_string (l : list Z) (n : nat) : option (list Z) :=
  if (n <=? length l)%nat then if Utf8.is_char_boundary l n then Some (take n l) else None else Some l.

(** The loop over the lines; [None] is a panic. *)
Fixpoint sanitize_lines (sanitized : list Z) (lines : list (list Z)) : option (list Z) :=
  match lines with
  | [] => Some sanitized
  | line :: lines =>
      let sanitized := match sanitized with [] => [] | _ :: _ => sanitized ++ [10] end in
      let sanitized := sanitized ++ sanitized_line line in
      if (MAX_DIAGNOSTIC_BYTES <=? length sanitized)%nat
      then truncate_string sanitized MAX_DIAGNOSTIC_BYTES
      else sanitize_lines sanitized lines
  end.

Definition sanitize_daemon_stderr (stderr : list Z) : option (list Z) :=
  sanitize_lines [] (str_lines (from_utf8_lossy (take MAX_DIAGNOSTIC_BYTES stderr))).

(** ** Calls *)
Inductive ClientOp : Type :=
| CPath (o : PathOp)
| CExe
| COpenLog (path : Path)
| CChmodLog
| CSpawn (executable : string)
| CNow
| CSleep (d : Z)
| CRuntime
| CConnect (socket : Path)
| CWrite (r : Request) (timeout : Z)
| CRead (timeout : Z)
| CTryWait
| CKill
| CWait
| CReadLog (path : Path) (limit : nat).

(** Connecting, writing and reading are awaited under one deadline; the exit status is the
    text it displays. *)
Definition ClientAns (o : ClientOp) : Type :=
  match o with
  | CPath o => PathAns o
  | CExe => result string string
  | COpenLog _ | CChmodLog | CSpawn _ | CRuntime => result string unit
  | CNow => Z
  | CSleep _ | CKill => unit
  | CConnect _ | CWrite _ _ => Await (result string unit)
  | CRead _ => Await (result string Response)
  | CTryWait => result string (option string)
  | CWait => result string string
  | CReadLog _ _ => option (list Z)
  end.

Abbreviation ClientProg := (Prog ClientAns).
Definition ccall (o : ClientOp) : ClientProg (ClientAns o) := call o.

Section Client.
Context (euid : Z) (paths : WatchmePaths).

Definition daemon_socket : Path := Paths.join (runtime_dir paths) [Normal "daemon.sock"].
Definition startup_log : Path := Paths.join (runtime_dir paths) [Normal "daemon-startup.log"].

(** [tokio::time::timeout] around one awaited call. *)
Definition within_attempt_deadline {T} (answer : Await (result string T)) : result string T :=
  match answer with
  | Ready r => r
  | Expired => Err "daemon readiness deadline elapsed"
  end.

Definition request_with_timeout (r : Request) (timeout : Z) : ClientProg (result string Response) :=
  try! _ := ccall CRuntime in
  let! connected := ccall (CConnect daemon_socket) in
  try! _ := lift (within_attempt_deadline connected) in
  let! written := ccall (CWrite r timeout) in
  try! _ := lift (within_attempt_deadline written) in
  let! answer := ccall (CRead timeout) in
  Ret (within_attempt_deadline answer).

Definition request (r : Request) : ClientProg (result string Response) :=
  request_with_timeout r REQUEST_TIMEOUT.

(** The loop of [wait_for_readiness]; [None] when the fuel is spent. *)
Fixpoint readiness_loop {T E} (attempt : Z → ClientProg (result E T)) (fuel : nat)
    (deadline backoff : Z) : ClientProg (option (result E T)) :=
  match fuel with
  | O => Ret None
  | S fuel =>
      let! now := ccall CNow in
      let! answer := attempt (Z.max 0 (deadline - now)) in
      match answer with
      | Ok v => Ret (Some (Ok v))
      | Err e =>
          let! now := ccall CNow in
          if deadline <=? now then Ret (Some (Err e))
          else
            let! _ := ccall (CSleep (Z.min backoff (deadline - now))) in
            readiness_loop attempt fuel deadline (Z.min (backoff * 2) MAX_STARTUP_BACKOFF)
      end
  end.

Definition wait_for_readiness {T E} (attempt : Z → ClientProg (result E T)) (fuel : nat) (timeout : Z)
    : ClientProg (option (result E T)) :=
  let! now := ccall CNow in
  readiness_loop attempt fuel (now + timeout) INITIAL_STARTUP_BACKOFF.

Definition open_startup_diagnostic : ClientProg (result string Path) :=
  try! _ := ccall (COpenLog startup_log) in
  try! _ := ccall CChmodLog in
  Ret (Ok startup_log).

(** The exit status, of a child that is killed unless it has exited; then its output. *)
Definition child_status : ClientProg (option string) :=
  let! exited := ccall CTryWait in
  match exited with
  | Ok (Some status) => Ret (Some status)
  | Ok None | Err _ =>
      let! _ := ccall CKill in
      let! waited := ccall CWait in
      Ret (match waited with Ok status => Some status | Err _ => None end)
  end.

Definition diagnostic_text (status : option string) (diagnostic : list Z) : string :=
  match status, diagnostic with
  | Some status, _ :: _ => "; child " +:+ status +:+ ": " +:+ string_of_bytes diagnostic
  | Some status, [] => "; child " +:+ status
  | None, _ :: _ => "; child diagnostic: " +:+ string_of_bytes diagnostic
  | None, [] => ""
  end.

(** [None] is the panic of the sanitizer. *)
Definition child_failure_diagnostic (log : Path) : ClientProg (option string) :=
  let! status := child_status in
  let! stderr := ccall (CReadLog log (MAX_DIAGNOSTIC_BYTES + 1)) in
  Ret (diagnostic_text status <$> sanitize_daemon_stderr (default [] stderr)).

(** What an abort of the process leaves: no answer. *)
Inductive Outcome (A : Type) : Type := Returned (a : A) | Panicked | OutOfFuel.
#[global] Arguments Returned {A} a.
#[global] Arguments Panicked {A}.
#[global] Arguments OutOfFuel {A}.

Definition retryable {A} (p : ClientProg (result string A)) : ClientProg (result WatchmeError A) :=
  let! x := p in Ret (map_err Planner.RetryableIntegration x).

(** What happens before the wait: the directories, the diagnostic file, the daemon. *)
Definition launch : ClientProg (result WatchmeError Path) :=
  try! executable := retryable (ccall CExe) in
  try! _ := retryable (interp (λ o, ccall (CPath o)) (create_owner_only euid paths)) in
  try! log := retryable open_startup_diagnostic in
  try! _ := retryable (ccall (CSpawn executable)) in
  Ret (Ok log).

Definition start_and_request (fuel : nat) (r : Request)
    : ClientProg (Outcome (result WatchmeError Response)) :=
  let! launched := launch in
  match launched with
  | Err e => Ret (Returned (Err e))
  | Ok log =>
      let! readiness := wait_for_readiness (request_with_timeout r) fuel STARTUP_TIMEOUT in
      match readiness with
      | None => Ret OutOfFuel
      | Some (Ok response) => Ret (Returned (Ok response))
      | Some (Err e) =>
          let! diagnostic := child_failure_diagnostic log in
          Ret match diagnostic with
              | None => Panicked
              | Some d => Returned (Err (Planner.RetryableIntegration
                                           ("daemon did not become ready: " +:+ e +:+ d)))
              end
      end
  end.
End Client.

(** ** The diagnostic is a bounded, masked prefix *)
Definition add_line (sanitized line : list Z) : list Z :=
  match sanitized with [] => [] | _ :: _ => sanitized ++ [10] end ++ sanitized_line line.

Lemma add_line_nonempty s line : s ≠ [] → add_line s line = s ++ 10 :: sanitized_line line.
Proof. destruct s; [done|]. intros _. unfold add_line. by rewrite <- app_assoc. Qed.

Lemma add_lines_nonempty s lines :
  s ≠ [] → foldl add_line s lines = s ++ concat ((λ l, 10 :: sanitized_line l) <$> lines).
Proof.
  revert s. induction lines as [|l lines IH]; intros s Hs; cbn; [by rewrite app_nil_r|].
  rewrite add_line_nonempty by done. rewrite IH; [by rewrite <- app_assoc|]. by destruct s.
Qed.

(** The first [n] bytes, when the cut falls between characters. *)
Definition cut_at (n : nat) (l : list Z) : option (list Z) :=
  match l !! n with
  | Some b => if is_cont b then None else Some (take n l)
  | None => Some l
  end.

Lemma truncate_cut n s lines :
  (0 < n ≤ length s)%nat → truncate_string s n = cut_at n (foldl add_line s lines).
Proof.
  intros Hl. unfold truncate_string, cut_at, Utf8.is_char_boundary. rewrite (proj2 (Nat.leb_le _ _)) by lia.
  assert (s ≠ []) as Hne by (intros ->; cbn in Hl; lia).
  rewrite add_lines_nonempty by done. destruct (decide (n = length s)) as [->|Hn].
  - rewrite (lookup_ge_None_2 s), (proj2 (Nat.eqb_eq (length s) (length s))) by lia.
    rewrite orb_true_r, firstn_all. destruct lines as [|l lines]; cbn.
    + rewrite app_nil_r. by rewrite (lookup_ge_None_2 s) by lia.
    + rewrite list_lookup_middle by done. cbn. by rewrite take_app_length.
  - rewrite lookup_app_l by lia. destruct (lookup_lt_is_Some_2 s n) as [b Hb]; [lia|].
    rewrite Hb, (proj2 (Nat.eqb_neq n 0)), take_app_le by lia. by destruct (is_cont b).
Qed.

Lemma sanitize_lines_cut s lines :
  (length s < MAX_DIAGNOSTIC_BYTES)%nat →
  sanitize_lines s lines = cut_at MAX_DIAGNOSTIC_BYTES (foldl add_line s lines).
Proof.
  revert s. induction lines as [|l lines IH]; intros s Hs; cbn [sanitize_lines foldl].
  - unfold cut_at. by rewrite lookup_ge_None_2 by lia.
  - change (match s with [] => [] | _ :: _ => s ++ [10] end ++ sanitized_line l) with (add_line s l).
    destruct (Nat.leb_spec MAX_DIAGNOSTIC_BYTES (length (add_line s l))); [|by apply IH].
    apply truncate_cut. split; [|done]. unfold MAX_DIAGNOSTIC_BYTES. lia.
Qed.

(** The lines of the diagnostic, without the empty ones it would begin with. *)
Fixpoint skip_empty (ls : list (list Z)) : list (list Z) :=
  match ls with [] :: ls => skip_empty ls | _ => ls end.

Lemma join_newlines w (ls : list (list Z)) :
  join_with [10] (w :: ls) = w ++ concat ((λ l, 10 :: l) <$> ls).
Proof.
  revert w. induction ls as [|l ls IH]; intros w; [cbn; by rewrite app_nil_r|].
  change (join_with [10] (w :: l :: ls)) with (w ++ 10 :: join_with [10] (l :: ls)). by rewrite IH.
Qed.

Lemma add_lines_join lines :
  foldl add_line [] lines = join_with [10] (skip_empty (sanitized_line <$> lines)).
Proof.
  induction lines as [|l lines IH]; [done|]. cbn [foldl fmap list_fmap].
  change (add_line [] l) with (sanitized_line l). destruct (sanitized_line l) as [|b w] eqn:E.
  - rewrite IH. done.
  - rewrite add_lines_nonempty by done. cbn [skip_empty]. rewrite join_newlines. f_equal.
    by rewrite <- list_fmap_compose.
Qed.

(** *** What masking means *)

(** A word that gives a line away, in any case of its letters. *)
Definition mentions_credential (line : list Z) : Prop :=
  ∃ word before spelled after,
    word ∈ ["token"; "secret"; "password"; "credential"; "api_key"]
    ∧ string_of_bytes line = before +:+ spelled +:+ after ∧ to_ascii_lowercase spelled = word.

(** C0 and C1 controls and DEL. *)
Definition control_character (c : Z) : Prop := 0 ≤ c < 32 ∨ 127 ≤ c < 160.

#[global] Instance control_character_dec c : Decision (control_character c).
Proof. unfold control_character. apply _. Defined.

(** What is shown of a line. *)
Inductive masks (line : list Z) : list Z → Prop :=
| masks_credential : mentions_credential line → masks line (byte_list "[redacted]")
| masks_controls : ¬ mentions_credential line →
    masks line (encode_utf8 (filter (λ c, ¬ control_character c) (decode_utf8 line))).

Lemma to_ascii_lowercase_app a b : to_ascii_lowercase (a +:+ b) = to_ascii_lowercase a +:+ to_ascii_lowercase b.
Proof.
  unfold to_ascii_lowercase. induction a as [|c a IH]; [done|]. exact (f_equal (String (ascii_lower c)) IH).
Qed.

Lemma lowercase_split s a b :
  to_ascii_lowercase s = a +:+ b → ∃ a' b', s = a' +:+ b' ∧ to_ascii_lowercase a' = a ∧ to_ascii_lowercase b' = b.
Proof.
  revert a. induction s as [|c s IH]; intros [|x a] Hs; cbn in Hs; try discriminate.
  - by exists "", "".
  - by exists "", (String c s).
  - injection Hs as Hx Hs. apply IH in Hs as (a' & b' & -> & <- & <-). exists (String c a'), b'.
    split; [done|]. split; [|done]. by rewrite <- Hx.
Qed.

Lemma mentions_credential_spec line :
  existsb (λ marker, contains marker (to_ascii_lowercase (string_of_bytes line))) DIAGNOSTIC_MARKERS = true
  ↔ mentions_credential line.
Proof.
  rewrite existsb_elem. unfold mentions_credential. split.
  - intros (word & Hw & (before & after & Hs)%contains_split).
    apply lowercase_split in Hs as (a & rest & Hs & Ha & Hr).
    apply lowercase_split in Hr as (spelled & b & -> & Hsp & Hb).
    by exists word, a, spelled, b.
  - intros (word & before & spelled & after & Hw & Hl & Hs). exists word. split; [exact Hw|].
    apply contains_split. rewrite Hl, !to_ascii_lowercase_app, Hs. by eexists _, _.
Qed.

Lemma sanitized_line_masks line : masks line (sanitized_line line).
Proof.
  unfold sanitized_line. cbv zeta. destruct (existsb _ _) eqn:E.
  - by apply masks_credential, mentions_credential_spec.
  - assert (visible line = encode_utf8 (filter (λ c, ¬ control_character c) (decode_utf8 line))) as ->.
    { unfold visible. f_equal. induction (decode_utf8 line) as [|c l IH]; [done|]. cbn [List.filter].
      rewrite filter_cons, IH. unfold control_character.
      destruct (is_control c) eqn:Ec; unfold is_control in Ec; case_decide; cbn [negb]; try done; exfalso; lia. }
    apply masks_controls. intros Hm%mentions_credential_spec. by rewrite E in Hm.
Qed.

(** C40: Only the first 512 bytes of what the daemon wrote are considered.  Each of their
    lines is shown as [[redacted]] if it contains token, secret, password, credential or
    api_key in any case, and otherwise without its control characters; leading empty lines
    are dropped and the rest is joined by newlines.  The diagnostic is exactly the first 512
    bytes of that text; when byte 512 of it lies inside a character, the truncation panics
    instead. *)
Theorem diagnostic_exact stderr :
  ∃ shown, Forall2 masks (str_lines (from_utf8_lossy (take 512 stderr))) shown
    ∧ let text := join_with [10] (skip_empty shown) in
      sanitize_daemon_stderr stderr = match text !! 512%nat with
                                      | Some b => if is_cont b then None else Some (take 512 text)
                                      | None => Some text
                                      end.
Proof.
  unfold sanitize_daemon_stderr. exists (sanitized_line <$> str_lines (from_utf8_lossy (take 512 stderr))). split.
  - apply Forall2_fmap_r, Forall_Forall2_diag, Forall_true, sanitized_line_masks.
  - rewrite <- add_lines_join. apply sanitize_lines_cut. cbn. unfold MAX_DIAGNOSTIC_BYTES. lia.
Qed.

(** A marker after the cut does not mask the part of its line before it. *)
Example credential_beyond_cut_shown :
  sanitize_daemon_stderr (byte_list "hunter2" ++ replicate 505 120 ++ byte_list " is the token")
  = Some (byte_list "hunter2" ++ replicate 505 120).
Proof. vm_compute. reflexivity. Qed.

(** A daemon that writes 511 plain characters and then a two-byte one: the cut through the
    character becomes a three-byte replacement, and the client aborts on it. *)
Lemma diagnostic_aborts :
  sanitize_daemon_stderr (replicate 511 120 ++ [195; 169; 10]) = None.
Proof. vm_compute. reflexivity. Qed.

Lemma diagnostic_masks :
  sanitize_daemon_stderr (byte_list "panic" ++ [10] ++ byte_list "Api_Key=abc" ++ [10; 27; 120])
  = Some (byte_list "panic" ++ [10] ++ byte_list "[redacted]" ++ [10; 120]).
Proof. vm_compute. reflexivity. Qed.

(** ** The wait ends *)
Record client_clock {S} (h : ∀ o, S → S * ClientAns o) (clock : S → Z) : Prop := {
  cc_read : ∀ s, (h CNow s).2 = clock s;
  cc_mono : ∀ o s, clock s ≤ clock (h o s).1;
  cc_sleep : ∀ d s, clock s + d ≤ clock (h (CSleep d) s).1;
}.

(** The least time [n] sleeps take that are not cut short by the deadline. *)
Fixpoint waits (n : nat) (backoff : Z) : Z :=
  match n with
  | O => 0
  | S n => backoff + waits n (Z.min (backoff * 2) MAX_STARTUP_BACKOFF)
  end.

Section Readiness.
Context {S : Type} (h : ∀ o, S → S * ClientAns o) (clock : S → Z) (laws : client_clock h clock).

Lemma run_mono {A} (p : ClientProg A) s : clock s ≤ clock (Effects.interp h p s).1.
Proof.
  revert s. induction p as [a|o k IH]; intros s; cbn; [lia|].
  pose proof (cc_mono _ _ laws o s) as Hm. destruct (h o s) as [s' x]. cbn in Hm.
  specialize (IH x s'). lia.
Qed.

Lemma waits_nonneg n b : 0 ≤ b → 0 ≤ waits n b.
Proof.
  revert b. induction n as [|n IH]; intros b Hb; cbn; [lia|].
  specialize (IH (Z.min (b * 2) MAX_STARTUP_BACKOFF)). unfold MAX_STARTUP_BACKOFF, MILLIS in *. lia.
Qed.

Lemma run_now {A} (k : Z → ClientProg A) s :
  Effects.interp h (bind (ccall CNow) k) s = Effects.interp h (k (clock s)) (h CNow s).1.
Proof. cbn. pose proof (cc_read _ _ laws s) as Hr. destruct (h CNow s) as [s' x]. cbn in *. by subst. Qed.

Lemma readiness_returns {T E} (attempt : Z → ClientProg (result E T)) fuel deadline backoff s :
  0 ≤ backoff → deadline ≤ clock s + waits fuel backoff →
  is_Some (Effects.interp h (readiness_loop attempt (1 + fuel) deadline backoff) s).2.
Proof.
  revert backoff s. induction fuel as [|fuel IH]; intros backoff s Hb Hd; cbn [readiness_loop Nat.add];
    rewrite run_now, interp_bind;
    pose proof (cc_mono _ _ laws CNow s) as H1;
    pose proof (run_mono (attempt (Z.max 0 (deadline - clock s))) (h CNow s).1) as H2;
    destruct (Effects.interp h (attempt _) _) as [s2 [v|e]]; cbn [fst] in H2; cbn beta iota; try (by eexists);
    rewrite run_now; destruct (Z.leb_spec deadline (clock s2)); try (by eexists).
  { cbn in Hd. lia. }
  rewrite interp_bind. cbn [ccall call Effects.interp]. pose proof (cc_mono _ _ laws CNow s2) as H3.
  pose proof (cc_sleep _ _ laws (Z.min backoff (deadline - clock s2)) (h CNow s2).1) as H4.
  destruct (h (CSleep _) _) as [s3 []]. cbn in H4 |- *. cbn [waits] in Hd.
  assert (0 ≤ Z.min (backoff * 2) MAX_STARTUP_BACKOFF) as Hb' by (unfold MAX_STARTUP_BACKOFF, MILLIS; lia).
  pose proof (waits_nonneg fuel _ Hb') as Hw. apply IH; [done|].
  set (w := waits fuel _) in *. clearbody w. cbn in H3. lia.
Qed.

(** With a clock that does not run backwards and sleeps that last as long as asked, the
    client makes at most nineteen attempts before it gives an answer or the error of the
    last attempt: eighteen sleeps of 20, 40, 80, 160 and then 200 ms exceed the three
    seconds of the deadline. *)
Theorem startup_wait_terminates euid paths r s :
  (Effects.interp h (start_and_request euid paths 19 r) s).2 ≠ OutOfFuel.
Proof.
  unfold start_and_request. rewrite interp_bind.
  destruct (Effects.interp h (launch euid paths) s) as [s1 [log|e]]; [|done].
  rewrite interp_bind. unfold wait_for_readiness. rewrite run_now.
  pose proof (cc_mono _ _ laws CNow s1) as Hm.
  destruct (readiness_returns (request_with_timeout paths r) 18 (clock s1 + STARTUP_TIMEOUT)
              INITIAL_STARTUP_BACKOFF (h CNow s1).1) as [v Hv]; [done| |].
  { change (waits 18 INITIAL_STARTUP_BACKOFF) with (3100 * MILLIS). unfold STARTUP_TIMEOUT, MILLIS in *. lia. }
  cbn [Nat.add] in Hv. destruct (Effects.interp h (readiness_loop _ _ _ _) _) as [s2 o]. cbn in Hv. subst o.
  destruct v as [v|e]; [done|]. rewrite interp_bind.
  by destruct (Effects.interp h (child_failure_diagnostic log) s2) as [s3 [d|]].
Qed.
End Readiness.

(** ** One private start, and a child that is reaped *)
Lemma ccall_traces o tr (x : ClientAns o) : traces (ccall o) tr x → tr = [existT o x].
Proof. apply traces_call. Qed.

Definition is_spawn (e : Ev ClientAns) : Prop := ∃ exe x, e = existT (CSpawn exe) x.
Definition no_spawn (tr : list (Ev ClientAns)) : Prop := ∀ e, e ∈ tr → ¬ is_spawn e.

Lemma no_spawn_app l1 l2 : no_spawn l1 → no_spawn l2 → no_spawn (l1 ++ l2).
Proof. intros H1 H2 e [He|He]%elem_of_app; auto. Qed.

Abbreviation calm := (respects no_spawn).

Lemma calm_ret {A} (a : A) : calm (Ret a).
Proof. apply respects_ret. by intros e ?%elem_of_nil. Qed.
Lemma calm_bind {A B} (p : ClientProg A) (f : A → ClientProg B) : calm p → (∀ a, calm (f a)) → calm (bind p f).
Proof. apply respects_bind, no_spawn_app. Qed.
Lemma calm_try {E A B} (p : ClientProg (result E A)) (f : A → ClientProg (result E B)) :
  calm p → (∀ a, calm (f a)) → calm (prog_try p f).
Proof. intros Hp Hf. apply calm_bind; [done|]. intros [a|e]; [done|apply calm_ret]. Qed.
Lemma calm_call o : (∀ exe, o ≠ CSpawn exe) → calm (ccall o).
Proof.
  intros Ho. apply respects_call. intros x e ->%list_elem_of_singleton (exe & y & Heq).
  apply (f_equal (@projT1 _ _)) in Heq. by eapply Ho.
Qed.
Lemma calm_linked {A} (p : PathProg A) : calm (interp (λ o, ccall (CPath o)) p).
Proof. induction p as [a|o k IH]; [apply calm_ret|]. apply calm_bind; [by apply calm_call|done]. Qed.

Ltac calm_call_tac :=
  match goal with |- respects _ (ccall ?o) => refine (calm_call o _); intros; discriminate end.
Ltac calm :=
  repeat first [ by eauto | apply calm_ret | apply calm_linked | calm_call_tac
               | apply calm_try; [|intro] | apply calm_bind; [|intro] ].

Section Start.
Context (euid : Z) (paths : WatchmePaths).

Lemma calm_request r timeout : calm (request_with_timeout paths r timeout).
Proof. unfold request_with_timeout, lift. calm. Qed.

Lemma calm_loop {T E} (attempt : Z → ClientProg (result E T)) fuel deadline backoff :
  (∀ d, calm (attempt d)) → calm (readiness_loop attempt fuel deadline backoff).
Proof.
  intros Ha. revert backoff. induction fuel as [|fuel IH]; intros backoff; cbn [readiness_loop]; [apply calm_ret|].
  apply calm_bind; [calm|]. intros now. apply calm_bind; [done|]. intros [v|e]; [apply calm_ret|].
  apply calm_bind; [calm|]. intros now'. destruct (_ <=? _); calm.
Qed.

Lemma calm_diagnostic log : calm (child_failure_diagnostic log).
Proof.
  unfold child_failure_diagnostic, child_status. apply calm_bind; [|intro; calm].
  apply calm_bind; [calm|]. intros [[st|]|e]; calm.
Qed.

Lemma loop_Ok {T E} (attempt : Z → ClientProg (result E T)) fuel deadline backoff tr v :
  traces (readiness_loop attempt fuel deadline backoff) tr (Some (Ok v)) →
  ∃ d l1 seg l2, tr = l1 ++ seg ++ l2 ∧ traces (attempt d) seg (Ok v).
Proof.
  revert backoff tr. induction fuel as [|fuel IH]; intros backoff tr; cbn [readiness_loop]; [by intros [_ ?]|].
  intros (t1 & t2 & now & -> & _ & Hk)%traces_bind.
  apply traces_bind in Hk as (t3 & t4 & answer & -> & Ha & Hk). destruct answer as [v'|e].
  - destruct Hk as [-> [= ->]]. by exists (Z.max 0 (deadline - now)), t1, t3, [].
  - apply traces_bind in Hk as (t5 & t6 & now' & -> & _ & Hk).
    destruct (_ <=? _); [by destruct Hk|].
    apply traces_bind in Hk as (t7 & t8 & u & -> & _ & (d & l1 & seg & l2 & -> & Hs)%IH).
    exists d, (t1 ++ t3 ++ t5 ++ t7 ++ l1), seg, l2. by rewrite <- !app_assoc.
Qed.

Lemma request_Ok r timeout tr v :
  traces (request_with_timeout paths r timeout) tr (Ok v) → existT (CRead timeout) (Ready (Ok v)) ∈ tr.
Proof.
  unfold request_with_timeout.
  intros (t1 & t2 & u & -> & _ & (t3 & t4 & c & -> & _ & Hk)%traces_bind)%traces_try_Ok.
  apply traces_try_Ok in Hk as (t5 & t6 & u' & -> & _ & (t7 & t8 & w & -> & _ & Hk)%traces_bind).
  apply traces_try_Ok in Hk as (t9 & t10 & u'' & -> & _ & (t11 & t12 & a & -> & Ha & [-> Hv])%traces_bind).
  apply (ccall_traces (CRead timeout)) in Ha as ->. destruct a as [x|]; [|done]. cbn in Hv. subst x.
  rewrite !elem_of_app. set_solver.
Qed.

(** The child is waited for, or was found to have exited. *)
Definition reaped (tr : list (Ev ClientAns)) : Prop :=
  (∃ status, existT CTryWait (Ok (Some status)) ∈ tr) ∨ ∃ x, existT CWait x ∈ tr.

Lemma diagnostic_reaps log tr r : traces (child_failure_diagnostic log) tr r → reaped tr.
Proof.
  unfold child_failure_diagnostic, child_status.
  intros (t1 & t2 & st & -> & (t3 & t4 & x & -> & Hx & Hk)%traces_bind & _)%traces_bind.
  apply (ccall_traces CTryWait) in Hx as ->. destruct x as [[status|]|e].
  - left. exists status. set_solver.
  - right. apply traces_bind in Hk as (t5 & t6 & u & -> & _ & (t7 & t8 & y & -> & Hy & _)%traces_bind).
    apply (ccall_traces CWait) in Hy as ->. exists y. rewrite !elem_of_app. set_solver.
  - right. apply traces_bind in Hk as (t5 & t6 & u & -> & _ & (t7 & t8 & y & -> & Hy & _)%traces_bind).
    apply (ccall_traces CWait) in Hy as ->. exists y. rewrite !elem_of_app. set_solver.
Qed.
Lemma retryable_Ok {A} (p : ClientProg (result string A)) tr a :
  traces (retryable p) tr (Ok a) → traces p tr (Ok a).
Proof.
  unfold retryable. intros (t1 & t2 & x & -> & Hp & [-> Hx])%traces_bind. rewrite app_nil_r.
  destruct x; [|done]. by injection Hx as ->.
Qed.

Lemma calm_retryable {A} (p : ClientProg (result string A)) : calm p → calm (retryable p).
Proof. intros Hp. apply calm_bind; [done|]. intros. apply calm_ret. Qed.

(** The calls before the wait: the directories are made and found private, the log is
    opened in them, the daemon is started. *)
Definition prepared (exe : string) (l : list (Ev ClientAns)) : Prop :=
  ∃ seg mid, l = existT CExe (Ok exe) :: mid ++ [existT (COpenLog (startup_log paths)) (Ok tt);
                                                 existT CChmodLog (Ok tt)]
    ∧ traces (create_owner_only euid paths) seg (Ok tt) ∧ expands (λ o, ccall (CPath o)) seg mid.

Lemma launch_traces tr r :
  traces (launch euid paths) tr r →
  (no_spawn tr ∧ ∃ e, r = Err e)
  ∨ ∃ exe l x, tr = l ++ [existT (CSpawn exe) x] ∧ prepared exe l ∧ no_spawn l
      ∧ ((∃ e e', x = Err e ∧ r = Err e') ∨ x = Ok tt ∧ r = Ok (startup_log paths)).
Proof.
  unfold launch.
  intros [(e & -> & Hc)|(t1 & t2 & exe & -> & Hexe & Hr)]%traces_try.
  { left. split; [|eauto]. refine (calm_retryable _ _ _ _ Hc). calm. }
  assert (no_spawn t1) as N1 by (refine (calm_retryable _ _ _ _ Hexe); calm).
  apply retryable_Ok, (ccall_traces CExe) in Hexe as ->.
  apply traces_try in Hr as [(e & -> & Hc)|(t3 & t4 & [] & -> & Hd & Hr)].
  { left. split; [|eauto]. apply no_spawn_app; [done|]. refine (calm_retryable _ _ _ _ Hc). calm. }
  assert (no_spawn t3) as N3 by (refine (calm_retryable _ _ _ _ Hd); calm).
  apply retryable_Ok, linked_traces in Hd as (seg & Hseg & Hex).
  apply traces_try in Hr as [(e & -> & Hc)|(t5 & t6 & log & -> & Hl & Hr)].
  { left. split; [|eauto]. do 2 (apply no_spawn_app; [done|]). refine (calm_retryable _ _ _ _ Hc).
    unfold open_startup_diagnostic. calm. }
  assert (no_spawn t5) as N5
    by (refine (calm_retryable _ _ _ _ Hl); unfold open_startup_diagnostic; calm).
  apply retryable_Ok in Hl. unfold open_startup_diagnostic in Hl.
  apply traces_try_Ok in Hl as (t7 & t8 & [] & -> & Ho%(ccall_traces (COpenLog (startup_log paths))) & Hl).
  apply traces_try_Ok in Hl as (t9 & t10 & [] & -> & Hm%(ccall_traces CChmodLog) & [-> [= ->]]). subst t7 t9.
  set (l := existT CExe (Ok exe) :: t3 ++ [existT (COpenLog (startup_log paths)) (Ok tt); existT CChmodLog (Ok tt)]).
  assert (prepared exe l) as Hp by (exists seg, t3; auto).
  assert (no_spawn l) as Nl by (apply (no_spawn_app _ _ N1), no_spawn_app; done).
  right. apply traces_try in Hr as [(e & -> & Hc)|(t11 & t12 & [] & -> & Hs & [-> [= ->]])].
  - unfold retryable in Hc. apply traces_bind in Hc as (t11 & t12 & x & -> & Hs & [-> Hx]).
    apply (ccall_traces (CSpawn exe)) in Hs as ->.
    exists exe, l, x. split; [unfold l; cbn; by rewrite <- app_assoc|]. split; [done|]. split; [done|].
    destruct x; [done|]. eauto.
  - apply retryable_Ok, (ccall_traces (CSpawn exe)) in Hs as ->.
    exists exe, l, (Ok tt). split; [unfold l; cbn; by rewrite <- app_assoc|]. auto.
Qed.

(** Starting a daemon is private and leaves nothing behind.  At most one process is
    started, and only after the managed directories were made and verified and the log was
    opened in them.  If it was started, then either the answer returned was read from the
    daemon, or the child was killed and waited for, or had exited, before the client gave
    up - with an error, or with the panic of its diagnostic. *)
Theorem daemon_start_private fuel r tr o :
  traces (start_and_request euid paths fuel r) tr o →
  no_spawn tr
  ∨ ∃ exe l x rest, tr = l ++ existT (CSpawn exe) x :: rest ∧ prepared exe l ∧ no_spawn l ∧ no_spawn rest
      ∧ ((∃ e, x = Err e ∧ rest = []) ∨ (∃ v d, o = Returned (Ok v) ∧ existT (CRead d) (Ready (Ok v)) ∈ rest)
         ∨ ((o = Panicked ∨ ∃ e, o = Returned (Err e)) ∧ reaped rest) ∨ o = OutOfFuel).
Proof.
  unfold start_and_request. intros (t1 & t2 & launched & -> & Hl & Hr)%traces_bind.
  apply launch_traces in Hl as [[Hn [e ->]]|(exe & l & x & -> & Hp & Hn & Hx)].
  { destruct Hr as [-> _]. left. by rewrite app_nil_r. }
  right. exists exe, l, x, t2. split; [by rewrite <- app_assoc|]. split; [done|]. split; [done|].
  destruct Hx as [(e & e' & -> & ->)|[-> ->]].
  { destruct Hr as [-> _]. split; [by intros ? ?%elem_of_nil|]. eauto. }
  apply traces_bind in Hr as (t3 & t4 & readiness & -> & Hw & Hr). unfold wait_for_readiness in Hw.
  apply traces_bind in Hw as (t5 & t6 & now & -> & Hnow & Hw).
  assert (no_spawn t5) as N5 by (refine (calm_call CNow _ _ _ Hnow); done).
  assert (no_spawn t6) as N6 by (refine (calm_loop _ _ _ _ _ _ _ Hw); apply calm_request).
  destruct readiness as [[v|e]|].
  - destruct Hr as [-> ->]. rewrite app_nil_r. split; [by apply no_spawn_app|]. right. left.
    apply loop_Ok in Hw as (d & l1 & seg & l2 & -> & Hs%request_Ok). exists v, d. rewrite !elem_of_app. auto 6.
  - apply traces_bind in Hr as (t7 & t8 & d & -> & Hd & [-> ->]).
    pose proof (calm_diagnostic _ _ _ Hd) as N7. apply diagnostic_reaps in Hd. rewrite app_nil_r.
    split; [auto using no_spawn_app|]. right. right. left. split; [destruct d; eauto|].
    destruct Hd as [[st Hst]|[y Hy]]; [left; exists st|right; exists y]; rewrite !elem_of_app; auto.
  - destruct Hr as [-> ->]. rewrite app_nil_r. split; [by apply no_spawn_app|]. auto.
Qed.
End Start.

(** ** A machine whose daemon never answers *)
Definition dead_world (o : ClientOp) (now : Z) : Z * ClientAns o :=
  match o return Z * ClientAns o with
  | CPath o => (now, (demo_path_world o tt).2)
  | CExe => (now, Ok "/usr/bin/watchme")
  | COpenLog _ | CChmodLog | CSpawn _ | CRuntime => (now, Ok tt)
  | CNow => (now, now)
  | CSleep d => (now + Z.max 0 d, tt)
  | CKill => (now, tt)
  | CConnect _ => (now, Ready (Err "connection refused"))
  | CWrite _ _ => (now, Expired)
  | CRead _ => (now, Expired)
  | CTryWait => (now, Ok None)
  | CWait => (now, Ok "exit status: 1")
  | CReadLog _ _ => (now, Some (byte_list "bad config"))
  end.

Lemma dead_clock : client_clock dead_world (λ now, now).
Proof. split; [done| |intros; cbn; lia]. intros [] s; cbn; lia. Qed.

Definition dead_run : list (Ev ClientAns) * Outcome (result WatchmeError Ipc.Response.Response) :=
  converse dead_world (start_and_request 1000 demo_paths 19 Ipc.Request.ListWatchers) 0.

Lemma startup_wait_terminates_witness :
  (Effects.interp dead_world (start_and_request 1000 demo_paths 19 Ipc.Request.ListWatchers) 0).2 ≠ OutOfFuel.
Proof. exact (startup_wait_terminates dead_world _ dead_clock 1000 demo_paths Ipc.Request.ListWatchers 0). Defined.

Lemma daemon_start_private_witness :
  dead_run.2 = Returned (Err (Planner.RetryableIntegration
    "daemon did not become ready: connection refused; child exit status: 1: bad config"))
  ∧ ∃ exe l x rest, dead_run.1 = l ++ existT (CSpawn exe) x :: rest ∧ no_spawn rest ∧ reaped rest.
Proof.
  split; [vm_compute; reflexivity|].
  pose proof (converse_traces dead_world (start_and_request 1000 demo_paths 19 Ipc.Request.ListWatchers) 0) as Ht.
  fold dead_run in Ht.
  assert (dead_run.2 = Returned (Err (Planner.RetryableIntegration
    "daemon did not become ready: connection refused; child exit status: 1: bad config"))) as E
    by (vm_compute; reflexivity).
  destruct (daemon_start_private 1000 demo_paths 19 Ipc.Request.ListWatchers dead_run.1 dead_run.2 Ht)
    as [Hn|(exe & l & x & rest & Htr & _ & _ & Hr & [(e & -> & ->)|[(v & d & Hv & _)|[[_ Hre]|Ho]]])].
  - exfalso. assert (dead_run.1 !! 38%nat = Some (existT (CSpawn "/usr/bin/watchme") (Ok tt))) as Hl
      by (vm_compute; reflexivity).
    apply list_elem_of_lookup_2 in Hl. apply (Hn _ Hl). by eexists _, _.
  - exfalso. assert (@projT1 _ _ <$> last dead_run.1 = Some (CReadLog (startup_log demo_paths) 513)) as Hl
      by (vm_compute; reflexivity).
    rewrite Htr, last_snoc in Hl. discriminate Hl.
  - rewrite E in Hv. discriminate Hv.
  - exists exe, l, x, rest. auto.
  - rewrite E in Ho. discriminate Ho.
Defined.
