(* ===== verification/Doctor.v ===== *)
(** * Diagnostics and the provider list (src/src/doctor.rs)

    The checks of [watchme doctor] and the rows of [watchme providers].  Both only read:
    the machine they look at is a record of what the calls answer. *)
From S2P Require Import Prelude Text Json Action Event Process Policy Claude Services Hooks Manifest Host Config Paths.
From stdpp Require Import pretty.

Local Open Scope Z_scope.

Inductive CheckStatus : Type := CheckOk | CheckWarn | CheckFail.
#[global] Instance CheckStatus_eq_dec : EqDecision CheckStatus.
Proof. solve_decision. Defined.

Record DoctorCheck : Type := mkCheck { ck_name : string; ck_status : CheckStatus; ck_message : string }.
Record DoctorReport : Type := mkDoctorReport {
  dr_schema_version : string; dr_ok : bool; dr_checks : list DoctorCheck }.

(** [Path::display]. *)
Definition component_text (c : Component) : string :=
  match c with RootDir => "" | CurDir => "." | ParentDir => ".." | Normal n => n end.
Definition path_text (p : Path) : string :=
  match p with
  | [RootDir] => "/"
  | _ => String.concat "/" (component_text <$> p)
  end.

(** What the machine answers: existence and mode of a path, environment variables, the exit
    status of a shell script ([None] when [sh] cannot be run), the JSON in a file, the layer
    of a configuration file and a directory of manifests. *)
Record Machine : Type := mkMachine {
  mh_exists : string → bool;
  mh_mode : string → result string Z;
  mh_env : string → option string;
  mh_sh : string → option bool;
  mh_json : string → option Value;
  mh_layer : string → Layer;
  mh_manifests : string → LocalDir;
}.

Definition config_error_text (e : ConfigError) : string :=
  match e with
  | ReadConfig path source => "could not read configuration " +:+ path +:+ ": " +:+ source
  | Config.Invalid m => "invalid configuration: " +:+ m
  | UnsupportedVersion v =>
      "unsupported config_version " +:+ pretty v +:+ "; only version 1 is supported"
  | NotATable => "configuration layer must be a table"
  end.

Definition manifest_error_text (e : ManifestError) : string :=
  match e with
  | SchemaVersion v => "unsupported manifest schema_version: " +:+ v
  | Manifest.Parse m => "manifest parse error: " +:+ m
  | UnknownField m => "unknown or forbidden field: " +:+ m
  | UnsafeRegex m => "unsafe regex pattern: " +:+ m
  | ForbiddenCommand m => "forbidden command capability: " +:+ m
  | UnsafePath m => "unsafe manifest path: " +:+ m
  | HashMismatch m => "bundled manifest hash mismatch for " +:+ m
  | PolicyWeakening m => "manifest would weaken compiled policy: " +:+ m
  | Manifest.Invalid m => "invalid manifest content: " +:+ m
  | ManifestIo m => "io error: " +:+ m
  end.

Section Doctor.
Context `{Rfc3339} `{RegexBuild} `{TomlDecode} `{Sha256Hex} `{TomlParse}.
Context (bundled : list (string * string * string)) (m : Machine) (paths : WatchmePaths).

(** [sh -c 'command -v <binary>']. *)
Definition which_script (binary : string) : string := "command -v " +:+ binary +:+ " >/dev/null 2>&1".
Definition which (binary : string) : bool := default false (mh_sh m (which_script binary)).

Definition managed : list string :=
  [path_text (config_dir paths); path_text (state_dir paths); path_text (runtime_dir paths)].

Fixpoint missing_path (required : list string) : option string :=
  match required with
  | [] => None
  | p :: required => if negb (mh_exists m p) then Some p else missing_path required
  end.

Definition check_paths : DoctorCheck :=
  match missing_path managed with
  | Some p => mkCheck "paths" CheckWarn (p +:+ " does not exist yet")
  | None => mkCheck "paths" CheckOk "config, state, and runtime paths resolve"
  end.

Fixpoint permission_problem (l : list string) : option string :=
  match l with
  | [] => None
  | p :: l =>
      if negb (mh_exists m p) then permission_problem l
      else
        match mh_mode m p with
        | Ok mode => if negb (Z.land mode 63 =? 0) then Some (p +:+ " is not owner-only") else permission_problem l
        | Err e => Some ("cannot stat " +:+ p +:+ ": " +:+ e)
        end
  end.

Definition check_permissions : DoctorCheck :=
  match permission_problem managed with
  | Some message => mkCheck "permissions" CheckFail message
  | None => mkCheck "permissions" CheckOk "managed directories are owner-only"
  end.

Definition config_path : string := path_text (Paths.join (config_dir paths) [Normal "config.toml"]).

Definition check_config : DoctorCheck :=
  if negb (mh_exists m config_path)
  then mkCheck "config" CheckOk "using built-in defaults (no config.toml)"
  else
    match load_layers [mh_layer m config_path] with
    | Ok _ => mkCheck "config" CheckOk "configuration is valid"
    | Err e => mkCheck "config" CheckFail ("configuration invalid: " +:+ config_error_text e)
    end.

Definition check_binary (name : string) : DoctorCheck :=
  if which name then mkCheck name CheckOk (name +:+ " is available")
  else mkCheck name CheckWarn (name +:+ " not found on PATH").

Definition has_env (name : string) : bool := bool_decide (is_Some (mh_env m name)).

Definition check_herdr : DoctorCheck :=
  if has_env "HERDR_SOCKET_PATH"
     || has_env "HERDR_WORKSPACE_ID" && has_env "HERDR_TAB_ID" && has_env "HERDR_PANE_ID"
  then mkCheck "herdr" CheckOk "Herdr environment is present"
  else if which "herdr"
  then mkCheck "herdr" CheckWarn "herdr binary found but session environment is not set"
  else mkCheck "herdr" CheckWarn "Herdr unavailable (optional)".

Definition hook_is_watchme (command : string) (hook : Value) : bool :=
  match get_field "command" hook ≫= as_str with
  | Some c => contains "watchme-hook-stop-failure" c || String.eqb c command
  | None => false
  end.

Definition contains_watchme (command : string) (settings : Value) : bool :=
  match (get_field "hooks" settings ≫= get_field "StopFailure") ≫= as_array with
  | Some groups =>
      existsb (λ group, match get_field "hooks" group ≫= as_array with
                        | Some hooks => existsb (hook_is_watchme command) hooks
                        | None => false
                        end) groups
  | None => false
  end.

Definition settings_contain_watchme (settings command : string) : bool :=
  match mh_json m settings with Some value => contains_watchme command value | None => false end.

Definition marker_file : string :=
  path_text (match state_file paths "claude-stop-failure.jsonl" with
             | Ok p => p
             | Err _ => Paths.join (state_dir paths) [Normal "claude-stop-failure.jsonl"]
             end).

Definition check_hooks : DoctorCheck :=
  match mh_env m "HOME" with
  | None => mkCheck "hooks" CheckWarn "HOME unset; cannot inspect Claude hooks"
  | Some home =>
      let settings := join_path home ".claude/settings.json" in
      match stop_failure_command marker_file with
      | Ok command =>
          if mh_exists m settings && settings_contain_watchme settings command
          then mkCheck "hooks" CheckOk "Claude StopFailure hook installed"
          else mkCheck "hooks" CheckWarn "Claude StopFailure hook not installed"
      | Err e => mkCheck "hooks" CheckWarn ("cannot evaluate Claude hook: " +:+ e)
      end
  end.

Definition expand_home (value : string) : string :=
  match Services.strip_prefix "~/" value, mh_env m "HOME" with
  | Some rest, Some home => if starts_with "/" rest then rest else join_path home rest
  | _, _ => value
  end.

(** The local directory of manifests, when it exists. *)
Definition local_manifests (config : Config) : option LocalDir :=
  let local := expand_home (local_directory (manifests config)) in
  if mh_exists m local then Some (mh_manifests m local) else None.

Definition counts_as_ready (s : ProviderStatus) : bool :=
  match ps_readiness s with
  | Readiness.Tested | Readiness.Probed | Readiness.ObservationOnly => true
  | Readiness.Absent | Readiness.Disabled => false
  end.

Definition check_providers (config : Config) : DoctorCheck :=
  match load_manifests bundled (local_manifests config) (mn_bundled (manifests config)) with
  | Ok report =>
      let listing := provider_listing (rp_registry report) which in
      mkCheck "providers" CheckOk
        (pretty (Z.of_nat (length listing)) +:+ " provider manifests loaded; "
         +:+ pretty (Z.of_nat (length (List.filter counts_as_ready listing)))
         +:+ " ready or observation-capable")
  | Err e => mkCheck "providers" CheckFail ("provider manifests failed: " +:+ manifest_error_text e)
  end.

Definition is_status (s : CheckStatus) (c : DoctorCheck) : bool := bool_decide (ck_status c = s).

Definition run_doctor (config : Config) (strict : bool) : DoctorReport :=
  let checks := [check_paths; check_permissions; check_config; check_binary "tmux"; check_herdr;
                 check_hooks; check_providers config] in
  let has_fail := existsb (is_status CheckFail) checks in
  let has_warn := existsb (is_status CheckWarn) checks in
  mkDoctorReport "1.0" (if strict then negb has_fail && negb has_warn else negb has_fail) checks.

(** ** The provider list *)
Record ProviderRow : Type := mkRow {
  row_id : string;
  row_support_tier : string;
  row_readiness : string;
  row_first_class : bool;
  row_executable_present : bool;
  row_local_override : bool;
  row_manifest_version : string;
}.

Definition support_tier_name (t : SupportTier) : string :=
  match t with
  | Tier.Structured => "structured"
  | Tier.DeterministicTerminal => "deterministic_terminal"
  | Tier.PlannerAssisted => "planner_assisted"
  | Tier.ObservationOnly => "observation_only"
  | Tier.Disabled => "disabled"
  end.

Definition readiness_name (r : ProviderReadiness) : string :=
  match r with
  | Readiness.Tested => "tested"
  | Readiness.Probed => "probed"
  | Readiness.ObservationOnly => "observation_only"
  | Readiness.Absent => "absent"
  | Readiness.Disabled => "disabled"
  end.

Definition first_class_row (name : string) : ProviderRow :=
  mkRow name "structured" (if which name then "tested" else "absent") true (which name) false "builtin".

Definition manifest_row (s : ProviderStatus) : ProviderRow :=
  mkRow (ps_id s) (support_tier_name (ps_tier s)) (readiness_name (ps_readiness s)) false
    (executable_present s) (local_override s) (ps_manifest_version s).

Definition is_first_class (id : string) : bool := String.eqb id "claude" || String.eqb id "codex".

Definition list_providers (config : Config) : result string (list ProviderRow) :=
  let? report := map_err manifest_error_text
                   (load_manifests bundled (local_manifests config) (mn_bundled (manifests config))) in
  Ok ([first_class_row "claude"; first_class_row "codex"]
      ++ (manifest_row <$> List.filter (λ s, negb (is_first_class (ps_id s)))
                             (provider_listing (rp_registry report) which))).
End Doctor.

(** ** The verdict *)
Section Verdict.
Context `{Rfc3339} `{RegexBuild} `{TomlDecode} `{Sha256Hex} `{TomlParse}.
Context (bundled : list (string * string * string)) (m : Machine) (paths : WatchmePaths).

(** An existing directory that only its owner can use. *)
Definition private_if_there (p : string) : Prop :=
  mh_exists m p = true → ∃ mode, mh_mode m p = Ok mode ∧ Z.land mode 63 = 0.

Lemma permission_problem_None l : permission_problem m l = None ↔ Forall private_if_there l.
Proof.
  induction l as [|p l IH]; [done|]. rewrite Forall_cons, <- IH. unfold private_if_there. cbn.
  destruct (mh_exists m p); cbn; [|naive_solver]. destruct (mh_mode m p) as [mode|e].
  - destruct (Z.eqb_spec (Z.land mode 63) 0); cbn; [naive_solver|]. split; [done|].
    intros [Hm _]. destruct (Hm eq_refl) as (? & [= <-] & ?). done.
  - split; [done|]. intros [Hm _]. by destruct (Hm eq_refl) as (? & ? & _).
Qed.

Definition sound_config (p : string) : Prop :=
  mh_exists m p = true → ∃ c, load_layers [mh_layer m p] = Ok c.
Definition sound_manifests (config : Config) : Prop :=
  ∃ report, load_manifests bundled (local_manifests m config) (mn_bundled (manifests config)) = Ok report.

Lemma not_failed c : is_status CheckFail c = false ↔ ck_status c ≠ CheckFail.
Proof. unfold is_status. by rewrite bool_decide_eq_false. Qed.

Lemma check_permissions_fails :
  ck_status (check_permissions m paths) ≠ CheckFail ↔ Forall private_if_there (managed paths).
Proof.
  rewrite <- permission_problem_None. unfold check_permissions.
  by destruct (permission_problem m (managed paths)).
Qed.
Lemma check_config_fails :
  ck_status (check_config m paths) ≠ CheckFail ↔ sound_config (config_path paths).
Proof.
  unfold check_config, sound_config. destruct (mh_exists m (config_path paths)); cbn; [|naive_solver].
  destruct (load_layers _); cbn; naive_solver.
Qed.
Lemma check_providers_fails config :
  ck_status (check_providers bundled m config) ≠ CheckFail ↔ sound_manifests config.
Proof.
  unfold check_providers, sound_manifests. destruct (load_manifests _ _ _); cbn; naive_solver.
Qed.
Lemma check_others_pass :
  ck_status (check_paths m paths) ≠ CheckFail ∧ ck_status (check_binary m "tmux") ≠ CheckFail
  ∧ ck_status (check_herdr m) ≠ CheckFail ∧ ck_status (check_hooks m paths) ≠ CheckFail.
Proof.
  unfold check_paths, check_binary, check_herdr, check_hooks.
  repeat match goal with
    | |- context [match ?x with _ => _ end] =>
        lazymatch x with context [match _ with _ => _ end] => fail | _ => destruct x end
    end; done.
Qed.

(** The doctor is satisfied exactly when the managed directories that exist are private,
    the configuration file, if any, loads, and the manifests load; missing tools, hooks or
    directories are only warnings, which a strict run counts too. *)
Theorem doctor_verdict config :
  (dr_ok (run_doctor bundled m paths config false) = true ↔
     Forall private_if_there (managed paths) ∧ sound_config (config_path paths) ∧ sound_manifests config)
  ∧ (dr_ok (run_doctor bundled m paths config true) = true ↔
       Forall (λ c, ck_status c = CheckOk) (dr_checks (run_doctor bundled m paths config true))).
Proof.
  split.
  - unfold run_doctor. cbn [dr_ok existsb].
    rewrite negb_true_iff, !orb_false_iff, !not_failed, check_permissions_fails, check_config_fails,
      check_providers_fails. destruct check_others_pass as (? & ? & ? & ?). tauto.
  - unfold run_doctor. cbn [dr_ok dr_checks]. set (l := [_; _; _; _; _; _; _]). clearbody l.
    rewrite andb_true_iff, !negb_true_iff. split.
    + intros [Hf Hw]. rewrite existsb_false_elem in Hf, Hw. apply Forall_forall. intros c Hc.
      specialize (Hf c Hc). specialize (Hw c Hc). unfold is_status in *.
      apply bool_decide_eq_false in Hf, Hw. by destruct (ck_status c).
    + intros Hl. rewrite Forall_forall in Hl. unfold is_status.
      split; apply existsb_false_elem; intros c Hc; apply bool_decide_eq_false; by rewrite (Hl c Hc).
Qed.
End Verdict.

(** What the installer leaves in the settings is what the doctor looks for: after an
    installation, also one that found the hook in place, the hook counts as installed. *)
Theorem doctor_sees_installed_hook command root r :
  install_root command root = Ok r → contains_watchme command (default root r) = true.
Proof.
  assert (∀ root groups, stop_groups root = groups → existsb (group_owns_watchme command) groups = true →
            contains_watchme command root = true) as Hsee.
  { intros v groups <- Ho. unfold contains_watchme, stop_groups in *.
    destruct ((get_field "hooks" v ≫= get_field "StopFailure") ≫= as_array) as [gs|]; [|done].
    cbn in Ho. apply existsb_elem in Ho as (g & Hg & Ho). apply existsb_elem. exists g. split; [done|].
    unfold group_owns_watchme in Ho. destruct (get_field "hooks" g ≫= as_array) as [hs|]; [|done].
    apply existsb_elem in Ho as (h & Hh & Ho). apply existsb_elem. exists h. split; [done|].
    unfold handler_owns_watchme in Ho. apply andb_true_iff in Ho as [_ Ho].
    unfold hook_is_watchme. destruct (get_field "command" h ≫= as_str) as [c|]; [|done].
    apply bool_decide_eq_true in Ho as [= ->]. by rewrite String.eqb_refl, orb_true_r. }
  destruct r as [root'|]; cbn; intros Hi.
  - apply install_root_spec in Hi as (top & hooks & groups & -> & Hh & Hg & Ho & Hr).
    destruct (set_groups_spec top hooks _ _ Hr Hh) as [Hs _]. apply (Hsee _ _ Hs).
    apply existsb_elem. exists (own_group command). split; [set_solver|].
    unfold group_owns_watchme, handler_owns_watchme, opt_str_eqb. cbn -[bool_decide].
    by rewrite !bool_decide_eq_true_2.
  - unfold install_root in Hi. apply rbind_Ok in Hi as (top & Ht & Hi). apply ok_or_Ok in Ht.
    apply rbind_Ok in Hi as (hooks & Hh & Hi). apply ok_or_Ok in Hh.
    apply rbind_Ok in Hi as (groups & Hg & Hi). apply ok_or_Ok in Hg.
    destruct root; try done. injection Ht as ->. case_bool_in Hi; [|done].
    by apply (Hsee _ _ (stop_groups_top _ _ _ Hh Hg)).
Qed.

(** ** The rows *)
Section Rows.
Context `{Rfc3339} `{RegexBuild} `{TomlDecode} `{Sha256Hex}.
Context (bundled : list (string * string * string)) (m : Machine).

Lemma listing_ids P r present :
  registry_ok P r → ps_id <$> provider_listing r present = btree_keys r.
Proof.
  intros Hr. unfold provider_listing, btree_values, btree_keys. rewrite <- !list_fmap_compose.
  apply list_fmap_ext. intros i [k l] Hl. cbn. apply list_elem_of_lookup_2, elem_of_btree_entries in Hl.
  by apply Hr in Hl as [? _].
Qed.

(** The list names every provider once: the two built-in ones first, then the loaded
    manifests in the order of their ids, without those that carry a built-in name; each row
    of a manifest says what its manifest says. *)
Theorem provider_rows config rows :
  list_providers bundled m config = Ok rows →
  NoDup (row_id <$> rows) ∧ take 2 (row_id <$> rows) = ["claude"; "codex"]
  ∧ ∃ report, load_manifests bundled (local_manifests m config) (mn_bundled (manifests config)) = Ok report
      ∧ drop 2 (row_id <$> rows) = List.filter (λ id, negb (is_first_class id)) (btree_keys (rp_registry report))
      ∧ ∀ row, row ∈ drop 2 rows → ∃ l, rp_registry report !! row_id row = Some l
          ∧ row_manifest_version row = manifest_version (lm_manifest l)
          ∧ row_executable_present row = existsb (which m) (basenames (lm_manifest l)).
Proof.
  unfold list_providers. intros (report & Hl & [= <-])%rbind_Ok. apply map_err_Ok in Hl.
  destruct (loaded_manifests_trusted _ _ _ _ Hl) as [_ Hok].
  assert (row_id <$> (manifest_row <$> List.filter (λ s, negb (is_first_class (ps_id s)))
            (provider_listing (rp_registry report) (which m)))
          = List.filter (λ id, negb (is_first_class id)) (btree_keys (rp_registry report))) as Hids.
  { rewrite <- (listing_ids _ _ (which m) Hok), <- list_fmap_compose.
    induction (provider_listing (rp_registry report) (which m)) as [|s l IH]; [done|]. cbn.
    destruct (is_first_class (ps_id s)); cbn; [done|]. by f_equal. }
  split; [|split; [done|]].
  - cbn. rewrite Hids. assert (NoDup (btree_keys (rp_registry report))) as Hnd by apply btree_entries_NoDup.
    repeat apply NoDup_cons_2; [..|by apply NoDup_ListNoDup, List.NoDup_filter, NoDup_ListNoDup];
      rewrite ?elem_of_cons, list_elem_of_In, List.filter_In; intuition (discriminate || congruence).
  - exists report. split; [done|]. split; [exact Hids|]. intros row. cbn.
    intros (s & -> & Hs)%list_elem_of_fmap. apply list_elem_of_In, List.filter_In in Hs as [Hs _].
    apply list_elem_of_In, list_elem_of_fmap in Hs as (l & -> & Hb).
    apply elem_of_btree_values in Hb as [k Hk]. destruct (Hok _ _ Hk) as [He _].
    exists l. cbn. by rewrite He.
Qed.
End Rows.

(** ** Text of a manifest is run by a shell *)
Section Shell.
Context `{Rfc3339} `{RegexBuild}.

Definition with_basename (text : string) (mf : ProviderManifest) : ProviderManifest :=
  mkManifest (mf_schema_version mf) (mf_id mf) (manifest_version mf) (updated_at mf)
    (min_watchme_version mf) (description mf) (source_url mf) (support_tier mf) (aliases mf)
    (version_range mf) (mkMatcher ExecutableBasename text 0 false :: process_matchers mf)
    (version_probe mf) (provider_resolution mf) (session_sources mf) (structured_sources mf)
    (screen_rules mf) (composer_rules mf) (deterministic_recoveries mf) (planner_recipes mf)
    (fixture_paths mf).

(** Validation forbids shells in the commands of a manifest, but not in the names it matches
    processes with, and the provider list and the doctor hand these to a shell.  Any text of
    up to 256 bytes can be such a name of a manifest that validates, and whether the provider
    is present is then the exit status of a script which contains the text verbatim. *)
Theorem manifest_text_reaches_shell machine mf text source digest path :
  validate_manifest mf = Ok tt → (length (process_matchers mf) < 32)%nat →
  is_empty text = false → len text ≤ 256 →
  validate_manifest (with_basename text mf) = Ok tt
  ∧ executable_present (provider_status (which machine) (mkLoaded (with_basename text mf) source digest path))
    = default false (mh_sh machine ("command -v " +:+ text +:+ " >/dev/null 2>&1"))
      || existsb (which machine) (basenames mf).
Proof.
  intros Hv Hl He Ht. split; [|done]. unfold validate_manifest in *.
  cbn [with_basename mf_schema_version mf_id manifest_version updated_at aliases process_matchers
       version_probe provider_resolution screen_rules composer_rules support_tier
       deterministic_recoveries planner_recipes].
  do 6 (apply rbind_Ok in Hv as ([] & -> & Hv); cbn [rbind]).
  apply rbind_Ok in Hv as ([] & _ & Hv). apply rbind_Ok in Hv as ([] & Hm & Hv).
  rewrite bool_decide_eq_false_2 by done. rewrite (proj2 (Z.ltb_ge _ _)) by (cbn; lia). cbn [orb fail_if rbind each].
  unfold validate_process_matcher at 1. cbn [pm_pattern pm_weight pm_kind].
  rewrite He, (proj2 (Z.ltb_ge _ _)) by done. cbn. rewrite Hm. exact Hv.
Qed.
End Shell.

(** ** A machine with one manifest *)
Definition demo_machine : Machine :=
  mkMachine (λ p, starts_with "/home/u" p) (λ _, Ok 448) (λ v, if String.eqb v "HOME" then Some "/home/u" else None)
    (λ script, Some (contains "touch" script || String.eqb script (which_script "claude"))) (λ _, None)
    (λ p, mkLayer p Missing (Ok "")) (λ p, mkLocalDir p (Err "gone") (Err "gone") (Err "gone")).

Lemma manifest_text_reaches_shell_witness :
  let text := "x; touch /tmp/owned #" in
  validate_manifest (H := toy_rfc) (H0 := toy_regex) (with_basename text pi_manifest) = Ok tt
  ∧ mh_sh demo_machine ("command -v " +:+ text +:+ " >/dev/null 2>&1") = Some true.
Proof.
  intros text. split; [|vm_compute; reflexivity].
  refine (proj1 (manifest_text_reaches_shell (H := toy_rfc) (H0 := toy_regex) demo_machine pi_manifest text
                   Bundled "aa" None _ _ _ _)).
  - vm_compute. reflexivity.
  - vm_compute. lia.
  - vm_compute. reflexivity.
  - vm_compute. discriminate.
Defined.

Lemma doctor_sees_installed_hook_witness :
  ∃ root', install_root "watchme" sample_settings = Ok (Some root') ∧ contains_watchme "watchme" root' = true.
Proof.
  eexists. split; [reflexivity|].
  refine (doctor_sees_installed_hook "watchme" sample_settings (Some _) _). reflexivity.
Defined.

Definition demo_config : Config :=
  mkConfig 1 daemon_default observation_default lifecycle_default recovery_default planning_default
    security_default retention_default notifications_default (mkManifests true "/etc/none" false true) ∅.

Lemma provider_rows_witness :
  let rows := [first_class_row demo_machine "claude"; first_class_row demo_machine "codex";
               mkRow "pi" "deterministic_terminal" "absent" false false false "1"] in
  list_providers (H := toy_rfc) (H0 := toy_regex) (H1 := toy_toml) (H2 := toy_digest)
    [("pi", "pi", "aa")] demo_machine demo_config = Ok rows
  ∧ NoDup (row_id <$> rows).
Proof.
  intros rows. assert (list_providers (H := toy_rfc) (H0 := toy_regex) (H1 := toy_toml) (H2 := toy_digest)
    [("pi", "pi", "aa")] demo_machine demo_config = Ok rows) as E by (vm_compute; reflexivity).
  split; [exact E|].
  exact (proj1 (provider_rows (H := toy_rfc) (H0 := toy_regex) (H1 := toy_toml) (H2 := toy_digest)
                  [("pi", "pi", "aa")] demo_machine demo_config rows E)).
Defined.
