(* ===== verification/Startup.v ===== *)
(** * The life of the daemon process (src/src/daemon/mod.rs, with bind_owner_only of
      src/src/ipc/mod.rs and the restart scans of src/src/daemon/runtime_services.rs)

    [run_with_components_and_clock] from its first call to the values it drops: the lock,
    the socket, the state files, the recovery of abandoned actions, the tasks, the accept
    loop with its three arms, the orderly shutdown and the teardown.  A value with a
    destructor is a call after the code it outlives, on every path out of that code.  A
    connection is served by a task of its own: the loop only spawns it, and the task may
    serve at any later time until it is aborted; [Life] below tracks whether one may. *)
From S2P Require Import Prelude Store ActionStore Effects Transaction TransactionSafety Runtime Mux Lock Target Paths.

Local Open Scope Z_scope.

(** ** Abandoned actions *)

(** One scan: every active record, by its own target; failures are ignored. *)
Fixpoint recover_targets (recover : string → TxProg (result TransactionError (option ActionRecord)))
    (targets : list string) : TxProg unit :=
  match targets with
  | [] => Ret tt
  | t :: targets => let! _ := recover t in recover_targets recover targets
  end.

Definition recover_durable_actions_after_restart (records : result string (list ActionRecord)) : TxProg unit :=
  match records with
  | Ok rs => recover_targets recover_after_restart (rec_target <$> rs)
  | Err _ => Ret tt
  end.

Definition recover_stale_durable_actions (records : result string (list ActionRecord)) : TxProg unit :=
  match records with
  | Ok rs => recover_targets recover_stale (rec_target <$> rs)
  | Err _ => Ret tt
  end.

(** ** Calls *)
Inductive Selected : Type :=
| SchedulerDone (joined : result string unit)
| ShutdownAsked
| Accepted (stream : result string unit).

Inductive DaemonOp : Type :=
| NPath (o : PathOp)
| NStartTime
| NLock (path : Path)
| NSocketExists
| NRemoveSocket
| NParentStat
| NSocketStat
| NBind
| NChmodSocket
| NListen
| NLoadRegistry (state : Path)
| NScheduler
| NSpawnScheduler
| NSpawnLifecycle
| NLoadActions (state : Path)
| NRecover
| NSpawnObserver
| NSelect
| NReap
| NTryShutdown
| NSendShutdown
| NBeginShutdown
| NAbortObserver
| NWaitJobs
| NAcknowledge
| NHasActive
| NNoConnections
| NPermit
| NSpawnConnection
| NAbortConnections
| NDropConnections
| NAbortScheduler
| NAbortLifecycle
| NCleanupSocket
| NReleaseLock.

Definition DaemonAns (o : DaemonOp) : Type :=
  match o with
  | NPath o => PathAns o
  | NStartTime => result string Z
  | NLock _ => result string DaemonIdentity
  | NParentStat => result string (bool * Z)
  | NSocketStat | NSocketExists | NTryShutdown | NHasActive | NNoConnections | NPermit => bool
  | NSelect => Selected
  | NRemoveSocket | NBind | NChmodSocket | NListen | NLoadRegistry _ | NScheduler | NLoadActions _ =>
      result string unit
  | _ => unit
  end.

Abbreviation DaemonProg := (Prog DaemonAns).
Definition ncall (o : DaemonOp) : DaemonProg (DaemonAns o) := call o.

(** [None]: the fuel of the accept loop is spent. *)
Abbreviation Ran := (option (result string unit)).

Section Daemon.
Context (euid : Z) (paths : WatchmePaths).

Definition bind_owner_only : DaemonProg (result string unit) :=
  try! parent := ncall NParentStat in
  if parent.1 || negb (Z.land parent.2 63 =? 0) then Ret (Err "socket parent is not owner-only")
  else
    let! exists_ := ncall NSocketStat in
    if exists_ then Ret (Err "socket path already exists")
    else
      try! _ := ncall NBind in
      ncall NChmodSocket.

(** The observer is a task until it is taken and aborted. *)
Definition stop_observer (observing : bool) : DaemonProg unit :=
  if observing then ncall NAbortObserver else Ret tt.

(** No new recovery job, no observer, every job terminal, then the answer. *)
Definition orderly_shutdown (observing : bool) : DaemonProg unit :=
  let! _ := ncall NBeginShutdown in
  let! _ := stop_observer observing in
  let! _ := ncall NWaitJobs in
  ncall NAcknowledge.

(** [NSpawnConnection] starts a task for the connection; [NReap] joins those that ended.

    How the loop ends: by [break], with what remains of the observer, or by [?]. *)
Inductive LoopEnd : Type :=
| Broke (r : result string unit) (observing : bool)
| Raised (e : string).

Fixpoint accept_loop (fuel : nat) : DaemonProg (option LoopEnd) :=
  match fuel with
  | O => Ret None
  | S fuel =>
      let! selected := ncall NSelect in
      match selected with
      | SchedulerDone (Err e) => Ret (Some (Raised e))
      | SchedulerDone (Ok _) =>
          let! _ := ncall NReap in
          let! asked := ncall NTryShutdown in
          if asked then
            let! _ := orderly_shutdown true in Ret (Some (Broke (Ok tt) false))
          else
            let! active := ncall NHasActive in
            let! idle := ncall NNoConnections in
            if negb active && idle then Ret (Some (Broke (Ok tt) true))
            else
              let! replacement := ncall NScheduler in
              match replacement with
              | Err e => Ret (Some (Raised e))
              | Ok _ => let! _ := ncall NSpawnScheduler in accept_loop fuel
              end
      | ShutdownAsked =>
          let! _ := ncall NSendShutdown in
          let! _ := orderly_shutdown true in Ret (Some (Broke (Ok tt) false))
      | Accepted (Err e) => Ret (Some (Broke (Err e) true))
      | Accepted (Ok _) =>
          let! permit := ncall NPermit in
          if negb permit then accept_loop fuel
          else
            let! _ := ncall NSpawnConnection in
            let! _ := ncall NReap in
            accept_loop fuel
      end
  end.

(** After the loop: the connections, the scheduler, the lifecycle monitor, the observer. *)
Definition teardown (observing : bool) : DaemonProg unit :=
  let! _ := ncall NAbortConnections in
  let! _ := ncall NAbortScheduler in
  let! _ := ncall NAbortLifecycle in
  stop_observer observing.

Definition prepare_state : DaemonProg (result string unit) :=
  try! state := lift (state_file paths "watchers.json") in
  try! _ := ncall (NLoadRegistry state) in
  try! _ := ncall NScheduler in
  let! _ := ncall NSpawnScheduler in
  let! _ := ncall NSpawnLifecycle in
  try! actions := lift (state_file paths "actions.json") in
  try! _ := ncall (NLoadActions actions) in
  let! _ := ncall NRecover in
  let! _ := ncall NSpawnObserver in
  Ret (Ok tt).

(** When the loop ends by [?], dropping the set of connection tasks cancels them without
    waiting for them. *)
Definition serve (fuel : nat) : DaemonProg Ran :=
  let! ready := prepare_state in
  match ready with
  | Err e => Ret (Some (Err e))
  | Ok _ =>
      let! ended := accept_loop fuel in
      match ended with
      | None => Ret None
      | Some (Raised e) => let! _ := ncall NDropConnections in Ret (Some (Err e))
      | Some (Broke r observing) => let! _ := teardown observing in Ret (Some r)
      end
  end.

(** A destructor runs when the code it outlives has ended, with whatever result; a run
    whose fuel is spent is still in the loop. *)
Definition finally (destructor : DaemonOp) (body : DaemonProg Ran) : DaemonProg Ran :=
  let! r := body in
  match r with
  | None => Ret None
  | Some r => let! _ := ncall destructor in Ret (Some r)
  end.

(** With the socket: [SocketCleanup] is dropped after everything it outlives. *)
Definition with_socket (fuel : nat) : DaemonProg Ran := finally NCleanupSocket (serve fuel).

Definition open_socket : DaemonProg (result string unit) :=
  let! stale := ncall NSocketExists in
  try! _ := (if stale then ncall NRemoveSocket else Ret (Ok tt)) in
  try! _ := bind_owner_only in
  ncall NListen.

(** With the lock: it is dropped last. *)
Definition with_lock (fuel : nat) : DaemonProg Ran :=
  finally NReleaseLock
    (let! opened := open_socket in
     match opened with
     | Err e => Ret (Some (Err e))
     | Ok _ => with_socket fuel
     end).

Definition acquire : DaemonProg (result string DaemonIdentity) :=
  try! _ := interp (λ o, ncall (NPath o)) (create_owner_only euid paths) in
  try! _ := ncall NStartTime in
  ncall (NLock (Paths.join (runtime_dir paths) [Normal "daemon.lock"])).

Definition run_daemon (fuel : nat) : DaemonProg Ran :=
  let! acquired := acquire in
  match acquired with
  | Err e => Ret (Some (Err e))
  | Ok _ => with_lock fuel
  end.
End Daemon.

(** ** What each call presupposes *)
Record Life : Type := mkLife {
  held : bool;                       (** the lock *)
  bound : bool;                      (** the socket file is there *)
  armed : bool;                      (** and will be removed *)
  spoiled : bool;                    (** it was made, but not made usable *)
  recovered : bool;                  (** abandoned actions were closed *)
  serving : bool;                    (** a connection task may run *)
  cut : bool;                        (** the connection tasks were cancelled without waiting *)
  watching : bool;                   (** the observer runs *)
  asked : bool;                      (** a shutdown was requested *)
  draining : bool;                   (** no recovery job will be started *)
  drained : bool;                    (** every recovery job is terminal *)
}.
Definition unborn : Life := mkLife false false false false false false false false false false false.

Definition guard (l : Life) (o : DaemonOp) : Prop :=
  match o with
  | NLock _ => held l = false ∧ serving l = false
  | NChmodSocket | NListen => held l = true ∧ bound l = true ∧ serving l = false
  | NRemoveSocket | NBind | NLoadRegistry _ | NLoadActions _ | NRecover => held l = true
  | NSpawnObserver => held l = true ∧ recovered l = true
  | NSpawnConnection => held l = true ∧ bound l = true ∧ spoiled l = false ∧ recovered l = true ∧ draining l = false
  | NWaitJobs => asked l = true ∧ draining l = true ∧ watching l = false
  | NAcknowledge => drained l = true
  | NCleanupSocket => held l = true ∧ armed l = true ∧ (serving l = true → cut l = true)
  | NReleaseLock => held l = true ∧ armed l = false ∧ (serving l = true → cut l = true)
  | _ => True
  end.

Definition advance (l : Life) (o : DaemonOp) : DaemonAns o → Life :=
  let '(mkLife h b a s r c k w q g d) := l in
  match o return DaemonAns o → Life with
  | NLock _ => λ x, mkLife (is_ok x) b a s r c k w q g d
  | NBind => λ x, mkLife h (b || is_ok x) a s r c k w q g d
  | NChmodSocket => λ x, mkLife h b a (s || negb (is_ok x)) r c k w q g d
  | NListen => λ x, mkLife h b (is_ok x) (s || negb (is_ok x)) r c k w q g d
  | NRecover => λ _, mkLife h b a s true c k w q g d
  | NSpawnConnection => λ _, mkLife h b a s r true k w q g d
  | NAbortConnections => λ _, mkLife h b a s r false k w q g d
  | NDropConnections => λ _, mkLife h b a s r c true w q g d
  | NSpawnObserver => λ _, mkLife h b a s r c k true q g d
  | NAbortObserver => λ _, mkLife h b a s r c k false q g d
  | NSelect => λ x, mkLife h b a s r c k w (q || match x with ShutdownAsked => true | _ => false end) g d
  | NTryShutdown => λ x, mkLife h b a s r c k w (q || x) g d
  | NBeginShutdown => λ _, mkLife h b a s r c k w q true d
  | NWaitJobs => λ _, mkLife h b a s r c k w q g true
  | NCleanupSocket => λ _, mkLife h false false s r c k w q g d
  | NReleaseLock => λ _, mkLife false b a s r c k w q g d
  | _ => λ _, l
  end.

Abbreviation safe := (wp guard advance).

Lemma safe_bind {A B} (p : DaemonProg A) (f : A → DaemonProg B) l Q :
  safe p l (λ a l', safe (f a) l' Q) → safe (bind p f) l Q.
Proof. apply wp_bind. Qed.

(** The daemon with its lock only; with its socket, before and after the recovery. *)
Definition locked (b s : bool) : Life := mkLife true b false s false false false false false false false.
Definition reachable (r : bool) : Life := mkLife true true true false r false false false false false false.
(** The daemon in its loop: locked, reachable, observing, nothing drained. *)
Definition live (c : bool) : Life := mkLife true true true false true c false true false false false.
(** And after an orderly shutdown: connection tasks may still run. *)
Definition closed_down (c : bool) : Life := mkLife true true true false true c false false true true true.

Lemma accept_loop_safe fuel c :
  safe (accept_loop fuel) (live c) (λ e l, ∃ c, match e with
    | None | Some (Raised _) => l = live c
    | Some (Broke r true) => l = live c
    | Some (Broke r false) => r = Ok tt ∧ l = closed_down c
    end).
Proof.
  revert c. induction fuel as [|fuel IH]; intros c; [by exists c|]. cbn [accept_loop]. apply wp_call; [done|].
  intros [[[]|e]| |[[]|e]]; cbn.
  - split; [done|]. intros _. split; [done|]. intros [|]; cbn.
    + repeat (split; [done|]; intros _). by exists c.
    + split; [done|]. intros active. split; [done|]. intros idle.
      destruct (negb active && idle); cbn; [by exists c|]. split; [done|]. intros [[]|e]; [|by exists c].
      cbn. split; [done|]. intros _. exact (IH c).
  - by exists c.
  - repeat (split; [done|]; intros _). by exists c.
  - split; [done|]. intros [|]; cbn; [|exact (IH c)]. repeat (split; [done|]; intros _). exact (IH true).
  - by exists c.
Qed.

(** How the daemon ended, connections and jobs: none runs that was not cut off, which only
    an error does; after a success no observer runs; and the recovery jobs were waited for
    exactly when a shutdown was asked for, and then the daemon ends without an error. *)
Definition settled_down (r : Ran) (l : Life) : Prop :=
  (serving l = true → cut l = true) ∧ (cut l = true → ∃ e, r = Some (Err e))
  ∧ (r = Some (Ok tt) → watching l = false) ∧ drained l = asked l ∧ (asked l = true → r = Some (Ok tt)).

(** What the daemon leaves: no lock; and no socket, unless the fresh socket could not be
    made usable, in which case the file stays and nothing else was done. *)
Definition left_behind (r : Ran) (l : Life) : Prop :=
  r ≠ None → held l = false ∧ bound l = spoiled l
    ∧ (spoiled l = true → (∃ e, r = Some (Err e)) ∧ recovered l = false)
    ∧ settled_down r l.

Definition in_socket (r : Ran) (l : Life) : Prop :=
  held l = true ∧ bound l = true ∧ armed l = true ∧ spoiled l = false ∧ (r ≠ None → settled_down r l).

Section Safe.
Context (euid : Z) (paths : WatchmePaths).

Lemma prepare_state_safe :
  safe (prepare_state paths) (reachable false)
    (λ r l, match r with Ok _ => l = live false | Err _ => ∃ b, l = reachable b end).
Proof.
  unfold prepare_state, lift, prog_try. cbn [bind state_file].
  destruct (state_file paths "watchers.json") as [s|e]; cbn; [|by eexists].
  split; [done|]. intros [[]|e]; cbn; [|by eexists]. split; [done|]. intros [[]|e]; cbn; [|by eexists].
  do 2 (split; [done|]; intros _). destruct (state_file paths "actions.json") as [s'|e]; cbn; [|by eexists].
  split; [done|]. intros [[]|e]; cbn; [|by eexists]. split; [done|]. intros _. split; [done|]. intros _. done.
Qed.

Lemma teardown_safe (observing : bool) (l : Life) (Q : unit → Life → Prop) :
  Q tt (mkLife (held l) (bound l) (armed l) (spoiled l) (recovered l) false (cut l)
          (if observing then false else watching l) (asked l) (draining l) (drained l)) →
  safe (teardown observing) l Q.
Proof.
  intros HQ. unfold teardown. destruct l as [h b a s r c k w q g d].
  cbn. do 3 (split; [done|]; intros _). destruct observing; cbn in *.
  - split; [done|]. by intros [].
  - done.
Qed.

Lemma serve_safe fuel : safe (serve paths fuel) (reachable false) in_socket.
Proof.
  unfold serve. apply wp_bind. eapply wp_mono; [|apply prepare_state_safe]. intros [[]|e] l.
  2:{ intros [b ->]. done. }
  intros ->. apply wp_bind. eapply wp_mono; [|apply accept_loop_safe].
  intros [[r [|]|e]|] l [c' Hl]; [|destruct Hl as [-> Hl]| |]; rewrite Hl; clear l Hl.
  - apply wp_bind, teardown_safe. unfold in_socket, settled_down. cbn. naive_solver.
  - apply wp_bind, teardown_safe. unfold in_socket, settled_down. cbn. naive_solver.
  - split; [done|]. intros x. do 4 (split; [done|]). intros _. split; [done|]. split; [by eexists|].
    by split.
  - done.
Qed.

(** The socket: fully opened, or not made at all, or made and abandoned. *)
Lemma open_socket_safe :
  safe open_socket (locked false false)
    (λ r l, match r with Ok _ => l = reachable false | Err _ => ∃ b, l = locked b b end).
Proof.
  assert (safe (try! _ := bind_owner_only in ncall NListen) (locked false false)
    (λ r l, match r with Ok _ => l = reachable false | Err _ => ∃ b, l = locked b b end)) as Hbind.
  { split; [done|]. intros [[sym mode]|e]; [|by exists false]. cbn. destruct (_ || _); [by exists false|].
    split; [done|]. intros [|]; [by exists false|]. split; [done|]. intros [[]|e]; [|by exists false].
    split; [done|]. intros [[]|e]; [|by exists true]. split; [done|]. intros [[]|e]; [done|by exists true]. }
  unfold open_socket. split; [done|]. intros [|]; [|exact Hbind].
  split; [done|]. intros [[]|e]; [exact Hbind|by exists false].
Qed.

Lemma finally_safe o body l (Q : Ran → Life → Prop) :
  safe body l (λ r l, match r with
    | None => Q None l
    | Some r => safe (let! _ := ncall o in Ret (Some r)) l Q
    end) → safe (finally o body) l Q.
Proof. intros Hb. apply wp_bind. eapply wp_mono; [|exact Hb]. by intros [r|] l'. Qed.

Lemma with_lock_safe fuel : safe (with_lock paths fuel) (locked false false) left_behind.
Proof.
  unfold with_lock. apply finally_safe, wp_bind. eapply wp_mono; [|apply open_socket_safe]. intros [[]|e] l.
  - intros ->. unfold with_socket. apply finally_safe. eapply wp_mono; [|apply serve_safe].
    intros [r|] [h b a s rc c k w q g d] (Hh & Hb & Ha & Hs & Hr); [|done]. cbn in Hh, Hb, Ha, Hs. subst.
    destruct (Hr ltac:(done)) as [Hc ?]. split; [done|]. intros []. split; [done|]. by intros [] _.
  - intros [b ->]. split; [done|]. intros [] _. unfold settled_down. cbn.
    split; [done|]. split; [done|]. split; [by eauto|]. naive_solver.
Qed.

Lemma paths_safe {A} (p : PathProg A) Q : (∀ a, Q a unborn) → safe (interp (λ o, ncall (NPath o)) p) unborn Q.
Proof. intros HQ. induction p as [a|o k IH]; [apply HQ|]. split; [done|]. intros x. apply IH. Qed.

Lemma run_daemon_safe fuel : safe (run_daemon euid paths fuel) unborn left_behind.
Proof.
  unfold run_daemon, acquire. apply wp_bind, wp_bind, paths_safe. intros [[]|e]; [|done].
  split; [done|]. intros [t|e]; [|done]. split; [done|]. intros [id|e]; [|done]. apply with_lock_safe.
Qed.

(** *** Connections being served *)

(** The daemon's calls with the moments at which a connection task answers a request. *)
Inductive Moment : Type := Calls (e : Ev DaemonAns) | Serves.

Definition calls (ms : list Moment) : list (Ev DaemonAns) :=
  omap (λ m, match m with Calls e => Some e | Serves => None end) ms.

(** A request is answered only while a connection task may run. *)
Definition plausible (ms : list Moment) : Prop :=
  ∀ before rest, ms = before ++ Serves :: rest → serving (after advance unborn (calls before)) = true.

(** While a connection may be served: the abandoned actions are closed, and the daemon has
    its lock and its socket, unless the tasks were cut off. *)
Definition serves_properly (l : Life) : Prop :=
  serving l = true → recovered l = true ∧ spoiled l = false ∧ (cut l = false → held l = true ∧ bound l = true).

Lemma advance_serves_properly l e :
  serves_properly l → guard l (projT1 e) → serves_properly (advance l (projT1 e) (projT2 e)).
Proof.
  unfold serves_properly. destruct l as [h b a s r c k w q g d], e as [[] x]; cbn; try done; try naive_solver.
Qed.

Lemma obeys_serves_properly l tr :
  serves_properly l → obeys guard advance l tr → serves_properly (after advance l tr).
Proof.
  revert l. induction tr as [|e tr IH]; intros l Hl; [done|]. intros [Hg Ho]. cbn.
  apply IH; [by apply advance_serves_properly|done].
Qed.

End Safe.

(** ** Every abandoned action is closed once *)
Lemma append_other wo t t' r st st' b :
  t' ≠ t → append wo t r st = (st', b) →
  store_active st' t' = store_active st t' ∧ store_audit st' t' = store_audit st t'.
Proof.
  intros Hne. unfold append. destruct (active (mem st) !! t) as [cur|]; [|by intros [= <- <-]].
  destruct (cas_matches cur r); cbn [negb]; [|by intros [= <- <-]].
  destruct wo as [|ren m]; intros [= <- <-]; [|done].
  unfold store_active, store_audit. cbn. split.
  - destruct (is_terminal (phase r)); [by rewrite lookup_delete_ne|by rewrite lookup_insert_ne].
  - rewrite audit_set_active, audit_extend_ne; done.
Qed.

Lemma restart_other w t t' :
  let w' := (Effects.interp world (recover_after_restart t) w).1 in
  w_write w' = w_write w
  ∧ (t' ≠ t → store_active (w_store w') t' = store_active (w_store w) t'
              ∧ store_audit (w_store w') t' = store_audit (w_store w) t').
Proof.
  cbn [Effects.interp recover_after_restart tx_try store_call bind call world].
  destruct (store_active (w_store w) t) as [r|]; cbn [map_err Effects.interp]; [|done].
  destruct (if bool_decide _ then _ else _) as [p why].
  cbn [Effects.interp tx_try store_call bind call world].
  destruct (append _ _ _ _) as [st [[]|m]] eqn:E; cbn;
    (split; [done|]; intros Hne; by apply (append_other _ _ t') in E).
Qed.

(** What a scan does to a target: its active record is closed, with one audit entry. *)
Definition closed_once (w w' : World) (t : string) : Prop :=
  store_active (w_store w') t = None
  ∧ match store_active (w_store w) t with
    | None => store_audit (w_store w') t = store_audit (w_store w) t
    | Some r => ∃ r', same_tx r r' ∧ phase r' = closing_phase (phase r)
                  ∧ store_audit (w_store w') t = store_audit (w_store w) t ++ [r']
    end.

Lemma restart_one w t :
  store_wf (w_store w) → w_write w = WriteOk →
  let w' := (Effects.interp world (recover_after_restart t) w).1 in
  store_wf (w_store w') ∧ w_write w' = WriteOk ∧ closed_once w w' t
  ∧ ∀ t', t' ≠ t → store_active (w_store w') t' = store_active (w_store w) t'
                   ∧ store_audit (w_store w') t' = store_audit (w_store w) t'.
Proof.
  intros Hwf Hw w'. pose proof (restart_closes_active w t Hwf) as Hc.
  pose proof (restart_other w t) as Ho. cbv zeta in Ho.
  assert (w_write w' = WriteOk) as Hw' by (rewrite <- Hw; apply (Ho t)).
  unfold w' in *. destruct (Effects.interp world (recover_after_restart t) w) as [w1 res]. cbn in *.
  destruct Hc as [Hwf1 Hc]. split; [done|]. split; [done|]. split.
  - unfold closed_once. destruct (store_active (w_store w) t) as [r|] eqn:Ha; rewrite ?Hw in Hc.
    + destruct Hc as (r' & _ & Hs & Hp & Hn & Hau). eauto.
    + destruct Hc as [_ ->]. done.
  - intros t' Hne. by apply (Ho t').
Qed.

Lemma recover_targets_closes ts w :
  NoDup ts → store_wf (w_store w) → w_write w = WriteOk →
  let w' := (Effects.interp world (recover_targets recover_after_restart ts) w).1 in
  store_wf (w_store w') ∧ (∀ t, t ∈ ts → closed_once w w' t)
  ∧ ∀ t, t ∉ ts → store_active (w_store w') t = store_active (w_store w) t
                  ∧ store_audit (w_store w') t = store_audit (w_store w) t.
Proof.
  intros Hnd. revert w. induction Hnd as [|t ts Hn Hnd IH]; intros w Hwf Hw; cbn [recover_targets].
  { split; [done|]. split; [by intros t ?%elem_of_nil|done]. }
  rewrite interp_bind. pose proof (restart_one w t Hwf Hw) as Hone. cbv zeta in Hone.
  destruct (Effects.interp world (recover_after_restart t) w) as [w1 x]. cbn [fst] in Hone.
  destruct Hone as (Hwf1 & Hw1 & Hc1 & Ho1). specialize (IH w1 Hwf1 Hw1) as (Hwf' & Hc & Ho).
  split; [done|]. split.
  - intros t' [->|Hin]%elem_of_cons.
    + destruct (Ho t Hn) as [Ha Hu]. unfold closed_once in *. rewrite Ha, Hu. exact Hc1.
    + assert (t' ≠ t) as Hne by (intros ->; done). destruct (Ho1 t' Hne) as [Ha Hu].
      specialize (Hc t' Hin). unfold closed_once in *. by rewrite Ha, Hu in Hc.
  - intros t' [Hne Hnin]%not_elem_of_cons. destruct (Ho t' Hnin) as [-> ->]. by apply Ho1.
Qed.

(** Records are filed under their own target. *)
Definition filed (st : DurableLedger) : Prop := ∀ t r, store_active st t = Some r → rec_target r = t.

Lemma filed_targets st : filed st → rec_target <$> active_records st = btree_keys (active (mem st)).
Proof.
  intros Hf. unfold active_records, btree_values, btree_keys. rewrite <- list_fmap_compose.
  apply list_fmap_ext. intros i [t r] Hl. apply list_elem_of_lookup_2, elem_of_btree_entries in Hl.
  exact (Hf t r Hl).
Qed.

(** C33: The scan at the start of the daemon leaves nothing in flight: when the ledger can be
    written, no target has an active action afterwards; each action that was active is
    closed by exactly one record of the same transaction, as failed if it had not passed
    the commit boundary and for a human otherwise; no other history changes. *)
Theorem restart_leaves_nothing_active w :
  store_wf (w_store w) → filed (w_store w) → w_write w = WriteOk →
  let scan := recover_durable_actions_after_restart (Ok (active_records (w_store w))) in
  let w' := (Effects.interp world scan w).1 in
  store_wf (w_store w') ∧ ∀ t, closed_once w w' t.
Proof.
  intros Hwf Hf Hw scan w'. unfold w', scan, recover_durable_actions_after_restart.
  rewrite filed_targets by done.
  destruct (recover_targets_closes (btree_keys (active (mem (w_store w)))) w (btree_entries_NoDup _) Hwf Hw)
    as (Hwf' & Hc & Ho).
  split; [done|]. intros t. destruct (store_active (w_store w) t) as [r|] eqn:Ha.
  - apply Hc. unfold btree_keys. apply list_elem_of_fmap. exists (t, r). split; [done|].
    by apply elem_of_btree_entries.
  - destruct (decide (t ∈ btree_keys (active (mem (w_store w))))) as [Hin|Hn]; [by apply Hc|].
    destruct (Ho t Hn) as [Hx Hy]. unfold closed_once. by rewrite Hx, Ha.
Qed.

Lemma restart_leaves_nothing_active_witness :
  let scan := recover_durable_actions_after_restart (Ok (active_records begun_store)) in
  let w' := (Effects.interp world scan (begun_world 0 false)).1 in
  is_Some (store_active begun_store "w1") ∧ closed_once (begun_world 0 false) w' "w1".
Proof.
  split; [vm_compute; eauto|].
  refine (proj2 (restart_leaves_nothing_active (begun_world 0 false) begun_store_wf _ eq_refl) "w1").
  intros t r Hr. assert (active (mem begun_store) = {["w1" := next (sample_record "k1") Phase.Begun "b"]}) as E
    by (vm_compute; reflexivity).
  unfold store_active in Hr. cbn in Hr. rewrite E in Hr. apply lookup_singleton_Some in Hr as [<- <-]. reflexivity.
Defined.

(** ** A daemon that starts and is shut down *)
Definition demo_daemon (o : DaemonOp) (turn : nat) : nat * DaemonAns o :=
  match o return nat * DaemonAns o with
  | NPath o => (turn, (demo_path_world o tt).2)
  | NStartTime => (turn, Ok 77)
  | NLock _ => (turn, Ok (mkDaemonIdentity 1 42 77))
  | NParentStat => (turn, Ok (false, 448))
  | NSelect => (S turn, if (turn =? 0)%nat then Accepted (Ok tt) else ShutdownAsked)
  | NSocketStat | NTryShutdown | NHasActive | NNoConnections => (turn, false)
  | NSocketExists | NPermit => (turn, true)
  | NRemoveSocket | NBind | NChmodSocket | NListen | NLoadRegistry _ | NScheduler | NLoadActions _ => (turn, Ok tt)
  | _ => (turn, tt)
  end.

(** The daemon accepts one connection, whose request is answered only after the shutdown
    was acknowledged. *)
Definition demo_run : list (Ev DaemonAns) * Ran := converse demo_daemon (run_daemon 1000 demo_paths 5) 0%nat.
Definition late_serving (n : nat) (tr : list (Ev DaemonAns)) : list Moment :=
  (Calls <$> take n tr) ++ Serves :: (Calls <$> drop n tr).

Lemma late_serving_split n tr before rest :
  late_serving n tr = before ++ Serves :: rest → before = Calls <$> take n tr.
Proof.
  unfold late_serving. generalize (take n tr). intros a. revert before.
  induction a as [|e a IH]; intros [|m before] Heq; cbn in Heq; injection Heq as; [done| |done|subst; cbn; f_equal; by apply IH].
  exfalso. rename select (_ <$> drop _ _ = _) into Heq. assert (Serves ∈ Calls <$> drop n tr) as Hin by (rewrite Heq; set_solver).
  by apply list_elem_of_fmap in Hin as (? & ? & _).
Qed.

Lemma calls_of_calls tr : calls (Calls <$> tr) = tr.
Proof. induction tr as [|e tr IH]; [done|]. cbn. by f_equal. Qed.

Lemma calls_late_serving n tr : calls (late_serving n tr) = tr.
Proof.
  unfold late_serving, calls. rewrite omap_app. cbn. fold (calls (Calls <$> take n tr)) (calls (Calls <$> drop n tr)).
  rewrite !calls_of_calls. apply take_drop.
Qed.

