(* ===== verification/Notify.v ===== *)
(** * Notification (src/src/notify.rs and the [notify] service of
      src/src/daemon/runtime_services.rs)

    The service as a program: the Herdr bridge, the desktop command of the platform and
    the error output of the daemon, each with its own calls, behind the fallback chain
    of [Services.deliver]. *)
From S2P Require Import Prelude Text Json Action Event Identity StateMachine State Policy Actuator Effects.
From S2P Require Import Store Process ActionStore Registry RegistrySafety Runtime Redact IpcService Services Mux Herdr.
From S2P Require Import HerdrNative HerdrSafety Host Config Target.
From Stdlib Require Import Ascii.

Local Open Scope Z_scope.

(** ** Calls *)
Inductive NotifyOp : Type :=
| QHerdr (o : HerdrOp)
| QPathVar
| QIsFile (path : string)
| QRun (program : string) (args : list string)
| QEprint (line : string).

(** The environment variable; whether a file is there; the exit status of a command;
    whether the line could be written. *)
Definition NotifyAns (o : NotifyOp) : Type :=
  match o with
  | QHerdr o => HerdrAns o
  | QPathVar => option string
  | QIsFile _ => bool
  | QRun _ _ => result string bool
  | QEprint _ => bool
  end.

Abbreviation NotifyProg := (Prog NotifyAns).
Definition qcall (o : NotifyOp) : NotifyProg (NotifyAns o) := call o.

Record NotifyRequest : Type := mkNotifyRequest { nr_title : string; nr_body : string }.

(** The back ends of [NotifyTarget].  A write to the error output that fails ends the
    caller: [eprint!] panics, which is [None]. *)
Record Backends : Type := mkBackends {
  bk_herdr : option (string → string → NotifyProg (result string bool));
  bk_desktop : option (string → string → NotifyProg (result string unit));
  bk_stderr : option (string → NotifyProg (option (result string unit)));
}.

(** ** The chain *)
Definition notify_line (r : NotifyRequest) : string :=
  "watchme notify: " +:+ nr_title r +:+ ": " +:+ nr_body r +:+ String "010" EmptyString.

Definition try_herdr (c : NotificationsConfig) (r : NotifyRequest) (b : Backends) : NotifyProg bool :=
  match (if cfg_herdr c then bk_herdr b else None) with
  | Some send =>
      let! x := send (nr_title r) (nr_body r) in
      Ret (match x with Ok delivered => delivered | Err _ => false end)
  | None => Ret false
  end.

Definition try_desktop (c : NotificationsConfig) (r : NotifyRequest) (b : Backends) : NotifyProg bool :=
  match (if cfg_desktop c then bk_desktop b else None) with
  | Some send =>
      let! x := send (nr_title r) (nr_body r) in
      Ret (match x with Ok _ => true | Err _ => false end)
  | None => Ret false
  end.

Definition all_failed (cleanup : bool) : NotificationOutcome :=
  Suppressed (if cleanup then "all notification channels failed during cleanup"
              else "all notification channels failed").

Definition deliver_to (c : NotificationsConfig) (r : NotifyRequest) (b : Backends) (cleanup : bool)
    : NotifyProg (option NotificationOutcome) :=
  let! herdr := try_herdr c r b in
  if (herdr : bool) then Ret (Some (Delivered "herdr")) else
  let! desktop := try_desktop c r b in
  if (desktop : bool) then Ret (Some (Delivered "desktop")) else
  match (if cfg_stderr c then bk_stderr b else None) with
  | Some write =>
      let! x := write (notify_line r) in
      Ret (match x with
           | None => None
           | Some (Ok _) => Some (Delivered "stderr")
           | Some (Err why) => Some (if cleanup then Suppressed why else all_failed cleanup)
           end)
  | None => Ret (Some (all_failed cleanup))
  end.

Definition notify (c : NotificationsConfig) (r : NotifyRequest) (b : Backends) := deliver_to c r b false.
Definition notify_during_cleanup (c : NotificationsConfig) (r : NotifyRequest) (b : Backends) :=
  deliver_to c r b true.

(** ** The desktop command *)
Inductive Platform : Type := Linux | MacOs | OtherPlatform.

(** [Path::join]: an empty base adds no separator. *)
Definition join_dir (dir name : string) : string :=
  if String.eqb dir "" then name else join_path dir name.

Fixpoint any_dir (binary : string) (dirs : list string) : NotifyProg bool :=
  match dirs with
  | [] => Ret false
  | dir :: dirs =>
      let! found := qcall (QIsFile (join_dir dir binary)) in
      if (found : bool) then Ret true else any_dir binary dirs
  end.

Definition on_path (binary : string) : NotifyProg bool :=
  let! path := qcall QPathVar in
  match (path : option string) with
  | Some dirs => any_dir binary (split_char ":" dirs)
  | None => Ret false
  end.

(** [str::replace] of a character. *)
Fixpoint replace_char (c : ascii) (by_ s : string) : string :=
  match s with
  | EmptyString => EmptyString
  | String a s => if Ascii.eqb a c then by_ +:+ replace_char c by_ s else String a (replace_char c by_ s)
  end.

Definition backslash : ascii := "092".
Definition quote : ascii := "034".
Definition escape_applescript (value : string) : string :=
  replace_char quote (String backslash (String quote EmptyString))
    (replace_char backslash (String backslash (String backslash EmptyString)) value).

Definition applescript (title body : string) : string :=
  "display notification " +:+ String quote (escape_applescript body +:+ String quote
    (" with title " +:+ String quote (escape_applescript title +:+ String quote EmptyString))).

Definition run_desktop (program failed : string) (args : list string) : NotifyProg (result string unit) :=
  let! found := on_path program in
  if (found : bool) then
    let! status := qcall (QRun program args) in
    Ret (let? success := (status : result string bool) in
         if (success : bool) then Ok tt else Err failed)
  else Ret (Err (program +:+ " unavailable")).

Definition system_desktop_notify (platform : Platform) (title body : string) : NotifyProg (result string unit) :=
  match platform with
  | Linux => run_desktop "notify-send" "notify-send failed" [title; body]
  | MacOs => run_desktop "osascript" "osascript notification failed" ["-e"; applescript title body]
  | OtherPlatform => Ret (Err "desktop notifications unsupported on this platform")
  end.

(** ** The service *)
Section Service.
Context `{TomlParse} `{HerdrJson} `{DebugId} `{DebugIdentity} (env : HerdrEnv) (platform : Platform).

Definition load_notifications (config_toml : Layer) : NotificationsConfig :=
  notifications (match load_layers [config_toml] with Ok c => c | Err _ => config_default end).

Definition HERDR_NOTIFY_TIMEOUT : Z := 2000.

Definition herdr_send (c : HerdrContext) (i : MuxIdentity) (title body : string)
    : HerdrProg (result MuxError bool) :=
  try! hd := herdr_new env c HERDR_NOTIFY_TIMEOUT in
  herdr_notify env hd i title body.

Definition on_bridge {A} (p : HerdrProg A) : NotifyProg A := Target.interp (λ o, qcall (QHerdr o)) p.

(** The back end and the identity it is bound to. *)
Definition herdr_backend_for_watcher (w : WatcherState)
    : option ((string → string → NotifyProg (result string bool)) * MuxIdentity) :=
  match watcher_mux_identity w with
  | Ok (Some i) =>
      match observation_context (target w) with
      | Some (CtxHerdr socket_path _ workspace_id tab_id pane_id _ wire_protocol) =>
          let c := mkHerdrContext socket_path workspace_id tab_id pane_id wire_protocol in
          Some (λ title body,
                  let! x := on_bridge (herdr_send c i title body) in
                  Ret (map_err mux_error_display x), i)
      | _ => None
      end
  | _ => None
  end.

Definition eprint (line : string) : NotifyProg (option (result string unit)) :=
  let! written := qcall (QEprint line) in
  Ret (if (written : bool) then Some (Ok tt) else None).

Definition watcher_backends (w : WatcherState) : Backends :=
  mkBackends (fst <$> herdr_backend_for_watcher w) (Some (system_desktop_notify platform)) (Some eprint).

Definition service_request (severity message : string) : NotifyRequest :=
  mkNotifyRequest ("watchme:" +:+ severity) message.

(** [None]: the thread panicked. *)
Definition svc_notify (config_toml : Layer) (id severity message : string) (reg : Registry)
    : NotifyProg (option (result string unit)) :=
  let c := load_notifications config_toml in
  if negb (notification_allowed c severity) then Ret (Some (Ok tt))
  else match reg_get reg id with
       | None => Ret (Some (Err "unknown watcher for notify"))
       | Some w =>
           let! outcome := notify_during_cleanup c (service_request severity message) (watcher_backends w) in
           Ret (match outcome with
                | None => None
                | Some (Delivered _) => Some (Ok tt)
                | Some (Suppressed why) => Some (Err why)
                end)
       end.
End Service.

Definition svc_capture (command : string) (max_lines : Z) : result string string :=
  Err "capture requires the target-bound multiplexer dispatcher".

(** [DaemonOwnerProbe::matches]: the recorded process, by PID and start time. *)
Definition daemon_owner_matches (insp : ProcessInspector) (o : OwnerIdentity) : bool :=
  match inspect insp (owner_pid o) with
  | Ok actual => pr_start_time actual =? process_start_time o
  | Err _ => false
  end.

(** ** AppleScript string literals

    The text of a literal after its opening quotation mark: a quotation mark ends it and
    a backslash escapes the next character. *)
Definition escaped (a : ascii) : ascii :=
  if Ascii.eqb a "n" then "010"%char else if Ascii.eqb a "t" then "009"%char
  else if Ascii.eqb a "r" then "013"%char else a.

Fixpoint read_literal (s : string) : option (string * string) :=
  match s with
  | EmptyString => None
  | String a s =>
      if Ascii.eqb a quote then Some (EmptyString, s)
      else if Ascii.eqb a backslash then
        match s with
        | EmptyString => None
        | String b s => prod_map (String (escaped b)) id <$> read_literal s
        end
      else prod_map (String a) id <$> read_literal s
  end.

(** The body and the title of [display notification "..." with title "..."]. *)
Definition read_notification (script : string) : option (string * string) :=
  script ← strip_prefix ("display notification " +:+ String quote EmptyString) script;
  '(body, script) ← read_literal script;
  script ← strip_prefix (" with title " +:+ String quote EmptyString) script;
  '(title, rest) ← read_literal script;
  if String.eqb rest "" then Some (title, body) else None.

Definition escape_char (a : ascii) : string :=
  if Ascii.eqb a backslash || Ascii.eqb a quote then String backslash (String a EmptyString)
  else String a EmptyString.

#[local] Instance append_assoc : Assoc (=) String.append.
Proof. intros s t u. induction s as [|a s IH]; [done|]. exact (f_equal (String a) IH). Qed.

Lemma replace_char_app c by_ s t :
  replace_char c by_ (s +:+ t) = replace_char c by_ s +:+ replace_char c by_ t.
Proof.
  induction s as [|a s IH]; [done|]. change (String a s +:+ t) with (String a (s +:+ t)).
  cbn [replace_char]. rewrite IH. destruct (Ascii.eqb a c); [|done]. by rewrite (assoc_L String.append).
Qed.

Lemma escape_cons a s : escape_applescript (String a s) = escape_char a +:+ escape_applescript s.
Proof.
  unfold escape_applescript, escape_char. cbn [replace_char].
  destruct (Ascii.eqb_spec a backslash) as [->|Hb]; [by rewrite replace_char_app|].
  cbn. by destruct (Ascii.eqb_spec a quote) as [->|Hq].
Qed.

Lemma escape_reads v rest : read_literal (escape_applescript v +:+ String quote rest) = Some (v, rest).
Proof.
  induction v as [|a v IH]; [done|]. rewrite escape_cons. unfold escape_char.
  destruct (Ascii.eqb_spec a backslash) as [->|Hb];
    [|destruct (Ascii.eqb_spec a quote) as [->|Hq]].
  - change (prod_map (String backslash) id <$> read_literal (escape_applescript v +:+ String quote rest)
            = Some (String backslash v, rest)). by rewrite IH.
  - change (prod_map (String quote) id <$> read_literal (escape_applescript v +:+ String quote rest)
            = Some (String quote v, rest)). by rewrite IH.
  - change (read_literal (String a (escape_applescript v +:+ String quote rest)) = Some (String a v, rest)).
    cbn [read_literal]. rewrite (proj2 (Ascii.eqb_neq _ _) Hb), (proj2 (Ascii.eqb_neq _ _) Hq). by rewrite IH.
Qed.

(** Notification text cannot leave its AppleScript literal.  Whatever the title and the
    body contain, the script read back as AppleScript is one [display notification] of
    exactly that body with exactly that title. *)
Theorem applescript_roundtrip title body : read_notification (applescript title body) = Some (title, body).
Proof.
  unfold read_notification.
  replace (applescript title body)
    with (("display notification " +:+ String quote EmptyString)
          +:+ (escape_applescript body +:+ String quote ((" with title " +:+ String quote EmptyString)
               +:+ (escape_applescript title +:+ String quote EmptyString)))) by done.
  rewrite strip_prefix_app. cbn [mbind option_bind]. rewrite escape_reads. cbn [mbind option_bind].
  rewrite strip_prefix_app. cbn [mbind option_bind]. by rewrite escape_reads.
Qed.

(** ** The chain refines [Services.deliver]

    The answers the back ends gave, as far as they were asked. *)
Definition asked {A X} (enabled : bool) (p : option (NotifyProg A)) (view : A → X) (tr : list (Ev NotifyAns))
    (answer : option X) : Prop :=
  match (if enabled then p else None) with
  | Some p => ∃ a, traces p tr a ∧ answer = Some (view a)
  | None => tr = [] ∧ answer = None
  end.

Definition herdr_took (t : NotifyTarget) : bool :=
  match nt_herdr t with Some (Ok delivered) => delivered | _ => false end.
Definition desktop_took (t : NotifyTarget) : bool :=
  match nt_desktop t with Some (Ok _) => true | _ => false end.

Section Refinement.
Context `{TomlParse} `{HerdrJson} `{DebugId} `{DebugIdentity} (env : HerdrEnv) (platform : Platform).

Definition herdr_part (w : WatcherState) (r : NotifyRequest) : option (NotifyProg (result string bool)) :=
  (λ send, send.1 (nr_title r) (nr_body r)) <$> herdr_backend_for_watcher env w.
Definition desktop_part (r : NotifyRequest) : NotifyProg (result string unit) :=
  system_desktop_notify platform (nr_title r) (nr_body r).

(** The conversation is that of the channels in turn, each asked only after the ones
    before it failed; [written] is whether the line reached the error output. *)
Definition channels (c : NotificationsConfig) (w : WatcherState) (r : NotifyRequest) (t : NotifyTarget)
    (tr : list (Ev NotifyAns)) (written : bool) : Prop :=
  ∃ tr1 tr2, asked (cfg_herdr c) (herdr_part w r) id tr1 (nt_herdr t)
    ∧ if herdr_took t then tr = tr1
      else asked (cfg_desktop c) (Some (desktop_part r)) id tr2 (nt_desktop t)
           ∧ if desktop_took t then tr = tr1 ++ tr2
             else tr = tr1 ++ tr2 ++ if cfg_stderr c then [existT (QEprint (notify_line r)) written] else [].

Lemma herdr_asked c w r tr b :
  traces (try_herdr c r (watcher_backends env platform w)) tr b →
  ∃ x, asked (cfg_herdr c) (herdr_part w r) id tr x
       ∧ b = match x with Some (Ok delivered) => delivered | _ => false end.
Proof.
  unfold try_herdr, asked, herdr_part. cbn [bk_herdr watcher_backends].
  destruct (cfg_herdr c); [|intros [-> ->]; by exists None].
  destruct (herdr_backend_for_watcher env w) as [[send i]|]; cbn; [|intros [-> ->]; by exists None].
  intros (tr1 & tr2 & x & -> & Hs & [-> ->])%traces_bind. exists (Some x). rewrite app_nil_r.
  split; [by exists x|by destruct x].
Qed.

Lemma desktop_asked c w r tr b :
  traces (try_desktop c r (watcher_backends env platform w)) tr b →
  ∃ x, asked (cfg_desktop c) (Some (desktop_part r)) id tr x
       ∧ b = match x with Some (Ok _) => true | _ => false end.
Proof.
  unfold try_desktop, asked, desktop_part. cbn [bk_desktop watcher_backends].
  destruct (cfg_desktop c); [|intros [-> ->]; by exists None].
  intros (tr1 & tr2 & x & -> & Hs & [-> ->])%traces_bind. exists (Some x). rewrite app_nil_r.
  split; [by exists x|by destruct x].
Qed.

(** What the service makes of an outcome: a line that could not be written ends the thread. *)
Definition service_answer (written : bool) (o : NotificationOutcome) : option (result string unit) :=
  match o with
  | Delivered channel => if String.eqb channel "stderr" && negb written then None else Some (Ok tt)
  | Suppressed why => Some (Err why)
  end.

Lemma asked_enabled {A X} en (p : option (NotifyProg A)) (view : A → X) tr x :
  asked en p view tr x → (if en then x else None) = x.
Proof. unfold asked. destruct en; [done|]. by intros [_ ->]. Qed.

Lemma chain_refines c w r tr o :
  traces (notify_during_cleanup c r (watcher_backends env platform w)) tr o →
  ∃ t written, channels c w r t tr written ∧ nt_stderr t = Some (Ok tt)
    ∧ match o with
      | Some o => (deliver c t true).2 = o ∧ (o = Delivered "stderr" → written = true)
      | None => (deliver c t true).2 = Delivered "stderr" ∧ written = false
      end.
Proof.
  unfold notify_during_cleanup, deliver_to, channels, deliver.
  intros (tr1 & tr' & h & -> & (x & Hx & ->)%herdr_asked & Hr)%traces_bind.
  destruct (match x with Some (Ok delivered) => delivered | _ => false end) eqn:Eh.
  { destruct Hr as [-> ->]. exists (mkNotifyTarget x None (Some (Ok tt))), true.
    unfold herdr_took. cbn. rewrite (asked_enabled _ _ _ _ _ Hx), Eh, app_nil_r.
    destruct x as [[[]|]|]; try done. split_and!; [by eexists tr1, []|done|done|done]. }
  apply traces_bind in Hr as (tr2 & tr3 & d & -> & (y & Hy & ->)%desktop_asked & Hr).
  destruct (match y with Some (Ok _) => true | _ => false end) eqn:Ed.
  { destruct Hr as [-> ->]. exists (mkNotifyTarget x y (Some (Ok tt))), true.
    unfold herdr_took, desktop_took. cbn.
    rewrite (asked_enabled _ _ _ _ _ Hx), (asked_enabled _ _ _ _ _ Hy), Eh, Ed, app_nil_r.
    split_and!; [by eexists tr1, tr2|done|..]; by destruct x as [[[]|]|], y as [[[]|]|]. }
  cbn [bk_stderr watcher_backends] in Hr.
  assert (∃ written o', tr3 = (if cfg_stderr c then [existT (QEprint (notify_line r)) written] else [])
    ∧ o = (if written then Some o' else None) ∧ (cfg_stderr c = false → written = true)
    ∧ o' = if cfg_stderr c then Delivered "stderr" else all_failed true) as (written & o' & -> & -> & Hw & ->).
  { destruct (cfg_stderr c); [|destruct Hr as [-> ->]; by exists true; eexists].
    apply traces_bind in Hr as (s1 & s2 & z & -> & Hz & [-> ->]).
    unfold eprint in Hz. destruct Hz as (written & ? & -> & -> & ->).
    exists written. eexists. by destruct written. }
  exists (mkNotifyTarget x y (Some (Ok tt))), written. unfold herdr_took, desktop_took. cbn.
  rewrite (asked_enabled _ _ _ _ _ Hx), (asked_enabled _ _ _ _ _ Hy), Eh, Ed.
  split_and!; [by eexists tr1, tr2|done|].
  destruct x as [[[]|]|], y as [[[]|]|], (cfg_stderr c), written; try done; try (by specialize (Hw eq_refl)).
Qed.

(** C39: The notification service implements the fallback chain exactly.  A severity that is
    switched off talks to nobody and succeeds; an unknown watcher is an error; otherwise
    the conversation is that of the Herdr bridge of the watcher, the desktop command and
    the error output in this order, each only when enabled and after the ones before it
    failed, and the answer is the outcome [deliver] assigns to the answers they gave: so
    with the error output enabled the service never fails, but a line that cannot be
    written to it panics instead of being reported. *)
Theorem notify_service_refines config_toml id severity message reg tr r :
  traces (svc_notify env platform config_toml id severity message reg) tr r →
  let c := load_notifications config_toml in
  let q := service_request severity message in
  if notification_allowed c severity then
    match watchers reg !! id with
    | None => tr = [] ∧ r = Some (Err "unknown watcher for notify")
    | Some w => ∃ t written, channels c w q t tr written ∧ nt_stderr t = Some (Ok tt)
        ∧ r = service_answer written (deliver c t true).2
        ∧ (cfg_stderr c = true → r = Some (Ok tt) ∨ r = None ∧ written = false)
    end
  else tr = [] ∧ r = Some (Ok tt).
Proof.
  cbn zeta. unfold svc_notify, reg_get. destruct (notification_allowed _ severity); cbn [negb]; [|done].
  destruct (watchers reg !! id) as [w|]; [|done].
  intros (tr1 & tr2 & o & -> & (t & written & Hc & Hs & Ho)%chain_refines & [-> ->])%traces_bind.
  exists t, written. rewrite app_nil_r. split; [done|]. split; [done|].
  assert (match o with
          | None => None | Some (Delivered _) => Some (Ok tt) | Some (Suppressed why) => Some (Err why)
          end = service_answer written (deliver (load_notifications config_toml) t true).2) as ->.
  { destruct o as [o|]; [|by destruct Ho as [-> ->]]. destruct Ho as [-> Hw]. destruct o as [ch|]; [|done].
    unfold service_answer. destruct (String.eqb_spec ch "stderr") as [->|]; [|done]. by rewrite Hw. }
  split; [done|]. intros He.
  pose proof (deliver_first_working (load_notifications config_toml) t true) as Hd.
  destruct (deliver _ t true) as [tried out]. cbn [snd] in *.
  assert (head (working (load_notifications config_toml) t) ≠ None) as Hn.
  { unfold working. rewrite He, Hs. cbn [andb]. by repeat case_match. }
  destruct (head _) as [ch|]; [|done]. destruct Hd as [-> _]. unfold service_answer.
  destruct (String.eqb ch "stderr"), written; cbn; auto.
Qed.
End Refinement.

(** A machine on which [notify-send] is found in the second directory of the search path
    and fails. *)
Definition demo_machine (o : NotifyOp) (s : unit) : unit * NotifyAns o :=
  (s, match o return NotifyAns o with
      | QHerdr o => (demo_server o []).2
      | QPathVar => Some "/usr/local/bin:/usr/bin"
      | QIsFile path => String.eqb path "/usr/bin/notify-send"
      | QRun _ _ => Ok false
      | QEprint _ => true
      end).

Lemma notify_service_refines_witness :
  let _ : TomlParse := demo_toml in
  let _ : HerdrJson := demo_json in
  let _ : DebugId := λ _, "id" in
  let _ : DebugIdentity := λ _, "identity" in
  let config_toml := mkLayer "config.toml" Missing (Err "absent") in
  let run := converse demo_machine
    (svc_notify demo_env Linux config_toml "w1" "warning" "resumed" sample_registry) tt in
  run.1 = [existT QPathVar (Some "/usr/local/bin:/usr/bin");
           existT (QIsFile "/usr/local/bin/notify-send") false;
           existT (QIsFile "/usr/bin/notify-send") true;
           existT (QRun "notify-send" ["watchme:warning"; "resumed"]) (Ok false);
           existT (QEprint ("watchme notify: watchme:warning: resumed" +:+ String "010" EmptyString)) true]
  ∧ ∃ w t written, watchers sample_registry !! "w1" = Some w
      ∧ channels demo_env Linux (load_notifications config_toml) w (service_request "warning" "resumed") t
          run.1 written
      ∧ run.2 = service_answer written (deliver (load_notifications config_toml) t true).2.
Proof.
  intros tp hj di did config_toml run. split; [vm_compute; reflexivity|].
  assert (traces (svc_notify demo_env Linux config_toml "w1" "warning" "resumed" sample_registry) run.1 run.2)
    as Ht by apply converse_traces.
  pose proof (notify_service_refines demo_env Linux config_toml "w1" "warning" "resumed" sample_registry
                run.1 run.2 Ht) as Hr. cbn zeta in Hr.
  assert (notification_allowed (load_notifications config_toml) "warning" = true) as Ha by (vm_compute; reflexivity).
  rewrite Ha in Hr. destruct (watchers sample_registry !! "w1") as [w|] eqn:Hw; [|discriminate Hw].
  destruct Hr as (t & written & Hc & _ & He & _). exists w, t, written. auto.
Defined.
