(* ===== verification/Cli.v ===== *)
(** * The command line (src/src/cli.rs, src/src/main.rs, src/src/hook_cli.rs)

    The commands behind their parsed options: what each asks of the daemon, of the audit
    log, of the hooks and of the terminal, what it prints and how the process exits.
    Parsing by clap, serde_json and the hook and detection code are calls or parameters;
    the client, the paths, the doctor and the configuration are their own models. *)
From S2P Require Import Prelude Text Json Action Event Identity StateMachine State Actuator Effects Process Redact.
From S2P Require Import Utf8 Planner Manifest Config AuditLog Ipc Hooks Registry Mux Registration Target Paths DaemonClient Doctor.
From stdpp Require Import pretty.
From Stdlib Require Import Ascii.

Local Open Scope Z_scope.

(** ** Commands *)
Record HookLifecycleOptions : Type := mkHookOptions {
  ho_settings : option string;
  ho_marker : option string;
  ho_dry_run : bool;
}.

Module Command.
Inductive ConfigCommand : Type := ConfigPath | ConfigCheck | ConfigShow.
Inductive DaemonCommand : Type := DaemonStart | DaemonRun | DaemonStatus | DaemonStop.

(** [RegisterCurrent] is the command line without a subcommand. *)
Inductive Command : Type :=
| RegisterCurrent
| WatchmeHookStopFailure (marker : string)
| InstallClaude (options : HookLifecycleOptions)
| RemoveClaude (options : HookLifecycleOptions)
| Status (id : option string) (json : bool)
| ListAll (json : bool)
| Explain (id : option string)
| Snapshot (id : option string) (redacted : bool)
| Logs (id : option string) (follow : bool)
| Stop (id : option string) (all json : bool)
| Pause (id : string) (json : bool)
| Resume (id : string) (json : bool)
| Doctor (strict json : bool)
| Providers (json : bool)
| Config (c : ConfigCommand)
| Daemon (c : DaemonCommand).
End Command.
Abbreviation Command := Command.Command.

Definition SCHEMA_VERSION : string := "1.0".

Definition parse_target_id (value : string) : result string string :=
  if String.eqb value "" then Err "target ID must not be empty" else Ok value.

(** ** Failures *)
Record CliFailure : Type := mkFailure {
  failure : WatchmeError;
  daemon_error : option (string * string);
  failure_json : bool;
}.
Definition from_error (e : WatchmeError) : CliFailure := mkFailure e None false.

Definition error_message (e : WatchmeError) : string :=
  match e with
  | Planner.UnsupportedContext m | Planner.Configuration m | Planner.TargetTerminated m
  | Planner.RetryableIntegration m | Planner.PolicyDenied m | Planner.HumanRequired m
  | Planner.CapabilityUnavailable m => m
  end.

(** ** Calls *)
Inductive CliOp : Type :=
| KPath (o : PathOp)
| KDaemon (o : ClientOp)
| KOut (text : string)
| KErr (text : string)
| KMakeDirs (path : Path)
| KChmodDir (path : Path) (mode : Z)
| KCreateFile (path : Path)
| KChmodFile (path : Path) (mode : Z)
| KLogRetain (p : RetentionPolicy) (now : string)
| KLogRead (id : option string) (max_lines : nat)
| KLogSize
| KLogFollow (offset : Z) (id : option string) (max_bytes : nat)
| KNow
| KSleep (ms : Z)
| KExists (path : Path)
| KReadText (path : Path)
| KStdin (limit : nat)
| KInstallHook (settings marker : string)
| KRemoveHook (settings marker : string)
| KWriteMarker (path : string) (marker : HookMarker)
| KDetect
| KRuntime
| KRunDaemon (idle_grace : Z) (resident : bool).

Definition CliAns (o : CliOp) : Type :=
  match o with
  | KPath o => PathAns o
  | KDaemon o => ClientAns o
  | KMakeDirs _ | KCreateFile _ | KRuntime | KRunDaemon _ _ | KWriteMarker _ _ => result string unit
  | KLogRead _ _ => result string (list AuditEvent)
  | KLogSize => option Z
  | KLogFollow _ _ _ => result string (list AuditEvent * Z)
  | KNow => string
  | KExists _ => bool
  | KReadText _ => result string string
  | KStdin _ => option (list Z)
  | KInstallHook _ _ | KRemoveHook _ _ => result string bool
  | KDetect => result WatchmeError WatcherState
  | _ => unit
  end.

Abbreviation CliProg := (Prog CliAns).
Definition kcall (o : CliOp) : CliProg (CliAns o) := call o.

(** How a command ends: with a value, with a failure, by a panic, or not at all. *)
Inductive Exit (A : Type) : Type := Done (a : A) | Failed (e : CliFailure) | Panic | Running.
Arguments Done {A} a.
Arguments Failed {A} e.
Arguments Panic {A}.
Arguments Running {A}.

Definition exit_bind {A B} (p : CliProg (Exit A)) (f : A → CliProg (Exit B)) : CliProg (Exit B) :=
  let! x := p in
  match x with
  | Done a => f a
  | Failed e => Ret (Failed e)
  | Panic => Ret Panic
  | Running => Ret Running
  end.
Notation "'do!' x ':=' c 'in' k" := (exit_bind c (λ x, k))
  (at level 10, x name, c at level 100, k at level 200) : watch_scope.

Definition of_result {A} (r : result WatchmeError A) : CliProg (Exit A) :=
  Ret (match r with Ok a => Done a | Err e => Failed (from_error e) end).
(** [map_err(|error| WatchmeError::Configuration(error.to_string()))]. *)
Definition configured {A} (r : result string A) : CliProg (Exit A) :=
  of_result (map_err Planner.Configuration r).
Definition now_done {A} (p : CliProg A) : CliProg (Exit A) := let! a := p in Ret (Done a).
Definition stop_with {A} (e : WatchmeError) : CliProg (Exit A) := of_result (Err e).

Definition nl : string := String "010" EmptyString.
Definition tab : string := String "009" EmptyString.
Definition println (s : string) : CliProg (Exit unit) := now_done (kcall (KOut (s +:+ nl))).

Fixpoint for_each {A} (f : A → CliProg (Exit unit)) (l : list A) : CliProg (Exit unit) :=
  match l with
  | [] => Ret (Done tt)
  | a :: l => do! _ := f a in for_each f l
  end.

(** serde_json: the text of a value, compact and pretty, of a response and of an event. *)
Class CliJson : Type := {
  value_text : Value → string;
  value_pretty : Value → result string string;
  value_of_text : string → result string Value;
  response_value : Response → Value;
  event_text : AuditEvent → result string string;
  hook_payload : list Z → option Value;
}.

Section Cli.
Context `{Rfc3339} `{RegexBuild} `{TomlDecode} `{Sha256Hex} `{TomlParse} `{RegexCrate} `{CliJson}.
Context (to_string_pretty : Config → option string).
Context (bundled : list (string * string * string)) (m : Machine) (euid : Z).

(** ** Rendering failures *)
Definition error_envelope (f : CliFailure) : Value :=
  VObject [("schema_version", VString SCHEMA_VERSION); ("ok", VBool false);
           ("error", VObject [("code", VString (from_option fst (error_code (failure f)) (daemon_error f)));
                              ("message", VString (from_option snd (error_message (failure f)) (daemon_error f)))])].

Definition json_line (f : CliFailure) : string := value_text (error_envelope f).

Definition render (f : CliFailure) : CliProg unit :=
  if failure_json f then kcall (KOut (json_line f +:+ nl))
  else match daemon_error f with
       | Some (code, message) => kcall (KErr ("watchme: " +:+ code +:+ ": " +:+ message +:+ nl))
       | None => kcall (KErr ("watchme: " +:+ watchme_display (failure f) +:+ nl))
       end.

(** ** Paths, configuration and the audit log *)
Definition on_paths {A} (p : PathProg A) : CliProg A := Target.interp (λ o, kcall (KPath o)) p.
Definition on_client {A} (p : ClientProg A) : CliProg A := Target.interp (λ o, kcall (KDaemon o)) p.

Definition runtime_paths : CliProg (Exit WatchmePaths) :=
  match mh_env m "HOME" with
  | None => stop_with (Planner.Configuration "HOME is not set")
  | Some home =>
      let! r := on_paths (Paths.resolve euid (components home) (components <$> mh_env m "XDG_CONFIG_HOME")
                            (components <$> mh_env m "XDG_STATE_HOME")
                            (components <$> mh_env m "XDG_RUNTIME_DIR")) in
      configured r
  end.

(** [let _ = paths.create_owner_only()]. *)
Definition try_create (paths : WatchmePaths) : CliProg (Exit unit) :=
  let! _ := on_paths (create_owner_only euid paths) in Ret (Done tt).

Definition config_file (paths : WatchmePaths) : Path :=
  Paths.join (config_dir paths) [Normal "config.toml"].

Definition load_config (paths : WatchmePaths) : result WatchmeError Config :=
  match load_layers [mh_layer m (path_text (config_file paths))] with
  | Ok c => Ok c
  | Err e => Err (Planner.Configuration (config_error_text e))
  end.
Definition config_or_default (paths : WatchmePaths) : Config :=
  match load_config paths with Ok c => c | Err _ => config_default end.

Definition config_command (c : Command.ConfigCommand) : CliProg (Exit unit) :=
  do! paths := runtime_paths in
  match c with
  | Command.ConfigPath => println (path_text (config_file paths))
  | Command.ConfigCheck =>
      do! _ := of_result (load_config paths) in println "configuration ok"
  | Command.ConfigShow =>
      do! config := of_result (load_config paths) in
      match render_redacted_toml to_string_pretty config with
      | Some text => now_done (kcall (KOut text))
      | None => Ret Panic
      end
  end.

(** [AuditLog::open]: the directory is created and made private, and so is the file unless
    it exists; a mode that cannot be set is ignored. *)
Definition open_log (path : Path) : CliProg (result string unit) :=
  try! _ := match parent path with
            | None => Ret (Ok tt)
            | Some dir =>
                try! _ := kcall (KMakeDirs dir) in
                let! _ := kcall (KChmodDir dir 448) in
                Ret (Ok tt)
            end in
  let! there := kcall (KExists path) in
  if (there : bool) then Ret (Ok tt)
  else
    try! _ := kcall (KCreateFile path) in
    let! _ := kcall (KChmodFile path 384) in
    Ret (Ok tt).

Definition audit_log (paths : WatchmePaths) : CliProg (Exit unit) :=
  do! path := configured (state_file paths "audit.jsonl") in
  let! opened := open_log path in
  configured opened.

Definition read_log (id : option string) (n : nat) : CliProg (Exit (list AuditEvent)) :=
  let! r := kcall (KLogRead id n) in configured r.

Definition print_decision_chain (c : DecisionChain) : CliProg (Exit unit) :=
  for_each println
    ["watcher: " +:+ dc_watcher_id c; "detector: " +:+ dc_detector c; "evidence: " +:+ dc_evidence c;
     "state: " +:+ dc_state c; "policy_decision: " +:+ dc_policy_decision c;
     "attempted_action: " +:+ dc_attempted_action c; "verification: " +:+ dc_verification c].

Definition explain_command (id : option string) : CliProg (Exit unit) :=
  do! paths := runtime_paths in
  do! _ := try_create paths in
  do! _ := audit_log paths in
  do! events := read_log None (Z.to_nat MAX_CHAIN_EVENTS) in
  do! chain := configured (map_err (λ message, message +:+ "; daemon may be down or audit empty")
                             (explain_decision (omap chain_of_event events) id)) in
  print_decision_chain chain.

(** ** Snapshots *)
Definition redaction_note (report : RedactionReport) : Value :=
  VObject [("performed", VBool true);
           ("replacement_count", VNumber (PosInt (Z.of_nat (replacement_count report))));
           ("categories", VArray (VString <$> btree_keys (gset_to_gmap tt (categories report))));
           ("raw_evidence_included", VBool false)].

Definition redacted_snapshot (v : Value) : Value :=
  let '(output, report) := redact_json [] v in
  match output with
  | VObject fs => VObject (set_field "redaction" (redaction_note report) fs)
  | other => other
  end.

Definition snapshot_path (paths : WatchmePaths) (id : string) : Path :=
  Paths.join (Paths.join (state_dir paths) [Normal "snapshots"]) (components (id +:+ ".json")).

Definition snapshot_command (id : option string) (redacted : bool) : CliProg (Exit unit) :=
  do! paths := runtime_paths in
  do! _ := try_create paths in
  match id with
  | None => stop_with (Planner.Configuration "snapshot requires a watcher ID")
  | Some id =>
      let path := snapshot_path paths id in
      let! there := kcall (KExists path) in
      if negb there then stop_with (Planner.Configuration ("no watcher snapshot found for " +:+ id))
      else
        let! raw := kcall (KReadText path) in
        do! raw := configured raw in
        do! value := configured (value_of_text raw) in
        do! text := configured (value_pretty (redacted_snapshot value)) in
        println text
  end.

(** ** Logs *)
Definition print_event (e : AuditEvent) : CliProg (Exit unit) :=
  do! text := configured (event_text e) in println text.

Definition FOLLOW_POLL_MS : Z := 200.
Definition FOLLOW_BYTES : nat := Z.to_nat (64 * 1024).
Definition LOG_LINES : nat := 200.

(** The polling loop; [Running] when the fuel is spent. *)
Fixpoint follow_loop (fuel : nat) (id : option string) (offset : Z) : CliProg (Exit unit) :=
  match fuel with
  | O => Ret Running
  | S fuel =>
      let! _ := kcall (KSleep FOLLOW_POLL_MS) in
      let! r := kcall (KLogFollow offset id FOLLOW_BYTES) in
      do! next := configured r in
      do! _ := for_each print_event next.1 in
      follow_loop fuel id next.2
  end.

Definition follow_logs (fuel : nat) (id : option string) : CliProg (Exit unit) :=
  do! existing := read_log id LOG_LINES in
  do! _ := for_each print_event existing in
  let! size := kcall KLogSize in
  follow_loop fuel id (default 0 size).

Definition logs_command (fuel : nat) (id : option string) (follow : bool) : CliProg (Exit unit) :=
  do! paths := runtime_paths in
  do! _ := try_create paths in
  do! _ := audit_log paths in
  let! now := kcall KNow in
  let! _ := kcall (KLogRetain (policy_of_config (retention (config_or_default paths))) now) in
  if follow : bool then follow_logs fuel id
  else
    do! events := read_log id LOG_LINES in
    match events with
    | [] => stop_with (Planner.Configuration "no audit events found for watcher")
    | _ => for_each print_event events
    end.

(** ** Doctor and providers *)
Definition status_text (s : CheckStatus) : string :=
  match s with CheckOk => "ok" | CheckWarn => "warn" | CheckFail => "fail" end.

(** serde's derived [Serialize] of the report and of a row. *)
Definition check_value (c : DoctorCheck) : Value :=
  VObject [("name", VString (ck_name c)); ("status", VString (status_text (ck_status c)));
           ("message", VString (ck_message c))].
Definition report_value (r : DoctorReport) : Value :=
  VObject [("schema_version", VString (dr_schema_version r)); ("ok", VBool (dr_ok r));
           ("checks", VArray (check_value <$> dr_checks r))].
Definition row_value (p : ProviderRow) : Value :=
  VObject [("id", VString (row_id p)); ("support_tier", VString (row_support_tier p));
           ("readiness", VString (row_readiness p)); ("first_class", VBool (row_first_class p));
           ("executable_present", VBool (row_executable_present p));
           ("local_override", VBool (row_local_override p));
           ("manifest_version", VString (row_manifest_version p))].

Definition doctor_command (strict json : bool) : CliProg (Exit unit) :=
  do! paths := runtime_paths in
  do! _ := try_create paths in
  let report := run_doctor bundled m paths (config_or_default paths) strict in
  do! _ := (if json then println (value_text (report_value report))
            else
              do! _ := for_each (λ c, println (status_text (ck_status c) +:+ tab +:+ ck_name c +:+ tab
                                               +:+ ck_message c)) (dr_checks report) in
              println (if dr_ok report then "doctor: ok" else "doctor: problems found")) in
  if dr_ok report then Ret (Done tt)
  else stop_with (Planner.Configuration "doctor reported problems").

Definition providers_envelope (rows : list ProviderRow) : Value :=
  VObject [("schema_version", VString SCHEMA_VERSION); ("ok", VBool true);
           ("providers", VArray (row_value <$> rows))].

Definition provider_line (p : ProviderRow) : string :=
  row_id p +:+ tab +:+ row_support_tier p +:+ tab +:+ row_readiness p +:+ tab
  +:+ (if row_first_class p then "first_class" else "manifest").

Definition providers_command (json : bool) : CliProg (Exit unit) :=
  do! paths := runtime_paths in
  do! rows := configured (list_providers bundled m (config_or_default paths)) in
  if json then println (value_text (providers_envelope rows))
  else for_each (λ p, println (provider_line p)) rows.

(** ** Hooks *)
Definition hook_plan (install : bool) (settings marker command : string) : string :=
  (if install then "would install" else "would remove") +:+ " Claude hook" +:+ nl
  +:+ "settings: " +:+ settings +:+ nl +:+ "marker: " +:+ marker +:+ nl +:+ "command: " +:+ command.

Definition hook_lifecycle (o : HookLifecycleOptions) (install : bool) : CliProg (Exit unit) :=
  do! paths := runtime_paths in
  do! home := of_result (ok_or (mh_env m "HOME") (Planner.Configuration "HOME is not set")) in
  let settings := default (Host.join_path home ".claude/settings.json") (ho_settings o) in
  do! marker := match ho_marker o with
                | Some marker => Ret (Done marker)
                | None => configured (let? p := state_file paths "claude-stop-failure.jsonl" in Ok (path_text p))
                end in
  if ho_dry_run o then
    do! command := configured (stop_failure_command marker) in
    println (hook_plan install settings marker command)
  else
    do! _ := (if install then
                let! made := on_paths (create_owner_only euid paths) in configured made
              else Ret (Done tt)) in
    let! changed := (if install then kcall (KInstallHook settings marker)
                     else kcall (KRemoveHook settings marker)) in
    do! changed := configured changed in
    println ("Claude hook " +:+ (if install then "installed" else "removed")
             +:+ (if (changed : bool) then "" else " (already in requested state)")).

Definition MAX_HOOK_PAYLOAD_BYTES : nat := Z.to_nat 8192.

Definition hook_stop_failure (marker_path : string) : CliProg (Exit unit) :=
  let! read := kcall (KStdin (MAX_HOOK_PAYLOAD_BYTES + 1)) in
  do! payload := of_result (ok_or read (Planner.RetryableIntegration "cannot read Claude hook payload")) in
  if (MAX_HOOK_PAYLOAD_BYTES <? length payload)%nat
  then stop_with (Planner.PolicyDenied "Claude hook payload exceeds size limit")
  else
    do! marker := of_result (map_err Planner.PolicyDenied (parse_stop_failure_payload (hook_payload payload))) in
    let! written := kcall (KWriteMarker marker_path marker) in
    of_result (map_err (λ _, Planner.PolicyDenied "Claude hook marker path is unsafe") written).

(** ** The daemon *)
Definition run_daemon_command : CliProg (Exit unit) :=
  do! paths := runtime_paths in
  let config := daemon (config_or_default paths) in
  let! runtime := kcall KRuntime in
  do! _ := of_result (map_err Planner.RetryableIntegration runtime) in
  let! r := kcall (KRunDaemon (Z.max 1 (idle_grace_seconds config)) (stay_resident config)) in
  of_result (map_err Planner.RetryableIntegration r).

Definition lifecycle_name (l : WatcherLifecycle) : string :=
  match l with
  | Lifecycle.Registered => "registered"
  | Lifecycle.Observing => "observing"
  | Lifecycle.Paused => "paused"
  | Lifecycle.Recovering _ => "recovering"
  | Lifecycle.Waiting _ _ => "waiting"
  | Lifecycle.HumanRequired _ => "human_required"
  | Lifecycle.TargetTerminated => "target_terminated"
  | Lifecycle.Stopped _ => "stopped"
  end.

Definition success_envelope (r : Response) : Value :=
  VObject [("schema_version", VString SCHEMA_VERSION); ("ok", VBool true); ("response", response_value r)].

Definition watcher_line (w : WatcherState) : string := ws_id w +:+ tab +:+ lifecycle_name (State.lifecycle w).

Definition render_response (r : Response) (json : bool) : CliProg (Exit unit) :=
  match r with
  | Response.Error code message =>
      Ret (Failed (mkFailure (Planner.RetryableIntegration message) (Some (code, message)) json))
  | _ =>
      if json then println (value_text (success_envelope r))
      else match r with
           | Response.Status running watchers =>
               do! _ := println ("daemon: " +:+ (if running then "running" else "stopped") +:+ nl
                                 +:+ "watchers: " +:+ pretty (Z.of_nat (length watchers))) in
               for_each (λ w, println (watcher_line w)) watchers
           | Response.Watchers [] => println "no watchers"
           | Response.Watchers watchers => for_each (λ w, println (watcher_line w)) watchers
           | Response.Registered id existing =>
               println ((if existing then "existing" else "registered") +:+ " watcher " +:+ id)
           | Response.Stopped => println "stopped"
           | Response.Updated w => println (watcher_line w)
           | Response.Acknowledged => println "acknowledged"
           | Response.Error _ _ => Ret Panic
           end
  end.

Definition admin (r : Request) (json : bool) : CliProg (Exit unit) :=
  do! paths := runtime_paths in
  let! answer := on_client (DaemonClient.request paths r) in
  match answer with
  | Err e => Ret (Failed (mkFailure (Planner.RetryableIntegration ("daemon unavailable: " +:+ e)) None json))
  | Ok response => render_response response json
  end.

Definition started (fuel : nat) (paths : WatchmePaths) (r : Request) : CliProg (Exit Response) :=
  let! x := on_client (start_and_request euid paths fuel r) in
  match x with
  | Returned r => of_result r
  | Panicked => Ret Panic
  | OutOfFuel => Ret Running
  end.

Definition start_daemon (fuel : nat) : CliProg (Exit unit) :=
  do! paths := runtime_paths in
  let! answer := on_client (DaemonClient.request paths (Request.Status None)) in
  match answer with
  | Ok (Response.Status true _) => println "daemon already running"
  | Ok response => render_response response false
  | Err _ =>
      do! response := started fuel paths (Request.Status None) in
      match response with
      | Response.Status true _ => println "daemon started"
      | response => render_response response false
      end
  end.

(** [map_err(|failure| failure.error)], and back: the code of the daemon is lost. *)
Definition only_error {A} (p : CliProg (Exit A)) : CliProg (Exit A) :=
  let! x := p in
  Ret (match x with Failed f => Failed (from_error (failure f)) | x => x end).

Definition register_client (fuel : nat) (w : WatcherState) : CliProg (Exit unit) :=
  do! paths := runtime_paths in
  let r := Request.Register w in
  let! answer := on_client (DaemonClient.request paths r) in
  match answer with
  | Ok response => only_error (render_response response false)
  | Err _ =>
      do! response := started fuel paths r in
      only_error (render_response response false)
  end.

Definition register_current_context (fuel : nat) : CliProg (Exit unit) :=
  let! detected := kcall KDetect in
  do! w := of_result detected in
  register_client fuel w.

(** ** The process *)
Definition run (fuel : nat) (c : Command) : CliProg (Exit unit) :=
  match c with
  | Command.RegisterCurrent => register_current_context fuel
  | Command.WatchmeHookStopFailure marker => hook_stop_failure marker
  | Command.InstallClaude o => hook_lifecycle o true
  | Command.RemoveClaude o => hook_lifecycle o false
  | Command.Status id json => admin (Request.Status id) json
  | Command.ListAll json => admin Request.ListWatchers json
  | Command.Stop id all json =>
      if negb (bool_decide (is_Some id)) && negb all
      then Ret (Failed (mkFailure (Planner.Configuration "stop requires a watcher ID or --all") None json))
      else admin (Request.Stop id all) json
  | Command.Pause id json => admin (Request.Pause id) json
  | Command.Resume id json => admin (Request.Resume id) json
  | Command.Daemon Command.DaemonStart => start_daemon fuel
  | Command.Daemon Command.DaemonRun => run_daemon_command
  | Command.Daemon Command.DaemonStatus => admin (Request.Status None) false
  | Command.Daemon Command.DaemonStop => admin Request.Shutdown false
  | Command.Config c => config_command c
  | Command.Explain id => explain_command id
  | Command.Snapshot id redacted => snapshot_command id redacted
  | Command.Logs id follow => logs_command fuel id follow
  | Command.Doctor strict json => doctor_command strict json
  | Command.Providers json => providers_command json
  end.

(** The exit status; [None]: no exit yet, or a panic. *)
Definition main (fuel : nat) (c : Command) : CliProg (option bool) :=
  let! x := run fuel c in
  match x with
  | Done _ => Ret (Some true)
  | Failed f => let! _ := render f in Ret (Some false)
  | Panic | Running => Ret None
  end.
End Cli.

(** ** What a command may do

    For every call the commands that may make it: the requests a command sends, the
    commands that start a daemon, create the managed directories, create the audit log,
    change the settings of Claude, write its marker, prune the audit log, or run the
    daemon itself; printing and reading the way to the managed directories is for all. *)
Definition sends (c : Command) (r : Request) : Prop :=
  match c with
  | Command.RegisterCurrent => ∃ w, r = Request.Register w
  | Command.Status id _ => r = Request.Status id
  | Command.ListAll _ => r = Request.ListWatchers
  | Command.Stop id all _ => r = Request.Stop id all ∧ (id ≠ None ∨ all = true)
  | Command.Pause id _ => r = Request.Pause id
  | Command.Resume id _ => r = Request.Resume id
  | Command.Daemon (Command.DaemonStart | Command.DaemonStatus) => r = Request.Status None
  | Command.Daemon Command.DaemonStop => r = Request.Shutdown
  | _ => False
  end.

Definition starts_daemon (c : Command) : bool :=
  match c with Command.RegisterCurrent | Command.Daemon Command.DaemonStart => true | _ => false end.

Definition creates (c : Command) : bool :=
  match c with
  | Command.Explain _ | Command.Snapshot _ _ | Command.Logs _ _ | Command.Doctor _ _ => true
  | Command.InstallClaude o => negb (ho_dry_run o)
  | _ => false
  end.

Definition opens_log (c : Command) : bool :=
  match c with Command.Explain _ | Command.Logs _ _ => true | _ => false end.
Definition is_logs (c : Command) : bool := match c with Command.Logs _ _ => true | _ => false end.
Definition is_snapshot (c : Command) : bool := match c with Command.Snapshot _ _ => true | _ => false end.

Definition reads_paths (o : PathOp) : Prop :=
  match o with PMkdirat _ _ _ | PFchmod _ _ => False | _ => True end.

Definition allowed (c : Command) (o : CliOp) : Prop :=
  match o with
  | KOut _ | KErr _ => True
  | KPath o => reads_paths o ∨ creates c = true
  | KDaemon (CWrite r _) => sends c r
  | KDaemon (CSpawn _ | CPath _ | COpenLog _ | CChmodLog | CKill) => starts_daemon c = true
  | KDaemon _ => ∃ r, sends c r
  | KMakeDirs _ => opens_log c = true
  | KChmodDir _ mode => opens_log c = true ∧ mode = 448
  | KCreateFile path => opens_log c = true ∧ last path = Some (Normal "audit.jsonl")
  | KChmodFile path mode => opens_log c = true ∧ last path = Some (Normal "audit.jsonl") ∧ mode = 384
  | KLogRead _ _ => opens_log c = true
  | KLogRetain _ _ | KLogSize | KLogFollow _ _ _ | KNow | KSleep _ => is_logs c = true
  | KExists _ => opens_log c = true ∨ is_snapshot c = true
  | KReadText _ => is_snapshot c = true
  | KInstallHook _ _ => ∃ o, c = Command.InstallClaude o ∧ ho_dry_run o = false
  | KRemoveHook _ _ => ∃ o, c = Command.RemoveClaude o ∧ ho_dry_run o = false
  | KStdin _ => ∃ path, c = Command.WatchmeHookStopFailure path
  | KWriteMarker path _ => c = Command.WatchmeHookStopFailure path
  | KDetect => c = Command.RegisterCurrent
  | KRuntime | KRunDaemon _ _ => c = Command.Daemon Command.DaemonRun
  end.

(** ** Programs confined to some calls *)
Section Only.
Context {Op : Type} {An : Op → Type} (P : Op → Prop).

Definition confined_log (tr : list (Ev An)) : Prop := Forall (λ e, P (projT1 e)) tr.
Definition only {A} (p : Prog An A) : Prop := respects confined_log p.

Lemma only_ret {A} (a : A) : only (Ret a).
Proof. apply respects_ret. by constructor. Qed.
Lemma only_bind {A B} (p : Prog An A) (f : A → Prog An B) : only p → (∀ a, only (f a)) → only (bind p f).
Proof. apply respects_bind. intros l1 l2. apply Forall_app_2. Qed.
Lemma only_try {E A B} (p : Prog An (result E A)) (f : A → Prog An (result E B)) :
  only p → (∀ a, only (f a)) → only (prog_try p f).
Proof. intros Hp Hf. apply only_bind; [done|]. intros [a|e]; [done|apply only_ret]. Qed.
Lemma only_call o : P o → only (call o).
Proof. intros Ho. apply respects_call. intros x. by constructor. Qed.
End Only.

Lemma only_weaken {Op} {An : Op → Type} (P Q : Op → Prop) {A} (p : Prog An A) :
  (∀ o, P o → Q o) → only P p → only Q p.
Proof. intros HPQ Hp tr r Ht. eapply Forall_impl; [by eapply Hp|]. intros e. apply HPQ. Qed.

(** A linked program makes the calls its implementation makes for the calls it makes. *)
Lemma only_linked {Op Op'} {An : Op → Type} {An' : Op' → Type} (h : ∀ o, Prog An' (An o))
    (P : Op → Prop) (Q : Op' → Prop) {A} (p : Prog An A) :
  (∀ o, P o → only Q (h o)) → only P p → only Q (Target.interp h p).
Proof.
  intros Hh Hp tr r (tr0 & Ht & Hx)%linked_traces. apply Hp in Ht.
  revert tr Hx. induction Ht as [|[o x] tr0 Ho _ IH]; intros tr; cbn; [by intros ->; constructor|].
  intros (seg & rest & -> & Hs & Hr). apply Forall_app_2; [by eapply Hh|by apply IH].
Qed.

(** ** The calls of the parts *)
Ltac confine :=
  repeat first
    [ progress cbn beta iota
    | apply only_ret
    | apply only_bind; [|intros ?] | apply only_try; [|intros ?]
    | match goal with
      | |- only _ (match ?x with _ => _ end) => destruct x
      | |- only _ (lift _) => apply only_ret
      | |- only ?P (pathcall ?o) => refine (only_call P o _); first [done|exact I]
      | |- only ?P (ccall ?o) => refine (only_call P o _); first [done|exact I]
      | |- only ?P (kcall ?o) => refine (only_call P o _); first [done|exact I]
      end ].

Lemma existing_reads rp missing : only reads_paths (existing_ancestor rp missing).
Proof.
  revert missing. induction rp as [|c rp IH]; intros missing; cbn [existing_ancestor]; confine. apply IH.
Qed.

Lemma resolve_reads euid home c s r : only reads_paths (Paths.resolve euid home c s r).
Proof.
  unfold Paths.resolve, physical_or, physicalize_existing_prefix.
  repeat first [apply existing_reads | progress confine].
Qed.

Definition asks (r : Request) (o : ClientOp) : Prop :=
  match o with
  | CWrite r' _ => r' = r
  | CSpawn _ | CPath _ | COpenLog _ | CChmodLog | CKill => False
  | _ => True
  end.
Definition starts (r : Request) (o : ClientOp) : Prop := match o with CWrite r' _ => r' = r | _ => True end.

Lemma request_asks paths r timeout : only (asks r) (request_with_timeout paths r timeout).
Proof. unfold request_with_timeout. confine. Qed.

Lemma readiness_only {T E} (P : ClientOp → Prop) (attempt : Z → ClientProg (result E T)) fuel deadline backoff :
  (∀ t, only P (attempt t)) → P CNow → (∀ d, P (CSleep d)) → only P (readiness_loop attempt fuel deadline backoff).
Proof.
  intros Ha Hn Hs. revert backoff. induction fuel as [|fuel IH]; intros backoff; cbn [readiness_loop]; confine.
  all: try apply Ha; try apply IH; apply only_call; auto.
Qed.

Lemma start_starts euid paths fuel r : only (starts r) (start_and_request euid paths fuel r).
Proof.
  unfold start_and_request, launch, retryable, wait_for_readiness, child_failure_diagnostic, child_status,
    open_startup_diagnostic.
  confine.
  - apply (only_linked _ (λ _, True)); [intros o _; confine|].
    intros tr x _. by apply Forall_true.
  - apply readiness_only; [|done|done]. intros t. eapply only_weaken, request_asks. by intros [].
Qed.

(** ** Confinement *)
Section Confined.
Context `{Rfc3339} `{RegexBuild} `{TomlDecode} `{Sha256Hex} `{TomlParse} `{RegexCrate} `{CliJson}.
Context (to_string_pretty : Config → option string).
Context (bundled : list (string * string * string)) (m : Machine) (euid : Z).
Context (P : CliOp → Prop).

Lemma only_exit {A B} (p : CliProg (Exit A)) (f : A → CliProg (Exit B)) :
  only P p → (∀ a, only P (f a)) → only P (exit_bind p f).
Proof. intros Hp Hf. apply only_bind; [done|]. intros [a|e| |]; [done|apply only_ret..]. Qed.

Lemma only_stop {A} (r : result WatchmeError A) : only P (of_result r).
Proof. apply only_ret. Qed.

Lemma only_for_each {A} (f : A → CliProg (Exit unit)) l : (∀ a, only P (f a)) → only P (for_each f l).
Proof. intros Hf. induction l as [|a l IH]; [apply only_ret|]. by apply only_exit. Qed.

(** Printing, and reading the way to the managed directories. *)
Context (P_plain : ∀ o, match o with
  | KOut _ | KErr _ => True
  | KPath o => reads_paths o
  | _ => False
  end → P o).

Lemma only_println s : only P (println s).
Proof. apply only_bind; [|intros []; apply only_ret]. refine (only_call P (KOut _) _). by apply P_plain. Qed.

Lemma only_paths : only P (runtime_paths m euid).
Proof.
  unfold runtime_paths. destruct (mh_env m "HOME"); [|apply only_stop].
  apply only_bind; [|intros ?; apply only_stop].
  apply (only_linked _ reads_paths); [|apply resolve_reads].
  intros o Ho. refine (only_call P (KPath o) _). by apply P_plain.
Qed.

Lemma only_create w : (∀ o, P (KPath o)) → only P (on_paths (create_owner_only euid w)).
Proof.
  intros Hp. apply (only_linked _ (λ _, True)); [|intros tr x _; by apply Forall_true].
  intros o _. by refine (only_call P (KPath o) _).
Qed.

Lemma only_client {A} (Q : ClientOp → Prop) (p : ClientProg A) :
  (∀ o, Q o → P (KDaemon o)) → only Q p → only P (on_client p).
Proof. intros HQ. apply only_linked. intros o Ho. refine (only_call P (KDaemon o) _). auto. Qed.
End Confined.

Ltac confine_cli plain known :=
  repeat first
    [ known | progress cbn beta iota
    | apply only_ret | apply only_stop
    | apply only_exit; [|intros ?] | apply only_bind; [|intros ?]
    | apply only_for_each; intros ?
    | apply only_println; exact plain | apply only_paths; exact plain
    | match goal with
      | |- only _ (match ?x with _ => _ end) => destruct x
      | |- only ?P (kcall ?o) => refine (only_call P o _); first [done|by apply plain|naive_solver]
      end ].

Section Commands.
Context `{Rfc3339} `{RegexBuild} `{TomlDecode} `{Sha256Hex} `{TomlParse} `{RegexCrate} `{CliJson}.
Context (to_string_pretty : Config → option string).
Context (bundled : list (string * string * string)) (m : Machine) (euid : Z).

Lemma plain_allowed c o : match o with
  | KOut _ | KErr _ => True
  | KPath o => reads_paths o
  | _ => False
  end → allowed c o.
Proof. destruct o; cbn; auto; by intros []. Qed.

Lemma state_file_last paths path :
  state_file paths "audit.jsonl" = Ok path → last path = Some (Normal "audit.jsonl").
Proof. unfold state_file. cbn. intros [= <-]. unfold Paths.join. cbn. apply last_snoc. Qed.

Lemma open_allowed c paths : opens_log c = true → only (allowed c) (audit_log paths).
Proof.
  intros Hc. unfold audit_log, configured, of_result, exit_bind, open_log.
  destruct (state_file paths "audit.jsonl") as [path|e] eqn:E; [|apply only_ret].
  apply state_file_last in E. cbn [map_err bind].
  confine; match goal with |- only ?P (kcall ?o) => refine (only_call P o _); cbn; auto end.
Qed.

Lemma asked_allowed c paths r : sends c r → only (allowed c) (on_client (DaemonClient.request paths r)).
Proof.
  intros Hs. apply (only_client _ (asks r)); [|apply request_asks].
  intros [] Ho; cbn in *; subst; first [done|by eexists].
Qed.

Lemma started_allowed c fuel paths r :
  sends c r → starts_daemon c = true → only (allowed c) (started euid fuel paths r).
Proof.
  intros Hs Hd. unfold started. apply only_bind; [|intros []; first [apply only_ret|apply only_stop]].
  apply (only_client _ (starts r)); [|apply start_starts].
  intros [] Ho; cbn in *; subst; first [done|by eexists].
Qed.

Lemma create_allowed c w : creates c = true → only (allowed c) (try_create euid w).
Proof.
  intros Hc. apply only_bind; [|intros ?; apply only_ret]. apply only_create. intros o. by right.
Qed.

Lemma response_allowed c r json : only (allowed c) (render_response r json).
Proof. unfold render_response. confine_cli (plain_allowed c) fail. Qed.

Lemma follow_allowed c fuel id offset : is_logs c = true → only (allowed c) (follow_loop fuel id offset).
Proof.
  intros Hc. revert offset. induction fuel as [|fuel IH]; intros offset; cbn [follow_loop]; [apply only_ret|].
  unfold print_event. confine_cli (plain_allowed c) ltac:(apply IH).
Qed.

Ltac confine_command c :=
  confine_cli (plain_allowed c)
    ltac:(first [ apply response_allowed | apply follow_allowed; done | apply open_allowed; done
                | apply asked_allowed; first [done|by eexists] | apply started_allowed; first [done|by eexists]
                | apply create_allowed; done
                | apply only_create; by right ]).

Lemma run_allowed fuel c : only (allowed c) (run to_string_pretty bundled m euid fuel c).
Proof.
  destruct c as [|marker|o|o|id json|json|id|id red|id follow|id all json|id json|id json|strict json|json|cc|dc];
    cbn [run].
  - unfold register_current_context, register_client, only_error. confine_command (Command.RegisterCurrent).
  - unfold hook_stop_failure. confine_command (Command.WatchmeHookStopFailure marker).
  - unfold hook_lifecycle. destruct (ho_dry_run o) eqn:Hd; confine_command (Command.InstallClaude o).
    all: try (apply only_create; right; cbn; by rewrite ?Hd).
  - unfold hook_lifecycle. destruct (ho_dry_run o) eqn:Hd; confine_command (Command.RemoveClaude o).
  - unfold admin. confine_command (Command.Status id json).
  - unfold admin. confine_command (Command.ListAll json).
  - unfold explain_command, read_log, print_decision_chain. confine_command (Command.Explain id).
  - unfold snapshot_command. confine_command (Command.Snapshot id red).
  - unfold logs_command, follow_logs, read_log, print_event. confine_command (Command.Logs id follow).
  - destruct (negb (bool_decide (is_Some id)) && negb all) eqn:E; [apply only_ret|].
    assert (sends (Command.Stop id all json) (Request.Stop id all)) as Hs.
    { split; [done|]. destruct id; [by left|right]. by destruct all. }
    unfold admin. confine_command (Command.Stop id all json).
  - unfold admin. confine_command (Command.Pause id json).
  - unfold admin. confine_command (Command.Resume id json).
  - unfold doctor_command. confine_command (Command.Doctor strict json).
  - unfold providers_command. confine_command (Command.Providers json).
  - unfold config_command. confine_command (Command.Config cc).
  - destruct dc; cbn [run].
    + unfold start_daemon. confine_command (Command.Daemon Command.DaemonStart).
    + unfold run_daemon_command. confine_command (Command.Daemon Command.DaemonRun).
    + unfold admin. confine_command (Command.Daemon Command.DaemonStatus).
    + unfold admin. confine_command (Command.Daemon Command.DaemonStop).
Qed.

Definition dry_run (c : Command) : bool :=
  match c with Command.InstallClaude o | Command.RemoveClaude o => ho_dry_run o | _ => false end.

(** Printing, and reading the way to the managed directories. *)
Definition changes_nothing (o : CliOp) : Prop :=
  match o with KOut _ | KErr _ => True | KPath o => reads_paths o | _ => False end.

Lemma dry_run_allowed c o : dry_run c = true → allowed c o → changes_nothing o.
Proof.
  destruct c; try done; cbn; intros Hd; destruct o as [|[]| | | | | | | | | | | | | | | | | | | | |]; cbn;
    rewrite ?Hd; cbn; intros Ha;
    repeat match type of Ha with
    | ∃ _, _ => destruct Ha as [? Ha] | _ ∧ _ => destruct Ha as [? Ha] | _ ∨ _ => destruct Ha as [Ha|Ha]
    end; simplify_eq; congruence || done.
Qed.


(** ** What is printed *)
Definition printed_line (e : Ev CliAns) : option (bool * string) :=
  match projT1 e with KOut s => Some (true, s) | KErr s => Some (false, s) | _ => None end.
Definition printed (tr : list (Ev CliAns)) : list (bool * string) := omap printed_line tr.

Definition quiet (o : CliOp) : Prop := match o with KOut _ | KErr _ => False | _ => True end.

Lemma quiet_prints {A} (p : CliProg A) tr r : only quiet p → traces p tr r → printed tr = [].
Proof.
  intros Hp Ht. apply Hp in Ht. induction Ht as [|[o x] tr Ho _ IH]; [done|]. by destruct o.
Qed.

Lemma printed_app l1 l2 : printed (l1 ++ l2) = printed l1 ++ printed l2.
Proof. apply omap_app. Qed.

Definition talks (e : Ev CliAns) : Prop := match projT1 e with KDaemon _ => True | _ => False end.

Lemma silent_talk {A} (p : CliProg A) tr r :
  only (λ o, match o with KDaemon _ => False | _ => True end) p → traces p tr r → ∀ e, e ∈ tr → ¬ talks e.
Proof. intros Hp Ht e He. apply Hp in Ht. unfold confined_log in Ht.
  rewrite Forall_forall in Ht. specialize (Ht e He). unfold talks. by destruct e as [[] ?]; cbn in *; auto. Qed.

Lemma paths_silent : only (λ o, match o with KPath _ => True | _ => False end) (runtime_paths m euid).
Proof.
  unfold runtime_paths. destruct (mh_env m "HOME"); [|apply only_ret].
  apply only_bind; [|intros ?; apply only_ret].
  apply (only_linked _ (λ _, True)); [|intros tr x _; by apply Forall_true].
  intros o _. by refine (only_call _ (KPath o) _).
Qed.

Lemma paths_traces tr x :
  traces (runtime_paths m euid) tr x →
  printed tr = [] ∧ (∀ e, e ∈ tr → ¬ talks e)
  ∧ ((∃ w, x = Done w) ∨ ∃ message, x = Failed (from_error (Planner.Configuration message))).
Proof.
  intros Ht. split; [|split].
  - eapply quiet_prints, Ht. eapply only_weaken, paths_silent. by intros [].
  - eapply silent_talk, Ht. eapply only_weaken, paths_silent. by intros [].
  - revert Ht. unfold runtime_paths, stop_with, configured, of_result.
    destruct (mh_env m "HOME"); [|intros [_ ->]; right; by eexists].
    intros (tr1 & tr2 & [w|e] & _ & _ & [_ ->])%traces_bind; [left; by eexists|right; by eexists].
Qed.

Lemma request_quiet paths r : only quiet (on_client (DaemonClient.request paths r)).
Proof. by apply (only_client _ (asks r)), request_asks. Qed.

Definition envelope (ok : bool) (v : Value) : Prop :=
  get_field "ok" v = Some (VBool ok) ∧ get_field "schema_version" v = Some (VString SCHEMA_VERSION).

Lemma println_traces s tr x : traces (println s) tr x → printed tr = [(true, s +:+ nl)] ∧ x = Done tt.
Proof. intros (? & ? & -> & -> & ->). cbn. by destruct x0. Qed.

Lemma render_response_json r tr x :
  traces (render_response r true) tr x →
  (∃ v, printed tr = [(true, value_text v +:+ nl)] ∧ envelope true v ∧ x = Done tt)
  ∨ (∃ f, tr = [] ∧ x = Failed f ∧ failure_json f = true).
Proof.
  unfold render_response. destruct r; try (intros [Hp ->]%println_traces; left; by eexists).
  intros [-> ->]. right. by eexists.
Qed.

(** The commands that take [--json]. *)
Definition wants_json (c : Command) : bool :=
  match c with
  | Command.Status _ json | Command.ListAll json | Command.Stop _ _ json | Command.Pause _ json
  | Command.Resume _ json | Command.Doctor _ json | Command.Providers json => json
  | _ => false
  end.

(** What is printed on the standard output ([true]) and on the error output, by exit status. *)
Inductive json_answer (c : Command) : bool → list (bool * string) → Prop :=
| answer_envelope ok v :
    (∀ strict, c ≠ Command.Doctor strict true) → envelope ok v →
    json_answer c ok [(true, value_text v +:+ nl)]
| answer_report strict paths :
    c = Command.Doctor strict true →
    let report := run_doctor bundled m paths (config_or_default m paths) strict in
    envelope (dr_ok report) (report_value report) →
    json_answer c (dr_ok report)
      ((true, value_text (report_value report) +:+ nl)
       :: if dr_ok report then []
          else [(false, "watchme: configuration error: doctor reported problems" +:+ nl)]).

(** [--json] is not honoured: plain text on the error output. *)
Inductive plain_answer (c : Command) : bool → list (bool * string) → Prop :=
| answer_no_paths message tr :
    traces (runtime_paths m euid) tr (Failed (from_error (Planner.Configuration message))) →
    plain_answer c false [(false, "watchme: configuration error: " +:+ message +:+ nl)]
| answer_no_providers paths message :
    c = Command.Providers true →
    list_providers bundled m (config_or_default m paths) = Err message →
    plain_answer c false [(false, "watchme: configuration error: " +:+ message +:+ nl)].

Lemma status_answer id ok out :
  json_answer (Command.Status id true) ok out → ∃ v, out = [(true, value_text v +:+ nl)] ∧ envelope ok v.
Proof. intros Hj. inversion Hj; [by eexists|done]. Qed.

Lemma plain_on_error c ok out :
  plain_answer c ok out → ∃ message, out = [(false, "watchme: configuration error: " +:+ message +:+ nl)].
Proof. intros Hp. inversion Hp; by eexists. Qed.

Definition finish (x : Exit unit) : CliProg (option bool) :=
  match x with
  | Done _ => Ret (Some true)
  | Failed f => let! _ := render f in Ret (Some false)
  | Panic | Running => Ret None
  end.

(** A command that needs the paths: they are found silently, or plain text is printed. *)
Lemma paths_first (p : WatchmePaths → CliProg (Exit unit)) c tr code :
  traces (let! x := (do! paths := runtime_paths m euid in p paths) in finish x) tr code →
  (∃ tr1 tr2 paths, tr = tr1 ++ tr2 ∧ printed tr1 = [] ∧ (∀ e, e ∈ tr1 → ¬ talks e)
     ∧ traces (let! x := p paths in finish x) tr2 code)
  ∨ (∃ ok, code = Some ok ∧ plain_answer c ok (printed tr) ∧ ∀ e, e ∈ tr → ¬ talks e).
Proof.
  intros (tr1 & tr2 & x & -> & Ha & Hx)%traces_bind.
  apply traces_bind in Ha as (t1 & t2 & found & -> & Hf & Ha).
  destruct (paths_traces _ _ Hf) as (Hq & Hs & [[w ->]|[message ->]]).
  - left. exists t1, (t2 ++ tr2), w. rewrite app_assoc. split; [done|]. split; [done|]. split; [done|].
    apply traces_bind. by exists t2, tr2, x.
  - right. exists false. destruct Ha as [-> ->]. destruct Hx as (? & ? & -> & -> & ->).
    split; [done|]. rewrite app_nil_r, printed_app, Hq. split; [by eapply answer_no_paths|].
    intros e. rewrite elem_of_app. intros [He|He]; [by apply Hs|]. apply list_elem_of_singleton in He as ->. by intros [].
Qed.

Lemma admin_json r c tr code :
  (∀ strict, c ≠ Command.Doctor strict true) →
  traces (let! x := admin m euid r true in finish x) tr code →
  ∃ ok, code = Some ok
    ∧ (json_answer c ok (printed tr) ∨ plain_answer c ok (printed tr) ∧ ∀ e, e ∈ tr → ¬ talks e).
Proof.
  intros Hc [(t1 & t2 & w & -> & Hq & _ & Ha)|(ok & -> & Hp & Hs)]%(paths_first _ c); [|eauto].
  rewrite printed_app, Hq. apply traces_bind in Ha as (t3 & t4 & x & -> & Ha & Hx).
  apply traces_bind in Ha as (t5 & t6 & answer & -> & Hr & Ha).
  rewrite !printed_app, (quiet_prints _ _ _ (request_quiet _ _) Hr). cbn [app].
  destruct answer as [response|e].
  - apply render_response_json in Ha as [(v & Hv & He & ->)|(f & -> & -> & Hf)].
    + destruct Hx as [-> ->]. rewrite Hv. exists true. split; [done|]. left. by constructor.
    + unfold finish, render in Hx. rewrite Hf in Hx. destruct Hx as (? & ? & -> & -> & ->). exists false.
      split; [done|]. left. by apply (answer_envelope c false (error_envelope f)).
  - destruct Ha as [-> ->]. destruct Hx as (? & ? & -> & -> & ->). exists false.
    split; [done|]. left. by eapply (answer_envelope c false (error_envelope _)).
Qed.

Lemma create_quiet w : only quiet (on_paths (create_owner_only euid w)).
Proof.
  apply (only_linked _ (λ _, True)); [|intros tr x _; by apply Forall_true].
  intros o _. by refine (only_call _ (KPath o) _).
Qed.

Lemma doctor_json strict tr code :
  let c := Command.Doctor strict true in
  traces (let! x := doctor_command bundled m euid strict true in finish x) tr code →
  ∃ ok, code = Some ok
    ∧ (json_answer c ok (printed tr) ∨ plain_answer c ok (printed tr) ∧ ∀ e, e ∈ tr → ¬ talks e).
Proof.
  intros c [(t1 & t2 & w & -> & Hq & _ & Ha)|(ok & -> & Hp & Hs)]%(paths_first _ c); [|eauto].
  rewrite printed_app, Hq. apply traces_bind in Ha as (t3 & t4 & x & -> & Ha & Hx).
  apply traces_bind in Ha as (t5 & t6 & made & -> & Hm & Ha).
  apply traces_bind in Hm as (t7 & t8 & r & -> & Hm%(quiet_prints _ _ _ (create_quiet _)) & [-> ->]).
  apply traces_bind in Ha as (t9 & t10 & out & -> & [Ho ->]%println_traces & Ha).
  rewrite !printed_app, Hm, Ho. cbn [app printed omap list_omap].
  set (report := run_doctor bundled m w (config_or_default m w) strict) in *.
  exists (dr_ok report).
  assert (code = Some (dr_ok report) ∧ printed t10 ++ printed t4
    = if dr_ok report then [] else [(false, "watchme: configuration error: doctor reported problems" +:+ nl)])
    as [-> Ht].
  { destruct (dr_ok report); destruct Ha as [-> ->].
    - by destruct Hx as [-> ->].
    - by destruct Hx as (? & ? & -> & -> & ->). }
  split; [done|]. left. rewrite Ht. by apply (answer_report c strict w).
Qed.

Lemma providers_json tr code :
  let c := Command.Providers true in
  traces (let! x := providers_command bundled m euid true in finish x) tr code →
  ∃ ok, code = Some ok
    ∧ (json_answer c ok (printed tr) ∨ plain_answer c ok (printed tr) ∧ ∀ e, e ∈ tr → ¬ talks e).
Proof.
  intros c [(t1 & t2 & w & -> & Hq & Hs & Ha)|(ok & -> & Hp & Hs)]%(paths_first _ c); [|eauto].
  rewrite printed_app, Hq. apply traces_bind in Ha as (t3 & t4 & x & -> & Ha & Hx).
  apply traces_bind in Ha as (t5 & t6 & rows & -> & [-> ->] & Ha).
  destruct (list_providers bundled m (config_or_default m w)) as [rows|message] eqn:E; cbn [map_err] in Ha.
  - apply println_traces in Ha as [Ho ->]. destruct Hx as [-> ->]. exists true. split; [done|]. left.
    cbn [app]. rewrite printed_app, Ho. by apply (answer_envelope c true (providers_envelope rows)).
  - destruct Ha as [-> ->]. destruct Hx as (? & ? & -> & -> & ->). exists false. split; [done|]. right.
    split; [by apply (answer_no_providers c w)|]. intros e. rewrite elem_of_app.
    intros [He|He]; [by apply Hs|]. apply list_elem_of_singleton in He as ->. by intros [].
Qed.

(** C35: With [--json], [status], [list], [stop], [pause], [resume] and [providers] print
    exactly one line on the standard output, the JSON text of an envelope whose [ok] field
    is the exit status, for every answer of the daemon and for none.  [doctor] prints its
    report as such an envelope, and adds a plain line on the error output when it found
    problems.  The option is not honoured in two cases, both before anything is asked of the
    daemon: when the paths cannot be determined, and when [providers] cannot load its
    manifests; then only a plain line is printed on the error output. *)
Theorem json_answer_exact fuel c tr code :
  wants_json c = true →
  traces (main to_string_pretty bundled m euid fuel c) tr code →
  ∃ ok, code = Some ok
    ∧ (json_answer c ok (printed tr) ∨ plain_answer c ok (printed tr) ∧ ∀ e, e ∈ tr → ¬ talks e).
Proof.
  intros Hj Ht. unfold main in Ht. destruct c; try discriminate Hj; cbn in Hj; subst; cbn [run] in Ht;
    try (by eapply admin_json in Ht); try (by apply doctor_json); try (by apply providers_json).
  destruct (negb (bool_decide (is_Some id)) && negb all); [|by eapply admin_json in Ht].
  destruct Ht as (? & ? & -> & -> & ->). exists false. split; [done|]. left.
  by eapply (answer_envelope _ false (error_envelope _)).
Qed.
End Commands.

(** ** Following a growing log

    A quiet machine: every path exists as it is spelled, and no daemon listens. *)
Definition quiet_path (o : PathOp) : PathAns o :=
  match o return PathAns o with
  | PStat _ => Found
  | PCanonicalize p => Ok p
  | POpenRoot _ _ | POpenat _ _ _ _ => Ok 3
  | PMkdirat _ _ _ => Existed
  | PFchmod _ _ => Ok tt
  | PFstat _ => Ok (0, 448)
  | PStatat _ _ _ => NoEntry
  end.

Definition quiet_client (o : ClientOp) : ClientAns o :=
  match o return ClientAns o with
  | CPath o => quiet_path o
  | CExe => Ok "/usr/bin/watchme"
  | COpenLog _ | CChmodLog | CSpawn _ | CRuntime => Ok tt
  | CNow => 0
  | CSleep _ | CKill => tt
  | CConnect _ | CWrite _ _ => Herdr.Ready (Err "No such file or directory")
  | CRead _ => Herdr.Ready (Err "closed")
  | CTryWait => Ok None
  | CWait => Err "no child"
  | CReadLog _ _ => None
  end.

Definition quiet_answer (o : CliOp) : CliAns o :=
  match o return CliAns o with
  | KPath o => quiet_path o
  | KDaemon o => quiet_client o
  | KMakeDirs _ | KCreateFile _ | KRuntime | KRunDaemon _ _ | KWriteMarker _ _ => Ok tt
  | KLogRead _ _ => Ok []
  | KLogSize => None
  | KLogFollow _ _ _ => Ok ([], 0)
  | KNow => ""
  | KExists _ => false
  | KReadText _ => Err "absent"
  | KStdin _ => None
  | KInstallHook _ _ | KRemoveHook _ _ => Ok false
  | KDetect => Err (Planner.UnsupportedContext "")
  | KOut _ | KErr _ | KChmodDir _ _ | KChmodFile _ _ | KLogRetain _ _ | KSleep _ => tt
  end.

(** The log as its follower meets it: its bytes, what is appended between the first
    reading and the measuring of its size, and what is appended during each wait. *)
Record LogWorld : Type := mkLogWorld { lw_file : list Z; lw_gap : list Z; lw_waits : list (list Z) }.

Section Follow.
Context `{RegexCrate} `{AuditCodec} `{!AuditCodecLaws} `{Rfc3339} `{CliJson}.
Context (line : AuditEvent → string) (line_text : ∀ e, event_text e = Ok (line e)).

Definition log_world (o : CliOp) (s : LogWorld) : LogWorld * CliAns o :=
  match o return LogWorld * CliAns o with
  | KLogRead id n =>
      (mkLogWorld (lw_file s ++ lw_gap s) [] (lw_waits s), AuditLog.read_lines id n (Some (lw_file s)))
  | KLogSize => (s, Some (Z.of_nat (length (lw_file s))))
  | KLogFollow offset id n => (s, AuditLog.follow_from offset id n (Some (lw_file s)))
  | KSleep _ => (mkLogWorld (lw_file s ++ default [] (head (lw_waits s))) (lw_gap s) (tail (lw_waits s)), tt)
  | o => (s, quiet_answer o)
  end.

Definition lines_of (es : list AuditEvent) : list (bool * string) := (λ e, (true, line e +:+ nl)) <$> es.

Lemma first_reading id es l :
  holds es l →
  AuditLog.read_lines id LOG_LINES (Some l)
  = let held := List.filter (for_watcher id) (redact_event <$> es) in
    Ok (redact_event <$> drop (length held - 200) held).
Proof. intros Hl. unfold AuditLog.read_lines. by rewrite (holds_read es). Qed.

Lemma fits_buffer ess ls :
  Forall2 (λ es l, holds es l ∧ Z.of_nat (length l) ≤ 64 * 1024) ess ls →
  Forall2 (λ es l, holds es l ∧ (length l ≤ FOLLOW_BYTES)%nat) ess ls.
Proof. intros Hb. eapply Forall2_impl; [exact Hb|]. intros es l [? ?]. split; [done|]. unfold FOLLOW_BYTES. lia. Qed.

#[local] Strategy opaque [FOLLOW_BYTES LOG_LINES AuditLog.follow_from AuditLog.read_lines].

Lemma events_printed es s :
  printed (converse log_world (for_each print_event es) s).1 = lines_of es
  ∧ (converse log_world (for_each print_event es) s).2 = Done tt
  ∧ (Effects.interp log_world (for_each print_event es) s).1 = s.
Proof.
  induction es as [|e es IH]; [done|]. cbn [for_each].
  replace (print_event e) with (println (line e)) by (unfold print_event; by rewrite line_text).
  change (exit_bind (println (line e)) (λ _, for_each print_event es))
    with (Vis (Ans := CliAns) (KOut (line e +:+ nl)) (λ _, for_each print_event es)).
  cbn. destruct (converse log_world (for_each print_event es) s) as [tr r].
  destruct IH as (IH1 & IH2 & IH3). cbn in *. split_and!; [exact (f_equal (cons (true, line e +:+ nl)) IH1)|done..].
Qed.

(** The events of each batch that concern the watcher, as they are printed. *)
Definition reported (id : option string) (es : list AuditEvent) : list (bool * string) :=
  lines_of (List.filter (for_watcher id) (redact_event <$> es)).

Lemma follow_batch es l l0 id :
  holds es l → (length l ≤ FOLLOW_BYTES)%nat →
  AuditLog.follow_from (Z.of_nat (length l0)) id FOLLOW_BYTES (Some (l0 ++ l))
  = Ok (List.filter (for_watcher id) (redact_event <$> es), Z.of_nat (length (l0 ++ l))).
Proof.
  intros Hl Hm. rewrite <- (app_nil_r l) at 1.
  rewrite follow_text by (eauto using holds_is_text). rewrite <- (app_nil_r l) at 1.
  by rewrite (holds_lines es), length_app, app_nil_r.
Qed.

Lemma follow_loop_prints ess ls l0 id :
  Forall2 (λ es l, holds es l ∧ (length l ≤ FOLLOW_BYTES)%nat) ess ls →
  let run := converse log_world (follow_loop (length ls) id (Z.of_nat (length l0))) (mkLogWorld l0 [] ls) in
  printed run.1 = concat (reported id <$> ess).
Proof.
  intros Hb. revert l0. induction Hb as [|es l ess ls [Hl Hm] _ IH]; intros l0; [done|]. cbn zeta in *.
  cbn [length follow_loop]. unfold exit_bind, kcall, configured, of_result.
  cbn [bind call converse log_world lw_file lw_waits lw_gap head tail default].
  rewrite (follow_batch es) by done. cbn [map_err bind fst snd].
  change (Datatypes.id l) with l.
  destruct (converse log_world (bind (for_each print_event _) _) _) as [tr r] eqn:E.
  apply (f_equal fst) in E. rewrite converse_bind in E. cbn [fst] in E |- *.
  change (printed tr = reported id es ++ concat (reported id <$> ess)).
  destruct (events_printed (List.filter (for_watcher id) (redact_event <$> es)) (mkLogWorld (l0 ++ l) [] ls))
    as (Hp & Hr & Hs).
  rewrite Hr, Hs in E. rewrite <- E, printed_app, IH. by rewrite Hp.
Qed.

(** C36: [logs --follow] on a log of complete records prints the last 200 events of the
    watcher that the log holds when it is read first.  If what is appended during each wait
    is whole records of at most 64 KiB together, it then prints every event of the watcher
    appended during its waits, exactly once and in order; both conditions are needed
    ([AuditLog.follow_drops_straddling_record]).  Whatever is appended between the first
    reading and the measuring of the size of the file is never printed. *)
Theorem follow_prints_appends id es0 l0 gap ess ls :
  holds es0 l0 →
  Forall2 (λ es l, holds es l ∧ Z.of_nat (length l) ≤ 64 * 1024) ess ls →
  let run := converse log_world (follow_logs (length ls) id) (mkLogWorld l0 gap ls) in
  let held := List.filter (for_watcher id) (redact_event <$> es0) in
  printed run.1 = lines_of (redact_event <$> drop (length held - 200) held) ++ concat (reported id <$> ess).
Proof.
  intros Hr%(first_reading id) Hb. cbn zeta. unfold follow_logs, read_log, exit_bind, kcall, configured, of_result.
  cbn [bind call converse log_world lw_file lw_waits lw_gap]. rewrite Hr. cbn [map_err bind].
  set (existing := redact_event <$> drop _ _).
  destruct (converse log_world (bind (for_each print_event _) _) _) as [tr r] eqn:E.
  apply (f_equal fst) in E. rewrite converse_bind in E. cbn [fst] in E |- *.
  change (printed tr = lines_of existing ++ concat (reported id <$> ess)).
  destruct (events_printed existing (mkLogWorld (l0 ++ gap) [] ls)) as (Hp & Hd & Hs).
  rewrite Hd, Hs in E. rewrite <- E, printed_app, Hp. f_equal.
  cbn [bind call converse log_world lw_file default].
  pose proof (follow_loop_prints ess ls (l0 ++ gap) id (fits_buffer _ _ Hb)) as Hf. cbn zeta in Hf.
  destruct (converse log_world (follow_loop _ _ _) _) as [tr' r']. exact Hf.
Qed.
End Follow.

(** ** A log that grows while it is followed *)
Definition demo_cli_json : CliJson := {|
  value_text v := match get_field "ok" v with Some (VBool true) => "{ok}" | _ => "{failed}" end;
  value_pretty _ := Ok "";
  value_of_text _ := Err "not JSON";
  response_value _ := VNull;
  event_text e := Ok (recorded_at e);
  hook_payload _ := None;
|}.

(** Of three events, the second is appended in the gap. *)
Lemma follow_prints_appends_witness :
  let _ : RegexCrate := AuditLog.demo_regex in
  let _ : AuditCodec := AuditLog.demo_codec in
  let _ : Rfc3339 := AuditLog.demo_rfc in
  let _ : CliJson := demo_cli_json in
  let run := converse log_world (follow_logs 1 (Some "w"))
    (mkLogWorld (records_bytes [[123; 97; 125]]) (records_bytes [[123; 98; 125]]) [records_bytes [[123; 99; 125]]]) in
  printed run.1 = [(true, "a" +:+ nl); (true, "now" +:+ nl)]
  ∧ AuditLog.read_lines (Some "w") LOG_LINES (Some (records_bytes [[123; 97; 125]; [123; 98; 125]; [123; 99; 125]]))
    = Ok [demo_event "a"; demo_event "b"; chain_event "now" demo_chain].
Proof.
  intros re co rf cj run. split; [|vm_compute; reflexivity]. unfold run.
  refine (follow_prints_appends (H1 := AuditLog.demo_codec_laws) (λ e, recorded_at e) (λ e, eq_refl) (Some "w") [demo_event "a"] (records_bytes [[123; 97; 125]])
            (records_bytes [[123; 98; 125]]) [[chain_event "now" demo_chain]] [records_bytes [[123; 99; 125]]] _ _).
  - apply demo_holds; reflexivity.
  - constructor; [split|constructor]; [apply demo_holds; reflexivity|].
    change (length (records_bytes [[123; 99; 125]])) with 4%nat. lia.
Defined.

(** ** A command without a daemon *)
Section Demo.
Let rb : RegexBuild := toy_regex.
Let td : TomlDecode := toy_toml.
Let sh : Sha256Hex := toy_digest.
Let tp : TomlParse := demo_toml.
Let rc : RegexCrate := AuditLog.demo_regex.
Let rf : Rfc3339 := AuditLog.demo_rfc.
Let cj : CliJson := demo_cli_json.
#[local] Existing Instances rb td sh tp rc rf cj.

Definition demo_main (m : Machine) (c : Command) : CliProg (option bool) :=
  main (λ _, None) [] m 1000 100 c.
Definition demo_process (m : Machine) (c : Command) : list (Ev CliAns) * option bool :=
  converse (λ o (s : unit), (s, quiet_answer o)) (demo_main m c) tt.
End Demo.

(** A machine without a home directory. *)
Definition homeless : Machine :=
  mkMachine (mh_exists demo_machine) (mh_mode demo_machine) (λ _, None) (mh_sh demo_machine)
    (mh_json demo_machine) (mh_layer demo_machine) (mh_manifests demo_machine).

(** Without [HOME] the answer to [--json] is not JSON. *)
Example json_not_honoured :
  printed (demo_process homeless (Command.Status None true)).1
  = [(false, "watchme: configuration error: HOME is not set" +:+ nl)].
Proof. vm_compute. reflexivity. Qed.

(** A watcher ID is used as a path. *)
Example snapshot_escapes paths :
  state_dir paths = [RootDir; Normal "state"] →
  snapshot_path paths "/etc/app" = [RootDir; Normal "etc"; Normal "app.json"]
  ∧ snapshot_path paths "../../app"
    = [RootDir; Normal "state"; Normal "snapshots"; ParentDir; ParentDir; Normal "app.json"].
Proof. unfold snapshot_path. by intros ->. Qed.

(** A doctor that finds problems prints its report and a plain line. *)
Example doctor_json_two_lines :
  printed (demo_process demo_machine (Command.Doctor true true)).1
  = [(true, "{failed}" +:+ nl); (false, "watchme: configuration error: doctor reported problems" +:+ nl)].
Proof. vm_compute. reflexivity. Qed.

Lemma json_answer_exact_witness :
  let run := demo_process demo_machine (Command.Status None true) in
  run.2 = Some false
  ∧ ∃ v, printed run.1 = [(true, value_text (CliJson := demo_cli_json) v +:+ nl)] ∧ envelope false v.
Proof.
  intros run. assert (run.2 = Some false) as E by (vm_compute; reflexivity). split; [exact E|].
  assert (printed run.1 = [(true, "{failed}" +:+ nl)]) as Hout by (vm_compute; reflexivity).
  assert (traces (demo_main demo_machine (Command.Status None true)) run.1 run.2) as Ht
    by (unfold run, demo_process; apply converse_traces).
  clearbody run. unfold demo_main in Ht.
  destruct (json_answer_exact (λ _, None) [] demo_machine 1000 100 (Command.Status None true) run.1 run.2 eq_refl Ht)
    as (ok & Hok & [Hj|[Hp _]]); rewrite E in Hok; injection Hok as <-; [rewrite Hout in Hj |- *|rewrite Hout in Hp].
  - apply status_answer in Hj as (v & Hv & He). exists v. split; [exact Hv|exact He].
  - apply plain_on_error in Hp as [message Hp]. discriminate Hp.
Defined.

