(* ===== verification/TrustedParent.v ===== *)
(** * The trusted parent directory (src/src/store.rs)

    Before the store touches a file it opens the directory that holds it, from the root
    down and without following links, and refuses a directory that somebody else owns or
    may write; the names of its temporary and quarantined files are made here too. *)
From S2P Require Import Prelude Text Effects Mux Actuator Services Paths.
From stdpp Require Import pretty.

Local Open Scope Z_scope.

(** The two kinds of refusal: the store's own, and an error of a call. *)
Inductive ParentError : Type := Unsafe (what : string) | ParentIo (m : string).

Record TrustedParent : Type := mkParent { tp_fd : Z; tp_path : Path; tp_name : string }.

Definition io_step {A} (p : PathProg (result string A)) : PathProg (result ParentError A) :=
  let! r := p in Ret (map_err ParentIo r).

(** The loop over the components; [shown] is the path of the message. *)
Fixpoint open_components (shown : string) (p : Path) (fd : Z) : PathProg (result ParentError Z) :=
  match p with
  | [] => Ret (Ok fd)
  | RootDir :: p => open_components shown p fd
  | Normal name :: p =>
      try! next := io_step (pathcall (POpenat fd name DIRECTORY_FLAGS 0)) in
      open_components shown p next
  | _ => Ret (Err (Unsafe shown))
  end.

Section Trusted.
Context (euid : Z) (display : Path → string).

(** Mode bits 0o022: no write for the group or for others. *)
Definition verify_directory (fd : Z) (p : Path) : PathProg (result ParentError unit) :=
  try! st := io_step (pathcall (PFstat fd)) in
  Ret (fail_if (negb (st.1 =? euid) || negb (Z.land st.2 18 =? 0))
         (Unsafe ("untrusted state directory " +:+ display p))).

Definition trusted_open (p : Path) : PathProg (result ParentError TrustedParent) :=
  if negb (absolute p) then Ret (Err (Unsafe "state path must be absolute"))
  else
    try! name := lift (ok_or (path_file_name p) (Unsafe "state path has no filename")) in
    try! above := lift (ok_or (parent p) (Unsafe "state path has no parent")) in
    try! above := io_step (physicalize_existing_prefix above) in
    try! root := io_step (pathcall (POpenRoot DIRECTORY_FLAGS 0)) in
    try! fd := open_components (display above) above root in
    try! _ := verify_directory fd above in
    Ret (Ok (mkParent fd above name)).
End Trusted.

(** [nonce]: the nanoseconds since the epoch. *)
Definition generated_name (name label : string) (pid nonce : Z) : string :=
  name +:+ "." +:+ label +:+ "-" +:+ pretty pid +:+ "-" +:+ pretty nonce.
Definition temporary_name (name : string) (pid nonce : Z) : string := generated_name name "tmp" pid nonce.
Definition quarantine_name (name : string) (pid nonce : Z) : string := generated_name name "corrupt" pid nonce.

(** ** What an opened parent guarantees *)

(** The conversation of a walk that creates nothing. *)
Inductive opened : Z → list string → list (Ev PathAns) → Z → Prop :=
| opened_end fd : opened fd [] [] fd
| opened_step fd name names flags next tr last :
    DIRECTORY ∈ flags → NOFOLLOW ∈ flags → opened next names tr last →
    opened fd (name :: names) (existT (POpenat fd name flags 0) (Ok next) :: tr) last.

Lemma io_step_Ok {A} (p : PathProg (result string A)) tr a :
  traces (io_step p) tr (Ok a) ↔ traces p tr (Ok a).
Proof.
  unfold io_step. rewrite traces_bind. split.
  - intros (tr1 & tr2 & [x|e] & -> & Hp & [-> Hx]); [|done]. injection Hx as ->. by rewrite app_nil_r.
  - intros Hp. exists tr, [], (Ok a). by rewrite app_nil_r.
Qed.

Lemma open_components_opened shown p fd tr last :
  traces (open_components shown p fd) tr (Ok last) → opened fd (names p) tr last.
Proof.
  revert fd tr. induction p as [|[| | |name] p IH]; intros fd tr; cbn [open_components names omap].
  - intros [-> [= <-]]. constructor.
  - apply IH.
  - by intros [_ ?].
  - by intros [_ ?].
  - intros (tr1 & tr2 & next & -> & ->%io_step_Ok%(pathcall_traces (POpenat fd name DIRECTORY_FLAGS 0)) & Hr)%traces_try_Ok.
    cbn. constructor; [set_solver|set_solver|by apply IH].
Qed.

(** The file at a path lies directly in a directory that was reached from the root one
    name at a time without following links, and that belongs to the user and is writable
    by nobody else. *)
Definition trusted (euid : Z) (p : Path) (t : TrustedParent) (tr : list (Ev PathAns)) : Prop :=
  ∃ above, parent p = Some above ∧ absolute p = true ∧ path_file_name p = Some (tp_name t)
    ∧ clean above ∧ clean (tp_path t)
    ∧ (∃ existing below physical, above = existing ++ (Normal <$> below)
         ∧ tp_path t = physical ++ (Normal <$> below)
         ∧ ∃ l root steps mode,
             tr = l ++ [existT (PCanonicalize existing) (Ok physical); existT (POpenRoot DIRECTORY_FLAGS 0) (Ok root)]
                  ++ steps ++ [existT (PFstat (tp_fd t)) (Ok (euid, mode))]
             ∧ opened root (names (tp_path t)) steps (tp_fd t) ∧ Z.land mode 18 = 0).

(** When the store opens the directory of a file it has walked to it from the root,
    one directory at a time and without following a link, along the canonical form of the
    longest existing part of its path, and the directory it reached belongs to the
    effective user and cannot be written by the group or by others. *)
Theorem trusted_parent_verified euid display p t tr :
  traces (trusted_open euid display p) tr (Ok t) → trusted euid p t tr.
Proof.
  unfold trusted_open. destruct (absolute p) eqn:Ha; [|by intros [_ ?]]. cbn [negb].
  intros (tr1 & tr2 & name & -> & [-> Hn] & Hr)%traces_try_Ok.
  apply traces_try_Ok in Hr as (tr3 & tr4 & above & -> & [-> Hp] & Hr).
  apply traces_try_Ok in Hr as (tr5 & tr6 & full & -> & Hph%io_step_Ok & Hr).
  apply physicalize_spec in Hph as (existing & below & physical & Hab & -> & Hf & Hc1 & Hc2).
  apply traces_try_Ok in Hr as (tr7 & tr8 & root & -> & ->%io_step_Ok%(pathcall_traces (POpenRoot DIRECTORY_FLAGS 0)) & Hr).
  apply traces_try_Ok in Hr as (steps & tr10 & fd & -> & Ho%open_components_opened & Hr).
  apply traces_try_Ok in Hr as (tr11 & tr12 & [] & -> & Hv & [-> [= ->]]).
  unfold verify_directory in Hv.
  apply traces_try_Ok in Hv as (tr13 & tr14 & [uid mode] & -> & ->%io_step_Ok%(pathcall_traces (PFstat fd)) & [-> Hs]).
  symmetry in Hs, Hn, Hp. apply ok_or_Ok in Hn, Hp. cbn in Hs. inv_watch.
  exists (existing ++ (Normal <$> below)). cbn [tp_fd tp_path tp_name]. split_and!; try done.
  exists existing, below, physical. split; [done|]. split; [done|].
  exists (misses existing (reverse below) ++ [existT (PStat existing) Found]), root, steps, mode.
  split; [|done]. cbn. rewrite <- !app_assoc. cbn. by rewrite <- ?app_assoc.
Qed.

(** A generated name is never the name of the file itself, as the writer requires. *)
Lemma generated_name_differs name label pid nonce : name ≠ generated_name name label pid nonce.
Proof.
  unfold generated_name. intros He%(f_equal String.length). rewrite !string_length_app in He.
  change (String.length ".") with 1%nat in He. lia.
Qed.

Lemma trusted_parent_verified_witness :
  let run := converse demo_path_world
    (trusted_open 1000 (λ _, "state") (components "/home/u/.local/state/watchme/watchers.json")) tt in
  ∃ t, run.2 = Ok t ∧ tp_name t = "watchers.json" ∧ tp_fd t = 8
    ∧ trusted 1000 (components "/home/u/.local/state/watchme/watchers.json") t run.1.
Proof.
  intros run.
  pose proof (converse_traces demo_path_world
    (trusted_open 1000 (λ _, "state") (components "/home/u/.local/state/watchme/watchers.json")) tt) as Ht.
  change (converse _ _ _) with run in Ht.
  destruct (run.2) as [t|e] eqn:E; [|vm_compute in E; discriminate].
  exists t. split; [reflexivity|]. assert (tp_name t = "watchers.json" ∧ tp_fd t = 8) as [Hn Hf]
    by (vm_compute in E; injection E as <-; done).
  pose proof (trusted_parent_verified 1000 (λ _, "state") _ t run.1 Ht) as Hv.
  split_and!; first [reflexivity|assumption].
Defined.
