(* ===== verification/HookFiles.v ===== *)
(** * The files of the Claude hooks (src/src/hooks/claude.rs, file checks of
      src/src/agents/codex.rs)

    The checks, reads and writes around the pure code of [Hooks] and [Codex]: the
    settings are replaced through a temporary file, markers are appended, transcripts and
    rollouts are compared with what was bound. *)
From S2P Require Import Prelude Json Text Effects Actuator Identity State Process Mux Manifest Linux Hooks Host Attach.
From S2P Require Import Utf8 AuditLog Target Paths Doctor.
From stdpp Require Import pretty.
From Stdlib Require Import Ascii.

Local Open Scope Z_scope.

(** ** Calls *)
Inductive FileOp : Type :=
| FPath (o : PathOp)
| FExists (p : Path)
| FLstat (p : Path)
| FUid
| FRead (p : Path)
| FCreateNew (p : Path)
| FOpenAppend (p : Path)
| FWrite (text : string)
| FSync
| FRename (from to : Path)
| FLength
| FOpenRead (p : Path)
| FFstat
| FReadAll.

(** Files are created with mode 0600; writes go to the file that was opened last.  The
    length is that of the metadata read last, the device and inode and the bytes are those
    of the file opened last. *)
Definition FileAns (o : FileOp) : Type :=
  match o with
  | FPath o => PathAns o
  | FExists _ => bool
  | FLstat _ => result string Meta
  | FUid => Z
  | FRead _ => result string string
  | FCreateNew _ | FOpenAppend _ | FWrite _ | FSync | FRename _ _ | FOpenRead _ => result string unit
  | FLength => Z
  | FFstat => result string (Z * Z)
  | FReadAll => result string (list Z)
  end.

Abbreviation FileProg := (Prog FileAns).
Definition fcall (o : FileOp) : FileProg (FileAns o) := call o.

(** serde_json: the text of the settings. *)
Class SettingsText : Type := {
  parse_settings : string → result string Value;
  settings_text : Value → result string string;
}.

(** ** Checks *)
Definition check_parent (settings : Path) : FileProg (result string unit) :=
  try! above := lift (ok_or (parent settings) "settings lacks parent") in
  try! above := Target.interp (λ o, fcall (FPath o)) (physicalize_existing_prefix above) in
  try! m := fcall (FLstat above) in
  if negb (hm_is_dir m) then Ret (Err "configuration parent is not a directory")
  else
    let! uid := (if Z.land (hm_mode m) 18 =? 0 then fcall FUid else Ret (hm_uid m)) in
    Ret (fail_if (negb (Z.land (hm_mode m) 18 =? 0) || negb (hm_uid m =? uid))
           "Claude configuration directory must be owned and not group/world writable").

Definition bad_mode (private : bool) (m : Meta) : bool :=
  negb (Z.land (hm_mode m) (if private then OWNER_ONLY else 18) =? 0).

Definition checked_file (p : Path) (label : string) (private : bool) : FileProg (result string Meta) :=
  try! m := fcall (FLstat p) in
  if negb (hm_is_file m) then Ret (Err (label +:+ " is not a regular file"))
  else
    let! uid := (if bad_mode private m then Ret (hm_uid m) else fcall FUid) in
    if bad_mode private m || negb (hm_uid m =? uid)
    then Ret (Err (label +:+ " must be "
                   +:+ if private then "owner-only" else "owned and not group/world writable"))
    else Ret (Ok m).

Section Settings.
Context `{SettingsText} (pid : Z).

Definition read_settings (settings : Path) : FileProg (result string Value) :=
  let! there := fcall (FExists settings) in
  if negb there then Ret (Ok (VObject []))
  else
    try! _ := checked_file settings "Claude settings" false in
    try! text := fcall (FRead settings) in
    Ret (map_err (λ e, "invalid Claude settings JSON: " +:+ e) (parse_settings text)).

(** ** The replacement of the settings *)
Definition TEMP_ATTEMPTS : nat := 64.
Definition temp_candidate (above : Path) (attempt : Z) : Path :=
  Paths.join above [Normal (".watchme-settings-" +:+ pretty pid +:+ "-" +:+ pretty attempt +:+ ".tmp")].

(** The first candidate, from [attempt] on, that does not exist. *)
Fixpoint free_candidate (n : nat) (above : Path) (attempt : Z) : FileProg (option Path) :=
  match n with
  | O => Ret None
  | S n =>
      let! there := fcall (FExists (temp_candidate above attempt)) in
      if (there : bool) then free_candidate n above (attempt + 1)
      else Ret (Some (temp_candidate above attempt))
  end.

Definition atomic_json (p : Path) (v : Value) : FileProg (result string unit) :=
  try! above := lift (ok_or (parent p) "settings lacks parent") in
  try! _ := check_parent p in
  try! body := lift (settings_text v) in
  let! candidate := free_candidate TEMP_ATTEMPTS above 0 in
  try! temp := lift (ok_or candidate "unable to allocate private settings temporary file") in
  try! _ := fcall (FCreateNew temp) in
  try! _ := fcall (FWrite body) in
  try! _ := fcall FSync in
  fcall (FRename temp p).

(** Whether the settings changed. *)
Definition install_hook (settings marker : Path) : FileProg (result string bool) :=
  try! _ := check_parent settings in
  try! command := lift (stop_failure_command (path_text marker)) in
  try! root := read_settings settings in
  try! changed := lift (install_root command root) in
  match changed with
  | None => Ret (Ok false)
  | Some root => try! _ := atomic_json settings root in Ret (Ok true)
  end.

Definition remove_hook (settings marker : Path) : FileProg (result string bool) :=
  try! command := lift (stop_failure_command (path_text marker)) in
  try! root := read_settings settings in
  match remove_root command root with
  | None => Ret (Ok false)
  | Some root => try! _ := atomic_json settings root in Ret (Ok true)
  end.
End Settings.

(** ** Markers *)
Section Marker.
Context `{MarkerCodec}.

Definition newline : string := String "010" EmptyString.

Definition append_marker (p : Path) (m : HookMarker) : FileProg (result string unit) :=
  if negb (valid_marker m) then Ret (Err "invalid hook marker")
  else
    try! _ := check_parent p in
    let! there := fcall (FExists p) in
    try! _ := (if (there : bool) then checked_file p "hook marker" true
               else Ret (Ok (mkMeta false false 0 0 0 0))) in
    try! encoded := lift (encode_marker m) in
    if 8192 <? len encoded then Ret (Err "hook marker exceeds size limit")
    else
      try! _ := fcall (FOpenAppend p) in
      try! _ := checked_file p "hook marker" true in
      try! _ := fcall (FWrite encoded) in
      try! _ := fcall (FWrite newline) in
      fcall FSync.

(** [BufRead::lines]: a line that is not UTF-8 is an error. *)
Definition marker_lines (file : list Z) : list (result string string) :=
  (λ line, if utf8_ok line then Ok (string_of_bytes line)
           else Err "stream did not contain valid UTF-8") <$> str_lines file.

Definition read_markers (p : Path) : FileProg (result string (list HookMarker)) :=
  try! m := checked_file p "hook marker" true in
  let! n := fcall FLength in
  if 1048576 <? n then Ret (Err "hook marker exceeds size limit")
  else
    try! _ := fcall (FOpenRead p) in
    try! opened := fcall FFstat in
    if negb (opened.1 =? hm_dev m) || negb (opened.2 =? hm_ino m)
    then Ret (Err "hook marker changed while opening")
    else
      try! file := fcall FReadAll in
      Ret (Hooks.read_lines [] (marker_lines file)).
End Marker.

(** ** Transcripts *)
Definition transcript_matches_reference (path expected : string) : HostProg bool :=
  let! actual := ocall (OCanonical path) in
  match actual with
  | None => Ret false
  | Some actual =>
      if negb (path_eqb actual expected) then Ret false
      else let! m := checked_private_file actual in Ret (match m with Some _ => true | None => false end)
  end.

Definition transcript_matches_binding (path expected : string) (b : TranscriptBinding) : HostProg bool :=
  let! canonical := ocall (OCanonical path) in
  match canonical with
  | None => Ret false
  | Some canonical =>
      let! expected := ocall (OCanonical expected) in
      match expected with
      | None => Ret false
      | Some expected =>
          if negb (path_eqb canonical expected) || negb (String.eqb canonical (tb_canonical_path b)) then Ret false
          else
            let! current := bind_transcript canonical in
            Ret (match current with
                 | Some c => (tb_device c =? tb_device b) && (tb_inode c =? tb_inode b)
                             && String.eqb (tb_canonical_path c) (tb_canonical_path b)
                 | None => false
                 end)
      end
  end.

(** ** Rollouts *)
Definition process_cwd_matches (linux : bool) (p : Z) (expected : string) : HostProg bool :=
  if linux then
    let! actual := ocall (OLink (proc_path "/proc" p "cwd")) in
    match actual with
    | None => Ret false
    | Some actual =>
        if path_eqb actual expected then Ret true
        else let! c := ocall (OCanonical expected) in
             Ret (match c with Some c => path_eqb c actual | None => false end)
    end
  else
    let! c := ocall (OCanonical expected) in
    match c with
    | None => Ret false
    | Some c => let! m := ocall (OStat c) in Ret (match m with Some m => hm_is_dir m | None => false end)
    end.

Definition owner_only_bound_regular (path cwd : string) : HostProg (option string) :=
  some! m := ocall (OLstat path) in
  if negb (hm_is_file m) || negb (Z.land (hm_mode m) OWNER_ONLY =? 0) then Ret None
  else
    let! uid := ocall OUid in
    if negb (hm_uid m =? uid) then Ret None
    else
      some! canonical := ocall (OCanonical path) in
      some! cwd := ocall (OCanonical cwd) in
      if negb (path_starts_with canonical cwd) then Ret None
      else
        some! opened := ocall (OStat canonical) in
        Ret (if (hm_dev opened =? hm_dev m) && (hm_ino opened =? hm_ino m) then Some canonical else None).

(** ** The settings are replaced or left alone *)
Definition looks (e : Ev FileAns) : Prop :=
  match projT1 e with
  | FPath _ | FExists _ | FLstat _ | FUid | FRead _ => True
  | _ => False
  end.
Definition no_rename (e : Ev FileAns) : Prop :=
  match projT1 e with FRename _ _ | FOpenAppend _ => False | _ => True end.

Abbreviation looking := (respects (Forall looks)).

Lemma looking_ret {A} (a : A) : looking (Ret a).
Proof. apply respects_ret. by constructor. Qed.
Lemma looking_bind {A B} (p : FileProg A) (f : A → FileProg B) : looking p → (∀ a, looking (f a)) → looking (bind p f).
Proof. apply respects_bind. intros l1 l2. apply Forall_app_2. Qed.
Lemma looking_try {E A B} (p : FileProg (result E A)) (f : A → FileProg (result E B)) :
  looking p → (∀ a, looking (f a)) → looking (prog_try p f).
Proof. intros Hp Hf. apply looking_bind; [done|]. intros [a|e]; [done|apply looking_ret]. Qed.
Lemma looking_call o : (∀ x, looks (existT o x)) → looking (fcall o).
Proof. intros Ho. apply respects_call. intros x. by constructor. Qed.

Lemma check_parent_looks p : looking (check_parent p).
Proof.
  unfold check_parent. apply looking_try; [apply looking_ret|]. intros above.
  apply looking_try.
  - intros tr r (tr0 & _ & Hx)%linked_traces. revert tr Hx.
    induction tr0 as [|[o x] tr0 IH]; intros tr; cbn; [by intros ->|].
    intros (seg & rest & -> & (? & ? & -> & -> & _) & Hr). constructor; [done|by apply IH].
  - intros full. apply looking_try; [by apply (looking_call (FLstat full))|]. intros m.
    destruct (negb (hm_is_dir m)); [apply looking_ret|]. apply looking_bind; [|intros ?; apply looking_ret].
    destruct (_ =? 0); [by apply (looking_call FUid)|apply looking_ret].
Qed.

Lemma free_candidate_looks pid n above k tr t :
  traces (free_candidate pid n above k) tr t →
  Forall looks tr ∧ ∀ temp, t = Some temp →
    ∃ l j, k ≤ j < k + Z.of_nat n ∧ temp = temp_candidate pid above j ∧ tr = l ++ [existT (FExists temp) false].
Proof.
  revert k tr. induction n as [|n IH]; intros k tr; cbn [free_candidate]; [by intros [-> ->]|].
  intros (there & tr' & -> & Hr). destruct there.
  - apply IH in Hr as [Hl Ht]. split; [by constructor|]. intros temp Hs.
    destruct (Ht temp Hs) as (l & j & Hj & -> & ->). exists (existT (FExists (temp_candidate pid above k)) true :: l), j.
    split; [lia|done].
  - destruct Hr as [-> ->]. split; [by repeat constructor|]. intros temp [= <-].
    exists [], k. split; [lia|done].
Qed.

Lemma fcall_traces o tr (x : FileAns o) : traces (fcall o) tr x ↔ tr = [existT o x].
Proof. apply traces_call. Qed.

Section Replacement.
Context `{SettingsText} (pid : Z).

(** C37: The settings of Claude are replaced as a whole or left as they are.  Writing them
    opens nothing but a temporary file that did not exist, created in the directory of the
    settings, and renames it over the settings only after the complete text was written
    and synchronised, as the last step, whose outcome is the result; any other end is an
    error before any rename. *)
Theorem settings_replaced_atomically p v tr r :
  traces (atomic_json pid p v) tr r →
  (∃ above k body l, parent p = Some above ∧ 0 ≤ k < 64 ∧ settings_text v = Ok body ∧ Forall looks l
     ∧ let temp := temp_candidate pid above k in
       tr = l ++ [existT (FExists temp) false; existT (FCreateNew temp) (Ok tt); existT (FWrite body) (Ok tt);
                  existT FSync (Ok tt); existT (FRename temp p) r])
  ∨ (∃ e, r = Err e) ∧ Forall no_rename tr.
Proof.
  assert (∀ l, Forall looks l → Forall no_rename l) as Hw.
  { intros l Hl. eapply Forall_impl; [exact Hl|]. by intros [[] ?]. }
  unfold atomic_json. intros [(e & -> & [-> _])|(tr1 & tr2 & above & -> & [-> Ha] & Hr)]%traces_try; [right; eauto|].
  symmetry in Ha. apply ok_or_Ok in Ha. cbn [app].
  apply traces_try in Hr as [(e & -> & Hc%check_parent_looks)|(tr3 & tr4 & [] & -> & Hc%check_parent_looks & Hr)];
    [right; eauto|].
  apply traces_try in Hr as [(e & -> & [-> _])|(tr5 & tr6 & body & -> & [-> Hb] & Hr)];
    [right; rewrite app_nil_r; eauto|]. cbn [app].
  apply traces_bind in Hr as (tr7 & tr8 & candidate & -> & [Hf Ht]%free_candidate_looks & Hr).
  apply traces_try in Hr as [(e & -> & [-> _])|(tr9 & tr10 & temp & -> & [-> Hk] & Hr)].
  { right. rewrite app_nil_r. split; [eauto|]. by apply Hw, Forall_app_2. }
  symmetry in Hk. apply ok_or_Ok in Hk. destruct (Ht temp Hk) as (l & k & Hj & -> & ->). cbn [app].
  set (temp := temp_candidate pid above k) in *.
  apply traces_try in Hr as [(e & -> & ->%(fcall_traces (FCreateNew temp)))|(? & tr12 & [] & -> & ->%(fcall_traces (FCreateNew temp)) & Hr)].
  { right. split; [eauto|]. apply Forall_app_2; [auto|]. apply Forall_app_2; [auto|]. by repeat constructor. }
  apply traces_try in Hr as [(e & -> & ->%(fcall_traces (FWrite body)))|(? & tr14 & [] & -> & ->%(fcall_traces (FWrite body)) & Hr)].
  { right. split; [eauto|]. apply Forall_app_2; [auto|]. apply Forall_app_2; [auto|]. by repeat constructor. }
  apply traces_try in Hr as [(e & -> & ->%(fcall_traces FSync))|(? & tr16 & [] & -> & ->%(fcall_traces FSync) & Hr)].
  { right. split; [eauto|]. apply Forall_app_2; [auto|]. apply Forall_app_2; [auto|]. by repeat constructor. }
  apply (fcall_traces (FRename temp p)) in Hr as ->.
  left. exists above, k, body, (tr3 ++ l). apply Forall_app in Hf as [Hf _].
  split_and!; [done|lia|unfold TEMP_ATTEMPTS in Hj; lia|done|by apply Forall_app_2|].
  by rewrite <- !app_assoc.
Qed.
End Replacement.

(** ** Two hooks at once *)
Inductive shuffle {A} : list A → list A → list A → Prop :=
| shuffle_nil : shuffle [] [] []
| shuffle_left x l1 l2 l : shuffle l1 l2 l → shuffle (x :: l1) l2 (x :: l)
| shuffle_right x l1 l2 l : shuffle l1 l2 l → shuffle l1 (x :: l2) (x :: l).

Lemma shuffle_app {A} (a b l1 l2 l : list A) : shuffle l1 l2 l → shuffle (a ++ l1) (b ++ l2) (a ++ b ++ l).
Proof.
  intros Hs. induction a as [|x a IH]; cbn; [|by constructor].
  induction b as [|x b IH]; cbn; [done|by constructor].
Qed.

(** The bytes a conversation appends. *)
Definition written (e : Ev FileAns) : list Z :=
  match e with existT (FWrite text) (Ok _) => byte_list text | _ => [] end.
Definition appended (tr : list (Ev FileAns)) : list Z := concat (written <$> tr).

Lemma appended_app l1 l2 : appended (l1 ++ l2) = appended l1 ++ appended l2.
Proof. unfold appended. by rewrite fmap_app, concat_app. Qed.

Lemma looks_appends l : Forall looks l → appended l = [].
Proof. induction 1 as [|[[] ?] l Hl _ IH]; try done; cbn; by rewrite IH. Qed.

Lemma checked_file_looks p label private : looking (checked_file p label private).
Proof.
  unfold checked_file. apply looking_try; [by apply (looking_call (FLstat p))|]. intros m.
  destruct (negb (hm_is_file m)); [apply looking_ret|]. apply looking_bind.
  - destruct (bad_mode private m); [apply looking_ret|by apply (looking_call FUid)].
  - intros uid. destruct (_ || _); apply looking_ret.
Qed.

Section Interleaving.
Context `{MarkerCodec}.

(** A successful append: checks and the opening, then the record, the newline, the sync. *)
Lemma append_marker_writes p m tr :
  traces (append_marker p m) tr (Ok tt) →
  ∃ e l, encode_marker m = Ok e ∧ len e ≤ 8192 ∧ appended l = []
    ∧ tr = l ++ [existT (FWrite e) (Ok tt); existT (FWrite newline) (Ok tt); existT FSync (Ok tt)].
Proof.
  unfold append_marker. destruct (negb (valid_marker m)); [by intros [_ ?]|].
  intros (tr1 & tr2 & [] & -> & H1%check_parent_looks & Hr)%traces_try_Ok.
  apply traces_bind in Hr as (tr3 & tr4 & there & -> & ->%(fcall_traces (FExists p)) & Hr).
  apply traces_try_Ok in Hr as (tr5 & tr6 & m' & -> & H5 & Hr).
  apply traces_try_Ok in Hr as (tr7 & tr8 & e & -> & [-> He] & Hr). cbn [app] in Hr.
  destruct (Z.ltb_spec 8192 (len e)); [by destruct Hr|].
  apply traces_try_Ok in Hr as (tr9 & tr10 & [] & -> & ->%(fcall_traces (FOpenAppend p)) & Hr).
  apply traces_try_Ok in Hr as (tr11 & tr12 & m'' & -> & H11%checked_file_looks & Hr).
  apply traces_try_Ok in Hr as (tr13 & tr14 & [] & -> & ->%(fcall_traces (FWrite e)) & Hr).
  apply traces_try_Ok in Hr as (tr15 & tr16 & [] & -> & ->%(fcall_traces (FWrite newline)) & ->%(fcall_traces FSync)).
  assert (appended tr5 = []) as E5.
  { destruct there; [|by destruct H5 as [-> _]]. by apply checked_file_looks, looks_appends in H5. }
  exists e, (tr1 ++ existT (FExists p) there :: tr5 ++ existT (FOpenAppend p) (Ok tt) :: tr11).
  split; [done|]. split; [done|]. split.
  - change (appended (tr1 ++ [existT (FExists p) there] ++ tr5 ++ [existT (FOpenAppend p) (Ok tt)] ++ tr11) = []).
    rewrite !appended_app, E5, (looks_appends tr1), (looks_appends tr11) by done. done.
  - rewrite <- !app_assoc. cbn. by rewrite <- !app_assoc.
Qed.

(** C38: Two hooks that append at the same time can destroy both markers.  Whatever the two
    successful appends observe, they can be interleaved so that the file receives both
    records on one line followed by an empty line; a decoder that refuses such lines makes
    the reader deliver neither. *)
Theorem marker_appends_interleave p m1 m2 tr1 tr2 :
  (∀ m e, encode_marker m = Ok e → (10 ∉ byte_list e) ∧ (13 ∉ byte_list e)) →
  traces (append_marker p m1) tr1 (Ok tt) → traces (append_marker p m2) tr2 (Ok tt) →
  ∃ tr e1 e2, shuffle tr1 tr2 tr ∧ encode_marker m1 = Ok e1 ∧ encode_marker m2 = Ok e2
    ∧ str_lines (appended tr) = [byte_list e1 ++ byte_list e2; []]
    ∧ (decode_marker (e1 +:+ e2) = None → decode_marker "" = None →
       Hooks.read_lines [] (Ok <$> [e1 +:+ e2; ""]) = Ok []).
Proof.
  intros Hline (e1 & l1 & He1 & _ & Hl1 & ->)%append_marker_writes
    (e2 & l2 & He2 & _ & Hl2 & ->)%append_marker_writes.
  exists (l1 ++ l2 ++ [existT (FWrite e1) (Ok tt); existT (FWrite e2) (Ok tt); existT (FWrite newline) (Ok tt);
                       existT (FWrite newline) (Ok tt); existT FSync (Ok tt); existT FSync (Ok tt)]), e1, e2.
  split; [apply shuffle_app; repeat constructor|]. split; [done|]. split; [done|]. split.
  - rewrite !appended_app, Hl1, Hl2. cbn [app].
    destruct (Hline _ _ He1) as [Hn1 Hc1], (Hline _ _ He2) as [Hn2 Hc2].
    replace (appended _) with (records_bytes [byte_list e1 ++ byte_list e2; []]).
    + rewrite str_lines_all; [|repeat constructor; set_solver]. cbn. rewrite strip_cr_none by set_solver. done.
    + unfold records_bytes, appended. cbn. by rewrite <- !app_assoc.
  - intros Hd1 Hd2. cbn [fmap list_fmap Hooks.read_lines rbind]. unfold keep_marker.
    rewrite Hd1, Hd2. by destruct (8192 <? len (e1 +:+ e2)), (8192 <? len "").
Qed.
End Interleaving.

(** ** From the payload to the daemon *)

(** serde_json: the text of a marker decodes to it, is UTF-8 and is one line. *)
Record codec_laws `{MarkerCodec} : Prop := {
  codec_roundtrip : ∀ m e, encode_marker m = Ok e → decode_marker e = Some m;
  codec_text : ∀ m e, encode_marker m = Ok e →
    utf8_ok (byte_list e) = true ∧ (10 ∉ byte_list e) ∧ (13 ∉ byte_list e);
}.

(** The file contents a conversation read, and the lengths it was told. *)
Definition contents_read (tr : list (Ev FileAns)) : list (list Z) :=
  omap (λ e : Ev FileAns, match e with existT FReadAll (Ok file) => Some file | _ => None end) tr.
Definition lengths_seen (tr : list (Ev FileAns)) : list Z :=
  omap (λ e : Ev FileAns, match e with existT FLength n => Some n | _ => None end) tr.

Lemma looks_read_nothing l : Forall looks l → contents_read l = [] ∧ lengths_seen l = [].
Proof.
  induction 1 as [|[[] ?] l Hl _ [IH1 IH2]]; try done; unfold contents_read, lengths_seen in *; cbn;
    by rewrite IH1, IH2.
Qed.

Section Delivered.
Context `{MarkerCodec}.

(** The reader's ends: the file is too long and not read; the markers of the bytes it read;
    the error of a check or of a call. *)
Lemma read_markers_traces p tr r :
  traces (read_markers p) tr r →
  (∃ n, lengths_seen tr = [n] ∧ 1048576 < n ∧ contents_read tr = [] ∧ r = Err "hook marker exceeds size limit")
  ∨ (∃ n file, lengths_seen tr = [n] ∧ n ≤ 1048576 ∧ contents_read tr = [file]
       ∧ r = Hooks.read_lines [] (marker_lines file))
  ∨ (contents_read tr = [] ∧ Forall (λ n, n ≤ 1048576) (lengths_seen tr) ∧ ∃ e, r = Err e).
Proof.
  unfold read_markers.
  intros [(e & -> & Hc)|(seg & rest & m & -> & Hc & Hr)]%traces_try;
    destruct (looks_read_nothing _ (checked_file_looks _ _ _ _ _ Hc)) as [HC HL].
  { right. right. rewrite HL, HC. split; [done|]. split; [constructor|by exists e]. }
  assert (∀ k, lengths_seen (seg ++ k) = lengths_seen k ∧ contents_read (seg ++ k) = contents_read k) as Happ.
  { intros k. unfold lengths_seen, contents_read in *. by rewrite !omap_app, HL, HC. }
  destruct (Happ rest) as [-> ->]. clear Happ HL HC Hc.
  apply traces_bind in Hr as (t1 & t2 & n & -> & ->%(fcall_traces FLength) & Hr).
  destruct (Z.ltb_spec 1048576 n).
  { left. exists n. by destruct Hr as [-> ->]. }
  right.
  apply traces_try in Hr as [(e & -> & ->%(fcall_traces (FOpenRead p)))|(t3 & t4 & [] & -> & ->%(fcall_traces (FOpenRead p)) & Hr)].
  { right. split; [done|]. split; [by repeat constructor|by exists e]. }
  apply traces_try in Hr as [(e & -> & ->%(fcall_traces FFstat))|(t5 & t6 & opened & -> & ->%(fcall_traces FFstat) & Hr)].
  { right. split; [done|]. split; [by repeat constructor|by exists e]. }
  destruct (_ || _).
  { right. destruct Hr as [-> ->]. split; [done|]. split; [by repeat constructor|by eexists]. }
  apply traces_try in Hr as [(e & -> & ->%(fcall_traces FReadAll))|(t7 & t8 & file & -> & ->%(fcall_traces FReadAll) & [-> ->])].
  { right. split; [done|]. split; [by repeat constructor|by exists e]. }
  left. by exists n, file.
Qed.

Lemma read_lines_accepted lines :
  Hooks.read_lines [] (Ok <$> lines) = Ok (last_n MAX_MARKERS (omap accepted_marker lines)).
Proof.
  destruct (Hooks.read_lines [] (Ok <$> lines)) as [ms|e] eqn:E.
  - apply (read_lines_spec []) in E as (ls & Hls & ->).
    assert (lines = ls) as ->; [|done]. clear -Hls. revert ls Hls.
    induction lines as [|l lines IH]; intros [|l' ls] Heq; simplify_eq/=; [done|]. f_equal. by apply IH.
  - exfalso. revert E. generalize (@nil HookMarker).
    induction lines as [|l lines IH]; intros k; cbn; [done|apply IH].
Qed.

(** After any complete UTF-8 lines, the marker of the last line is the one correlated. *)
Lemma newest_line_delivered older e m :
  codec_laws → safe_marker m → encode_marker m = Ok e → len e ≤ 8192 →
  Forall (λ line, (10 ∉ line) ∧ utf8_ok (strip_cr line) = true) older →
  ∃ ms, Hooks.read_lines [] (marker_lines (records_bytes older ++ byte_list e ++ [10])) = Ok ms
    ∧ (length ms ≤ 256)%nat ∧ correlate_marker ms (mk_session_id m) (mk_transcript_path m) = Some m.
Proof.
  intros Hlaws Hm He Hlen Hold. destruct (codec_text Hlaws _ _ He) as (Hu & Hn & Hc).
  replace (records_bytes older ++ byte_list e ++ [10]) with (records_bytes (older ++ [byte_list e]))
    by (unfold records_bytes; rewrite fmap_app, concat_app; cbn; by rewrite app_nil_r).
  unfold marker_lines. rewrite str_lines_all.
  2:{ apply Forall_app; split; [|by constructor]. eapply Forall_impl; [exact Hold|]. by intros ? []. }
  replace (_ <$> (strip_cr <$> (older ++ [byte_list e])))
    with (Ok (E := string) <$> ((string_of_bytes ∘ strip_cr <$> older) ++ [e])).
  2:{ rewrite !fmap_app. cbn. rewrite strip_cr_none, Hu, string_of_byte_list by done. f_equal.
      rewrite <- list_fmap_compose, <- list_fmap_compose. apply list_fmap_ext. intros i line Hi. cbn.
      rewrite Forall_lookup in Hold. by destruct (Hold i line Hi) as [_ ->]. }
  rewrite read_lines_accepted. eexists. split; [done|]. split.
  - unfold last_n. rewrite length_drop. unfold MAX_MARKERS. lia.
  - rewrite omap_app. cbn. unfold accepted_marker at 2.
    destruct (Z.ltb_spec 8192 (len e)); [lia|]. rewrite (codec_roundtrip Hlaws _ _ He). cbn.
    rewrite (sm_valid _ Hm). apply newest_marker_correlated.
Qed.

(** C28: a StopFailure payload that the hook accepts becomes a bounded marker without
    control characters or secret-like text.  A hook that reports success has appended
    exactly the marker's text and a newline.  If the file held complete UTF-8 lines before,
    nobody else writes to it, and the daemon gets to read it, then the daemon correlates
    exactly this marker with its session and transcript, however many older markers,
    over-long lines and broken lines the file holds; it keeps at most 256.  A file longer
    than one MiB is refused unread, so that a marker in it is not delivered, and a reader
    that does not read reports an error. *)
Theorem stop_failure_delivered payload p m trw older trr r :
  codec_laws → parse_stop_failure_payload payload = Ok m →
  traces (append_marker p m) trw (Ok tt) → traces (read_markers p) trr r →
  safe_marker m
  ∧ (∃ e, encode_marker m = Ok e ∧ appended trw = byte_list e ++ [10] ∧ len e ≤ 8192)
  ∧ (Forall (λ line, (10 ∉ line) ∧ utf8_ok (strip_cr line) = true) older →
     contents_read trr = [records_bytes older ++ appended trw] →
     ∃ ms, r = Ok ms ∧ (length ms ≤ 256)%nat
       ∧ correlate_marker ms (mk_session_id m) (mk_transcript_path m) = Some m)
  ∧ (∀ n, n ∈ lengths_seen trr → 1048576 < n →
       contents_read trr = [] ∧ r = Err "hook marker exceeds size limit")
  ∧ (contents_read trr = [] → ∃ e, r = Err e).
Proof.
  intros Hlaws Hm%payload_marker_safe (e & l & He & Hlen & Hl & ->)%append_marker_writes Hr%read_markers_traces.
  split; [done|].
  assert (appended (l ++ [existT (FWrite e) (Ok tt); existT (FWrite newline) (Ok tt); existT FSync (Ok tt)])
    = byte_list e ++ [10]) as Happ by (rewrite appended_app, Hl; cbn; by rewrite ?app_nil_r).
  rewrite Happ. split; [by exists e|]. split.
  - intros Hold Hfile.
    destruct Hr as [(n & _ & _ & Hc & _)|[(n & file & _ & _ & Hc & ->)|[Hc _]]]; rewrite Hc in Hfile; simplify_eq.
    by apply (newest_line_delivered older e m).
  - split.
    + intros n Hn Hlt. destruct Hr as [(n' & _ & _ & -> & ->)|[(n' & file & Hs & Hle & _)|(_ & Hle & _)]]; [done| |].
      * rewrite Hs in Hn. apply list_elem_of_singleton in Hn. lia.
      * rewrite Forall_forall in Hle. specialize (Hle n Hn). lia.
    + intros Hc. destruct Hr as [(? & _ & _ & _ & ->)|[(n' & file & _ & _ & Hf & _)|(_ & _ & [e' ->])]];
        [by eexists| |by eexists]. by rewrite Hf in Hc.
Qed.
End Delivered.

(** ** A private home *)
Definition demo_settings : Path := Paths.components "/home/u/.claude/settings.json".
Definition demo_marker_file : Path := Paths.components "/home/u/.claude/marker.jsonl".
Definition demo_files (o : FileOp) (s : unit) : unit * FileAns o :=
  (s, match o return FileAns o with
      | FPath o => (demo_path_world o tt).2
      | FExists p => false
      | FLstat p => Ok (mkMeta (bool_decide (p = demo_marker_file)) (negb (bool_decide (p = demo_marker_file)))
                          1 2 1000 448)
      | FUid => 1000
      | FRead _ => Err "absent"
      | FCreateNew _ | FOpenAppend _ | FWrite _ | FSync | FRename _ _ | FOpenRead _ => Ok tt
      | FLength => 8
      | FFstat => Ok (1, 2)
      | FReadAll => Ok (byte_list "torn" ++ [10] ++ byte_list "s1" ++ [10])
      end).
Definition demo_settings_text : SettingsText := {| parse_settings _ := Err ""; settings_text _ := Ok "{}" |}.

Lemma settings_replaced_atomically_witness :
  let run := converse demo_files (atomic_json (H := demo_settings_text) 7 demo_settings (VObject [])) tt in
  run.2 = Ok tt ∧ drop 5 run.1 = [
    existT (FCreateNew (temp_candidate 7 (Paths.components "/home/u/.claude") 0)) (Ok tt);
    existT (FWrite "{}") (Ok tt); existT FSync (Ok tt);
    existT (FRename (temp_candidate 7 (Paths.components "/home/u/.claude") 0) demo_settings) (Ok tt)]
  ∧ ∃ k, 0 ≤ k < 64 ∧ last run.1 = Some (existT (FRename (temp_candidate 7 (Paths.components "/home/u/.claude") k) demo_settings) run.2).
Proof.
  intros run. split; [vm_compute; reflexivity|]. split; [vm_compute; reflexivity|].
  pose proof (converse_traces demo_files (atomic_json (H := demo_settings_text) 7 demo_settings (VObject [])) tt) as Ht.
  change (converse _ _ _) with run in Ht.
  destruct (settings_replaced_atomically (H := demo_settings_text) 7 demo_settings (VObject []) run.1 run.2 Ht)
    as [(above & k & body & l & Ha & Hk & _ & _ & Htr)|[[e He] _]]; [|vm_compute in He; discriminate].
  exists k. split; [exact Hk|]. vm_compute in Ha. injection Ha as <-. rewrite Htr.
  cbn zeta. rewrite last_app. reflexivity.
Defined.

Lemma marker_appends_interleave_witness :
  let _ : MarkerCodec := toy_marker_codec in
  let run := converse demo_files (append_marker demo_marker_file toy_marker) tt in
  run.2 = Ok tt ∧ ∃ tr, shuffle run.1 run.1 tr ∧ str_lines (appended tr) = [byte_list "s1s1"; []]
    ∧ Hooks.read_lines [] [Ok "s1s1"; Ok ""] = Ok [].
Proof.
  intros codec run. assert (run.2 = Ok tt) as E by (vm_compute; reflexivity). split; [exact E|].
  pose proof (converse_traces demo_files (append_marker demo_marker_file toy_marker) tt) as Ht.
  change (converse _ _ _) with run in Ht. rewrite E in Ht.
  destruct (marker_appends_interleave demo_marker_file toy_marker toy_marker run.1 run.1)
    as (tr & e1 & e2 & Hs & He1 & He2 & Hl & Hr); [|exact Ht|exact Ht|].
  - intros m e He. cbn in He. destruct (decide (m = toy_marker)); [|discriminate]. injection He as <-.
    split; apply (bool_decide_unpack _); vm_compute; exact I.
  - vm_compute in He1, He2. injection He1 as <-. injection He2 as <-.
    exists tr. split; [exact Hs|]. split; [exact Hl|]. apply Hr; reflexivity.
Defined.

Definition demo_payload : Value := VObject [
  ("session_id", VString "s1"); ("transcript_path", VString "/t"); ("error", VString "rate_limit");
  ("hook_event_name", VString "StopFailure"); ("error_details", VString "usage limit")].

Lemma toy_marker_laws : @codec_laws toy_marker_codec.
Proof.
  split; intros m e He; cbn in *; destruct (decide (m = toy_marker)) as [->|]; simplify_eq; [done|].
  split; [reflexivity|]. split; apply (bool_decide_unpack _); vm_compute; exact I.
Qed.

Lemma stop_failure_delivered_witness :
  let _ : MarkerCodec := toy_marker_codec in
  let hook := converse demo_files (append_marker demo_marker_file toy_marker) tt in
  let reader := converse demo_files (read_markers demo_marker_file) tt in
  hook.2 = Ok tt ∧ appended hook.1 = byte_list "s1" ++ [10]
  ∧ contents_read reader.1 = [records_bytes [byte_list "torn"] ++ appended hook.1]
  ∧ ∃ ms, reader.2 = Ok ms ∧ correlate_marker ms "s1" "/t" = Some toy_marker.
Proof.
  intros codec hook reader. assert (hook.2 = Ok tt) as E by (vm_compute; reflexivity).
  assert (contents_read reader.1 = [records_bytes [byte_list "torn"] ++ appended hook.1]) as F
    by (vm_compute; reflexivity).
  pose proof (converse_traces demo_files (append_marker demo_marker_file toy_marker) tt) as Hw.
  pose proof (converse_traces demo_files (read_markers demo_marker_file) tt) as Hr.
  change (converse demo_files (append_marker _ _) tt) with hook in Hw. rewrite E in Hw.
  change (converse demo_files (read_markers _) tt) with reader in Hr.
  destruct (stop_failure_delivered (Some demo_payload) demo_marker_file toy_marker hook.1
              [byte_list "torn"] reader.1 reader.2)
    as (_ & (e & He & Ha & _) & Hd & _); [exact toy_marker_laws|vm_compute; reflexivity|exact Hw|exact Hr|].
  vm_compute in He. injection He as <-.
  split; [exact E|]. split; [exact Ha|]. split; [exact F|].
  destruct Hd as (ms & Hms & _ & Hc); [|exact F|by exists ms].
  constructor; [|constructor]. split; [apply (bool_decide_unpack _); vm_compute; exact I|reflexivity].
Defined.
