(* ===== verification/ObservationLoop.v ===== *)
(** * The observation loop (src/src/daemon/recovery_jobs.rs)

    The passes of [Jobs] in the loop that makes them: read the clocks and the registry,
    observe the due watchers one after the other, each for at most five seconds, commit
    what they showed, sleep until a second after the pass began. *)
From S2P Require Import Prelude Json Event Identity StateMachine State Effects Store Registry RegistrySafety.
From S2P Require Import Scheduler Jobs Mux Herdr.

Local Open Scope Z_scope.

Definition OBSERVE_TIMEOUT_MS : Z := 5000.
Definition PASS_PERIOD_MS : Z := 1000.

Inductive LoopOp : Type :=
| LWall
| LMono
| LList
| LObserve (w : WatcherState)
| LCommit (w : WatcherState) (s : ObservationSchedule) (r : ObservationResult)
| LSleepUntil (mono : Z).

(** An observation is awaited under its timeout; [LCommit] is [Jobs.commit_and_schedule]
    with the recovery job it may start. *)
Definition LoopAns (o : LoopOp) : Type :=
  match o with
  | LWall | LMono => Z
  | LList => Registry
  | LObserve _ => Await (result string ObservationResult)
  | LCommit _ _ _ | LSleepUntil _ => unit
  end.

Abbreviation LoopProg := (Prog LoopAns).
Definition lcall (o : LoopOp) : LoopProg (LoopAns o) := call o.

(** [for (watcher, mut next_schedule) in due]. *)
Fixpoint observe_all (l : list (WatcherState * ObservationSchedule)) : LoopProg unit :=
  match l with
  | [] => Ret tt
  | (w, s) :: l =>
      let! observed := lcall (LObserve w) in
      let! _ := match observed with
                | Ready (Ok r) => lcall (LCommit w s r)
                | Ready (Err _) | Expired => Ret tt
                end in
      observe_all l
  end.

(** When the pass began and the timers it leaves. *)
Definition observation_pass (timers : gmap string Z) : LoopProg (Z * gmap string Z) :=
  let! now := lcall LWall in
  let! mono := lcall LMono in
  let! reg := lcall LList in
  let d := due_pass now mono reg timers in
  let! _ := observe_all (due d) in
  Ret (mono, runtime_due d).

(** [None]: the fuel is spent; zero iterations are no limit. *)
Fixpoint observation_loop (fuel : nat) (max_iterations iterations : Z) (timers : gmap string Z)
    : LoopProg (option unit) :=
  match fuel with
  | O => Ret None
  | S fuel =>
      let! pass := observation_pass timers in
      let iterations := iterations + 1 in
      if (0 <? max_iterations) && (max_iterations <=? iterations) then Ret (Some tt)
      else
        let! _ := lcall (LSleepUntil (saturating_add u64_max pass.1 PASS_PERIOD_MS)) in
        observation_loop fuel max_iterations iterations pass.2
  end.

(** ** The loop makes the passes of [Jobs] *)

(** The passes of a conversation, from the clocks and registries it read, and the watchers
    it observed. *)
Fixpoint passes_from (now mono : Z) (tr : list (Ev LoopAns)) : list Pass :=
  match tr with
  | [] => []
  | existT o x :: tr =>
      match o return LoopAns o → list Pass with
      | LWall => λ now, passes_from now mono tr
      | LMono => λ mono, passes_from now mono tr
      | LList => λ reg, mkPass now mono reg :: passes_from now mono tr
      | _ => λ _, passes_from now mono tr
      end x
  end.
Definition passes_of (tr : list (Ev LoopAns)) : list Pass := passes_from 0 0 tr.
Definition observed_of (tr : list (Ev LoopAns)) : list WatcherState :=
  omap (λ e, match projT1 e with LObserve w => Some w | _ => None end) tr.

Lemma lcall_traces o tr (x : LoopAns o) : traces (lcall o) tr x ↔ tr = [existT o x].
Proof. apply traces_call. Qed.

Lemma observe_all_traces l tr u now mono rest :
  traces (observe_all l) tr u →
  observed_of tr = l.*1 ∧ passes_from now mono (tr ++ rest) = passes_from now mono rest.
Proof.
  revert tr. induction l as [|[w s] l IH]; intros tr; cbn [observe_all]; [by intros [-> ->]|].
  intros (tr1 & tr2 & x & -> & ->%(lcall_traces (LObserve w)) & Hr)%traces_bind.
  apply traces_bind in Hr as (tr3 & tr4 & [] & -> & H3 & [Ho Hp]%IH).
  assert (observed_of tr3 = [] ∧ ∀ l, passes_from now mono (tr3 ++ l) = passes_from now mono l) as [Ho3 Hp3].
  { destruct x as [[r|]|]; [apply (lcall_traces (LCommit w s r)) in H3 as ->|destruct H3 as [-> _]..]; done. }
  split.
  - unfold observed_of in *. cbn. by rewrite omap_app, Ho3, Ho.
  - cbn. by rewrite <- app_assoc, Hp3.
Qed.

Lemma pass_traces timers tr p now0 mono0 rest :
  traces (observation_pass timers) tr p →
  ∃ now mono reg, passes_from now0 mono0 (tr ++ rest) = mkPass now mono reg :: passes_from now mono rest
    ∧ observed_of tr = (due (due_pass now mono reg timers)).*1
    ∧ p = (mono, runtime_due (due_pass now mono reg timers)).
Proof.
  unfold observation_pass.
  intros (tr1 & tr2 & now & -> & ->%(lcall_traces LWall) & Hr)%traces_bind.
  apply traces_bind in Hr as (tr3 & tr4 & mono & -> & ->%(lcall_traces LMono) & Hr).
  apply traces_bind in Hr as (tr5 & tr6 & reg & -> & ->%(lcall_traces LList) & Hr).
  apply traces_bind in Hr as (tr7 & tr8 & u & -> & Ho & [-> ->]).
  destruct (observe_all_traces _ _ _ now mono rest Ho) as [Hobs Hp]. exists now, mono, reg.
  rewrite app_nil_r in *. split_and!; [cbn; by rewrite Hp|exact Hobs|done].
Qed.

(** What the loop observes is what the passes over the clocks and registries it read find
    due, in this order. *)
Lemma loop_runs_passes fuel maximum iterations timers tr r now0 mono0 :
  traces (observation_loop fuel maximum iterations timers) tr r →
  observed_of tr = concat ((λ d, (due d).*1) <$> run_passes (passes_from now0 mono0 tr) timers).
Proof.
  revert iterations timers tr now0 mono0.
  induction fuel as [|fuel IH]; intros iterations timers tr now0 mono0; cbn [observation_loop]; [by intros [-> _]|].
  intros (tr1 & tr2 & p & -> & Hp & Hr)%traces_bind.
  destruct (pass_traces _ _ _ now0 mono0 tr2 Hp) as (now & mono & reg & -> & Ho & ->).
  unfold observed_of in *. rewrite omap_app, Ho. cbn [run_passes fmap list_fmap concat ps_now ps_mono ps_registry].
  f_equal. cbn [fst snd] in Hr. destruct (_ && _); [by destruct Hr as [-> _]|].
  apply traces_bind in Hr as (tr3 & tr4 & u & -> & ->%(lcall_traces (LSleepUntil _)) & Hr).
  cbn. by eapply IH.
Qed.

(** ** How long a pass takes *)
Section Timing.
Context {World : Type} (h : ∀ o, World → World * LoopAns o) (clock : World → Z) (n c : Z).

(** The monotonic clock does not run backwards, an observation ends with its timeout, a
    sleep ends at most [c] late, any other call takes at most [c], and the registry holds
    at most [n] watchers. *)
Record loop_clock : Prop := {
  lc_nonneg : 0 ≤ n ∧ 0 ≤ c;
  lc_reads s : (h LMono s).2 = clock s;
  lc_holds s : Z.of_nat (length (reg_list (h LList s).2)) ≤ n;
  lc_mono o s : clock s ≤ clock (h o s).1;
  lc_bound o s : clock (h o s).1 ≤ match o with
                                   | LObserve _ => clock s + OBSERVE_TIMEOUT_MS
                                   | LSleepUntil u => Z.max (clock s) u + c
                                   | _ => clock s + c
                                   end;
}.
Context (laws : loop_clock).

(** The longest time from one pass to the next. *)
Definition pass_gap : Z := Z.max 1000 (n * (5000 + c) + 2 * c) + 2 * c.

Lemma observe_all_time l s :
  clock s ≤ clock (interp h (observe_all l) s).1 ≤ clock s + Z.of_nat (length l) * (5000 + c).
Proof.
  destruct (lc_nonneg laws) as [_ Hc]. revert s. induction l as [|[w sch] l IH]; intros s; cbn [observe_all].
  { cbn. lia. }
  rewrite interp_bind. cbn [lcall call interp].
  pose proof (lc_mono laws (LObserve w) s). pose proof (lc_bound laws (LObserve w) s) as Hb. cbn in Hb.
  unfold OBSERVE_TIMEOUT_MS in Hb. destruct (h (LObserve w) s) as [s1 x]. cbn [fst] in *. rewrite interp_bind.
  assert (clock s1 ≤ clock (interp h (match x with
            | Ready (Ok r) => lcall (LCommit w sch r) | Ready (Err _) | Expired => Ret tt end) s1).1 ≤ clock s1 + c)
    as Hx.
  { destruct x as [[r|]|]; cbn [lcall call interp fst]; try lia.
    pose proof (lc_mono laws (LCommit w sch r) s1). pose proof (lc_bound laws (LCommit w sch r) s1) as Hd.
    cbn in Hd. destruct (h (LCommit w sch r) s1). cbn in *. lia. }
  destruct (interp h _ s1) as [s2 []]. cbn [fst] in Hx. specialize (IH s2). cbn [length]. lia.
Qed.

(** Each pass begins no earlier than the one before and at most a gap after it. *)
Fixpoint gapped (lo hi : Z) (ps : list Pass) : Prop :=
  match ps with
  | [] => True
  | p :: ps => lo ≤ ps_mono p ≤ hi ∧ gapped (ps_mono p) (ps_mono p + pass_gap) ps
  end.

Lemma gapped_weaken lo hi lo' hi' ps : lo' ≤ lo → hi ≤ hi' → gapped lo hi ps → gapped lo' hi' ps.
Proof. destruct ps; [done|]. cbn. intros ?? [? ?]. split; [lia|done]. Qed.

Lemma due_pass_length now mono reg timers :
  (length (due (due_pass now mono reg timers)) ≤ length (reg_list reg))%nat.
Proof.
  unfold due_pass. cut (∀ l p, (length (due (foldl (due_one now mono) p l)) ≤ length (due p) + length l)%nat).
  { intros Hl. apply (Hl _ (mkDuePass timers [])). }
  induction l as [|w l IH]; intros p; cbn [foldl length]; [lia|]. etrans; [apply IH|].
  unfold due_one. destruct (unobserved (lifecycle w)); [lia|].
  destruct (_ || _); cbn; rewrite ?length_app; cbn; lia.
Qed.

(** What a pass reads and when it ends. *)
Lemma pass_time timers s :
  let out := interp h (observation_pass timers) s in
  clock s ≤ out.2.1 ≤ clock s + c ∧ out.2.1 ≤ clock out.1 ≤ out.2.1 + n * (5000 + c) + 2 * c.
Proof.
  destruct (lc_nonneg laws) as [Hn Hc]. cbv zeta. unfold observation_pass.
  rewrite interp_bind. cbn [lcall call interp].
  pose proof (lc_mono laws LWall s). pose proof (lc_bound laws LWall s) as Hb1. cbn in Hb1.
  destruct (h LWall s) as [s1 now]. cbn [fst] in *. rewrite interp_bind. cbn [lcall call interp].
  pose proof (lc_mono laws LMono s1). pose proof (lc_bound laws LMono s1) as Hb2. pose proof (lc_reads laws s1) as Hr.
  cbn in Hb2. destruct (h LMono s1) as [s2 mono]. cbn [fst snd] in *. subst mono.
  rewrite interp_bind. cbn [lcall call interp].
  pose proof (lc_mono laws LList s2). pose proof (lc_bound laws LList s2) as Hb3. pose proof (lc_holds laws s2) as Hl.
  cbn in Hb3. destruct (h LList s2) as [s3 reg]. cbn [fst snd] in *.
  rewrite interp_bind. pose proof (due_pass_length now (clock s1) reg timers) as Hd.
  set (d := due (due_pass now (clock s1) reg timers)) in *.
  pose proof (observe_all_time d s3) as Ho. destruct (interp h (observe_all d) s3) as [s4 []]. cbn [fst snd interp] in *.
  assert (Z.of_nat (length d) * (5000 + c) ≤ n * (5000 + c)) by nia. lia.
Qed.

Lemma pass_converse timers s now0 mono0 rest :
  let tr := (converse h (observation_pass timers) s).1 in
  ∃ now reg, passes_from now0 mono0 (tr ++ rest)
             = mkPass now (interp h (observation_pass timers) s).2.1 reg
               :: passes_from now (interp h (observation_pass timers) s).2.1 rest
    ∧ (interp h (observation_pass timers) s).2.2
      = runtime_due (due_pass now (interp h (observation_pass timers) s).2.1 reg timers).
Proof.
  cbv zeta. pose proof (converse_traces h (observation_pass timers) s) as Ht. rewrite converse_result in Ht.
  destruct (pass_traces _ _ _ now0 mono0 rest Ht) as (now & mono & reg & Hp & _ & He).
  rewrite He. cbn [fst snd]. by exists now, reg.
Qed.

Lemma loop_gapped fuel maximum iterations timers s now0 mono0 :
  gapped (clock s) (clock s + c)
    (passes_from now0 mono0 (converse h (observation_loop fuel maximum iterations timers) s).1).
Proof.
  destruct (lc_nonneg laws) as [Hn Hc]. revert iterations timers s now0 mono0.
  induction fuel as [|fuel IH]; intros iterations timers s now0 mono0; cbn [observation_loop]; [done|].
  rewrite converse_bind.
  destruct (pass_converse timers s now0 mono0
    (converse h (let iterations := iterations + 1 in
        if (0 <? maximum) && (maximum <=? iterations) then Ret (Some tt)
        else let! _ := lcall (LSleepUntil (saturating_add u64_max
                (converse h (observation_pass timers) s).2.1 PASS_PERIOD_MS)) in
             observation_loop fuel maximum iterations (converse h (observation_pass timers) s).2.2)
       (interp h (observation_pass timers) s).1).1) as (now & reg & Hp & _).
  cbv zeta in Hp |- *. rewrite Hp. clear Hp. destruct (pass_time timers s) as [H1 H2].
  rewrite !converse_result. destruct (interp h (observation_pass timers) s) as [s1 [mono timers1]].
  cbn [fst snd gapped ps_mono] in *. split; [lia|].
  destruct (_ && _); [done|]. rewrite converse_bind. cbn [lcall call converse interp].
  pose proof (lc_mono laws (LSleepUntil (saturating_add u64_max mono PASS_PERIOD_MS)) s1).
  pose proof (lc_bound laws (LSleepUntil (saturating_add u64_max mono PASS_PERIOD_MS)) s1) as Hb. cbn in Hb.
  destruct (h (LSleepUntil _) s1) as [s2 []]. cbn [fst snd converse app passes_from] in *.
  eapply gapped_weaken; [| |apply IH]; [lia|].
  unfold pass_gap, saturating_add, PASS_PERIOD_MS in *. lia.
Qed.

Lemma gapped_app lo hi ps0 p0 ps :
  gapped lo hi (ps0 ++ p0 :: ps) → gapped (ps_mono p0) (ps_mono p0 + pass_gap) ps.
Proof. revert lo hi. induction ps0 as [|p ps0 IH]; intros lo hi [_ H]; [done|by eapply IH]. Qed.

Lemma run_passes_app ps0 qs timers :
  ∃ t, run_passes (ps0 ++ qs) timers = run_passes ps0 timers ++ run_passes qs t.
Proof.
  revert timers. induction ps0 as [|p ps0 IH]; intros timers; cbn; [by exists timers|].
  destruct (IH (runtime_due (due_pass (ps_now p) (ps_mono p) (ps_registry p) timers))) as [t Ht].
  exists t. by rewrite Ht.
Qed.

Lemma run_passes_length ps timers : length (run_passes ps timers) = length ps.
Proof. revert timers. induction ps as [|p ps IH]; intros timers; cbn; [done|]. by rewrite IH. Qed.

(** A watcher whose timer runs out at [T] is observed in the first pass after [T] at the
    latest, which begins a gap after [T] at the latest. *)
Lemma observed_within T ps lo timers id d0 :
  timers !! id = Some d0 → d0 ≤ T → lo ≤ T → gapped lo (lo + pass_gap) ps → Forall (watchable id) ps →
  Exists (λ p, T ≤ ps_mono p) ps →
  ∃ k p d, ps !! k = Some p ∧ run_passes ps timers !! k = Some d ∧ observes id d ∧ ps_mono p ≤ T + pass_gap.
Proof.
  revert lo timers d0. induction ps as [|p ps IH]; intros lo timers d0 Ht Hle Hlo Hg Hw Hx.
  { by apply Exists_nil in Hx. }
  apply Forall_cons in Hw as [(Hk & w & Hw & Hu) Hws]. pose proof (Hk _ _ Hw) as <-.
  cbn [gapped] in Hg. destruct Hg as [Hp Hg].
  destruct (due_pass_spec (ps_now p) (ps_mono p) (ps_registry p) timers w Hk Hw) as [Hdue Htimer].
  destruct (is_due (ps_now p) (ps_mono p) timers w) eqn:Ed.
  - exists 0%nat, p. eexists. split; [done|]. split; [done|]. split; [|lia]. apply list_elem_of_fmap_2. by apply Hdue.
  - destruct (Htimer Hu) as (d & Hd & _ & Hmono). unfold is_due in Ed. rewrite Hu in Ed. cbn in Ed.
    apply orb_false_iff in Ed as [_ Ed%Z.leb_gt].
    pose proof (proj2 (due_mono_bound (ps_now p) (ps_mono p) w (timers !! ws_id w)) d0 Ht).
    apply Exists_cons in Hx as [Hx|Hx]; [lia|].
    destruct (IH (ps_mono p) _ d Hd) as (k & q & e & Hk1 & Hk2 & Ho & Hq); try done; [|lia|].
    { etrans; [by apply Hmono|done]. }
    by exists (1 + k)%nat, q, e.
Qed.

(** C23: A live watcher is observed in time, in the loop as it runs.  With at most [n]
    watchers, calls that take at most [c] and observations cut off after five seconds, the
    loop observes a watcher that stays observable in a pass that begins at most 65 seconds
    and one gap after any earlier pass; the gap between passes is one second or five
    seconds for every watcher, whichever is longer, since the watchers of a pass are
    observed one after the other. *)
Theorem live_watcher_observed fuel timers s id ps0 p0 ps :
  let tr := (converse h (observation_loop fuel 0 0 timers) s).1 in
  passes_of tr = ps0 ++ p0 :: ps → Forall (watchable id) (p0 :: ps) →
  Exists (λ p, ps_mono p0 + 65000 ≤ ps_mono p) ps →
  let passes := run_passes (passes_of tr) timers in
  observed_of tr = concat ((λ d, (due d).*1) <$> passes)
  ∧ ∃ k p d, (length ps0 < k)%nat ∧ passes_of tr !! k = Some p ∧ passes !! k = Some d ∧ observes id d
      ∧ ps_mono p ≤ ps_mono p0 + 65000 + pass_gap.
Proof.
  intros tr Hps [(Hk & w & Hw & Hu) Hws]%Forall_cons Hx passes. split.
  { by eapply loop_runs_passes, converse_traces. }
  pose proof (loop_gapped fuel 0 0 timers s 0 0) as Hg. fold tr in Hg.
  change (passes_from 0 0 tr) with (passes_of tr) in Hg. unfold passes. rewrite Hps in Hg |- *.
  apply gapped_app in Hg. pose proof (Hk _ _ Hw) as <-.
  destruct (run_passes_app ps0 (p0 :: ps) timers) as [t ->]. cbn [run_passes].
  destruct (due_pass_spec (ps_now p0) (ps_mono p0) (ps_registry p0) t w Hk Hw) as [_ Ht].
  destruct (Ht Hu) as (d & Hd & Hle & _).
  destruct (observed_within (ps_mono p0 + 65000) ps (ps_mono p0) _ (ws_id w) d Hd Hle) as (k & p & e & H1 & H2 & H3 & H4);
    [lia|done..|].
  exists (length ps0 + S k)%nat, p, e. split; [lia|].
  rewrite !lookup_app_r by (rewrite ?run_passes_length; lia). rewrite run_passes_length.
  replace (length ps0 + S k - length ps0)%nat with (S k) by lia. done.
Qed.
End Timing.

(** ** A loop whose observations all time out *)
Definition slow_world (o : LoopOp) (clock : Z) : Z * LoopAns o :=
  match o return Z * LoopAns o with
  | LWall => (clock, 1000 + clock)
  | LMono => (clock, clock)
  | LList => (clock, sample_registry)
  | LObserve _ => (clock + 5000, Expired)
  | LCommit _ _ _ => (clock, tt)
  | LSleepUntil u => (Z.max clock u, tt)
  end.

Lemma slow_clock : loop_clock slow_world (λ clock, clock) 2 0.
Proof.
  split; [lia|done| |intros []; cbn; lia|intros []; cbn; unfold OBSERVE_TIMEOUT_MS; lia].
  intros s. change (Z.of_nat (length (reg_list sample_registry)) ≤ 2). vm_compute. discriminate.
Qed.

Definition slow_passes : list Pass := passes_of (converse slow_world (observation_loop 70 0 0 ∅) 0).1.

Lemma slow_registries : ps_registry <$> slow_passes = replicate 70 sample_registry.
Proof. vm_compute. reflexivity. Qed.

Lemma slow_watchable p : p ∈ slow_passes → watchable "w1" p.
Proof.
  intros Hp. assert (ps_registry p = sample_registry) as E.
  { apply elem_of_replicate_inv with (n := 70%nat). rewrite <- slow_registries. by apply list_elem_of_fmap_2. }
  unfold watchable. rewrite E. split; [apply sample_registry_keyed|].
  exists (sample_watcher "w1" 7). split; vm_compute; reflexivity.
Qed.

Lemma live_watcher_observed_witness :
  pass_gap 2 0 = 10000
  ∧ ∃ k p, (0 < k)%nat ∧ slow_passes !! k = Some p ∧ ps_mono p ≤ 75000.
Proof.
  split; [vm_compute; reflexivity|].
  assert (slow_passes = mkPass 1000 0 sample_registry :: tail slow_passes) as E by (vm_compute; reflexivity).
  destruct (live_watcher_observed slow_world (λ clock, clock) 2 0 slow_clock 70 ∅ 0 "w1" []
              (mkPass 1000 0 sample_registry) (tail slow_passes) E) as [_ (k & p & d & Hk & Hp & _ & _ & Hm)].
  - apply Forall_forall. intros p Hp. apply slow_watchable. by rewrite E.
  - apply Exists_exists. exists (List.last slow_passes (mkPass 0 0 sample_registry)).
    split; [|vm_compute; discriminate]. apply (list_elem_of_lookup_2 _ 68). vm_compute. reflexivity.
  - exists k, p. split; [exact Hk|]. split; [exact Hp|]. exact Hm.
Defined.
